(* ===== verification/_CoqProject ===== *)
-Q . S2P
Prelude.v
Ring.v
CString.v
Arp.v
Pci.v
Irq.v
Spinlock.v
Mmu.v
Kalloc.v
Vm.v
VmSpec.v
VmLife.v
Segment.v
Mp.v
Proc.v
ProcSpec.v
ProcVm.v
Syscall.v
SyscallSpec.v
E1000.v
Net.v
Buf.v
Bio.v
Log.v
Tx.v
Fs.v
FsSpec.v
FsData.v
FsTrunc.v
Mkfs.v
MkfsSpec.v
File.v
FileFs.v
Sysfile.v
SysfileSpec.v
Exec.v
ExecSpec.v
Grep.v
Pipe.v
User.v
UserSpec.v
Shell.v
ShellSpec.v
ShellRun.v
Umalloc.v
UmallocSpec.v
Console.v
ConsoleSpec.v
Ide.v
IdeSpec.v
Boot.v
