(* ===== verification/Prelude.v ===== *)
(** * A verification development for the xv6 networking-stack kernel

    The program is xv6, a small Unix-like kernel for 32-bit x86 machines with
    several CPUs, extended with a driver for the e1000 network card and with
    the sending of ARP requests, together with its user programs.  This
    library models it file by file as executable definitions (state passing in
    the monad [M] below, step relations where processes, CPUs or devices
    interleave) and proves what the parts promise.  Names are those of the
    source; a field or local that had to be renamed says so.

    ** The parts and the files that model them

    - Shared notions.  Prelude.v: outcomes, the monad, its rules, machine
      integers, little-endian bytes, arrays.  Ring.v: ring buffers whose 32-bit
      indices wrap around (pipe.c, console.c).  CString.v: string.c, util.c,
      and the string part of ulib.c, over a byte memory.
    - Machine.  Mmu.v: mmu.h, memlayout.h.  Segment.v: descriptor tables, task
      state and gates (vm.c, trap.c).  Irq.v: ioapic.c, picirq.c.  Spinlock.v:
      spinlock.c, sleeplock.c, and CPUs racing for a lock.  Mp.v: mp.c, the
      search for the processors.  Boot.v: bootmain.c, which loads the kernel.
    - Memory.  Kalloc.v: kalloc.c.  Vm.v, VmSpec.v, VmLife.v: the page tables
      of vm.c, and whole address spaces from [setupkvm] to [freevm].
    - Processes.  Proc.v, ProcSpec.v: proc.c, its functions split where they
      give up the CPU, and all CPUs interleaved.  ProcVm.v: proc.c on the memory of
      kalloc.c and vm.c.  Exec.v, ExecSpec.v: exec.c, elf.h, [loaduvm].
      Syscall.v, SyscallSpec.v: syscall.c, sysproc.c, trap.c.
    - Network.  Pci.v: pci.c and its registers.  E1000.v: e1000.c.  Net.v:
      nic.c, arp.c, sysarp.c and the bus walk.  Arp.v: arp_frame.c.
    - Disk and files.  Buf.v: buf.h, memide.c, and the interfaces between disk,
      cache and log.  Ide.v, IdeSpec.v: ide.c.  Bio.v: bio.c.  Log.v: log.c.
      Tx.v: the blocks as a transaction sees them.  Fs.v: fs.c; FsSpec.v: its
      inodes and bitmap, FsData.v: files as arrays of bytes, FsTrunc.v: their
      end.  Mkfs.v, MkfsSpec.v: mkfs.c and the image it makes.  File.v: file.c;
      FileFs.v: file.c on fs.c, log.c, bio.c and memide.c.
      Sysfile.v, SysfileSpec.v: sysfile.c.  Pipe.v: pipe.c.
    - Console.  Console.v, ConsoleSpec.v: console.c, kbd.c, kbd.h, uart.c.
    - User programs.  User.v, UserSpec.v: printf.c, ulib.c and the small
      programs, as trees of system calls.  Grep.v: grep.c.  Shell.v,
      ShellSpec.v, ShellRun.v: sh.c.  Umalloc.v, UmallocSpec.v: umalloc.c.

    Components meet at type classes: [BlockDev] (disk below the cache),
    [BufLayer] (cache below the log), [BlockLayer] (log below the file system),
    [ProcEnv] (what proc.c uses), [ExecEnv] (what exec.c uses of fs.c), [IoEnv]
    (what file.c uses), [KernelCalls] (what sysfile.c uses).  The client's
    theorems are proved against the class and its laws, and the implementing
    component gives the instance.  Hardware is a parameter too: a class with the accesses the driver makes
    ([PciPorts], [Mmio], [BytePorts], [WordPorts]) and a class with the
    documented behaviour the driver relies on ([ConfigMechanism],
    [IoapicWindow], [AtaDisk], [ConsoleHw], the card's rules in E1000.v); each
    is instantiated by a small concrete device in the witnesses.

    ** What the theorems show

    - Crash safety: a file system call's writes reach the disk all at once or
      not at all, through any power failure, recovery included (Log.v, Tx.v);
      the log's reservations are enough when they are kept (Log.v), and two
      places where the code exceeds them (Log.v, FileFs.v).
    - Concurrency, by invariants of step relations: mutual exclusion
      (Spinlock.v), one CPU per process, no lost exits (ProcSpec.v), pipes
      (Pipe.v), the disk queue (IdeSpec.v); no wakeup is lost.
    - Refinement of an abstract contract: page allocator (Kalloc.v), buffer
      cache (Bio.v), file table and descriptors (File.v, SysfileSpec.v), pipe
      as a queue, disk queue as a sequential disk, console as a line editor
      and a terminal (ConsoleSpec.v).
    - Equivalence with a reference: the shell's parser and its grammar, what
      a command line runs, grep's matcher and the language of the pattern, the
      flat screen memory and a screen of rows.
    - The network path: card discovery and set-up, descriptor rings, ARP
      frames byte by byte from the system call to the card.
    - Files: writei and readi on the blocks of a file, the bitmap, the inode on
      disk and all other files (FsData.v); iput frees a file without links, all
      of it and nothing else (FsTrunc.v); the image mkfs makes is a file system
      for the kernel, which reads from it what was copied in (MkfsSpec.v).
    - Programs: exec runs the program an ELF file describes or changes nothing
      (ExecSpec.v); the boot loader loads the kernel its ELF header describes
      and enters it (Boot.v); fork's copy of the memory (VmLife.v).
    - Discovery: [mpinit] finds the configuration table and lists its
      processors and I/O interrupt controller (Mp.v).
    - Memory safety and bounds: address spaces under every operation of vm.c,
      system call arguments, malloc and free, the text conversions of
      arp_frame.c, with exact bounds where the code can be made to exceed them.
    - Round trips: inodes to disk and back, bytes to files and back,
      MAC addresses to text and back.

    ** Bounds and fuel

    Integers are [Z] with the wrap-around of their C type written out ([u32],
    [s32], ...).  A C loop that is not counted takes fuel and fails with
    [EFuel] when it runs out; the theorems give an amount that suffices in
    terms of the state (the length of the list or queue walked, the bytes
    pending at a device, the size of a line), or say that a result exists from
    some amount on ([returns], [settles]), so running out never hides an
    outcome.  Constants (NPROC, NBUF, FSSIZE, ...) are those of param.h.

    ** Not modelled

    - The assembly files (bootasm.S, entry.S, entryother.S, initcode.S,
      swtch.S, trapasm.S, usys.S): mode and stack switches below
      the level of C; [swtch] appears as a step of ProcSpec.v.
    - main.c, lapic.c: the order of start-up and the local interrupt
      controller.
    - usertests.c is a test suite.
    - Most text printed with [cprintf] outside console.c. *)

From stdpp Require Export prelude gmap strings.
From Stdlib Require Export ZArith Lia.

#[global] Open Scope Z_scope.

(** ** Outcomes

    Kernel code either returns, or stops in one of the ways the source can
    stop: [panic], a [sleep] nobody in a sequential run can end, a spin on a
    lock somebody else holds, an access outside a C array, a loop that did
    not finish within the fuel it was given, or a power failure (which leaves
    the contents of the disk behind). *)

Inductive err :=
  | EPanic (msg : string)
  | ESleep (chan : string)
  | ESpin
  | EOob (array : string)
  | EFuel
  | ECrash (disk : gmap Z (list Z)).

Inductive result (A : Type) :=
  | Done (a : A)
  | Fail (e : err).
Arguments Done {A} a.
Arguments Fail {A} e.

Definition rbind {A B} (r : result A) (f : A → result B) : result B :=
  match r with Done a => f a | Fail e => Fail e end.

(** State-and-failure monad; every stateful routine of the kernel has a type
    [M S A] for the state [S] of its component. *)

Definition M (S A : Type) : Type := S → result (A * S).

Definition ret {S A} (a : A) : M S A := λ s, Done (a, s).
Definition bind {S A B} (m : M S A) (f : A → M S B) : M S B :=
  λ s, match m s with Done (a, s') => f a s' | Fail e => Fail e end.
Definition fail {S A} (e : err) : M S A := λ _, Fail e.
Definition panic {S A} (msg : string) : M S A := fail (EPanic msg).
Definition get {S} : M S S := λ s, Done (s, s).
Definition gets {S A} (f : S → A) : M S A := λ s, Done (f s, s).
Definition modify {S} (f : S → S) : M S unit := λ s, Done (tt, f s).
Definition when {S} (b : bool) (m : M S unit) : M S unit := if b then m else ret tt.

(** Run a computation on a component of a larger state. *)
Definition zoom {S T A} (g : S → T) (p : T → S → S) (m : M T A) : M S A :=
  λ s, match m (g s) with Done (a, t) => Done (a, p t s) | Fail e => Fail e end.

(** [for(i = i0; i < i0 + n; i++) body(i)] *)
Fixpoint for_ {S} (n : nat) (i : Z) (body : Z → M S unit) : M S unit :=
  match n with
  | O => ret tt
  | Datatypes.S n' => bind (body i) (λ _, for_ n' (i + 1) body)
  end.

Declare Scope kernel_scope.
Delimit Scope kernel_scope with kernel.
Notation "x <- m ;; k" := (bind m (λ x, k))
  (at level 100, m at next level, right associativity) : kernel_scope.
Notation "m ;; k" := (bind m (λ _, k))
  (at level 100, k at level 200, right associativity) : kernel_scope.
#[global] Open Scope kernel_scope.

Lemma bind_run {St A B} (m : M St A) (f : A → M St B) s a s' : m s = Done (a, s') → bind m f s = f a s'.
Proof. unfold bind. by intros ->. Qed.

(** ** Reasoning about computations

    [wpe m Q E s]: started in [s], [m] either returns a value and a state
    that satisfy [Q], or stops with an error that satisfies [E].  [wp] is the
    total version: no error at all. *)

Definition wpe {S A} (m : M S A) (Q : A → S → Prop) (E : err → Prop) (s : S) : Prop :=
  match m s with Done (a, s') => Q a s' | Fail e => E e end.

Definition no_err : err → Prop := λ _, False.
Abbreviation wp m Q s := (wpe m Q no_err s).

Section wpe_rules.
Context {St : Type}.

Lemma wpe_ret {A} (a : A) Q E (s : St) : Q a s → wpe (ret a) Q E s.
Proof. done. Qed.

Lemma wpe_bind {A B} (m : M St A) (f : A → M St B) Q E (s : St) :
  wpe m (λ a s', wpe (f a) Q E s') E s → wpe (bind m f) Q E s.
Proof. unfold wpe, bind. by destruct (m s) as [[a s']|e]. Qed.

Lemma wpe_mono {A} (m : M St A) (Q Q' : A → St → Prop) (E E' : err → Prop) (s : St) :
  wpe m Q E s → (∀ a s', Q a s' → Q' a s') → (∀ e, E e → E' e) → wpe m Q' E' s.
Proof. unfold wpe. destruct (m s) as [[a s']|e]; auto. Qed.

Lemma wpe_gets {A} (f : St → A) Q E (s : St) : Q (f s) s → wpe (gets f) Q E s.
Proof. done. Qed.

Lemma wpe_modify (f : St → St) Q E (s : St) : Q tt (f s) → wpe (modify f) Q E s.
Proof. done. Qed.

Lemma wpe_zoom {T A} (g : St → T) p (m : M T A) Q E (s : St) :
  wpe m (λ a t, Q a (p t s)) E (g s) → wpe (zoom g p m) Q E s.
Proof. unfold wpe, zoom. by destruct (m (g s)) as [[a s']|e]. Qed.

(** A counted loop with invariant [I i s]. *)
Lemma wpe_for (n : nat) (i : Z) (body : Z → M St unit) (I : Z → St → Prop) E (s : St) :
  I i s →
  (∀ j t, i ≤ j < i + Z.of_nat n → I j t →
          wpe (body j) (λ _ t', I (j + 1) t') E t) →
  wpe (for_ n i body) (λ _ t, I (i + Z.of_nat n) t) E s.
Proof.
  revert i s. induction n as [|n IH]; intros i s HI Hbody.
  - simpl. apply wpe_ret. by rewrite Z.add_0_r.
  - simpl. apply wpe_bind.
    eapply wpe_mono; [apply Hbody; [lia|done]| |done].
    intros [] t HI'. eapply wpe_mono; [apply IH; [done|]| |done].
    + intros j t' Hj. apply Hbody. lia.
    + cbn beta. intros _ t'.
      by replace (i + 1 + Z.of_nat n) with (i + Z.of_nat (Datatypes.S n)) by lia.
Qed.

Lemma wpe_eq {A} (m m' : M St A) Q E (s s' : St) : m s = m' s' → wpe m' Q E s' → wpe m Q E s.
Proof. unfold wpe. by intros ->. Qed.

(** The same for [for(i = 0; i < n; i++)], with a postcondition. *)
Lemma wpe_loop (n : Z) (body : Z → M St unit) (I : Z → St → Prop) Q E (s : St) :
  0 ≤ n → I 0 s →
  (∀ j t, 0 ≤ j < n → I j t → wpe (body j) (λ _ t', I (j + 1) t') E t) →
  (∀ t, I n t → Q tt t) →
  wpe (for_ (Z.to_nat n) 0 body) Q E s.
Proof.
  intros Hn HI Hbody HQ. eapply wpe_mono; [apply (wpe_for _ _ _ I E)| |done]; [done| |].
  - intros j t Hj. apply Hbody. lia.
  - cbn beta. rewrite Z.add_0_l, Z2Nat.id by done. intros [] t. apply HQ.
Qed.

Lemma wp_run {A} (m : M St A) Q (s : St) :
  wp m Q s ↔ ∃ a s', m s = Done (a, s') ∧ Q a s'.
Proof.
  unfold wpe, no_err. destruct (m s) as [[a s']|e]; naive_solver.
Qed.
End wpe_rules.

Create HintDb wpe_db.
#[export] Hint Resolve wpe_ret wpe_bind wpe_gets wpe_modify : wpe_db.

(** Push a goal [wpe m Q E s] through the straight-line part of [m]. *)
Ltac wpe_step :=
  lazymatch goal with
  | |- wpe (bind _ _) _ _ _ => apply wpe_bind
  | |- wpe (ret _) _ _ _ => apply wpe_ret
  | |- wpe (gets _) _ _ _ => apply wpe_gets
  | |- wpe (modify _) _ _ _ => apply wpe_modify
  end.
Ltac wpe_steps := repeat (wpe_step; cbn beta).

(** ** Computations that need fuel *)

(** [m] stops in [s] with [a] and [s'], given enough fuel; with less it does
    nothing else than run out of it. *)
Definition settles {S A} (m : nat → M S A) (s : S) (a : A) (s' : S) : Prop :=
  ∃ N, ∀ fuel, m fuel s = if (N <=? fuel)%nat then Done (a, s') else Fail EFuel.

Lemma settles_done {S A} (m : M S A) s a s' : m s = Done (a, s') → settles (λ _, m) s a s'.
Proof. intros E. exists O. done. Qed.

Lemma settles_bind {S A B} (m : nat → M S A) (k : nat → A → M S B) s a s1 b s2 :
  settles m s a s1 → settles (λ fuel, k fuel a) s1 b s2 → settles (λ fuel, bind (m fuel) (k fuel)) s b s2.
Proof.
  intros [N1 H1] [N2 H2]. exists (Nat.max N1 N2). intros fuel. unfold bind. rewrite H1.
  destruct (Nat.leb_spec N1 fuel), (Nat.leb_spec (Nat.max N1 N2) fuel); try lia; try done; rewrite H2.
  - by destruct (Nat.leb_spec N2 fuel); [|lia].
  - by destruct (Nat.leb_spec N2 fuel); [lia|].
Qed.

Lemma settles_step {S A B} (m : M S A) (k : nat → A → M S B) s a s1 b s2 :
  m s = Done (a, s1) → settles (λ fuel, k fuel a) s1 b s2 → settles (λ fuel, bind m (k fuel)) s b s2.
Proof. intros E [N H]. exists N. intros fuel. unfold bind. by rewrite E. Qed.

Lemma settles_assoc {S A} (m1 : nat → M S unit) (m2 m3 : M S unit) (k : nat → M S A) s s1 a s2 :
  settles (λ fuel, m1 fuel;; m2;; m3) s tt s1 → settles k s1 a s2 → settles (λ fuel, m1 fuel;; m2;; m3;; k fuel) s a s2.
Proof.
  intros [N HN] [N' HN']. exists (Nat.max N N'). intros fuel. specialize (HN fuel). specialize (HN' fuel). unfold bind in *.
  destruct (m1 fuel s) as [[[] x]|]; [destruct (m2 x) as [[[] y]|]; [destruct (m3 y) as [[[] z]|]|]|];
    destruct (Nat.leb_spec N fuel), (Nat.leb_spec N' fuel), (Nat.leb_spec (Nat.max N N') fuel); try lia; congruence.
Qed.

Lemma settles_det {S A} (m : nat → M S A) s a s' fuel r : settles m s a s' → m fuel s = Done r → r = (a, s').
Proof. intros [N H]. rewrite H. destruct (_ <=? _)%nat; [|done]. by intros [= <-]. Qed.

Lemma settles_seq {S A} (m1 : nat → M S unit) (m2 : M S unit) (c : nat → M S A) s s1 a s2 :
  settles (λ fuel, m1 fuel;; m2) s tt s1 → settles c s1 a s2 → settles (λ fuel, m1 fuel;; m2;; c fuel) s a s2.
Proof.
  intros [N HN] [N' HN']. exists (Nat.max N N'). intros fuel. specialize (HN fuel). specialize (HN' fuel). unfold bind in *.
  destruct (m1 fuel s) as [[[] x]|]; [destruct (m2 x) as [[[] y]|]|];
    destruct (Nat.leb_spec N fuel), (Nat.leb_spec N' fuel), (Nat.leb_spec (Nat.max N N') fuel); try lia; congruence.
Qed.

(** ** Machine integers

    A [w]-bit unsigned value is a [Z] in [0, 2^w); signed 32-bit values are
    kept in [-2^31, 2^31). *)

Definition u8 (x : Z) : Z := x mod 2 ^ 8.
Definition u16 (x : Z) : Z := x mod 2 ^ 16.
Definition u32 (x : Z) : Z := x mod 2 ^ 32.
Definition s32 (x : Z) : Z := (x + 2 ^ 31) mod 2 ^ 32 - 2 ^ 31.
Definition s8 (x : Z) : Z := (x + 2 ^ 7) mod 2 ^ 8 - 2 ^ 7.

Abbreviation is_byte b := (0 ≤ b < 256).
Abbreviation bytes l := (Forall (λ b, is_byte b) l).

Lemma u8_range x : is_byte (u8 x).
Proof. apply Z.mod_pos_bound. lia. Qed.
Lemma u8_small x : is_byte x → u8 x = x.
Proof. intros. apply Z.mod_small. done. Qed.
Lemma u32_small x : 0 ≤ x < 2 ^ 32 → u32 x = x.
Proof. intros. apply Z.mod_small. done. Qed.
Lemma u32_range x : 0 ≤ u32 x < 2 ^ 32.
Proof. apply Z.mod_pos_bound. lia. Qed.
Lemma u16_small x : 0 ≤ x < 2 ^ 16 → u16 x = x.
Proof. intros. apply Z.mod_small. done. Qed.
Lemma s32_small x : - 2 ^ 31 ≤ x < 2 ^ 31 → s32 x = x.
Proof. intros. unfold s32. rewrite Z.mod_small; lia. Qed.

Create Rewrite HintDb words.
#[export] Hint Rewrite u8_small u16_small u32_small s32_small using lia : words.
Ltac words := autorewrite with words; try lia.

Lemma Z_testbit_high w x i : 0 ≤ x < 2 ^ w → w ≤ i → Z.testbit x i = false.
Proof.
  intros Hx Hi. destruct (decide (w < 0)) as [Hw|Hw].
  { rewrite Z.pow_neg_r in Hx by lia. lia. }
  rewrite <-(Z.mod_small x (2 ^ w)) by lia.
  apply Z.mod_pow2_bits_high. lia.
Qed.

(** A disjoint [lor] is a sum. *)
Lemma Z_lor_add a b : Z.land a b = 0 → Z.lor a b = a + b.
Proof.
  intros H. rewrite <-Z.lxor_lor by done. symmetry. by apply Z.add_nocarry_lxor.
Qed.

Lemma Z_lor_shiftl_add w a b :
  0 ≤ w → 0 ≤ a < 2 ^ w → Z.lor a (Z.shiftl b w) = a + b * 2 ^ w.
Proof.
  intros Hw Ha. rewrite Z_lor_add; [by rewrite Z.shiftl_mul_pow2|].
  apply Z.bits_inj'. intros i Hi.
  rewrite Z.land_spec, Z.shiftl_spec, Z.bits_0 by lia.
  destruct (decide (i < w)).
  - rewrite (Z.testbit_neg_r b) by lia. by rewrite andb_false_r.
  - rewrite (Z_testbit_high w a) by lia. done.
Qed.

Lemma land_lnot_ones a k : 0 ≤ k → Z.land a (Z.lnot (Z.ones k)) = a - a mod 2 ^ k.
Proof.
  intros Hk.
  assert (Z.land a (Z.lnot (Z.ones k)) = Z.ldiff a (Z.ones k)) as ->.
  { apply Z.bits_inj'. intros i Hi. by rewrite Z.land_spec, Z.lnot_spec, Z.ldiff_spec by done. }
  rewrite Z.ldiff_ones_r by done.
  rewrite Z.shiftl_mul_pow2, Z.shiftr_div_pow2 by done.
  pose proof (Z.div_mod a (2 ^ k) ltac:(apply Z.pow_nonzero; lia)). lia.
Qed.

Lemma land_high_mask x k :
  0 ≤ k ≤ 32 → 0 ≤ x < 2 ^ 32 → Z.land x (2 ^ 32 - 2 ^ k) = x - x mod 2 ^ k.
Proof.
  intros Hk Hx. rewrite <-land_lnot_ones by lia.
  replace (2 ^ 32 - 2 ^ k) with (Z.land (Z.ones 32) (Z.lnot (Z.ones k))).
  { rewrite Z.land_assoc, Z.land_ones by lia. by rewrite Z.mod_small. }
  rewrite land_lnot_ones by lia. rewrite Z.ones_equiv.
  replace (2 ^ 32) with (2 ^ (32 - k) * 2 ^ k) by (rewrite <-Z.pow_add_r by lia; f_equal; lia).
  assert (0 < 2 ^ k) by (apply Z.pow_pos_nonneg; lia).
  replace (Z.pred (2 ^ (32 - k) * 2 ^ k)) with (2 ^ k - 1 + (2 ^ (32 - k) - 1) * 2 ^ k) by lia.
  rewrite Z.mod_add, (Z.mod_small (2 ^ k - 1)) by lia. lia.
Qed.

Lemma land_lnot x m : Z.land x (Z.lnot m) = x - Z.land x m.
Proof.
  assert (Z.ldiff x m + Z.land x m = x) as H.
  { rewrite <-Z_lor_add; [apply Z.lor_ldiff_and|].
    apply Z.bits_inj'. intros i Hi. rewrite !Z.land_spec, Z.ldiff_spec, Z.bits_0 by done.
    by destruct (Z.testbit x i), (Z.testbit m i). }
  rewrite <-H at 2. rewrite Z.ldiff_land. lia.
Qed.

(** ** Little-endian encodings of fixed width *)

Fixpoint le_bytes (n : nat) (x : Z) : list Z :=
  match n with O => [] | S n' => x mod 256 :: le_bytes n' (x / 256) end.

Fixpoint le_val (l : list Z) : Z :=
  match l with [] => 0 | b :: l' => b + 256 * le_val l' end.

Lemma length_le_bytes n x : length (le_bytes n x) = n.
Proof. revert x. induction n; intros; simpl; auto. Qed.

Lemma le_bytes_bytes n x : bytes (le_bytes n x).
Proof.
  revert x. induction n; intros; simpl; constructor; auto.
  apply Z.mod_pos_bound. lia.
Qed.

Lemma le_val_bytes n x : 0 ≤ x < 256 ^ Z.of_nat n → le_val (le_bytes n x) = x.
Proof.
  revert x. induction n as [|n IH]; intros x Hx; simpl.
  - change (256 ^ Z.of_nat 0) with 1 in Hx. lia.
  - rewrite IH; [pose proof (Z.div_mod x 256); lia|].
    rewrite Nat2Z.inj_succ, Z.pow_succ_r in Hx by lia.
    split; [apply Z.div_pos; lia|apply Z.div_lt_upper_bound; lia].
Qed.

Lemma le_bytes_val l : bytes l → le_bytes (length l) (le_val l) = l.
Proof.
  induction 1 as [|b l Hb Hl IH]; simpl; [done|]. f_equal.
  - rewrite Z.mul_comm, Z.mod_add by lia. by apply Z.mod_small.
  - rewrite Z.mul_comm, Z.div_add by lia. rewrite Z.div_small by done. done.
Qed.

Lemma le_val_range l : bytes l → 0 ≤ le_val l < 256 ^ Z.of_nat (length l).
Proof.
  induction 1 as [|b l Hb Hl IH].
  - simpl. change (256 ^ Z.of_nat 0) with 1. lia.
  - simpl length. rewrite Nat2Z.inj_succ, Z.pow_succ_r by lia. simpl le_val. lia.
Qed.

Lemma le_val_app l1 l2 : le_val (l1 ++ l2) = le_val l1 + 256 ^ Z.of_nat (length l1) * le_val l2.
Proof.
  induction l1 as [|b l IH].
  - simpl app. simpl length. simpl (le_val []). change (256 ^ Z.of_nat 0) with 1. lia.
  - simpl length. rewrite Nat2Z.inj_succ, Z.pow_succ_r by lia.
    simpl. rewrite IH. lia.
Qed.

(** ** Arrays of fixed size as lists

    [splice off l' l] overwrites [l] from position [off] with [l'], as a
    [memmove] into the middle of an array does; it never changes the length
    of an array that has room for [l']. *)

Definition splice {A} (off : nat) (l' l : list A) : list A :=
  take off l ++ l' ++ drop (off + length l') l.

Lemma length_splice {A} off (l' l : list A) :
  (off + length l' ≤ length l)%nat → length (splice off l' l) = length l.
Proof.
  intros. unfold splice. rewrite !length_app, length_take, length_drop. lia.
Qed.

Lemma lookup_splice_in {A} off (l' l : list A) i :
  (off ≤ length l)%nat → (off ≤ i < off + length l')%nat →
  splice off l' l !! i = l' !! (i - off)%nat.
Proof.
  intros Hoff Hi. unfold splice.
  rewrite lookup_app_r by (rewrite length_take; lia).
  rewrite length_take, Nat.min_l by lia. by rewrite lookup_app_l by lia.
Qed.

Lemma lookup_splice_out {A} off (l' l : list A) i :
  (off + length l' ≤ length l)%nat → (i < off ∨ off + length l' ≤ i)%nat →
  splice off l' l !! i = l !! i.
Proof.
  intros Hl [Hi|Hi]; unfold splice.
  - rewrite lookup_app_l by (rewrite length_take; lia). by rewrite lookup_take_lt.
  - rewrite lookup_app_r; rewrite length_take, Nat.min_l by lia; [|lia].
    rewrite lookup_app_r by lia. rewrite lookup_drop. f_equal. lia.
Qed.

Lemma splice_insert {A} n (w l : list A) c :
  (n < length l)%nat → splice (n + 1) w (<[n := c]> l) = splice n (c :: w) l.
Proof.
  intros Hn. unfold splice. rewrite drop_insert_lt by lia. rewrite Nat.add_1_r.
  rewrite (take_S_r (<[n:=c]> l) n c) by (by rewrite list_lookup_insert_eq).
  rewrite take_insert_ge, <-app_assoc by lia.
  cbn [length app]. by replace (n + S (length w))%nat with (S n + length w)%nat by lia.
Qed.

(** ** Characters and string literals as bytes *)

Fixpoint chars (s : string) : list Z :=
  match s with
  | EmptyString => []
  | String a s' => Z.of_N (Ascii.N_of_ascii a) :: chars s'
  end.

(** The character at index [i] of a NUL-terminated string whose characters
    are [s]: the terminator is at index [length s]. *)
Definition char_at (s : list Z) (i : Z) : Z := nth (Z.to_nat i) s 0.

(** A decidable fact about bytes holds of all of them if it computes to
    [true] on the 256 values. *)
Lemma byte_forall (P : Z → bool) :
  forallb P (Z.of_nat <$> seq 0 256) = true → ∀ b, is_byte b → P b = true.
Proof.
  intros H b Hb. rewrite forallb_forall in H. apply H.
  apply list_elem_of_In, list_elem_of_fmap.
  exists (Z.to_nat b). split; [lia|]. apply elem_of_seq. lia.
Qed.

Lemma Z_eqb_add_l p a b : (p + a =? p + b) = (a =? b).
Proof. destruct (Z.eqb_spec a b) as [->|]; [apply Z.eqb_refl|apply Z.eqb_neq; lia]. Qed.

(** Finitely many cases for a small integer. *)
Lemma z_cases n (P : Z → Prop) :
  Forall P (Z.of_nat <$> seq 0 n) → ∀ k, 0 ≤ k < Z.of_nat n → P k.
Proof.
  intros H k Hk. rewrite Forall_forall in H. apply H. apply list_elem_of_fmap.
  exists (Z.to_nat k). split; [lia|]. apply elem_of_seq. lia.
Qed.
