(* ===== verification/Ring.v ===== *)
(** * Ring buffers with free-running indices

    The pipe and the console input buffer keep 32-bit indices that are never
    reduced: index [i] stands for cell [i % size] of the array.  As [size]
    divides 2^32 the indices may wrap around. *)

From S2P Require Import Prelude.

(** The number of steps from index [a] to index [b]. *)
Definition dist (a b : Z) : Z := u32 (b - a).

Lemma dist_range a b : 0 ≤ dist a b < 2 ^ 32.
Proof. apply u32_range. Qed.

Lemma dist_self a : dist a a = 0.
Proof. unfold dist. by rewrite Z.sub_diag. Qed.

Lemma dist_zero a b : 0 ≤ a < 2 ^ 32 → 0 ≤ b < 2 ^ 32 → dist a b = 0 ↔ a = b.
Proof.
  intros Ha Hb. split; [|intros ->; apply dist_self].
  intros E. destruct (Z.mod_divide (b - a) (2 ^ 32)) as [[q Hq] _]; [done|done|]. lia.
Qed.

Lemma u32_idemp a : u32 (u32 a) = u32 a.
Proof. apply Z.mod_mod. done. Qed.

Lemma dist_u32_r a b : dist a (u32 b) = dist a b.
Proof. unfold dist, u32. by rewrite Zminus_mod_idemp_l. Qed.
Lemma dist_u32_l a b : dist (u32 a) b = dist a b.
Proof. unfold dist, u32. by rewrite Zminus_mod_idemp_r. Qed.

(** Moving an end of an interval. *)
Lemma dist_move a b k : 0 ≤ dist a b + k < 2 ^ 32 → dist a (u32 (b + k)) = dist a b + k.
Proof.
  intros H. rewrite dist_u32_r. unfold dist, u32 in *. replace (b + k - a) with ((b - a) + k) by lia.
  rewrite <-Zplus_mod_idemp_l. by apply Z.mod_small.
Qed.
Lemma dist_skip a b k : 0 ≤ dist a b - k < 2 ^ 32 → dist (u32 (a + k)) b = dist a b - k.
Proof.
  intros H. rewrite dist_u32_l. unfold dist, u32 in *. replace (b - (a + k)) with ((b - a) - k) by lia.
  rewrite <-Zminus_mod_idemp_l. by apply Z.mod_small.
Qed.

Lemma dist_full a b k : 0 ≤ b < 2 ^ 32 → 0 ≤ k < 2 ^ 32 → dist a b = k ↔ b = u32 (a + k).
Proof.
  intros Hb Hk. unfold dist. split.
  - intros <-. unfold u32. rewrite Zplus_mod_idemp_r. replace (a + (b - a)) with b by lia. by rewrite Z.mod_small.
  - intros ->. unfold u32. rewrite Zminus_mod_idemp_l. replace (a + k - a) with k by lia. by apply Z.mod_small.
Qed.

Lemma dist_add a b c : dist a b + dist b c < 2 ^ 32 → dist a c = dist a b + dist b c.
Proof.
  intros H. pose proof (dist_range a b). pose proof (dist_range b c). rewrite <-(u32_small (dist a b + dist b c)) by lia.
  unfold dist, u32. rewrite <-Zplus_mod. f_equal. lia.
Qed.

Lemma u32_dist a b : 0 ≤ b < 2 ^ 32 → u32 (a + dist a b) = b.
Proof. intros Hb. symmetry. apply dist_full; [done|apply dist_range|done]. Qed.

Section ring.
Context (sz : Z) (sz_pos : 0 < sz) (sz_div : (sz | 2 ^ 32)).

Definition cell (i : Z) : nat := Z.to_nat (i mod sz).

(** The [n] bytes from index [a] on. *)
Definition window (d : list Z) (a : Z) (n : nat) : list Z := (λ i, d !!! cell (a + Z.of_nat i)) <$> seq 0 n.

Lemma cell_u32 i j : cell (u32 i + j) = cell (i + j).
Proof.
  unfold cell, u32. f_equal. rewrite Zplus_mod, (Zplus_mod i). f_equal. f_equal. by apply Z.mod_mod_divide.
Qed.

Lemma cell_lt i : (cell i < Z.to_nat sz)%nat.
Proof. unfold cell. pose proof (Z.mod_pos_bound i sz sz_pos). lia. Qed.

Lemma cell_inj i j : 0 ≤ j - i < sz → cell i = cell j → i = j.
Proof.
  unfold cell. intros H E. pose proof (Z.mod_pos_bound i sz sz_pos). pose proof (Z.mod_pos_bound j sz sz_pos).
  assert (i mod sz = j mod sz) as Em by lia. pose proof (Z.mod_small (j - i) sz H) as E1.
  rewrite Zminus_mod, Em, Z.sub_diag, Z.mod_0_l in E1 by lia. lia.
Qed.

Lemma cell_dist a b : cell b = cell (a + dist a b).
Proof.
  assert (u32 (a + dist a b) = u32 b) as E.
  { unfold u32, dist. unfold u32. rewrite Zplus_mod_idemp_r. f_equal. lia. }
  pose proof (cell_u32 (a + dist a b) 0) as E1. pose proof (cell_u32 b 0) as E2.
  rewrite E in E1. rewrite !Z.add_0_r in *. congruence.
Qed.

Lemma length_window d a n : length (window d a n) = n.
Proof. unfold window. by rewrite length_fmap, length_seq. Qed.

Lemma window_u32 d a n : window d (u32 a) n = window d a n.
Proof. apply list_fmap_ext. intros k i _. by rewrite cell_u32. Qed.

(** Writing the cell after the window adds a byte to it. *)
Lemma window_snoc d a n c :
  length d = Z.to_nat sz → Z.of_nat n < sz → window (<[cell (a + Z.of_nat n) := c]> d) a (S n) = window d a n ++ [c].
Proof.
  intros Hd Hn. unfold window. rewrite seq_S, fmap_app. cbn [fmap list_fmap Nat.add]. f_equal.
  - apply list_fmap_ext. intros k i [-> Hi]%lookup_seq. apply list_lookup_total_insert_ne.
    intros E. symmetry in E. apply cell_inj in E; lia.
  - f_equal. apply list_lookup_total_insert_eq. rewrite Hd. apply cell_lt.
Qed.

Lemma window_cons d a n : window d a (S n) = d !!! cell a :: window d (u32 (a + 1)) n.
Proof.
  rewrite window_u32. unfold window. cbn [seq fmap list_fmap]. f_equal; [by rewrite Z.add_0_r|].
  rewrite <-fmap_S_seq, <-list_fmap_compose. apply list_fmap_ext. intros k i _. unfold compose. do 2 f_equal. lia.
Qed.

Lemma window_last d a n : window d a (S n) = window d a n ++ [d !!! cell (a + Z.of_nat n)].
Proof. unfold window. rewrite seq_S, fmap_app. done. Qed.

Lemma window_app d a n m : window d a (n + m) = window d a n ++ window d (u32 (a + Z.of_nat n)) m.
Proof.
  rewrite window_u32. induction m as [|m IH]; [by rewrite Nat.add_0_r, app_nil_r|].
  rewrite Nat.add_succ_r, window_last, IH, window_last, <-app_assoc. do 5 f_equal. lia.
Qed.
End ring.
