(* ===== verification/CString.v ===== *)
(** * string.c, util.c and the string part of ulib.c

    Memory is a total map from addresses to bytes.  Every routine is written
    as the loop of the source, over the addresses it is given; a C loop that
    counts an argument down becomes recursion on that count, and a loop that
    looks for a NUL takes fuel. *)

From S2P Require Import Prelude.

Definition mem := Z → Z.

Definition upd (m : mem) (a v : Z) : mem := λ a', if a' =? a then v else m a'.

(** Store a list of bytes at [p]. *)
Fixpoint write_bytes (p : Z) (l : list Z) (m : mem) : mem :=
  match l with [] => m | b :: l' => write_bytes (p + 1) l' (upd m p b) end.

(** [*p] holds a character of a string: signed in C, compared as [uchar]. *)
Definition load (m : mem) (a : Z) : Z := m a.

(** ** x86 string stores used by [memset] *)

(** [rep stosb]: [n] copies of the low byte of [data]. *)
Fixpoint stosb (n : nat) (addr data : Z) (m : mem) : mem :=
  match n with
  | O => m
  | S n' => stosb n' (addr + 1) data (upd m addr (u8 data))
  end.

(** [rep stosl]: [n] copies of the little-endian word [data]. *)
Definition store32 (m : mem) (a v : Z) : mem :=
  upd (upd (upd (upd m a (u8 v)) (a + 1) (u8 (Z.shiftr v 8)))
    (a + 2) (u8 (Z.shiftr v 16))) (a + 3) (u8 (Z.shiftr v 24)).

Fixpoint stosl (n : nat) (addr data : Z) (m : mem) : mem :=
  match n with
  | O => m
  | S n' => stosl n' (addr + 4) data (store32 m addr data)
  end.

(** ** string.c *)

Definition memset (dst c n : Z) (m : mem) : mem :=
  if (Z.rem (s32 dst) 4 =? 0) && (n mod 4 =? 0) then
    let c := Z.land c 0xff in
    stosl (Z.to_nat (n / 4)) dst
      (Z.lor (Z.lor (Z.lor (Z.shiftl c 24) (Z.shiftl c 16)) (Z.shiftl c 8)) c) m
  else stosb (Z.to_nat n) dst c m.

Fixpoint memcmp_loop (n : nat) (s1 s2 : Z) (m : mem) : Z :=
  match n with
  | O => 0
  | S n' => if m s1 =? m s2 then memcmp_loop n' (s1 + 1) (s2 + 1) m else m s1 - m s2
  end.
Definition memcmp (v1 v2 n : Z) (m : mem) : Z := memcmp_loop (Z.to_nat n) v1 v2 m.

(** [while(n-- > 0) *d++ = *s++] *)
Fixpoint copy_up (n : nat) (d s : Z) (m : mem) : mem :=
  match n with
  | O => m
  | S n' => copy_up n' (d + 1) (s + 1) (upd m d (m s))
  end.

(** [while(n-- > 0) *--d = *--s] *)
Fixpoint copy_down (n : nat) (d s : Z) (m : mem) : mem :=
  match n with
  | O => m
  | S n' => copy_down n' (d - 1) (s - 1) (upd m (d - 1) (m (s - 1)))
  end.

Definition memmove (dst src n : Z) (m : mem) : mem :=
  if (src <? dst) && (dst <? src + n)
  then copy_down (Z.to_nat n) (dst + n) (src + n) m
  else copy_up (Z.to_nat n) dst src m.

Definition memcpy (dst src n : Z) (m : mem) : mem := memmove dst src n m.

Fixpoint strncmp (n : nat) (p q : Z) (m : mem) : Z :=
  match n with
  | O => 0
  | S n' =>
      if negb (m p =? 0) && (m p =? m q) then strncmp n' (p + 1) (q + 1) m
      else u8 (m p) - u8 (m q)
  end.

(** The trailing loop of [strncpy]: [while(n-- > 0) *s++ = 0]. *)
Fixpoint zero_fill (n : nat) (s : Z) (m : mem) : mem :=
  match n with
  | O => m
  | S n' => zero_fill n' (s + 1) (upd m s 0)
  end.

Fixpoint strncpy (n : nat) (s t : Z) (m : mem) : mem :=
  match n with
  | O => m
  | S n' =>
      let m' := upd m s (m t) in
      if negb (m t =? 0) then strncpy n' (s + 1) (t + 1) m'
      else zero_fill n' (s + 1) m'
  end.

(** The copying loop of [safestrcpy] runs while [--n > 0]; it returns where
    [s] stopped. *)
Fixpoint safestrcpy_loop (n : nat) (s t : Z) (m : mem) : Z * mem :=
  match n with
  | O => (s, m)
  | S n' =>
      let m' := upd m s (m t) in
      if negb (m t =? 0) then safestrcpy_loop n' (s + 1) (t + 1) m' else (s + 1, m')
  end.

Definition safestrcpy (s t n : Z) (m : mem) : mem :=
  if n <=? 0 then m
  else let '(s', m') := safestrcpy_loop (Z.to_nat (n - 1)) s t m in upd m' s' 0.

(** [for(n = 0; s[n]; n++)] *)
Fixpoint strlen_from (fuel : nat) (s n : Z) (m : mem) : option Z :=
  match fuel with
  | O => None
  | S f => if m (s + n) =? 0 then Some n else strlen_from f s (n + 1) m
  end.
Definition strlen (fuel : nat) (s : Z) (m : mem) : option Z := strlen_from fuel s 0 m.

(** ** util.c *)

(** Over a NUL-terminated string given by its characters. *)
Fixpoint atoi_loop (s : list Z) (n : Z) : Z :=
  match s with
  | c :: s' => if (48 <=? c) && (c <=? 57) then atoi_loop s' (s32 (n * 10 + c - 48)) else n
  | [] => n
  end.
Definition atoi (s : list Z) : Z := atoi_loop s 0.

Fixpoint strcmp (p q : list Z) : Z :=
  match p, q with
  | [], [] => 0
  | [], d :: _ => 0 - u8 d
  | c :: _, [] => u8 c
  | c :: p', d :: q' =>
      if negb (c =? 0) && (c =? d) then strcmp p' q' else u8 c - u8 d
  end.

(** ** ulib.c *)

(** User-level [memmove] copies upwards only. *)
Definition ulib_memmove (dst src n : Z) (m : mem) : mem := copy_up (Z.to_nat n) dst src m.

Fixpoint strchr (s : list Z) (c : Z) : option nat :=
  match s with
  | [] => None
  | d :: s' => if d =? c then Some O else S <$> strchr s' c
  end.

Fixpoint strcpy (fuel : nat) (s t : Z) (m : mem) : option mem :=
  match fuel with
  | O => None
  | S f =>
      let m' := upd m s (m t) in
      if m t =? 0 then Some m' else strcpy f (s + 1) (t + 1) m'
  end.

(** ** Lemmas *)

Lemma upd_same m a v : upd m a v a = v.
Proof. unfold upd. by rewrite Z.eqb_refl. Qed.
Lemma upd_other m a v a' : a' ≠ a → upd m a v a' = m a'.
Proof. intros. unfold upd. by rewrite (proj2 (Z.eqb_neq a' a)). Qed.

Lemma write_bytes_spec l p m a :
  write_bytes p l m a = if decide (p ≤ a < p + Z.of_nat (length l)) then l !!! Z.to_nat (a - p) else m a.
Proof.
  revert p m. induction l as [|b l IH]; intros p m; cbn [write_bytes length].
  { case_decide; [lia|done]. }
  rewrite IH. repeat case_decide; try lia.
  - replace (Z.to_nat (a - p)) with (S (Z.to_nat (a - (p + 1)))) by lia. done.
  - assert (a = p) as -> by lia. by rewrite upd_same, Z.sub_diag.
  - by rewrite upd_other by lia.
Qed.

Ltac upd_tac :=
  repeat match goal with
  | |- context [upd ?m ?a ?v ?a'] =>
      destruct (Z.eq_dec a' a) as [->|?];
      [rewrite (upd_same m)|rewrite (upd_other m) by done]
  end.

(** What a copying routine must achieve: the [n] bytes at [src] of the old
    memory are at [dst], and nothing else changed. *)
Definition copied (m m' : mem) (dst src n : Z) : Prop :=
  ∀ a, m' a = if decide (dst ≤ a < dst + n) then m (a - dst + src) else m a.

Lemma copy_up_spec n d s m :
  d ≤ s ∨ s + Z.of_nat n ≤ d → copied m (copy_up n d s m) d s (Z.of_nat n).
Proof.
  revert d s m. induction n as [|n IH]; intros d s m Hds a; cbn [copy_up].
  - case_decide; [lia|done].
  - rewrite IH by lia. repeat case_decide; try lia.
    + rewrite upd_other by lia. f_equal. lia.
    + assert (a = d) as -> by lia. rewrite upd_same. f_equal. lia.
    + by rewrite upd_other by lia.
Qed.

Lemma copy_down_spec n d s m :
  s ≤ d → copied m (copy_down n d s m) (d - Z.of_nat n) (s - Z.of_nat n) (Z.of_nat n).
Proof.
  revert d s m. induction n as [|n IH]; intros d s m Hds a; cbn [copy_down].
  - case_decide; [lia|done].
  - rewrite IH by lia. repeat case_decide; try lia.
    + rewrite upd_other by lia. f_equal. lia.
    + assert (a = d - 1) as -> by lia. rewrite upd_same. f_equal. lia.
    + by rewrite upd_other by lia.
Qed.

Lemma stosb_spec n a v m a' :
  stosb n a v m a' = if decide (a ≤ a' < a + Z.of_nat n) then u8 v else m a'.
Proof.
  revert a m. induction n as [|n IH]; intros a m; cbn [stosb].
  - case_decide; [lia|done].
  - rewrite IH. repeat case_decide; try lia; try done.
    + assert (a' = a) as -> by lia. by rewrite upd_same.
    + by rewrite upd_other by lia.
Qed.

Lemma u8_shiftr_repeat c k :
  is_byte c → k = 0 ∨ k = 8 ∨ k = 16 ∨ k = 24 →
  u8 (Z.shiftr (Z.lor (Z.lor (Z.lor (Z.shiftl c 24) (Z.shiftl c 16)) (Z.shiftl c 8)) c) k) = c.
Proof.
  intros Hc Hk. unfold u8. rewrite <-Z.land_ones by lia.
  apply Z.bits_inj'. intros i Hi.
  rewrite Z.land_spec, Z.shiftr_spec, !Z.lor_spec, !Z.shiftl_spec by lia.
  destruct (decide (i < 8)) as [Hi8|Hi8].
  - rewrite Z.ones_spec_low by lia.
    destruct Hk as [->|[->|[->| ->]]].
    all: rewrite ?Z.add_0_r.
    + rewrite !(Z.testbit_neg_r _ (i - _)) by lia. by rewrite andb_true_r.
    + rewrite !(Z.testbit_neg_r _ (i + 8 - 24)), !(Z.testbit_neg_r _ (i + 8 - 16)) by lia.
      rewrite (Z_testbit_high 8 c (i + 8)) by lia.
      replace (i + 8 - 8) with i by lia. by rewrite orb_false_r, andb_true_r.
    + rewrite !(Z.testbit_neg_r _ (i + 16 - 24)) by lia.
      rewrite (Z_testbit_high 8 c (i + 16)), (Z_testbit_high 8 c (i + 16 - 8)) by lia.
      replace (i + 16 - 16) with i by lia. by rewrite !orb_false_r, andb_true_r.
    + rewrite (Z_testbit_high 8 c (i + 24)), (Z_testbit_high 8 c (i + 24 - 8)),
        (Z_testbit_high 8 c (i + 24 - 16)) by lia.
      replace (i + 24 - 24) with i by lia. by rewrite !orb_false_r, andb_true_r.
  - rewrite Z.ones_spec_high, andb_false_r by lia.
    symmetry. apply (Z_testbit_high 8); lia.
Qed.

Lemma store32_repeat c a m a' :
  is_byte c →
  store32 m a (Z.lor (Z.lor (Z.lor (Z.shiftl c 24) (Z.shiftl c 16)) (Z.shiftl c 8)) c) a' =
  if decide (a ≤ a' < a + 4) then c else m a'.
Proof.
  intros Hc. unfold store32.
  rewrite !u8_shiftr_repeat by lia.
  pose proof (u8_shiftr_repeat c 0 Hc ltac:(lia)) as H0.
  rewrite Z.shiftr_0_r in H0. rewrite H0.
  unfold upd. repeat case_decide;
    repeat match goal with |- context [?x =? ?y] => destruct (Z.eqb_spec x y) end; lia.
Qed.

Lemma stosl_repeat n a c m a' :
  is_byte c →
  stosl n a (Z.lor (Z.lor (Z.lor (Z.shiftl c 24) (Z.shiftl c 16)) (Z.shiftl c 8)) c) m a' =
  if decide (a ≤ a' < a + 4 * Z.of_nat n) then c else m a'.
Proof.
  intros Hc. revert a m. induction n as [|n IH]; intros a m; cbn [stosl].
  - case_decide; [lia|done].
  - rewrite IH, store32_repeat by done. repeat case_decide; lia || done.
Qed.

Lemma land_255 c : Z.land c 0xff = u8 c.
Proof. unfold u8. by rewrite <-Z.land_ones by lia. Qed.

(** Reading [n] bytes back out of memory. *)
Definition read_bytes (m : mem) (p : Z) (n : nat) : list Z :=
  (λ i, m (p + Z.of_nat i)) <$> seq 0 n.

Lemma length_read_bytes m p n : length (read_bytes m p n) = n.
Proof. unfold read_bytes. by rewrite length_fmap, length_seq. Qed.

Lemma read_bytes_S m p n : read_bytes m p (S n) = m p :: read_bytes m (p + 1) n.
Proof.
  unfold read_bytes. cbn [seq fmap list_fmap]. rewrite Z.add_0_r. f_equal.
  rewrite <-seq_shift. rewrite <-list_fmap_compose. apply list_fmap_ext.
  intros _ i _. simpl. f_equal. lia.
Qed.

Lemma lookup_read_bytes m p n i :
  (i < n)%nat → read_bytes m p n !! i = Some (m (p + Z.of_nat i)).
Proof.
  intros. unfold read_bytes. rewrite list_lookup_fmap, lookup_seq_lt by done. done.
Qed.

(** What [safestrcpy]'s loop leaves behind: the destination holds a prefix
    of the source without NULs, and nothing outside it was touched. *)
Lemma safestrcpy_loop_spec n s t m s' m' :
  (t + Z.of_nat n ≤ s ∨ s + Z.of_nat n < t) →
  safestrcpy_loop n s t m = (s', m') →
  s ≤ s' ≤ s + Z.of_nat n ∧
  (∀ a, a < s ∨ s' ≤ a → m' a = m a) ∧
  (∀ a, s ≤ a < s' → m' a = m (a - s + t)) ∧
  (∀ a, s ≤ a → a + 1 < s' → m' a ≠ 0).
Proof.
  revert s t m. induction n as [|n IH]; intros s t m Hd Hl; cbn [safestrcpy_loop] in Hl.
  - simplify_eq. split; [lia|]. repeat split; intros; lia || done.
  - destruct (Z.eqb_spec (m t) 0) as [Hz|Hz]; cbn [negb] in Hl.
    + simplify_eq. split; [lia|].
      split; [intros a Ha; by rewrite upd_other by lia|].
      split; [|intros; lia].
      intros a Ha. assert (a = s) as -> by lia. rewrite upd_same. f_equal. lia.
    + apply IH in Hl as (Hr & Hout & Hin & Hnz); [|lia].
      split; [lia|]. split; [|split].
      * intros a Ha. rewrite Hout by lia. by rewrite upd_other by lia.
      * intros a Ha. destruct (Z.eq_dec a s) as [->|Hne].
        { rewrite Hout by lia. rewrite upd_same. f_equal. lia. }
        rewrite Hin by lia. rewrite upd_other by lia. f_equal. lia.
      * intros a Ha Ha'. destruct (Z.eq_dec a s) as [->|Hne]; [|apply Hnz; lia].
        rewrite Hout by lia. by rewrite upd_same.
Qed.

Lemma memmove_copied dst src n m : copied m (memmove dst src n m) dst src n.
Proof.
  unfold memmove. destruct (decide (0 ≤ n)) as [Hn|Hn].
  - destruct (Z.ltb_spec src dst), (Z.ltb_spec dst (src + n)); cbn [andb].
    1: { intros a. pose proof (copy_down_spec (Z.to_nat n) (dst + n) (src + n) m ltac:(lia) a) as Hc.
         rewrite Z2Nat.id in Hc by done.
         by replace (dst + n - n) with dst in Hc by lia; replace (src + n - n) with src in Hc by lia. }
    all: intros a; pose proof (copy_up_spec (Z.to_nat n) dst src m) as Hc;
      rewrite Z2Nat.id in Hc by done; apply Hc; lia.
  - intros a. rewrite Z2Nat.nonpos by lia. case_decide; [lia|]. by repeat case_match.
Qed.

Lemma memset_spec dst c n m :
  0 ≤ n →
  ∀ a, memset dst c n m a = if decide (dst ≤ a < dst + n) then u8 c else m a.
Proof.
  intros Hn a. unfold memset. case_match eqn:Hal.
  - rewrite land_255, stosl_repeat by apply u8_range.
    apply andb_true_iff in Hal as [_ Hal%Z.eqb_eq].
    rewrite Z2Nat.id by (apply Z.div_pos; lia).
    by replace (4 * (n / 4)) with n by (pose proof (Z.div_mod n 4); lia).
  - by rewrite stosb_spec, Z2Nat.id.
Qed.

(** ** Properties *)

(** [memmove] is correct whether or not the two areas overlap, and for
    any relative order of the two: afterwards the [n] bytes at [dst] are the
    bytes that were at [src] before the call, and no other byte changed. *)
Theorem memmove_correct dst src n m : copied m (memmove dst src n m) dst src n.
Proof. apply memmove_copied. Qed.

(** [memset] stores the low byte of [c] in exactly the [n] bytes at
    [dst], on the word-at-a-time path for aligned areas as on the byte path. *)
Theorem memset_correct dst c n m :
  0 ≤ n →
  ∀ a, memset dst c n m a = if decide (dst ≤ a < dst + n) then u8 c else m a.
Proof. intros Hn a. by apply memset_spec. Qed.

Lemma memset_correct_witness :
  0 ≤ 8 ∧ memset 4096 0x101 8 (λ _, 7) 4100 = 1 ∧ memset 4096 0x101 8 (λ _, 7) 4104 = 7.
Proof.
  split; [lia|]. split.
  - rewrite (memset_correct 4096 0x101 8 (λ _, 7) ltac:(lia)). reflexivity.
  - rewrite (memset_correct 4096 0x101 8 (λ _, 7) ltac:(lia)). reflexivity.
Defined.

(** [safestrcpy] always leaves a NUL-terminated string in the [n] bytes
    of its destination: there is a position [k < n] that holds NUL, the bytes
    before it are the bytes of the source and are not NUL, and no byte
    outside the [n] bytes of the destination changes. *)
Theorem safestrcpy_terminates_string s t n m :
  0 < n → t + n ≤ s ∨ s + n ≤ t →
  ∃ k, 0 ≤ k < n ∧ safestrcpy s t n m (s + k) = 0 ∧
    (∀ j, 0 ≤ j < k → safestrcpy s t n m (s + j) = m (t + j) ∧ m (t + j) ≠ 0) ∧
    (∀ a, a < s ∨ s + n ≤ a → safestrcpy s t n m a = m a).
Proof.
  intros Hn Hd. unfold safestrcpy. destruct (Z.leb_spec n 0); [lia|].
  destruct (safestrcpy_loop _ s t m) as [s' m'] eqn:Hl.
  apply safestrcpy_loop_spec in Hl as (Hr & Hout & Hin & Hnz); [|lia].
  rewrite Z2Nat.id in Hr by lia.
  (* the loop stopped after copying a NUL, or because the room was used up *)
  destruct (decide (s < s' ∧ m' (s' - 1) = 0)) as [[Hlt Hz]|Hne].
  - exists (s' - 1 - s). split; [lia|]. split; [|split].
    + rewrite upd_other by lia. by replace (s + (s' - 1 - s)) with (s' - 1) by lia.
    + intros j Hj. rewrite upd_other by lia.
      pose proof (Hnz (s + j) ltac:(lia) ltac:(lia)) as Hj0.
      rewrite Hin in Hj0 |- * by lia. replace (s + j - s + t) with (t + j) in * by lia. done.
    + intros a Ha. rewrite upd_other by lia. apply Hout. lia.
  - exists (s' - s). split; [lia|]. split; [|split].
    + replace (s + (s' - s)) with s' by lia. apply upd_same.
    + intros j Hj. rewrite upd_other by lia.
      assert (m' (s + j) ≠ 0) as Hj0.
      { destruct (Z.eq_dec (s + j) (s' - 1)) as [E|]; [rewrite E; intros ?; apply Hne; split; [lia|done]|].
        apply Hnz; lia. }
      rewrite Hin in Hj0 |- * by lia. replace (s + j - s + t) with (t + j) in * by lia. done.
    + intros a Ha. rewrite upd_other by lia. apply Hout. lia.
Qed.

Lemma safestrcpy_terminates_string_witness :
  ∃ k, 0 ≤ k < 4 ∧ safestrcpy 100 0 4 (λ a, a + 1) (100 + k) = 0.
Proof.
  destruct (safestrcpy_terminates_string 100 0 4 (λ a, a + 1) ltac:(lia) ltac:(lia))
    as (k & Hk & Hz & _). by exists k.
Defined.
