(* ===== verification/Arp.v ===== *)
(** * arp_frame.c: MAC and IPv4 text conversions, ARP frames

    The frame is the [struct ethr_hdr] of arp_frame.h, field by field; its
    bytes in memory are given by [ethr_bytes], which follows the layout the
    C compiler gives the struct on i386 (little-endian fields, no padding
    because [sip] lands on a multiple of four and the trailing [padd] is
    declared).  Local arrays that the code leaves uninitialised are
    parameters; a store outside a local array is the error [EOob]. *)

From S2P Require Import Prelude CString.

(** ** Data: arp_frame.h *)

Record ethr_hdr := mk_ethr_hdr {
  dmac : list Z;
  smac : list Z;
  ethr_type : Z;
  hwtype : Z;
  protype : Z;
  hwsize : Z;
  prosize : Z;
  opcode : Z;
  arp_smac : list Z;
  sip : Z;
  arp_dmac : list Z;
  dip : Z;
  dip2 : Z;
  padd : Z;
}.

Definition ethr_bytes (e : ethr_hdr) : list Z :=
  dmac e ++ smac e ++ le_bytes 2 (ethr_type e) ++ le_bytes 2 (hwtype e) ++
  le_bytes 2 (protype e) ++ le_bytes 1 (hwsize e) ++ le_bytes 1 (prosize e) ++
  le_bytes 2 (opcode e) ++ arp_smac e ++ le_bytes 4 (sip e) ++ arp_dmac e ++
  le_bytes 2 (dip e) ++ le_bytes 2 (dip2 e) ++ le_bytes 2 (padd e).

Definition sizeof_ethr_hdr : Z := 44.

(** ** Hexadecimal digits and MAC addresses *)

Definition hex_to_int (ch : Z) : Z :=
  if (48 <=? ch) && (ch <=? 57) then ch - 48
  else if (65 <=? ch) && (ch <=? 70) then 10 + (ch - 65)
  else if (97 <=? ch) && (ch <=? 102) then 10 + (ch - 97)
  else 0.

Definition int_to_hex (n : Z) : Z :=
  if (0 <=? n) && (n <=? 9) then 48 + n
  else if (10 <=? n) && (n <=? 15) then 65 + (n - 10)
  else 48.

(** [for (i = 0, j = 0; i < 17; i += 3)]; six rounds, so 17 is fuel enough. *)
Fixpoint pack_mac_loop (fuel i j : nat) (dest src : list Z) : list Z :=
  match fuel with
  | O => dest
  | S f =>
      if (i <? 17)%nat then
        let i1 := hex_to_int (nth i src 0) in
        let i2 := hex_to_int (nth (i + 1) src 0) in
        pack_mac_loop f (i + 3) (j + 1) (<[j := u8 (u32 (Z.shiftl i1 4) + i2)]> dest) src
      else dest
  end.

Definition pack_mac (dest src : list Z) : list Z := pack_mac_loop 17 0 0 dest src.

(** [for (i = 0; i < 6; i++)]; [c] is the write position. *)
Fixpoint unpack_mac_loop (n i : nat) (mac : list Z) (mac_str c : Z) (m : mem) : Z * mem :=
  match n with
  | O => (c, m)
  | S n' =>
      let b := nth i mac 0 in
      let i2 := Z.land b 0x0f in
      let i1 := Z.shiftr (Z.land b 0xf0) 4 in
      let m := upd m (mac_str + c) (int_to_hex i1) in
      let m := upd m (mac_str + (c + 1)) (int_to_hex i2) in
      let m := upd m (mac_str + (c + 2)) 58 in
      unpack_mac_loop n' (i + 1) mac mac_str (c + 3) m
  end.

Definition unpack_mac (mac : list Z) (mac_str : Z) (m : mem) : mem :=
  let '(c, m) := unpack_mac_loop 6 0 mac mac_str 0 m in
  upd m (mac_str + (c - 1)) 0.

(** ** IPv4 addresses *)

(** [a[i] = v] for a local array of [size] elements. *)
Definition set_arr (name : string) (size : nat) (a : list Z) (i : nat) (v : Z) : result (list Z) :=
  if (i <? size)%nat then Done (<[i := v]> a) else Fail (EOob name).

Record ip_state := mk_ip_state {
  arr : list Z;      (* char arr[4] *)
  n1 : nat;
  ip_vals : list Z;  (* uint ip_vals[4] *)
  n2 : nat;
}.

(** [arr[n1++] = '\0'; n1 = 0; ip_vals[n2++] = atoi(arr);] *)
Definition end_component (st : ip_state) : result ip_state :=
  rbind (set_arr "arr" 4 (arr st) (n1 st) 0) (λ a,
  rbind (set_arr "ip_vals" 4 (ip_vals st) (n2 st) (u32 (atoi a))) (λ v,
  Done (mk_ip_state a 0 v (n2 st + 1)))).

Fixpoint get_ip_loop (ip : list Z) (st : ip_state) : result ip_state :=
  match ip with
  | [] => Done st
  | ch :: ip' =>
      rbind
        (if ch =? 46 then end_component st
         else rbind (set_arr "arr" 4 (arr st) (n1 st) ch) (λ a,
              Done (mk_ip_state a (n1 st + 1) (ip_vals st) (n2 st))))
        (get_ip_loop ip')
  end.

(** The text [ip] of [len] characters; [arr0] and [vals0] are what the local
    arrays hold on entry. *)
Definition get_ip (arr0 vals0 : list Z) (ip : list Z) (len : Z) : result Z :=
  rbind (get_ip_loop (take (Z.to_nat len) ip) (mk_ip_state arr0 0 vals0 0)) (λ st,
  rbind (end_component st) (λ st,
  let v := λ i, nth i (ip_vals st) 0 in
  Done (u32 (u32 (Z.shiftl (v 3%nat) 24) + u32 (Z.shiftl (v 2%nat) 16)
             + u32 (Z.shiftl (v 1%nat) 8) + v 0%nat)))).

Definition htons (v : Z) : Z := u16 (Z.lor (Z.shiftr v 8) (Z.shiftl v 8)).

Definition htonl (v : Z) : Z :=
  u32 (Z.lor (htons (u16 (Z.shiftr v 16))) (Z.shiftl (htons (u16 v)) 16)).

(** ** Building an ARP request *)

Definition BROADCAST_MAC : list Z := chars "FF:FF:FF:FF:FF:FF".
Definition OWN_IP : list Z := chars "192.168.1.1".

(** A store of 32 bits through [&eth->dip] fills [dip] and [dip2]. *)
Definition store_dip32 (v : Z) (e : ethr_hdr) : ethr_hdr :=
  mk_ethr_hdr (dmac e) (smac e) (ethr_type e) (hwtype e) (protype e) (hwsize e)
    (prosize e) (opcode e) (arp_smac e) (sip e) (arp_dmac e)
    (u16 v) (u16 (Z.shiftr v 16)) (padd e).

(** [eth] is the frame on entry; [arr0] and [vals0] the uninitialised locals
    of the two calls of [get_ip].  The C function returns 0. *)
Definition create_eth_arp_frame (arr0 vals0 : list Z) (mac ipAddr : list Z)
    (eth : ethr_hdr) : result (Z * ethr_hdr) :=
  let dm := BROADCAST_MAC in
  rbind (get_ip arr0 vals0 OWN_IP (Z.of_nat (length OWN_IP))) (λ own,
  rbind (get_ip arr0 vals0 ipAddr (Z.of_nat (length ipAddr))) (λ their,
  let e := mk_ethr_hdr
    (pack_mac (dmac eth) dm)
    (splice 0 (take 6 mac) (smac eth))
    (htons 0x0806)
    (htons 1)
    (htons 0x0800)
    0x06
    0x04
    (htons 1)
    (splice 0 (take 6 mac) (arp_smac eth))
    own
    (pack_mac (arp_dmac eth) dm)
    (dip eth) (dip2 eth) (padd eth) in
  Done (0, store_dip32 their e))).

(** ** Receiving an ARP reply *)

(** [while (ip1 > 0) { arr[j++] = (ip1 % 10) + '0'; ip1 /= 10; }] into
    [char arr[3]]; a 32-bit number has ten digits, so eleven rounds suffice. *)
Fixpoint digits_loop (fuel : nat) (ip1 : Z) (a : list Z) (j : nat) : result (list Z * nat) :=
  match fuel with
  | O => Fail EFuel
  | S f =>
      if 0 <? ip1 then
        rbind (set_arr "arr" 3 a j (ip1 mod 10 + 48)) (λ a, digits_loop f (ip1 / 10) a (j + 1))
      else Done (a, j)
  end.

(** [for (j = j-1; j >= 0; j--) ip_str[c++] = arr[j];] where [j] is the
    number of characters still to copy. *)
Fixpoint copy_digits (a : list Z) (j : nat) (str : list Z) (c : nat) : result (list Z * nat) :=
  match j with
  | O => Done (str, c)
  | S j' => rbind (set_arr "ip_str" 16 str c (nth j' a 0)) (λ str, copy_digits a j' str (c + 1))
  end.

Definition parse_ip_one (ip1 : Z) (a str : list Z) (c : nat) : result (list Z * list Z * nat) :=
  if ip1 =? 0 then
    rbind (set_arr "ip_str" 16 str c 48) (λ str,
    rbind (set_arr "ip_str" 16 str (c + 1) 58) (λ str, Done (a, str, c + 2)%nat))
  else
    rbind (digits_loop 11 ip1 a 0) (λ '(a, j),
    rbind (copy_digits a j str c) (λ '(str, c),
    rbind (set_arr "ip_str" 16 str c 58) (λ str, Done (a, str, c + 1)%nat))).

Fixpoint parse_ip_loop (vals a str : list Z) (c : nat) : result (list Z * nat) :=
  match vals with
  | [] => Done (str, c)
  | ip1 :: vals' =>
      rbind (parse_ip_one ip1 a str c) (λ '(a, str, c), parse_ip_loop vals' a str c)
  end.

(** The first loop of the source, [for (int i = 0; i >= 0; i--)], runs once
    and stores the truth value [ip && 255]; [vals0], [arr0] and [str0] are
    the locals as the function finds them. *)
Definition parse_ip (vals0 arr0 str0 : list Z) (ip : Z) : result (list Z) :=
  let vals := <[0%nat := if negb (ip =? 0) then 1 else 0]> vals0 in
  rbind (parse_ip_loop vals arr0 str0 0) (λ '(str, c),
  set_arr "ip_str" 16 str (c - 1) 0).

(** The string in a character array: up to the first NUL. *)
Fixpoint c_string (a : list Z) : list Z :=
  match a with
  | [] => []
  | c :: a' => if c =? 0 then [] else c :: c_string a'
  end.

(** What [parse_arp_reply] prints. *)
Inductive reply_report :=
  | NotArp
  | NotIpv4
  | NotReply
  | NotRecipient
  | SenderMac (mac : list Z).

Definition parse_arp_reply (vals0 arr0 str0 : list Z) (eth : ethr_hdr) : result reply_report :=
  if negb (ethr_type eth =? 0x0806) then Done NotArp
  else if negb (protype eth =? 0x0800) then Done NotIpv4
  else if negb (opcode eth =? 2) then Done NotReply
  else
    let dst_mac := c_string (read_bytes (unpack_mac (arp_dmac eth) 0 (λ _, 0)) 0 18) in
    if negb (strcmp (chars "FF:FF:FF:FF:FF:FF") dst_mac =? 0) then Done NotRecipient
    else
      rbind (parse_ip vals0 arr0 str0 (dip eth)) (λ dst_ip,
      if negb (strcmp (chars "255.255.255.255") (c_string dst_ip) =? 0) then Done NotRecipient
      else Done (SenderMac (c_string (read_bytes (unpack_mac (arp_smac eth) 0 (λ _, 0)) 0 18)))).

(** Sanity: the request for 192.168.2.1 from 52:54:00:12:34:56. *)
Definition blank_eth : ethr_hdr :=
  mk_ethr_hdr (replicate 6 0) (replicate 6 0) 0 0 0 0 0 0 (replicate 6 0) 0 (replicate 6 0) 0 0 0.

Example frame_example :
  (λ p, take 42 (ethr_bytes (snd p))) <$>
    match create_eth_arp_frame [9;9;9;9] [7;7;7;7] [0x52;0x54;0;0x12;0x34;0x56]
            (chars "192.168.2.1") blank_eth with Done p => Some p | Fail _ => None end
  = Some ([255;255;255;255;255;255; 0x52;0x54;0;0x12;0x34;0x56; 8;6; 0;1; 8;0; 6; 4; 0;1;
           0x52;0x54;0;0x12;0x34;0x56; 192;168;1;1; 255;255;255;255;255;255; 192;168;2;1]).
Proof. vm_compute. reflexivity. Qed.

(** ** MAC conversions *)

(** The 18 characters [unpack_mac] writes. *)
Definition mac_text (mac : list Z) : list Z :=
  take 17 (mac ≫= λ b, [int_to_hex (Z.shiftr (Z.land b 0xf0) 4);
                          int_to_hex (Z.land b 0x0f); 58]) ++ [0].

Lemma mac_six (mac : list Z) :
  length mac = 6%nat → ∃ a b c d e f, mac = [a; b; c; d; e; f].
Proof.
  intros H. do 7 (destruct mac as [|? mac]; simplify_eq/=). by eexists _, _, _, _, _, _.
Qed.

(** [unpack_mac] does the same at every address. *)
Lemma upd_shift (m m' : mem) p x v :
  (∀ a, m (p + a) = m' a) → ∀ a, upd m (p + x) v (p + a) = upd m' (0 + x) v a.
Proof. intros H a. unfold upd. by rewrite Z_eqb_add_l, H. Qed.

Lemma unpack_mac_loop_shift n i mac p c m m' :
  (∀ a, m (p + a) = m' a) →
  fst (unpack_mac_loop n i mac p c m) = fst (unpack_mac_loop n i mac 0 c m') ∧
  ∀ a, snd (unpack_mac_loop n i mac p c m) (p + a) = snd (unpack_mac_loop n i mac 0 c m') a.
Proof.
  revert i c m m'. induction n as [|n IH]; intros i c m m' H; [done|].
  cbn [unpack_mac_loop]. apply IH. by repeat apply upd_shift.
Qed.

Lemma unpack_mac_shift mac p m a :
  unpack_mac mac p m (p + a) = unpack_mac mac 0 (λ a, m (p + a)) a.
Proof.
  unfold unpack_mac.
  destruct (unpack_mac_loop_shift 6 0 mac p 0 m (λ a, m (p + a)) ltac:(done)) as [Hc Hm].
  destruct (unpack_mac_loop _ _ _ p _ _), (unpack_mac_loop _ _ _ 0 _ _). simpl in *.
  subst. by apply upd_shift.
Qed.

Lemma unpack_mac_read mac p m :
  length mac = 6%nat → read_bytes (unpack_mac mac p m) p 18 = mac_text mac.
Proof.
  intros (a & b & c & d & e & f & ->)%mac_six.
  trans (read_bytes (unpack_mac [a; b; c; d; e; f] 0 (λ a, m (p + a))) 0 18); [|reflexivity].
  apply list_fmap_ext. intros _ i _. by rewrite unpack_mac_shift.
Qed.

Lemma unpack_mac_outside mac p m a :
  a < p ∨ p + 18 ≤ a → unpack_mac mac p m a = m a.
Proof.
  intros Ha. unfold unpack_mac. cbn [unpack_mac_loop].
  by repeat rewrite upd_other by lia.
Qed.

Lemma hex_byte b :
  is_byte b →
  u8 (u32 (Z.shiftl (hex_to_int (int_to_hex (Z.shiftr (Z.land b 0xf0) 4))) 4)
      + hex_to_int (int_to_hex (Z.land b 0x0f))) = b.
Proof.
  intros Hb. apply Z.eqb_eq. revert b Hb. apply byte_forall. vm_compute. reflexivity.
Qed.

Lemma pack_mac_six dest a0 a1 b0 b1 c0 c1 d0 d1 e0 e1 f0 f1 x1 x2 x3 x4 x5 rest :
  length dest = 6%nat →
  let h a b := u8 (u32 (Z.shiftl (hex_to_int a) 4) + hex_to_int b) in
  pack_mac dest (a0::a1::x1::b0::b1::x2::c0::c1::x3::d0::d1::x4::e0::e1::x5::f0::f1::rest)
  = [h a0 a1; h b0 b1; h c0 c1; h d0 d1; h e0 e1; h f0 f1].
Proof. by intros (? & ? & ? & ? & ? & ? & ->)%mac_six. Qed.

Lemma pack_broadcast dest : length dest = 6%nat → pack_mac dest BROADCAST_MAC = replicate 6 255.
Proof. by intros (? & ? & ? & ? & ? & ? & ->)%mac_six. Qed.

(** ** Dotted quads *)

Definition is_digit (c : Z) : bool := (48 <=? c) && (c <=? 57).

(** The value of a string of decimal digits. *)
Definition dec_val (s : list Z) : Z := fold_left (λ n c, n * 10 + (c - 48)) s 0.

Lemma atoi_loop_digits ds rest n :
  Forall (λ c, is_digit c = true) ds → 0 ≤ n →
  (n + 1) * 10 ^ Z.of_nat (length ds) ≤ 2 ^ 31 →
  atoi_loop (ds ++ 0 :: rest) n = fold_left (λ n c, n * 10 + (c - 48)) ds n ∧
  0 ≤ fold_left (λ n c, n * 10 + (c - 48)) ds n < (n + 1) * 10 ^ Z.of_nat (length ds).
Proof.
  revert n. induction ds as [|c ds IH]; intros n Hds Hn Hb; [simpl; lia|].
  inversion Hds as [|? ? Hc Hds']; subst. unfold is_digit in Hc.
  cbn [app atoi_loop fold_left]. rewrite Hc.
  apply andb_true_iff in Hc as [Hc1%Z.leb_le Hc2%Z.leb_le].
  simpl length in *. rewrite Nat2Z.inj_succ, Z.pow_succ_r in Hb |- * by lia.
  assert (0 < 10 ^ Z.of_nat (length ds)) as Hp by (apply Z.pow_pos_nonneg; lia).
  rewrite s32_small by nia.
  replace (n * 10 + c - 48) with (n * 10 + (c - 48)) by lia.
  destruct (IH (n * 10 + (c - 48))) as [-> ?]; [done|lia|nia|]. split; [done|nia].
Qed.

Lemma atoi_digits ds rest :
  Forall (λ c, is_digit c = true) ds → (length ds ≤ 3)%nat →
  atoi (ds ++ 0 :: rest) = dec_val ds ∧ 0 ≤ dec_val ds < 1000.
Proof.
  intros Hds Hl.
  assert (10 ^ Z.of_nat (length ds) ≤ 10 ^ 3) by (apply Z.pow_le_mono_r; lia).
  destruct (atoi_loop_digits ds rest 0 Hds) as [H1 H2]; [lia|lia|].
  split; [exact H1|]. unfold dec_val. lia.
Qed.

Lemma get_ip_loop_app l1 l2 st :
  get_ip_loop (l1 ++ l2) st = rbind (get_ip_loop l1 st) (get_ip_loop l2).
Proof.
  revert st. induction l1 as [|c l1 IH]; intros st; [done|]. cbn [app get_ip_loop].
  destruct (if c =? 46 then _ else _); [apply IH|done].
Qed.

(** A run of characters without dots goes into [arr]. *)
Lemma get_ip_loop_word w st :
  Forall (λ c, c ≠ 46) w → (n1 st + length w ≤ 4)%nat → length (arr st) = 4%nat →
  get_ip_loop w st =
  Done (mk_ip_state (splice (n1 st) w (arr st)) (n1 st + length w) (ip_vals st) (n2 st)).
Proof.
  revert st. induction w as [|c w IH]; intros st Hw Hn Ha.
  - destruct st; simpl in *. unfold splice. cbn [length app]. by rewrite !Nat.add_0_r, take_drop.
  - inversion Hw as [|? ? Hc Hw']; subst. cbn [get_ip_loop length] in *.
    rewrite (proj2 (Z.eqb_neq c 46)) by done.
    unfold set_arr. rewrite (proj2 (Nat.ltb_lt _ _)) by lia. cbn [rbind].
    rewrite IH; simpl; [|done|lia|by rewrite length_insert].
    f_equal. f_equal; [|lia]. by rewrite splice_insert by lia.
Qed.

Lemma digits_no_dot w : Forall (λ c, is_digit c = true) w → Forall (λ c, c ≠ 46) w.
Proof.
  induction 1 as [|c w Hc _ IH]; constructor; [|done]. intros ->. discriminate.
Qed.

(** One component with its terminator: [ip_vals[n2++]] gets its value. *)
Lemma get_ip_component w st :
  Forall (λ c, is_digit c = true) w → (length w ≤ 3)%nat →
  length (arr st) = 4%nat → n1 st = 0%nat → (n2 st < 4)%nat →
  ∃ a, length a = 4%nat ∧
    rbind (get_ip_loop w st) end_component =
    Done (mk_ip_state a 0 (<[n2 st := dec_val w]> (ip_vals st)) (n2 st + 1)).
Proof.
  intros Hw Hl Ha H1 H2. rewrite get_ip_loop_word by (try apply digits_no_dot; lia || done).
  rewrite H1. cbn [rbind]. unfold end_component, set_arr. cbn [n1 n2 arr ip_vals Nat.add].
  rewrite (proj2 (Nat.ltb_lt _ 4)), (proj2 (Nat.ltb_lt (n2 st) 4)) by lia. cbn [rbind].
  assert (<[length w := 0]> (splice 0 w (arr st)) = w ++ 0 :: drop (length w + 1) (arr st)) as ->.
  { unfold splice. rewrite take_0, app_nil_l, insert_app_r_alt, Nat.sub_diag by lia.
    f_equal. destruct (drop (length w) (arr st)) as [|x l] eqn:Hd.
    - apply (f_equal length) in Hd. rewrite length_drop in Hd. simpl in Hd. lia.
    - simpl. f_equal. rewrite <-drop_drop, Hd. done. }
  destruct (atoi_digits w (drop (length w + 1) (arr st)) Hw Hl) as [-> Hr].
  rewrite u32_small by lia. eexists. split; [|done].
  rewrite length_app. simpl. rewrite length_drop. lia.
Qed.

Lemma get_ip_dotted w rest st :
  get_ip_loop (w ++ 46 :: rest) st =
  rbind (rbind (get_ip_loop w st) end_component) (get_ip_loop rest).
Proof.
  rewrite get_ip_loop_app. destruct (get_ip_loop w st); [|done].
  cbn [rbind get_ip_loop]. by rewrite Z.eqb_refl.
Qed.

Definition dotted_quad (w0 w1 w2 w3 : list Z) : list Z :=
  w0 ++ 46 :: w1 ++ 46 :: w2 ++ 46 :: w3.

(** A component of a dotted quad: at most three digits, value at most 255. *)
Definition quad_part (w : list Z) : Prop :=
  Forall (λ c, is_digit c = true) w ∧ (length w ≤ 3)%nat ∧ dec_val w ≤ 255.

Lemma quad_part_range w : quad_part w → 0 ≤ dec_val w < 256.
Proof. intros (Hd & Hl & Hv). destruct (atoi_digits w [] Hd Hl). lia. Qed.

Lemma get_ip_quad a0 v0 w0 w1 w2 w3 :
  length a0 = 4%nat → length v0 = 4%nat →
  quad_part w0 → quad_part w1 → quad_part w2 → quad_part w3 →
  get_ip a0 v0 (dotted_quad w0 w1 w2 w3) (Z.of_nat (length (dotted_quad w0 w1 w2 w3))) =
  Done (le_val [dec_val w0; dec_val w1; dec_val w2; dec_val w3]).
Proof.
  intros Ha Hv Q0 Q1 Q2 Q3.
  pose proof (quad_part_range _ Q0). pose proof (quad_part_range _ Q1).
  pose proof (quad_part_range _ Q2). pose proof (quad_part_range _ Q3).
  destruct Q0 as (D0 & L0 & _), Q1 as (D1 & L1 & _), Q2 as (D2 & L2 & _), Q3 as (D3 & L3 & _).
  unfold get_ip. rewrite Nat2Z.id, firstn_all.
  unfold dotted_quad. rewrite !get_ip_dotted.
  destruct (get_ip_component w0 (mk_ip_state a0 0 v0 0)) as (a1 & Ha1 & ->); try (simpl; lia || done).
  cbn [rbind]. rewrite get_ip_dotted.
  destruct (get_ip_component w1 (mk_ip_state a1 0 (<[0%nat := dec_val w0]> v0) 1))
    as (a2 & Ha2 & E2); try (simpl; lia || done).
  cbn [n2 ip_vals Nat.add] in E2 |- *. rewrite E2. cbn [rbind]. rewrite get_ip_dotted.
  destruct (get_ip_component w2 (mk_ip_state a2 0
     (<[1%nat := dec_val w1]> (<[0%nat := dec_val w0]> v0)) 2))
    as (a3 & Ha3 & E3); try (simpl; lia || done).
  cbn [n2 ip_vals Nat.add] in E3 |- *. rewrite E3. cbn [rbind].
  destruct (get_ip_component w3 (mk_ip_state a3 0
     (<[2%nat := dec_val w2]> (<[1%nat := dec_val w1]> (<[0%nat := dec_val w0]> v0))) 3))
    as (a4 & Ha4 & E4); try (simpl; lia || done).
  cbn [n2 ip_vals Nat.add] in E4 |- *.
  destruct (get_ip_loop w3 _) as [st|]; [|done]. cbn [rbind] in E4 |- *. rewrite E4.
  cbn [rbind ip_vals].
  do 5 (destruct v0 as [|? v0]; simplify_eq/=).
  rewrite !Z.shiftl_mul_pow2, !(u32_small (_ * _)) by lia. rewrite u32_small by lia.
  f_equal. lia.
Qed.

(** ** Where [get_ip] stays inside its arrays *)

Fixpoint split_dots (ip : list Z) : list Z * list (list Z) :=
  match ip with
  | [] => ([], [])
  | c :: ip' =>
      let '(w, ws) := split_dots ip' in
      if c =? 46 then ([], w :: ws) else (c :: w, ws)
  end.

Lemma end_component_cases st :
  ((n1 st < 4)%nat ∧ (n2 st < 4)%nat ∧ ∃ st', end_component st = Done st' ∧
     n1 st' = 0%nat ∧ n2 st' = (n2 st + 1)%nat) ∨
  (((4 ≤ n1 st)%nat ∨ (4 ≤ n2 st)%nat) ∧ ∃ e, end_component st = Fail e).
Proof.
  unfold end_component, set_arr.
  destruct (Nat.ltb_spec (n1 st) 4), (Nat.ltb_spec (n2 st) 4); cbn [rbind]; eauto 10.
Qed.

Lemma get_ip_run_done ip st :
  let '(w, ws) := split_dots ip in
  (∃ st', rbind (get_ip_loop ip st) end_component = Done st') ↔
  (n1 st + length w ≤ 3)%nat ∧ Forall (λ w, (length w ≤ 3)%nat) ws ∧
  (n2 st + 1 + length ws ≤ 4)%nat.
Proof.
  revert st. induction ip as [|c ip IH]; intros st; cbn [split_dots get_ip_loop].
  - cbn [rbind length].
    destruct (end_component_cases st) as [(H1 & H2 & st' & -> & _)|(H & e & ->)].
    + split; [intros _|by eauto]. split; [lia|]. split; [constructor|lia].
    + split; [by intros [? ?]|lia].
  - destruct (split_dots ip) as [w ws]. destruct (Z.eqb_spec c 46) as [->|Hc].
    + destruct (end_component_cases st) as [(H1 & H2 & st' & -> & E1 & E2)|(H & e & ->)];
        cbn [rbind length]; rewrite Forall_cons.
      * rewrite IH, E1, E2. split; intros (? & ? & ?); repeat split; try tauto; lia.
      * split; [by intros [? ?]|lia].
    + unfold set_arr at 1. destruct (Nat.ltb_spec (n1 st) 4); cbn [rbind].
      * rewrite IH. cbn [n1 n2 length]. split; intros (? & ? & ?); repeat split; try tauto; lia.
      * split; [by intros [? ?]|cbn [length]; lia].
Qed.

(** ** Byte order *)

Lemma htons_split v :
  0 ≤ v < 2 ^ 16 → htons v = v / 256 + 256 * (v mod 256).
Proof.
  intros Hv. unfold htons, u16. rewrite Z.shiftr_div_pow2 by lia.
  change (2 ^ 8) with 256.
  assert (0 ≤ v / 256 < 256) by (split; [apply Z.div_pos|apply Z.div_lt_upper_bound]; lia).
  rewrite Z_lor_shiftl_add by lia. change (2 ^ 8) with 256. change (2 ^ 16) with (256 * 256).
  rewrite Z.rem_mul_r by lia. rewrite Z.mod_add, Z.div_add by lia.
  by rewrite (Z.mod_small (v / 256)), (Z.div_small (v / 256)), Z.add_0_l by lia.
Qed.

Lemma htons_range v : 0 ≤ htons v < 2 ^ 16.
Proof. apply Z.mod_pos_bound. lia. Qed.

(** Storing [htons v] puts the bytes of [v] in memory most significant first. *)
Lemma htons_bytes v :
  0 ≤ v < 2 ^ 16 → le_bytes 2 (htons v) = [v / 256; v mod 256].
Proof.
  intros Hv. rewrite htons_split by done.
  assert (0 ≤ v / 256 < 256) by (split; [apply Z.div_pos|apply Z.div_lt_upper_bound]; lia).
  pose proof (Z.mod_pos_bound v 256 ltac:(lia)).
  cbn [le_bytes]. rewrite (Z.mul_comm 256), Z.mod_add, Z.div_add by lia.
  rewrite (Z.mod_small (v / 256)), (Z.div_small (v / 256)) by lia.
  by rewrite Z.add_0_l, Z.mod_mod by lia.
Qed.

Lemma le_bytes_split16 v :
  0 ≤ v < 2 ^ 32 → le_bytes 2 (u16 v) ++ le_bytes 2 (u16 (Z.shiftr v 16)) = le_bytes 4 v.
Proof.
  intros Hv. unfold u16. rewrite Z.shiftr_div_pow2 by lia.
  change (2 ^ 16) with (256 * 256). cbn [le_bytes app].
  rewrite <-!Z.div_div by lia. rewrite !Z.rem_mul_r by lia.
  rewrite !(Z.mul_comm 256), !Z.mod_add, !Z.div_add by lia.
  by rewrite !Z.mod_mod, !(Z.div_small (_ mod 256)), !Z.add_0_l, !Z.mod_mod
    by (try apply Z.mod_pos_bound; lia).
Qed.

Lemma le_bytes_quad a b c d :
  is_byte a → is_byte b → is_byte c → is_byte d → le_bytes 4 (le_val [a; b; c; d]) = [a; b; c; d].
Proof. intros. apply (le_bytes_val [a; b; c; d]). rewrite !Forall_cons, Forall_nil. tauto. Qed.

(** ** [parse_ip] on any input starts with '0' or '1' *)

Lemma set_arr_head name size a i v a' :
  set_arr name size a i v = Done a' → (0 < i)%nat → head a' = head a.
Proof.
  unfold set_arr. case_match; intros; simplify_eq. destruct a, i; simpl; lia || done.
Qed.

Lemma copy_digits_head a j str c str' c' :
  copy_digits a j str c = Done (str', c') → (0 < c)%nat → head str' = head str ∧ (c ≤ c')%nat.
Proof.
  revert str c. induction j as [|j IH]; intros str c; cbn [copy_digits]; intros H Hc.
  - by simplify_eq.
  - destruct (set_arr _ _ _ _ _) as [str1|] eqn:E; [|done]. cbn [rbind] in H.
    apply set_arr_head in E as <-; [|done]. apply IH in H as [-> ?]; [|lia]. split; [done|lia].
Qed.

Lemma parse_ip_one_head ip1 a str c a' str' c' :
  parse_ip_one ip1 a str c = Done (a', str', c') → (0 < c)%nat →
  head str' = head str ∧ (c ≤ c')%nat.
Proof.
  unfold parse_ip_one. intros H Hc. destruct (ip1 =? 0).
  - destruct (set_arr _ _ str c _) as [str1|] eqn:E1; [|done]. cbn [rbind] in H.
    destruct (set_arr _ _ str1 _ _) as [str2|] eqn:E2; [|done]. cbn [rbind] in H.
    simplify_eq. apply set_arr_head in E1 as <-; [|done].
    apply set_arr_head in E2 as ->; [|lia]. split; [done|lia].
  - destruct (digits_loop _ _ _ _) as [[a1 j]|]; [|done]. cbn [rbind] in H.
    destruct (copy_digits _ _ _ _) as [[str1 c1]|] eqn:E1; [|done]. cbn [rbind] in H.
    destruct (set_arr _ _ _ _ _) as [str2|] eqn:E2; [|done]. cbn [rbind] in H.
    simplify_eq. apply copy_digits_head in E1 as (<- & Hc1); [|done].
    apply set_arr_head in E2 as ->; [|lia]. split; [done|lia].
Qed.

Lemma parse_ip_loop_head vals a str c str' c' :
  parse_ip_loop vals a str c = Done (str', c') → (0 < c)%nat →
  head str' = head str ∧ (c ≤ c')%nat.
Proof.
  revert a str c. induction vals as [|v vals IH]; intros a str c; cbn [parse_ip_loop]; intros H Hc.
  - by simplify_eq.
  - destruct (parse_ip_one _ _ _ _) as [[[a1 str1] c1]|] eqn:E; [|done]. cbn [rbind] in H.
    apply parse_ip_one_head in E as [<- ?]; [|done].
    apply IH in H as [-> ?]; [|lia]. split; [done|lia].
Qed.

Lemma parse_ip_head vals0 arr0 str0 ip str :
  length vals0 = 4%nat → length arr0 = 3%nat → length str0 = 16%nat →
  parse_ip vals0 arr0 str0 ip = Done str → head str = Some 48 ∨ head str = Some 49.
Proof.
  intros Hv Ha Hs H. unfold parse_ip in H.
  destruct vals0 as [|v0 vals]; [done|]. cbn [insert list_insert parse_ip_loop] in H.
  destruct arr0 as [|a0 arr0]; [done|]. destruct str0 as [|s0 str0]; [done|].
  destruct str0 as [|s1 str0]; [done|].
  assert (∃ a1 d, parse_ip_one (if negb (ip =? 0) then 1 else 0) (a0 :: arr0) (s0 :: s1 :: str0) 0
            = Done (a1, d :: 58 :: str0, 2%nat) ∧ (d = 48 ∨ d = 49)) as (a1 & d & E & Hd).
  { destruct (negb (ip =? 0)); eexists _, _; (split; [reflexivity|auto]). }
  rewrite E in H. cbn [rbind] in H.
  destruct (parse_ip_loop _ _ _ _) as [[str1 c1]|] eqn:E1; [|done]. cbn [rbind] in H.
  apply parse_ip_loop_head in E1 as [E1 ?]; [|lia].
  apply set_arr_head in H as ->; [|lia]. rewrite E1. cbn [head]. destruct Hd as [-> | ->]; auto.
Qed.

(** The RFC 826 request for the protocol address [target], from [mac] and
    192.168.1.1, in its Ethernet frame. *)
Definition arp_request_bytes (mac target : list Z) : list Z :=
  replicate 6 0xff ++ mac ++ [0x08; 0x06] ++
  [0x00; 0x01] ++ [0x08; 0x00] ++ [0x06; 0x04] ++ [0x00; 0x01] ++
  mac ++ [192; 168; 1; 1] ++ replicate 6 0xff ++ target.

Lemma create_arp_frame_run a0 v0 mac w0 w1 w2 w3 eth :
  length a0 = 4%nat → length v0 = 4%nat → length mac = 6%nat →
  length (dmac eth) = 6%nat → length (smac eth) = 6%nat →
  length (arp_smac eth) = 6%nat → length (arp_dmac eth) = 6%nat →
  quad_part w0 → quad_part w1 → quad_part w2 → quad_part w3 →
  ∃ eth', create_eth_arp_frame a0 v0 mac (dotted_quad w0 w1 w2 w3) eth = Done (0, eth') ∧
    take (Z.to_nat (sizeof_ethr_hdr - 2)) (ethr_bytes eth') =
    arp_request_bytes mac [dec_val w0; dec_val w1; dec_val w2; dec_val w3].
Proof.
  intros Ha Hv Hm Hdm Hsm Has Had Q0 Q1 Q2 Q3. unfold create_eth_arp_frame.
  assert (get_ip a0 v0 OWN_IP (Z.of_nat (length OWN_IP)) = Done (le_val [192; 168; 1; 1])) as ->.
  { change OWN_IP with (dotted_quad (chars "192") (chars "168") (chars "1") (chars "1")).
    rewrite get_ip_quad; try done; (split; [repeat constructor|split; simpl; [lia|done]]). }
  cbn [rbind]. rewrite get_ip_quad by done. cbn [rbind]. eexists. split; [reflexivity|].
  unfold store_dip32, ethr_bytes. cbn [dmac smac ethr_type hwtype protype hwsize prosize opcode
    arp_smac sip arp_dmac dip dip2 padd].
  rewrite !pack_broadcast, !htons_bytes by (done || lia).
  rewrite (app_assoc (le_bytes 2 (u16 _)) (le_bytes 2 (u16 (Z.shiftr _ 16)))).
  pose proof (quad_part_range _ Q0). pose proof (quad_part_range _ Q1).
  pose proof (quad_part_range _ Q2). pose proof (quad_part_range _ Q3).
  rewrite le_bytes_split16 by (cbn [le_val]; lia).
  rewrite !le_bytes_quad by lia.
  destruct (mac_six mac Hm) as (? & ? & ? & ? & ? & ? & ->).
  destruct (mac_six _ Hsm) as (? & ? & ? & ? & ? & ? & ->).
  destruct (mac_six _ Has) as (? & ? & ? & ? & ? & ? & ->). reflexivity.
Qed.

(** ** Properties *)

(** C38: converting a MAC address to text with [unpack_mac] and back with
    [pack_mac] gives the six bytes again, wherever the text buffer is. *)
Theorem mac_text_roundtrip mac p m dest :
  length mac = 6%nat → bytes mac → length dest = 6%nat →
  pack_mac dest (read_bytes (unpack_mac mac p m) p 18) = mac.
Proof.
  intros Hl Hb Hd. rewrite unpack_mac_read by done.
  destruct (mac_six mac Hl) as (a & b & c & d & e & f & ->).
  repeat match goal with H : bytes (_ :: _) |- _ => apply Forall_cons in H as [? H] end.
  unfold mac_text. cbn [mbind list_bind app take firstn].
  rewrite pack_mac_six by done. by rewrite !hex_byte by done.
Qed.

Lemma mac_text_roundtrip_witness :
  pack_mac (replicate 6 0)
    (read_bytes (unpack_mac [0x52; 0x54; 0; 0x12; 0xab; 0xff] 1000 (λ _, 0)) 1000 18)
  = [0x52; 0x54; 0; 0x12; 0xab; 0xff].
Proof.
  apply (mac_text_roundtrip [0x52; 0x54; 0; 0x12; 0xab; 0xff] 1000 (λ _, 0) (replicate 6 0));
    [reflexivity| |reflexivity].
  repeat constructor; lia.
Defined.

(** C10: the frame [create_eth_arp_frame] builds for a dotted-quad address is,
    byte for byte on the wire, the RFC 826 request: broadcast Ethernet
    header with type 0x0806, hardware type 1, protocol 0x0800, sizes 6 and 4,
    operation 1, the sender's MAC and 192.168.1.1, the broadcast MAC and the
    four bytes of the target address in network order.  The 42 bytes are the
    part of the struct [send_arpRequest] transmits. *)
Theorem arp_request_wire_format a0 v0 mac w0 w1 w2 w3 eth :
  length a0 = 4%nat → length v0 = 4%nat → length mac = 6%nat →
  length (dmac eth) = 6%nat → length (smac eth) = 6%nat →
  length (arp_smac eth) = 6%nat → length (arp_dmac eth) = 6%nat →
  quad_part w0 → quad_part w1 → quad_part w2 → quad_part w3 →
  ∃ eth', create_eth_arp_frame a0 v0 mac (dotted_quad w0 w1 w2 w3) eth = Done (0, eth') ∧
    take (Z.to_nat (sizeof_ethr_hdr - 2)) (ethr_bytes eth') =
    replicate 6 0xff ++ mac ++ [0x08; 0x06] ++
    [0x00; 0x01] ++ [0x08; 0x00] ++ [0x06; 0x04] ++ [0x00; 0x01] ++
    mac ++ [192; 168; 1; 1] ++
    replicate 6 0xff ++ [dec_val w0; dec_val w1; dec_val w2; dec_val w3].
Proof. apply create_arp_frame_run. Qed.

Lemma arp_request_wire_format_witness :
  ∃ eth', create_eth_arp_frame [1;1;1;1] [2;2;2;2] [0x52;0x54;0;0x12;0x34;0x56]
            (chars "192.168.2.1") blank_eth = Done (0, eth') ∧
    drop 38 (take 42 (ethr_bytes eth')) = [192; 168; 2; 1].
Proof.
  destruct (arp_request_wire_format [1;1;1;1] [2;2;2;2] [0x52;0x54;0;0x12;0x34;0x56]
    (chars "192") (chars "168") (chars "2") (chars "1") blank_eth)
    as (eth' & E & W); try reflexivity.
  1-4: (split; [repeat constructor|split; simpl; [lia|done]]).
  exists eth'. split; [exact E|]. change (Z.to_nat (sizeof_ethr_hdr - 2)) with 42%nat in W.
  rewrite W. reflexivity.
Defined.

(** C31: [get_ip] stays inside its two local arrays exactly on the texts with
    at most four dot-separated components of at most three characters each;
    on every other text (which nothing in the kernel filters out) it stores
    past the end of [arr] or [ip_vals]. *)
Theorem get_ip_in_bounds_iff a0 v0 ip :
  (∃ v, get_ip a0 v0 ip (Z.of_nat (length ip)) = Done v) ↔
  Forall (λ w, (length w ≤ 3)%nat) (fst (split_dots ip) :: snd (split_dots ip)) ∧
  (length (snd (split_dots ip)) ≤ 3)%nat.
Proof.
  unfold get_ip. rewrite Nat2Z.id, firstn_all.
  pose proof (get_ip_run_done ip (mk_ip_state a0 0 v0 0)) as H.
  destruct (split_dots ip) as [w ws]. cbn [n1 n2 fst snd] in *. rewrite Forall_cons.
  trans (∃ st', rbind (get_ip_loop ip (mk_ip_state a0 0 v0 0)) end_component = Done st').
  - destruct (get_ip_loop ip _) as [st|e]; cbn [rbind]; [|split; intros [? ?]; done].
    destruct (end_component st) as [st'|e]; cbn [rbind]; [by split; eauto|].
    split; intros [? ?]; done.
  - rewrite H. split; intros (H1 & H2); split_and?; try tauto; lia.
Qed.

(** C35: [parse_arp_reply] never accepts a reply: whatever the frame and
    whatever the uninitialised arrays of [parse_ip] hold, it does not reach
    the point where it prints the sender's MAC. *)
Theorem parse_arp_reply_never_accepts vals0 arr0 str0 eth mac :
  length vals0 = 4%nat → length arr0 = 3%nat → length str0 = 16%nat →
  parse_arp_reply vals0 arr0 str0 eth ≠ Done (SenderMac mac).
Proof.
  intros Hv Ha Hs. unfold parse_arp_reply. repeat (case_match; [done|]).
  destruct (parse_ip vals0 arr0 str0 (dip eth)) as [str|] eqn:E; [|done]. cbn [rbind].
  apply parse_ip_head in E as Hh; [|done..].
  assert (∃ c r, c_string str = c :: r ∧ (c = 48 ∨ c = 49)) as (c & r & -> & Hc).
  { destruct str as [|c str]; [by destruct Hh|]. destruct Hh; simplify_eq/=; eauto. }
  destruct Hc as [-> | ->]; done.
Qed.

Lemma parse_arp_reply_never_accepts_witness :
  parse_arp_reply [0;0;0;0] [0;0;0] (replicate 16 0)
    (mk_ethr_hdr (replicate 6 255) (replicate 6 255) 0x0806 1 0x0800 6 4 2 (replicate 6 7) 0
       (replicate 6 255) 255 0 0) ≠ Done (SenderMac (chars "07:07:07:07:07:07")).
Proof.
  apply (parse_arp_reply_never_accepts [0;0;0;0] [0;0;0] (replicate 16 0)); reflexivity.
Defined.
