(* ===== verification/Pci.v ===== *)
(** * pci.c, pci.h, pciregisters.h: configuration space and BAR discovery

    The chipset behind I/O ports 0xCF8 and 0xCFC is not part of the source.
    It is the class [PciPorts]: any state with an [outl] and an [inl].  What
    the driver relies on is the class [ConfigMechanism], the documented
    behaviour of configuration mechanism 1: the address port selects a
    register, reading the data port returns it, writing the data port
    changes its writable bits. *)

From S2P Require Import Prelude.

(** ** Registers and fields *)

Definition PCI_CONFIG_ADDRESS_IOPORT : Z := 0xCF8.
Definition PCI_CONFIG_DATA_IOPORT : Z := 0xCFC.
Definition MAX_DEVICE_PER_PCI_BUS : Z := 32.

Definition PCI_ID_REG : Z := 0x00.
Definition PCI_VENDOR (id : Z) : Z := Z.land (Z.shiftr id 0) 0xffff.
Definition PCI_PRODUCT (id : Z) : Z := Z.land (Z.shiftr id 16) 0xffff.

Definition PCI_BHLC_REG : Z := 0x0c.
Definition PCI_HDRTYPE (bhlcr : Z) : Z := Z.land (Z.shiftr bhlcr 16) 0xff.
Definition PCI_HDRTYPE_TYPE (bhlcr : Z) : Z := Z.land (PCI_HDRTYPE bhlcr) 0x7f.
Definition PCI_HDRTYPE_MULTIFN (bhlcr : Z) : bool := negb (Z.land (PCI_HDRTYPE bhlcr) 0x80 =? 0).

Definition PCI_INTERRUPT_REG : Z := 0x3c.
Definition PCI_INTERRUPT_PIN (icr : Z) : Z := Z.land (Z.shiftr icr 8) 0xff.
Definition PCI_INTERRUPT_LINE (icr : Z) : Z := Z.land (Z.shiftr icr 0) 0xff.

Definition PCI_CLASS_REG : Z := 0x08.
Definition PCI_CLASS (cr : Z) : Z := Z.land (Z.shiftr cr 24) 0xff.
Definition PCI_DEVICE_CLASS_NETWORK_CONTROLLER : Z := 2.

Definition PCI_COMMAND_STATUS_REG : Z := 0x04.
Definition PCI_COMMAND_IO_ENABLE : Z := 0x1.
Definition PCI_COMMAND_MEM_ENABLE : Z := 0x2.
Definition PCI_COMMAND_MASTER_ENABLE : Z := 0x4.

Definition PCI_MAPREG_START : Z := 0x10.
Definition PCI_MAPREG_END : Z := 0x28.
Definition PCI_MAPREG_NUM (offset : Z) : Z := (offset - PCI_MAPREG_START) / 4.
Definition PCI_MAPREG_TYPE (mr : Z) : Z := Z.land mr 0x1.
Definition PCI_MAPREG_TYPE_MEM : Z := 0.
Definition PCI_MAPREG_MEM_TYPE (mr : Z) : Z := Z.land mr 0x6.
Definition PCI_MAPREG_MEM_TYPE_64BIT : Z := 0x4.
Definition PCI_MAPREG_MEM_ADDR (mr : Z) : Z := Z.land mr 0xfffffff0.
Definition PCI_MAPREG_MEM_SIZE (mr : Z) : Z :=
  Z.land (PCI_MAPREG_MEM_ADDR mr) (u32 (- PCI_MAPREG_MEM_ADDR mr)).
Definition PCI_MAPREG_IO_ADDR (mr : Z) : Z := Z.land mr 0xfffffffc.
Definition PCI_MAPREG_IO_SIZE (mr : Z) : Z :=
  Z.land (PCI_MAPREG_IO_ADDR mr) (u32 (- PCI_MAPREG_IO_ADDR mr)).

(** The only bus is the root bus, so [f->bus] is its number. *)
Record pci_func := mk_pci_func {
  busno : Z;
  pf_dev : Z;
  pf_func : Z;
  dev_id : Z;
  dev_class : Z;
  reg_base : list Z;
  reg_size : list Z;
  irq_line : Z;
  irq_pin : Z;
}.

(** [f->reg_base[i] = base; f->reg_size[i] = size] *)
Definition set_region (i base size : Z) (f : pci_func) : pci_func :=
  mk_pci_func (busno f) (pf_dev f) (pf_func f) (dev_id f) (dev_class f)
    (<[Z.to_nat i := base]> (reg_base f)) (<[Z.to_nat i := size]> (reg_size f))
    (irq_line f) (irq_pin f).

Definition pci_config_format_addr (bus_addr dev_addr func_addr offset : Z) : Z :=
  Z.lor (Z.lor (Z.lor (Z.lor 0x80000000 (u32 (Z.shiftl bus_addr 16)))
    (u32 (Z.shiftl dev_addr 11))) (u32 (Z.shiftl func_addr 8))) offset.

Class PciPorts (D : Type) := {
  outl : Z → Z → D → D;
  inl_ : Z → D → Z * D;
}.

Section pci.
Context {D : Type} `{!PciPorts D}.

Definition conf_addr (f : pci_func) (off : Z) : Z :=
  pci_config_format_addr (busno f) (pf_dev f) (pf_func f) off.

Definition pci_conf_read (f : pci_func) (off : Z) : M D Z :=
  modify (outl PCI_CONFIG_ADDRESS_IOPORT (conf_addr f off));;
  (λ d, Done (inl_ PCI_CONFIG_DATA_IOPORT d)).

Definition pci_conf_write (f : pci_func) (off v : Z) : M D unit :=
  modify (outl PCI_CONFIG_ADDRESS_IOPORT (conf_addr f off));;
  modify (outl PCI_CONFIG_DATA_IOPORT v).

(** Size and base of the region behind a BAR that read [oldv] and, after all
    ones were written to it, [rv]. *)
Definition bar_region (oldv rv : Z) : Z * Z :=
  if PCI_MAPREG_TYPE rv =? PCI_MAPREG_TYPE_MEM
  then (PCI_MAPREG_MEM_SIZE rv, PCI_MAPREG_MEM_ADDR oldv)
  else (PCI_MAPREG_IO_SIZE rv, PCI_MAPREG_IO_ADDR oldv).

Definition bar_width (rv : Z) : Z :=
  if (PCI_MAPREG_TYPE rv =? PCI_MAPREG_TYPE_MEM) &&
     (PCI_MAPREG_MEM_TYPE rv =? PCI_MAPREG_MEM_TYPE_64BIT) then 8 else 4.

(** The loop over the BARs; every round advances by 4 or 8 bytes, so the six
    registers take at most six rounds and the final test. *)
Fixpoint enable_bars (fuel : nat) (bar : Z) (f : pci_func) : M D pci_func :=
  match fuel with
  | O => fail EFuel
  | S fuel' =>
      if negb (bar <? PCI_MAPREG_END) then ret f
      else
        oldv <- pci_conf_read f bar;;
        pci_conf_write f bar 0xffffffff;;
        rv <- pci_conf_read f bar;;
        if rv =? 0 then enable_bars fuel' (bar + 4) f
        else
          let regnum := PCI_MAPREG_NUM bar in
          let '(size, base) := bar_region oldv rv in
          pci_conf_write f bar oldv;;
          enable_bars fuel' (bar + bar_width rv) (set_region regnum base size f)
  end.

Definition pci_enable_device (f : pci_func) : M D pci_func :=
  pci_conf_write f PCI_COMMAND_STATUS_REG
    (Z.lor (Z.lor PCI_COMMAND_IO_ENABLE PCI_COMMAND_MEM_ENABLE) PCI_COMMAND_MASTER_ENABLE);;
  _ <- pci_conf_read f PCI_COMMAND_STATUS_REG;;
  enable_bars 7 PCI_MAPREG_START f.

End pci.

(** ** Configuration addresses *)

Definition dev_in_range (bus dev func off : Z) : Prop :=
  0 ≤ bus < 256 ∧ 0 ≤ dev < 32 ∧ 0 ≤ func < 8 ∧ 0 ≤ off < 256.

Lemma pci_config_format_addr_sum bus dev func off :
  dev_in_range bus dev func off →
  pci_config_format_addr bus dev func off
  = off + func * 2 ^ 8 + dev * 2 ^ 11 + bus * 2 ^ 16 + 2 ^ 31.
Proof.
  intros (Hb & Hd & Hf & Ho). unfold pci_config_format_addr.
  rewrite !u32_small by (rewrite Z.shiftl_mul_pow2; lia).
  change 0x80000000 with (Z.shiftl 1 31).
  rewrite (Z.lor_comm _ off), (Z.lor_comm _ (Z.shiftl func 8)), (Z.lor_comm _ (Z.shiftl dev 11)),
    (Z.lor_comm (Z.shiftl 1 31)), !Z.lor_assoc.
  rewrite (Z_lor_shiftl_add 8 off), (Z_lor_shiftl_add 11 _ dev), (Z_lor_shiftl_add 16 _ bus),
    (Z_lor_shiftl_add 31) by lia. lia.
Qed.

Lemma format_addr_offset_inj bus dev func o1 o2 :
  dev_in_range bus dev func o1 → dev_in_range bus dev func o2 →
  pci_config_format_addr bus dev func o1 = pci_config_format_addr bus dev func o2 → o1 = o2.
Proof. intros H1 H2. rewrite !pci_config_format_addr_sum by done. lia. Qed.

(** ** What the chipset does *)

(** [conf d a] is the configuration register selected by address word [a];
    [wmask a] are its writable bits. *)
Class ConfigMechanism (D : Type) `{!PciPorts D} (conf : D → Z → Z) (wmask : Z → Z) := {
  cm_read d a :
    fst (inl_ PCI_CONFIG_DATA_IOPORT (outl PCI_CONFIG_ADDRESS_IOPORT a d)) = conf d a;
  cm_read_pure d a a' :
    conf (snd (inl_ PCI_CONFIG_DATA_IOPORT (outl PCI_CONFIG_ADDRESS_IOPORT a d))) a' = conf d a';
  cm_write d a v a' :
    conf (outl PCI_CONFIG_DATA_IOPORT v (outl PCI_CONFIG_ADDRESS_IOPORT a d)) a' =
    if a' =? a then Z.lor (Z.land v (wmask a)) (Z.land (conf d a) (Z.lnot (wmask a)))
    else conf d a';
}.

(** A base address register as the PCI specification describes it: a region
    of [2 ^ k] bytes has its low [k] address bits hardwired to zero, and
    the low bits tell the kind of region. *)
Inductive bar :=
  | BarNone
  | BarMem (k : Z) (wide prefetch : bool) (base : Z)
  | BarIo (k : Z) (base : Z).

#[global] Instance bar_eq_dec : EqDecision bar.
Proof. solve_decision. Defined.

Definition bar_flags (b : bar) : Z :=
  match b with
  | BarNone => 0
  | BarMem _ wide prefetch _ => (if wide then 4 else 0) + (if prefetch then 8 else 0)
  | BarIo _ _ => 1
  end.

Definition bar_bits (b : bar) : Z := match b with BarNone => 0 | BarMem k _ _ _ | BarIo k _ => k end.
Definition bar_base (b : bar) : Z :=
  match b with BarNone => 0 | BarMem _ _ _ base | BarIo _ base => base end.
Definition bar_size (b : bar) : Z := match b with BarNone => 0 | _ => 2 ^ bar_bits b end.
Definition bar_mask (b : bar) : Z := match b with BarNone => 0 | _ => 2 ^ 32 - 2 ^ bar_bits b end.
(** Registers it takes. *)
Definition bar_regs (b : bar) : nat := match b with BarMem _ true _ _ => 2 | _ => 1 end.

Definition bar_wf (b : bar) : Prop :=
  match b with
  | BarNone => True
  | BarMem k _ _ base => 4 ≤ k < 32 ∧ base mod 2 ^ k = 0 ∧ 0 ≤ base < 2 ^ 32
  | BarIo k base => 2 ≤ k < 32 ∧ base mod 2 ^ k = 0 ∧ 0 ≤ base < 2 ^ 32
  end.

(** What a BAR reads before and after all ones are written to it. *)
Definition bar_value (b : bar) : Z := bar_base b + bar_flags b.
Definition bar_probe (b : bar) : Z := bar_mask b + bar_flags b.

(** Writing [v] over [c] in a register whose writable bits are those from
    bit [k] up. *)
Lemma write_masked v c k :
  0 ≤ k ≤ 32 → 0 ≤ v < 2 ^ 32 → 0 ≤ c < 2 ^ 32 →
  Z.lor (Z.land v (2 ^ 32 - 2 ^ k)) (Z.land c (Z.lnot (2 ^ 32 - 2 ^ k)))
  = v - v mod 2 ^ k + c mod 2 ^ k.
Proof.
  intros Hk Hv Hc. rewrite land_lnot, !land_high_mask by done.
  assert (0 < 2 ^ k) by (apply Z.pow_pos_nonneg; lia).
  pose proof (Z.mod_pos_bound c (2 ^ k) ltac:(lia)).
  replace (v - v mod 2 ^ k) with (Z.shiftl (v / 2 ^ k) k)
    by (rewrite Z.shiftl_mul_pow2 by lia; pose proof (Z.div_mod v (2 ^ k)); lia).
  replace (c - (c - c mod 2 ^ k)) with (c mod 2 ^ k) by lia.
  rewrite Z.lor_comm, Z_lor_shiftl_add, Z.shiftl_mul_pow2 by lia. lia.
Qed.

(** Probing does not depend on the base, so it is decided by cases on the
    size and the flags. *)
Definition mem_probe_check (k : Z) : bool :=
  forallb (λ '(w, p), let b := BarMem k w p 0 in let rv := bar_probe b in
    (PCI_MAPREG_TYPE rv =? PCI_MAPREG_TYPE_MEM) && (PCI_MAPREG_MEM_SIZE rv =? bar_size b) &&
    (bar_width rv =? 4 * Z.of_nat (bar_regs b)) && negb (rv =? 0))
  [(true, true); (true, false); (false, true); (false, false)].

Definition io_probe_check (k : Z) : bool :=
  let b := BarIo k 0 in let rv := bar_probe b in
  negb (PCI_MAPREG_TYPE rv =? PCI_MAPREG_TYPE_MEM) && (PCI_MAPREG_IO_SIZE rv =? bar_size b) &&
  (bar_width rv =? 4) && negb (rv =? 0).

Lemma mem_probe_checked k : 4 ≤ k < 32 → mem_probe_check k = true.
Proof.
  intros Hk. replace k with (k - 4 + 4) by lia.
  apply (z_cases 28 (λ j, mem_probe_check (j + 4) = true)); [|lia].
  repeat (constructor; [vm_compute; reflexivity|]). constructor.
Qed.

Lemma io_probe_checked k : 2 ≤ k < 32 → io_probe_check k = true.
Proof.
  intros Hk. replace k with (k - 2 + 2) by lia.
  apply (z_cases 30 (λ j, io_probe_check (j + 2) = true)); [|lia].
  repeat (constructor; [vm_compute; reflexivity|]). constructor.
Qed.

Lemma mod_pow2_weaken x j k : 0 ≤ j ≤ k → x mod 2 ^ k = 0 → x mod 2 ^ j = 0.
Proof.
  intros Hjk Hx. apply Z.mod_divide in Hx; [|apply Z.pow_nonzero; lia].
  apply Z.mod_divide; [apply Z.pow_nonzero; lia|]. etransitivity; [|exact Hx].
  exists (2 ^ (k - j)). rewrite <-Z.pow_add_r by lia. f_equal. lia.
Qed.

Lemma bar_flags_range b : bar_wf b → b ≠ BarNone → 0 ≤ bar_flags b < 2 ^ bar_bits b.
Proof.
  intros Hb Hn. destruct b as [|k w p base|k base]; [done| |]; destruct Hb as (Hk & _); simpl.
  - pose proof (Z.pow_le_mono_r 2 4 k). destruct w, p; lia.
  - pose proof (Z.pow_le_mono_r 2 2 k). lia.
Qed.

Lemma bar_base_room b : bar_wf b → b ≠ BarNone → 0 ≤ bar_base b ≤ 2 ^ 32 - 2 ^ bar_bits b.
Proof.
  intros Hb Hn.
  assert (0 ≤ bar_bits b < 32 ∧ bar_base b mod 2 ^ bar_bits b = 0 ∧ 0 ≤ bar_base b < 2 ^ 32)
    as (Hk & Hm & Hr) by (destruct b; simpl in *; [done|lia|lia]).
  assert (0 < 2 ^ bar_bits b) by (apply Z.pow_pos_nonneg; lia).
  pose proof (Z.div_mod (bar_base b) (2 ^ bar_bits b) ltac:(lia)) as Hd. rewrite Hm in Hd.
  assert (2 ^ 32 = 2 ^ (32 - bar_bits b) * 2 ^ bar_bits b) as Hp
    by (rewrite <-Z.pow_add_r by lia; f_equal; lia).
  assert (bar_base b / 2 ^ bar_bits b < 2 ^ (32 - bar_bits b)).
  { apply (Z.mul_lt_mono_pos_r (2 ^ bar_bits b)); lia. }
  nia.
Qed.

Lemma bar_value_mod b :
  bar_wf b → b ≠ BarNone →
  0 ≤ bar_value b < 2 ^ 32 ∧ bar_value b mod 2 ^ bar_bits b = bar_flags b ∧
  0 ≤ bar_probe b < 2 ^ 32 ∧ bar_probe b mod 2 ^ bar_bits b = bar_flags b.
Proof.
  intros Hb Hn. pose proof (bar_flags_range b Hb Hn) as Hf. pose proof (bar_base_room b Hb Hn) as Hr.
  assert (0 ≤ bar_bits b < 32 ∧ bar_base b mod 2 ^ bar_bits b = 0)
    as (Hk & Hm) by (destruct b; simpl in *; [done|lia|lia]).
  assert (bar_mask b = (2 ^ (32 - bar_bits b) - 1) * 2 ^ bar_bits b) as Hmask.
  { rewrite Z.mul_sub_distr_r, <-Z.pow_add_r by lia.
    replace (32 - bar_bits b + bar_bits b) with 32 by lia. destruct b; simpl; [done|lia|lia]. }
  assert (bar_mask b = 2 ^ 32 - 2 ^ bar_bits b) as Hmask' by (by destruct b).
  unfold bar_value, bar_probe. split; [lia|]. split.
  { rewrite Z.add_mod, Hm by lia. rewrite Z.add_0_l, Z.mod_mod, Z.mod_small by lia. done. }
  split; [lia|]. rewrite Hmask, Z.add_comm, Z.mod_add by lia. by apply Z.mod_small.
Qed.

Lemma ones_mod k : 0 ≤ k ≤ 32 → 0xffffffff - 0xffffffff mod 2 ^ k = 2 ^ 32 - 2 ^ k.
Proof.
  intros Hk. change 0xffffffff with (Z.ones 32). rewrite <-Z.land_ones by lia.
  rewrite Z.land_comm, Z.land_ones by lia.
  pose proof (Z.pow_le_mono_r 2 k 32). pose proof (Z.pow_pos_nonneg 2 k).
  rewrite !Z.ones_equiv, Z.mod_small by lia. lia.
Qed.

Lemma probe_write b :
  bar_wf b → b ≠ BarNone →
  Z.lor (Z.land 0xffffffff (bar_mask b)) (Z.land (bar_value b) (Z.lnot (bar_mask b))) = bar_probe b.
Proof.
  intros Hb Hn. pose proof (bar_value_mod b Hb Hn) as (V1 & V2 & _).
  assert (bar_mask b = 2 ^ 32 - 2 ^ bar_bits b) as Hmask by (by destruct b).
  assert (0 ≤ bar_bits b ≤ 32) as Hk by (destruct b; simpl in *; [done|lia|lia]).
  unfold bar_probe. rewrite Hmask, write_masked, V2, ones_mod by (done || lia). done.
Qed.

Lemma bar_region_probe b :
  bar_wf b → b ≠ BarNone →
  bar_region (bar_value b) (bar_probe b) = (bar_size b, bar_base b) ∧
  bar_width (bar_probe b) = 4 * Z.of_nat (bar_regs b) ∧ bar_probe b ≠ 0.
Proof.
  intros Hb Hn. pose proof (bar_value_mod b Hb Hn) as (Hv & _).
  destruct b as [|k w p base|k base]; [done| |]; destruct Hb as (Hk & Hm & Hr).
  - pose proof (mem_probe_checked k Hk) as Hc. unfold mem_probe_check in Hc.
    rewrite forallb_forall in Hc. specialize (Hc (w, p)). cbv zeta in Hc.
    assert (In (w, p) [(true, true); (true, false); (false, true); (false, false)]) as Hin
      by (destruct w, p; simpl; auto).
    specialize (Hc Hin).
    rewrite !andb_true_iff, negb_true_iff, !Z.eqb_eq, Z.eqb_neq in Hc.
    destruct Hc as [[[H1 H2] H3] H4]. split; [|done].
    unfold bar_region. change (bar_probe (BarMem k w p base)) with (bar_probe (BarMem k w p 0)).
    rewrite H1, H2. cbn [Z.eqb PCI_MAPREG_TYPE_MEM]. f_equal.
    unfold PCI_MAPREG_MEM_ADDR. change 0xfffffff0 with (2 ^ 32 - 2 ^ 4).
    rewrite land_high_mask by lia. unfold bar_value. cbn [bar_base bar_flags].
    rewrite Z.add_mod, (mod_pow2_weaken base 4 k) by (done || lia). destruct w, p; vm_compute (_ mod _); lia.
  - pose proof (io_probe_checked k Hk) as Hc. unfold io_probe_check in Hc. cbv zeta in Hc.
    rewrite !andb_true_iff, !negb_true_iff, !Z.eqb_eq, !Z.eqb_neq in Hc.
    destruct Hc as [[[H1 H2] H3] H4]. split; [|done].
    unfold bar_region. change (bar_probe (BarIo k base)) with (bar_probe (BarIo k 0)).
    apply Z.eqb_neq in H1. rewrite H1, H2. f_equal.
    unfold PCI_MAPREG_IO_ADDR. change 0xfffffffc with (2 ^ 32 - 2 ^ 2).
    rewrite land_high_mask by lia. unfold bar_value. cbn [bar_base bar_flags].
    rewrite Z.add_mod, (mod_pow2_weaken base 2 k) by (done || lia). vm_compute (_ mod _). lia.
Qed.

(** ** The driver against the chipset *)

(** [f]'s registers from offset [off] on are the BARs [bs]. *)
Fixpoint bars_at (c : Z → Z) (wmask : Z → Z) (f : pci_func) (off : Z) (bs : list bar) : Prop :=
  match bs with
  | [] => True
  | b :: bs' =>
      bar_wf b ∧ c (conf_addr f off) = bar_value b ∧ wmask (conf_addr f off) = bar_mask b ∧
      bars_at c wmask f (off + 4 * Z.of_nat (bar_regs b)) bs'
  end.

Definition total_regs (bs : list bar) : nat := sum_list (bar_regs <$> bs).

(** The regions of the BARs [bs], the first of which is register [i]. *)
Fixpoint set_regions (i : Z) (bs : list bar) (f : pci_func) : pci_func :=
  match bs with
  | [] => f
  | b :: bs' =>
      set_regions (i + Z.of_nat (bar_regs b)) bs'
        (match b with BarNone => f | _ => set_region i (bar_base b) (bar_size b) f end)
  end.

Lemma bars_at_ext c c' wmask f g off bs :
  (∀ a, c a = c' a) → (∀ o, conf_addr f o = conf_addr g o) →
  bars_at c wmask f off bs → bars_at c' wmask g off bs.
Proof.
  intros Hc Hf. revert off. induction bs as [|b bs IH]; intros off; simpl; [done|].
  rewrite <-Hc, <-Hf. naive_solver.
Qed.

Lemma conf_addr_ne_command f off :
  dev_in_range (busno f) (pf_dev f) (pf_func f) 0 → 0x10 ≤ off < 0x28 →
  conf_addr f off ≠ conf_addr f PCI_COMMAND_STATUS_REG.
Proof.
  intros (Hb & Hd & Hf & _) Hoff. unfold conf_addr, PCI_COMMAND_STATUS_REG.
  rewrite !pci_config_format_addr_sum by (unfold dev_in_range; lia). lia.
Qed.

Lemma bars_at_agree c c' wmask f off bs :
  (∀ o, PCI_MAPREG_START ≤ o < PCI_MAPREG_END → c (conf_addr f o) = c' (conf_addr f o)) →
  bars_at c wmask f off bs → PCI_MAPREG_START ≤ off →
  off + 4 * Z.of_nat (total_regs bs) = PCI_MAPREG_END → bars_at c' wmask f off bs.
Proof.
  intros Hc. revert off. induction bs as [|b bs IH]; intros off Hb Hst Hend; simpl in *; [done|].
  change (total_regs (b :: bs)) with (bar_regs b + total_regs bs)%nat in *.
  assert (1 ≤ bar_regs b)%nat by (destruct b as [|? [] ?|]; simpl; lia).
  destruct Hb as (Hw & Hv & Hm & Hbs). rewrite <-Hc by lia. split_and!; try done.
  apply IH; [done|lia|lia].
Qed.

Section driver.
Context {D : Type} `{!PciPorts D} {conf : D → Z → Z} {wmask : Z → Z}.
Context `{!ConfigMechanism D conf wmask}.

Lemma pci_conf_read_run f off d :
  ∃ d', pci_conf_read f off d = Done (conf d (conf_addr f off), d') ∧
    ∀ a, conf d' a = conf d a.
Proof.
  unfold pci_conf_read, bind, modify.
  pose proof (cm_read d (conf_addr f off)) as Hr.
  pose proof (cm_read_pure d (conf_addr f off)) as Hp.
  destruct (inl_ _ _) as [v d']. simpl in *. exists d'. by rewrite Hr.
Qed.

Lemma pci_conf_write_run f off v d :
  ∃ d', pci_conf_write f off v d = Done (tt, d') ∧
    ∀ a, conf d' a = if a =? conf_addr f off
      then Z.lor (Z.land v (wmask (conf_addr f off)))
             (Z.land (conf d (conf_addr f off)) (Z.lnot (wmask (conf_addr f off))))
      else conf d a.
Proof. eexists. split; [done|]. intros a. apply cm_write. Qed.

(** One BAR: all ones are written, the probe is read back, and the register
    ends with the value it had. *)
Lemma probe_bar_run f off b d :
  bar_wf b → conf d (conf_addr f off) = bar_value b → wmask (conf_addr f off) = bar_mask b →
  ∃ d1 d2, pci_conf_write f off 0xffffffff d = Done (tt, d1) ∧
    pci_conf_read f off d1 = Done (match b with BarNone => 0 | _ => bar_probe b end, d2) ∧
    match b with
    | BarNone => ∀ a, conf d2 a = conf d a
    | _ => ∃ d3, pci_conf_write f off (bar_value b) d2 = Done (tt, d3) ∧ ∀ a, conf d3 a = conf d a
    end.
Proof.
  intros Hb Hv Hm. destruct (pci_conf_write_run f off 0xffffffff d) as (d1 & Hd1 & C1).
  destruct (pci_conf_read_run f off d1) as (d2 & Hd2 & C2).
  exists d1, d2. split; [done|]. rewrite Hd2, C1, Z.eqb_refl, Hm, Hv.
  destruct (decide (b = BarNone)) as [->|Hn].
  { split; [done|]. intros a. rewrite C2, C1, Hm, Hv. destruct (Z.eqb_spec a (conf_addr f off)) as [->|]; [|done].
    by rewrite Hv. }
  pose proof (bar_value_mod b Hb Hn) as (V1 & V2 & P1 & P2).
  assert (bar_mask b = 2 ^ 32 - 2 ^ bar_bits b) as Hmask by (by destruct b).
  assert (0 ≤ bar_bits b ≤ 32) as Hk by (destruct b; simpl in *; [done|lia|lia]).
  assert (bar_value b - bar_value b mod 2 ^ bar_bits b = bar_base b) as Hbase
    by (rewrite V2; unfold bar_value; lia).
  destruct (pci_conf_write_run f off (bar_value b) d2) as (d3 & Hd3 & C3).
  pose proof (probe_write b Hb Hn) as Hprobe.
  rewrite Hprobe. split; [by destruct b|].
  assert (∀ a, conf d3 a = conf d a) as Hfin.
  { intros a. rewrite C3, Hm, !C2, !C1, Z.eqb_refl, Hm, Hv, Hprobe, Hmask.
    rewrite write_masked, Hbase, P2 by done.
    destruct (Z.eqb_spec a (conf_addr f off)) as [->|]; [|done]. by rewrite Hv. }
  destruct b; [done|by exists d3..].
Qed.

Lemma set_region_conf_addr i base size f o : conf_addr (set_region i base size f) o = conf_addr f o.
Proof. done. Qed.

Lemma enable_bars_run bs fuel off f d :
  bars_at (conf d) wmask f off bs → off + 4 * Z.of_nat (total_regs bs) = PCI_MAPREG_END →
  PCI_MAPREG_START ≤ off → (off - PCI_MAPREG_START) mod 4 = 0 → (total_regs bs < fuel)%nat →
  ∃ d', enable_bars fuel off f d
        = Done (set_regions ((off - PCI_MAPREG_START) / 4) bs f, d') ∧
    ∀ a, conf d' a = conf d a.
Proof.
  revert fuel off f d. induction bs as [|b bs IH]; intros fuel off f d Hb Hend Hst Hal Hfuel;
    (destruct fuel as [|fuel]; [lia|]); cbn [enable_bars].
  { change (total_regs []) with 0%nat in Hend. destruct (Z.ltb_spec off PCI_MAPREG_END); [lia|].
    simpl. by exists d. }
  destruct Hb as (Hwf & Hv & Hm & Hbs).
  change (total_regs (b :: bs)) with (bar_regs b + total_regs bs)%nat in *.
  assert (1 ≤ bar_regs b)%nat as Hpos by (destruct b as [|? [] ?|]; simpl; lia).
  destruct (Z.ltb_spec off PCI_MAPREG_END); [|lia]. cbn [negb].
  destruct (pci_conf_read_run f off d) as (d0 & Hd0 & C0).
  destruct (probe_bar_run f off b d0 Hwf) as (d1 & d2 & Hd1 & Hd2 & Hrest);
    [by rewrite C0|done|].
  unfold bind at 1. rewrite Hd0. unfold bind at 1. rewrite Hd1. unfold bind at 1. rewrite Hd2, Hv.
  assert ((off + 4 * Z.of_nat (bar_regs b) - PCI_MAPREG_START) mod 4 = 0 ∧
    (off + 4 * Z.of_nat (bar_regs b) - PCI_MAPREG_START) / 4
    = (off - PCI_MAPREG_START) / 4 + Z.of_nat (bar_regs b)) as [Hal' Hdiv].
  { replace (off + 4 * Z.of_nat (bar_regs b) - PCI_MAPREG_START)
      with (off - PCI_MAPREG_START + Z.of_nat (bar_regs b) * 4) by lia.
    by rewrite Z.mod_add, Z.div_add by lia. }
  destruct (decide (b = BarNone)) as [->|Hn].
  - destruct (IH fuel (off + 4) f d2) as (d' & Hd' & C'); simpl in *; try done; try lia.
    { apply (bars_at_ext (conf d) _ _ f); [|done|exact Hbs]. intros a. by rewrite Hrest, C0. }
    exists d'. change (4 * Z.of_nat 1) with 4 in Hdiv. rewrite Hd', Hdiv. split; [done|].
    intros a. by rewrite C', Hrest, C0.
  - destruct (bar_region_probe b Hwf Hn) as (Hreg & Hwid & Hne).
    assert (∃ d3, pci_conf_write f off (bar_value b) d2 = Done (tt, d3) ∧
      ∀ a, conf d3 a = conf d0 a) as (d3 & Hd3 & C3) by (by destruct b).
    replace (match b with BarNone => 0 | _ => bar_probe b end) with (bar_probe b) by (by destruct b).
    apply Z.eqb_neq in Hne. rewrite Hne, Hreg, Hwid. cbv zeta beta. unfold bind at 1. rewrite Hd3.
    destruct (IH fuel (off + 4 * Z.of_nat (bar_regs b))
      (set_region (PCI_MAPREG_NUM off) (bar_base b) (bar_size b) f) d3) as (d' & Hd' & C');
      try done; try lia.
    { apply (bars_at_ext (conf d) _ _ f); [|done|exact Hbs]. intros a. by rewrite C3, C0. }
    exists d'. rewrite Hd', Hdiv. split; [by destruct b|]. intros a. by rewrite C', C3, C0.
Qed.

(** ** Properties *)

Lemma pci_enable_device_run bs f d :
  dev_in_range (busno f) (pf_dev f) (pf_func f) 0 →
  bars_at (conf d) wmask f PCI_MAPREG_START bs → total_regs bs = 6%nat →
  ∃ d', pci_enable_device f d = Done (set_regions 0 bs f, d') ∧
    ∀ a, conf d' a =
      if a =? conf_addr f PCI_COMMAND_STATUS_REG
      then Z.lor (Z.land 7 (wmask a)) (Z.land (conf d a) (Z.lnot (wmask a)))
      else conf d a.
Proof.
  intros Hr Hb Ht. unfold pci_enable_device.
  destruct (pci_conf_write_run f PCI_COMMAND_STATUS_REG
    (Z.lor (Z.lor PCI_COMMAND_IO_ENABLE PCI_COMMAND_MEM_ENABLE) PCI_COMMAND_MASTER_ENABLE) d)
    as (d1 & Hd1 & C1).
  destruct (pci_conf_read_run f PCI_COMMAND_STATUS_REG d1) as (d2 & Hd2 & C2).
  unfold bind at 1. rewrite Hd1. unfold bind at 1. rewrite Hd2.
  destruct (enable_bars_run bs 7 PCI_MAPREG_START f d2) as (d3 & Hd3 & C3);
    try done; try (rewrite Ht; done || lia).
  { eapply bars_at_agree; [|exact Hb|..]; try done; [|rewrite Ht; done].
    intros off Hoff. rewrite C2, C1. destruct (Z.eqb_spec (conf_addr f off)
      (conf_addr f PCI_COMMAND_STATUS_REG)) as [E|]; [|done].
    unfold PCI_MAPREG_START, PCI_MAPREG_END in Hoff.
    by apply (conf_addr_ne_command f off) in E. }
  exists d3. rewrite Hd3. split; [done|]. intros a. rewrite C3, C2, C1.
  by destruct (Z.eqb_spec a (conf_addr f PCI_COMMAND_STATUS_REG)) as [->|].
Qed.

(** C24: enabling a device finds the regions behind its six BARs, whatever
    mix of memory, wide memory, I/O and unimplemented BARs it has: base and
    size of every region end up in the entries of its register.  Probing
    overwrites the BARs with all ones, but when it is done every
    configuration register has the value it had, except for the command
    register, whose writable bits are set to I/O, memory and bus-master
    enable. *)
Theorem pci_enable_device_correct bs f d :
  dev_in_range (busno f) (pf_dev f) (pf_func f) 0 →
  bars_at (conf d) wmask f PCI_MAPREG_START bs → total_regs bs = 6%nat →
  ∃ d', pci_enable_device f d = Done (set_regions 0 bs f, d') ∧
    ∀ a, conf d' a =
      if a =? conf_addr f PCI_COMMAND_STATUS_REG
      then Z.lor (Z.land 7 (wmask a)) (Z.land (conf d a) (Z.lnot (wmask a)))
      else conf d a.
Proof. apply pci_enable_device_run. Qed.

End driver.

(** A configuration address names its register uniquely: the enable bit
    is set, and bus, device, function and offset can be read back from the
    fields of the address word, for all values the PCI bus has. *)
Theorem pci_config_format_addr_decodes bus dev func off :
  dev_in_range bus dev func off →
  let a := pci_config_format_addr bus dev func off in
  0 ≤ a < 2 ^ 32 ∧ Z.shiftr a 31 = 1 ∧ Z.land (Z.shiftr a 16) 0xff = bus ∧
  Z.land (Z.shiftr a 11) 0x1f = dev ∧ Z.land (Z.shiftr a 8) 0x7 = func ∧ Z.land a 0xff = off.
Proof.
  intros H a. unfold a. rewrite pci_config_format_addr_sum by done.
  destruct H as (Hb & Hd & Hf & Ho).
  set (x := off + func * 2 ^ 8 + dev * 2 ^ 11 + bus * 2 ^ 16 + 2 ^ 31).
  change 0xff with (Z.ones 8). change 0x7 with (Z.ones 3).
  change (Z.land (Z.shiftr x 11) 0x1f) with (Z.land (Z.shiftr x 11) (Z.ones 5)).
  rewrite !Z.land_ones, !Z.shiftr_div_pow2 by lia. unfold x.
  split_and!; Z.to_euclidean_division_equations; lia.
Qed.

Lemma pci_config_format_addr_decodes_witness :
  let a := pci_config_format_addr 0 3 0 0x10 in
  0 ≤ a < 2 ^ 32 ∧ Z.shiftr a 31 = 1 ∧ Z.land (Z.shiftr a 16) 0xff = 0 ∧
  Z.land (Z.shiftr a 11) 0x1f = 3 ∧ Z.land (Z.shiftr a 8) 0x7 = 0 ∧ Z.land a 0xff = 0x10.
Proof. apply (pci_config_format_addr_decodes 0 3 0 0x10). unfold dev_in_range. lia. Defined.

(** ** A chipset *)

Record chipset := mk_chipset { latch : Z; cfg : Z → Z }.

Definition chip_outl (wmask : Z → Z) (port v : Z) (c : chipset) : chipset :=
  if port =? PCI_CONFIG_ADDRESS_IOPORT then mk_chipset v (cfg c)
  else if port =? PCI_CONFIG_DATA_IOPORT then
    let a := latch c in
    mk_chipset a (λ a', if a' =? a
      then Z.lor (Z.land v (wmask a)) (Z.land (cfg c a) (Z.lnot (wmask a))) else cfg c a')
  else c.

Definition chip_inl (port : Z) (c : chipset) : Z * chipset :=
  (if port =? PCI_CONFIG_DATA_IOPORT then cfg c (latch c) else 0xffffffff, c).

Definition chip_ports (wmask : Z → Z) : PciPorts chipset :=
  {| outl := chip_outl wmask; inl_ := chip_inl |}.

#[local] Instance chip_config wmask :
  @ConfigMechanism chipset (chip_ports wmask) cfg wmask.
Proof. split; reflexivity. Qed.

(** The network card of the machine the kernel runs on: 128 KB of registers
    in memory, 64 bytes of I/O ports, no other region. *)
Definition card_bars : list bar :=
  [BarMem 17 false false 0xfebc0000; BarIo 6 0xc000; BarNone; BarNone; BarNone; BarNone].
Definition card_reg (v : bar → Z) (a : Z) : Z :=
  match list_find (λ i, a = pci_config_format_addr 0 3 0 (0x10 + 4 * i)) (Z.of_nat <$> seq 0 6) with
  | Some (i, _) => match card_bars !! i with Some b => v b | None => 0 end
  | None => if decide (a = pci_config_format_addr 0 3 0 PCI_COMMAND_STATUS_REG) then v BarNone else 0
  end.
Definition card_func : pci_func :=
  mk_pci_func 0 3 0 0x100e8086 0x02000000 (replicate 6 0) (replicate 6 0) 11 1.
Definition card_chip : chipset := mk_chipset 0 (card_reg bar_value).

Lemma pci_enable_device_correct_witness :
  ∃ d', @pci_enable_device chipset (chip_ports (card_reg bar_mask)) card_func card_chip
        = Done (mk_pci_func 0 3 0 0x100e8086 0x02000000
            [0xfebc0000; 0xc000; 0; 0; 0; 0] [0x20000; 64; 0; 0; 0; 0] 11 1, d').
Proof.
  destruct (@pci_enable_device_correct chipset (chip_ports (card_reg bar_mask)) cfg
    (card_reg bar_mask) (chip_config _) card_bars card_func card_chip) as (d' & E & _).
  - unfold dev_in_range. simpl. lia.
  - simpl. repeat split; lia || (vm_compute; congruence).
  - reflexivity.
  - exists d'. exact E.
Defined.
