(* ===== verification/Irq.v ===== *)
(** * ioapic.c and picirq.c: interrupt routing

    The I/O APIC and the 8259A controllers are hardware: [Mmio] and
    [BytePorts] are the 32-bit memory-mapped and the 8-bit port accesses the
    code makes, and [IoapicWindow] is the documented behaviour of the I/O
    APIC's register window. *)

From S2P Require Import Prelude.

Class Mmio (D : Type) := {
  mmio_read : Z → D → Z * D;
  mmio_write : Z → Z → D → D;
}.

Class BytePorts (D : Type) := {
  inb : Z → D → Z * D;
  outb : Z → Z → D → D;
}.

(** traps.h *)
Definition T_IRQ0 : Z := 32.
Definition IRQ_TIMER : Z := 0.
Definition IRQ_KBD : Z := 1.
Definition IRQ_COM1 : Z := 4.
Definition IRQ_IDE : Z := 14.
Definition IRQ_SPURIOUS : Z := 31.

(** ** ioapic.c *)

Definition IOAPIC : Z := 0xFEC00000.
Definition REG_ID : Z := 0x00.
Definition REG_VER : Z := 0x01.
Definition REG_TABLE : Z := 0x10.
Definition INT_DISABLED : Z := 0x00010000.

(** Offsets of [reg] and [data] in [struct ioapic]. *)
Definition ioapic_reg : Z := IOAPIC.
Definition ioapic_data : Z := IOAPIC + 16.

Section ioapic.
Context {D : Type} `{!Mmio D}.

Definition ioapicread (reg : Z) : M D Z :=
  modify (mmio_write ioapic_reg (u32 reg));; (λ d, Done (mmio_read ioapic_data d)).

Definition ioapicwrite (reg data : Z) : M D unit :=
  modify (mmio_write ioapic_reg (u32 reg));; modify (mmio_write ioapic_data (u32 data)).

Definition ioapicinit : M D unit :=
  v <- ioapicread REG_VER;;
  let maxintr := Z.land (Z.shiftr v 16) 0xFF in
  _ <- ioapicread REG_ID;;
  for_ (Z.to_nat (maxintr + 1)) 0 (λ i,
    ioapicwrite (REG_TABLE + 2 * i) (Z.lor INT_DISABLED (T_IRQ0 + i));;
    ioapicwrite (REG_TABLE + 2 * i + 1) 0).

Definition ioapicenable (irq cpunum : Z) : M D unit :=
  ioapicwrite (REG_TABLE + 2 * irq) (T_IRQ0 + irq);;
  ioapicwrite (REG_TABLE + 2 * irq + 1) (Z.shiftl cpunum 24).

End ioapic.

(** ** picirq.c *)

Definition IO_PIC1 : Z := 0x20.
Definition IO_PIC2 : Z := 0xA0.
Definition IRQ_SLAVE : Z := 2.

Record pic (D : Type) := mk_pic { irqmask : Z; pic_ports : D }.
Arguments mk_pic {D}.
Arguments irqmask {D}.
Arguments pic_ports {D}.

Section picirq.
Context {D : Type} `{!BytePorts D}.

Definition pic_outb (port v : Z) : M (pic D) unit :=
  modify (λ p, mk_pic (irqmask p) (outb port (u8 v) (pic_ports p))).

Definition picsetmask (mask : Z) : M (pic D) unit :=
  modify (λ p, mk_pic (u16 mask) (pic_ports p));;
  pic_outb (IO_PIC1 + 1) (u16 mask);;
  pic_outb (IO_PIC2 + 1) (Z.shiftr (u16 mask) 8).

Definition picenable (irq : Z) : M (pic D) unit :=
  m <- gets irqmask;;
  picsetmask (Z.land m (Z.lnot (s32 (Z.shiftl 1 irq)))).

Definition picinit : M (pic D) unit :=
  pic_outb (IO_PIC1 + 1) 0xFF;;
  pic_outb (IO_PIC2 + 1) 0xFF;;
  pic_outb IO_PIC1 0x11;;
  pic_outb (IO_PIC1 + 1) T_IRQ0;;
  pic_outb (IO_PIC1 + 1) (Z.shiftl 1 IRQ_SLAVE);;
  pic_outb (IO_PIC1 + 1) 0x3;;
  pic_outb IO_PIC2 0x11;;
  pic_outb (IO_PIC2 + 1) (T_IRQ0 + 8);;
  pic_outb (IO_PIC2 + 1) IRQ_SLAVE;;
  pic_outb (IO_PIC2 + 1) 0x3;;
  pic_outb IO_PIC1 0x68;;
  pic_outb IO_PIC1 0x0a;;
  pic_outb IO_PIC2 0x68;;
  pic_outb IO_PIC2 0x0a;;
  m <- gets irqmask;;
  when (negb (m =? 0xFFFF)) (picsetmask m).

End picirq.

(** ** The I/O APIC's registers *)

(** Writing the select register and then the data register changes the
    selected register; reading returns it. *)
Class IoapicWindow (D : Type) `{!Mmio D} (reg : D → Z → Z) := {
  iow_read d r :
    fst (mmio_read ioapic_data (mmio_write ioapic_reg r d)) = reg d r;
  iow_read_pure d r r' :
    reg (snd (mmio_read ioapic_data (mmio_write ioapic_reg r d))) r' = reg d r';
  iow_write d r v r' :
    reg (mmio_write ioapic_data v (mmio_write ioapic_reg r d)) r' = if r' =? r then v else reg d r';
}.

Definition maxintr_of (v : Z) : Z := Z.land (Z.shiftr v 16) 0xFF.

Lemma maxintr_range v : 0 ≤ maxintr_of v < 256.
Proof.
  unfold maxintr_of. change 0xFF with (Z.ones 8). rewrite Z.land_ones by lia.
  apply Z.mod_pos_bound. lia.
Qed.

(** The state of the interrupt [i] in the redirection table: [None] is
    masked, [Some c] is delivered to the CPU with APIC id [c]. *)
Definition route_words (i : Z) (r : option Z) : Z * Z :=
  match r with
  | None => (INT_DISABLED + (T_IRQ0 + i), 0)
  | Some c => (T_IRQ0 + i, c * 2 ^ 24)
  end.

(** The routing after the calls [ioapicenable(irq, cpu)] in [calls], most
    recent first. *)
Fixpoint routing (calls : list (Z * Z)) (i : Z) : option Z :=
  match calls with
  | [] => None
  | (irq, cpu) :: calls' => if irq =? i then Some cpu else routing calls' i
  end.

Lemma disabled_word v : 0 ≤ v < 2 ^ 16 → Z.lor v INT_DISABLED = INT_DISABLED + v.
Proof.
  intros Hv. change INT_DISABLED with (Z.shiftl 1 16) at 1.
  rewrite Z_lor_shiftl_add by lia. unfold INT_DISABLED. lia.
Qed.

Section ioapic_proofs.
Context {D : Type} `{!Mmio D} {reg : D → Z → Z} `{!IoapicWindow D reg}.

Fixpoint enable_all (calls : list (Z * Z)) : M D unit :=
  match calls with
  | [] => ret tt
  | (irq, cpu) :: calls' => enable_all calls';; ioapicenable irq cpu
  end.

Lemma ioapicread_run r d :
  0 ≤ r < 2 ^ 32 → ∃ d', ioapicread r d = Done (reg d r, d') ∧ ∀ r', reg d' r' = reg d r'.
Proof.
  intros Hr. unfold ioapicread, bind, modify. rewrite u32_small by done.
  pose proof (iow_read d r) as H1. pose proof (iow_read_pure d r) as H2.
  destruct (mmio_read _ _) as [v d']. simpl in *. exists d'. by rewrite H1.
Qed.

Lemma ioapicwrite_pair_run r v w d :
  0 ≤ r < 2 ^ 31 → 0 ≤ v < 2 ^ 32 → 0 ≤ w < 2 ^ 32 →
  ∃ d', (ioapicwrite r v;; ioapicwrite (r + 1) w) d = Done (tt, d') ∧
    ∀ r', reg d' r' = if r' =? r then v else if r' =? r + 1 then w else reg d r'.
Proof.
  intros Hr Hv Hw. eexists. split; [done|]. intros r'. cbn beta.
  rewrite !iow_write, !u32_small by lia.
  destruct (Z.eqb_spec r' (r + 1)), (Z.eqb_spec r' r); try done; lia.
Qed.

Lemma ioapicenable_run irq cpu d :
  0 ≤ irq < 2 ^ 16 → 0 ≤ cpu < 256 →
  ∃ d', ioapicenable irq cpu d = Done (tt, d') ∧
    ∀ r, reg d' r = if r =? REG_TABLE + 2 * irq then T_IRQ0 + irq
                    else if r =? REG_TABLE + 2 * irq + 1 then cpu * 2 ^ 24 else reg d r.
Proof.
  intros Hi Hc. rewrite <-Z.shiftl_mul_pow2 by lia.
  apply ioapicwrite_pair_run; unfold REG_TABLE, T_IRQ0; [lia|lia|].
  rewrite Z.shiftl_mul_pow2 by lia. lia.
Qed.

(** The redirection table up to entry [n] agrees with [r]. *)
Definition table_is (n : Z) (r : Z → option Z) (d : D) : Prop :=
  ∀ i, 0 ≤ i < n → (reg d (REG_TABLE + 2 * i), reg d (REG_TABLE + 2 * i + 1)) = route_words i (r i).

Lemma ioapicinit_run d :
  ∃ d', ioapicinit d = Done (tt, d') ∧
    table_is (maxintr_of (reg d REG_VER) + 1) (λ _, None) d'.
Proof.
  destruct (ioapicread_run REG_VER d) as (d1 & H1 & C1); [unfold REG_VER; lia|].
  destruct (ioapicread_run REG_ID d1) as (d2 & H2 & C2); [unfold REG_ID; lia|].
  unfold ioapicinit. unfold bind at 1. rewrite H1. cbv zeta. unfold bind at 1. rewrite H2.
  fold (maxintr_of (reg d REG_VER)). pose proof (maxintr_range (reg d REG_VER)) as Hm.
  set (n := Z.to_nat (maxintr_of (reg d REG_VER) + 1)).
  assert (maxintr_of (reg d REG_VER) + 1 = 0 + Z.of_nat n) as -> by lia.
  enough (wp (for_ n 0 (λ i, ioapicwrite (REG_TABLE + 2 * i) (Z.lor INT_DISABLED (T_IRQ0 + i));;
            ioapicwrite (REG_TABLE + 2 * i + 1) 0)) (λ _ t, table_is (0 + Z.of_nat n) (λ _, None) t) d2)
    as (a & d' & E & Ht)%wp_run by (destruct a; eauto).
  apply (wpe_for n 0 _ (λ i, table_is i (λ _, None))); [intros i Hi; lia|].
  intros j t Hj Ht. apply wp_run.
  destruct (ioapicwrite_pair_run (REG_TABLE + 2 * j) (INT_DISABLED + (T_IRQ0 + j)) 0 t) as (t' & E & C);
    [unfold REG_TABLE, INT_DISABLED, T_IRQ0; lia..|].
  exists tt, t'. split.
  { rewrite <-E, Z.lor_comm, disabled_word by (unfold T_IRQ0; lia). done. }
  intros i Hi. rewrite !C. destruct (decide (i = j)) as [->|].
  - rewrite !Z.eqb_refl. destruct (Z.eqb_spec (REG_TABLE + 2 * j + 1) (REG_TABLE + 2 * j)); [lia|done].
  - repeat match goal with |- context [?x =? ?y] => destruct (Z.eqb_spec x y); [lia|] end.
    apply Ht. lia.
Qed.

Lemma ioapicenable_table n r irq cpu d :
  0 ≤ irq < n → n ≤ 256 → 0 ≤ cpu < 256 → table_is n r d →
  ∃ d', ioapicenable irq cpu d = Done (tt, d') ∧
    table_is n (λ i, if irq =? i then Some cpu else r i) d'.
Proof.
  intros Hi Hn Hc Ht. destruct (ioapicenable_run irq cpu d) as (d' & E & C); [lia|lia|].
  exists d'. split; [done|]. intros i Hi'. rewrite !C. destruct (Z.eqb_spec irq i) as [->|].
  - rewrite !Z.eqb_refl. destruct (Z.eqb_spec (REG_TABLE + 2 * i + 1) (REG_TABLE + 2 * i)); [lia|done].
  - repeat match goal with |- context [?x =? ?y] => destruct (Z.eqb_spec x y); [lia|] end.
    by apply Ht.
Qed.

(** Interrupt routing.  After [ioapicinit] and any sequence of
    [ioapicenable] calls, every entry of the redirection table is masked and
    unrouted unless a call named its interrupt; otherwise it is unmasked,
    edge-triggered, and delivered to the CPU of the last such call only. *)
Theorem ioapic_routes_last_call calls d :
  Forall (λ c, 0 ≤ fst c ≤ maxintr_of (reg d REG_VER) ∧ 0 ≤ snd c < 256) calls →
  ∃ d', (ioapicinit;; enable_all calls) d = Done (tt, d') ∧
    table_is (maxintr_of (reg d REG_VER) + 1) (routing calls) d'.
Proof.
  intros Hall. destruct (ioapicinit_run d) as (d0 & H0 & T0).
  pose proof (maxintr_range (reg d REG_VER)) as Hm.
  unfold bind at 1. rewrite H0.
  induction Hall as [|[irq cpu] calls [Hi Hc] Hall IH]; [by exists d0|].
  destruct IH as (d1 & H1 & T1). simpl in Hi, Hc. cbn [enable_all].
  destruct (ioapicenable_table (maxintr_of (reg d REG_VER) + 1) (routing calls) irq cpu d1) as (d2 & H2 & T2);
    [lia|lia|lia|exact T1|].
  exists d2. unfold bind. by rewrite H1, H2.
Qed.

End ioapic_proofs.

(** An I/O APIC with 24 interrupts. *)
Record apic := mk_apic { apic_sel : Z; apic_regs : Z → Z }.

#[local] Instance apic_mmio : Mmio apic := {|
  mmio_read a d := (if a =? ioapic_data then apic_regs d (apic_sel d) else 0, d);
  mmio_write a v d :=
    if a =? ioapic_reg then mk_apic v (apic_regs d)
    else if a =? ioapic_data then
      mk_apic (apic_sel d) (λ r, if r =? apic_sel d then v else apic_regs d r)
    else d;
|}.

#[local] Instance apic_window : IoapicWindow apic apic_regs.
Proof. split; reflexivity. Qed.

(** The e1000 driver enables its interrupt for CPU 0 and then for CPU 1:
    only CPU 1 gets it. *)
Lemma ioapic_routes_last_call_witness :
  ∃ d', (ioapicinit;; enable_all [(11, 1); (11, 0)]) (mk_apic 0 (λ r, if r =? 1 then 0x170011 else 0))
        = Done (tt, d') ∧
    table_is (reg := apic_regs) 24 (routing [(11, 1); (11, 0)]) d' ∧
    apic_regs d' (REG_TABLE + 2 * 11 + 1) = 2 ^ 24.
Proof.
  destruct (ioapic_routes_last_call [(11, 1); (11, 0)] (mk_apic 0 (λ r, if r =? 1 then 0x170011 else 0)))
    as (d' & E & T).
  - repeat constructor; vm_compute; congruence.
  - exists d'. split; [exact E|]. split; [exact T|].
    assert (0 ≤ 11 < maxintr_of 0x170011 + 1) as H11 by (vm_compute; split; congruence).
    specialize (T 11 H11). change (routing _ 11) with (Some 1) in T.
    unfold route_words in T. injection T as _ T. exact T.
Defined.

(** ** The 8259A mask *)

Section pic_proofs.
Context {D : Type} `{!BytePorts D}.

Definition pic_init_mask : Z := Z.land 0xFFFF (Z.lnot (Z.shiftl 1 IRQ_SLAVE)).

(** Call [picenable] for each of [irqs]. *)
Fixpoint picenable_all (irqs : list Z) : M (pic D) unit :=
  match irqs with
  | [] => ret tt
  | i :: irqs' => picenable i;; picenable_all irqs'
  end.

Lemma picenable_run i p :
  0 ≤ i < 16 → 0 ≤ irqmask p < 2 ^ 16 →
  ∃ p', picenable i p = Done (tt, p') ∧ 0 ≤ irqmask p' < 2 ^ 16 ∧
    (∀ j, 0 ≤ j < 16 → Z.testbit (irqmask p') j = Z.testbit (irqmask p) j && negb (j =? i)) ∧
    pic_ports p' = outb (IO_PIC2 + 1) (u8 (Z.shiftr (irqmask p') 8))
                     (outb (IO_PIC1 + 1) (u8 (irqmask p')) (pic_ports p)).
Proof.
  intros Hi Hp. eexists. split; [done|]. cbn [irqmask pic_ports].
  set (m := Z.land _ _). unfold u16.
  split; [apply Z.mod_pos_bound; lia|]. split; [|done].
  intros j Hj. rewrite Z.mod_pow2_bits_low by lia. unfold m.
  assert (s32 (Z.shiftl 1 i) = 2 ^ i) as ->.
  { rewrite Z.shiftl_mul_pow2, Z.mul_1_l by lia. pose proof (Z.pow_lt_mono_r 2 i 16).
    pose proof (Z.pow_pos_nonneg 2 i). apply s32_small. lia. }
  rewrite Z.land_spec, Z.lnot_spec, Z.pow2_bits_eqb by lia. by rewrite (Z.eqb_sym i j).
Qed.

(** After any [picenable] calls from boot, an interrupt line is unmasked
    in the mask the driver keeps exactly when it is the cascade line or some
    call enabled it; no call masks a line again. *)
Theorem picenable_unmasks_exactly irqs d :
  Forall (λ i, 0 ≤ i < 16) irqs →
  ∃ p', picenable_all irqs (mk_pic pic_init_mask d) = Done (tt, p') ∧
    ∀ j, 0 ≤ j < 16 → (Z.testbit (irqmask p') j = false ↔ j = IRQ_SLAVE ∨ j ∈ irqs).
Proof.
  intros Hall.
  enough (∀ p, 0 ≤ irqmask p < 2 ^ 16 → ∃ p', picenable_all irqs p = Done (tt, p') ∧
    ∀ j, 0 ≤ j < 16 → Z.testbit (irqmask p') j = Z.testbit (irqmask p) j && negb (bool_decide (j ∈ irqs))) as H.
  { destruct (H (mk_pic pic_init_mask d)) as (p' & E & Hb); [vm_compute; split; congruence|].
    exists p'. split; [done|]. intros j Hj. rewrite Hb by done.
    assert (Z.testbit pic_init_mask j = negb (j =? IRQ_SLAVE)) as Hm.
    { revert j Hj. apply (z_cases 16 (λ j, Z.testbit pic_init_mask j = negb (j =? IRQ_SLAVE))).
      repeat (constructor; [reflexivity|]). constructor. }
    cbn [irqmask]. rewrite Hm. destruct (Z.eqb_spec j IRQ_SLAVE); case_bool_decide; simpl; naive_solver. }
  induction Hall as [|i irqs Hi Hall IH]; intros p Hp; cbn [picenable_all].
  - exists p. split; [done|]. intros j _. rewrite bool_decide_false by set_solver. by rewrite andb_true_r.
  - destruct (picenable_run i p Hi Hp) as (p1 & E1 & R1 & B1 & _).
    destruct (IH p1 R1) as (p2 & E2 & B2). exists p2. unfold bind. rewrite E1, E2. split; [done|].
    intros j Hj. rewrite B2, B1 by done. rewrite <-andb_assoc. f_equal.
    destruct (Z.eqb_spec j i) as [->|Hne]; simpl.
    + rewrite (bool_decide_true (i ∈ i :: irqs)) by set_solver. done.
    + f_equal. apply bool_decide_ext. set_solver.
Qed.

End pic_proofs.

#[local] Instance log_ports : BytePorts (list (Z * Z)) := {|
  inb _ l := (0, l); outb p v l := (p, v) :: l |}.

Lemma picenable_unmasks_exactly_witness :
  ∃ p', picenable_all [4; 11] (mk_pic pic_init_mask []) = Done (tt, p') ∧
    Z.testbit (irqmask p') 11 = false.
Proof.
  destruct (picenable_unmasks_exactly [4; 11] []) as (p' & E & H).
  - repeat constructor; lia.
  - exists p'. split; [exact E|]. apply H; [lia|]. right. set_solver.
Defined.
