(* ===== verification/Spinlock.v ===== *)
(** * spinlock.c, sleeplock.c and mycpu of proc.c

    Three views of the locks.
    - [pushcli]/[popcli] and [mycpu] as functions on the per-CPU record.
    - [Smp]: any number of CPUs racing for one lock, one memory access per
      step, as a step relation; mutual exclusion and the panic conditions
      are invariants of it.
    - [acquire]/[release] and the sleep locks as the code running on one CPU
      sees them, for use in the sequential models of the other components. *)

From S2P Require Import Prelude.

(** ** Per-CPU interrupt state: [struct cpu] of proc.h, EFLAGS of mmu.h *)

Definition FL_IF : Z := 0x200.

Record cpu := mk_cpu {
  eflags : Z;
  ncli : Z;
  intena : Z;
}.

Definition cli (c : cpu) : cpu := mk_cpu (Z.ldiff (eflags c) FL_IF) (ncli c) (intena c).
Definition sti (c : cpu) : cpu := mk_cpu (Z.lor (eflags c) FL_IF) (ncli c) (intena c).
Definition readeflags (c : cpu) : Z := eflags c.

(** Is the interrupt flag set? *)
Definition if_set (c : cpu) : bool := negb (Z.land (readeflags c) FL_IF =? 0).

Definition pushcli (c : cpu) : cpu :=
  let e := readeflags c in
  let c := cli c in
  let c := if ncli c =? 0 then mk_cpu (eflags c) (ncli c) (Z.land e FL_IF) else c in
  mk_cpu (eflags c) (ncli c + 1) (intena c).

Definition popcli (c : cpu) : result cpu :=
  if if_set c then Fail (EPanic "popcli - interruptible")
  else
    let c := mk_cpu (eflags c) (ncli c - 1) (intena c) in
    if ncli c <? 0 then Fail (EPanic "popcli")
    else if (ncli c =? 0) && negb (intena c =? 0) then Done (sti c)
    else Done c.

(** [mycpu]: index into [cpus] of the entry with this CPU's APIC id;
    [apicids] are the [apicid] fields of the first [ncpu] entries. *)
Fixpoint find_apicid (apicids : list Z) (i : nat) (apicid : Z) : option nat :=
  match apicids with
  | [] => None
  | a :: rest => if a =? apicid then Some i else find_apicid rest (S i) apicid
  end.

Definition mycpu (apicids : list Z) (lapicid : Z) (c : cpu) : result nat :=
  if if_set c then Fail (EPanic "mycpu called with interrupts enabled")
  else match find_apicid apicids 0 lapicid with
       | Some i => Done i
       | None => Fail (EPanic "unknown apicid")
       end.

(** ** struct spinlock *)

Record spinlock := mk_spinlock {
  locked : Z;
  lk_name : string;
  lk_cpu : option nat;   (* the holder; 0 in C is [None] *)
}.

Definition initlock (name : string) : spinlock := mk_spinlock 0 name None.

Definition holding (me : nat) (lk : spinlock) : bool :=
  negb (locked lk =? 0) && bool_decide (lk_cpu lk = Some me).

(** ** The view of one CPU

    [acquire] spins while another CPU holds the lock; in a run in which
    nobody else makes progress that is the outcome [ESpin]. *)

Definition acquire (me : nat) : M spinlock unit := λ lk,
  if holding me lk then Fail (EPanic "acquire")
  else if negb (locked lk =? 0) then Fail ESpin
  else Done (tt, mk_spinlock 1 (lk_name lk) (Some me)).

Definition release (me : nat) : M spinlock unit := λ lk,
  if negb (holding me lk) then Fail (EPanic "release")
  else Done (tt, mk_spinlock 0 (lk_name lk) None).

(** A lock nobody holds, in the state [initlock] and [release] leave it. *)
Definition lock_free (lk : spinlock) : Prop := locked lk = 0 ∧ lk_cpu lk = None.

Lemma lock_free_eq lk : lock_free lk → lk = mk_spinlock 0 (lk_name lk) None.
Proof. destruct lk. intros [??]; simpl in *; by subst. Qed.

Lemma acquire_free me lk :
  lock_free lk → acquire me lk = Done (tt, mk_spinlock 1 (lk_name lk) (Some me)).
Proof. intros [Hl Hc]. unfold acquire, holding. by rewrite Hl. Qed.

Lemma release_held me name :
  release me (mk_spinlock 1 name (Some me)) = Done (tt, mk_spinlock 0 name None).
Proof. unfold release, holding. simpl. by rewrite bool_decide_eq_true_2. Qed.

(** ** sleeplock.c

    [acquiresleep] calls [sleep] while the lock is taken: in a run in which
    nobody else makes progress the caller stays asleep ([ESleep]). *)

Record sleeplock := mk_sleeplock {
  sl_locked : Z;
  sl_lk : spinlock;
  sl_name : string;
  sl_pid : Z;
}.

Definition initsleeplock (name : string) : sleeplock :=
  mk_sleeplock 0 (initlock "sleep lock") name 0.

Definition with_sl_lk (lk : spinlock) (s : sleeplock) : sleeplock :=
  mk_sleeplock (sl_locked s) lk (sl_name s) (sl_pid s).

Definition acquiresleep (me : nat) (pid : Z) : M sleeplock unit :=
  zoom sl_lk with_sl_lk (acquire me);;
  l <- gets sl_locked;;
  (if negb (l =? 0) then fail (ESleep "sleeplock") else ret tt);;
  modify (λ s, mk_sleeplock 1 (sl_lk s) (sl_name s) (sl_pid s));;
  modify (λ s, mk_sleeplock (sl_locked s) (sl_lk s) (sl_name s) pid);;
  zoom sl_lk with_sl_lk (release me).

(** The [wakeup(lk)] inside acts on the process table (see [Proc]). *)
Definition releasesleep (me : nat) : M sleeplock unit :=
  zoom sl_lk with_sl_lk (acquire me);;
  modify (λ s, mk_sleeplock 0 (sl_lk s) (sl_name s) (sl_pid s));;
  modify (λ s, mk_sleeplock (sl_locked s) (sl_lk s) (sl_name s) 0);;
  zoom sl_lk with_sl_lk (release me).

Definition holdingsleep (me : nat) : M sleeplock Z :=
  zoom sl_lk with_sl_lk (acquire me);;
  r <- gets sl_locked;;
  zoom sl_lk with_sl_lk (release me);;
  ret r.

(** Free and held sleep locks, as the three routines leave them. *)
Definition sl_free (name : string) : sleeplock := initsleeplock name.
Definition sl_held (name : string) (pid : Z) : sleeplock :=
  mk_sleeplock 1 (initlock "sleep lock") name pid.

Lemma acquiresleep_free me pid name :
  acquiresleep me pid (sl_free name) = Done (tt, sl_held name pid).
Proof.
  unfold acquiresleep, bind, zoom, gets, modify, ret. cbn.
  rewrite release_held. reflexivity.
Qed.

Lemma acquiresleep_held me pid name pid' :
  acquiresleep me pid (sl_held name pid') = Fail (ESleep "sleeplock").
Proof. reflexivity. Qed.

Lemma releasesleep_held me name pid :
  releasesleep me (sl_held name pid) = Done (tt, sl_free name).
Proof.
  unfold releasesleep, bind, zoom, gets, modify, ret. cbn.
  rewrite release_held. reflexivity.
Qed.

Lemma holdingsleep_held me name pid :
  holdingsleep me (sl_held name pid) = Done (1, sl_held name pid).
Proof.
  unfold holdingsleep, bind, zoom, gets, modify, ret. cbn.
  rewrite release_held. reflexivity.
Qed.

Lemma holdingsleep_free me name :
  holdingsleep me (sl_free name) = Done (0, sl_free name).
Proof.
  unfold holdingsleep, bind, zoom, gets, modify, ret. cbn.
  rewrite release_held. reflexivity.
Qed.

(** ** pushcli and popcli *)

Lemma if_set_cli c n i : if_set (mk_cpu (Z.ldiff (eflags c) FL_IF) n i) = false.
Proof.
  unfold if_set, readeflags. simpl.
  replace (Z.land (Z.ldiff (eflags c) FL_IF) FL_IF) with 0; [done|].
  symmetry. apply Z.bits_inj'. intros k Hk. rewrite Z.land_spec, Z.ldiff_spec, Z.bits_0.
  by destruct (Z.testbit (eflags c) k), (Z.testbit FL_IF k).
Qed.

Lemma pushcli_ncli c : ncli (pushcli c) = ncli c + 1.
Proof. unfold pushcli. simpl. by destruct (ncli c =? 0). Qed.

Lemma pushcli_if c : if_set (pushcli c) = false.
Proof. unfold pushcli. simpl. destruct (ncli c =? 0); simpl; apply if_set_cli. Qed.

Lemma popcli_ok c :
  0 < ncli c → if_set c = false → ∃ c', popcli c = Done c' ∧ ncli c' = ncli c - 1 ∧
    (0 < ncli c' → if_set c' = false).
Proof.
  intros Hn Hi. unfold popcli. rewrite Hi. simpl. destruct (Z.ltb_spec (ncli c - 1) 0); [lia|].
  destruct (Z.eqb_spec (ncli c - 1) 0) as [E|E]; cbn [andb].
  - destruct (negb (intena c =? 0)); eexists; (split; [done|]); simpl; split; (done || lia).
  - eexists. split; [done|]. simpl. done.
Qed.

Definition pushes (n : nat) (c : cpu) : cpu := Nat.iter n pushcli c.
Fixpoint pops (n : nat) (c : cpu) : result cpu :=
  match n with O => Done c | S n' => rbind (popcli c) (pops n') end.

Lemma ldiff_lor_if e : Z.land e FL_IF ≠ 0 → Z.lor (Z.ldiff e FL_IF) FL_IF = e.
Proof.
  intros He. assert (Z.testbit e 9 = true) as H9.
  { destruct (Z.testbit e 9) eqn:E; [done|]. exfalso. apply He.
    apply Z.bits_inj'. intros k Hk. rewrite Z.land_spec, Z.bits_0.
    change FL_IF with (2 ^ 9). rewrite Z.pow2_bits_eqb by lia.
    destruct (Z.eqb_spec 9 k) as [<-|]; [by rewrite E|apply andb_false_r]. }
  apply Z.bits_inj'. intros k Hk. rewrite Z.lor_spec, Z.ldiff_spec.
  change FL_IF with (2 ^ 9). rewrite Z.pow2_bits_eqb by lia.
  destruct (Z.eqb_spec 9 k) as [<-|]; cbn [negb]; [by rewrite H9, orb_true_r|].
  by rewrite andb_true_r, orb_false_r.
Qed.

Lemma ldiff_noif e : Z.land e FL_IF = 0 → Z.ldiff e FL_IF = e.
Proof.
  intros He. pose proof (Z.lor_ldiff_and e FL_IF) as H. by rewrite He, Z.lor_0_r in H.
Qed.

Lemma pops_snoc k d : pops (S k) d = rbind (pops k d) popcli.
Proof.
  revert d. induction k as [|k IHk]; intros d; [by cbn; destruct (popcli d)|].
  cbn [pops] in *. destruct (popcli d) as [d'|]; [|done]. cbn [rbind]. by rewrite <-IHk.
Qed.

(** Inner pushes (interrupts already off) cancel exactly. *)
Lemma pops_pushes_inner n c :
  0 < ncli c → if_set c = false → pops n (pushes n c) = Done c.
Proof.
  intros Hn Hi. revert c Hn Hi. induction n as [|n IH]; intros c Hn Hi; [done|].
  assert (Z.ldiff (eflags c) FL_IF = eflags c) as He.
  { apply ldiff_noif. unfold if_set, readeflags in Hi.
    by apply negb_false_iff, Z.eqb_eq in Hi. }
  assert (pushcli c = mk_cpu (eflags c) (ncli c + 1) (intena c)) as Hp.
  { unfold pushcli, cli. simpl. rewrite He. destruct (Z.eqb_spec (ncli c) 0); [lia|done]. }
  unfold pushes. rewrite Nat.iter_succ_r. fold (pushes n (pushcli c)).
  rewrite pops_snoc, IH; [|rewrite pushcli_ncli; lia|apply pushcli_if].
  cbn [rbind]. rewrite Hp. unfold popcli.
  assert (if_set (mk_cpu (eflags c) (ncli c + 1) (intena c)) = false) as -> by done.
  simpl. replace (ncli c + 1 - 1) with (ncli c) by lia.
  destruct (Z.ltb_spec (ncli c) 0); [lia|]. destruct (Z.eqb_spec (ncli c) 0); [lia|].
  by destruct c.
Qed.

#[local] Opaque pushcli popcli.

(** ** Many CPUs and one lock *)

Module Smp.

(** Where a CPU is.  The flag on the two [holding] tests says whether the
    CPU made the call while it had the lock. *)
Inductive pc :=
  | Idle
  | AcqCheck (h : bool)    (* acquire: holding() about to read lk->locked *)
  | AcqCheck2 (h : bool)   (* it was set; about to read lk->cpu *)
  | Spin                   (* at the xchg *)
  | AcqCpu                 (* has the lock; about to set lk->cpu *)
  | Crit                   (* acquire has returned *)
  | RelCheck (h : bool)
  | RelCheck2 (h : bool)
  | RelClr                 (* about to clear lk->cpu *)
  | RelUnlock              (* about to store 0 in lk->locked *)
  | RelPop                 (* at popcli *)
  | Halted (h : bool) (msg : string).

(** [depth] counts the CPU's other outstanding [pushcli] calls. *)
Record thread := mk_thread { tcpu : cpu; at_ : pc; depth : nat }.

Record state := mk_state { lk : spinlock; thr : nat → thread }.

Definition set_thr (s : state) (i : nat) (t : thread) : nat → thread :=
  λ j, if decide (j = i) then t else thr s j.

Definition goto (s : state) (l : spinlock) (i : nat) (c : cpu) (p : pc) : state :=
  mk_state l (set_thr s i (mk_thread c p (depth (thr s i)))).

Definition holds_pc (p : pc) : bool :=
  match p with
  | AcqCheck h | AcqCheck2 h | RelCheck h | RelCheck2 h | Halted h _ => h
  | AcqCpu | Crit | RelClr | RelUnlock => true
  | Idle | Spin | RelPop => false
  end.
Definition holds (t : thread) : bool := holds_pc (at_ t).

(** One access of CPU [i] to its own state or to the shared lock. *)
Inductive step (i : nat) : state → state → Prop :=
  | step_call_acquire s (h : bool) :
      at_ (thr s i) = (if h then Crit else Idle) →
      step i s (goto s (lk s) i (pushcli (tcpu (thr s i))) (AcqCheck h))
  | step_acq_check s h :
      at_ (thr s i) = AcqCheck h →
      step i s (goto s (lk s) i (tcpu (thr s i))
                  (if locked (lk s) =? 0 then Spin else AcqCheck2 h))
  | step_acq_check2 s h :
      at_ (thr s i) = AcqCheck2 h →
      step i s (goto s (lk s) i (tcpu (thr s i))
                  (if bool_decide (lk_cpu (lk s) = Some i) then Halted h "acquire" else Spin))
  | step_xchg s :
      at_ (thr s i) = Spin →
      step i s (goto s (mk_spinlock 1 (lk_name (lk s)) (lk_cpu (lk s))) i (tcpu (thr s i))
                  (if locked (lk s) =? 0 then AcqCpu else Spin))
  | step_acq_cpu s :
      at_ (thr s i) = AcqCpu →
      step i s (goto s (mk_spinlock (locked (lk s)) (lk_name (lk s)) (Some i)) i
                  (tcpu (thr s i)) Crit)
  | step_call_release s (h : bool) :
      at_ (thr s i) = (if h then Crit else Idle) →
      step i s (goto s (lk s) i (tcpu (thr s i)) (RelCheck h))
  | step_rel_check s h :
      at_ (thr s i) = RelCheck h →
      step i s (goto s (lk s) i (tcpu (thr s i))
                  (if locked (lk s) =? 0 then Halted h "release" else RelCheck2 h))
  | step_rel_check2 s h :
      at_ (thr s i) = RelCheck2 h →
      step i s (goto s (lk s) i (tcpu (thr s i))
                  (if bool_decide (lk_cpu (lk s) = Some i) then RelClr else Halted h "release"))
  | step_rel_clr s :
      at_ (thr s i) = RelClr →
      step i s (goto s (mk_spinlock (locked (lk s)) (lk_name (lk s)) None) i
                  (tcpu (thr s i)) RelUnlock)
  | step_rel_unlock s :
      at_ (thr s i) = RelUnlock →
      step i s (goto s (mk_spinlock 0 (lk_name (lk s)) (lk_cpu (lk s))) i
                  (tcpu (thr s i)) RelPop)
  | step_rel_pop s :
      at_ (thr s i) = RelPop →
      step i s (match popcli (tcpu (thr s i)) with
                | Done c => goto s (lk s) i c Idle
                | Fail _ => goto s (lk s) i (tcpu (thr s i)) (Halted false "popcli")
                end)
  | step_outer_push s :
      at_ (thr s i) = Idle ∨ at_ (thr s i) = Crit →
      step i s (mk_state (lk s) (set_thr s i
                  (mk_thread (pushcli (tcpu (thr s i))) (at_ (thr s i)) (S (depth (thr s i))))))
  | step_outer_pop s d :
      at_ (thr s i) = Idle ∨ at_ (thr s i) = Crit →
      depth (thr s i) = S d →
      step i s (match popcli (tcpu (thr s i)) with
                | Done c => mk_state (lk s) (set_thr s i (mk_thread c (at_ (thr s i)) d))
                | Fail _ => goto s (lk s) i (tcpu (thr s i)) (Halted (holds (thr s i)) "popcli")
                end).

Definition init (name : string) (c0 : nat → Z) : state :=
  mk_state (initlock name) (λ i, mk_thread (mk_cpu (c0 i) 0 0) Idle 0).

Inductive reachable (name : string) (c0 : nat → Z) : state → Prop :=
  | reach_init : reachable name c0 (init name c0)
  | reach_step s i s' : reachable name c0 s → step i s s' → reachable name c0 s'.

(** The holder is recorded in [lk->cpu] except right after the xchg and
    right before the unlocking store. *)
Definition recorded (p : pc) : bool :=
  holds_pc p && match p with AcqCpu | RelUnlock => false | _ => true end.

(** Outstanding pushcli calls made by [acquire] itself. *)
Definition own_pushes (p : pc) : Z :=
  match p with
  | Idle => 0
  | AcqCheck h | AcqCheck2 h => 1 + (if h then 1 else 0)
  | RelCheck h | RelCheck2 h => if h then 1 else 0
  | _ => 1
  end.

Definition cpu_ok (t : thread) : Prop :=
  match at_ t with
  | Halted _ _ => True
  | p => ncli (tcpu t) = own_pushes p + Z.of_nat (depth t) ∧
         (0 < ncli (tcpu t) → if_set (tcpu t) = false)
  end.

Definition halt_ok (t : thread) : Prop :=
  match at_ t with
  | Halted h msg => (msg = "acquire" ∧ h = true) ∨ (msg = "release" ∧ h = false)
  | _ => True
  end.

Record inv (s : state) : Prop := {
  inv_locked : locked (lk s) = 0 ∨ locked (lk s) = 1;
  inv_owner : ∀ i, lk_cpu (lk s) = Some i ↔ recorded (at_ (thr s i)) = true;
  inv_holder : ∀ i, holds (thr s i) = true → locked (lk s) = 1;
  inv_excl : ∀ i j, holds (thr s i) = true → holds (thr s j) = true → i = j;
  inv_some : locked (lk s) = 1 → ∃ i, holds (thr s i) = true;
  inv_cpu : ∀ i, cpu_ok (thr s i);
  inv_halt : ∀ i, halt_ok (thr s i);
}.

Lemma inv_init name c0 : inv (init name c0).
Proof.
  split; simpl; try done; try naive_solver lia.
Qed.

(** Steps that leave the lock alone and keep the CPU's claim on it. *)
Lemma inv_local s i t :
  inv s → holds t = holds (thr s i) →
  recorded (at_ t) = recorded (at_ (thr s i)) →
  cpu_ok t → halt_ok t → inv (mk_state (lk s) (set_thr s i t)).
Proof.
  intros [Hl Ho Hh He Hs Hc Hm] Eh Er Kc Kh.
  assert (∀ j, holds (set_thr s i t j) = holds (thr s j)) as Eh'.
  { intros j. unfold set_thr. case_decide; by subst. }
  split; simpl; try done.
  - intros j. unfold set_thr. case_decide; [subst; by rewrite Er|done].
  - intros j. rewrite Eh'. apply Hh.
  - intros j k. rewrite !Eh'. apply He.
  - intros H1. destruct (Hs H1) as [j Hj]. exists j. by rewrite Eh'.
  - intros j. unfold set_thr. by case_decide.
  - intros j. unfold set_thr. by case_decide.
Qed.

Lemma cpu_ok_push t p :
  cpu_ok t → at_ t = Idle ∨ at_ t = Crit → own_pushes p = own_pushes (at_ t) + 1 →
  (∀ h m, p ≠ Halted h m) → cpu_ok (mk_thread (pushcli (tcpu t)) p (depth t)).
Proof.
  intros Hc Hat Hp Hh. unfold cpu_ok in *. simpl.
  assert (ncli (tcpu t) = own_pushes (at_ t) + Z.of_nat (depth t)) as Hn.
  { destruct Hat as [E|E]; rewrite E in Hc |- *; tauto. }
  destruct p; simpl in *; try done; rewrite pushcli_ncli, pushcli_if, Hn;
    (split; [lia|done]).
Qed.

Lemma cpu_ok_move t p :
  cpu_ok t → (∀ h m, at_ t ≠ Halted h m) → own_pushes p = own_pushes (at_ t) →
  cpu_ok (mk_thread (tcpu t) p (depth t)).
Proof.
  intros Hc Hh Hp. unfold cpu_ok in *. simpl.
  assert (ncli (tcpu t) = own_pushes (at_ t) + Z.of_nat (depth t) ∧
          (0 < ncli (tcpu t) → if_set (tcpu t) = false)) as [Hn Hi].
  { destruct (at_ t) as [| | | | | | | | | | |h m]; try done. by destruct (Hh h m). }
  destruct p; rewrite ?Hp in *; try done; simpl in *; split; (lia || done).
Qed.

Lemma popcli_own t :
  cpu_ok t → (∀ h m, at_ t ≠ Halted h m) → 0 < own_pushes (at_ t) + Z.of_nat (depth t) →
  0 ≤ own_pushes (at_ t) →
  ∃ c, popcli (tcpu t) = Done c ∧
    ncli c = own_pushes (at_ t) + Z.of_nat (depth t) - 1 ∧ (0 < ncli c → if_set c = false).
Proof.
  intros Hc Hh Hp H0. unfold cpu_ok in Hc.
  assert (ncli (tcpu t) = own_pushes (at_ t) + Z.of_nat (depth t) ∧
          (0 < ncli (tcpu t) → if_set (tcpu t) = false)) as [Hn Hi].
  { destruct (at_ t) as [| | | | | | | | | | |h m]; try done. by destruct (Hh h m). }
  destruct (popcli_ok (tcpu t)) as (c & -> & E & K); [lia|apply Hi; lia|].
  exists c. split; [done|]. split; [lia|done].
Qed.

Lemma goto_thr s l i c p j :
  thr (goto s l i c p) j = if decide (j = i) then mk_thread c p (depth (thr s i)) else thr s j.
Proof. done. Qed.

(** The three steps that change who has the lock. *)
Lemma inv_take s i :
  inv s → at_ (thr s i) = Spin → locked (lk s) = 0 →
  inv (goto s (mk_spinlock 1 (lk_name (lk s)) (lk_cpu (lk s))) i (tcpu (thr s i)) AcqCpu).
Proof.
  intros [Hl Ho Hh He Hs Hc Hm] Ha H0.
  assert (∀ j, holds (thr s j) = false) as Hno.
  { intros j. destruct (holds (thr s j)) eqn:E; [|done]. apply Hh in E. lia. }
  split; simpl; try (by right).
  - intros j. unfold set_thr. case_decide; [subst|done]. simpl. rewrite Ho, Ha. done.
  - done.
  - intros j k. unfold set_thr. repeat case_decide; subst; rewrite ?Hno; done.
  - intros _. exists i. unfold set_thr. by case_decide.
  - intros j. unfold set_thr. case_decide; [|done]. subst.
    apply (cpu_ok_move (thr s i)); [apply Hc|by rewrite Ha|by rewrite Ha].
  - intros j. unfold set_thr. case_decide; [done|]. apply Hm.
Qed.

Lemma inv_record s i :
  inv s → at_ (thr s i) = AcqCpu →
  inv (goto s (mk_spinlock (locked (lk s)) (lk_name (lk s)) (Some i)) i (tcpu (thr s i)) Crit).
Proof.
  intros [Hl Ho Hh He Hs Hc Hm] Ha.
  assert (holds (thr s i) = true) as Hi by (unfold holds; by rewrite Ha).
  assert (∀ j, j ≠ i → holds (thr s j) = false) as Hno.
  { intros j Hj. destruct (holds (thr s j)) eqn:E; [|done]. destruct Hj. by apply He. }
  split; simpl; try done.
  - intros j. unfold set_thr. case_decide; [by subst|].
    split; [intros; simplify_eq|]. unfold recorded. specialize (Hno j). unfold holds in Hno.
    by rewrite Hno.
  - intros j _. by eapply Hh.
  - intros j k. unfold set_thr. repeat case_decide; subst; rewrite ?Hno by done; done.
  - intros _. exists i. unfold set_thr. by case_decide.
  - intros j. unfold set_thr. case_decide; [|done]. subst.
    apply (cpu_ok_move (thr s i)); [apply Hc|by rewrite Ha|by rewrite Ha].
  - intros j. unfold set_thr. case_decide; [done|]. apply Hm.
Qed.

Lemma inv_unrecord s i :
  inv s → at_ (thr s i) = RelClr →
  inv (goto s (mk_spinlock (locked (lk s)) (lk_name (lk s)) None) i (tcpu (thr s i)) RelUnlock).
Proof.
  intros [Hl Ho Hh He Hs Hc Hm] Ha.
  assert (holds (thr s i) = true) as Hi by (unfold holds; by rewrite Ha).
  assert (∀ j, j ≠ i → holds (thr s j) = false) as Hno.
  { intros j Hj. destruct (holds (thr s j)) eqn:E; [|done]. destruct Hj. by apply He. }
  split; simpl; try done.
  - intros j. unfold set_thr. case_decide; [by subst|].
    split; [done|]. unfold recorded. specialize (Hno j). unfold holds in Hno. by rewrite Hno.
  - intros j _. by eapply Hh.
  - intros j k. unfold set_thr. repeat case_decide; subst; rewrite ?Hno by done; done.
  - intros _. exists i. unfold set_thr. by case_decide.
  - intros j. unfold set_thr. case_decide; [|done]. subst.
    apply (cpu_ok_move (thr s i)); [apply Hc|by rewrite Ha|by rewrite Ha].
  - intros j. unfold set_thr. case_decide; [done|]. apply Hm.
Qed.

Lemma inv_unlock s i :
  inv s → at_ (thr s i) = RelUnlock →
  inv (goto s (mk_spinlock 0 (lk_name (lk s)) (lk_cpu (lk s))) i (tcpu (thr s i)) RelPop).
Proof.
  intros [Hl Ho Hh He Hs Hc Hm] Ha.
  assert (holds (thr s i) = true) as Hi by (unfold holds; by rewrite Ha).
  assert (∀ j, j ≠ i → holds (thr s j) = false) as Hno.
  { intros j Hj. destruct (holds (thr s j)) eqn:E; [|done]. destruct Hj. by apply He. }
  split; simpl; try done; try (by left).
  - intros j. unfold set_thr. case_decide; [subst|done]. rewrite Ho, Ha. done.
  - intros j. unfold set_thr. case_decide; [done|]. by rewrite Hno.
  - intros j k. unfold set_thr. repeat case_decide; subst; rewrite ?Hno by done; done.
  - intros j. unfold set_thr. case_decide; [|done]. subst.
    apply (cpu_ok_move (thr s i)); [apply Hc|by rewrite Ha|by rewrite Ha].
  - intros j. unfold set_thr. case_decide; [done|]. apply Hm.
Qed.

(** A step that only moves CPU [i] to another place. *)
Lemma inv_move s i p :
  inv s → (∀ h m, at_ (thr s i) ≠ Halted h m) →
  holds_pc p = holds_pc (at_ (thr s i)) → recorded p = recorded (at_ (thr s i)) →
  (own_pushes p = own_pushes (at_ (thr s i)) ∨ ∃ h m, p = Halted h m) →
  halt_ok (mk_thread (tcpu (thr s i)) p 0) →
  inv (goto s (lk s) i (tcpu (thr s i)) p).
Proof.
  intros Hi Hn Eh Er Ep Hk. apply inv_local; try done.
  destruct Ep as [Ep|(h & m & ->)]; [|done].
  apply (cpu_ok_move (thr s i)); [apply Hi|done..].
Qed.

Lemma inv_step s i s' : inv s → step i s s' → inv s'.
Proof.
  intros Hi Hst. pose proof Hi as [Hl Ho Hh He Hs Hc Hm]. destruct Hst as
    [s h Ha|s h Ha|s h Ha|s Ha|s Ha|s h Ha|s h Ha|s h Ha|s Ha|s Ha|s Ha|s Ha|s d Ha Hd].
  - (* call acquire *)
    apply inv_local; try done; try (by destruct h; unfold holds; rewrite Ha).
    apply cpu_ok_push; [apply Hc|by destruct h; auto| |done]. by destruct h; rewrite Ha.
  - (* acquire: read lk->locked *)
    specialize (Hh i). unfold holds in Hh. rewrite Ha in Hh. simpl in Hh.
    destruct (Z.eqb_spec (locked (lk s)) 0), h; try (exfalso; specialize (Hh eq_refl); lia).
    all: apply inv_move; rewrite ?Ha; simpl; auto; done.
  - (* acquire: read lk->cpu *)
    specialize (Ho i). unfold recorded in Ho. rewrite Ha in Ho. simpl in Ho.
    rewrite andb_true_r in Ho.
    case_bool_decide as E; destruct h;
      try (discriminate (proj1 Ho E)); try (by destruct (E (proj2 Ho eq_refl))).
    all: apply inv_move; rewrite ?Ha; unfold halt_ok; simpl; eauto; done.
  - (* xchg *)
    destruct (Z.eqb_spec (locked (lk s)) 0) as [E|E]; [by apply inv_take|].
    destruct Hl as [?|E1]; [done|].
    replace (mk_spinlock 1 (lk_name (lk s)) (lk_cpu (lk s))) with (lk s)
      by (destruct (lk s); simpl in *; by subst).
    apply inv_move; rewrite ?Ha; simpl; auto; done.
  - by apply inv_record.
  - (* call release *)
    apply inv_move; rewrite ?Ha; destruct h; simpl; auto; done.
  - (* release: read lk->locked *)
    specialize (Hh i). unfold holds in Hh. rewrite Ha in Hh. simpl in Hh.
    destruct (Z.eqb_spec (locked (lk s)) 0), h; try (exfalso; specialize (Hh eq_refl); lia).
    all: apply inv_move; rewrite ?Ha; unfold halt_ok; simpl; eauto; done.
  - (* release: read lk->cpu *)
    specialize (Ho i). unfold recorded in Ho. rewrite Ha in Ho. simpl in Ho.
    rewrite andb_true_r in Ho.
    case_bool_decide as E; destruct h;
      try (discriminate (proj1 Ho E)); try (by destruct (E (proj2 Ho eq_refl))).
    all: apply inv_move; rewrite ?Ha; unfold halt_ok; simpl; eauto; done.
  - by apply inv_unrecord.
  - by apply inv_unlock.
  - (* popcli at the end of release *)
    destruct (popcli_own (thr s i)) as (c & Ep & En & Ei);
      [apply Hc|by rewrite Ha|rewrite Ha; simpl; lia|by rewrite Ha|]. rewrite Ep.
    apply inv_local; try done; try (by unfold holds; rewrite Ha).
    unfold cpu_ok. simpl. rewrite Ha in En. simpl in En. split; [lia|done].
  - (* pushcli by other code *)
    apply inv_local; try done.
    + unfold cpu_ok. simpl. pose proof (Hc i) as K. unfold cpu_ok in K.
      rewrite pushcli_ncli, pushcli_if.
      destruct Ha as [Ha|Ha]; rewrite Ha in *; destruct K as [K _]; (split; [simpl in *; lia|done]).
    + apply (Hm i).
  - (* popcli by other code *)
    destruct (popcli_own (thr s i)) as (c & Ep & En & Ei).
    + apply Hc.
    + by destruct Ha as [-> | ->].
    + rewrite Hd. destruct Ha as [-> | ->]; simpl; lia.
    + by destruct Ha as [-> | ->].
    + rewrite Ep. apply inv_local; [done..| |apply (Hm i)]. unfold cpu_ok. simpl. rewrite Hd in En.
      destruct Ha as [Ha|Ha]; rewrite Ha in En |- *; simpl in En; (split; [simpl; lia|done]).
Qed.

Lemma inv_reachable name c0 s : reachable name c0 s → inv s.
Proof. induction 1; eauto using inv_init, inv_step. Qed.

(** ** Properties of the lock under interleaving *)

(** C20: mutual exclusion.  In every interleaving of any number of CPUs that
    call [acquire] and [release] in any order, at most one CPU is between
    the successful xchg of [acquire] and the unlocking store of [release],
    [lk->locked] is 1 while there is one, and that CPU runs with interrupts
    disabled while it is in the critical section. *)
Theorem spinlock_mutual_exclusion name c0 s i :
  reachable name c0 s → holds (thr s i) = true →
  locked (lk s) = 1 ∧ (∀ j, holds (thr s j) = true → j = i) ∧
  (at_ (thr s i) = Crit → lk_cpu (lk s) = Some i ∧ if_set (tcpu (thr s i)) = false).
Proof.
  intros Hr Hi. apply inv_reachable in Hr as [Hl Ho Hh He Hs Hc Hm].
  split; [by eapply Hh|]. split; [intros j Hj; by apply He|].
  intros Ha. split; [apply Ho; by rewrite Ha|].
  specialize (Hc i). unfold cpu_ok in Hc. rewrite Ha in Hc. destruct Hc as [Hn Hif].
  apply Hif. rewrite Hn. simpl. lia.
Qed.

(** The panics of spinlock.c are exact.  A CPU stops in [acquire] only
    if it already has the lock, and in [release] only if it does not; the
    panics of [popcli] never happen; and a lock that is marked locked always
    has a holder. *)
Theorem spinlock_panics_exact name c0 s :
  reachable name c0 s →
  (∀ i h msg, at_ (thr s i) = Halted h msg →
     (msg = "acquire" ∧ h = true) ∨ (msg = "release" ∧ h = false)) ∧
  (locked (lk s) = 1 → ∃ i, holds (thr s i) = true).
Proof.
  intros Hr. apply inv_reachable in Hr as [Hl Ho Hh He Hs Hc Hm]. split; [|done].
  intros i h msg Ha. specialize (Hm i). unfold halt_ok in Hm. by rewrite Ha in Hm.
Qed.

(** A run in which CPU 0 gets the lock. *)
Definition run_s1 := goto (init "l" (λ _, FL_IF)) (initlock "l") 0 (pushcli (mk_cpu FL_IF 0 0)) (AcqCheck false).
Definition run_s2 := goto run_s1 (initlock "l") 0 (pushcli (mk_cpu FL_IF 0 0)) Spin.
Definition run_s3 := goto run_s2 (mk_spinlock 1 "l" None) 0 (pushcli (mk_cpu FL_IF 0 0)) AcqCpu.
Definition run_s4 := goto run_s3 (mk_spinlock 1 "l" (Some 0%nat)) 0 (pushcli (mk_cpu FL_IF 0 0)) Crit.

Lemma run_s4_reachable : reachable "l" (λ _, FL_IF) run_s4.
Proof.
  eapply reach_step; [|exact (step_acq_cpu 0 run_s3 eq_refl)].
  eapply reach_step; [|exact (step_xchg 0 run_s2 eq_refl)].
  eapply reach_step; [|exact (step_acq_check 0 run_s1 false eq_refl)].
  eapply reach_step; [|exact (step_call_acquire 0 (init "l" (λ _, FL_IF)) false eq_refl)].
  apply reach_init.
Qed.

Lemma spinlock_mutual_exclusion_witness :
  holds (thr run_s4 0) = true ∧ ∀ j, holds (thr run_s4 j) = true → j = 0%nat.
Proof.
  split; [reflexivity|].
  exact (proj1 (proj2 (spinlock_mutual_exclusion _ _ _ 0 run_s4_reachable eq_refl))).
Defined.

Lemma spinlock_panics_exact_witness :
  locked (lk run_s4) = 1 ∧ ∃ i, holds (thr run_s4 i) = true.
Proof. split; [reflexivity|]. exact (proj2 (spinlock_panics_exact _ _ _ run_s4_reachable) eq_refl). Defined.

End Smp.

(** [pushcli] and [popcli] are matched: [n] calls of [popcli] undo [n]
    calls of [pushcli], whatever the nesting depth they start from, and
    restore the interrupt flag (interrupts that were off stay off). *)
Theorem pushcli_popcli_matched n c :
  (0 < n)%nat → 0 ≤ ncli c → (0 < ncli c → if_set c = false) →
  ∃ c', pops n (pushes n c) = Done c' ∧ eflags c' = eflags c ∧ ncli c' = ncli c.
Proof.
  intros Hn Hc Hi. destruct (decide (0 < ncli c)) as [Hpos|Hzero].
  { exists c. rewrite pops_pushes_inner; auto. }
  assert (ncli c = 0) as H0 by lia. destruct n as [|n]; [lia|].
  unfold pushes. rewrite Nat.iter_succ_r. fold (pushes n (pushcli c)).
  rewrite pops_snoc, pops_pushes_inner; [|rewrite pushcli_ncli; lia|apply pushcli_if].
  cbn [rbind].
  assert (pushcli c = mk_cpu (Z.ldiff (eflags c) FL_IF) 1 (Z.land (eflags c) FL_IF)) as ->.
  { with_strategy transparent [pushcli] unfold pushcli. unfold cli, readeflags. simpl.
    by rewrite H0. }
  with_strategy transparent [popcli] unfold popcli. rewrite if_set_cli. simpl.
  destruct (Z.eqb_spec (Z.land (eflags c) FL_IF) 0) as [E|E]; simpl.
  - eexists. split; [done|]. simpl. rewrite ldiff_noif by done. lia.
  - eexists. split; [done|]. simpl. rewrite ldiff_lor_if by done. lia.
Qed.

Lemma pushcli_popcli_matched_witness :
  ∃ c', pops 3 (pushes 3 (mk_cpu 0x202 0 0)) = Done c' ∧ eflags c' = 0x202 ∧ ncli c' = 0.
Proof. apply (pushcli_popcli_matched 3 (mk_cpu 0x202 0 0)); simpl; lia. Defined.
