(* ===== verification/Mmu.v ===== *)
(** * mmu.h and memlayout.h: page arithmetic on 32-bit addresses *)

From S2P Require Import Prelude CString.

(** ** Constants *)

Definition PGSIZE : Z := 4096.
Definition NPDENTRIES : Z := 1024.
Definition NPTENTRIES : Z := 1024.
Definition PTXSHIFT : Z := 12.
Definition PDXSHIFT : Z := 22.

Definition EXTMEM : Z := 0x100000.
Definition PHYSTOP : Z := 0xE000000.
Definition DEVSPACE : Z := 0xFE000000.
Definition KERNBASE : Z := 0x80000000.
Definition KERNLINK : Z := KERNBASE + EXTMEM.

Definition PTE_P : Z := 0x001.
Definition PTE_W : Z := 0x002.
Definition PTE_U : Z := 0x004.

(** ** Macros *)

Definition V2P (a : Z) : Z := u32 (u32 a - KERNBASE).
Definition P2V (a : Z) : Z := u32 (a + KERNBASE).

Definition PDX (va : Z) : Z := Z.land (Z.shiftr (u32 va) PDXSHIFT) 0x3FF.
Definition PTX (va : Z) : Z := Z.land (Z.shiftr (u32 va) PTXSHIFT) 0x3FF.
Definition PGADDR (d t o : Z) : Z :=
  u32 (Z.lor (Z.lor (Z.shiftl d PDXSHIFT) (Z.shiftl t PTXSHIFT)) o).

Definition PGROUNDUP (sz : Z) : Z := Z.land (u32 (sz + PGSIZE - 1)) (Z.lnot (PGSIZE - 1)).
Definition PGROUNDDOWN (a : Z) : Z := Z.land a (Z.lnot (PGSIZE - 1)).

Definition PTE_ADDR (pte : Z) : Z := Z.land (u32 pte) (Z.lnot 0xFFF).
Definition PTE_FLAGS (pte : Z) : Z := Z.land (u32 pte) 0xFFF.

(** ** Arithmetic meaning *)

Lemma PGROUNDDOWN_eq a : PGROUNDDOWN a = a - a mod PGSIZE.
Proof. apply (land_lnot_ones a 12). lia. Qed.

Lemma PGROUNDUP_eq a :
  0 ≤ a ≤ 2 ^ 32 - PGSIZE → PGROUNDUP a = (a + PGSIZE - 1) / PGSIZE * PGSIZE.
Proof.
  intros Ha. unfold PGROUNDUP. unfold PGSIZE in Ha. rewrite u32_small by (unfold PGSIZE; lia).
  change (PGSIZE - 1) with (Z.ones 12). rewrite land_lnot_ones by lia.
  change (2 ^ 12) with PGSIZE. unfold PGSIZE.
  pose proof (Z.div_mod (a + 4096 - 1) 4096). lia.
Qed.

Lemma PGROUNDUP_bounds a :
  0 ≤ a ≤ 2 ^ 32 - PGSIZE →
  a ≤ PGROUNDUP a < a + PGSIZE ∧ PGROUNDUP a mod PGSIZE = 0.
Proof.
  intros Ha. rewrite PGROUNDUP_eq by done. unfold PGSIZE in *.
  rewrite Z.mod_mul by lia.
  pose proof (Z.div_mod (a + 4096 - 1) 4096 ltac:(lia)).
  pose proof (Z.mod_pos_bound (a + 4096 - 1) 4096 ltac:(lia)). lia.
Qed.

Lemma PGROUNDUP_aligned a : 0 ≤ a ≤ 2 ^ 32 - PGSIZE → a mod PGSIZE = 0 → PGROUNDUP a = a.
Proof.
  intros Ha Hm. pose proof (PGROUNDUP_bounds a Ha) as [Hb Hb'].
  unfold PGSIZE in *. pose proof (Z.div_mod a 4096). pose proof (Z.div_mod (PGROUNDUP a) 4096). lia.
Qed.

Lemma P2V_V2P a : KERNBASE ≤ a < 2 ^ 32 → P2V (V2P a) = a.
Proof.
  intros. unfold P2V, V2P, KERNBASE in *.
  rewrite (u32_small a) by lia. rewrite (u32_small (a - _)) by lia. rewrite u32_small by lia. lia.
Qed.

Lemma V2P_P2V a : 0 ≤ a < 2 ^ 32 - KERNBASE → V2P (P2V a) = a.
Proof.
  intros. unfold P2V, V2P, KERNBASE in *.
  rewrite (u32_small (a + _)) by lia. rewrite (u32_small (a + _)) by lia. rewrite u32_small; lia.
Qed.

(** ** 32-bit words in memory *)

Definition load32 (m : mem) (a : Z) : Z := le_val [m a; m (a + 1); m (a + 2); m (a + 3)].

Lemma u8_shiftr v k : 0 ≤ k → u8 (Z.shiftr v k) = (v / 2 ^ k) mod 256.
Proof. intros. unfold u8. by rewrite Z.shiftr_div_pow2. Qed.

Lemma load32_store32 m a v : 0 ≤ v < 2 ^ 32 → load32 (store32 m a v) a = v.
Proof.
  intros Hv. unfold load32, store32.
  repeat (rewrite upd_same || rewrite upd_other by lia).
  rewrite !u8_shiftr by lia. unfold u8.
  transitivity (le_val (le_bytes 4 v)); [|by apply le_val_bytes].
  cbn [le_bytes le_val]. rewrite !Z.div_div by lia. reflexivity.
Qed.

Lemma store32_other m a v a' : a' < a ∨ a + 4 ≤ a' → store32 m a v a' = m a'.
Proof. intros. unfold store32. by rewrite !upd_other by lia. Qed.

Lemma load32_ext m m' a : (∀ k, a ≤ k < a + 4 → m k = m' k) → load32 m a = load32 m' a.
Proof. intros H. unfold load32. by rewrite !H by lia. Qed.
