(* ===== verification/Kalloc.v ===== *)
(** * kalloc.c: the physical page allocator

    The free list is threaded through the free pages themselves: the first
    word of a free page is the address of the next one.  The state is the
    [kmem] struct and the byte memory it lives in.  [kend] is the linker
    symbol [end]; [me] is the CPU running the code. *)

From S2P Require Import Prelude CString Spinlock Mmu.

Record kmem := mk_kmem {
  kmem_lock : spinlock;
  use_lock : Z;
  freelist : Z;
  kmem_mem : mem;
}.

Definition set_kmem_lock (l : spinlock) (k : kmem) : kmem :=
  mk_kmem l (use_lock k) (freelist k) (kmem_mem k).
Definition set_use_lock (v : Z) (k : kmem) : kmem :=
  mk_kmem (kmem_lock k) v (freelist k) (kmem_mem k).
Definition set_freelist (v : Z) (k : kmem) : kmem :=
  mk_kmem (kmem_lock k) (use_lock k) v (kmem_mem k).
Definition set_kmem_mem (m : mem) (k : kmem) : kmem :=
  mk_kmem (kmem_lock k) (use_lock k) (freelist k) m.

Section kalloc.
Context (me : nat) (kend : Z).

Definition lock_if_used : M kmem unit :=
  u <- gets use_lock;; when (negb (u =? 0)) (zoom kmem_lock set_kmem_lock (acquire me)).
Definition unlock_if_used : M kmem unit :=
  u <- gets use_lock;; when (negb (u =? 0)) (zoom kmem_lock set_kmem_lock (release me)).

Definition kfree (v : Z) : M kmem unit :=
  if negb (u32 v mod PGSIZE =? 0) || (v <? kend) || (PHYSTOP <=? V2P v) then panic "kfree"
  else
    modify (λ k, set_kmem_mem (memset v 1 PGSIZE (kmem_mem k)) k);;
    lock_if_used;;
    modify (λ k, set_kmem_mem (store32 (kmem_mem k) v (freelist k)) k);;
    modify (set_freelist v);;
    unlock_if_used.

Definition kalloc : M kmem Z :=
  lock_if_used;;
  r <- gets freelist;;
  (if negb (r =? 0) then modify (λ k, set_freelist (load32 (kmem_mem k) r) k) else ret tt);;
  unlock_if_used;;
  ret r.

(** [for(; p + PGSIZE <= vend; p += PGSIZE) kfree(p)]: at most one round per
    page between [p] and [vend]. *)
Fixpoint freerange_loop (fuel : nat) (p vend : Z) : M kmem unit :=
  match fuel with
  | O => fail EFuel
  | S f =>
      if p + PGSIZE <=? vend then kfree p;; freerange_loop f (p + PGSIZE) vend
      else ret tt
  end.

Definition freerange (vstart vend : Z) : M kmem unit :=
  let p := PGROUNDUP (u32 vstart) in
  freerange_loop (S (Z.to_nat ((vend - p) / PGSIZE))) p vend.

Definition kinit1 (vstart vend : Z) : M kmem unit :=
  modify (set_kmem_lock (initlock "kmem"));;
  modify (set_use_lock 0);;
  freerange vstart vend.

Definition kinit2 (vstart vend : Z) : M kmem unit :=
  freerange vstart vend;;
  modify (set_use_lock 1).

(** ** The free list as a list of pages *)

(** A page [kfree] accepts. *)
Definition page_ok (v : Z) : Prop :=
  0 < v < 2 ^ 32 ∧ v mod PGSIZE = 0 ∧ kend ≤ v ∧ V2P v < PHYSTOP.

Fixpoint chain (m : mem) (hd : Z) (l : list Z) : Prop :=
  match l with
  | [] => hd = 0
  | p :: l' => hd = p ∧ chain m (load32 m p) l'
  end.

Record kmem_inv (k : kmem) (l : list Z) : Prop := {
  ki_chain : chain (kmem_mem k) (freelist k) l;
  ki_pages : Forall page_ok l;
  ki_nodup : NoDup l;
  ki_lock : lock_free (kmem_lock k);
}.

Lemma page_ok_disjoint p q : page_ok p → page_ok q → p ≠ q → p + PGSIZE ≤ q ∨ q + PGSIZE ≤ p.
Proof.
  intros (? & Hp & _) (? & Hq & _) Hne. unfold PGSIZE in *.
  pose proof (Z.div_mod p 4096). pose proof (Z.div_mod q 4096). lia.
Qed.

(** Memory inside one page does not matter to a chain that avoids it. *)
Lemma chain_frame m m' v hd l :
  page_ok v → Forall page_ok l → v ∉ l →
  (∀ a, a < v ∨ v + PGSIZE ≤ a → m' a = m a) → chain m hd l → chain m' hd l.
Proof.
  intros Hv. revert hd. induction l as [|p l IH]; intros hd Hl Hn Hm; [done|].
  apply Forall_cons in Hl as [Hp Hl]. apply not_elem_of_cons in Hn as [Hne Hn].
  intros [-> Hc]. split; [done|].
  rewrite (load32_ext m' m); [by apply IH|].
  intros k Hk. apply Hm. destruct (page_ok_disjoint v p Hv Hp Hne); unfold PGSIZE in *; lia.
Qed.

Lemma kfree_writes_page m v f a :
  a < v ∨ v + PGSIZE ≤ a → store32 (memset v 1 PGSIZE m) v f a = m a.
Proof.
  intros Ha. rewrite store32_other by (unfold PGSIZE in *; lia).
  rewrite memset_spec by (unfold PGSIZE; lia). case_decide; [unfold PGSIZE in *; lia|done].
Qed.

(** Whoever owns a page may write to it. *)
Lemma kmem_inv_frame k l v m' :
  kmem_inv k l → page_ok v → v ∉ l →
  (∀ a, a < v ∨ v + PGSIZE ≤ a → m' a = kmem_mem k a) → kmem_inv (set_kmem_mem m' k) l.
Proof.
  intros [Hc Hp Hn Hf] Hv Hnot Hm. split; [|done..].
  eapply chain_frame; [exact Hv|done|done|exact Hm|done].
Qed.

(** The lock while the critical section runs. *)
Definition section_lock (k : kmem) : spinlock :=
  if use_lock k =? 0 then kmem_lock k else mk_spinlock 1 (lk_name (kmem_lock k)) (Some me).

Lemma lock_if_used_run k :
  lock_free (kmem_lock k) → lock_if_used k = Done (tt, set_kmem_lock (section_lock k) k).
Proof.
  intros Hf. unfold lock_if_used, section_lock, bind, gets, when, zoom.
  destruct (use_lock k =? 0); cbn [negb]; [by destruct k|]. by rewrite acquire_free.
Qed.

Lemma unlock_if_used_run k k0 :
  lock_free (kmem_lock k0) → use_lock k = use_lock k0 → kmem_lock k = section_lock k0 →
  unlock_if_used k = Done (tt, set_kmem_lock (kmem_lock k0) k).
Proof.
  intros Hf Hu Hl. unfold unlock_if_used, bind, gets, when, zoom. rewrite Hu.
  unfold section_lock in Hl. destruct (use_lock k0 =? 0); cbn [negb].
  - rewrite <-Hl. by destruct k.
  - rewrite Hl, release_held. by rewrite <-lock_free_eq.
Qed.

Lemma kfree_run v k :
  page_ok v → lock_free (kmem_lock k) →
  kfree v k = Done (tt, mk_kmem (kmem_lock k) (use_lock k) v
                          (store32 (memset v 1 PGSIZE (kmem_mem k)) v (freelist k))).
Proof.
  intros (Hr & Hal & He & Hp) Hf. unfold kfree.
  rewrite (u32_small v) by lia. rewrite Hal.
  destruct (Z.ltb_spec v kend); [lia|]. destruct (Z.leb_spec PHYSTOP (V2P v)); [lia|].
  cbn [Z.eqb negb orb]. unfold bind at 1, modify. unfold bind at 1.
  rewrite lock_if_used_run by done. unfold bind. erewrite unlock_if_used_run; done.
Qed.

Lemma kalloc_run k :
  lock_free (kmem_lock k) →
  kalloc k = Done (freelist k,
    if freelist k =? 0 then k else set_freelist (load32 (kmem_mem k) (freelist k)) k).
Proof.
  intros Hf. unfold kalloc. unfold bind at 1. rewrite lock_if_used_run by done.
  unfold bind, gets. cbn [freelist set_kmem_lock].
  destruct (freelist k =? 0); cbn [negb]; unfold ret, modify;
    (erewrite unlock_if_used_run; [|done..]); by destruct k.
Qed.

Lemma kfree_panics v k :
  0 ≤ v < 2 ^ 32 → v ≠ 0 → ¬ page_ok v → kfree v k = Fail (EPanic "kfree").
Proof.
  intros Hr H0 Hn. unfold kfree. rewrite (u32_small v) by done.
  destruct (Z.eqb_spec (v mod PGSIZE) 0) as [E1|]; [|done].
  destruct (Z.ltb_spec v kend); [done|].
  destruct (Z.leb_spec PHYSTOP (V2P v)); [done|].
  destruct Hn. unfold page_ok. lia.
Qed.

Lemma kfree_inv v k l :
  kmem_inv k l → page_ok v → v ∉ l →
  ∃ k', kfree v k = Done (tt, k') ∧ kmem_inv k' (v :: l) ∧ use_lock k' = use_lock k ∧
    ∀ a, a < v ∨ v + PGSIZE ≤ a → kmem_mem k' a = kmem_mem k a.
Proof.
  intros [Hc Hp Hn Hf] Hv Hnot. eexists. split; [by apply kfree_run|].
  split; [|split; [done|by intros a Ha; apply kfree_writes_page]].
  assert (0 ≤ freelist k < 2 ^ 32) as Hr.
  { destruct l as [|p l]; simpl in Hc; [lia|]. destruct Hc as [-> _].
    apply Forall_cons in Hp as [(? & _) _]. lia. }
  split; cbn [kmem_mem freelist kmem_lock]; [|by constructor|by constructor|done].
  split; [done|]. rewrite load32_store32 by done.
  eapply chain_frame; [done..| |done]. intros a. apply kfree_writes_page.
Qed.

Lemma kalloc_inv k l :
  kmem_inv k l →
  match l with
  | [] => kalloc k = Done (0, k)
  | p :: l' => ∃ k', kalloc k = Done (p, k') ∧ kmem_inv k' l' ∧ page_ok p ∧ p ∉ l' ∧
                kmem_mem k' = kmem_mem k ∧ use_lock k' = use_lock k
  end.
Proof.
  intros [Hc Hp Hn Hf]. rewrite kalloc_run by done. destruct l as [|p l]; simpl in Hc.
  - by rewrite Hc.
  - destruct Hc as [-> Hc]. apply Forall_cons in Hp as [Hp Hl].
    apply NoDup_cons in Hn as [Hn Hn'].
    rewrite (proj2 (Z.eqb_neq p 0)) by (destruct Hp; lia).
    eexists. split; [done|]. split_and!; try done.
Qed.

(** ** Specification: who owns which page *)

Inductive kop := KAlloc | KFree (v : Z).

(** Free pages (next to be handed out first) and pages in use. *)
Definition owners : Type := list Z * list Z.

Fixpoint remove_one (v : Z) (l : list Z) : option (list Z) :=
  match l with
  | [] => None
  | x :: l' => if x =? v then Some l' else cons x <$> remove_one v l'
  end.

Lemma remove_one_Some v l l' : remove_one v l = Some l' → l ≡ₚ v :: l'.
Proof.
  revert l'. induction l as [|x l IH]; intros l' H; simpl in H; [done|].
  destruct (Z.eqb_spec x v) as [->|]; [by simplify_eq|].
  destruct (remove_one v l) as [l1|]; simplify_eq/=. rewrite (IH l1 eq_refl). by constructor.
Qed.

Definition spec_step (op : kop) (o : owners) : option (Z * owners) :=
  match op, o with
  | KAlloc, ([], out) => Some (0, ([], out))
  | KAlloc, (p :: free, out) => Some (p, (free, p :: out))
  | KFree v, (free, out) =>
      match remove_one v out with
      | Some out' => Some (0, (v :: free, out'))
      | None => None
      end
  end.

Fixpoint spec_run (ops : list kop) (o : owners) : option (list Z * owners) :=
  match ops with
  | [] => Some ([], o)
  | op :: ops' =>
      match spec_step op o with
      | None => None
      | Some (r, o') =>
          match spec_run ops' o' with
          | Some (rs, o2) => Some (r :: rs, o2)
          | None => None
          end
      end
  end.

Definition exec_op (op : kop) : M kmem Z :=
  match op with KAlloc => kalloc | KFree v => kfree v;; ret 0 end.

Fixpoint exec_ops (ops : list kop) : M kmem (list Z) :=
  match ops with
  | [] => ret []
  | op :: ops' => r <- exec_op op;; rs <- exec_ops ops';; ret (r :: rs)
  end.

(** What ties the allocator to the specification. *)
Definition owned (k : kmem) (o : owners) : Prop :=
  kmem_inv k (fst o) ∧ Forall page_ok (snd o) ∧ NoDup (fst o ++ snd o).

Lemma exec_op_refines op k o r o' :
  owned k o → spec_step op o = Some (r, o') →
  ∃ k', exec_op op k = Done (r, k') ∧ owned k' o' ∧ fst o' ++ snd o' ≡ₚ fst o ++ snd o.
Proof.
  destruct o as [free out]. intros (Hi & Hp & Hn) Hs. destruct op as [|v]; simpl in *.
  - pose proof (kalloc_inv _ _ Hi) as Ha. destruct free as [|p free]; injection Hs as <- <-; simpl.
    { exists k. rewrite Ha. by split_and!. }
    destruct Ha as (k' & -> & Hi' & Hpok & Hnin & _). exists k'. split; [done|].
    assert (free ++ p :: out ≡ₚ p :: free ++ out) as Hperm by solve_Permutation.
    split; [|done]. split_and!; [done|by constructor|]. by rewrite Hperm.
  - destruct (remove_one v out) as [out'|] eqn:Hrem; [|done]. injection Hs as <- <-. simpl.
    apply remove_one_Some in Hrem. rewrite Hrem in Hn, Hp.
    apply Forall_cons in Hp as [Hv Hp].
    assert (free ++ v :: out' ≡ₚ v :: free ++ out') as Hperm by solve_Permutation.
    rewrite Hperm in Hn.
    assert (v ∉ free) as Hnf by (apply NoDup_cons in Hn as [Hn _]; set_solver).
    destruct (kfree_inv v k free Hi Hv Hnf) as (k' & Hk & Hi' & _).
    exists k'. unfold bind. rewrite Hk. split; [done|]. split; [by split_and!|].
    rewrite Hrem. by rewrite Hperm.
Qed.

(** ** [freerange] *)

Definition pages_from (p : Z) (n : nat) : list Z := (λ i, p + Z.of_nat i * PGSIZE) <$> seq 0 n.

Lemma pages_from_S p n : pages_from p (S n) = p :: pages_from (p + PGSIZE) n.
Proof.
  unfold pages_from. cbn [seq fmap list_fmap]. f_equal; [lia|].
  rewrite <-seq_shift, <-list_fmap_compose. apply list_fmap_ext. intros _ i _. simpl. lia.
Qed.

Lemma elem_of_pages_from x p n :
  x ∈ pages_from p n ↔ ∃ i, 0 ≤ i < Z.of_nat n ∧ x = p + i * PGSIZE.
Proof.
  unfold pages_from. rewrite list_elem_of_fmap. split.
  - intros (i & -> & Hi%elem_of_seq). exists (Z.of_nat i). lia.
  - intros (i & Hi & ->). exists (Z.to_nat i). rewrite elem_of_seq, Z2Nat.id by lia. lia.
Qed.

Lemma freerange_loop_run n fuel p vend k l :
  (n < fuel)%nat → p + Z.of_nat n * PGSIZE ≤ vend < p + (Z.of_nat n + 1) * PGSIZE →
  Forall page_ok (pages_from p n) → (∀ x, x ∈ pages_from p n → x ∉ l) → kmem_inv k l →
  ∃ k', freerange_loop fuel p vend k = Done (tt, k') ∧ use_lock k' = use_lock k ∧
    kmem_inv k' (rev (pages_from p n) ++ l).
Proof.
  revert fuel p k l. induction n as [|n IH]; intros fuel p k l Hfuel Hend Hok Hdis Hi;
    (destruct fuel as [|fuel]; [lia|]); cbn [freerange_loop].
  - destruct (Z.leb_spec (p + PGSIZE) vend); [lia|]. exists k. by split_and!.
  - destruct (Z.leb_spec (p + PGSIZE) vend); [|unfold PGSIZE in *; lia].
    rewrite pages_from_S in *. apply Forall_cons in Hok as [Hp Hok].
    destruct (kfree_inv p k l Hi Hp) as (k1 & Hk1 & Hi1 & Hu1 & _); [apply Hdis; set_solver|].
    unfold bind. rewrite Hk1.
    destruct (IH fuel (p + PGSIZE) k1 (p :: l)) as (k2 & Hk2 & Hu2 & Hi2); try done; try lia.
    + intros x Hx. apply not_elem_of_cons. split; [|apply Hdis; set_solver].
      apply elem_of_pages_from in Hx as (i & Hi0 & ->). unfold PGSIZE. lia.
    + exists k2. split; [done|]. split; [congruence|].
      cbn [rev]. by rewrite <-app_assoc.
Qed.

Lemma page_ok_range v :
  v mod PGSIZE = 0 → kend ≤ v → KERNBASE ≤ v → v + PGSIZE ≤ KERNBASE + PHYSTOP → page_ok v.
Proof.
  intros Hal He Hk Hp. unfold KERNBASE, PHYSTOP, PGSIZE in *.
  split; [lia|]. split; [done|]. split; [done|].
  unfold V2P, KERNBASE. rewrite (u32_small v), u32_small by lia. unfold PHYSTOP. lia.
Qed.

(** ** Properties *)

(** C26: the allocator refines the ownership specification.  Run any sequence
    of [kalloc] and [kfree] calls in which only pages in use are freed: every
    call returns what the specification says, no page is ever free and in
    use, or in use twice, and no page is lost. *)
Theorem kalloc_refines_owners ops k o rs o' :
  owned k o → spec_run ops o = Some (rs, o') →
  ∃ k', exec_ops ops k = Done (rs, k') ∧ owned k' o' ∧ fst o' ++ snd o' ≡ₚ fst o ++ snd o.
Proof.
  revert k o rs. induction ops as [|op ops IH]; intros k o rs Ho Hs; simpl in Hs.
  { simplify_eq. by exists k. }
  destruct (spec_step op o) as [[r o1]|] eqn:Hst; [|done].
  destruct (spec_run ops o1) as [[rs1 o2]|] eqn:Hrun; simplify_eq/=.
  destruct (exec_op_refines _ _ _ _ _ Ho Hst) as (k1 & Hk1 & Ho1 & Hp1).
  destruct (IH _ _ _ Ho1 Hrun) as (k2 & Hk2 & Ho2 & Hp2).
  exists k2. unfold bind. rewrite Hk1, Hk2. split; [done|]. split; [done|]. by rewrite Hp2.
Qed.

(** [freerange] terminates and puts on the free list exactly the aligned
    pages that lie entirely between [vstart] and [vend], each once, in front
    of what was there. *)
Theorem freerange_frees_exactly vstart vend k l :
  kend ≤ vstart → KERNBASE ≤ vstart → vstart + PGSIZE ≤ vend → vend ≤ KERNBASE + PHYSTOP →
  kmem_inv k l → (∀ p, p ∈ l → p < vstart ∨ vend ≤ p) →
  ∃ k' new, freerange vstart vend k = Done (tt, k') ∧ kmem_inv k' (new ++ l) ∧
    ∀ p, p ∈ new ↔ p mod PGSIZE = 0 ∧ vstart ≤ p ∧ p + PGSIZE ≤ vend.
Proof.
  intros He Hk Hlt Hend Hi Hdis. unfold freerange.
  rewrite (u32_small vstart) by (unfold KERNBASE, PHYSTOP, PGSIZE in *; lia).
  destruct (PGROUNDUP_bounds vstart) as [Hb Hal]; [unfold KERNBASE, PHYSTOP, PGSIZE in *; lia|].
  set (p := PGROUNDUP vstart) in *. set (n := Z.to_nat ((vend - p) / PGSIZE)).
  assert (Z.of_nat n = (vend - p) / PGSIZE) as Hn.
  { unfold n. apply Z2Nat.id. apply Z.div_pos; unfold PGSIZE in *; lia. }
  assert (p + Z.of_nat n * PGSIZE ≤ vend < p + (Z.of_nat n + 1) * PGSIZE) as Hrange.
  { rewrite Hn. unfold PGSIZE in *. pose proof (Z.div_mod (vend - p) 4096).
    pose proof (Z.mod_pos_bound (vend - p) 4096). lia. }
  assert (∀ x, x ∈ pages_from p n ↔ x mod PGSIZE = 0 ∧ vstart ≤ x ∧ x + PGSIZE ≤ vend) as Hel.
  { intros x. rewrite elem_of_pages_from. unfold PGSIZE in *. split.
    - intros (i & Hi0 & ->). rewrite Z.mod_add by lia. lia.
    - intros (Hx & Hx1 & Hx2). exists ((x - p) / 4096).
      pose proof (Z.div_mod x 4096). pose proof (Z.div_mod p 4096).
      assert (x - p = (x / 4096 - p / 4096) * 4096) as -> by lia. rewrite Z.div_mul by lia. lia. }
  destruct (freerange_loop_run n (S n) p vend k l) as (k' & Hrun & _ & Hi'); try done; try lia.
  - apply Forall_forall. intros x (Hx1 & Hx2 & Hx3)%Hel. apply page_ok_range; lia.
  - intros x (Hx1 & Hx2 & Hx3)%Hel Hxl. apply Hdis in Hxl. unfold PGSIZE in *. lia.
  - exists k', (rev (pages_from p n)). split; [done|]. split; [done|].
    intros x. rewrite <-Hel, !list_elem_of_In, <-in_rev. done.
Qed.

End kalloc.

(** A machine whose kernel ends at 0x80108000, just after [kinit1]. *)
Definition kmem0 : kmem := mk_kmem (initlock "kmem") 0 0 (λ _, 0).

Lemma kmem0_inv : kmem_inv 0x80108000 kmem0 [].
Proof. split; [done|constructor|constructor|done]. Qed.

Lemma freerange_frees_exactly_witness :
  ∃ k' new, freerange 0 0x80108000 0x80108123 0x8010a123 kmem0 = Done (tt, k') ∧
    kmem_inv 0x80108000 k' (new ++ []) ∧
    ∀ p, p ∈ new ↔ p mod PGSIZE = 0 ∧ 0x80108123 ≤ p ∧ p + PGSIZE ≤ 0x8010a123.
Proof.
  apply (freerange_frees_exactly 0 0x80108000 0x80108123 0x8010a123 kmem0 []);
    [lia|unfold KERNBASE; lia|unfold PGSIZE; lia|unfold KERNBASE, PHYSTOP; lia|apply kmem0_inv|].
  intros p Hp. by apply not_elem_of_nil in Hp.
Defined.

Lemma kalloc_refines_owners_witness :
  ∃ k', exec_ops 0 0x80108000 [KFree 0x80109000; KAlloc; KAlloc] kmem0
        = Done ([0; 0x80109000; 0], k') ∧ owned 0x80108000 k' ([], [0x80109000]).
Proof.
  destruct (kalloc_refines_owners 0 0x80108000 [KFree 0x80109000; KAlloc; KAlloc] kmem0
    ([], [0x80109000]) [0; 0x80109000; 0] ([], [0x80109000])) as (k' & E & Ho & _).
  - split; [apply kmem0_inv|]. split.
    + constructor; [|constructor]. apply page_ok_range; reflexivity || (vm_compute; congruence).
    + constructor; [set_solver|constructor].
  - reflexivity.
  - exists k'. split; [exact E|exact Ho].
Defined.
