(* ===== verification/Vm.v ===== *)
(** * vm.c: page tables

    Page directories and page tables are pages of the kernel's memory, taken
    from [kalloc]; the state is that of kalloc.c, whose memory holds them.
    Pointers are kernel virtual addresses, and 0 is the null pointer.  [data]
    is the linker symbol of that name.  Messages printed with [cprintf] are not
    modelled; the code that loads segment registers and cr3 is in Segment.v. *)

From S2P Require Import Prelude CString Spinlock Mmu Kalloc.

Definition read32 (a : Z) : M kmem Z := gets (λ k, load32 (kmem_mem k) a).
Definition write32 (a v : Z) : M kmem unit := modify (λ k, set_kmem_mem (store32 (kmem_mem k) a v) k).
Definition on_mem (f : mem → mem) : M kmem unit := modify (λ k, set_kmem_mem (f (kmem_mem k)) k).

(** [p->...] with a null pointer. *)
Definition deref (p : Z) : M kmem Z := if p =? 0 then fail (EOob "null") else read32 p.

Section vm.
Context (me : nat) (kend data : Z).

Definition walkpgdir (pgdir va : Z) (alloc : bool) : M kmem Z :=
  let pde := pgdir + 4 * PDX va in
  e <- read32 pde;;
  if negb (Z.land e PTE_P =? 0) then ret (P2V (PTE_ADDR e) + 4 * PTX va)
  else if negb alloc then ret 0
  else
    pgtab <- kalloc me;;
    if pgtab =? 0 then ret 0
    else
      on_mem (memset pgtab 0 PGSIZE);;
      write32 pde (Z.lor (Z.lor (Z.lor (V2P pgtab) PTE_P) PTE_W) PTE_U);;
      ret (pgtab + 4 * PTX va).

Fixpoint mappages_loop (fuel : nat) (pgdir a last pa perm : Z) : M kmem Z :=
  match fuel with
  | O => fail EFuel
  | S fuel' =>
      pte <- walkpgdir pgdir a true;;
      if pte =? 0 then ret (-1)
      else
        e <- read32 pte;;
        if negb (Z.land e PTE_P =? 0) then panic "remap"
        else
          write32 pte (Z.lor (Z.lor pa perm) PTE_P);;
          if a =? last then ret 0
          else mappages_loop fuel' pgdir (u32 (a + PGSIZE)) last (u32 (pa + PGSIZE)) perm
  end.

(** One round per page from [a] to [last]. *)
Definition mappages (pgdir va size pa perm : Z) : M kmem Z :=
  let a := PGROUNDDOWN (u32 va) in
  let last := PGROUNDDOWN (u32 (va + size - 1)) in
  mappages_loop (S (Z.to_nat (u32 (last - a) / PGSIZE))) pgdir a last pa perm.

Fixpoint deallocuvm_loop (fuel : nat) (pgdir a oldsz : Z) : M kmem unit :=
  match fuel with
  | O => fail EFuel
  | S fuel' =>
      if a <? oldsz then
        pte <- walkpgdir pgdir a false;;
        if pte =? 0 then deallocuvm_loop fuel' pgdir (u32 (PGADDR (PDX a + 1) 0 0 - PGSIZE + PGSIZE)) oldsz
        else
          e <- read32 pte;;
          when (negb (Z.land e PTE_P =? 0)) (
            let pa := PTE_ADDR e in
            if pa =? 0 then panic "kfree"
            else
              kfree me kend (P2V pa);;
              write32 pte 0);;
          deallocuvm_loop fuel' pgdir (u32 (a + PGSIZE)) oldsz
      else ret tt
  end.

(** One round per page below [oldsz]. *)
Definition deallocuvm (pgdir oldsz newsz : Z) : M kmem Z :=
  if oldsz <=? newsz then ret oldsz
  else
    deallocuvm_loop (S (Z.to_nat (oldsz / PGSIZE + 1))) pgdir (PGROUNDUP newsz) oldsz;;
    ret newsz.

Fixpoint freevm_loop (n : nat) (pgdir i : Z) : M kmem unit :=
  match n with
  | O => ret tt
  | S n' =>
      e <- read32 (pgdir + 4 * i);;
      when (negb (Z.land e PTE_P =? 0)) (kfree me kend (P2V (PTE_ADDR e)));;
      freevm_loop n' pgdir (i + 1)
  end.

Definition freevm (pgdir : Z) : M kmem unit :=
  if pgdir =? 0 then panic "freevm: no pgdir"
  else
    deallocuvm pgdir KERNBASE 0;;
    freevm_loop (Z.to_nat NPDENTRIES) pgdir 0;;
    kfree me kend pgdir.

(** [kmap]: virtual address, physical start and end, permissions. *)
Definition kmap : list (Z * Z * Z * Z) :=
  [(KERNBASE, 0, EXTMEM, PTE_W);
   (KERNLINK, V2P KERNLINK, V2P data, 0);
   (data, V2P data, PHYSTOP, PTE_W);
   (DEVSPACE, DEVSPACE, 0, PTE_W)].

Fixpoint setupkvm_loop (ks : list (Z * Z * Z * Z)) (pgdir : Z) : M kmem Z :=
  match ks with
  | [] => ret pgdir
  | (virt, phys_start, phys_end, perm) :: ks' =>
      r <- mappages pgdir virt (u32 (phys_end - phys_start)) phys_start perm;;
      if r <? 0 then freevm pgdir;; ret 0
      else setupkvm_loop ks' pgdir
  end.

Definition setupkvm : M kmem Z :=
  pgdir <- kalloc me;;
  if pgdir =? 0 then ret 0
  else
    on_mem (memset pgdir 0 PGSIZE);;
    if DEVSPACE <? P2V PHYSTOP then panic "PHYSTOP too high"
    else setupkvm_loop kmap pgdir.

(** [init] and [sz] are the initial program in memory. *)
Definition inituvm (pgdir init sz : Z) : M kmem unit :=
  if PGSIZE <=? sz then panic "inituvm: more than a page"
  else
    mem <- kalloc me;;
    on_mem (memset mem 0 PGSIZE);;
    mappages pgdir 0 PGSIZE (V2P mem) (Z.lor PTE_W PTE_U);;
    on_mem (memmove mem init sz).

Fixpoint allocuvm_loop (fuel : nat) (pgdir a oldsz newsz : Z) : M kmem Z :=
  match fuel with
  | O => fail EFuel
  | S fuel' =>
      if a <? newsz then
        mem <- kalloc me;;
        if mem =? 0 then deallocuvm pgdir newsz oldsz;; ret 0
        else
          on_mem (memset mem 0 PGSIZE);;
          r <- mappages pgdir a PGSIZE (V2P mem) (Z.lor PTE_W PTE_U);;
          if r <? 0 then
            deallocuvm pgdir newsz oldsz;;
            kfree me kend mem;;
            ret 0
          else allocuvm_loop fuel' pgdir (u32 (a + PGSIZE)) oldsz newsz
      else ret newsz
  end.

(** One round per page from [oldsz] to [newsz]. *)
Definition allocuvm (pgdir oldsz newsz : Z) : M kmem Z :=
  if KERNBASE <=? newsz then ret 0
  else if newsz <? oldsz then ret oldsz
  else allocuvm_loop (S (Z.to_nat ((newsz - oldsz) / PGSIZE + 1))) pgdir (PGROUNDUP oldsz) oldsz newsz.

Definition clearpteu (pgdir uva : Z) : M kmem unit :=
  pte <- walkpgdir pgdir uva false;;
  if pte =? 0 then panic "clearpteu"
  else
    e <- read32 pte;;
    write32 pte (Z.land e (Z.lnot PTE_U)).

Fixpoint copyuvm_loop (fuel : nat) (pgdir d i sz : Z) : M kmem Z :=
  match fuel with
  | O => fail EFuel
  | S fuel' =>
      if i <? sz then
        pte <- walkpgdir pgdir i false;;
        if pte =? 0 then panic "copyuvm: pte should exist"
        else
          e <- read32 pte;;
          if Z.land e PTE_P =? 0 then panic "copyuvm: page not present"
          else
            let pa := PTE_ADDR e in
            let flags := PTE_FLAGS e in
            mem <- kalloc me;;
            if mem =? 0 then freevm d;; ret 0
            else
              on_mem (memmove mem (P2V pa) PGSIZE);;
              r <- mappages d i PGSIZE (V2P mem) flags;;
              if r <? 0 then freevm d;; ret 0
              else copyuvm_loop fuel' pgdir d (u32 (i + PGSIZE)) sz
      else ret d
  end.

(** One round per page below [sz]. *)
Definition copyuvm (pgdir sz : Z) : M kmem Z :=
  d <- setupkvm;;
  if d =? 0 then ret 0
  else copyuvm_loop (S (Z.to_nat (sz / PGSIZE + 1))) pgdir d 0 sz.

Definition uva2ka (pgdir uva : Z) : M kmem Z :=
  pte <- walkpgdir pgdir uva false;;
  e <- deref pte;;
  if Z.land e PTE_P =? 0 then ret 0
  else if Z.land e PTE_U =? 0 then ret 0
  else ret (P2V (PTE_ADDR e)).

(** [p] points to kernel memory. *)
Fixpoint copyout_loop (fuel : nat) (pgdir va p len : Z) : M kmem Z :=
  match fuel with
  | O => fail EFuel
  | S fuel' =>
      if 0 <? len then
        let va0 := PGROUNDDOWN va in
        pa0 <- uva2ka pgdir va0;;
        if pa0 =? 0 then ret (-1)
        else
          let n := Z.min (PGSIZE - (va - va0)) len in
          on_mem (memmove (pa0 + (va - va0)) p n);;
          copyout_loop fuel' pgdir (u32 (va0 + PGSIZE)) (p + n) (len - n)
      else ret 0
  end.

(** Each round copies at least a byte. *)
Definition copyout (pgdir va p len : Z) : M kmem Z := copyout_loop (S (Z.to_nat len)) pgdir va p len.
End vm.
