(* ===== verification/VmSpec.v ===== *)
(** * What the page-table code of vm.c guarantees

    [as_inv] is the well-formedness of an address space: which pages it
    consists of, and what the entries of its tables say.  Every operation
    preserves it. *)

From S2P Require Import Prelude CString Spinlock Mmu Kalloc Vm.

(** ** Words and entries *)

Lemma load32_store32_other m a v b : b + 4 ≤ a ∨ a + 4 ≤ b → load32 (store32 m a v) b = load32 m b.
Proof. intros H. apply load32_ext. intros k Hk. apply store32_other. lia. Qed.

Lemma load32_zero m a : (∀ k, a ≤ k < a + 4 → m k = 0) → load32 m a = 0.
Proof. intros H. unfold load32. by rewrite !H by lia. Qed.

(** Pages are numbered by multiples of [PGSIZE]. *)
Definition aligned (a : Z) : Prop := a mod PGSIZE = 0.

Lemma aligned_lor x fl : aligned x → 0 ≤ fl < PGSIZE → Z.lor x fl = x + fl.
Proof.
  intros Hx Hf. unfold aligned, PGSIZE in *. replace x with (Z.shiftl (x / 4096) 12).
  - rewrite Z.lor_comm, (Z_lor_shiftl_add 12); [rewrite Z.shiftl_mul_pow2|..]; lia.
  - rewrite Z.shiftl_mul_pow2 by lia. pose proof (Z.div_mod x 4096 ltac:(lia)). lia.
Qed.

Lemma land_low x fl n : aligned x → 0 ≤ fl < PGSIZE → 0 ≤ n ≤ 12 → Z.land (x + fl) (Z.ones n) = Z.land fl (Z.ones n).
Proof.
  intros Hx Hf Hn. rewrite !Z.land_ones by lia. unfold aligned, PGSIZE in *.
  pose proof (Z.div_mod x 4096 ltac:(lia)) as E. rewrite Hx, Z.add_0_r in E. rewrite E.
  replace (4096 * (x / 4096)) with (x / 4096 * 2 ^ (12 - n) * 2 ^ n).
  - rewrite Z.add_comm, Z.mod_add by (apply Z.pow_nonzero; lia). done.
  - rewrite <-Z.mul_assoc, <-Z.pow_add_r by lia. replace (12 - n + n) with 12 by lia. lia.
Qed.

Lemma pte_addr_flags x fl :
  aligned x → 0 ≤ fl < PGSIZE → 0 ≤ x → x + fl < 2 ^ 32 → PTE_ADDR (x + fl) = x ∧ PTE_FLAGS (x + fl) = fl ∧
  Z.land (x + fl) PTE_P = Z.land fl PTE_P.
Proof.
  intros Hx Hf H0 Hb. unfold PTE_ADDR, PTE_FLAGS, PTE_P. rewrite u32_small by (unfold PGSIZE in *; lia).
  split; [|split].
  - change 0xFFF with (Z.ones 12). rewrite land_lnot_ones by lia. unfold aligned, PGSIZE in *.
    change (2 ^ 12) with 4096. rewrite Z.add_mod, Hx by lia. rewrite Z.add_0_l, Z.mod_mod, Z.mod_small by lia. lia.
  - change 0xFFF with (Z.ones 12). rewrite land_low by (done || lia). rewrite Z.land_ones by lia. by apply Z.mod_small.
  - change 1 with (Z.ones 1). by rewrite land_low by (done || lia).
Qed.

Lemma lor_bound n a b : 0 ≤ n → 0 ≤ a < 2 ^ n → 0 ≤ b < 2 ^ n → 0 ≤ Z.lor a b < 2 ^ n.
Proof.
  intros Hn Ha Hb. rewrite <-(Z.mod_small a (2 ^ n)), <-(Z.mod_small b (2 ^ n)), <-!Z.land_ones by done.
  rewrite <-Z.land_lor_distr_l, Z.land_ones by done. apply Z.mod_pos_bound. lia.
Qed.

Lemma land_lor_r a b : Z.land (Z.lor a b) b = b.
Proof. rewrite Z.lor_comm, Z.land_comm. apply Z.bits_inj'. intros i Hi. rewrite Z.land_spec, Z.lor_spec. by destruct (Z.testbit b i). Qed.

(** The parts of a virtual address. *)
Lemma PDX_eq va : 0 ≤ va < 2 ^ 32 → PDX va = va / 2 ^ 22.
Proof.
  intros H. unfold PDX, PDXSHIFT. rewrite u32_small by done. change 0x3FF with (Z.ones 10).
  rewrite Z.land_ones, Z.shiftr_div_pow2 by lia. apply Z.mod_small. split; [apply Z.div_pos; lia|].
  apply Z.div_lt_upper_bound; lia.
Qed.

Lemma PTX_eq va : 0 ≤ va < 2 ^ 32 → PTX va = va / 2 ^ 12 mod 2 ^ 10.
Proof.
  intros H. unfold PTX, PTXSHIFT. rewrite u32_small by done. change 0x3FF with (Z.ones 10).
  by rewrite Z.land_ones, Z.shiftr_div_pow2 by lia.
Qed.

Lemma PDX_range va : 0 ≤ PDX va < 1024.
Proof. unfold PDX. change 0x3FF with (Z.ones 10). rewrite Z.land_ones by lia. apply Z.mod_pos_bound. lia. Qed.
Lemma PTX_range va : 0 ≤ PTX va < 1024.
Proof. unfold PTX. change 0x3FF with (Z.ones 10). rewrite Z.land_ones by lia. apply Z.mod_pos_bound. lia. Qed.

(** Two pages with the same indices are the same page. *)
Lemma PDX_PTX_inj va va' :
  0 ≤ va < 2 ^ 32 → 0 ≤ va' < 2 ^ 32 → aligned va → aligned va' → PDX va = PDX va' → PTX va = PTX va' → va = va'.
Proof.
  intros H H' Ha Ha' E1 E2. rewrite !PDX_eq in E1 by done. rewrite !PTX_eq in E2 by done. unfold aligned, PGSIZE in *.
  change (2 ^ 12) with 4096 in E2. change (2 ^ 22) with (4096 * 2 ^ 10) in E1.
  rewrite <-!Z.div_div in E1 by lia. 
  pose proof (Z.div_mod va 4096 ltac:(lia)). pose proof (Z.div_mod va' 4096 ltac:(lia)).
  pose proof (Z.div_mod (va / 4096) (2 ^ 10) ltac:(lia)). pose proof (Z.div_mod (va' / 4096) (2 ^ 10) ltac:(lia)). lia.
Qed.

(** ** Address spaces *)

(** What a page is used for. *)
Inductive role := Free | Dir | Table (d : Z) | Frame (va : Z).
#[export] Instance role_eq_dec : EqDecision role.
Proof. solve_decision. Defined.

(** The entry for [va], with the tables [ts]; 0 if there is no table. *)
Definition entry (m : mem) (ts : gmap Z Z) (va : Z) : Z :=
  match ts !! PDX va with Some t => load32 m (t + 4 * PTX va) | None => 0 end.

(** The entry of a user page: its frame and flags, or not present. *)
Definition entry_is (e : Z) (u : option (Z * Z)) : Prop :=
  match u with Some (f, fl) => e = V2P f + fl ∧ Z.land fl PTE_P ≠ 0 | None => Z.land e PTE_P = 0 end.

Definition user_page (va : Z) : Prop := aligned va ∧ 0 ≤ va < KERNBASE.

Definition kernel_page (va : Z) : Prop := aligned va ∧ KERNBASE ≤ va < 2 ^ 32.

(** Page [p] is in use for [r]: nothing is owned that is not in the tables. *)
Definition used_for (pgdir : Z) (ts : gmap Z Z) (us : gmap Z (Z * Z)) (p : Z) (r : role) : Prop :=
  match r with
  | Free => True
  | Dir => p = pgdir
  | Table d => ts !! d = Some p
  | Frame va => ∃ fl, us !! va = Some (p, fl)
  end.

Section spec.
Context (me : nat) (kend : Z) (Hkend : KERNBASE < kend).
(** The entries known for the kernel's half of the address space. *)
Context {kern : Z → option Z}.

(** The free list is [l]; the directory [pgdir] has the page tables [ts], and
    the user pages are [us]: their frames and flags.  [own] says what every
    page of the address space and of the free list is for, so that no page is
    used twice and none is lost. *)
Record as_inv (k : kmem) (l : list Z) (own : gmap Z role) (pgdir : Z) (ts : gmap Z Z) (us : gmap Z (Z * Z)) : Prop := {
  as_kmem : kmem_inv kend k l;
  as_pages p r : own !! p = Some r → page_ok kend p;
  as_free p : p ∈ l ↔ own !! p = Some Free;
  as_dir : own !! pgdir = Some Dir;
  as_tables d t : ts !! d = Some t → 0 ≤ d < NPDENTRIES ∧ own !! t = Some (Table d);
  as_frames va f fl : us !! va = Some (f, fl) → own !! f = Some (Frame va) ∧ user_page va ∧ 0 ≤ fl < PGSIZE;
  as_pde d : 0 ≤ d < NPDENTRIES →
    match ts !! d with
    | Some t => load32 (kmem_mem k) (pgdir + 4 * d) = V2P t + 7
    | None => Z.land (load32 (kmem_mem k) (pgdir + 4 * d)) PTE_P = 0
    end;
  as_pte va : user_page va → entry_is (entry (kmem_mem k) ts va) (us !! va);
  as_used p r : own !! p = Some r → used_for pgdir ts us p r;
  as_kern va e : kernel_page va → kern va = Some e → entry (kmem_mem k) ts va = e;
}.

Lemma page_ok_v2p p : page_ok kend p → aligned (V2P p) ∧ 0 ≤ V2P p < PHYSTOP ∧ P2V (V2P p) = p.
Proof.
  intros ((H1 & H2) & H3 & H4 & H5). rewrite P2V_V2P by (unfold KERNBASE in *; lia). split; [|split; [|done]].
  - unfold aligned, V2P, KERNBASE, PGSIZE in *. rewrite (u32_small p), u32_small by lia.
    change 0x80000000 with (524288 * 4096). by rewrite Zminus_mod, Z.mod_mul, Z.sub_0_r, Z.mod_mod by lia.
  - split; [apply u32_range|done].
Qed.

Lemma page_word p d : page_ok kend p → 0 ≤ d < 1024 → p ≤ p + 4 * d ∧ p + 4 * d + 4 ≤ p + PGSIZE.
Proof. intros. unfold PGSIZE. lia. Qed.

(** Writing in one page does not change the words of another. *)
Lemma word_frame m m' p q d :
  page_ok kend p → page_ok kend q → p ≠ q → 0 ≤ d < 1024 → (∀ a, a < p ∨ p + PGSIZE ≤ a → m' a = m a) →
  load32 m' (q + 4 * d) = load32 m (q + 4 * d).
Proof.
  intros Hp Hq Hne Hd Hm. apply load32_ext. intros a Ha. apply Hm.
  destruct (page_ok_disjoint kend p q Hp Hq Hne); pose proof (page_word q d Hq Hd); lia.
Qed.

(** [walkpgdir] without allocation finds the entry if there is a table. *)
Lemma walkpgdir_find k l own pgdir ts us va :
  as_inv k l own pgdir ts us →
  ∀ alloc, is_Some (ts !! PDX va) ∨ alloc = false →
  walkpgdir me pgdir va alloc k = Done (match ts !! PDX va with Some t => t + 4 * PTX va | None => 0 end, k).
Proof.
  intros Hi alloc Ha. pose proof (as_pde _ _ _ _ _ _ Hi (PDX va) (PDX_range va)) as Hd.
  unfold walkpgdir, bind, read32, gets. destruct (ts !! PDX va) as [t|] eqn:Et.
  - destruct (as_tables _ _ _ _ _ _ Hi _ _ Et) as [_ Ho]. destruct (page_ok_v2p t) as (H1 & H2 & H3); [by eapply as_pages|].
    destruct (pte_addr_flags (V2P t) 7) as (E1 & _ & E2); [done|done|lia|unfold PHYSTOP in *; lia|].
    rewrite Hd, E1, E2, H3. done.
  - destruct Ha as [[? ?]| ->]; [done|]. by rewrite Hd.
Qed.

(** [m'] differs from [m] only inside page [p]. *)
Definition only_page (p : Z) (m m' : mem) : Prop := ∀ a, a < p ∨ p + PGSIZE ≤ a → m' a = m a.

Lemma only_page_store p m d v : 0 ≤ d < 1024 → only_page p m (store32 m (p + 4 * d) v).
Proof. intros Hd a Ha. apply store32_other. unfold PGSIZE in *. lia. Qed.

Lemma entry_same (own : gmap Z role) p m m' (ts : gmap Z Z) va :
  (∀ p r, own !! p = Some r → page_ok kend p) → (∀ d t, ts !! d = Some t → own !! t = Some (Table d)) →
  page_ok kend p → (∀ d, own !! p ≠ Some (Table d)) → only_page p m m' → entry m' ts va = entry m ts va.
Proof.
  intros Hpg Hts Hp Hno Hm. unfold entry. destruct (ts !! PDX va) as [t|] eqn:Et; [|done].
  pose proof (Hts _ _ Et) as Ho. eapply word_frame; [exact Hp|by eapply Hpg| |apply PTX_range|exact Hm].
  intros <-. by eapply Hno.
Qed.

(** Memory that is not part of the tables may change. *)
Lemma as_write_page k l own pgdir ts us p m' :
  as_inv k l own pgdir ts us → page_ok kend p → (own !! p = None ∨ ∃ va, own !! p = Some (Frame va)) →
  only_page p (kmem_mem k) m' → as_inv (set_kmem_mem m' k) l own pgdir ts us.
Proof.
  intros Hi Hp Ho Hm. destruct Hi as [H1 H2 H3 H4 H5 H6 H7 H8 H9 HA]. split; try done; cbn [kmem_mem set_kmem_mem].
  - eapply kmem_inv_frame; [done|exact Hp| |done]. rewrite H3. intros E. destruct Ho as [Ho|[va Ho]]; congruence.
  - intros d Hd. specialize (H7 d Hd). rewrite (word_frame (kmem_mem k) m' p); try done; [by eapply H2|].
    intros ->. destruct Ho as [Ho|[va Ho]]; congruence.
  - intros va Hva. rewrite (entry_same own p (kmem_mem k)); auto; [intros d t' Ht'; apply (H5 d t' Ht')|]. intros d E. destruct Ho as [Ho|[va' Ho]]; congruence.
  - intros va e Hva He. rewrite (entry_same own p (kmem_mem k)); auto; [intros d t' Ht'; apply (H5 d t' Ht')|]. intros d E. destruct Ho as [Ho|[va' Ho]]; congruence.
Qed.

Lemma as_kalloc k p l own pgdir ts us :
  as_inv k (p :: l) own pgdir ts us →
  ∃ k', kalloc me k = Done (p, k') ∧ kmem_mem k' = kmem_mem k ∧ page_ok kend p ∧
    as_inv k' l (delete p own) pgdir ts us ∧ own !! p = Some Free.
Proof.
  intros [H1 H2 H3 H4 H5 H6 H7 H8 H9 HA]. destruct (kalloc_inv me kend k _ H1) as (k' & E & Hk' & Hp & Hnin & Hm & _).
  assert (own !! p = Some Free) as Hf by (apply H3; set_solver).
  exists k'. split; [done|]. split; [done|]. split; [done|]. split; [|done]. split; rewrite ?Hm; try done.
  - intros q r [_ Hq]%lookup_delete_Some. by eapply H2.
  - intros q. rewrite lookup_delete_Some, <-H3. set_solver.
  - rewrite lookup_delete_ne by congruence. done.
  - intros d t Ht. destruct (H5 d t Ht) as [? Ho]. rewrite lookup_delete_ne by congruence. done.
  - intros va f fl Hu. destruct (H6 va f fl Hu) as (Ho & ?). rewrite lookup_delete_ne by congruence. done.
  - intros q r [_ Hq]%lookup_delete_Some. by apply H9.
Qed.

Lemma as_kalloc_empty k own pgdir ts us : as_inv k [] own pgdir ts us → kalloc me k = Done (0, k).
Proof. intros Hi. apply (kalloc_inv me kend k [] (as_kmem _ _ _ _ _ _ Hi)). Qed.

Lemma free_cons (own : gmap Z role) l f q :
  (∀ p, p ∈ l ↔ own !! p = Some Free) → q ∈ f :: l ↔ <[f := Free]> own !! q = Some Free.
Proof using Type.
  clear kern.
  intros H. rewrite elem_of_cons. destruct (decide (q = f)) as [->|Hne]; [rewrite lookup_insert_eq; naive_solver|].
  rewrite lookup_insert_ne, <-H by done. naive_solver.
Qed.

Lemma as_kfree k l own pgdir ts us p :
  as_inv k l own pgdir ts us → own !! p = None → page_ok kend p →
  ∃ k', kfree me kend p k = Done (tt, k') ∧ only_page p (kmem_mem k) (kmem_mem k') ∧
    as_inv k' (p :: l) (<[p := Free]> own) pgdir ts us.
Proof.
  intros Hi Hn Hp. assert (p ∉ l) as Hnl by (rewrite (as_free _ _ _ _ _ _ Hi); congruence).
  destruct (kfree_inv me kend p k l (as_kmem _ _ _ _ _ _ Hi) Hp Hnl) as (k' & E & Hk' & _ & Hm).
  exists k'. split; [done|]. split; [done|].
  destruct (as_write_page _ _ _ _ _ _ p (kmem_mem k') Hi Hp (or_introl Hn) Hm) as [_ H2 H3 H4 H5 H6 H7 H8 H9 HA].
  split; try done.
  - intros q r [[<- _]|[_ Hq]]%lookup_insert_Some; [done|by eapply H2].
  - intros q. by apply free_cons.
  - rewrite lookup_insert_ne by congruence. done.
  - intros d t Ht. destruct (H5 d t Ht) as [? Ho]. rewrite lookup_insert_ne by congruence. done.
  - intros va f fl Hu. destruct (H6 va f fl Hu) as (Ho & ?). rewrite lookup_insert_ne by congruence. done.
  - intros q r [[<- <-]|[_ Hq]]%lookup_insert_Some; [done|by apply H9].
Qed.

Lemma free_insert (own : gmap Z role) p r q :
  own !! p = None → r ≠ Free → own !! q = Some Free ↔ <[p := r]> own !! q = Some Free.
Proof using Type.
  clear kern.
  intros Hn Hr. destruct (decide (q = p)) as [->|]; [rewrite lookup_insert_eq, Hn; naive_solver|].
  by rewrite lookup_insert_ne.
Qed.

(** A new page table. *)
Lemma as_add_table k l own pgdir ts us p d :
  as_inv k l own pgdir ts us → own !! p = None → page_ok kend p → ts !! d = None → 0 ≤ d < NPDENTRIES →
  (∀ a, p ≤ a < p + PGSIZE → kmem_mem k a = 0) →
  let m' := store32 (kmem_mem k) (pgdir + 4 * d) (V2P p + 7) in
  as_inv (set_kmem_mem m' k) l (<[p := Table d]> own) pgdir (<[d := p]> ts) us ∧
  ∀ va, entry m' (<[d := p]> ts) va = entry (kmem_mem k) ts va.
Proof.
  intros Hi Hn Hp Hd Hr Hz m'. pose proof (page_ok_v2p p Hp) as (Hv1 & Hv2 & Hv3). destruct Hi as [H1 H2 H3 H4 H5 H6 H7 H8 H9 HA].
  pose proof (H2 _ _ H4) as Hpg. assert (only_page pgdir (kmem_mem k) m') as Hop by (by apply only_page_store).
  assert (∀ va, entry m' (<[d := p]> ts) va = entry (kmem_mem k) ts va) as He.
  { intros va. transitivity (entry m' ts va); [|apply (entry_same own pgdir); try done; [intros d' t' Ht'; apply (H5 d' t' Ht')|congruence]].
    unfold entry. destruct (decide (PDX va = d)) as [<-|Hne]; [|by rewrite lookup_insert_ne].
    rewrite lookup_insert_eq, Hd. apply load32_zero. intros a Ha. pose proof (page_word p (PTX va) Hp (PTX_range va)).
    rewrite Hop; [apply Hz; lia|]. destruct (page_ok_disjoint kend pgdir p); [done|done|congruence|lia|lia]. }
  split; [|done]. split; cbn [kmem_mem set_kmem_mem]; try done.
  - eapply kmem_inv_frame; [done|exact Hpg| |done]. rewrite H3. congruence.
  - intros q r [[<- _]|[_ Hq]]%lookup_insert_Some; [done|by eapply H2].
  - intros q. rewrite H3. by apply free_insert.
  - rewrite lookup_insert_ne by congruence. done.
  - intros d' t [[<- <-]|[Hne Ht]]%lookup_insert_Some; [by rewrite lookup_insert_eq|].
    destruct (H5 d' t Ht) as [? Ho]. rewrite lookup_insert_ne by congruence. done.
  - intros va f fl Hu. destruct (H6 va f fl Hu) as (Ho & ?). rewrite lookup_insert_ne by congruence. done.
  - intros d' Hd'. destruct (decide (d' = d)) as [->|Hne].
    + rewrite lookup_insert_eq. apply load32_store32. unfold PHYSTOP in *. lia.
    + rewrite lookup_insert_ne by done. unfold m'. rewrite load32_store32_other by lia. by apply H7.
  - intros va Hva. rewrite He. by apply H8.
  - intros q r [[<- <-]|[Hne Hq]]%lookup_insert_Some; [apply lookup_insert_eq|]. apply H9 in Hq as Hu.
    destruct r as [| |d'|va]; try done. cbn in *. rewrite lookup_insert_ne; [done|congruence].
  - intros va e Hva Hke. rewrite He. by apply HA.
Qed.

(** The part of the invariant that says which pages are the tables. *)
Record base_inv (k : kmem) (l : list Z) (own : gmap Z role) (pgdir : Z) (ts : gmap Z Z) : Prop := {
  ba_kmem : kmem_inv kend k l;
  ba_pages p r : own !! p = Some r → page_ok kend p;
  ba_free p : p ∈ l ↔ own !! p = Some Free;
  ba_dir : own !! pgdir = Some Dir;
  ba_tables d t : ts !! d = Some t → 0 ≤ d < NPDENTRIES ∧ own !! t = Some (Table d);
}.

Lemma as_base k l own pgdir ts us : as_inv k l own pgdir ts us → base_inv k l own pgdir ts.
Proof. intros [H1 H2 H3 H4 H5 H6 H7 H8 H9 HA]. by split. Qed.

Lemma user_page_range va : user_page va → aligned va ∧ 0 ≤ va < 2 ^ 32.
Proof. intros [Ha Hr]. unfold KERNBASE in *. split; [done|lia]. Qed.

(** Changing the entry of a page. *)
Lemma base_set_entry k l own pgdir ts va t e :
  base_inv k l own pgdir ts → ts !! PDX va = Some t → aligned va ∧ 0 ≤ va < 2 ^ 32 → 0 ≤ e < 2 ^ 32 →
  let m' := store32 (kmem_mem k) (t + 4 * PTX va) e in
  entry m' ts va = e ∧
  (∀ va', 0 ≤ va' < 2 ^ 32 → aligned va' → va' ≠ va → entry m' ts va' = entry (kmem_mem k) ts va') ∧
  kmem_inv kend (set_kmem_mem m' k) l ∧
  ∀ d, 0 ≤ d < NPDENTRIES → load32 m' (pgdir + 4 * d) = load32 (kmem_mem k) (pgdir + 4 * d).
Proof.
  intros Hi Ht [Hal Hva] He m'. destruct Hi as [H1 H2 H3 H4 H5]. destruct (H5 _ _ Ht) as [_ Ho].
  pose proof (H2 _ _ Ho) as Hpt. pose proof (PTX_range va) as Hx.
  assert (only_page t (kmem_mem k) m') as Hop by (by apply only_page_store). split_and!.
  - unfold entry, m'. by rewrite Ht, load32_store32.
  - intros va' Hr' Hal' Hne. unfold entry. destruct (ts !! PDX va') as [t'|] eqn:Et'; [|done].
    destruct (decide (t' = t)) as [->|Hnt].
    + apply load32_store32_other. assert (PTX va ≠ PTX va'); [|lia]. intros E. apply Hne.
      destruct (H5 _ _ Et') as [_ Ho']. apply PDX_PTX_inj; try done; congruence.
    + destruct (H5 _ _ Et') as [_ Ho']. apply (word_frame _ _ t); try done; [by eapply H2|apply PTX_range].
  - eapply kmem_inv_frame; [done|exact Hpt| |done]. rewrite H3. congruence.
  - intros d Hd. apply (word_frame _ _ t); try done; [by eapply H2|congruence].
Qed.

Lemma as_map k l own pgdir ts us va t f fl :
  as_inv k l own pgdir ts us → ts !! PDX va = Some t → user_page va → us !! va = None →
  own !! f = None → page_ok kend f → 0 ≤ fl < PGSIZE → Z.land fl PTE_P ≠ 0 →
  as_inv (set_kmem_mem (store32 (kmem_mem k) (t + 4 * PTX va) (V2P f + fl)) k) l (<[f := Frame va]> own) pgdir ts
    (<[va := (f, fl)]> us).
Proof.
  intros Hi Ht Hu Hn Ho Hf Hfl HP. destruct (page_ok_v2p f Hf) as (V1 & V2 & V3).
  destruct (base_set_entry _ _ _ _ _ va t (V2P f + fl) (as_base _ _ _ _ _ _ Hi) Ht (user_page_range _ Hu)) as (E1 & E2 & E3 & E4); [unfold PHYSTOP, PGSIZE in *; lia|].
  destruct Hi as [H1 H2 H3 H4 H5 H6 H7 H8 H9 HA]. split; cbn [kmem_mem set_kmem_mem]; try done.
  - intros q r [[<- _]|[_ Hq]]%lookup_insert_Some; [done|by eapply H2].
  - intros q. rewrite H3. by apply free_insert.
  - rewrite lookup_insert_ne by congruence. done.
  - intros d t' Ht'. destruct (H5 d t' Ht') as [? Hot]. rewrite lookup_insert_ne by congruence. done.
  - intros va' f' fl' [[<- [= <- <-]]|[Hne Hu']]%lookup_insert_Some; [by rewrite lookup_insert_eq|].
    destruct (H6 va' f' fl' Hu') as (Hof & ?). rewrite lookup_insert_ne by congruence. done.
  - intros d Hd. rewrite E4 by done. by apply H7.
  - intros va' Hva'. destruct (decide (va' = va)) as [->|Hne]; [by rewrite E1, lookup_insert_eq|].
    rewrite E2, lookup_insert_ne; [by apply H8|done|destruct Hva'; unfold KERNBASE in *; lia|by destruct Hva'|done].
  - intros q r [[<- <-]|[Hne Hq]]%lookup_insert_Some; [exists fl; apply lookup_insert_eq|]. apply H9 in Hq as Hq'.
    destruct r as [| |d'|va']; try done. destruct Hq' as [fl' Hq']. exists fl'. rewrite lookup_insert_ne; [done|congruence].
  - intros va' e [Ha' Hr'] Hke. destruct Hu as [_ Hu]. rewrite E2; [by apply HA|unfold KERNBASE in *; lia|done|lia].
Qed.

(** Pages outside the address space and its frames keep their contents. *)
Definition keeps (own : gmap Z role) (m m' : mem) : Prop :=
  ∀ p, page_ok kend p → own !! p = None ∨ (∃ va, own !! p = Some (Frame va)) → ∀ a, p ≤ a < p + PGSIZE → m' a = m a.

Lemma keeps_page own p m m' :
  page_ok kend p → (own !! p ≠ None ∧ ∀ va, own !! p ≠ Some (Frame va)) → only_page p m m' → keeps own m m'.
Proof using Type.
  clear kern.
  intros Hp [H1 H2] Hm q Hq Ho a Ha. apply Hm. destruct (page_ok_disjoint kend p q Hp Hq); [|lia..].
  intros ->. destruct Ho as [?|[va ?]]; naive_solver.
Qed.

(** What an operation may do to the pages: tables may be added, pages used
    for something else stay as they are, and none are lost. *)
Record grows (own own' : gmap Z role) (ts ts' : gmap Z Z) : Prop := {
  gr_ts : ts ⊆ ts';
  gr_dom : dom own' = dom own;
  gr_role p r : own !! p = Some r → r ≠ Free → own' !! p = Some r;
}.

Lemma grows_refl own ts : grows own own ts ts.
Proof. by split. Qed.

Lemma grows_trans own1 own2 own3 ts1 ts2 ts3 : grows own1 own2 ts1 ts2 → grows own2 own3 ts2 ts3 → grows own1 own3 ts1 ts3.
Proof. intros [H1 H2 H3] [H4 H5 H6]. split; [by etrans|congruence|auto]. Qed.

Lemma pte_flags_value p : page_ok kend p → Z.lor (Z.lor (Z.lor (V2P p) PTE_P) PTE_W) PTE_U = V2P p + 7.
Proof.
  intros Hp. destruct (page_ok_v2p p Hp) as (H1 & _ & _). rewrite <-!Z.lor_assoc. change (Z.lor PTE_P (Z.lor PTE_W PTE_U)) with 7.
  by apply aligned_lor.
Qed.

(** [walkpgdir] that may allocate: it finds or makes the table, or the memory
    is used up. *)
Lemma walkpgdir_alloc k l own pgdir ts us va :
  as_inv k l own pgdir ts us →
  (ts !! PDX va = None ∧ l = [] ∧ walkpgdir me pgdir va true k = Done (0, k)) ∨
  ∃ k' l' own' ts' t, walkpgdir me pgdir va true k = Done (t + 4 * PTX va, k') ∧
    as_inv k' l' own' pgdir ts' us ∧ ts' !! PDX va = Some t ∧ grows own own' ts ts' ∧ keeps own (kmem_mem k) (kmem_mem k') ∧
    ∀ va', entry (kmem_mem k') ts' va' = entry (kmem_mem k) ts va'.
Proof.
  intros Hi. destruct (ts !! PDX va) as [t|] eqn:Et.
  { right. exists k, l, own, ts, t. rewrite (walkpgdir_find _ _ _ _ _ _ _ Hi) by eauto. rewrite Et. split_and!; try done. }
  pose proof (as_pde _ _ _ _ _ _ Hi (PDX va) (PDX_range va)) as Hd. rewrite Et in Hd.
  unfold walkpgdir, bind, read32, gets. rewrite Hd. cbn [Z.eqb negb]. destruct l as [|p l].
  { left. rewrite (as_kalloc_empty _ _ _ _ _ Hi). done. }
  right. destruct (as_kalloc _ _ _ _ _ _ _ Hi) as (k1 & E1 & Hm1 & Hp & Hi1 & Hfree). rewrite E1.
  rewrite (proj2 (Z.eqb_neq p 0)) by (destruct Hp; lia). unfold on_mem, write32, modify, ret. cbn [kmem_mem set_kmem_mem].
  rewrite pte_flags_value by done. set (m1 := memset p 0 PGSIZE (kmem_mem k1)).
  assert (∀ a, m1 a = if decide (p ≤ a < p + PGSIZE) then 0 else kmem_mem k1 a) as Hm
    by (intros a; unfold m1; by rewrite memset_spec by (unfold PGSIZE; lia)).
  assert (only_page p (kmem_mem k1) m1) as Hop by (intros a Ha; rewrite Hm; case_decide; [lia|done]).
  assert (as_inv (set_kmem_mem m1 k1) l (delete p own) pgdir ts us) as Hi2
    by (apply (as_write_page _ _ _ _ _ _ p); [done|done|left; apply lookup_delete_eq|done]).
  destruct (as_add_table _ _ _ _ _ _ p (PDX va) Hi2) as [Hi3 He3]; [apply lookup_delete_eq|done|done|apply PDX_range| |].
  { intros a Ha. cbn. rewrite Hm. by rewrite decide_True. }
  eexists _, l, _, _, p. split; [done|]. split; [exact Hi3|]. split; [apply lookup_insert_eq|]. split; [|split].
  - split; [by apply insert_subseteq|rewrite insert_delete_eq; apply dom_insert_lookup_L; by eexists|].
    intros q r Hq Hr. assert (q ≠ p) by congruence. by rewrite lookup_insert_ne, lookup_delete_ne.
  - intros q Hq Ho a Ha. cbn [set_kmem_mem kmem_mem]. rewrite store32_other.
    + rewrite Hop, Hm1; [done|]. destruct (page_ok_disjoint kend p q Hp Hq); [|lia..].
      intros ->. destruct Ho as [?|[va' ?]]; congruence.
    + pose proof (as_dir _ _ _ _ _ _ Hi) as Hdir. pose proof (as_pages _ _ _ _ _ _ Hi _ _ Hdir) as Hpd.
      pose proof (page_word pgdir (PDX va) Hpd (PDX_range va)).
      destruct (page_ok_disjoint kend pgdir q Hpd Hq); [|lia..]. intros ->. destruct Ho as [?|[va' ?]]; congruence.
  - intros va'. cbn [set_kmem_mem kmem_mem]. rewrite He3. cbn [set_kmem_mem kmem_mem].
    rewrite (entry_same (delete p own) p (kmem_mem k1)); try done.
    + by rewrite Hm1.
    + intros q r Hq. by eapply (as_pages _ _ _ _ _ _ Hi2).
    + intros d t Ht. by apply (as_tables _ _ _ _ _ _ Hi2).
    + intros d. by rewrite lookup_delete_eq.
Qed.

(** Freeing a user page and clearing its entry, as [deallocuvm] does. *)
Lemma as_unmap k l own pgdir ts us va t f fl :
  as_inv k l own pgdir ts us → ts !! PDX va = Some t → us !! va = Some (f, fl) →
  ∃ k', (kfree me kend f;; write32 (t + 4 * PTX va) 0) k = Done (tt, k') ∧
    as_inv k' (f :: l) (<[f := Free]> own) pgdir ts (delete va us) ∧
    ∀ p, page_ok kend p → p ≠ f → own !! p = None ∨ (∃ va, own !! p = Some (Frame va)) →
      ∀ a, p ≤ a < p + PGSIZE → kmem_mem k' a = kmem_mem k a.
Proof.
  intros Hi Ht Hu. destruct Hi as [H1 H2 H3 H4 H5 H6 H7 H8 H9 HA]. destruct (H6 _ _ _ Hu) as (Hof & Hva & Hfl).
  pose proof (H2 _ _ Hof) as Hf. destruct (H5 _ _ Ht) as [_ Hot]. pose proof (H2 _ _ Hot) as Hpt.
  assert (f ∉ l) as Hnl by (rewrite H3; congruence).
  destruct (kfree_inv me kend f k l H1 Hf Hnl) as (k1 & E1 & Hk1 & _ & Hm1).
  assert (base_inv k1 (f :: l) (<[f := Free]> own) pgdir ts) as Hb.
  { split; [done| | | |].
    - intros q r [[<- _]|[_ Hq]]%lookup_insert_Some; [done|by eapply H2].
    - intros q. by apply free_cons.
    - rewrite lookup_insert_ne by congruence. done.
    - intros d t' Ht'. destruct (H5 d t' Ht') as [? Ho]. rewrite lookup_insert_ne by congruence. done. }
  destruct (base_set_entry _ _ _ _ _ va t 0 Hb Ht (user_page_range _ Hva)) as (E2 & E3 & E4 & E5); [lia|].
  assert (∀ va', entry (kmem_mem k1) ts va' = entry (kmem_mem k) ts va') as He.
  { intros va'. apply (entry_same own f); try done; [intros d t' Ht'; apply (H5 d t' Ht')|congruence]. }
  eexists. split; [unfold bind; rewrite E1; done|]. split.
  - split; cbn [kmem_mem set_kmem_mem]; try done; try apply Hb.
    + intros va' f' fl' [Hne Hu']%lookup_delete_Some. destruct (H6 _ _ _ Hu') as (Ho' & ?).
      rewrite lookup_insert_ne; [done|]. intros ->. rewrite Hof in Ho'. congruence.
    + intros d Hd. rewrite E5 by done. rewrite (word_frame (kmem_mem k) _ f); try done; [by apply H7|by eapply H2|congruence].
    + intros va' Hva'. destruct (decide (va' = va)) as [->|Hne]; [by rewrite E2, lookup_delete_eq|].
      rewrite E3, He, lookup_delete_ne; [by apply H8|done|destruct Hva'; unfold KERNBASE in *; lia|by destruct Hva'|done].
    + intros q r [[<- <-]|[Hne Hq]]%lookup_insert_Some; [done|]. apply H9 in Hq as Hq'.
      destruct r as [| |d'|va']; try done. destruct Hq' as [fl' Hq']. exists fl'. rewrite lookup_delete_ne; [done|congruence].
    + intros va' e [Ha' Hr'] Hke. destruct Hva as [_ Hva]. rewrite E3, He; [by apply HA|unfold KERNBASE in *; lia|done|lia].
  - intros p Hp Hne Ho a Ha. cbn [set_kmem_mem kmem_mem]. pose proof (page_word t (PTX va) Hpt (PTX_range va)).
    assert (p ≠ t) as Hpt' by (intros ->; destruct Ho as [?|[? ?]]; congruence).
    rewrite store32_other; [apply Hm1|].
    + destruct (page_ok_disjoint kend f p Hf Hp); [congruence|lia..].
    + destruct (page_ok_disjoint kend t p Hpt Hp); [congruence|lia..].
Qed.

Lemma entry_present e f fl : entry_is e (Some (f, fl)) → page_ok kend f → 0 ≤ fl < PGSIZE →
  Z.land e PTE_P ≠ 0 ∧ P2V (PTE_ADDR e) = f ∧ PTE_ADDR e = V2P f ∧ PTE_FLAGS e = fl.
Proof.
  intros [-> HP] Hf Hfl. destruct (page_ok_v2p f Hf) as (V1 & V2 & V3).
  destruct (pte_addr_flags (V2P f) fl) as (E1 & E2 & E3); [done|done|lia|unfold PHYSTOP, PGSIZE in *; lia|].
  rewrite E1, E2, E3. done.
Qed.

Lemma user_table k l own pgdir ts us va e :
  as_inv k l own pgdir ts us → us !! va = Some e → is_Some (ts !! PDX va).
Proof.
  destruct e as [f fl]. intros Hi Hu. destruct (as_frames _ _ _ _ _ _ Hi _ _ _ Hu) as (Ho & Hva & Hfl).
  pose proof (as_pte _ _ _ _ _ _ Hi va Hva) as He. rewrite Hu in He. destruct He as [He HP]. unfold entry in He.
  destruct (ts !! PDX va) as [t|]; [by eexists|]. pose proof (as_pages _ _ _ _ _ _ Hi _ _ Ho) as Hp.
  destruct (page_ok_v2p f Hp) as (_ & V2 & _). assert (fl = 0) as -> by lia. done.
Qed.

Lemma next_page a : user_page a → u32 (a + PGSIZE) = a + PGSIZE ∧ aligned (a + PGSIZE).
Proof.
  intros [Ha Hr]. unfold aligned, PGSIZE, KERNBASE in *. rewrite u32_small by lia. split; [done|].
  change 4096 with (1 * 4096) at 1. by rewrite Z.mod_add.
Qed.

(** Where [deallocuvm] continues when there is no table for [a]. *)
Lemma skip_table a :
  user_page a →
  let a' := u32 (PGADDR (PDX a + 1) 0 0 - PGSIZE + PGSIZE) in
  aligned a' ∧ a + PGSIZE ≤ a' ≤ KERNBASE ∧ ∀ va, a ≤ va < a' → PDX va = PDX a.
Proof.
  intros [Ha Hr] a'. unfold aligned, PGSIZE, KERNBASE in *.
  assert (a' = (a / 2 ^ 22 + 1) * 2 ^ 22) as ->.
  { unfold a', PGADDR. rewrite Z.shiftl_0_l, !Z.lor_0_r. unfold PDXSHIFT. rewrite Z.shiftl_mul_pow2, PDX_eq by lia.
    assert (a / 2 ^ 22 < 512) by (apply Z.div_lt_upper_bound; lia). pose proof (Z.div_pos a (2 ^ 22) ltac:(lia) ltac:(lia)).
    rewrite Z.sub_add, (u32_small (_ * _)) by lia. apply u32_small. lia. }
  pose proof (Z.div_mod a (2 ^ 22) ltac:(lia)). pose proof (Z.mod_pos_bound a (2 ^ 22) ltac:(lia)).
  pose proof (Z.div_mod a 4096 ltac:(lia)).
  split; [|split].
  - change (2 ^ 22) with (1024 * 4096). rewrite Z.mul_assoc. by apply Z.mod_mul.
  - assert (a / 2 ^ 22 < 512) by (apply Z.div_lt_upper_bound; lia). lia.
  - intros va Hva. rewrite !PDX_eq by lia. assert (va / 2 ^ 22 = a / 2 ^ 22); [|done].
    symmetry. apply (Z.div_unique _ _ _ (va - 2 ^ 22 * (a / 2 ^ 22))); lia.
Qed.

(** The user pages that are left when those from [a] to [b] are gone. *)
Definition without (a b : Z) (us : gmap Z (Z * Z)) : gmap Z (Z * Z) := filter (λ e, ¬ (a ≤ e.1 < b)) us.

Lemma without_empty a b us : b ≤ a → without a b us = us.
Proof. intros H. apply map_filter_id. intros va e _. cbn. lia. Qed.

Lemma without_skip a a' b us :
  a ≤ a' → (∀ va e, us !! va = Some e → ¬ (a ≤ va < a')) → without a b us = without a' b us.
Proof. intros Ha H. apply map_filter_ext. intros va e He. specialize (H va e He). cbn. lia. Qed.

Lemma without_delete a a' b us :
  a < a' → (∀ va e, us !! va = Some e → ¬ (a < va < a')) → a < b → without a b us = without a' b (delete a us).
Proof.
  intros Ha H Hb. apply map_eq. intros va. apply option_eq. intros e. unfold without.
  rewrite !map_lookup_filter_Some, lookup_delete_Some. cbn. split.
  - intros [He Hn]. pose proof (H va e He). assert (va ≠ a) by (intros ->; lia). split; [done|]. lia.
  - intros [[Hne He] Hn]. pose proof (H va e He). split; [done|lia].
Qed.

(** Frames that are still there, and pages outside, keep their contents. *)
Definition keeps_us (own : gmap Z role) (us : gmap Z (Z * Z)) (m m' : mem) : Prop :=
  ∀ p, page_ok kend p → own !! p = None ∨ (∃ va fl, us !! va = Some (p, fl)) → ∀ a, p ≤ a < p + PGSIZE → m' a = m a.

Lemma between_pages a va : aligned a → aligned va → ¬ (a < va < a + PGSIZE).
Proof.
  intros H1 H2 H. unfold aligned, PGSIZE in *. pose proof (Z.div_mod a 4096). pose proof (Z.div_mod va 4096). lia.
Qed.

(** One page: it is freed and its entry cleared, if there is one. *)
Lemma dealloc_page k l own pgdir ts us a t :
  as_inv k l own pgdir ts us → ts !! PDX a = Some t → user_page a →
  ∃ k' l' own',
    (let e := load32 (kmem_mem k) (t + 4 * PTX a) in
     when (negb (Z.land e PTE_P =? 0)) (
       let pa := PTE_ADDR e in
       if pa =? 0 then panic "kfree" else kfree me kend (P2V pa);; write32 (t + 4 * PTX a) 0)) k = Done (tt, k') ∧
    as_inv k' l' own' pgdir ts (delete a us) ∧ dom own' = dom own ∧ keeps_us own (delete a us) (kmem_mem k) (kmem_mem k').
Proof.
  intros Hi Et Hu. pose proof (as_pte _ _ _ _ _ _ Hi a Hu) as He. unfold entry in He. rewrite Et in He. cbv zeta.
  destruct (us !! a) as [[f fl]|] eqn:Eu.
  - destruct (as_frames _ _ _ _ _ _ Hi _ _ _ Eu) as (Ho & _ & Hfl). pose proof (as_pages _ _ _ _ _ _ Hi _ _ Ho) as Hpf.
    destruct (entry_present _ _ _ He Hpf Hfl) as (P1 & P2 & P3 & _).
    rewrite (proj2 (Z.eqb_neq _ _) P1), P2, P3. cbn [negb when]. assert (V2P f ≠ 0) as Hv.
    { destruct Hpf as (? & _ & ? & _). unfold V2P, KERNBASE in *. rewrite (u32_small f), u32_small by lia. lia. }
    rewrite (proj2 (Z.eqb_neq _ _) Hv).
    destruct (as_unmap _ _ _ _ _ _ a t f fl Hi Et Eu) as (k1 & E1 & Hi1 & Hk1). rewrite E1.
    eexists _, _, _. split; [done|]. split; [exact Hi1|]. split; [apply dom_insert_lookup_L; by eexists|].
    intros p Hp Hop x Hx. apply (Hk1 p); try done.
    + intros ->. destruct Hop as [Hop|(va & fl' & [Hne Hw]%lookup_delete_Some)]; [congruence|].
      destruct (as_frames _ _ _ _ _ _ Hi _ _ _ Hw) as (Ho' & _). congruence.
    + destruct Hop as [Hop|(va & fl' & [_ Hw]%lookup_delete_Some)]; [by left|right; exists va].
      apply (as_frames _ _ _ _ _ _ Hi _ _ _ Hw).
  - unfold entry_is in He. rewrite He. cbn [Z.eqb negb when]. exists k, l, own. by rewrite delete_id.
Qed.

Lemma keeps_us_trans own own' us us' m m' m'' :
  us' ⊆ us → dom own' = dom own → keeps_us own us m m' → keeps_us own' us' m' m'' → keeps_us own us' m m''.
Proof.
  intros Hs Hd H1 H2 p Hp Ho a Ha. rewrite (H2 p Hp); [apply (H1 p Hp)| |done]; [|done|].
  - destruct Ho as [Ho|(va & fl & Ho)]; [by left|right; exists va, fl]. by eapply lookup_weaken.
  - destruct Ho as [Ho|Ho]; [left|by right]. apply not_elem_of_dom. rewrite Hd. by apply not_elem_of_dom.
Qed.

Lemma keeps_us_sub own us us' m m' : us ⊆ us' → keeps_us own us' m m' → keeps_us own us m m'.
Proof.
  intros Hs H p Hp Ho. apply (H p Hp). destruct Ho as [Ho|(va & fl & Ho)]; [by left|right; exists va, fl; by eapply lookup_weaken].
Qed.

Lemma without_subseteq a b us : without a b us ⊆ us.
Proof. apply map_filter_subseteq. Qed.

(** Every round frees what there is at [a] and goes on at a later page. *)
Lemma pages_left a a' b : a + PGSIZE ≤ a' → a < b →
  (Z.to_nat ((b - a') / PGSIZE + 1) < Z.to_nat ((b - a) / PGSIZE + 1))%nat.
Proof.
  intros Ha' Hb. assert ((b - a') / PGSIZE ≤ (b - a) / PGSIZE - 1).
  { replace ((b - a) / PGSIZE - 1) with ((b - a + (-1) * PGSIZE) / PGSIZE) by (rewrite Z.div_add; unfold PGSIZE; lia).
    apply Z.div_le_mono; unfold PGSIZE in *; lia. }
  assert (0 ≤ (b - a) / PGSIZE) by (apply Z.div_pos; unfold PGSIZE; lia). lia.
Qed.

Lemma deallocuvm_loop_ok pgdir ts oldsz :
  oldsz ≤ KERNBASE →
  ∀ fuel a k l own us, as_inv k l own pgdir ts us → aligned a → 0 ≤ a → (Z.to_nat ((oldsz - a) / PGSIZE + 1) < fuel)%nat →
  ∃ k' l' own', deallocuvm_loop me kend fuel pgdir a oldsz k = Done (tt, k') ∧
    as_inv k' l' own' pgdir ts (without a oldsz us) ∧ dom own' = dom own ∧
    keeps_us own (without a oldsz us) (kmem_mem k) (kmem_mem k').
Proof.
  intros Hold fuel. induction fuel as [|fuel IH]; intros a k l own us Hi Hal H0 Hfuel; [lia|].
  cbn [deallocuvm_loop]. destruct (Z.ltb_spec a oldsz) as [Hlt|Hge].
  2:{ exists k, l, own. rewrite without_empty by done. split_and!; try done. }
  assert (user_page a) as Hu by (split; [done|lia]). unfold bind at 1.
  rewrite (walkpgdir_find _ _ _ _ _ _ _ Hi) by auto. destruct (ts !! PDX a) as [t|] eqn:Et.
  - assert (t + 4 * PTX a ≠ 0) as Hnz.
    { destruct (as_tables _ _ _ _ _ _ Hi _ _ Et) as [_ Ho]. destruct (as_pages _ _ _ _ _ _ Hi _ _ Ho) as [? _].
      pose proof (PTX_range a). lia. }
    rewrite (proj2 (Z.eqb_neq _ _) Hnz). unfold bind at 1. unfold read32 at 1, gets. unfold bind at 1.
    destruct (next_page a Hu) as [En Han]. rewrite En.
    destruct (dealloc_page _ _ _ _ _ _ a t Hi Et Hu) as (k1 & l1 & own1 & E1 & Hi1 & Hd1 & Hk1). cbv zeta in E1. rewrite E1.
    destruct (IH (a + PGSIZE) k1 _ _ _ Hi1 Han) as (k2 & l2 & own2 & E2 & Hi2 & Hd2 & Hk2);
      [unfold PGSIZE; lia|pose proof (pages_left a (a + PGSIZE) oldsz); lia|].
    rewrite (without_delete a (a + PGSIZE)); [|unfold PGSIZE; lia| |done].
    + exists k2, l2, own2. split; [done|]. split; [done|]. split; [congruence|].
      eapply keeps_us_trans; [apply without_subseteq|exact Hd1|exact Hk1|exact Hk2].
    + intros va [f fl] Hva. destruct (as_frames _ _ _ _ _ _ Hi _ _ _ Hva) as (_ & [Hva' _] & _). by apply between_pages.
  - cbn [Z.eqb]. destruct (skip_table a Hu) as (S1 & S2 & S3). set (a' := u32 _) in *.
    destruct (IH a' k l own us Hi S1) as (k2 & l2 & own2 & E2 & Hi2 & Hd2 & Hk2);
      [unfold PGSIZE in *; lia|pose proof (pages_left a a' oldsz); lia|].
    rewrite (without_skip a a'); [by exists k2, l2, own2|unfold PGSIZE in *; lia|].
    intros va e Hva Hr. destruct (user_table _ _ _ _ _ _ _ _ Hi Hva) as [t Ht]. rewrite (S3 va Hr) in Ht. congruence.
Qed.

Lemma PGROUNDUP_user n : 0 ≤ n ≤ KERNBASE → aligned (PGROUNDUP n) ∧ n ≤ PGROUNDUP n < n + PGSIZE ∧ PGROUNDUP n ≤ KERNBASE.
Proof.
  intros H. destruct (PGROUNDUP_bounds n) as [H1 H2]; [unfold KERNBASE, PGSIZE in *; lia|]. split; [done|]. split; [done|].
  unfold aligned, KERNBASE, PGSIZE in *. pose proof (Z.div_mod (PGROUNDUP n) 4096 ltac:(lia)). lia.
Qed.

Lemma deallocuvm_ok pgdir ts oldsz newsz k l own us :
  as_inv k l own pgdir ts us → 0 ≤ newsz ≤ oldsz → oldsz ≤ KERNBASE →
  ∃ k' l' own', deallocuvm me kend pgdir oldsz newsz k = Done (newsz, k') ∧
    as_inv k' l' own' pgdir ts (without (PGROUNDUP newsz) oldsz us) ∧ dom own' = dom own ∧
    keeps_us own (without (PGROUNDUP newsz) oldsz us) (kmem_mem k) (kmem_mem k').
Proof.
  intros Hi Hn Ho. destruct (PGROUNDUP_user newsz ltac:(lia)) as (R1 & R2 & R3). unfold deallocuvm.
  destruct (Z.leb_spec oldsz newsz).
  { exists k, l, own. rewrite without_empty by lia. replace oldsz with newsz by lia. split_and!; try done. }
  destruct (deallocuvm_loop_ok pgdir ts oldsz Ho (S (Z.to_nat (oldsz / PGSIZE + 1))) (PGROUNDUP newsz) k l own us Hi R1)
    as (k' & l' & own' & E & H'); [lia| |].
  { assert ((oldsz - PGROUNDUP newsz) / PGSIZE ≤ oldsz / PGSIZE) by (apply Z.div_le_mono; unfold PGSIZE in *; lia). lia. }
  exists k', l', own'. unfold bind. by rewrite E.
Qed.

Lemma PGROUNDDOWN_page va x : user_page va → 0 ≤ x < PGSIZE → PGROUNDDOWN (u32 (va + x)) = va.
Proof.
  intros [Ha Hv] Hx. unfold aligned, KERNBASE in *. rewrite u32_small by (unfold PGSIZE in *; lia).
  rewrite PGROUNDDOWN_eq. unfold PGSIZE in *. rewrite Z.add_mod, Ha, Z.add_0_l, Z.mod_mod, Z.mod_small by lia. lia.
Qed.

(** [mappages] of one user page. *)
Lemma map_page k l own pgdir ts us va f perm :
  as_inv k l own pgdir ts us → user_page va → us !! va = None → own !! f = None → page_ok kend f → 0 ≤ perm < PGSIZE →
  (l = [] ∧ mappages me pgdir va PGSIZE (V2P f) perm k = Done (-1, k)) ∨
  ∃ k' l' own' ts', mappages me pgdir va PGSIZE (V2P f) perm k = Done (0, k') ∧
    as_inv k' l' (<[f := Frame va]> own') pgdir ts' (<[va := (f, Z.lor perm PTE_P)]> us) ∧
    grows own own' ts ts' ∧ keeps own (kmem_mem k) (kmem_mem k') ∧
    ∀ va', 0 ≤ va' < 2 ^ 32 → aligned va' → va' ≠ va → entry (kmem_mem k') ts' va' = entry (kmem_mem k) ts va'.
Proof.
  intros Hi Hu Hn Hof Hf Hp. pose proof (PGROUNDDOWN_page va 0 Hu ltac:(done)) as E1. rewrite Z.add_0_r in E1.
  pose proof (PGROUNDDOWN_page va (PGSIZE - 1) Hu ltac:(done)) as E2. rewrite Z.add_sub_assoc in E2.
  unfold mappages. rewrite E1, E2, Z.sub_diag. cbn [u32 Z.modulo Z.div Z.to_nat Z.div_eucl]. change (Z.to_nat (u32 0 / PGSIZE)) with 0%nat.
  cbn [mappages_loop].
  destruct (walkpgdir_alloc _ _ _ _ _ _ va Hi) as [(Et & -> & E)|(k1 & l1 & own1 & ts1 & t & E & Hi1 & Et & Hg & Hk & He)];
    [left; unfold bind; by rewrite E|right]. unfold bind at 1. rewrite E.
  destruct (as_tables _ _ _ _ _ _ Hi1 _ _ Et) as [_ Hot]. pose proof (as_pages _ _ _ _ _ _ Hi1 _ _ Hot) as Hpt.
  rewrite (proj2 (Z.eqb_neq _ 0)) by (destruct Hpt; pose proof (PTX_range va); lia).
  pose proof (as_pte _ _ _ _ _ _ Hi1 va Hu) as Hpte. rewrite Hn in Hpte. unfold entry_is, entry in Hpte. rewrite Et in Hpte.
  unfold bind at 1, read32, gets. rewrite Hpte, Z.eqb_refl. cbn [Z.eqb negb]. unfold bind, write32, modify, ret.
  assert (own1 !! f = None) as Hof1 by (apply not_elem_of_dom; rewrite (gr_dom _ _ _ _ Hg); by apply not_elem_of_dom).
  assert (0 ≤ Z.lor perm PTE_P < PGSIZE) as Hfl.
  { by apply (lor_bound 12). }
  destruct (page_ok_v2p f Hf) as (V1 & V2 & V3).
  rewrite <-Z.lor_assoc, aligned_lor, (Z.eqb_refl va) by done.
  eexists _, l1, own1, ts1. split; [done|]. split; [|split; [done|split]].
  - apply as_map; try done. by rewrite land_lor_r.
  - intros p Hpp Hop a Ha. cbn [set_kmem_mem kmem_mem]. rewrite store32_other; [by apply (Hk p)|].
    pose proof (page_word t (PTX va) Hpt (PTX_range va)). destruct (page_ok_disjoint kend t p Hpt Hpp); [|lia..].
    intros ->. destruct Hop as [Hop|[va' Hop]]; [|apply (gr_role _ _ _ _ Hg) in Hop; congruence].
    apply not_elem_of_dom in Hop. rewrite <-(gr_dom _ _ _ _ Hg) in Hop. apply not_elem_of_dom in Hop. congruence.
  - intros va' Hr Ha Hne. rewrite <-He. cbn [set_kmem_mem kmem_mem].
    apply (base_set_entry _ _ _ _ _ va t _ (as_base _ _ _ _ _ _ Hi1) Et (user_page_range _ Hu)); try done. unfold PHYSTOP, PGSIZE in *; lia.
Qed.

(** *** Growing *)

Definition zero_page (m : mem) (f : Z) : Prop := ∀ a, f ≤ a < f + PGSIZE → m a = 0.

(** A page from [kalloc], filled with zeros, that belongs to nobody yet. *)
Lemma fresh_page k f l own pgdir ts us :
  as_inv k (f :: l) own pgdir ts us →
  ∃ k0 k', kalloc me k = Done (f, k0) ∧ on_mem (memset f 0 PGSIZE) k0 = Done (tt, k') ∧ f ≠ 0 ∧
    page_ok kend f ∧ own !! f = Some Free ∧ as_inv k' l (delete f own) pgdir ts us ∧ zero_page (kmem_mem k') f ∧
    only_page f (kmem_mem k) (kmem_mem k').
Proof.
  intros Hi. destruct (as_kalloc _ _ _ _ _ _ _ Hi) as (k1 & E1 & Hm1 & Hp & Hi1 & Hfree).
  assert (f ≠ 0) as H0 by (destruct Hp; lia).
  assert (∀ a, memset f 0 PGSIZE (kmem_mem k1) a = if decide (f ≤ a < f + PGSIZE) then 0 else kmem_mem k1 a) as Hm
    by (intros a; by rewrite memset_spec by (unfold PGSIZE; lia)).
  eexists _, _. split; [exact E1|]. split; [done|]. cbn [kmem_mem set_kmem_mem].
  split_and!; try done.
  - apply (as_write_page _ _ _ _ _ _ f); [done|done|left; apply lookup_delete_eq|].
    intros a Ha. rewrite Hm. case_decide; [lia|done].
  - intros a Ha. rewrite Hm. by rewrite decide_True.
  - intros a Ha. rewrite Hm, <-Hm1. case_decide; [lia|done].
Qed.

Lemma only_keeps_us own us ts pgdir k l f m m' :
  as_inv k l own pgdir ts us → own !! f = Some Free → page_ok kend f → only_page f m m' → keeps_us own us m m'.
Proof.
  intros Hi Hf Hp Hm p Hpp Ho a Ha. apply Hm. destruct (page_ok_disjoint kend f p Hp Hpp); [|lia..].
  intros ->. destruct Ho as [Ho|(va & fl & Ho)]; [congruence|].
  destruct (as_frames _ _ _ _ _ _ Hi _ _ _ Ho) as (Ho' & _). congruence.
Qed.

(** One page more, if there is memory. *)
Lemma alloc_page k l own pgdir ts us a :
  as_inv k l own pgdir ts us → user_page a → us !! a = None →
  (l = []) ∨
  ∃ f l' k0 k1, l = f :: l' ∧ kalloc me k = Done (f, k0) ∧ on_mem (memset f 0 PGSIZE) k0 = Done (tt, k1) ∧
    own !! f = Some Free ∧ f ≠ 0 ∧ page_ok kend f ∧ as_inv k1 l' (delete f own) pgdir ts us ∧ keeps_us own us (kmem_mem k) (kmem_mem k1) ∧
    ((l' = [] ∧ mappages me pgdir a PGSIZE (V2P f) (Z.lor PTE_W PTE_U) k1 = Done (-1, k1)) ∨
     ∃ k2 l2 own2 ts2, mappages me pgdir a PGSIZE (V2P f) (Z.lor PTE_W PTE_U) k1 = Done (0, k2) ∧
       as_inv k2 l2 own2 pgdir ts2 (<[a := (f, 7)]> us) ∧ dom own2 = dom own ∧ ts ⊆ ts2 ∧
       zero_page (kmem_mem k2) f ∧ keeps_us own us (kmem_mem k) (kmem_mem k2)).
Proof.
  intros Hi Hu Hn. destruct l as [|f l]; [by left|right]. exists f, l.
  destruct (fresh_page _ _ _ _ _ _ _ Hi) as (k0 & k1 & E0 & E1 & H0 & Hp & Hfree & Hi1 & Hz & Hop).
  pose proof (only_keeps_us _ _ _ _ _ _ _ _ _ Hi Hfree Hp Hop) as Hk1. exists k0, k1. split_and!; try done.
  destruct (map_page _ _ _ _ _ _ a f (Z.lor PTE_W PTE_U) Hi1 Hu Hn (lookup_delete_eq _ _) Hp ltac:(done))
    as [[-> E2]|(k2 & l2 & own2 & ts2 & E2 & Hi2 & Hg & Hk & _)]; [by left|right].
  exists k2, l2, (<[f := Frame a]> own2), ts2. split; [done|]. split; [exact Hi2|]. split; [|split; [apply Hg|split]].
  - rewrite dom_insert_L, (gr_dom _ _ _ _ Hg), dom_delete_L. apply elem_of_dom_2 in Hfree.
    apply set_eq. intros x. rewrite elem_of_union, elem_of_difference, elem_of_singleton.
    destruct (decide (x = f)) as [->|]; naive_solver.
  - intros x Hx. rewrite (Hk f Hp (or_introl (lookup_delete_eq _ _)) x Hx). by apply Hz.
  - intros p Hpp Ho x Hx. rewrite (Hk p Hpp); [by apply (Hk1 p)| |done].
    destruct Ho as [Ho|(va & fl & Ho)]; [left; rewrite lookup_delete_None; by right|right; exists va].
    apply (as_frames _ _ _ _ _ _ Hi1 _ _ _ Ho).
Qed.

(** What a successful [allocuvm] added: pages of zeros from the free list. *)
Definition added (own : gmap Z role) (us us' : gmap Z (Z * Z)) (m' : mem) (a b : Z) : Prop :=
  (∀ va, us' !! va = us !! va ∨ (a ≤ va < b ∧ us !! va = None)) ∧
  ∀ va, user_page va → a ≤ va < b → ∃ f, us' !! va = Some (f, 7) ∧ is_Some (own !! f) ∧ zero_page m' f.

Lemma without_insert a b us va e : a ≤ va < b → without a b (<[va := e]> us) = without a b us.
Proof using Type.
  clear kern.
  intros Hva. apply map_eq. intros x. apply option_eq. intros y. unfold without.
  rewrite !map_lookup_filter_Some. destruct (decide (x = va)) as [->|]; [|by rewrite lookup_insert_ne].
  cbn. naive_solver lia.
Qed.

Lemma added_cons own own2 us us' f m m' a b pgdir k l ts :
  user_page a → a < b → us !! a = None → dom own2 = dom own → as_inv k l own2 pgdir ts (<[a := (f, 7)]> us) → zero_page m f →
  keeps_us own2 (<[a := (f, 7)]> us) m m' →
  added own2 (<[a := (f, 7)]> us) us' m' (a + PGSIZE) b → added own us us' m' a b.
Proof.
  intros Hu Hb Hn Hd Hi Hz Hk [H1 H2]. destruct (as_frames _ _ _ _ _ _ Hi a f 7 (lookup_insert_eq _ _ _)) as (Ho & _ & _).
  pose proof (as_pages _ _ _ _ _ _ Hi _ _ Ho) as Hpf. split.
  - intros va. destruct (decide (va = a)) as [->|Hne]; [right; split; [lia|done]|].
    destruct (H1 va) as [E|[E1 E2]]; [left; by rewrite E, lookup_insert_ne|right].
    rewrite lookup_insert_ne in E2 by done. unfold PGSIZE in *. split; [lia|done].
  - intros va Hva Hr. destruct (decide (va = a)) as [->|Hne].
    + exists f. destruct (H1 a) as [E|[E1 _]]; [|unfold PGSIZE in *; lia]. rewrite E, lookup_insert_eq. split; [done|]. split.
      * apply elem_of_dom. rewrite <-Hd. by eapply elem_of_dom_2.
      * intros x Hx. rewrite (Hk f Hpf); [by apply Hz| |done]. right. exists a, 7. apply lookup_insert_eq.
    + destruct (H2 va Hva) as (f' & E & Hs & Hz'); [|exists f'; split; [done|split; [|done]]].
      * pose proof (between_pages a va (proj1 Hu) (proj1 Hva)). lia.
      * apply elem_of_dom. rewrite <-Hd. by apply elem_of_dom.
Qed.

Lemma keeps_us_freed own us us' f m m1 m3 m4 k l pgdir ts :
  as_inv k l own pgdir ts us → own !! f = Some Free → page_ok kend f → us' ⊆ us →
  keeps_us own us m m1 → keeps_us (delete f own) us' m1 m3 → only_page f m3 m4 → keeps_us own us' m m4.
Proof.
  intros Hi Hf Hpf Hs Hk1 Hk3 Hop p Hp Ho x Hx.
  assert (own !! p = None ∨ ∃ va fl, us !! va = Some (p, fl)) as Ho'
    by (destruct Ho as [?|(va & fl & ?)]; [by left|right; exists va, fl; by eapply lookup_weaken]).
  assert (p ≠ f) as Hne.
  { intros ->. destruct Ho' as [?|(va & fl & Hu)]; [congruence|]. destruct (as_frames _ _ _ _ _ _ Hi _ _ _ Hu). congruence. }
  rewrite Hop, (Hk3 p Hp), (Hk1 p Hp); try done.
  - destruct Ho as [Ho|Ho]; [left; rewrite lookup_delete_ne by done; done|by right].
  - destruct (page_ok_disjoint kend f p Hpf Hp); [congruence|lia..].
Qed.

(** *** Running out of memory *)

Lemma size_list_to_set_le (L : list Z) : (size (list_to_set L : gset Z) ≤ length L)%nat.
Proof using Type.
  clear. induction L as [|x L IH]; [done|]. cbn [list_to_set length]. rewrite size_union_alt, size_singleton.
  assert (size ((list_to_set L : gset Z) ∖ {[x]}) ≤ size (list_to_set L : gset Z))%nat; [|lia]. apply subseteq_size. set_solver.
Qed.

(** Every page is free or in use. *)
Lemma as_size k l own pgdir ts us :
  as_inv k l own pgdir ts us → (size own ≤ length l + 1025 + size us)%nat.
Proof.
  intros Hi. set (L := l ++ [pgdir] ++ (snd <$> map_to_list ts) ++ ((λ e, fst (snd e)) <$> map_to_list us)).
  assert (dom own ⊆ (list_to_set L : gset Z)) as Hsub.
  { intros p [r Hp]%elem_of_dom. rewrite elem_of_list_to_set. unfold L. rewrite !elem_of_app. pose proof (as_used _ _ _ _ _ _ Hi _ _ Hp) as Hu.
    destruct r as [| |d|va]; cbn in Hu.
    - left. by apply (as_free _ _ _ _ _ _ Hi).
    - right. left. by apply list_elem_of_singleton.
    - do 2 right. left. apply list_elem_of_fmap. exists (d, p). split; [done|]. by apply elem_of_map_to_list.
    - do 3 right. destruct Hu as [fl Hu]. apply list_elem_of_fmap. exists (va, (p, fl)). split; [done|]. by apply elem_of_map_to_list. }
  apply subseteq_size in Hsub. rewrite size_dom in Hsub. pose proof (size_list_to_set_le L) as HL.
  assert (size ts ≤ 1024)%nat as Hts.
  { rewrite <-size_dom. change 1024%nat with (length (seqZ 0 1024)).
    etrans; [|apply size_list_to_set_le]. apply subseteq_size. intros d [t Ht]%elem_of_dom.
    rewrite elem_of_list_to_set, elem_of_seqZ. destruct (as_tables _ _ _ _ _ _ Hi _ _ Ht) as [? _]. unfold NPDENTRIES in *. lia. }
  assert (length L = length l + (1 + (size ts + size us)))%nat as El
    by (unfold L; rewrite !length_app, !length_fmap, !length_map_to_list; done). lia.
Qed.

(** With the pages from [a] to [b] the memory is not enough. *)
Definition exhausted (own : gmap Z role) (us : gmap Z (Z * Z)) (a b : Z) : Prop :=
  ∃ us' : gmap Z (Z * Z), (∀ va, is_Some (us' !! va) → user_page va ∧ (is_Some (us !! va) ∨ a ≤ va < b)) ∧ (size own ≤ 1026 + size us')%nat.

Lemma exhausted_now k own own1 pgdir ts us a b :
  as_inv k [] own1 pgdir ts us → (size own ≤ S (size own1))%nat → exhausted own us a b.
Proof.
  intros Hi Hs. exists us. pose proof (as_size _ _ _ _ _ _ Hi) as H. cbn [length] in H. split; [|lia].
  intros va [[f fl] He]. split; [apply (as_frames _ _ _ _ _ _ Hi _ _ _ He)|left; by eexists].
Qed.

Lemma exhausted_later own own1 us va e a b :
  exhausted own1 (<[va := e]> us) (va + PGSIZE) b → dom own1 = dom own → a = va → va < b → exhausted own us a b.
Proof.
  intros (us' & H1 & H2) Hd -> Hb. exists us'. rewrite <-size_dom, <-Hd, size_dom. split; [|done]. intros v Hv.
  destruct (H1 v Hv) as [Hu [[x [[<- _]|[_ Hx]]%lookup_insert_Some]|Hr]]; (split; [done|]); [right; lia|left; by eexists|right; unfold PGSIZE in *; lia].
Qed.

Lemma allocuvm_loop_ok pgdir oldsz newsz :
  0 ≤ oldsz ≤ newsz → newsz < KERNBASE →
  ∀ fuel a k l own ts us, as_inv k l own pgdir ts us → aligned a → PGROUNDUP oldsz ≤ a →
  (Z.to_nat ((newsz - a) / PGSIZE + 1) < fuel)%nat → (∀ va, a ≤ va < newsz → us !! va = None) →
  ∃ r k' l' own' ts' us', allocuvm_loop me kend fuel pgdir a oldsz newsz k = Done (r, k') ∧
    as_inv k' l' own' pgdir ts' us' ∧ dom own' = dom own ∧ ts ⊆ ts' ∧
    ((r = newsz ∧ added own us us' (kmem_mem k') a newsz ∧ keeps_us own us (kmem_mem k) (kmem_mem k')) ∨
     (r = 0 ∧ us' = without (PGROUNDUP oldsz) newsz us ∧ keeps_us own us' (kmem_mem k) (kmem_mem k') ∧ exhausted own us a newsz)).
Proof.
  intros Hsz Hnew fuel. induction fuel as [|fuel IH]; intros a k l own ts us Hi Hal Hge Hfuel Hnone; [lia|].
  destruct (PGROUNDUP_user oldsz ltac:(lia)) as (R1 & R2 & R3).
  cbn [allocuvm_loop]. destruct (Z.ltb_spec a newsz) as [Hlt|Hdone].
  2:{ exists newsz, k, l, own, ts, us. split_and!; try done. left. split; [done|]. split; [|done]. split; [by left|lia]. }
  assert (user_page a) as Hu by (split; [done|lia]).
  destruct (alloc_page _ _ _ _ _ _ a Hi Hu (Hnone a ltac:(lia)))
    as [->|(f & l1 & k0 & k1 & -> & E0 & E1 & Hfree & Hf0 & Hpf & Hi1 & Hk1 & Hmap)].
  - unfold bind at 1. rewrite (as_kalloc_empty _ _ _ _ _ Hi). cbn [Z.eqb].
    destruct (deallocuvm_ok pgdir ts newsz oldsz k [] own us Hi) as (k2 & l2 & own2 & E2 & Hi2 & Hd2 & Hk2); [lia|lia|].
    unfold bind. rewrite E2. exists 0, k2, l2, own2, ts, (without (PGROUNDUP oldsz) newsz us). split_and!; try done. right.
    split_and!; try done. eapply exhausted_now; [exact Hi|lia].
  - unfold bind at 1. rewrite E0. rewrite (proj2 (Z.eqb_neq f 0)) by done. unfold bind at 1. rewrite E1. unfold bind at 1.
    destruct Hmap as [[-> E2]|(k2 & l2 & own2 & ts2 & E2 & Hi2 & Hd2 & Ht2 & Hz2 & Hk2)]; rewrite E2.
    + cbn [Z.ltb Z.compare]. destruct (deallocuvm_ok pgdir ts newsz oldsz k1 [] _ us Hi1) as (k3 & l3 & own3 & E3 & Hi3 & Hd3 & Hk3); [lia|lia|].
      unfold bind at 1. rewrite E3.
      assert (own3 !! f = None) as Hof.
      { apply not_elem_of_dom. rewrite Hd3. apply not_elem_of_dom, lookup_delete_eq. }
      destruct (as_kfree _ _ _ _ _ _ f Hi3 Hof Hpf) as (k4 & E4 & Hop4 & Hi4). unfold bind. rewrite E4.
      eexists 0, k4, _, _, ts, _. split; [done|]. split; [exact Hi4|]. split; [|split; [done|right; split; [done|split; [done|]]]].
      * rewrite dom_insert_L, Hd3, dom_delete_L. apply elem_of_dom_2 in Hfree. apply set_eq. intros x.
        rewrite elem_of_union, elem_of_difference, elem_of_singleton. destruct (decide (x = f)) as [->|]; naive_solver.
      * split; [eapply keeps_us_freed; [exact Hi|done|done|apply without_subseteq|exact Hk1|exact Hk3|exact Hop4]|].
        eapply exhausted_now; [exact Hi1|]. rewrite map_size_delete_Some by (by eexists). lia.
    + cbn [Z.ltb Z.compare]. destruct (next_page a Hu) as [En Han]. rewrite En.
      destruct (IH (a + PGSIZE) k2 l2 own2 ts2 _ Hi2 Han) as (r & k3 & l3 & own3 & ts3 & us3 & E3 & Hi3 & Hd3 & Ht3 & Hres).
      * unfold PGSIZE. lia.
      * pose proof (pages_left a (a + PGSIZE) newsz). lia.
      * intros va Hva. rewrite lookup_insert_ne by (unfold PGSIZE in *; lia). apply Hnone. unfold PGSIZE in *. lia.
      * exists r, k3, l3, own3, ts3, us3. split; [done|]. split; [done|]. split; [congruence|]. split; [by etrans|].
        assert (us ⊆ <[a := (f, 7)]> us) as Hsub by (apply insert_subseteq; apply Hnone; lia).
        destruct Hres as [(-> & Ha & Hk3)|(-> & -> & Hk3 & Hex)]; [left|right]; (split; [done|]).
        -- split; [apply (added_cons own own2 us us3 f (kmem_mem k2) (kmem_mem k3) a newsz pgdir k2 l2 ts2); try done; apply Hnone; lia|].
           eapply (keeps_us_trans own own2 us us); [done|exact Hd2|exact Hk2|]. by eapply keeps_us_sub.
        -- rewrite without_insert in Hk3 |- * by lia. split; [done|]. split; [|by eapply exhausted_later].
           eapply keeps_us_trans; [apply without_subseteq|exact Hd2|exact Hk2|done].
Qed.

(** *** User memory *)

(** The byte a process sees at [x]. *)
Definition ubyte (m : mem) (us : gmap Z (Z * Z)) (x : Z) : option Z :=
  match us !! PGROUNDDOWN x with Some (f, _) => Some (m (f + x mod PGSIZE)) | None => None end.

Definition user_accessible (us : gmap Z (Z * Z)) (x : Z) : Prop :=
  ∃ f fl, us !! PGROUNDDOWN x = Some (f, fl) ∧ Z.land fl PTE_U ≠ 0.

Lemma PGROUNDDOWN_user x : 0 ≤ x < KERNBASE → user_page (PGROUNDDOWN x) ∧ x = PGROUNDDOWN x + x mod PGSIZE ∧ 0 ≤ x mod PGSIZE < PGSIZE.
Proof.
  intros Hx. rewrite PGROUNDDOWN_eq. pose proof (Z.mod_pos_bound x PGSIZE eq_refl) as Hm.
  pose proof (Z.div_mod x PGSIZE ltac:(done)) as Hd. split; [split|lia].
  - unfold aligned. by rewrite Zminus_mod, Z.mod_mod, Z.sub_diag by done.
  - assert (0 ≤ x / PGSIZE) by (apply Z.div_pos; [lia|done]). unfold PGSIZE in *. lia.
Qed.

Lemma PGROUNDDOWN_in a y : aligned a → 0 ≤ y < PGSIZE → PGROUNDDOWN (a + y) = a ∧ (a + y) mod PGSIZE = y.
Proof.
  intros Ha Hy. rewrite PGROUNDDOWN_eq. unfold aligned in Ha.
  rewrite Z.add_mod, Ha, Z.add_0_l, Z.mod_mod, Z.mod_small by (done || lia). lia.
Qed.

Lemma pte_user f fl : page_ok kend f → 0 ≤ fl < PGSIZE → Z.land (V2P f + fl) PTE_U = Z.land fl PTE_U.
Proof.
  intros Hf Hfl. destruct (page_ok_v2p f Hf) as (V1 & V2 & _).
  assert (∀ x, Z.land x PTE_U = Z.land (Z.land x (Z.ones 3)) PTE_U) as H by (intros x; by rewrite <-Z.land_assoc).
  rewrite H, land_low by (done || lia). by rewrite <-H.
Qed.

Lemma uva2ka_ok k l own pgdir ts us va f fl :
  as_inv k l own pgdir ts us → us !! va = Some (f, fl) →
  uva2ka me pgdir va k = Done (if Z.land fl PTE_U =? 0 then 0 else f, k).
Proof.
  intros Hi Hu. destruct (as_frames _ _ _ _ _ _ Hi _ _ _ Hu) as (Ho & Hva & Hfl). pose proof (as_pages _ _ _ _ _ _ Hi _ _ Ho) as Hpf.
  destruct (user_table _ _ _ _ _ _ _ _ Hi Hu) as [t Et]. destruct (as_tables _ _ _ _ _ _ Hi _ _ Et) as [_ Hot].
  pose proof (as_pages _ _ _ _ _ _ Hi _ _ Hot) as Hpt. pose proof (PTX_range va).
  unfold uva2ka, bind. rewrite (walkpgdir_find _ _ _ _ _ _ _ Hi) by eauto. rewrite Et. unfold deref.
  rewrite (proj2 (Z.eqb_neq _ 0)) by (destruct Hpt; lia). unfold read32, gets.
  pose proof (as_pte _ _ _ _ _ _ Hi va Hva) as He. rewrite Hu in He. unfold entry in He. rewrite Et in He.
  destruct (entry_present _ _ _ He Hpf Hfl) as (P1 & P2 & _). rewrite (proj2 (Z.eqb_neq _ _) P1), P2.
  destruct He as [He _]. rewrite He, pte_user by done. by destruct (Z.land fl PTE_U =? 0).
Qed.

(** Writing [n] bytes, those of [src], into one page of the process. *)
Lemma write_page k l own pgdir ts us x n f fl src m' :
  as_inv k l own pgdir ts us → 0 ≤ x < KERNBASE → us !! PGROUNDDOWN x = Some (f, fl) → 0 ≤ n → x mod PGSIZE + n ≤ PGSIZE →
  (∀ a, m' a = if decide (f + x mod PGSIZE ≤ a < f + x mod PGSIZE + n) then src (a - (f + x mod PGSIZE)) else kmem_mem k a) →
  as_inv (set_kmem_mem m' k) l own pgdir ts us ∧
  (∀ i, 0 ≤ i < n → ubyte m' us (x + i) = Some (src i)) ∧
  (∀ y, 0 ≤ y < KERNBASE → ¬ (x ≤ y < x + n) → ubyte m' us y = ubyte (kmem_mem k) us y) ∧
  only_page f (kmem_mem k) m'.
Proof.
  intros Hi Hx Hu Hn Hfit Hc. destruct (PGROUNDDOWN_user x Hx) as (Hup & Ex & Hm).
  destruct (as_frames _ _ _ _ _ _ Hi _ _ _ Hu) as (Ho & _ & _). pose proof (as_pages _ _ _ _ _ _ Hi _ _ Ho) as Hpf.
  assert (only_page f (kmem_mem k) m') as Hop.
  { intros a Ha. rewrite Hc. rewrite decide_False by lia. done. }
  split; [|split; [|split; [|done]]].
  - apply (as_write_page _ _ _ _ _ _ f); try done. right. by eexists.
  - intros i Hi'. unfold ubyte. destruct (PGROUNDDOWN_in (PGROUNDDOWN x) (x mod PGSIZE + i)) as [E1 E2]; [apply Hup|lia|].
    rewrite Z.add_assoc, <-Ex in E1, E2. rewrite E1, E2, Hu, Hc. rewrite decide_True by lia. do 2 f_equal. lia.
  - intros y Hy Hout. unfold ubyte. destruct (PGROUNDDOWN_user y Hy) as (_ & Ey & Hmy).
    destruct (us !! PGROUNDDOWN y) as [[f' fl']|] eqn:Eu'; [|done]. f_equal.
    destruct (decide (PGROUNDDOWN y = PGROUNDDOWN x)) as [E|Hne].
    + rewrite E, Hu in Eu'. injection Eu' as <- <-. rewrite Hc. rewrite decide_False by lia. done.
    + apply Hop. destruct (as_frames _ _ _ _ _ _ Hi _ _ _ Eu') as (Ho' & _ & _).
      destruct (page_ok_disjoint kend f f'); [done|by eapply (as_pages _ _ _ _ _ _ Hi)|congruence|lia|lia].
Qed.

(** Copying into one page of the process. *)
Lemma copy_page k l own pgdir ts us x p n f fl :
  as_inv k l own pgdir ts us → 0 ≤ x < KERNBASE → us !! PGROUNDDOWN x = Some (f, fl) → 0 ≤ n → x mod PGSIZE + n ≤ PGSIZE →
  let m' := memmove (f + x mod PGSIZE) p n (kmem_mem k) in
  as_inv (set_kmem_mem m' k) l own pgdir ts us ∧
  (∀ i, 0 ≤ i < n → ubyte m' us (x + i) = Some (kmem_mem k (p + i))) ∧
  (∀ y, 0 ≤ y < KERNBASE → ¬ (x ≤ y < x + n) → ubyte m' us y = ubyte (kmem_mem k) us y) ∧
  only_page f (kmem_mem k) m'.
Proof.
  intros Hi Hx Hu Hn Hfit m'. apply (write_page _ _ _ _ _ _ _ _ _ fl (λ i, kmem_mem k (p + i))); try done.
  intros a. unfold m'. rewrite memmove_copied. case_decide; [f_equal; lia|done].
Qed.

Lemma copyout_loop_ok pgdir l own ts us :
  ∀ fuel va p len k, as_inv k l own pgdir ts us → (Z.to_nat len < fuel)%nat → 0 ≤ va → 0 ≤ len → va + len ≤ KERNBASE →
  (∀ x, va ≤ x < va + len → user_accessible us x) →
  (∀ i va f fl, 0 ≤ i < len → us !! va = Some (f, fl) → p + i < f ∨ f + PGSIZE ≤ p + i) →
  ∃ k', copyout_loop me fuel pgdir va p len k = Done (0, k') ∧ as_inv k' l own pgdir ts us ∧
    (∀ i, 0 ≤ i < len → ubyte (kmem_mem k') us (va + i) = Some (kmem_mem k (p + i))) ∧
    (∀ y, 0 ≤ y < KERNBASE → ¬ (va ≤ y < va + len) → ubyte (kmem_mem k') us y = ubyte (kmem_mem k) us y) ∧
    (∀ a, (∀ va f fl, us !! va = Some (f, fl) → a < f ∨ f + PGSIZE ≤ a) → kmem_mem k' a = kmem_mem k a).
Proof.
  intros fuel. induction fuel as [|fuel IH]; intros va p len k Hi Hfuel H0 Hl Hend Hacc Hsrc; [lia|].
  cbn [copyout_loop]. destruct (Z.ltb_spec 0 len) as [Hlt|Hge].
  2:{ exists k. split_and!; try done. intros; lia. }
  destruct (PGROUNDDOWN_user va ltac:(lia)) as (Hup & Ev & Hm). set (va0 := PGROUNDDOWN va) in *.
  destruct (Hacc va ltac:(lia)) as (f & fl & Hu & HU). fold va0 in Hu. unfold bind at 1.
  rewrite (uva2ka_ok _ _ _ _ _ _ _ _ _ Hi Hu), (proj2 (Z.eqb_neq _ _) HU).
  destruct (as_frames _ _ _ _ _ _ Hi _ _ _ Hu) as (Ho & _ & _). pose proof (as_pages _ _ _ _ _ _ Hi _ _ Ho) as Hpf.
  rewrite (proj2 (Z.eqb_neq f 0)) by (destruct Hpf; lia). set (n := Z.min (PGSIZE - (va - va0)) len).
  replace (va - va0) with (va mod PGSIZE) in * by lia. unfold bind, on_mem, modify.
  destruct (copy_page k l own pgdir ts us va p n f fl) as (Hi1 & C1 & C2 & C3); [done|lia|done|lia|lia|].
  set (m1 := memmove (f + va mod PGSIZE) p n (kmem_mem k)) in *. destruct (next_page va0 Hup) as [En _]. rewrite En.
  assert (∀ i, 0 ≤ i < len → m1 (p + i) = kmem_mem k (p + i)) as Hsame by (intros i Hi'; apply C3; by apply (Hsrc i va0 f fl)).
  destruct (decide (n = len)) as [Hn|Hn].
  { destruct fuel as [|fuel]; [lia|]. cbn [copyout_loop]. rewrite Hn, Z.sub_diag. cbn [Z.ltb Z.compare].
    eexists. split; [done|]. split; [exact Hi1|]. cbn [kmem_mem set_kmem_mem]. rewrite <-Hn. split_and!; try done.
    intros a Ha. apply C3. by apply (Ha va0 f fl). }
  assert (va0 + PGSIZE = va + n) as -> by lia.
  destruct (IH (va + n) (p + n) (len - n) (set_kmem_mem m1 k) Hi1) as (k2 & E2 & Hi2 & D1 & D2 & D3); try lia.
  - intros x Hx. apply Hacc. lia.
  - intros i va' f' fl' Hi' Hu'. rewrite <-Z.add_assoc. apply (Hsrc (n + i) va' f' fl'); [lia|done].
  - exists k2. split; [done|]. split; [done|]. cbn [kmem_mem set_kmem_mem] in *. split; [|split].
    + intros i Hi'. destruct (decide (i < n)).
      * rewrite D2 by lia. apply C1. lia.
      * replace (va + i) with (va + n + (i - n)) by lia. rewrite D1 by lia. f_equal. rewrite <-Hsame by lia. f_equal. lia.
    + intros y Hy Hout. rewrite D2 by lia. apply C2; lia.
    + intros a Ha. rewrite D3 by done. apply C3. by apply (Ha va0 f fl).
Qed.

Lemma allocuvm_ok k l own pgdir ts us oldsz newsz :
  as_inv k l own pgdir ts us → 0 ≤ oldsz ≤ newsz → newsz < KERNBASE →
  (∀ va, PGROUNDUP oldsz ≤ va < newsz → us !! va = None) →
  ∃ r k' l' own' ts' us', allocuvm me kend pgdir oldsz newsz k = Done (r, k') ∧
    as_inv k' l' own' pgdir ts' us' ∧ dom own' = dom own ∧ keeps_us own us (kmem_mem k) (kmem_mem k') ∧
    ((r = newsz ∧ added own us us' (kmem_mem k') (PGROUNDUP oldsz) newsz) ∨ (r = 0 ∧ us' = us ∧ exhausted own us (PGROUNDUP oldsz) newsz)).
Proof.
  intros Hi Hsz Hnew Hnone. destruct (PGROUNDUP_user oldsz ltac:(lia)) as (R1 & R2 & R3). unfold allocuvm.
  destruct (Z.leb_spec KERNBASE newsz); [lia|]. destruct (Z.ltb_spec newsz oldsz); [lia|].
  destruct (allocuvm_loop_ok pgdir oldsz newsz Hsz Hnew (S (Z.to_nat ((newsz - oldsz) / PGSIZE + 1))) (PGROUNDUP oldsz) k l own ts us)
    as (r & k' & l' & own' & ts' & us' & E & Hi' & Hd & _ & H'); try done.
  { assert ((newsz - PGROUNDUP oldsz) / PGSIZE ≤ (newsz - oldsz) / PGSIZE) by (apply Z.div_le_mono; unfold PGSIZE in *; lia). lia. }
  exists r, k', l', own', ts', us'. split; [done|]. split; [done|]. split; [done|].
  assert (without (PGROUNDUP oldsz) newsz us = us) as Hw.
  { apply map_filter_id. intros va e He Hr. cbn in Hr. by rewrite (Hnone va Hr) in He. }
  destruct H' as [(-> & Ha & Hk)|(-> & -> & Hk & Hex)]; [split; [done|by left]|].
  rewrite Hw in *. split; [done|by right].
Qed.

(** ** Properties *)

(** C14: [allocuvm] grows an address space all or nothing.  Either it returns
    the new size and every page from the old size to the new one is mapped,
    writable and accessible to the user, to a page of zeros of its own; or it
    returns 0 because the memory is exhausted (at most 1026 pages are left
    besides those mapped), and the user pages are what they were.  In both cases no page is lost or used twice, and nothing that was
    there before, in user memory or elsewhere, changes. *)
Theorem allocuvm_all_or_nothing k l own pgdir ts us oldsz newsz :
  as_inv k l own pgdir ts us → 0 ≤ oldsz ≤ newsz → newsz < KERNBASE →
  (∀ va, PGROUNDUP oldsz ≤ va < newsz → us !! va = None) →
  ∃ r k' l' own' ts' us', allocuvm me kend pgdir oldsz newsz k = Done (r, k') ∧
    as_inv k' l' own' pgdir ts' us' ∧ dom own' = dom own ∧ keeps_us own us (kmem_mem k) (kmem_mem k') ∧
    ((r = newsz ∧ added own us us' (kmem_mem k') (PGROUNDUP oldsz) newsz) ∨ (r = 0 ∧ us' = us ∧ exhausted own us (PGROUNDUP oldsz) newsz)).
Proof. apply allocuvm_ok. Qed.

(** [copyout] puts the bytes where the process sees them: if the pages
    from [va] to [va + len] are mapped and accessible to the user, then after
    [copyout] the process reads there the [len] bytes at [p], whatever pages
    they are spread over, and nothing else in its memory or outside changes. *)
Theorem copyout_correct k l own pgdir ts us va p len :
  as_inv k l own pgdir ts us → 0 ≤ va → 0 ≤ len → va + len ≤ KERNBASE →
  (∀ x, va ≤ x < va + len → user_accessible us x) →
  (∀ i va f fl, 0 ≤ i < len → us !! va = Some (f, fl) → p + i < f ∨ f + PGSIZE ≤ p + i) →
  ∃ k', copyout me pgdir va p len k = Done (0, k') ∧ as_inv k' l own pgdir ts us ∧
    (∀ i, 0 ≤ i < len → ubyte (kmem_mem k') us (va + i) = Some (kmem_mem k (p + i))) ∧
    (∀ y, 0 ≤ y < KERNBASE → ¬ (va ≤ y < va + len) → ubyte (kmem_mem k') us y = ubyte (kmem_mem k) us y) ∧
    (∀ a, (∀ va f fl, us !! va = Some (f, fl) → a < f ∨ f + PGSIZE ≤ a) → kmem_mem k' a = kmem_mem k a).
Proof. intros Hi H0 Hl Hend Hacc Hsrc. apply copyout_loop_ok; try done. lia. Qed.

(** A page of a directory entry without a table: [uva2ka] follows a null pointer. *)
Lemma uva2ka_null k l own pgdir ts us va :
  as_inv k l own pgdir ts us → ts !! PDX va = None → uva2ka me pgdir va k = Fail (EOob "null").
Proof.
  intros Hi Ht. unfold uva2ka, bind. rewrite (walkpgdir_find _ _ _ _ _ _ _ Hi) by auto. by rewrite Ht.
Qed.
End spec.
Arguments as_inv : clear implicits.

(** ** A small address space

    A directory, a table for the first 4 MB, and one user page at 0. *)

Definition demo_end : Z := 0x80200000.
Definition demo_dir : Z := 0x80400000.
Definition demo_table : Z := 0x80401000.
Definition demo_frame : Z := 0x80402000.
Definition demo_kmem : kmem := mk_kmem (initlock "kmem") 1 0 (λ _, 0).

Lemma demo_page p : p ∈ [demo_dir; demo_table; demo_frame] → page_ok demo_end p.
Proof. rewrite !elem_of_cons, elem_of_nil. intros [->|[->|[->|[]]]]; by vm_compute. Qed.

Definition demo_kern (va : Z) : option Z := None.

Lemma demo_as0 : as_inv demo_end demo_kern demo_kmem [] {[demo_dir := Dir]} demo_dir ∅ ∅.
Proof.
  split.
  - split; [done|constructor|constructor|done].
  - intros p r [<- _]%lookup_singleton_Some. apply demo_page. by left.
  - intros p. rewrite elem_of_nil, lookup_singleton_Some. split; [done|]. by intros [_ ?].
  - apply lookup_singleton_eq.
  - intros d t. by rewrite lookup_empty.
  - intros va f fl. by rewrite lookup_empty.
  - intros d _. rewrite lookup_empty. by rewrite load32_zero.
  - intros va _. rewrite lookup_empty. unfold entry. by rewrite lookup_empty.
  - by intros p r [<- <-]%lookup_singleton_Some.
  - done.
Qed.

Definition demo_kmem1 : kmem := set_kmem_mem (store32 (kmem_mem demo_kmem) (demo_dir + 4 * 0) (V2P demo_table + 7)) demo_kmem.
Definition demo_kmem2 : kmem := set_kmem_mem (store32 (kmem_mem demo_kmem1) (demo_table + 4 * PTX 0) (V2P demo_frame + 7)) demo_kmem1.
Definition demo_own : gmap Z role := <[demo_frame := Frame 0]> (<[demo_table := Table 0]> {[demo_dir := Dir]}).

Lemma demo_as : as_inv demo_end demo_kern demo_kmem2 [] demo_own demo_dir {[0 := demo_table]} {[0 := (demo_frame, 7)]}.
Proof.
  assert (KERNBASE < demo_end) as Hk by done.
  apply (as_map demo_end Hk demo_kmem1 [] _ demo_dir _ ∅ 0 demo_table demo_frame 7); try done.
  by refine (proj1 (as_add_table demo_end Hk demo_kmem [] _ demo_dir ∅ ∅ demo_table 0 demo_as0 _ _ _ _ _)).
Qed.

Lemma allocuvm_all_or_nothing_witness :
  ∃ r k', allocuvm 0 demo_end demo_dir 4096 8192 demo_kmem2 = Done (r, k') ∧ (r = 8192 ∨ r = 0).
Proof.
  destruct (allocuvm_all_or_nothing 0 demo_end ltac:(done) _ _ _ _ _ _ 4096 8192 demo_as)
    as (r & k' & l' & own' & ts' & us' & E & _ & _ & _ & H).
  - lia.
  - done.
  - intros va Hva. rewrite lookup_singleton_None. change (PGROUNDUP 4096) with 4096 in Hva. lia.
  - exists r, k'. split; [exact E|]. destruct H as [[-> _]|[-> _]]; [by left|by right].
Defined.

(** The first bytes of the kernel's page directory, copied to the process. *)
Lemma copyout_correct_witness :
  ∃ k', copyout 0 demo_dir 100 demo_dir 8 demo_kmem2 = Done (0, k') ∧
    ubyte (kmem_mem k') {[0 := (demo_frame, 7)]} 101 = Some (kmem_mem demo_kmem2 (demo_dir + 1)).
Proof.
  destruct (copyout_correct 0 demo_end ltac:(done) _ _ _ _ _ _ 100 demo_dir 8 demo_as) as (k' & E & _ & H & _).
  - lia.
  - lia.
  - done.
  - intros x Hx. exists demo_frame, 7. split; [|done]. rewrite PGROUNDDOWN_eq, Z.mod_small by (unfold PGSIZE; lia).
    by rewrite Z.sub_diag, lookup_singleton_eq.
  - intros i va f fl Hi [<- [= <- <-]]%lookup_singleton_Some. left. unfold demo_dir, demo_frame. lia.
  - exists k'. split; [exact E|]. apply (H 1). lia.
Defined.
