(* ===== verification/VmLife.v ===== *)
(** * Address spaces from [setupkvm] to [freevm]

    What the functions of vm.c that create, copy, fill and free a whole
    address space promise: no page is lost on any path, memory outside the
    pages they own stays as it is, and the kernel is mapped as the table
    [kmap] says. *)

From S2P Require Import Prelude CString Spinlock Mmu Kalloc Vm VmSpec.

(** ** The size of an address space *)

(** The pages of [us] are those below [sz]. *)
Definition sized (us : gmap Z (Z * Z)) (sz : Z) : Prop := ∀ va, user_page va → is_Some (us !! va) ↔ va < sz.

Lemma PGROUNDUP_lt va n : 0 ≤ n ≤ KERNBASE → aligned va → va < PGROUNDUP n ↔ va < n.
Proof.
  intros Hn Ha. destruct (PGROUNDUP_user n Hn) as (H1 & H2 & _). split; [|lia]. intros H.
  pose proof (between_pages va (PGROUNDUP n) Ha H1). lia.
Qed.

Lemma sized_added own us us' m oldsz newsz :
  0 ≤ oldsz ≤ newsz → newsz ≤ KERNBASE → sized us oldsz →
  added own us us' m (PGROUNDUP oldsz) newsz → sized us' newsz.
Proof.
  intros Ho Hn Hs [H1 H2] va Hva. specialize (Hs va Hva). pose proof (PGROUNDUP_lt va oldsz ltac:(lia) (proj1 Hva)) as Hr. split.
  - intros [e He]. destruct (H1 va) as [E|[? _]]; [|lia]. rewrite He in E. assert (va < oldsz) by (apply Hs; by rewrite <-E). lia.
  - intros Hlt. destruct (decide (va < oldsz)) as [Hlo|Hlo].
    + destruct (H1 va) as [->|[? _]]; [by apply Hs|]. apply Hr in Hlo. lia.
    + destruct (H2 va Hva) as (f & -> & _); [|done]. assert (¬ va < PGROUNDUP oldsz) by (by rewrite Hr). lia.
Qed.

Lemma sized_without us oldsz newsz :
  0 ≤ newsz ≤ oldsz → oldsz ≤ KERNBASE → sized us oldsz → sized (without (PGROUNDUP newsz) oldsz us) newsz.
Proof.
  intros Hn Ho Hs va Hva. specialize (Hs va Hva). pose proof (PGROUNDUP_lt va newsz ltac:(lia) (proj1 Hva)) as Hr.
  unfold is_Some, without. setoid_rewrite map_lookup_filter_Some. cbn. split.
  - intros (e & He & Hout). assert (va < oldsz) by (apply Hs; by exists e). apply Hr. lia.
  - intros Hlt. apply Hr in Hlt as Hlt'. destruct (proj2 Hs) as [e He]; [lia|]. exists e. split; [done|lia].
Qed.

Section life.
Context (me : nat) (kend data : Z) (Hkend : KERNBASE < kend).

(** The pages not in [own] keep their contents. *)
Definition leaves (own : gmap Z role) (m m' : mem) : Prop :=
  ∀ p, page_ok kend p → own !! p = None → ∀ a, p ≤ a < p + PGSIZE → m' a = m a.

Lemma leaves_refl own m : leaves own m m.
Proof. done. Qed.

Lemma leaves_trans own own' m m' m'' : dom own' = dom own → leaves own m m' → leaves own' m' m'' → leaves own m m''.
Proof.
  intros Hd H1 H2 p Hp Ho a Ha. rewrite (H2 p Hp); [by apply (H1 p Hp)| |done].
  apply not_elem_of_dom. rewrite Hd. by apply not_elem_of_dom.
Qed.

Lemma leaves_keeps_us own us m m' : keeps_us kend own us m m' → leaves own m m'.
Proof. intros H p Hp Ho. apply H; [done|by left]. Qed.

Lemma leaves_keeps own m m' : keeps kend own m m' → leaves own m m'.
Proof. intros H p Hp Ho. apply H; [done|by left]. Qed.

Lemma leaves_page own p m m' : page_ok kend p → is_Some (own !! p) → only_page p m m' → leaves own m m'.
Proof.
  intros Hp [r Hr] Hm q Hq Ho a Ha. apply Hm. destruct (page_ok_disjoint kend p q Hp Hq); [congruence|lia..].
Qed.

(** ** [freevm] *)

(** The loop of [freevm] at entry [i]: the tables before it are free. *)
Record fv_inv (i : Z) (k : kmem) (l : list Z) (own : gmap Z role) (pgdir : Z) (ts : gmap Z Z) : Prop := {
  fv_kmem : kmem_inv kend k l;
  fv_pages p r : own !! p = Some r → page_ok kend p;
  fv_free p : p ∈ l ↔ own !! p = Some Free;
  fv_dir : own !! pgdir = Some Dir;
  fv_tables d t : ts !! d = Some t → i ≤ d → d < NPDENTRIES ∧ own !! t = Some (Table d);
  fv_pde d : i ≤ d < NPDENTRIES →
    match ts !! d with
    | Some t => load32 (kmem_mem k) (pgdir + 4 * d) = V2P t + 7
    | None => Z.land (load32 (kmem_mem k) (pgdir + 4 * d)) PTE_P = 0
    end;
  fv_used p r : own !! p = Some r →
    match r with Free => True | Dir => p = pgdir | Table d => i ≤ d ∧ ts !! d = Some p | Frame _ => False end;
}.

Lemma fv_start kern k l own pgdir ts : as_inv kend kern k l own pgdir ts ∅ → fv_inv 0 k l own pgdir ts.
Proof.
  intros [H1 H2 H3 H4 H5 H6 H7 H8 H9 HA]. split; try done.
  - intros d t Ht _. destruct (H5 d t Ht) as [? ?]. split; [lia|done].
  - intros p r Hp. apply H9 in Hp. destruct r as [| |d|va]; try done; cbn in Hp.
    + destruct (H5 _ _ Hp). split; [lia|done].
    + by destruct Hp as [fl Hp].
Qed.

Lemma fv_skip i k l own pgdir ts : fv_inv i k l own pgdir ts → ts !! i = None → fv_inv (i + 1) k l own pgdir ts.
Proof.
  intros [H1 H2 H3 H4 H5 H6 H7] Hn. split; try done.
  - intros d t Ht Hd. apply H5; [done|lia].
  - intros d Hd. apply H6. lia.
  - intros p r Hp. apply H7 in Hp. destruct r as [| |d|va]; try done. destruct Hp as [Hi Hp]. split; [|done].
    destruct (decide (d = i)) as [->|]; [congruence|lia].
Qed.

(** The table of entry [i] is freed. *)
Lemma fv_table i k l own pgdir ts t :
  fv_inv i k l own pgdir ts → ts !! i = Some t → 0 ≤ i →
  ∃ k', kfree me kend t k = Done (tt, k') ∧ fv_inv (i + 1) k' (t :: l) (<[t := Free]> own) pgdir ts ∧
    leaves own (kmem_mem k) (kmem_mem k').
Proof.
  intros [H1 H2 H3 H4 H5 H6 H7] Ht Hi0. destruct (H5 i t Ht ltac:(lia)) as [Hi Ho]. pose proof (H2 _ _ Ho) as Hp.
  assert (t ∉ l) as Hnl by (rewrite H3; congruence).
  destruct (kfree_inv me kend t k l H1 Hp Hnl) as (k' & E & Hk' & _ & Hm). exists k'. split; [done|].
  split; [|by eapply leaves_page]. split; try done.
  - intros q r [[<- _]|[_ Hq]]%lookup_insert_Some; [done|by eapply H2].
  - intros q. by apply free_cons.
  - rewrite lookup_insert_ne by congruence. done.
  - intros d t' Ht' Hd. destruct (H5 d t' Ht' ltac:(lia)) as [? Ho']. split; [done|].
    rewrite lookup_insert_ne; [done|]. intros <-. rewrite Ho in Ho'. injection Ho'. lia.
  - intros d Hd. rewrite (word_frame kend (kmem_mem k) _ t); try done; [apply H6; lia|by eapply H2|congruence|unfold NPDENTRIES in Hd; lia].
  - intros q r [[<- <-]|[Hne Hq]]%lookup_insert_Some; [done|]. apply H7 in Hq as Hu. destruct r as [| |d|va]; try done.
    destruct Hu as [Hid Hu]. split; [|done]. destruct (decide (d = i)) as [->|]; [congruence|lia].
Qed.

Lemma freevm_loop_ok pgdir ts :
  ∀ n i k l own, fv_inv i k l own pgdir ts → 0 ≤ i → i + Z.of_nat n = NPDENTRIES →
  ∃ k' l' own', freevm_loop me kend n pgdir i k = Done (tt, k') ∧ fv_inv NPDENTRIES k' l' own' pgdir ts ∧
    dom own' = dom own ∧ leaves own (kmem_mem k) (kmem_mem k').
Proof.
  intros n. induction n as [|n IH]; intros i k l own Hi H0 Hn.
  { exists k, l, own. assert (i = NPDENTRIES) as -> by lia. by split_and!. }
  cbn [freevm_loop]. unfold bind at 1, read32, gets. pose proof (fv_pde _ _ _ _ _ _ Hi i ltac:(lia)) as He.
  destruct (ts !! i) as [t|] eqn:Et.
  - destruct (fv_tables _ _ _ _ _ _ Hi i t Et ltac:(lia)) as [_ Ho]. pose proof (fv_pages _ _ _ _ _ _ Hi _ _ Ho) as Hp.
    destruct (page_ok_v2p _ Hkend t Hp) as (V1 & V2 & V3).
    destruct (pte_addr_flags (V2P t) 7) as (E1 & _ & E2); [done|done|lia|unfold PHYSTOP in *; lia|].
    rewrite He, E1, E2, V3. destruct (fv_table _ _ _ _ _ _ _ Hi Et H0) as (k1 & Ek & Hi1 & Hl1).
    change (when (negb (Z.land 7 PTE_P =? 0)) (kfree me kend t)) with (kfree me kend t). unfold bind at 1. rewrite Ek.
    destruct (IH (i + 1) k1 _ _ Hi1 ltac:(lia) ltac:(lia)) as (k' & l' & own' & E & Hf & Hd & Hl). exists k', l', own'.
    assert (dom (<[t:=Free]> own) = dom own) as Hdi by (apply dom_insert_lookup_L; by eexists).
    split_and!; [done|done|congruence|by eapply leaves_trans].
  - rewrite He. cbn [Z.eqb negb when]. unfold bind at 1, ret. eapply (IH (i + 1)); [by apply fv_skip|lia|lia].
Qed.

Lemma without_all kern k l own pgdir ts us :
  as_inv kend kern k l own pgdir ts us → without (PGROUNDUP 0) KERNBASE us = ∅.
Proof.
  intros Hi. apply map_empty. intros va. apply eq_None_not_Some. intros [[f fl] He].
  apply map_lookup_filter_Some in He as [He Hn]. apply Hn.
  destruct (as_frames _ _ _ _ _ _ _ Hi _ _ _ He) as (_ & [_ Hr] & _). change (PGROUNDUP 0) with 0. done.
Qed.

(** [freevm] returns every page of the address space to the free list. *)
Lemma freevm_ok kern k l own pgdir ts us :
  as_inv kend kern k l own pgdir ts us →
  ∃ k' l', freevm me kend pgdir k = Done (tt, k') ∧ kmem_inv kend k' l' ∧ (∀ p, p ∈ l' ↔ is_Some (own !! p)) ∧
    leaves own (kmem_mem k) (kmem_mem k').
Proof.
  intros Hi. pose proof (as_dir _ _ _ _ _ _ _ Hi) as Hdir. pose proof (as_pages _ _ _ _ _ _ _ Hi _ _ Hdir) as Hpd.
  unfold freevm. rewrite (proj2 (Z.eqb_neq pgdir 0)) by (destruct Hpd; lia).
  destruct (deallocuvm_ok me kend Hkend pgdir ts KERNBASE 0 k l own us Hi) as (k1 & l1 & own1 & E1 & Hi1 & Hd1 & Hk1);
    [unfold KERNBASE; lia|lia|]. rewrite (without_all _ _ _ _ _ _ _ Hi) in *. unfold bind at 1. rewrite E1.
  destruct (freevm_loop_ok pgdir ts (Z.to_nat NPDENTRIES) 0 k1 l1 own1 (fv_start _ _ _ _ _ _ Hi1)) as (k2 & l2 & own2 & E2 & Hi2 & Hd2 & Hk2);
    [lia|done|]. unfold bind at 1. rewrite E2. destruct Hi2 as [H1 H2 H3 H4 H5 H6 H7].
  assert (pgdir ∉ l2) as Hnl by (rewrite H3; congruence).
  destruct (kfree_inv me kend pgdir k2 l2 H1 Hpd Hnl) as (k3 & E3 & Hk3 & _ & Hm). exists k3, (pgdir :: l2).
  assert (dom own2 = dom own) as Hd by congruence. split_and!; [done|done| |].
  - intros p. rewrite <-elem_of_dom, <-Hd, elem_of_dom, elem_of_cons, H3. split.
    + intros [->|E]; by eexists.
    + intros [r Hr]. apply H7 in Hr as Hu. destruct r as [| |d|va]; [by right|by left| |done].
      destruct Hu as [Hlt Hu]. destruct (H5 _ _ Hu Hlt) as [? _]. lia.
  - eapply leaves_trans; [exact Hd1|by eapply leaves_keeps_us|]. eapply leaves_trans; [exact Hd2|exact Hk2|].
    eapply leaves_page; [exact Hpd|by eexists|exact Hm].
Qed.

(** ** [setupkvm] *)

Lemma as_kern_weaken (kern kern' : Z → option Z) k l own pgdir ts us :
  as_inv kend kern k l own pgdir ts us → (∀ va e, kernel_page va → kern' va = Some e → kern va = Some e) →
  as_inv kend kern' k l own pgdir ts us.
Proof. intros [H1 H2 H3 H4 H5 H6 H7 H8 H9 HA] H. split; try done. intros va e Hva He. apply HA; auto. Qed.

Definition kset (va e : Z) (kern : Z → option Z) : Z → option Z := λ v, if v =? va then Some e else kern v.

(** The pages from [a] to [last] are mapped to those from [pa] on. *)
Definition kset_range (a last pa fl : Z) (kern : Z → option Z) : Z → option Z :=
  λ v, if (a <=? v) && (v <=? last) then Some (pa + (v - a) + fl) else kern v.

(** An entry of the kernel's half is set. *)
Lemma as_map_kern kern k l own pgdir ts us va t e :
  as_inv kend kern k l own pgdir ts us → ts !! PDX va = Some t → kernel_page va → 0 ≤ e < 2 ^ 32 →
  let m' := store32 (kmem_mem k) (t + 4 * PTX va) e in
  as_inv kend (kset va e kern) (set_kmem_mem m' k) l own pgdir ts us ∧ leaves own (kmem_mem k) m'.
Proof.
  intros Hi Ht [Hal Hva] He m'. assert (aligned va ∧ 0 ≤ va < 2 ^ 32) as Hr by (unfold KERNBASE in *; split; [done|lia]).
  destruct (base_set_entry _ _ _ _ _ _ va t e (as_base _ _ _ _ _ _ _ Hi) Ht Hr He) as (E1 & E2 & E3 & E4).
  fold m' in E1, E2, E3, E4. destruct Hi as [H1 H2 H3 H4 H5 H6 H7 H8 H9 HA]. destruct (H5 _ _ Ht) as [_ Ho]. split.
  - split; cbn [kmem_mem set_kmem_mem]; try done.
    + intros d Hd. rewrite E4 by done. by apply H7.
    + intros v [Hv Hv']. rewrite E2; [by apply H8|unfold KERNBASE in *; lia|done|lia].
    + intros v x [Hv Hv'] Hx. unfold kset in Hx. destruct (Z.eqb_spec v va) as [->|Hne]; [congruence|].
      rewrite E2; [by apply HA|unfold KERNBASE in *; lia|done|done].
  - eapply leaves_page; [by eapply H2|by eexists|]. apply only_page_store, PTX_range.
Qed.

Lemma next_kernel_page a last : kernel_page a → kernel_page last → a < last → kernel_page (a + PGSIZE) ∧ a + PGSIZE ≤ last ∧ u32 (a + PGSIZE) = a + PGSIZE.
Proof.
  intros [Ha Hra] [Hl Hrl] Hlt. pose proof (between_pages a last Ha Hl).
  assert (aligned (a + PGSIZE)) by (unfold aligned, PGSIZE in *; by rewrite Z.add_mod, Ha by done).
  unfold PGSIZE, KERNBASE in *. split; [split; [done|unfold KERNBASE; lia]|]. split; [lia|]. apply u32_small. lia.
Qed.

(** What [mappages] of kernel pages leaves: the range is mapped, or the memory
    ran out somewhere. *)
Definition kern_mapped (k : kmem) (own : gmap Z role) (pgdir : Z) (us : gmap Z (Z * Z)) (kern : Z → option Z) (r : result (Z * kmem)) : Prop :=
  ∃ ret k' l' own' ts' kern', r = Done (ret, k') ∧ as_inv kend kern' k' l' own' pgdir ts' us ∧ dom own' = dom own ∧
    leaves own (kmem_mem k) (kmem_mem k') ∧ ((ret = -1 ∧ l' = []) ∨ (ret = 0 ∧ kern' = kern)).

(** One page of [mappages] in the kernel's half. *)
Lemma map_kernel_page kern k l own pgdir ts us a pa perm :
  as_inv kend kern k l own pgdir ts us → kernel_page a → kern a = Some 0 → perm = 0 ∨ perm = PTE_W →
  aligned pa → 0 ≤ pa → pa + PGSIZE ≤ 2 ^ 32 →
  (l = [] ∧ walkpgdir me pgdir a true k = Done (0, k)) ∨
  ∃ k1 pte k' l' own' ts', walkpgdir me pgdir a true k = Done (pte, k1) ∧ pte ≠ 0 ∧ load32 (kmem_mem k1) pte = 0 ∧
    write32 pte (Z.lor (Z.lor pa perm) PTE_P) k1 = Done (tt, k') ∧
    as_inv kend (kset a (pa + (perm + 1)) kern) k' l' own' pgdir ts' us ∧ dom own' = dom own ∧ leaves own (kmem_mem k) (kmem_mem k').
Proof.
  intros Hi Ha Hz Hperm Hpa Hpa0 Hpa1. destruct (walkpgdir_alloc me kend Hkend _ _ _ _ _ _ a Hi)
    as [(_ & -> & E)|(k1 & l1 & own1 & ts1 & t & E & Hi1 & Et & Hg & Hk & He)]; [by left|right].
  destruct (as_tables _ _ _ _ _ _ _ Hi1 _ _ Et) as [_ Hot]. pose proof (as_pages _ _ _ _ _ _ _ Hi1 _ _ Hot) as Hpt.
  pose proof (as_kern _ _ _ _ _ _ _ Hi1 a 0 Ha Hz) as Hpte. unfold entry in Hpte. rewrite Et in Hpte.
  assert (Z.lor (Z.lor pa perm) PTE_P = pa + (perm + 1)) as Ee.
  { rewrite <-Z.lor_assoc. destruct Hperm as [-> | ->]; by apply aligned_lor. }
  destruct (as_map_kern _ _ _ _ _ _ _ a t (pa + (perm + 1)) Hi1 Et Ha) as [Hi2 Hl2].
  { destruct Hperm as [-> | ->]; unfold PGSIZE, PTE_W in *; lia. }
  eexists k1, _, _, l1, own1, ts1. split_and!; [exact E| |exact Hpte|unfold write32, modify; by rewrite Ee|exact Hi2|apply Hg|].
  - destruct Hpt. pose proof (PTX_range a). lia.
  - eapply leaves_trans; [apply Hg|by apply leaves_keeps|exact Hl2].
Qed.

Lemma mappages_kern_loop pgdir us last perm :
  kernel_page last → perm = 0 ∨ perm = PTE_W →
  ∀ n kern k l own ts a pa, as_inv kend kern k l own pgdir ts us → kernel_page a → a + Z.of_nat n * PGSIZE = last →
  (∀ va, kernel_page va → a ≤ va ≤ last → kern va = Some 0) → aligned pa → 0 ≤ pa → pa + (last - a) + PGSIZE ≤ 2 ^ 32 →
  kern_mapped k own pgdir us (kset_range a last pa (perm + 1) kern) (mappages_loop me (S n) pgdir a last pa perm k).
Proof.
  intros Hlast Hperm n. induction n as [|n IH]; intros kern k l own ts a pa Hi Ha Hn Hz Hpa Hpa0 Hpa1.
  - assert (a = last) as -> by lia. cbn [mappages_loop].
    destruct (map_kernel_page kern k l own pgdir ts us last pa perm Hi Ha (Hz last Ha ltac:(lia)) Hperm Hpa Hpa0 ltac:(lia))
      as [[-> E]|(k1 & pte & k' & l' & own' & ts' & E1 & Hp & E2 & E3 & Hi' & Hd & Hl)].
    + exists (-1), k, [], own, ts, kern. unfold bind. rewrite E. by split_and!; [..|left].
    + exists 0, k', l', own', ts', (kset_range last last pa (perm + 1) kern). unfold bind. rewrite E1, (proj2 (Z.eqb_neq pte 0)) by done.
      unfold read32, gets. rewrite E2. change (negb (Z.land 0 PTE_P =? 0)) with false. cbv iota beta. rewrite E3, Z.eqb_refl. split_and!; try done; [|by right].
      eapply as_kern_weaken; [exact Hi'|]. intros va e _ He. rewrite <-He. unfold kset, kset_range.
      destruct (Z.eqb_spec va last), (Z.leb_spec last va), (Z.leb_spec va last); try lia; cbn [andb]; try done. f_equal. lia.
  - assert (a < last) as Hlt by (unfold PGSIZE in *; lia). destruct (next_kernel_page a last Ha Hlast Hlt) as (Ha' & Hle & Eu).
    cbn [mappages_loop]. destruct (map_kernel_page kern k l own pgdir ts us a pa perm Hi Ha (Hz a Ha ltac:(lia)) Hperm Hpa Hpa0 ltac:(lia))
      as [[-> E]|(k1 & pte & k' & l' & own' & ts' & E1 & Hp & E2 & E3 & Hi' & Hd & Hl)].
    + exists (-1), k, [], own, ts, kern. unfold bind. rewrite E. by split_and!; [..|left].
    + unfold bind. rewrite E1, (proj2 (Z.eqb_neq pte 0)) by done. unfold read32, gets. rewrite E2. change (negb (Z.land 0 PTE_P =? 0)) with false. cbv iota beta.
      rewrite E3, (proj2 (Z.eqb_neq a last)), Eu, (u32_small (pa + PGSIZE)) by (unfold PGSIZE in *; lia).
      destruct (IH _ k' l' own' ts' (a + PGSIZE) (pa + PGSIZE) Hi' Ha') as (r & k2 & l2 & own2 & ts2 & kern2 & E & Hi2 & Hd2 & Hl2 & Hr);
        [unfold PGSIZE in *; lia| |unfold aligned, PGSIZE in *; by rewrite Z.add_mod, Hpa by done|unfold PGSIZE in *; lia|lia|].
      { intros va Hvp Hva. unfold kset. rewrite (proj2 (Z.eqb_neq va a)) by (unfold PGSIZE in *; lia). apply Hz; [done|]. unfold PGSIZE in *. lia. }
      destruct Hr as [Hr|[-> ->]]; [exists r, k2, l2, own2, ts2, kern2|exists 0, k2, l2, own2, ts2, (kset_range a last pa (perm + 1) kern)];
        (split_and!; [exact E| |congruence|by eapply leaves_trans|]); [done|by left| |by right].
      eapply as_kern_weaken; [exact Hi2|]. intros va e [Hva Hvr] He. rewrite <-He. unfold kset, kset_range.
      pose proof (between_pages a va (proj1 Ha) Hva). unfold PGSIZE in *.
      destruct (Z.leb_spec (a + 4096) va), (Z.leb_spec va last), (Z.leb_spec a va), (Z.eqb_spec va a); try lia; cbn [andb]; try done; f_equal; lia.
Qed.

(** [mappages] of the kernel's pages from [virt] to [virt + size]. *)
Lemma mappages_kern pgdir us kern k l own ts virt size pa perm :
  as_inv kend kern k l own pgdir ts us → kernel_page virt → aligned size → 0 < size → virt + size ≤ 2 ^ 32 →
  perm = 0 ∨ perm = PTE_W → (∀ va, kernel_page va → virt ≤ va < virt + size → kern va = Some 0) →
  aligned pa → 0 ≤ pa → pa + size ≤ 2 ^ 32 →
  kern_mapped k own pgdir us (kset_range virt (virt + size - PGSIZE) pa (perm + 1) kern) (mappages me pgdir virt size pa perm k).
Proof.
  intros Hi Hv Hs Hs0 Hend Hperm Hz Hpa Hpa0 Hpa1. destruct Hv as [Hva Hvr]. pose proof (Z.div_mod size PGSIZE ltac:(done)) as Hd.
  unfold aligned in Hs. rewrite Hs in Hd. assert (1 ≤ size / PGSIZE) as Hq by (unfold PGSIZE in *; lia).
  assert (kernel_page (virt + size - PGSIZE)) as Hlast.
  { split; [|unfold PGSIZE in *; lia]. unfold aligned. rewrite Zminus_mod, Z.add_mod, Hva, Hs by done. done. }
  unfold mappages. rewrite (u32_small virt), (u32_small (virt + size - 1)) by (unfold KERNBASE in *; lia). rewrite !PGROUNDDOWN_eq. rewrite Hva, Z.sub_0_r.
  replace ((virt + size - 1) mod PGSIZE) with (PGSIZE - 1).
  2: { replace (virt + size - 1) with ((virt + size - PGSIZE) + (PGSIZE - 1)) by lia.
       rewrite Z.add_mod, (proj1 Hlast : _ mod _ = _) by done. done. }
  replace (virt + size - 1 - (PGSIZE - 1)) with (virt + size - PGSIZE) by lia.
  replace (u32 (virt + size - PGSIZE - virt) / PGSIZE) with (size / PGSIZE - 1).
  2: { rewrite u32_small by (unfold PGSIZE, KERNBASE in *; lia). replace (virt + size - PGSIZE - virt) with (size + (-1) * PGSIZE) by lia.
       rewrite Z.div_add by done. lia. }
  apply (mappages_kern_loop pgdir us (virt + size - PGSIZE) perm Hlast Hperm (Z.to_nat (size / PGSIZE - 1)) kern k l own ts); try done;
    [rewrite Z2Nat.id by lia; lia|intros va ? ?; apply Hz; [done|unfold PGSIZE in *; lia]|lia].
Qed.

(** A row of [kmap] and the entries it makes. *)
Definition kmap_row (r : Z * Z * Z * Z) (kern : Z → option Z) : Z → option Z :=
  let '(virt, start, end_, perm) := r in kset_range virt (virt + u32 (end_ - start) - PGSIZE) start (perm + 1) kern.

(** The rows of [kmap] in order: each range is free when it is mapped. *)
Fixpoint kmap_ok (ks : list (Z * Z * Z * Z)) (kern : Z → option Z) : Prop :=
  match ks with
  | [] => True
  | (virt, start, end_, perm) as r :: ks' =>
      let size := u32 (end_ - start) in
      (kernel_page virt ∧ aligned size ∧ 0 < size ∧ virt + size ≤ 2 ^ 32) ∧ (perm = 0 ∨ perm = PTE_W) ∧
      (∀ va, kernel_page va → virt ≤ va < virt + size → kern va = Some 0) ∧
      (aligned start ∧ 0 ≤ start ∧ start + size ≤ 2 ^ 32) ∧ kmap_ok ks' (kmap_row r kern)
  end.

Definition kmap_kern (ks : list (Z * Z * Z * Z)) (kern : Z → option Z) : Z → option Z := foldl (λ f r, kmap_row r f) kern ks.

(** What [setupkvm] leaves: a directory with the kernel's entries and no user
    page, or all memory free again. *)
Definition set_up (k : kmem) (own : gmap Z role) (kern : Z → option Z) (r : result (Z * kmem)) : Prop :=
  ∃ d k' l' own', r = Done (d, k') ∧ leaves own (kmem_mem k) (kmem_mem k') ∧ dom own' = dom own ∧
    ((d = 0 ∧ kmem_inv kend k' l' ∧ (size own ≤ 1025)%nat ∧ ∀ p, p ∈ l' ↔ is_Some (own !! p)) ∨ (d ≠ 0 ∧ ∃ ts', as_inv kend kern k' l' own' d ts' ∅)).

Lemma setupkvm_loop_ok pgdir ks :
  ∀ kern k l own ts, as_inv kend kern k l own pgdir ts ∅ → kmap_ok ks kern →
  set_up k own (kmap_kern ks kern) (setupkvm_loop me kend ks pgdir k).
Proof.
  induction ks as [|[[[virt start] end_] perm] ks IH]; intros kern k l own ts Hi Hks.
  { exists pgdir, k, l, own. split_and!; try done. right. split; [|by exists ts].
    destruct (as_pages _ _ _ _ _ _ _ Hi _ _ (as_dir _ _ _ _ _ _ _ Hi)). lia. }
  destruct Hks as ((H1 & H2 & H3 & H4) & H5 & H6 & (H7 & H8 & H9) & Hks). cbn [setupkvm_loop]. unfold bind at 1.
  destruct (mappages_kern pgdir ∅ kern k l own ts virt _ start perm Hi H1 H2 H3 H4 H5 H6 H7 H8 H9)
    as (r & k1 & l1 & own1 & ts1 & kern1 & E & Hi1 & Hd1 & Hl1 & [[-> ->] | [-> ->]]); rewrite E; cbn [Z.ltb Z.compare].
  - destruct (freevm_ok _ _ _ _ _ _ _ Hi1) as (k2 & l2 & E2 & Hk2 & Hl2 & Hle). unfold bind, ret. rewrite E2.
    exists 0, k2, l2, own1. split_and!; [done|by eapply leaves_trans|done|]. left. split; [done|]. split; [done|]. split.
    { pose proof (as_size _ _ _ _ _ _ _ Hi1) as Hs. rewrite map_size_empty in Hs. rewrite <-size_dom, <-Hd1, size_dom. cbn [length] in Hs. lia. }
    intros p. rewrite Hl2, <-!elem_of_dom. by rewrite Hd1.
  - destruct (IH _ k1 l1 own1 ts1 Hi1 Hks) as (d & k2 & l2 & own2 & E2 & Hle & Hd2 & Hr). exists d, k2, l2, own2.
    split_and!; [exact E2|by eapply leaves_trans|congruence|]. destruct Hr as [(-> & Hk & Hs & Hl)|Hr]; [left|by right].
    split; [done|]. split; [done|]. split; [by rewrite <-size_dom, <-Hd1, size_dom|]. intros p. rewrite Hl, <-!elem_of_dom. by rewrite Hd1.
Qed.

(** The free pages as owned pages. *)
Definition free_pages (l : list Z) : gmap Z role := gset_to_gmap Free (list_to_set l).

Lemma free_pages_lookup l p r : free_pages l !! p = Some r ↔ p ∈ l ∧ r = Free.
Proof. unfold free_pages. rewrite lookup_gset_to_gmap_Some, elem_of_list_to_set. naive_solver. Qed.

Lemma free_pages_dom l : dom (free_pages l) = list_to_set l.
Proof. apply dom_gset_to_gmap. Qed.

(** The linker places [data] on a page boundary behind the kernel's code. *)
Definition kernel_layout : Prop := aligned data ∧ KERNLINK < data < P2V PHYSTOP.

(** The kernel's half, as the comment above [kmap] describes it. *)
Definition kernel_entries (va : Z) : option Z :=
  Some (if (KERNBASE <=? va) && (va <? KERNLINK) then V2P va + 3
        else if (KERNLINK <=? va) && (va <? data) then V2P va + 1
        else if (data <=? va) && (va <? P2V PHYSTOP) then V2P va + 3
        else if DEVSPACE <=? va then va + 3
        else 0).

Lemma kmap_ok_kmap : kernel_layout → kmap_ok (kmap data) (λ _, Some 0).
Proof.
  intros [Ha Hr]. change (P2V PHYSTOP) with 0x8E000000 in Hr. change KERNLINK with 0x80100000 in Hr.
  assert (V2P data = data - KERNBASE) as Ed by (unfold V2P, KERNBASE; rewrite (u32_small data), u32_small by lia; done).
  assert (aligned (data - KERNBASE)) as Had by (unfold aligned; rewrite Zminus_mod, Ha by done; done).
  unfold kmap, kmap_ok, kmap_row. rewrite Ed. change (V2P KERNLINK) with 0x100000. change (u32 (EXTMEM - 0)) with 0x100000.
  change KERNLINK with 0x80100000. change (u32 (0 - DEVSPACE)) with 0x2000000. unfold KERNBASE, PHYSTOP, DEVSPACE in *.
  rewrite (u32_small (data - 0x80000000 - 0x100000)), (u32_small (0xE000000 - (data - 0x80000000))) by lia.
  assert (∀ z, z mod PGSIZE = 0 → 0x80000000 ≤ z < 2 ^ 32 → kernel_page z) as Hk by (intros; split; [done|unfold KERNBASE; lia]).
  assert (aligned (data - 0x80000000 - 0x100000)) by (unfold aligned; rewrite Zminus_mod, Had by done; done).
  assert (aligned (0xE000000 - (data - 0x80000000))) by (unfold aligned; rewrite Zminus_mod, Had by done; done).
  unfold kset_range, PGSIZE in *.
  split_and!; try done; try lia; try (by left); try (by right); try (apply Hk; [done|lia]);
    intros va [Hva Hvr] Hin; unfold aligned, PGSIZE in *;
    repeat match goal with |- context [?a <=? ?b] => destruct (Z.leb_spec a b) end; cbn [andb]; (done || lia).
Qed.

Lemma kmap_kern_entries va : kernel_layout → kernel_page va → kmap_kern (kmap data) (λ _, Some 0) va = kernel_entries va.
Proof.
  intros [Ha Hr] [Hva Hvr]. change (P2V PHYSTOP) with 0x8E000000 in Hr. change KERNLINK with 0x80100000 in Hr.
  assert (V2P data = data - KERNBASE) as Ed by (unfold V2P, KERNBASE; rewrite (u32_small data), u32_small by lia; done).
  assert (V2P va = va - KERNBASE) as Ev by (unfold V2P, KERNBASE in *; rewrite (u32_small va), u32_small by lia; done).
  unfold kmap, kmap_kern, kernel_entries. cbn [foldl]. unfold kmap_row. rewrite Ed, Ev. change (V2P KERNLINK) with 0x100000. change (u32 (EXTMEM - 0)) with 0x100000.
  change (P2V PHYSTOP) with 0x8E000000. change KERNLINK with 0x80100000. change (u32 (0 - DEVSPACE)) with 0x2000000. unfold KERNBASE, PHYSTOP, DEVSPACE in *.
  rewrite (u32_small (data - 0x80000000 - 0x100000)), (u32_small (0xE000000 - (data - 0x80000000))) by lia.
  unfold kset_range, PTE_W.
  pose proof (Z.div_mod va PGSIZE ltac:(done)) as Dv. pose proof (Z.div_mod data PGSIZE ltac:(done)) as Dd.
  unfold aligned in *. rewrite Hva in Dv. rewrite Ha in Dd. unfold PGSIZE in *.
  repeat match goal with
    | |- context [?a <=? ?b] => destruct (Z.leb_spec a b); cbn [andb]; try (exfalso; lia)
    | |- context [?a <? ?b] => destruct (Z.ltb_spec a b); cbn [andb]; try (exfalso; lia)
    end; f_equal; lia.
Qed.

(** A new directory. *)
Lemma as_start k p l :
  kmem_inv kend k l → page_ok kend p → p ∉ l → (∀ a, p ≤ a < p + PGSIZE → kmem_mem k a = 0) →
  as_inv kend (λ _, Some 0) k l (<[p := Dir]> (free_pages l)) p ∅ ∅.
Proof.
  intros Hk Hp Hn Hz. split; try done.
  - intros q r [[<- _]|[_ [Hq _]%free_pages_lookup]]%lookup_insert_Some; [done|].
    pose proof (ki_pages _ _ _ Hk) as Hf. rewrite Forall_forall in Hf. by apply Hf.
  - intros q. rewrite lookup_insert_Some, free_pages_lookup. split; [|naive_solver]. intros Hq. right. split; [by intros ->|done].
  - apply lookup_insert_eq.
  - intros d Hd. rewrite lookup_empty, load32_zero; [done|]. intros a Ha. apply Hz. unfold PGSIZE, NPDENTRIES in *. lia.
  - intros q r [[<- <-]|[_ [Hq ->]%free_pages_lookup]]%lookup_insert_Some; done.
  - intros va e _ [= <-]. unfold entry. by rewrite lookup_empty.
Qed.

Lemma setupkvm_ok k l :
  kmem_inv kend k l → kernel_layout → set_up k (free_pages l) kernel_entries (setupkvm me kend data k).
Proof.
  intros Hk Hlay. unfold setupkvm. pose proof (kalloc_inv me kend k l Hk) as Ha. destruct l as [|p l].
  { unfold bind. rewrite Ha. exists 0, k, [], (free_pages []). split_and!; try done. left. split_and!; try done; [vm_compute; lia|].
    intros p. unfold is_Some. setoid_rewrite free_pages_lookup. naive_solver. }
  destruct Ha as (k1 & E1 & Hk1 & Hp & Hn & Hm & _). unfold bind at 1. rewrite E1, (proj2 (Z.eqb_neq p 0)) by (destruct Hp; lia).
  unfold bind at 1, on_mem, modify. change (DEVSPACE <? P2V PHYSTOP) with false. cbv iota.
  set (k2 := set_kmem_mem (memset p 0 PGSIZE (kmem_mem k1)) k1).
  assert (∀ a, kmem_mem k2 a = if decide (p ≤ a < p + PGSIZE) then 0 else kmem_mem k1 a) as Hm2
    by (intros a; cbn; by rewrite memset_spec by (unfold PGSIZE; lia)).
  assert (only_page p (kmem_mem k1) (kmem_mem k2)) as Hop by (intros a Hx; rewrite Hm2, decide_False by lia; done).
  assert (kmem_inv kend k2 l) as Hk2 by (eapply kmem_inv_frame; [exact Hk1|exact Hp|exact Hn|exact Hop]).
  pose proof (as_start k2 p l Hk2 Hp Hn ltac:(intros a Hx; by rewrite Hm2, decide_True)) as Hi.
  assert (dom (<[p := Dir]> (free_pages l)) = dom (free_pages (p :: l))) as Hd by (by rewrite dom_insert_L, !free_pages_dom).
  destruct (setupkvm_loop_ok p (kmap data) _ _ _ _ _ Hi (kmap_ok_kmap Hlay)) as (d & k' & l' & own' & E & Hle & Hd' & Hr).
  exists d, k', l', own'. split_and!; [exact E| |congruence|].
  - eapply (leaves_trans _ (<[p := Dir]> (free_pages l))); [exact Hd| |exact Hle]. rewrite <-Hm. eapply leaves_page; [exact Hp| |exact Hop].
    exists Free. apply free_pages_lookup. split; [by left|done].
  - destruct Hr as [(-> & Hk' & Hs & Hl')|(Hd0 & ts' & Hi')]; [left|right].
    + split; [done|]. split; [done|]. split; [by rewrite <-size_dom, <-Hd, size_dom|]. intros q. by rewrite Hl', <-!elem_of_dom, Hd.
    + split; [done|]. exists ts'. eapply as_kern_weaken; [exact Hi'|]. intros va e Hva <-. by apply kmap_kern_entries.
Qed.

(** ** Several address spaces *)

(** The pages in use in [own], with [l] as the free list. *)
Definition reown (l : list Z) (own : gmap Z role) : gmap Z role := free_pages l ∪ filter (λ e, e.2 ≠ Free) own.

(** An address space only depends on its own pages: when the free list and
    other pages change, it stays. *)
Lemma as_move kern k l own pgdir ts us k' l' :
  as_inv kend kern k l own pgdir ts us → kmem_inv kend k' l' →
  (∀ p r, own !! p = Some r → r ≠ Free → p ∉ l' ∧ ∀ a, p ≤ a < p + PGSIZE → kmem_mem k' a = kmem_mem k a) →
  as_inv kend kern k' l' (reown l' own) pgdir ts us.
Proof.
  intros [H1 H2 H3 H4 H5 H6 H7 H8 H9 HA] Hk Hsame.
  assert (∀ p r, reown l' own !! p = Some r ↔ (p ∈ l' ∧ r = Free) ∨ (own !! p = Some r ∧ r ≠ Free)) as Hlook.
  { intros p r. unfold reown. rewrite lookup_union_Some, free_pages_lookup, map_lookup_filter_Some; [done|].
    apply map_disjoint_spec. intros q x y [Hq _]%free_pages_lookup [Hq' Hy]%map_lookup_filter_Some. by apply (Hsame q y Hq' Hy). }
  assert (∀ p r, own !! p = Some r → r ≠ Free → reown l' own !! p = Some r) as Hin by (intros; apply Hlook; by right).
  assert (∀ p r d, own !! p = Some r → r ≠ Free → 0 ≤ d < 1024 → load32 (kmem_mem k') (p + 4 * d) = load32 (kmem_mem k) (p + 4 * d)) as Hw.
  { intros p r d Hp Hr Hd. apply load32_ext. intros a Ha. destruct (Hsame p r Hp Hr) as [_ Hs]. apply Hs. unfold PGSIZE. lia. }
  assert (∀ va, entry (kmem_mem k') ts va = entry (kmem_mem k) ts va) as He.
  { intros va. unfold entry. destruct (ts !! PDX va) as [t|] eqn:Et; [|done]. destruct (H5 _ _ Et) as [_ Ho].
    by apply (Hw t _ _ Ho); [|apply PTX_range]. }
  split.
  - done.
  - intros p r [[Hp _]|[Hp _]]%Hlook; [|by eapply H2]. pose proof (ki_pages _ _ _ Hk) as Hf. rewrite Forall_forall in Hf. by apply Hf.
  - intros p. rewrite Hlook. naive_solver.
  - by apply Hin.
  - intros d t Ht. destruct (H5 _ _ Ht) as [? ?]. split; [done|]. by apply Hin.
  - intros va f fl Hu. destruct (H6 _ _ _ Hu) as (? & ?). split; [|done]. by apply Hin.
  - intros d Hd. rewrite (Hw pgdir _ d H4); [by apply H7|done|done].
  - intros va Hva. rewrite He. by apply H8.
  - intros p r [[Hp ->]|[Hp _]]%Hlook; [done|by apply H9].
  - intros va e Hva Hke. rewrite He. by apply HA.
Qed.

(** What is done with the free pages does not matter to an address space. *)
Lemma as_bystander kern k l own pgdir ts us k' l' :
  as_inv kend kern k l own pgdir ts us → kmem_inv kend k' l' → (∀ p, p ∈ l' → p ∈ l) →
  leaves (free_pages l) (kmem_mem k) (kmem_mem k') → as_inv kend kern k' l' (reown l' own) pgdir ts us.
Proof.
  intros Hi Hk Hsub Hl. apply (as_move _ _ _ _ _ _ _ _ _ Hi Hk). intros p r Hp Hr.
  assert (p ∉ l) as Hn by (rewrite (as_free _ _ _ _ _ _ _ Hi); congruence). split; [naive_solver|].
  apply (Hl p); [by eapply as_pages|]. apply eq_None_not_Some. intros [x [Hx _]%free_pages_lookup]. done.
Qed.

Lemma reown_some l own p : is_Some (reown l own !! p) ↔ p ∈ l ∨ ∃ r, own !! p = Some r ∧ r ≠ Free.
Proof.
  rewrite <-elem_of_dom. unfold reown. rewrite dom_union_L, free_pages_dom, elem_of_union, elem_of_list_to_set, elem_of_dom.
  unfold is_Some. setoid_rewrite map_lookup_filter_Some. done.
Qed.

(** A new address space was made of free pages; it was not used, and is freed. *)
Lemma drop_new kern kern' k l own pgdir ts us k1 l1 own1 d ts1 us1 :
  as_inv kend kern k l own pgdir ts us → as_inv kend kern' k1 l1 own1 d ts1 us1 → dom own1 = list_to_set l →
  leaves (free_pages l) (kmem_mem k) (kmem_mem k1) →
  ∃ k2 l2, freevm me kend d k1 = Done (tt, k2) ∧ as_inv kend kern k2 l2 (reown l2 own) pgdir ts us ∧ (∀ p, p ∈ l2 ↔ p ∈ l) ∧
    leaves (free_pages l) (kmem_mem k) (kmem_mem k2).
Proof.
  intros Hi Hi1 Hd Hl. destruct (freevm_ok _ _ _ _ _ _ _ Hi1) as (k2 & l2 & E & Hk2 & Hin & Hl2). exists k2, l2.
  assert (∀ p, p ∈ l2 ↔ p ∈ l) as Hsame by (intros p; by rewrite Hin, <-elem_of_dom, Hd, elem_of_list_to_set).
  assert (leaves (free_pages l) (kmem_mem k) (kmem_mem k2)) as Hl' by (eapply leaves_trans; [by rewrite Hd, free_pages_dom|exact Hl|exact Hl2]).
  split_and!; [done| |done|done]. apply (as_bystander _ _ _ _ _ _ _ _ _ Hi Hk2); [|done]. intros p. apply Hsame.
Qed.

(** A new address space was made of free pages, and the old one is freed: no
    page is lost, and the new one stays as it is. *)
Lemma drop_old kern kern' k l own pgdir ts us k1 l1 own1 d ts1 us1 :
  as_inv kend kern k l own pgdir ts us → as_inv kend kern' k1 l1 own1 d ts1 us1 → dom own1 = list_to_set l →
  leaves (free_pages l) (kmem_mem k) (kmem_mem k1) →
  ∃ k2 l2 own2, freevm me kend pgdir k1 = Done (tt, k2) ∧ as_inv kend kern' k2 l2 own2 d ts1 us1 ∧ dom own2 = dom own ∧
    ∀ x, ubyte (kmem_mem k2) us1 x = ubyte (kmem_mem k1) us1 x.
Proof.
  intros Hi Hi1 Hd Hl. assert (∀ p, p ∈ l1 → p ∈ l) as Hsub.
  { intros p Hp. apply (as_free _ _ _ _ _ _ _ Hi1) in Hp. apply (elem_of_list_to_set (C := gset Z)). rewrite <-Hd. apply elem_of_dom. by eexists. }
  pose proof (as_bystander _ _ _ _ _ _ _ k1 l1 Hi (as_kmem _ _ _ _ _ _ _ Hi1) Hsub Hl) as Hold.
  destruct (freevm_ok _ _ _ _ _ _ _ Hold) as (k2 & l2 & E & Hk2 & Hin & Hl2). setoid_rewrite reown_some in Hin.
  assert (∀ p r, own1 !! p = Some r → p ∈ l) as Hnew.
  { intros p r Hp. apply (elem_of_list_to_set (C := gset Z)). rewrite <-Hd. apply elem_of_dom. by eexists. }
  assert (∀ p r, own1 !! p = Some r → r ≠ Free → p ∉ l2 ∧ ∀ a, p ≤ a < p + PGSIZE → kmem_mem k2 a = kmem_mem k1 a) as Hkeep.
  { intros p r Hp Hr. assert (¬ (p ∈ l1 ∨ ∃ r, own !! p = Some r ∧ r ≠ Free)) as Hno.
    { rewrite (as_free _ _ _ _ _ _ _ Hi1). intros [?|(r' & Hr' & ?)]; [congruence|]. apply Hnew in Hp. apply (as_free _ _ _ _ _ _ _ Hi) in Hp. congruence. }
    split; [by rewrite Hin|]. apply (Hl2 p); [by eapply (as_pages _ _ _ _ _ _ _ Hi1)|]. by rewrite eq_None_not_Some, reown_some. }
  exists k2, l2, (reown l2 own1). split_and!; [done|by apply (as_move _ _ _ _ _ _ _ _ _ Hi1 Hk2)| |].
  - apply set_eq. intros p. rewrite !elem_of_dom, reown_some, Hin. split.
    + intros [[Hp|(r & Hr & _)]|(r & Hr & _)]; [apply Hsub, (as_free _ _ _ _ _ _ _ Hi) in Hp; by eexists|by eexists|].
      apply Hnew, (as_free _ _ _ _ _ _ _ Hi) in Hr. by eexists.
    + intros [r Hr]. destruct (decide (r = Free)) as [->|Hne]; [|left; right; by exists r]. apply (as_free _ _ _ _ _ _ _ Hi) in Hr.
      apply (elem_of_list_to_set (C := gset Z)) in Hr. rewrite <-Hd in Hr. apply elem_of_dom in Hr as [r1 Hr1].
      destruct (decide (r1 = Free)) as [->|]; [left; left; by apply (as_free _ _ _ _ _ _ _ Hi1)|right; by exists r1].
  - intros x. unfold ubyte. destruct (us1 !! PGROUNDDOWN x) as [[f fl]|] eqn:Eu; [|done]. f_equal.
    destruct (as_frames _ _ _ _ _ _ _ Hi1 _ _ _ Eu) as (Ho & _). apply (Hkeep f _ Ho ltac:(done)).
    pose proof (Z.mod_pos_bound x PGSIZE eq_refl). lia.
Qed.

(** Other flags for a user page. *)
Lemma as_reflag kern k l own pgdir ts us va t f fl fl' :
  as_inv kend kern k l own pgdir ts us → ts !! PDX va = Some t → us !! va = Some (f, fl) →
  0 ≤ fl' < PGSIZE → Z.land fl' PTE_P ≠ 0 → 0 ≤ V2P f < PHYSTOP →
  let m' := store32 (kmem_mem k) (t + 4 * PTX va) (V2P f + fl') in
  as_inv kend kern (set_kmem_mem m' k) l own pgdir ts (<[va := (f, fl')]> us) ∧ only_page t (kmem_mem k) m'.
Proof.
  intros Hi Et Hu Hfl HP V2 m'. destruct (as_frames _ _ _ _ _ _ _ Hi _ _ _ Hu) as (Hof & Hup & _).
  destruct (base_set_entry _ _ _ _ _ _ va t (V2P f + fl') (as_base _ _ _ _ _ _ _ Hi) Et (user_page_range _ Hup)) as (E1 & E2 & E3 & E4);
    [unfold PHYSTOP, PGSIZE in *; lia|]. fold m' in E1, E2, E3, E4.
  split; [|apply only_page_store, PTX_range].
  destruct Hi as [H1 H2 H3 H4 H5 H6 H7 H8 H9 HA]. split; cbn [kmem_mem set_kmem_mem]; try done.
  - intros v g fl1 [[<- [= <- <-]]|[_ Hg]]%lookup_insert_Some; [by split|by apply H6].
  - intros d Hd. rewrite E4 by done. by apply H7.
  - intros v Hv. destruct (decide (v = va)) as [->|Hne]; [rewrite E1, lookup_insert_eq; done|].
    destruct (user_page_range v Hv). rewrite E2, lookup_insert_ne by done. by apply H8.
  - intros p r Hp. apply H9 in Hp. destruct r as [| |d|v]; try done. destruct Hp as [fl1 Hp]. cbn.
    destruct (decide (v = va)) as [->|Hne]; [|exists fl1; by rewrite lookup_insert_ne].
    rewrite Hu in Hp. injection Hp as <- <-. exists fl'. by rewrite lookup_insert_eq.
  - intros v e [Hv Hr] Hk. destruct Hup as [_ Hup]. rewrite E2; [by apply HA|unfold KERNBASE in *; lia|done|lia].
Qed.

(** ** [copyuvm] *)

(** The pages below [b] in [us] have copies in [us']. *)
Definition copy_of (us us' : gmap Z (Z * Z)) (m m' : mem) (b : Z) : Prop :=
  (∀ va, is_Some (us' !! va) → is_Some (us !! va) ∧ va < b) ∧
  ∀ va f fl, us !! va = Some (f, fl) → va < b →
    ∃ f', us' !! va = Some (f', fl) ∧ ∀ i, 0 ≤ i < PGSIZE → m' (f' + i) = m (f + i).

Lemma lor_present fl : Z.land fl PTE_P ≠ 0 → Z.lor fl PTE_P = fl.
Proof.
  intros H. unfold PTE_P in *. apply Z.bits_inj'. intros i Hi. rewrite Z.lor_spec. destruct (decide (i = 0)) as [->|Hne].
  - change (Z.testbit 1 0) with true. rewrite orb_true_r. destruct (Z.testbit fl 0) eqn:E; [done|]. destruct H.
    change 1 with (Z.ones 1). rewrite Z.land_ones by lia. change (2 ^ 1) with 2. rewrite <-Z.bit0_mod. by rewrite E.
  - replace (Z.testbit 1 i) with false; [apply orb_false_r|]. change 1 with (2 ^ 0). symmetry. apply Z.pow2_bits_false. lia.
Qed.

Lemma copy_of_next us us' m0 m m' i g f fl :
  copy_of us us' m0 m i → user_page i → us !! i = Some (f, fl) → (∀ va e, us !! va = Some e → aligned va) →
  (∀ j, 0 ≤ j < PGSIZE → m' (g + j) = m0 (f + j)) →
  (∀ va f' fl' j, us' !! va = Some (f', fl') → 0 ≤ j < PGSIZE → m' (f' + j) = m (f' + j)) →
  copy_of us (<[i := (g, fl)]> us') m0 m' (i + PGSIZE).
Proof.
  intros [C1 C2] [Ha Hr] Hi Hal Hg Hold. split.
  - intros va [e [[<- _]|[_ He]]%lookup_insert_Some]; [split; [by eexists|unfold PGSIZE; lia]|].
    destruct (C1 va) as [? ?]; [by eexists|]. split; [done|unfold PGSIZE; lia].
  - intros va f' fl' Hva Hlt. destruct (decide (va = i)) as [->|Hne].
    + rewrite Hi in Hva. injection Hva as <- <-. exists g. by rewrite lookup_insert_eq.
    + pose proof (between_pages i va Ha (Hal _ _ Hva)). destruct (C2 va f' fl' Hva ltac:(lia)) as (f1 & E1 & E2). exists f1.
      rewrite lookup_insert_ne by done. split; [done|]. intros j Hj. rewrite (Hold va f1 fl'); auto.
Qed.

Section copyuvm.
Context (kern kern' : Z → option Z) (k0 : kmem) (l0 : list Z) (own0 : gmap Z role) (pgdir : Z) (ts : gmap Z Z) (us : gmap Z (Z * Z)).
Context (Hi0 : as_inv kend kern k0 l0 own0 pgdir ts us).

(** The copy under construction, at address [i]. *)
Record copying (d i : Z) (k : kmem) (l : list Z) (own : gmap Z role) (ts' : gmap Z Z) (us' : gmap Z (Z * Z)) : Prop := {
  cp_as : as_inv kend kern' k l own d ts' us';
  cp_dom : dom own = list_to_set l0;
  cp_leaves : leaves (free_pages l0) (kmem_mem k0) (kmem_mem k);
  cp_copy : copy_of us us' (kmem_mem k0) (kmem_mem k) i;
}.

Lemma copying_parent d i k l own ts' us' : copying d i k l own ts' us' → as_inv kend kern k l (reown l own0) pgdir ts us.
Proof.
  intros [H1 H2 H3 H4]. apply (as_bystander _ k0 l0); try done; [apply H1|].
  intros p Hp. apply (as_free _ _ _ _ _ _ _ H1) in Hp. assert (p ∈ dom own) as Hd by (apply elem_of_dom; by eexists).
  rewrite H2 in Hd. by apply elem_of_list_to_set in Hd.
Qed.

(** The parent's frames are not among the pages of the copy, and are as at the start. *)
Lemma copying_source d i k l own ts' us' va f fl :
  copying d i k l own ts' us' → us !! va = Some (f, fl) →
  page_ok kend f ∧ own !! f = None ∧ ∀ j, 0 ≤ j < PGSIZE → kmem_mem k (f + j) = kmem_mem k0 (f + j).
Proof.
  intros [H1 H2 H3 H4] Hu. destruct (as_frames _ _ _ _ _ _ _ Hi0 _ _ _ Hu) as (Ho & _). pose proof (as_pages _ _ _ _ _ _ _ Hi0 _ _ Ho) as Hp.
  assert (f ∉ l0) as Hn by (rewrite (as_free _ _ _ _ _ _ _ Hi0); congruence). split_and!; [done| |].
  - apply not_elem_of_dom. rewrite H2. by rewrite elem_of_list_to_set.
  - intros j Hj. apply (H3 f); [done| |lia]. apply not_elem_of_dom. by rewrite free_pages_dom, elem_of_list_to_set.
Qed.

(** One page of [copyuvm]. *)
Lemma copy_one d i k l own ts' us' f fl :
  copying d i k l own ts' us' → user_page i → us !! i = Some (f, fl) →
  (l = [] ∧ kalloc me k = Done (0, k)) ∨
  ∃ g l1 k0 k1, l = g :: l1 ∧ g ≠ 0 ∧ kalloc me k = Done (g, k0) ∧ on_mem (memmove g f PGSIZE) k0 = Done (tt, k1) ∧
    ((∃ own1, mappages me d i PGSIZE (V2P g) fl k1 = Done (-1, k1) ∧ as_inv kend kern' k1 [] own1 d ts' us' ∧ own1 = delete g own ∧
       leaves own (kmem_mem k) (kmem_mem k1)) ∨
     ∃ k2 l2 own2 ts2 us2, mappages me d i PGSIZE (V2P g) fl k1 = Done (0, k2) ∧ copying d (i + PGSIZE) k2 l2 own2 ts2 us2).
Proof.
  intros Hc Hu Hf. pose proof Hc as [Hi Hd Hl Hcp]. destruct l as [|g l]; [left; split; [done|by eapply as_kalloc_empty]|right].
  destruct (copying_source _ _ _ _ _ _ _ _ _ _ Hc Hf) as (Hpf & Hof & Hsf). 
  destruct (as_kalloc me kend Hkend _ _ _ _ _ _ _ Hi) as (k1 & E1 & Hm1 & Hpg & Hi1 & Hfree).
  assert (f ≠ g) as Hfg by congruence. destruct (as_frames _ _ _ _ _ _ _ Hi0 _ _ _ Hf) as (_ & _ & Hfl).
  set (m2 := memmove g f PGSIZE (kmem_mem k1)). pose proof (memmove_copied g f PGSIZE (kmem_mem k1) : copied _ m2 _ _ _) as Hm2.
  assert (only_page g (kmem_mem k) m2) as Hop by (intros a Ha; rewrite Hm2, decide_False by lia; by rewrite Hm1).
  assert (as_inv kend kern' (set_kmem_mem m2 k1) l (delete g own) d ts' us') as Hi2.
  { apply (as_write_page _ _ _ _ _ _ _ g); [done|done|left; apply lookup_delete_eq|by rewrite Hm1]. }
  assert (us' !! i = None) as Hn by (apply eq_None_not_Some; intros [_ ?]%Hcp; lia).
  exists g, l, k1, (set_kmem_mem m2 k1). split_and!; [done|destruct Hpg; lia|done|done|].
  destruct (map_page me kend Hkend _ _ _ _ _ _ i g fl Hi2 Hu Hn (lookup_delete_eq _ _) Hpg Hfl)
    as [[-> E]|(k3 & l3 & own3 & ts3 & E & Hi3 & Hg & Hk & _)].
  { left. exists (delete g own). split_and!; [done..|]. eapply leaves_page; [exact Hpg|by eexists|done]. }
  right. exists k3, l3, (<[g:=Frame i]> own3), ts3, (<[i:=(g, Z.lor fl PTE_P)]> us'). split; [done|].
  assert (dom (<[g:=Frame i]> own3) = dom own) as Hd3.
  { rewrite dom_insert_L, (gr_dom _ _ _ _ Hg), dom_delete_L. symmetry. apply union_difference_singleton_L, elem_of_dom. by eexists. }
  assert (∀ p, page_ok kend p → p ≠ g → own !! p = None ∨ (∃ va, own !! p = Some (Frame va)) →
    ∀ a, p ≤ a < p + PGSIZE → kmem_mem k3 a = kmem_mem k a) as Hsame.
  { intros p Hp Hpg' Ho a Ha. rewrite (Hk p Hp); [|by rewrite lookup_delete_ne|done]. apply Hop.
    destruct (page_ok_disjoint kend g p Hpg Hp); [congruence|lia..]. }
  assert (∀ j, 0 ≤ j < PGSIZE → kmem_mem k3 (g + j) = kmem_mem k0 (f + j)) as Hnew.
  { intros j Hj. rewrite (Hk g Hpg (or_introl (lookup_delete_eq _ _))) by lia. cbn [kmem_mem set_kmem_mem].
    rewrite Hm2, decide_True, Hm1 by lia. rewrite <-Hsf by done. f_equal. lia. }
  split; [exact Hi3|congruence| |].
  - eapply (leaves_trans _ own); [by rewrite free_pages_dom, Hd|exact Hl|]. intros p Hp Ho. apply Hsame; [done|congruence|by left].
  - pose proof (as_pte _ _ _ _ _ _ _ Hi0 i Hu) as HP. rewrite Hf in HP. destruct HP as [_ HP]. rewrite lor_present by done.
    apply (copy_of_next us us' _ (kmem_mem k) _ i g f fl); try done.
    + intros va [? ?] He. by apply (as_frames _ _ _ _ _ _ _ Hi0) in He as (_ & [? _] & _).
    + intros va f' fl' j Hva Hj. destruct (as_frames _ _ _ _ _ _ _ Hi _ _ _ Hva) as (Ho & _).
      apply (Hsame f'); [by eapply (as_pages _ _ _ _ _ _ _ Hi)|congruence|right; by eexists|lia].
Qed.

(** A copy; or nothing, and at most one page is lost. *)
Definition copy_made (sz : Z) (r : result (Z * kmem)) : Prop :=
  ∃ d k', r = Done (d, k') ∧ leaves (free_pages l0) (kmem_mem k0) (kmem_mem k') ∧
    ((d ≠ 0 ∧ ∃ l own ts' us', copying d sz k' l own ts' us') ∨
     (d = 0 ∧ (length l0 ≤ 1026 + size us)%nat ∧ ∃ l' lost, kmem_inv kend k' l' ∧ ∀ p, p ∈ l' ↔ p ∈ l0 ∧ lost ≠ Some p)).

Lemma copying_size d i k l own ts' us' : copying d i k l own ts' us' → size own = length l0 ∧ (size us' ≤ size us)%nat.
Proof.
  intros [Hi Hd _ [C1 _]]. split.
  - rewrite <-size_dom, Hd. apply size_list_to_set. apply (as_kmem _ _ _ _ _ _ _ Hi0).
  - rewrite <-!size_dom. apply subseteq_size. intros va Hva%elem_of_dom. apply elem_of_dom. by apply C1.
Qed.

Lemma copying_freed d i k l own ts' us' sz lost own1 k1 :
  copying d i k l own ts' us' → as_inv kend kern' k1 [] own1 d ts' us' → (size own ≤ S (size own1))%nat → leaves own (kmem_mem k) (kmem_mem k1) →
  (∀ p, is_Some (own1 !! p) ↔ is_Some (own !! p) ∧ lost ≠ Some p) → copy_made sz ((freevm me kend d;; ret 0) k1).
Proof.
  intros Hc Hi1 Hs Hl1 Hlost. destruct (copying_size _ _ _ _ _ _ _ Hc) as [Hs1 Hs2]. destruct Hc as [Hi Hd Hl Hcp]. destruct (freevm_ok _ _ _ _ _ _ _ Hi1) as (k2 & l2 & E & Hk2 & Hin & Hl2).
  exists 0, k2. unfold bind. rewrite E. split_and!; [done| |].
  - eapply (leaves_trans _ own); [by rewrite free_pages_dom|exact Hl|]. intros p Hp Ho a Ha. rewrite (Hl2 p Hp); [by apply (Hl1 p Hp)| |done].
    apply eq_None_not_Some. rewrite Hlost, Ho. by intros [[? ?] _].
  - right. split; [done|]. split; [pose proof (as_size _ _ _ _ _ _ _ Hi1) as H; cbn [length] in H; lia|]. exists l2, lost. split; [done|]. intros p. by rewrite Hin, Hlost, <-elem_of_dom, Hd, elem_of_list_to_set.
Qed.

Lemma copyuvm_loop_ok d sz :
  sized us sz → sz ≤ KERNBASE → d ≠ 0 →
  ∀ fuel i k l own ts' us', copying d i k l own ts' us' → aligned i → 0 ≤ i → (Z.to_nat ((sz - i) / PGSIZE + 1) < fuel)%nat →
  copy_made sz (copyuvm_loop me kend fuel pgdir d i sz k).
Proof.
  intros Hsz Hb Hd0 fuel. induction fuel as [|fuel IH]; intros i k l own ts' us' Hc Hal H0 Hfuel; [lia|].
  cbn [copyuvm_loop]. destruct (Z.ltb_spec i sz) as [Hlt|Hge].
  2: { exists d, k. pose proof Hc as [Hi Hd Hl [C1 C2]]. split_and!; [done..|]. left. split; [done|]. exists l, own, ts', us'. split; try done. split.
       - intros va Hva. destruct (C1 va Hva) as [Hs _]. split; [done|]. destruct Hs as [[f fl] Hs].
         apply (Hsz va); [|by eexists]. by apply (as_frames _ _ _ _ _ _ _ Hi0) in Hs as (_ & ? & _).
       - intros va f fl Hva Hvs. apply (C2 va f fl Hva). lia. }
  assert (user_page i) as Hu by (split; [done|lia]). destruct (proj2 (Hsz i Hu) Hlt) as [[f fl] Hf].
  pose proof (copying_parent _ _ _ _ _ _ _ Hc) as Hp. destruct (user_table _ Hkend _ _ _ _ _ _ _ _ Hp Hf) as [t Et].
  destruct (as_tables _ _ _ _ _ _ _ Hp _ _ Et) as [_ Hot]. pose proof (as_pages _ _ _ _ _ _ _ Hp _ _ Hot) as Hpt.
  destruct (as_frames _ _ _ _ _ _ _ Hp _ _ _ Hf) as (Hof & _ & Hfl). pose proof (as_pages _ _ _ _ _ _ _ Hp _ _ Hof) as Hpf.
  pose proof (as_pte _ _ _ _ _ _ _ Hp i Hu) as He. rewrite Hf in He. unfold entry in He. rewrite Et in He.
  destruct (entry_present _ Hkend _ _ _ He Hpf Hfl) as (P1 & P2 & _ & P4).
  unfold bind at 1. rewrite (walkpgdir_find _ _ Hkend _ _ _ _ _ _ _ Hp), Et by eauto.
  rewrite (proj2 (Z.eqb_neq _ 0)) by (destruct Hpt; pose proof (PTX_range i); lia).
  unfold bind at 1, read32, gets. rewrite (proj2 (Z.eqb_neq _ 0) P1), P2, P4.
  destruct (copy_one _ _ _ _ _ _ _ _ _ Hc Hu Hf) as [[-> E]|(g & l1 & k1 & k2 & -> & Hg & E1 & E2 & [(own1 & E3 & Hi1 & -> & Hl1)|(k3 & l3 & own3 & ts3 & us3 & E3 & Hc3)])].
  - unfold bind at 1. rewrite E. cbn [Z.eqb]. eapply (copying_freed _ _ _ _ _ _ _ _ None); [exact Hc|apply Hc|lia|done|]. intros p. split; [done|by intros [? _]].
  - unfold bind at 1. rewrite E1, (proj2 (Z.eqb_neq g 0) Hg). unfold bind at 1. rewrite E2. unfold bind at 1. rewrite E3. cbn [Z.ltb Z.compare].
    eapply (copying_freed _ _ _ _ _ _ _ _ (Some g)); [exact Hc|exact Hi1| |done|].
    { destruct (decide (is_Some (own !! g))); [rewrite map_size_delete_Some by done|rewrite map_size_delete_None by (by apply eq_None_not_Some)]; lia. }
    intros p. rewrite <-!elem_of_dom, dom_delete_L, elem_of_difference, elem_of_singleton.
    split; intros [? Hne]; (split; [done|congruence]).
  - unfold bind at 1. rewrite E1, (proj2 (Z.eqb_neq g 0) Hg). unfold bind at 1. rewrite E2. unfold bind at 1. rewrite E3. cbn [Z.ltb Z.compare].
    destruct (next_page i Hu) as [-> Hal']. eapply IH; [exact Hc3|done|unfold PGSIZE; lia|].
    pose proof (pages_left i (i + PGSIZE) sz ltac:(lia) Hlt). lia.
Qed.
End copyuvm.

Lemma copy_made_start kern k l own pgdir ts us sz :
  as_inv kend kern k l own pgdir ts us → sized us sz → 0 ≤ sz ≤ KERNBASE → kernel_layout →
  copy_made kernel_entries k l us sz (copyuvm me kend data pgdir sz k).
Proof.
  intros Hi Hs Hb Hlay. pose proof (as_kmem _ _ _ _ _ _ _ Hi) as Hk.
  destruct (setupkvm_ok k l Hk Hlay) as (d & k' & l' & own' & E & Hle & Hd & [(-> & Hk' & Hs' & Hl')|(Hd0 & ts' & Hi')]);
    unfold copyuvm, bind at 1; rewrite E.
  - exists 0, k'. split_and!; [done..|]. right. split; [done|].
    split; [rewrite <-size_dom, free_pages_dom, size_list_to_set in Hs' by apply Hk; lia|]. exists l', None. split; [done|]. intros p.
    rewrite Hl', <-elem_of_dom, free_pages_dom, elem_of_list_to_set. split; [done|by intros [? _]].
  - rewrite (proj2 (Z.eqb_neq d 0) Hd0).
    eapply (copyuvm_loop_ok kern); try done; [lia| |rewrite Z.sub_0_r; lia]. split; [done|by rewrite Hd, free_pages_dom|done|].
    split; [intros va [? ?]; done|]. intros va f fl Hu Hlt. apply (as_frames _ _ _ _ _ _ _ Hi) in Hu as (_ & [_ ?] & _). lia.
Qed.

(** C16: [copyuvm], with which [fork] copies the memory of a process.  Either it
    returns a directory: an address space made of pages that were free, with
    the kernel mapped as in the table of vm.c, and with a page for every page
    of the parent, with the same flags and the same contents.  Or it returns 0
    because fewer than about a thousand pages are free besides the size of the
    process, and the pages it took are free again, except for at most one (that
    one is lost when [mappages] fails).  The parent's address space and memory are
    as before in both cases. *)
Theorem copyuvm_copies kern k l own pgdir ts us sz :
  as_inv kend kern k l own pgdir ts us → sized us sz → 0 ≤ sz ≤ KERNBASE → kernel_layout →
  ∃ d k' l', copyuvm me kend data pgdir sz k = Done (d, k') ∧
    as_inv kend kern k' l' (reown l' own) pgdir ts us ∧ leaves (free_pages l) (kmem_mem k) (kmem_mem k') ∧
    ((d ≠ 0 ∧ ∃ own' ts' us', as_inv kend kernel_entries k' l' own' d ts' us' ∧ dom own' = list_to_set l ∧
        copy_of us us' (kmem_mem k) (kmem_mem k') sz) ∨
     (d = 0 ∧ (length l ≤ 1026 + size us)%nat ∧ ∃ lost, ∀ p, p ∈ l' ↔ p ∈ l ∧ lost ≠ Some p)).
Proof.
  intros Hi Hs Hb Hlay. destruct (copy_made_start kern k l own pgdir ts us sz Hi Hs Hb Hlay)
    as (d & k' & E & Hle & [(Hd & l' & own' & ts' & us' & Hc)|(-> & Hs' & l' & lost & Hk & Hl)]).
  - exists d, k', l'. split_and!; [done|by eapply (copying_parent kern)|done|]. left. split; [done|]. exists own', ts', us'. by destruct Hc.
  - exists 0, k', l'. split_and!; [done| |done|right; split_and!; [done..|by exists lost]].
    apply (as_bystander _ _ _ _ _ _ _ _ _ Hi Hk); [|done]. intros p [? _]%Hl. done.
Qed.
End life.

Lemma copyuvm_copies_witness :
  ∃ d k' l', copyuvm 0 demo_end 0x80108000 demo_dir 4096 demo_kmem2 = Done (d, k') ∧
    as_inv demo_end demo_kern k' l' (reown l' demo_own) demo_dir {[0 := demo_table]} {[0 := (demo_frame, 7)]}.
Proof.
  destruct (copyuvm_copies 0 demo_end 0x80108000 ltac:(done) _ _ _ _ _ _ _ 4096 demo_as) as (d & k' & l' & E & Hi & _).
  - intros va [Ha Hv]. unfold is_Some. setoid_rewrite lookup_singleton_Some. unfold aligned, PGSIZE in Ha. split.
    + intros (e & <- & _). lia.
    + intros Hlt. exists (demo_frame, 7). split; [|done]. rewrite Z.mod_small in Ha by lia. done.
  - done.
  - done.
  - by exists d, k', l'.
Defined.
