(* ===== verification/Segment.v ===== *)
(** * Segments, task state and interrupt gates

    The descriptor tables of mmu.h, and the code of vm.c and trap.c that fills
    them and loads the CPU's segment, task and page-table registers. *)

From S2P Require Import Prelude Spinlock Mmu.

Definition SEG_KCODE : nat := 1.
Definition SEG_KDATA : nat := 2.
Definition SEG_UCODE : nat := 3.
Definition SEG_UDATA : nat := 4.
Definition SEG_TSS : nat := 5.
Definition NSEGS : nat := 6.
Definition DPL_USER : Z := 3.
Definition STA_X : Z := 8.
Definition STA_W : Z := 2.
Definition STA_R : Z := 2.
Definition STS_T32A : Z := 0x9.
Definition STS_IG32 : Z := 0xE.
Definition STS_TG32 : Z := 0xF.

(** ** Descriptors *)

Record segdesc := mk_segdesc {
  lim_15_0 : Z; base_15_0 : Z; base_23_16 : Z; sd_type : Z; sd_s : Z; sd_dpl : Z; sd_p : Z;
  lim_19_16 : Z; sd_avl : Z; sd_rsv1 : Z; sd_db : Z; sd_g : Z; base_31_24 : Z;
}.
#[export] Instance segdesc_inhabited : Inhabited segdesc := populate (mk_segdesc 0 0 0 0 0 0 0 0 0 0 0 0 0).

(** The value of a bit field [n] bits wide. *)
Definition bits (n v : Z) : Z := v mod 2 ^ n.

Definition SEG (type base lim dpl : Z) : segdesc :=
  mk_segdesc (Z.land (Z.shiftr lim 12) 0xffff) (Z.land (u32 base) 0xffff) (Z.land (Z.shiftr (u32 base) 16) 0xff)
    type 1 dpl 1 (bits 4 (Z.shiftr (u32 lim) 28)) 0 0 1 1 (bits 8 (Z.shiftr (u32 base) 24)).
Definition SEG16 (type base lim dpl : Z) : segdesc :=
  mk_segdesc (Z.land lim 0xffff) (Z.land (u32 base) 0xffff) (Z.land (Z.shiftr (u32 base) 16) 0xff)
    type 1 dpl 1 (bits 4 (Z.shiftr (u32 lim) 16)) 0 0 1 0 (bits 8 (Z.shiftr (u32 base) 24)).

(** The address range of a segment. *)
Definition seg_base (d : segdesc) : Z := base_15_0 d + 2 ^ 16 * base_23_16 d + 2 ^ 24 * base_31_24 d.

Record gatedesc := mk_gatedesc {
  off_15_0 : Z; gd_cs : Z; gd_args : Z; gd_rsv1 : Z; gd_type : Z; gd_s : Z; gd_dpl : Z; gd_p : Z; off_31_16 : Z;
}.
#[export] Instance gatedesc_inhabited : Inhabited gatedesc := populate (mk_gatedesc 0 0 0 0 0 0 0 0 0).

Definition SETGATE (istrap : bool) (sel off d : Z) : gatedesc :=
  mk_gatedesc (Z.land (u32 off) 0xffff) sel 0 0 (if istrap then STS_TG32 else STS_IG32) 0 d 1 (Z.shiftr (u32 off) 16).

Definition gate_offset (g : gatedesc) : Z := off_15_0 g + 2 ^ 16 * off_31_16 g.

(** ** The CPU

    The fields of [struct cpu] and of its task state that the kernel sets, and
    the registers. *)
Record cpu_mmu := mk_cpu_mmu {
  gdt : list segdesc;
  ts_esp0 : Z; ts_ss0 : Z; ts_iomb : Z;
  gdtr : Z * Z; tr : Z; cr3 : Z;
  intr : cpu;
}.

Definition set_gdt v c := mk_cpu_mmu v (ts_esp0 c) (ts_ss0 c) (ts_iomb c) (gdtr c) (tr c) (cr3 c) (intr c).
Definition set_ts esp0 ss0 iomb c := mk_cpu_mmu (gdt c) esp0 ss0 iomb (gdtr c) (tr c) (cr3 c) (intr c).
Definition lgdt p size c := mk_cpu_mmu (gdt c) (ts_esp0 c) (ts_ss0 c) (ts_iomb c) (size - 1, p) (tr c) (cr3 c) (intr c).
Definition ltr v c := mk_cpu_mmu (gdt c) (ts_esp0 c) (ts_ss0 c) (ts_iomb c) (gdtr c) v (cr3 c) (intr c).
Definition lcr3 v c := mk_cpu_mmu (gdt c) (ts_esp0 c) (ts_ss0 c) (ts_iomb c) (gdtr c) (tr c) v (intr c).
Definition set_intr v c := mk_cpu_mmu (gdt c) (ts_esp0 c) (ts_ss0 c) (ts_iomb c) (gdtr c) (tr c) (cr3 c) v.

Section cpu.
(** Addresses of the CPU's [gdt] and [ts]. *)
Context (gdt_addr ts_addr : Z).
Definition sizeof_ts : Z := 104.
Definition sizeof_gdt : Z := 8 * Z.of_nat NSEGS.
Definition KSTACKSIZE : Z := 4096.

Definition seginit (c : cpu_mmu) : cpu_mmu :=
  let c := set_gdt (<[SEG_KCODE := SEG (Z.lor STA_X STA_R) 0 0xffffffff 0]> (gdt c)) c in
  let c := set_gdt (<[SEG_KDATA := SEG STA_W 0 0xffffffff 0]> (gdt c)) c in
  let c := set_gdt (<[SEG_UCODE := SEG (Z.lor STA_X STA_R) 0 0xffffffff DPL_USER]> (gdt c)) c in
  let c := set_gdt (<[SEG_UDATA := SEG STA_W 0 0xffffffff DPL_USER]> (gdt c)) c in
  lgdt gdt_addr sizeof_gdt c.

Definition switchkvm (kpgdir : Z) : M cpu_mmu unit := modify (lcr3 (V2P kpgdir)).

Definition system_seg (d : segdesc) : segdesc :=
  mk_segdesc (lim_15_0 d) (base_15_0 d) (base_23_16 d) (sd_type d) 0 (sd_dpl d) (sd_p d) (lim_19_16 d) (sd_avl d)
    (sd_rsv1 d) (sd_db d) (sd_g d) (base_31_24 d).

(** [switchuvm(p)] of a process with this kernel stack and page directory. *)
Definition switchuvm (kstack pgdir : Z) : M cpu_mmu unit :=
  if kstack =? 0 then panic "switchuvm: no kstack"
  else if pgdir =? 0 then panic "switchuvm: no pgdir"
  else
    modify (λ c, set_intr (pushcli (intr c)) c);;
    modify (λ c, set_gdt (<[SEG_TSS := SEG16 STS_T32A ts_addr (sizeof_ts - 1) 0]> (gdt c)) c);;
    modify (λ c, set_gdt (<[SEG_TSS := system_seg (gdt c !!! SEG_TSS)]> (gdt c)) c);;
    modify (λ c, set_ts (ts_esp0 c) (Z.of_nat SEG_KDATA * 8) (ts_iomb c) c);;
    modify (λ c, set_ts (u32 (kstack + KSTACKSIZE)) (ts_ss0 c) (ts_iomb c) c);;
    modify (λ c, set_ts (ts_esp0 c) (ts_ss0 c) 0xFFFF c);;
    modify (ltr (Z.of_nat SEG_TSS * 8));;
    modify (lcr3 (V2P pgdir));;
    (λ c, match popcli (intr c) with Done i => Done (tt, set_intr i c) | Fail e => Fail e end).
End cpu.

(** ** Interrupt vectors *)

Definition T_SYSCALL : nat := 64.

Section gates.
(** The table of handler addresses of vectors.S. *)
Context (vectors : nat → Z).

Fixpoint tvinit_loop (n i : nat) (idt : list gatedesc) : list gatedesc :=
  match n with
  | O => idt
  | S n' => tvinit_loop n' (S i) (<[i := SETGATE false (Z.of_nat SEG_KCODE * 8) (vectors i) 0]> idt)
  end.

(** The table and the lock of trap.c. *)
Definition tvinit (idt : list gatedesc) : list gatedesc * spinlock :=
  let idt := tvinit_loop 256 0 idt in
  let idt := <[T_SYSCALL := SETGATE true (Z.of_nat SEG_KCODE * 8) (vectors T_SYSCALL) DPL_USER]> idt in
  (idt, initlock "time").

Lemma tvinit_loop_spec n i idt j :
  (i + n ≤ length idt)%nat →
  length (tvinit_loop n i idt) = length idt ∧
  tvinit_loop n i idt !! j =
    if decide (i ≤ j < i + n)%nat then Some (SETGATE false (Z.of_nat SEG_KCODE * 8) (vectors j) 0) else idt !! j.
Proof.
  revert i idt. induction n as [|n IH]; intros i idt Hl; cbn [tvinit_loop].
  - split; [done|]. destruct (decide _); [lia|done].
  - destruct (IH (S i) (<[i := SETGATE false (Z.of_nat SEG_KCODE * 8) (vectors i) 0]> idt)) as [H1 H2]; [rewrite length_insert; lia|].
    rewrite length_insert in H1. split; [done|]. rewrite H2. destruct (decide (j = i)) as [->|Hne].
    + rewrite list_lookup_insert_eq by lia. destruct (decide (S i ≤ i < S i + n)%nat); [lia|]. destruct (decide _); [done|lia].
    + rewrite list_lookup_insert_ne by done. repeat destruct (decide _); done || lia.
Qed.

Lemma gate_offset_SETGATE b sel off d : 0 ≤ off < 2 ^ 32 → gate_offset (SETGATE b sel off d) = off.
Proof.
  intros H. unfold gate_offset, SETGATE. cbn [off_15_0 off_31_16]. rewrite u32_small by lia.
  change 0xffff with (Z.ones 16). rewrite Z.land_ones, Z.shiftr_div_pow2 by lia. rewrite Z.add_comm. symmetry. apply Z.div_mod. lia.
Qed.

(** After [tvinit] all 256 vectors enter the kernel's code segment at the
    vector's handler, and only the system call's can be raised by a user
    program: it is the only gate with user privilege, and the only one that
    leaves interrupts enabled. *)
Theorem tvinit_gates idt j :
  length idt = 256%nat → (j < 256)%nat → 0 ≤ vectors j < 2 ^ 32 →
  ∃ g, (tvinit idt).1 !! j = Some g ∧ gate_offset g = vectors j ∧ gd_cs g = Z.of_nat SEG_KCODE * 8 ∧ gd_p g = 1 ∧
    (gd_dpl g = DPL_USER ↔ j = T_SYSCALL) ∧ (gd_type g = STS_TG32 ↔ j = T_SYSCALL).
Proof.
  intros Hl Hj Hv. destruct (tvinit_loop_spec 256 0 idt j) as [H1 H2]; [lia|]. unfold tvinit. cbn [fst].
  destruct (decide (j = T_SYSCALL)) as [->|Hne].
  - rewrite list_lookup_insert_eq by lia. eexists. split; [done|]. by rewrite gate_offset_SETGATE.
  - rewrite list_lookup_insert_ne by done. rewrite H2. destruct (decide _); [|lia]. eexists. split; [done|].
    by rewrite gate_offset_SETGATE.
Qed.
End gates.

Lemma tvinit_gates_witness :
  ∃ g, (tvinit (λ i, 0x80105000 + 10 * Z.of_nat i) (replicate 256 inhabitant)).1 !! 14%nat = Some g ∧ gate_offset g = 0x8010508C.
Proof.
  destruct (tvinit_gates (λ i, 0x80105000 + 10 * Z.of_nat i) (replicate 256 inhabitant) 14) as (g & H1 & H2 & _).
  - by rewrite length_replicate.
  - lia.
  - done.
  - exists g. split; [exact H1|by rewrite H2].
Defined.
