(* ===== verification/Mp.v ===== *)
(** * mp.c and mp.h: finding the processors

    The BIOS leaves a floating pointer in low memory, which points to a table
    with an entry for each processor, bus and interrupt controller.  [m] is the
    kernel's memory, by virtual address; nothing here writes to it.  [apicids]
    are the [apicid] fields of the first [ncpu] entries of [cpus], as in
    [mycpu].  A pointer to a structure is its address, and 0 is the null
    pointer. *)

From S2P Require Import Prelude CString Irq Spinlock Mmu.

Module Mp.
Definition NCPU : Z := 8.

(** ** mp.h *)

(** struct mp *)
Definition sizeof_mp : Z := 16.
Definition mp_physaddr (m : mem) (mp : Z) : Z := load32 m (mp + 4).
Definition mp_imcrp (m : mem) (mp : Z) : Z := m (mp + 12).

(** struct mpconf *)
Definition sizeof_mpconf : Z := 44.
Definition conf_length (m : mem) (conf : Z) : Z := le_val [m (conf + 4); m (conf + 5)].
Definition conf_version (m : mem) (conf : Z) : Z := m (conf + 6).
Definition conf_lapicaddr (m : mem) (conf : Z) : Z := load32 m (conf + 36).

(** struct mpproc, struct mpioapic *)
Definition sizeof_mpproc : Z := 20.
Definition sizeof_mpioapic : Z := 8.
Definition proc_apicid (m : mem) (p : Z) : Z := m (p + 1).
Definition ioapic_apicno (m : mem) (p : Z) : Z := m (p + 1).

Definition MPPROC : Z := 0.
Definition MPBUS : Z := 1.
Definition MPIOAPIC : Z := 2.
Definition MPIOINTR : Z := 3.
Definition MPLINTR : Z := 4.

(** ** mp.c *)

Definition MP_SIGNATURE : list Z := [95; 77; 80; 95].
Definition PCMP_SIGNATURE : list Z := [80; 67; 77; 80].

Fixpoint sum_loop (n : nat) (addr acc : Z) (m : mem) : Z :=
  match n with
  | O => acc
  | S n' => sum_loop n' (addr + 1) (s32 (acc + m addr)) m
  end.
Definition sum (addr len : Z) (m : mem) : Z := u8 (sum_loop (Z.to_nat len) addr 0 m).

(** [memcmp] with the characters of a literal. *)
Fixpoint memcmp_lit (p : Z) (lit : list Z) (m : mem) : Z :=
  match lit with
  | [] => 0
  | c :: lit' => if m p =? c then memcmp_lit (p + 1) lit' m else m p - c
  end.

Fixpoint mpsearch1_loop (n : nat) (p e : Z) (m : mem) : Z :=
  match n with
  | O => 0
  | S n' =>
      if p <? e then
        if (memcmp_lit p MP_SIGNATURE m =? 0) && (sum p sizeof_mp m =? 0) then p
        else mpsearch1_loop n' (p + sizeof_mp) e m
      else 0
  end.

(** One round per structure that fits, and the last test of [p < e]. *)
Definition mpsearch1 (a len : Z) (m : mem) : Z :=
  let addr := P2V a in
  mpsearch1_loop (S (Z.to_nat (len / sizeof_mp))) addr (addr + len) m.

Definition mpsearch (m : mem) : Z :=
  let bda := P2V 0x400 in
  let p := Z.shiftl (Z.lor (Z.shiftl (m (bda + 0x0F)) 8) (m (bda + 0x0E))) 4 in
  let mp :=
    if negb (p =? 0) then mpsearch1 p 1024 m
    else
      let p := Z.lor (Z.shiftl (m (bda + 0x14)) 8) (m (bda + 0x13)) * 1024 in
      mpsearch1 (u32 (p - 1024)) 1024 m in
  if negb (mp =? 0) then mp else mpsearch1 0xF0000 0x10000 m.

(** The structure and the configuration table. *)
Definition mpconfig (m : mem) : option (Z * Z) :=
  let mp := mpsearch m in
  if (mp =? 0) || (mp_physaddr m mp =? 0) then None
  else
    let conf := P2V (mp_physaddr m mp) in
    if negb (memcmp_lit conf PCMP_SIGNATURE m =? 0) then None
    else if negb (conf_version m conf =? 1) && negb (conf_version m conf =? 4) then None
    else if negb (sum conf (conf_length m conf) m =? 0) then None
    else Some (mp, conf).

Record mpst (D : Type) := mk_mpst {
  apicids : list Z;
  ioapicid : Z;
  lapic : Z;
  mp_ports : D;
}.
Arguments mk_mpst {D}. Arguments apicids {D}. Arguments ioapicid {D}. Arguments lapic {D}. Arguments mp_ports {D}.

Section mpinit.
Context {D : Type} `{!BytePorts D}.
Abbreviation mpst := (mpst D).

Definition set_apicids l (s : mpst) : mpst := mk_mpst l (ioapicid s) (lapic s) (mp_ports s).
Definition set_ioapicid x (s : mpst) : mpst := mk_mpst (apicids s) x (lapic s) (mp_ports s).
Definition set_lapic a (s : mpst) : mpst := mk_mpst (apicids s) (ioapicid s) a (mp_ports s).
Definition set_ports d (s : mpst) : mpst := mk_mpst (apicids s) (ioapicid s) (lapic s) d.

Definition mp_in (port : Z) : M mpst Z := λ s, let '(v, d) := inb port (mp_ports s) in Done (v, set_ports d s).
Definition mp_out (port v : Z) : M mpst unit := modify (λ s, set_ports (outb port (u8 v) (mp_ports s)) s).

Definition ncpu (s : mpst) : Z := Z.of_nat (length (apicids s)).

(** The loop over the entries; the result is [ismp].  The [break] of the
    default case leaves the switch only. *)
Fixpoint mpinit_loop (fuel : nat) (m : mem) (p e : Z) (ismp : bool) : M mpst bool :=
  match fuel with
  | O => fail EFuel
  | S fuel' =>
      if p <? e then
        let type := m p in
        if type =? MPPROC then
          n <- gets ncpu;;
          when (n <? NCPU) (modify (λ s, set_apicids (apicids s ++ [proc_apicid m p]) s));;
          mpinit_loop fuel' m (p + sizeof_mpproc) e ismp
        else if type =? MPIOAPIC then
          modify (set_ioapicid (ioapic_apicno m p));;
          mpinit_loop fuel' m (p + sizeof_mpioapic) e ismp
        else if (type =? MPBUS) || (type =? MPIOINTR) || (type =? MPLINTR) then
          mpinit_loop fuel' m (p + 8) e ismp
        else mpinit_loop fuel' m p e false
      else ret ismp
  end.

Definition mpinit (fuel : nat) (m : mem) : M mpst unit :=
  match mpconfig m with
  | None => panic "Expect to run on an SMP"
  | Some (mp, conf) =>
      modify (set_lapic (conf_lapicaddr m conf));;
      ismp <- mpinit_loop fuel m (conf + sizeof_mpconf) (conf + conf_length m conf) true;;
      if negb ismp then panic "Didn't find a suitable machine"
      else
        when (negb (mp_imcrp m mp =? 0)) (
          mp_out 0x22 0x70;;
          v <- mp_in 0x23;;
          mp_out 0x23 (Z.lor v 1))
  end.
End mpinit.

(** ** The structures the BIOS leaves *)

Definition sum_of (l : list Z) : Z := foldr Z.add 0 l.

Lemma sum_loop_spec n a acc m : u8 (sum_loop n a acc m) = u8 (acc + sum_of (read_bytes m a n)).
Proof.
  revert a acc. induction n as [|n IH]; intros a acc; cbn [sum_loop]; [by rewrite Z.add_0_r|].
  rewrite read_bytes_S, IH. cbn [sum_of foldr]. fold (sum_of (read_bytes m (a + 1) n)).
  unfold u8, s32. change (2 ^ 32) with (2 ^ 8 * 2 ^ 24). change (2 ^ 31) with (2 ^ 23 * 2 ^ 8).
  rewrite Z.rem_mul_r by lia. set (y := acc + m a). set (q := _ mod 2 ^ 24).
  replace ((y + 2 ^ 23 * 2 ^ 8) mod 2 ^ 8 + 2 ^ 8 * q - 2 ^ 23 * 2 ^ 8 + sum_of (read_bytes m (a + 1) n))
    with ((y mod 2 ^ 8 + sum_of (read_bytes m (a + 1) n)) + (q - 2 ^ 23) * 2 ^ 8) by (rewrite Z.mod_add by lia; lia).
  rewrite Z.mod_add, Zplus_mod_idemp_l by lia. f_equal. unfold y. lia.
Qed.

Lemma sum_spec a len m : sum a len m = u8 (sum_of (read_bytes m a (Z.to_nat len))).
Proof. apply sum_loop_spec. Qed.

Lemma memcmp_lit_spec p lit m : memcmp_lit p lit m = 0 ↔ read_bytes m p (length lit) = lit.
Proof.
  revert p. induction lit as [|c lit IH]; intros p; cbn [memcmp_lit length]; [done|]. rewrite read_bytes_S.
  destruct (Z.eqb_spec (m p) c) as [->|Hn]; [rewrite IH|]; split; intros H.
  - by rewrite H.
  - by injection H.
  - lia.
  - by injection H.
Qed.

(** A floating pointer structure: signature and checksum. *)
Definition is_mp (m : mem) (p : Z) : Prop :=
  read_bytes m p 4 = MP_SIGNATURE ∧ u8 (sum_of (read_bytes m p 16)) = 0.

#[export] Instance is_mp_dec m p : Decision (is_mp m p).
Proof. unfold is_mp. apply _. Defined.

Lemma is_mp_test m p : (memcmp_lit p MP_SIGNATURE m =? 0) && (sum p sizeof_mp m =? 0) = bool_decide (is_mp m p).
Proof.
  apply eq_true_iff_eq. rewrite andb_true_iff, !Z.eqb_eq, bool_decide_eq_true, sum_spec, memcmp_lit_spec. done.
Qed.

(** The addresses [mpsearch] looks at, in its order: every 16 bytes in the first
    KB of the extended BIOS data area, or, if there is none, the last KB of
    the base memory; then in the ROM from 0xF0000. *)
Definition places (a len : Z) : list Z := (λ k, P2V a + 16 * k) <$> seqZ 0 (len / 16).
Definition ebda (m : mem) : Z := 16 * (m (P2V 0x40E) + 256 * m (P2V 0x40F)).
Definition base_kb (m : mem) : Z := m (P2V 0x413) + 256 * m (P2V 0x414).
Definition candidates (m : mem) : list Z :=
  (if decide (ebda m = 0) then places (u32 (1024 * base_kb m - 1024)) 1024 else places (ebda m) 1024) ++
  places 0xF0000 0x10000.

(** The first address of [l] with a structure, or 0. *)
Fixpoint first_mp (m : mem) (l : list Z) : Z :=
  match l with [] => 0 | p :: l' => if decide (is_mp m p) then p else first_mp m l' end.

Lemma first_mp_app m l1 l2 : (∀ p, p ∈ l1 → p ≠ 0) →
  first_mp m (l1 ++ l2) = if first_mp m l1 =? 0 then first_mp m l2 else first_mp m l1.
Proof.
  induction l1 as [|p l1 IH]; intros Hl; [done|]. cbn [app first_mp]. case_decide.
  - assert (p ≠ 0) by (apply Hl; set_solver). by rewrite (proj2 (Z.eqb_neq p 0)).
  - apply IH. intros q Hq. apply Hl. set_solver.
Qed.

Lemma mpsearch1_loop_spec m n p e : e = p + 16 * Z.of_nat n →
  mpsearch1_loop (S n) p e m = first_mp m ((λ k, p + 16 * k) <$> seqZ 0 (Z.of_nat n)).
Proof.
  revert p. induction n as [|n IH]; intros p He.
  { cbn [mpsearch1_loop]. by rewrite (proj2 (Z.ltb_ge p e)) by lia. }
  remember (S n) as n1 eqn:En. cbn [mpsearch1_loop]. subst n1. rewrite (proj2 (Z.ltb_lt p e)) by lia.
  rewrite is_mp_test, seqZ_cons by lia. rewrite fmap_cons. cbn [first_mp]. rewrite Z.mul_0_r, Z.add_0_r.
  case_bool_decide; case_decide; try done. rewrite IH by (unfold sizeof_mp; lia). f_equal.
  replace (Z.pred (Z.of_nat (S n))) with (Z.of_nat n) by lia. apply list_eq. intros i. rewrite !list_lookup_fmap.
  destruct (decide (Z.of_nat i < Z.of_nat n)).
  - rewrite !lookup_seqZ_lt by lia. cbn. unfold sizeof_mp. f_equal. lia.
  - by rewrite !lookup_seqZ_ge by lia.
Qed.

Lemma mpsearch1_spec m a len : 0 ≤ len → len mod 16 = 0 → mpsearch1 a len m = first_mp m (places a len).
Proof.
  intros Hl Hm. unfold mpsearch1, places, sizeof_mp. pose proof (Z.div_mod len 16). pose proof (Z.div_pos len 16).
  rewrite mpsearch1_loop_spec by lia. by rewrite Z2Nat.id by lia.
Qed.

Lemma places_nonzero a len p : 0 ≤ a → a + KERNBASE < 2 ^ 32 ∨ KERNBASE < a < 2 ^ 32 → p ∈ places a len → p ≠ 0.
Proof.
  unfold places, KERNBASE. intros Ha Hk Hp. apply list_elem_of_fmap in Hp as (k & -> & Hk1%elem_of_seqZ).
  unfold P2V, u32, KERNBASE. destruct Hk as [Hk|Hk]; [rewrite Z.mod_small by lia; lia|].
  replace (a + 2147483648) with (a - 2147483648 + 1 * 2 ^ 32) by lia. rewrite Z.mod_add, Z.mod_small by lia. lia.
Qed.

Definition all_bytes (m : mem) : Prop := ∀ a, is_byte (m a).

Lemma mpsearch_spec m : all_bytes m → mpsearch m = first_mp m (candidates m).
Proof.
  intros Hb. unfold mpsearch, candidates. pose proof (Hb (P2V 0x40E)). pose proof (Hb (P2V 0x40F)). pose proof (Hb (P2V 0x413)). pose proof (Hb (P2V 0x414)).
  assert (∀ x y, is_byte x → is_byte y → Z.lor (Z.shiftl x 8) y = y + 256 * x) as Hw.
  { intros x y Hx Hy. rewrite Z.lor_comm, Z_lor_shiftl_add by lia. lia. }
  change (P2V 0x400 + 0x0F) with (P2V 0x40F). change (P2V 0x400 + 0x0E) with (P2V 0x40E).
  change (P2V 0x400 + 0x14) with (P2V 0x414). change (P2V 0x400 + 0x13) with (P2V 0x413).
  rewrite !Hw, Z.shiftl_mul_pow2 by done. replace (_ * 2 ^ 4) with (ebda m) by (unfold ebda; lia).
  replace ((m (P2V 0x413) + 256 * m (P2V 0x414)) * 1024 - 1024) with (1024 * base_kb m - 1024) by (unfold base_kb; lia).
  assert (0 ≤ ebda m < 2 ^ 21) by (unfold ebda; lia). assert (0 ≤ base_kb m < 2 ^ 16) by (unfold base_kb; lia).
  rewrite first_mp_app.
  - case_decide as He.
    + rewrite He, !mpsearch1_spec by done. cbn [Z.eqb negb]. by destruct (_ =? 0).
    + rewrite (proj2 (Z.eqb_neq (ebda m) 0)), !mpsearch1_spec by done. cbn [negb]. by destruct (_ =? 0).
  - intros p. case_decide; apply places_nonzero; try lia; [apply u32_range| |left; unfold KERNBASE; lia].
    pose proof (u32_range (1024 * base_kb m - 1024)). unfold KERNBASE in *.
    destruct (decide (base_kb m = 0)) as [->|]; [right; vm_compute; split; done|left; rewrite u32_small; lia].
Qed.

(** The configuration table: signature, version and checksum. *)
Definition conf_ok (m : mem) (conf : Z) : Prop :=
  read_bytes m conf 4 = PCMP_SIGNATURE ∧ (conf_version m conf = 1 ∨ conf_version m conf = 4) ∧
  u8 (sum_of (read_bytes m conf (Z.to_nat (conf_length m conf)))) = 0.

(** What the BIOS describes: the first floating pointer among the places
    where it may be, and the table it points to. *)
Definition described (m : mem) (mp conf : Z) : Prop :=
  first_mp m (candidates m) = mp ∧ mp ≠ 0 ∧ mp_physaddr m mp ≠ 0 ∧ conf = P2V (mp_physaddr m mp) ∧ conf_ok m conf.

Lemma mpconfig_spec m mp conf : all_bytes m → mpconfig m = Some (mp, conf) ↔ described m mp conf.
Proof.
  intros Hb. unfold mpconfig, described, conf_ok. rewrite mpsearch_spec by done. set (x := first_mp m _).
  destruct (Z.eqb_spec x 0) as [E|E]; cbn [orb]; [naive_solver congruence|].
  destruct (Z.eqb_spec (mp_physaddr m x) 0) as [E1|E1]; cbn [orb]; [naive_solver congruence|]. set (c := P2V (mp_physaddr m x)).
  destruct (Z.eqb_spec (memcmp_lit c PCMP_SIGNATURE m) 0) as [E2|E2]; rewrite memcmp_lit_spec in E2; cbn [negb length PCMP_SIGNATURE] in E2 |- *; [|naive_solver].
  rewrite sum_spec.
  destruct (Z.eqb_spec (conf_version m c) 1), (Z.eqb_spec (conf_version m c) 4), (Z.eqb_spec (u8 (sum_of (read_bytes m c (Z.to_nat (conf_length m c))))) 0);
    cbn [negb andb]; naive_solver congruence.
Qed.

(** The entries of the table, as the MultiProcessor Specification lays them
    out; what mp.c does not look at is kept as bytes. *)
Inductive mpentry :=
  | Proc (apicid : Z) (rest : list Z)
  | Bus (rest : list Z)
  | Ioapic (apicno : Z) (rest : list Z)
  | Iointr (rest : list Z)
  | Lintr (rest : list Z).

Definition encode (x : mpentry) : list Z :=
  match x with
  | Proc a r => MPPROC :: a :: r
  | Bus r => MPBUS :: r
  | Ioapic a r => MPIOAPIC :: a :: r
  | Iointr r => MPIOINTR :: r
  | Lintr r => MPLINTR :: r
  end.
Definition entry_ok (x : mpentry) : Prop := length (encode x) = match x with Proc _ _ => 20%nat | _ => 8%nat end.
Definition encode_all (l : list mpentry) : list Z := concat (encode <$> l).

Definition procs (l : list mpentry) : list Z := omap (λ x, match x with Proc a _ => Some a | _ => None end) l.
Definition ioapics (l : list mpentry) : list Z := omap (λ x, match x with Ioapic a _ => Some a | _ => None end) l.

(** The table at [conf] starts with the entries [l]. *)
Definition lists (m : mem) (conf : Z) (l : list mpentry) : Prop :=
  Forall entry_ok l ∧ read_bytes m (conf + sizeof_mpconf) (length (encode_all l)) = encode_all l.

Lemma read_bytes_app m p n1 n2 : read_bytes m p (n1 + n2) = read_bytes m p n1 ++ read_bytes m (p + Z.of_nat n1) n2.
Proof.
  revert p. induction n1 as [|n IH]; intros p; [by rewrite Z.add_0_r|]. cbn [Nat.add]. rewrite !read_bytes_S, IH. cbn. f_equal. f_equal. f_equal. lia.
Qed.

Section correct.
Context {D : Type} `{!BytePorts D}.
Abbreviation mpst := (mpst D).

(** What an entry changes. *)
Definition enter (s : mpst) (x : mpentry) : mpst :=
  match x with
  | Proc a _ => if ncpu s <? NCPU then set_apicids (apicids s ++ [a]) s else s
  | Ioapic a _ => set_ioapicid a s
  | _ => s
  end.

Lemma enter_all l (s : mpst) : (length (apicids s) ≤ Z.to_nat NCPU)%nat →
  foldl enter s l =
  mk_mpst (take (Z.to_nat NCPU) (apicids s ++ procs l)) (default (ioapicid s) (last (ioapics l))) (lapic s) (mp_ports s).
Proof.
  revert s. induction l as [|x l IH]; intros s Hs; cbn [foldl].
  { cbn. rewrite app_nil_r, take_ge by done. by destruct s. }
  assert (∀ a, last (a :: ioapics l) = Some (default a (last (ioapics l)))) as Hlast.
  { intros a. rewrite last_cons. by destruct (last (ioapics l)). }
  destruct x as [a r|r|a r|r|r]; try (rewrite IH by done; done).
  - cbn [enter]. unfold ncpu. destruct (Z.ltb_spec (Z.of_nat (length (apicids s))) NCPU) as [Hn|Hn]; unfold NCPU in *.
    + rewrite IH by (cbn; rewrite length_app; cbn; lia). cbn. by rewrite <-app_assoc.
    + rewrite IH by done. rewrite !take_app_le, !take_ge by lia. done.
  - cbn [enter]. rewrite IH by done. cbn. fold (ioapics l). rewrite Hlast. done.
Qed.

Lemma mpinit_entry fuel m p e b x (s : mpst) : entry_ok x → read_bytes m p (length (encode x)) = encode x → p < e →
  mpinit_loop (S fuel) m p e b s = mpinit_loop fuel m (p + Z.of_nat (length (encode x))) e b (enter s x).
Proof.
  intros Hok Hm Hp. rewrite Hok. cbn [mpinit_loop]. rewrite (proj2 (Z.ltb_lt p e)) by done.
  unfold entry_ok in Hok. destruct x as [a r|r|a r|r|r]; cbn [encode length] in Hm, Hok; rewrite ?read_bytes_S in Hm; injection Hm;
    intros; repeat match goal with H : m _ = _ |- _ => rewrite H end; try done.
  - unfold bind, gets, proc_apicid. cbn -[Z.ltb]. unfold ncpu. by destruct (_ <? _); cbn; repeat match goal with H : m _ = _ |- _ => rewrite H end.
  - unfold ioapic_apicno. by match goal with H : m (p + 1) = _ |- _ => rewrite H end.
Qed.

Lemma mpinit_entries l : ∀ fuel m p e b (s : mpst),
  Forall entry_ok l → read_bytes m p (length (encode_all l)) = encode_all l → p + Z.of_nat (length (encode_all l)) ≤ e →
  mpinit_loop fuel m p e b s =
  if (fuel <? length l)%nat then Fail EFuel
  else mpinit_loop (fuel - length l) m (p + Z.of_nat (length (encode_all l))) e b (foldl enter s l).
Proof.
  induction l as [|x l IH]; intros fuel m p e b s Hok Hm He.
  { cbn. by rewrite Nat.sub_0_r, Z.add_0_r. }
  apply Forall_cons in Hok as [Hx Hl]. unfold encode_all in *. cbn [fmap list_fmap concat length foldl] in *. rewrite length_app in *.
  rewrite read_bytes_app in Hm. apply app_inj_1 in Hm as [Hm1 Hm2]; [|apply length_read_bytes].
  assert (0 < length (encode x))%nat by (rewrite Hx; by destruct x; cbn; lia).
  destruct fuel as [|fuel]; [done|]. rewrite (mpinit_entry _ _ _ _ _ x) by (done || lia). rewrite IH by (done || lia).
  replace (S fuel <? S (length l))%nat with (fuel <? length l)%nat by done. by rewrite <-Z.add_assoc, <-Nat2Z.inj_add.
Qed.

Lemma mpinit_unknown fuel m p e b (s : mpst) : p < e → 4 < m p → mpinit_loop fuel m p e b s = Fail EFuel.
Proof.
  intros Hp Hm. revert b s. induction fuel as [|fuel IH]; intros b s; [done|]. cbn [mpinit_loop].
  rewrite (proj2 (Z.ltb_lt p e)) by done. unfold MPPROC, MPBUS, MPIOAPIC, MPIOINTR, MPLINTR.
  rewrite !(proj2 (Z.eqb_neq (m p) _)) by lia. apply IH.
Qed.

Lemma find_apicid_in l k a : a ∈ l → ∃ i, find_apicid l k a = Some (k + i)%nat ∧ l !! i = Some a.
Proof.
  revert k. induction l as [|x l IH]; intros k Ha; [by apply elem_of_nil in Ha|]. cbn.
  destruct (Z.eqb_spec x a) as [->|Hx]; [exists O; split; [by rewrite Nat.add_0_r|done]|].
  apply elem_of_cons in Ha as [->|Ha]; [done|]. destruct (IH (S k) Ha) as (i & -> & Hi). exists (S i). split; [f_equal; lia|done].
Qed.

(** The interrupt mode register, where there is one: external interrupts go
    through the APIC. *)
Definition imcr_set (imcrp : Z) (d : D) : D :=
  if imcrp =? 0 then d
  else let '(v, d) := inb 0x23 (outb 0x22 0x70 d) in outb 0x23 (u8 (Z.lor v 1)) d.

(** On a machine whose BIOS describes it with entries of the known types,
    [mpinit] records the APIC ids of the processors in their order, as many
    as [cpus] has room for, the last I/O APIC and the address of the local
    APIC, sets the interrupt mode register if there is one, and from then on
    [mycpu] finds the entry of each recorded processor.  If the table has
    an entry of another type, [mpinit] never returns: not even the panic for
    an unsuitable machine is reached. *)
Theorem mpinit_correct m mp conf l fuel (s : mpst) :
  all_bytes m → described m mp conf → lists m conf l → apicids s = [] →
  let len := sizeof_mpconf + Z.of_nat (length (encode_all l)) in
  let found := take (Z.to_nat NCPU) (procs l) in
  (conf_length m conf = len → (length l < fuel)%nat →
     mpinit fuel m s = Done (tt, mk_mpst found (default (ioapicid s) (last (ioapics l))) (conf_lapicaddr m conf)
                                  (imcr_set (mp_imcrp m mp) (mp_ports s))) ∧
     ∀ id c, id ∈ found → if_set c = false → ∃ i, mycpu found id c = Done i ∧ found !! i = Some id) ∧
  (len < conf_length m conf → 4 < m (conf + len) → mpinit fuel m s = Fail EFuel).
Proof.
  intros Hb Hd [Hok Hl] Hs len found. apply mpconfig_spec in Hd; [|done]. unfold mpinit. rewrite Hd.
  set (s1 := set_lapic (conf_lapicaddr m conf) s).
  assert (len = 44 + Z.of_nat (length (encode_all l))) as Elen by done. clearbody len.
  change sizeof_mpconf with 44 in *. split.
  - intros Hlen Hf. split.
    + unfold bind at 1, modify. unfold bind at 1. fold s1. rewrite (mpinit_entries l) by (done || lia).
      rewrite (proj2 (Nat.ltb_ge fuel (length l))) by lia. rewrite enter_all by (cbn; rewrite Hs; cbn; lia).
      destruct (fuel - length l)%nat as [|k] eqn:Ek; [lia|]. cbn [mpinit_loop]. rewrite (proj2 (Z.ltb_ge _ _)) by lia.
      unfold ret. cbn [negb]. unfold s1. cbn [apicids ioapicid lapic mp_ports set_lapic]. rewrite Hs. cbn [app]. fold found.
      unfold imcr_set, when. destruct (Z.eqb_spec (mp_imcrp m mp) 0); cbn [negb]; [done|].
      unfold bind, mp_out, mp_in, modify. cbn. by destruct (inb 35 _).
    + intros id c Hid Hc. unfold mycpu. rewrite Hc. destruct (find_apicid_in found 0 id Hid) as (i & -> & Hi). by exists i.
  - intros Hlen Hun. unfold bind at 1, modify. unfold bind at 1. rewrite (mpinit_entries l) by (done || lia).
    destruct (_ <? _)%nat; [done|]. by rewrite mpinit_unknown by (rewrite ?Elen in Hun; rewrite ?Z.add_assoc in *; lia).
Qed.
End correct.

(** ** A machine to run *)
Module MpDemo.
#[global] Instance demo_mp_ports : BytePorts (list (Z * Z)) := {|
  inb _ d := (0, d);
  outb p v d := d ++ [(p, v)];
|}.

Definition entries : list mpentry :=
  [Proc 4 (replicate 18 0); Bus (replicate 7 0); Proc 6 (replicate 18 1); Ioapic 2 (replicate 6 9); Lintr (replicate 7 3)].

(** A list of bytes with byte [k] set so that all add up to 0. *)
Definition checked (k : nat) (l : list Z) : list Z := <[k := u8 (- sum_of l)]> l.

(** The table with [extra] after the entries. *)
Definition table (extra : list Z) : list Z :=
  let body := encode_all entries ++ extra in
  checked 7 (PCMP_SIGNATURE ++ le_bytes 2 (44 + Z.of_nat (length body)) ++ [4; 0] ++ replicate 28 0 ++
    le_bytes 4 0xFEE00000 ++ replicate 4 0 ++ body).

(** The floating pointer is in the extended BIOS data area at 0x9FC00. *)
Definition pointer : list Z := checked 10 (MP_SIGNATURE ++ le_bytes 4 0x9FD00 ++ [1; 4; 0; 0; 128; 0; 0; 0]).
Definition memory (extra : list Z) : mem :=
  write_bytes (P2V 0x9FD00) (table extra) (write_bytes (P2V 0x9FC00) pointer (write_bytes (P2V 0x40E) [0xC0; 0x9F] (λ _, 0))).

Lemma write_bytes_all p l m : all_bytes m → bytes l → all_bytes (write_bytes p l m).
Proof.
  intros Hm Hl a. rewrite write_bytes_spec. case_decide; [|apply Hm]. rewrite Forall_forall in Hl. apply Hl.
  apply list_elem_of_lookup_total_2. lia.
Qed.

Lemma memory_bytes extra : bytes (table extra) → all_bytes (memory extra).
Proof. intros H. apply write_bytes_all; [apply write_bytes_all; [apply write_bytes_all|]|done]; try (intros a; lia); by repeat constructor. Qed.

Definition start : mpst (list (Z * Z)) := mk_mpst [] 0 0 [].
End MpDemo.

(** Two processors are found; with an entry of type 7 at the end of the table
    the loop does not end. *)
Lemma mpinit_correct_witness :
  mpinit 9 (MpDemo.memory []) MpDemo.start = Done (tt, mk_mpst [4; 6] 2 0xFEE00000 [(0x22, 0x70); (0x23, 1)]) ∧
  mpinit 1000 (MpDemo.memory [7]) MpDemo.start = Fail EFuel.
Proof.
  assert (lists (MpDemo.memory []) (P2V 0x9FD00) MpDemo.entries ∧ lists (MpDemo.memory [7]) (P2V 0x9FD00) MpDemo.entries) as [Hl1 Hl2].
  { split; (split; [by repeat constructor|by vm_compute]). }
  assert (described (MpDemo.memory []) (P2V 0x9FC00) (P2V 0x9FD00) ∧ described (MpDemo.memory [7]) (P2V 0x9FC00) (P2V 0x9FD00)) as [Hd1 Hd2].
  { split; vm_compute; split_and!; auto; done. }
  assert (all_bytes (MpDemo.memory []) ∧ all_bytes (MpDemo.memory [7])) as [Hb1 Hb2].
  { split; apply MpDemo.memory_bytes, (bool_decide_eq_true_1 _); by vm_compute. }
  destruct (mpinit_correct _ _ _ _ 9 MpDemo.start Hb1 Hd1 Hl1 eq_refl) as [[H1 _] _]; [by vm_compute|cbn; lia|].
  destruct (mpinit_correct _ _ _ _ 1000 MpDemo.start Hb2 Hd2 Hl2 eq_refl) as [_ H2].
  split; [rewrite H1; by vm_compute|apply H2; by vm_compute].
Defined.
End Mp.
