(* ===== verification/Proc.v ===== *)
(** * proc.c: processes and the scheduler

    The process table is a list of [NPROC] entries; a [struct proc *] is an
    index into it and [None] is the null pointer.  What proc.c uses of the
    memory, file and inode code is the interface [ProcEnv].  A function that
    gives up the CPU is split where it calls [sched]: the part before it ends
    with [sched]'s checks, the part after it runs when the process is
    scheduled again. *)

From S2P Require Import Prelude Spinlock Mmu Segment.

Definition NPROC : nat := 64.
Definition NOFILE : nat := 16.
Definition MAXARG : nat := 32.

(** ** Structures of proc.h and x86.h *)

Inductive procstate := UNUSED | EMBRYO | SLEEPING | RUNNABLE | RUNNING | ZOMBIE.
#[export] Instance procstate_eq_dec : EqDecision procstate.
Proof. solve_decision. Defined.

Record context := mk_context { c_edi : Z; c_esi : Z; c_ebx : Z; c_ebp : Z; c_eip : Z }.

Record trapframe := mk_trapframe {
  edi : Z; esi : Z; ebp : Z; oesp : Z; ebx : Z; edx : Z; ecx : Z; eax : Z;
  gs : Z; fs : Z; es : Z; ds : Z; trapno : Z;
  tf_err : Z; eip : Z; cs : Z; tf_eflags : Z; esp : Z; ss : Z;
}.

Definition zero_trapframe : trapframe := mk_trapframe 0 0 0 0 0 0 0 0 0 0 0 0 0 0 0 0 0 0 0.
Definition sizeof_trapframe : Z := 76.
Definition sizeof_context : Z := 20.

Definition set_eax (v : Z) (t : trapframe) : trapframe :=
  mk_trapframe (edi t) (esi t) (ebp t) (oesp t) (ebx t) (edx t) (ecx t) v (gs t) (fs t) (es t) (ds t) (trapno t)
    (tf_err t) (eip t) (cs t) (tf_eflags t) (esp t) (ss t).

(** A sleep channel is the address of some object: of a process, or another. *)
Inductive chan := CProc (p : nat) | CAddr (a : Z).
#[export] Instance chan_eq_dec : EqDecision chan.
Proof. solve_decision. Defined.

Record proc := mk_proc {
  p_sz : Z;
  p_pgdir : Z;
  kstack : Z;
  state : procstate;
  p_pid : Z;
  parent : option nat;
  tf_ptr : Z;
  tf : trapframe;
  ctx_ptr : Z;
  ctx : context;
  p_chan : option chan;
  killed : Z;
  ofile : list (option nat);
  cwd : option nat;
  p_name : list Z;
}.

Definition zero_proc : proc :=
  mk_proc 0 0 0 UNUSED 0 None 0 zero_trapframe 0 (mk_context 0 0 0 0 0) None 0 (replicate NOFILE None) None (replicate 16 0).
#[export] Instance proc_inhabited : Inhabited proc := populate zero_proc.

Definition set_sz v q := mk_proc v (p_pgdir q) (kstack q) (state q) (p_pid q) (parent q) (tf_ptr q) (tf q) (ctx_ptr q) (ctx q) (p_chan q) (killed q) (ofile q) (cwd q) (p_name q).
Definition set_pgdir v q := mk_proc (p_sz q) v (kstack q) (state q) (p_pid q) (parent q) (tf_ptr q) (tf q) (ctx_ptr q) (ctx q) (p_chan q) (killed q) (ofile q) (cwd q) (p_name q).
Definition set_kstack v q := mk_proc (p_sz q) (p_pgdir q) v (state q) (p_pid q) (parent q) (tf_ptr q) (tf q) (ctx_ptr q) (ctx q) (p_chan q) (killed q) (ofile q) (cwd q) (p_name q).
Definition set_state v q := mk_proc (p_sz q) (p_pgdir q) (kstack q) v (p_pid q) (parent q) (tf_ptr q) (tf q) (ctx_ptr q) (ctx q) (p_chan q) (killed q) (ofile q) (cwd q) (p_name q).
Definition set_pid v q := mk_proc (p_sz q) (p_pgdir q) (kstack q) (state q) v (parent q) (tf_ptr q) (tf q) (ctx_ptr q) (ctx q) (p_chan q) (killed q) (ofile q) (cwd q) (p_name q).
Definition set_parent v q := mk_proc (p_sz q) (p_pgdir q) (kstack q) (state q) (p_pid q) v (tf_ptr q) (tf q) (ctx_ptr q) (ctx q) (p_chan q) (killed q) (ofile q) (cwd q) (p_name q).
Definition set_tf a v q := mk_proc (p_sz q) (p_pgdir q) (kstack q) (state q) (p_pid q) (parent q) a v (ctx_ptr q) (ctx q) (p_chan q) (killed q) (ofile q) (cwd q) (p_name q).
Definition set_ctx a v q := mk_proc (p_sz q) (p_pgdir q) (kstack q) (state q) (p_pid q) (parent q) (tf_ptr q) (tf q) a v (p_chan q) (killed q) (ofile q) (cwd q) (p_name q).
Definition set_chan v q := mk_proc (p_sz q) (p_pgdir q) (kstack q) (state q) (p_pid q) (parent q) (tf_ptr q) (tf q) (ctx_ptr q) (ctx q) v (killed q) (ofile q) (cwd q) (p_name q).
Definition set_killed v q := mk_proc (p_sz q) (p_pgdir q) (kstack q) (state q) (p_pid q) (parent q) (tf_ptr q) (tf q) (ctx_ptr q) (ctx q) (p_chan q) v (ofile q) (cwd q) (p_name q).
Definition set_ofile v q := mk_proc (p_sz q) (p_pgdir q) (kstack q) (state q) (p_pid q) (parent q) (tf_ptr q) (tf q) (ctx_ptr q) (ctx q) (p_chan q) (killed q) v (cwd q) (p_name q).
Definition set_cwd v q := mk_proc (p_sz q) (p_pgdir q) (kstack q) (state q) (p_pid q) (parent q) (tf_ptr q) (tf q) (ctx_ptr q) (ctx q) (p_chan q) (killed q) (ofile q) v (p_name q).
Definition set_name v q := mk_proc (p_sz q) (p_pgdir q) (kstack q) (state q) (p_pid q) (parent q) (tf_ptr q) (tf q) (ctx_ptr q) (ctx q) (p_chan q) (killed q) (ofile q) (cwd q) v.

(** ** State *)

Record pst (W : Type) := mk_pst {
  pt_lock : spinlock;
  procs : list proc;
  initproc : option nat;
  nextpid : Z;
  world : W;
}.
Arguments mk_pst {W}.
Arguments pt_lock {W}.
Arguments procs {W}.
Arguments initproc {W}.
Arguments nextpid {W}.
Arguments world {W}.

(** kalloc.c, vm.c, file.c, fs.c and log.c, as proc.c calls them. *)
Class ProcEnv (W : Type) := {
  pe_kalloc : M W Z;
  pe_kfree : Z → M W unit;
  pe_store32 : Z → Z → M W unit;
  pe_setupkvm : M W Z;
  pe_inituvm : Z → M W unit;
  pe_copyuvm : Z → Z → M W Z;
  pe_freevm : Z → M W unit;
  pe_allocuvm : Z → Z → Z → M W Z;
  pe_deallocuvm : Z → Z → Z → M W Z;
  (** [switchuvm] of a process, given its kernel stack and directory. *)
  pe_switchuvm : Z → Z → M W unit;
  pe_switchkvm : M W unit;
  pe_filedup : nat → M W nat;
  pe_fileclose : nat → M W unit;
  pe_idup : nat → M W nat;
  pe_iput : nat → M W unit;
  pe_begin_op : M W unit;
  pe_end_op : M W unit;
  pe_namei_root : M W (option nat);
  (** The statement [if(first) ...] of [forkret]. *)
  pe_forkret_first : M W unit;
  (** Locks other than [ptable.lock], by address. *)
  pe_acquire : Z → M W unit;
  pe_release : Z → M W unit;
}.

Section proc.
Context {W : Type} `{!ProcEnv W}.
(** The CPU that runs the code, and the addresses of [forkret] and [trapret]. *)
Context (me : nat) (forkret_addr trapret_addr : Z).
Abbreviation P := (M (pst W)).

Definition env {A} (m : M W A) : P A := zoom world (λ w s, mk_pst (pt_lock s) (procs s) (initproc s) (nextpid s) w) m.
Definition on_ptable_lock (m : M spinlock unit) : P unit :=
  zoom pt_lock (λ l s, mk_pst l (procs s) (initproc s) (nextpid s) (world s)) m.
Definition proc_at (p : nat) : P proc := gets (λ s, procs s !!! p).
Definition set_procs (l : list proc) (s : pst W) : pst W := mk_pst (pt_lock s) l (initproc s) (nextpid s) (world s).
Definition upd (p : nat) (f : proc → proc) : P unit := modify (λ s, set_procs (<[p := f (procs s !!! p)]> (procs s)) s).
(** A loop over the table that changes each entry on its own. *)
Definition upd_all (f : proc → proc) : P unit := modify (λ s, set_procs (f <$> procs s) s).

Definition pinit : P unit := on_ptable_lock (λ _, Done (tt, initlock "ptable")).

(** The first entry from [p] on that satisfies [f]. *)
Fixpoint scan (f : proc → bool) (l : list proc) (p : nat) : option nat :=
  match l with
  | [] => None
  | q :: l' => if f q then Some p else scan f l' (S p)
  end.

Definition is_unused (q : proc) : bool := bool_decide (state q = UNUSED).

(** [allocproc] up to the label [found] and the two assignments there. *)
Definition allocproc_slot : P (option nat) :=
  on_ptable_lock (acquire me);;
  l <- gets procs;;
  match scan is_unused l 0 with
  | None => on_ptable_lock (release me);; ret None
  | Some p =>
      upd p (set_state EMBRYO);;
      n <- gets nextpid;;
      upd p (set_pid n);;
      modify (λ s, mk_pst (pt_lock s) (procs s) (initproc s) (s32 (nextpid s + 1)) (world s));;
      on_ptable_lock (release me);;
      ret (Some p)
  end.

(** The kernel stack: trap frame, return address and context at its top. *)
Definition allocproc_stack (p : nat) : P (option nat) :=
  k <- env pe_kalloc;;
  upd p (set_kstack k);;
  if k =? 0 then upd p (set_state UNUSED);; ret None
  else
    let sp := k + KSTACKSIZE in
    let sp := sp - sizeof_trapframe in
    upd p (λ q, set_tf sp (tf q) q);;
    let sp := sp - 4 in
    env (pe_store32 sp trapret_addr);;
    let sp := sp - sizeof_context in
    upd p (set_ctx sp (mk_context 0 0 0 0 0));;
    upd p (λ q, set_ctx (ctx_ptr q) (mk_context 0 0 0 0 forkret_addr) q);;
    ret (Some p).

Definition allocproc : P (option nat) :=
  r <- allocproc_slot;;
  match r with None => ret None | Some p => allocproc_stack p end.

(** SEG_UCODE, SEG_UDATA and DPL_USER of mmu.h. *)
Definition user_seg (seg : Z) : Z := Z.lor (Z.shiftl seg 3) 3.
Definition init_trapframe : trapframe :=
  mk_trapframe 0 0 0 0 0 0 0 0 0 0 (user_seg 4) (user_seg 4) 0 0 0 (user_seg 3) FL_IF PGSIZE (user_seg 4).

(** [safestrcpy(p->name, s, sizeof(p->name))]: the bytes of [s] before its NUL,
    15 at most, and a NUL. *)
Fixpoint before_nul (n : nat) (s : list Z) : list Z :=
  match n, s with
  | S n', b :: s' => if b =? 0 then [] else b :: before_nul n' s'
  | _, _ => []
  end.
Definition copy_name (s old : list Z) : list Z := splice 0 (before_nul 15 s ++ [0]) old.

Definition userinit : P unit :=
  r <- allocproc;;
  modify (λ s, mk_pst (pt_lock s) (procs s) r (nextpid s) (world s));;
  match r with
  | None => fail (EOob "null")
  | Some p =>
      d <- env pe_setupkvm;;
      upd p (set_pgdir d);;
      if d =? 0 then panic "userinit: out of memory?"
      else
        env (pe_inituvm d);;
        upd p (set_sz PGSIZE);;
        upd p (λ q, set_tf (tf_ptr q) init_trapframe q);;
        upd p (λ q, set_name (copy_name (chars "initcode") (p_name q)) q);;
        c <- env pe_namei_root;;
        upd p (set_cwd c);;
        on_ptable_lock (acquire me);;
        upd p (set_state RUNNABLE);;
        on_ptable_lock (release me)
  end.

(** [n] is a signed [int]. *)
Definition growproc_set (p : nat) (sz : Z) : P Z :=
  upd p (set_sz sz);;
  q <- proc_at p;;
  env (pe_switchuvm (kstack q) (p_pgdir q));;
  ret 0.

Definition growproc (p : nat) (n : Z) : P Z :=
  q <- proc_at p;;
  let sz := p_sz q in
  if 0 <? n then
    sz <- env (pe_allocuvm (p_pgdir q) sz (u32 (sz + n)));;
    if sz =? 0 then ret (-1) else growproc_set p sz
  else if n <? 0 then
    sz <- env (pe_deallocuvm (p_pgdir q) sz (u32 (sz + n)));;
    if sz =? 0 then ret (-1) else growproc_set p sz
  else growproc_set p sz.

Fixpoint fork_files (n : nat) (i : nat) (p np : nat) : P unit :=
  match n with
  | O => ret tt
  | S n' =>
      q <- proc_at p;;
      match ofile q !!! i with
      | Some f =>
          f' <- env (pe_filedup f);;
          upd np (λ q, set_ofile (<[i := Some f']> (ofile q)) q)
      | None => ret tt
      end;;
      fork_files n' (S i) p np
  end.

(** [fork] after the call of [allocproc]. *)
Definition fork_rest (p np : nat) : P Z :=
  q <- proc_at p;;
  d <- env (pe_copyuvm (p_pgdir q) (p_sz q));;
  upd np (set_pgdir d);;
  if d =? 0 then
    n <- proc_at np;;
    env (pe_kfree (kstack n));;
    upd np (set_kstack 0);;
    upd np (set_state UNUSED);;
    ret (-1)
  else
    upd np (set_sz (p_sz q));;
    upd np (set_parent (Some p));;
    upd np (λ n, set_tf (tf_ptr n) (tf q) n);;
    upd np (λ n, set_tf (tf_ptr n) (set_eax 0 (tf n)) n);;
    fork_files NOFILE 0 p np;;
    match cwd q with
    | Some c => c' <- env (pe_idup c);; upd np (set_cwd (Some c'))
    | None => fail (EOob "null")
    end;;
    upd np (λ n, set_name (copy_name (p_name q) (p_name n)) n);;
    n <- proc_at np;;
    on_ptable_lock (acquire me);;
    upd np (set_state RUNNABLE);;
    on_ptable_lock (release me);;
    ret (p_pid n).

Definition fork (p : nat) : P Z :=
  r <- allocproc;;
  match r with None => ret (-1) | Some np => fork_rest p np end.

(** ** The scheduler *)

(** [sched] up to [swtch]; [c] is the CPU's interrupt state. *)
Definition sched (c : cpu) (p : nat) : P unit :=
  lk <- gets pt_lock;;
  q <- proc_at p;;
  if negb (holding me lk) then panic "sched ptable.lock"
  else if negb (ncli c =? 1) then panic "sched locks"
  else if bool_decide (state q = RUNNING) then panic "sched running"
  else if if_set c then panic "sched interruptible"
  else ret tt.

(** One entry of [scheduler]'s loop: [true] if it switches to process [p]. *)
Definition scheduler_try (p : nat) : P bool :=
  q <- proc_at p;;
  if negb (bool_decide (state q = RUNNABLE)) then ret false
  else
    env (pe_switchuvm (kstack q) (p_pgdir q));;
    upd p (set_state RUNNING);;
    ret true.
(** [scheduler] when a process has switched back to it. *)
Definition scheduler_back : P unit := env pe_switchkvm.

Definition yield_enter (c : cpu) (p : nat) : P unit :=
  on_ptable_lock (acquire me);;
  upd p (set_state RUNNABLE);;
  sched c p.
Definition yield_leave : P unit := on_ptable_lock (release me).

(** [forkret] releases the lock; then the first process to run initialises the
    file system. *)
Definition forkret_enter : P unit := on_ptable_lock (release me).
Definition forkret : P unit :=
  forkret_enter;;
  env pe_forkret_first.

(** [sleep] when [lk], the lock at this address, is not [ptable.lock]. *)
Definition sleep_enter (c : cpu) (p : nat) (ch : chan) (lk : Z) : P unit :=
  on_ptable_lock (acquire me);;
  env (pe_release lk);;
  upd p (set_chan (Some ch));;
  upd p (set_state SLEEPING);;
  sched c p.
Definition sleep_leave (p : nat) : P unit :=
  upd p (set_chan None);;
  on_ptable_lock (release me).
Definition sleep_relock (lk : Z) : P unit := env (pe_acquire lk).

(** [sleep] with [ptable.lock], as [wait] calls it. *)
Definition sleep_ptable_enter (c : cpu) (p : nat) (ch : chan) : P unit :=
  upd p (set_chan (Some ch));;
  upd p (set_state SLEEPING);;
  sched c p.
Definition sleep_ptable_leave (p : nat) : P unit := upd p (set_chan None).

(** The channel may be null, when a process without a parent exits. *)
Definition wake_if (ch : option chan) (q : proc) : proc :=
  if bool_decide (state q = SLEEPING) && bool_decide (p_chan q = ch) then set_state RUNNABLE q else q.
Definition wakeup1 (ch : option chan) : P unit := upd_all (wake_if ch).

Definition wakeup (ch : option chan) : P unit :=
  on_ptable_lock (acquire me);;
  wakeup1 ch;;
  on_ptable_lock (release me).

Definition kill (pid : Z) : P Z :=
  on_ptable_lock (acquire me);;
  l <- gets procs;;
  match scan (λ q, p_pid q =? pid) l 0 with
  | Some p =>
      upd p (set_killed 1);;
      upd p (λ q, if bool_decide (state q = SLEEPING) then set_state RUNNABLE q else q);;
      on_ptable_lock (release me);;
      ret 0
  | None => on_ptable_lock (release me);; ret (-1)
  end.

(** ** exit and wait *)

Fixpoint exit_files (n : nat) (fd : nat) (p : nat) : P unit :=
  match n with
  | O => ret tt
  | S n' =>
      q <- proc_at p;;
      match ofile q !!! fd with
      | Some f =>
          env (pe_fileclose f);;
          upd p (λ q, set_ofile (<[fd := None]> (ofile q)) q)
      | None => ret tt
      end;;
      exit_files n' (S fd) p
  end.

(** Children of [p], from entry [i] on, become children of init. *)
Fixpoint reparent (n : nat) (i : nat) (p : nat) : P unit :=
  match n with
  | O => ret tt
  | S n' =>
      q <- proc_at i;;
      ip <- gets initproc;;
      when (bool_decide (parent q = Some p)) (
        upd i (set_parent ip);;
        q <- proc_at i;;
        when (bool_decide (state q = ZOMBIE)) (wakeup1 (CProc <$> ip)));;
      reparent n' (S i) p
  end.

(** [exit] from the acquisition of [ptable.lock] on. *)
Definition exit_table (c : cpu) (p : nat) : P unit :=
  on_ptable_lock (acquire me);;
  q <- proc_at p;;
  wakeup1 (CProc <$> parent q);;
  reparent NPROC 0 p;;
  upd p (set_state ZOMBIE);;
  sched c p.

Definition exit (c : cpu) (p : nat) : P unit :=
  ip <- gets initproc;;
  if bool_decide (ip = Some p) then panic "init exiting"
  else
    exit_files NOFILE 0 p;;
    env pe_begin_op;;
    q <- proc_at p;;
    match cwd q with Some i => env (pe_iput i) | None => fail (EOob "null") end;;
    env pe_end_op;;
    upd p (set_cwd None);;
    exit_table c p.

(** The entry is given back. *)
Definition reap (p : nat) : P Z :=
  q <- proc_at p;;
  env (pe_kfree (kstack q));;
  upd p (set_kstack 0);;
  env (pe_freevm (p_pgdir q));;
  upd p (set_pid 0);;
  upd p (set_parent None);;
  upd p (λ q, set_name (<[0%nat := 0]> (p_name q)) q);;
  upd p (set_killed 0);;
  upd p (set_state UNUSED);;
  ret (p_pid q).

(** One round of [wait]'s loop, with the lock held: [Some] result, or the
    process has gone to sleep. *)
Definition wait_round (c : cpu) (p : nat) : P (option Z) :=
  l <- gets procs;;
  match scan (λ q, bool_decide (parent q = Some p) && bool_decide (state q = ZOMBIE)) l 0 with
  | Some z =>
      r <- reap z;;
      on_ptable_lock (release me);;
      ret (Some r)
  | None =>
      q <- proc_at p;;
      if negb (existsb (λ q, bool_decide (parent q = Some p)) l) || negb (killed q =? 0) then
        on_ptable_lock (release me);;
        ret (Some (-1))
      else
        sleep_ptable_enter c p (CProc p);;
        ret None
  end.

Definition wait_enter (c : cpu) (p : nat) : P (option Z) :=
  on_ptable_lock (acquire me);;
  wait_round c p.
Definition wait_leave (c : cpu) (p : nat) : P (option Z) :=
  sleep_ptable_leave p;;
  wait_round c p.

(** ** procdump *)

Definition state_name (s : procstate) : string :=
  match s with
  | UNUSED => "unused" | EMBRYO => "embryo" | SLEEPING => "sleep " | RUNNABLE => "runble"
  | RUNNING => "run   " | ZOMBIE => "zombie"
  end.

(** The pid, state and name of each line; the return addresses are not modelled. *)
Definition procdump : P (list (Z * string * list Z)) :=
  l <- gets procs;;
  ret (omap (λ q, if is_unused q then None else Some (p_pid q, state_name (state q), p_name q)) l).
End proc.

(** ** Scanning the table *)

Lemma scan_Some f l i p : scan f l i = Some p → (i ≤ p < i + length l)%nat ∧ f (l !!! (p - i)%nat) = true.
Proof.
  revert i. induction l as [|q l IH]; intros i H; cbn in H; [done|]. destruct (f q) eqn:Ef.
  - injection H as <-. rewrite Nat.sub_diag. cbn. split; [lia|done].
  - destruct (IH (S i) H) as [H1 H2]. cbn [length]. split; [lia|].
    replace (p - i)%nat with (S (p - S i)) by lia. done.
Qed.

Lemma scan_None f l i : scan f l i = None → ∀ k, (k < length l)%nat → f (l !!! k) = false.
Proof.
  revert i. induction l as [|q l IH]; intros i H k Hk; cbn in *; [lia|]. destruct (f q) eqn:Ef; [done|].
  destruct k as [|k]; [done|]. apply (IH (S i) H). lia.
Qed.
