(* ===== verification/ProcSpec.v ===== *)
(** * What the scheduler and process life cycle guarantee

    [step] interleaves the CPUs of the machine.  A CPU is in the scheduler or
    runs a process; [ptable.lock] is taken by the code that proc.c takes it
    in, and handed over from a process to the scheduler and back by [swtch].
    The invariant [pinv] holds in every reachable state.

    The grain of the steps: a process is preempted by the timer while it runs
    its own code, not inside a system call; and [fork] is two steps, the
    allocation of the child and the rest.  Of the process
    table the rest changes only the child's slot, which is in state EMBRYO, so
    that the scheduler, [wait] and [wakeup] pass over it ([kill] may still mark
    it), and it takes [ptable.lock] for the change to RUNNABLE. *)

From S2P Require Import Prelude Spinlock Mmu Proc.

(** ** Runs of the monad *)

Lemma bind_Done {S A B} (m : M S A) (f : A → M S B) s r :
  bind m f s = Done r → ∃ a s1, m s = Done (a, s1) ∧ f a s1 = Done r.
Proof. unfold bind. destruct (m s) as [[a s1]|e]; [|done]. eauto. Qed.

Lemma zoom_Done {S T A} (g : S → T) pu (m : M T A) s a s' :
  zoom g pu m s = Done (a, s') → ∃ t, m (g s) = Done (a, t) ∧ s' = pu t s.
Proof. unfold zoom. destruct (m (g s)) as [[a' t]|e]; [|done]. intros [= <- <-]. eauto. Qed.

Lemma acquire_Done me lk r lk' : acquire me lk = Done (r, lk') → locked lk = 0 ∧ lk' = mk_spinlock 1 (lk_name lk) (Some me).
Proof.
  unfold acquire. destruct (holding me lk); [done|]. destruct (Z.eqb_spec (locked lk) 0); [|done]. cbn. by intros [= <- <-].
Qed.

Lemma release_Done me lk r lk' :
  release me lk = Done (r, lk') → locked lk ≠ 0 ∧ lk_cpu lk = Some me ∧ lk' = mk_spinlock 0 (lk_name lk) None.
Proof.
  unfold release, holding. destruct (Z.eqb_spec (locked lk) 0); [done|]. cbn. case_bool_decide; [|done]. cbn. by intros [= <- <-].
Qed.

(** ** Entries of the table *)

Lemma insert_at (l : list proc) p x i : (p < length l)%nat → <[p := x]> l !!! i = if decide (i = p) then x else l !!! i.
Proof.
  intros Hp. case_decide as E; [subst; by rewrite list_lookup_total_insert_eq|by rewrite list_lookup_total_insert_ne].
Qed.

Lemma wake_at ch (l : list proc) i : (wake_if ch <$> l) !!! i = wake_if ch (l !!! i).
Proof.
  rewrite !list_lookup_total_alt, list_lookup_fmap. by destruct (l !! i).
Qed.

(** ** The machine *)

Definition set_at {A} (i : nat) (x : A) (f : nat → A) : nat → A := λ j, if decide (j = i) then x else f j.

(** Where a CPU is: at the top of [scheduler]'s loop, at an entry of the table
    with the lock held, or running a process. *)
Inductive place := SchedTop | SchedAt (i : nat) | Running (p : nat).

(** What a process does: it runs; it runs and is creating process [np]; or
    where it continues when it is scheduled. *)
Inductive task := TUser | TForking (np : nat) | TFork | TYield | TSleep | TWait | TExit.

Record sys (W : Type) := mk_sys { ps : pst W; cpus : nat → place; tasks : nat → task }.
Arguments mk_sys {W}.
Arguments ps {W}.
Arguments cpus {W}.
Arguments tasks {W}.

Section spec.
Context {W : Type} `{!ProcEnv W} (forkret_addr trapret_addr : Z).
Implicit Types s : sys W.

(** What a running process does to its own entry: not to the fields that other
    processes and the scheduler use. *)
Definition own_change (q q' : proc) : Prop := state q' = state q ∧ parent q' = parent q ∧ p_chan q' = p_chan q ∧ p_pid q' = p_pid q.

(** One step of CPU [c]; [cc] is its interrupt state. *)
Inductive step (c : nat) : sys W → sys W → Prop :=
  | s_top s t :
      cpus s c = SchedTop → on_ptable_lock (acquire c) (ps s) = Done (tt, t) →
      step c s (mk_sys t (set_at c (SchedAt 0) (cpus s)) (tasks s))
  | s_skip s i t :
      cpus s c = SchedAt i → (i < NPROC)%nat → scheduler_try i (ps s) = Done (false, t) →
      step c s (mk_sys t (set_at c (SchedAt (S i)) (cpus s)) (tasks s))
  | s_end s t :
      cpus s c = SchedAt NPROC → on_ptable_lock (release c) (ps s) = Done (tt, t) →
      step c s (mk_sys t (set_at c SchedTop (cpus s)) (tasks s))
  | s_run s i t t' :
      cpus s c = SchedAt i → (i < NPROC)%nat → scheduler_try i (ps s) = Done (true, t) →
      (tasks s i = TFork ∧ forkret_enter c t = Done (tt, t') ∨ tasks s i = TYield ∧ yield_leave c t = Done (tt, t') ∨
       tasks s i = TSleep ∧ sleep_leave c i t = Done (tt, t')) →
      step c s (mk_sys t' (set_at c (Running i) (cpus s)) (set_at i TUser (tasks s)))
  | s_rewait_done s i t t' r cc :
      cpus s c = SchedAt i → (i < NPROC)%nat → scheduler_try i (ps s) = Done (true, t) → tasks s i = TWait →
      wait_leave c cc i t = Done (Some r, t') →
      step c s (mk_sys t' (set_at c (Running i) (cpus s)) (set_at i TUser (tasks s)))
  | s_rewait_sleep s i t t' t'' cc :
      cpus s c = SchedAt i → (i < NPROC)%nat → scheduler_try i (ps s) = Done (true, t) → tasks s i = TWait →
      wait_leave c cc i t = Done (None, t') → scheduler_back t' = Done (tt, t'') →
      step c s (mk_sys t'' (set_at c (SchedAt (S i)) (cpus s)) (tasks s))
  | s_yield s p t t' cc :
      cpus s c = Running p → tasks s p = TUser → yield_enter c cc p (ps s) = Done (tt, t) → scheduler_back t = Done (tt, t') →
      step c s (mk_sys t' (set_at c (SchedAt (S p)) (cpus s)) (set_at p TYield (tasks s)))
  | s_sleep s p a lk t t' cc :
      cpus s c = Running p → tasks s p = TUser → sleep_enter c cc p (CAddr a) lk (ps s) = Done (tt, t) → scheduler_back t = Done (tt, t') →
      step c s (mk_sys t' (set_at c (SchedAt (S p)) (cpus s)) (set_at p TSleep (tasks s)))
  | s_wakeup s a t :
      (∀ i, cpus s c ≠ SchedAt i) → wakeup c (Some (CAddr a)) (ps s) = Done (tt, t) →
      step c s (mk_sys t (cpus s) (tasks s))
  | s_kill s p pid r t :
      cpus s c = Running p → tasks s p = TUser → kill c pid (ps s) = Done (r, t) →
      step c s (mk_sys t (cpus s) (tasks s))
  | s_fork s p np t :
      cpus s c = Running p → tasks s p = TUser → allocproc_slot c (ps s) = Done (Some np, t) →
      step c s (mk_sys t (cpus s) (set_at p (TForking np) (tasks s)))
  | s_forked s p np t t' r :
      cpus s c = Running p → tasks s p = TForking np →
      allocproc_stack forkret_addr trapret_addr np (ps s) = Done (Some np, t) →
      fork_rest c p np t = Done (r, t') →
      step c s (mk_sys t' (cpus s) (set_at p TUser (set_at np TFork (tasks s))))
  | s_fork_fails s p np t :
      cpus s c = Running p → tasks s p = TForking np →
      allocproc_stack forkret_addr trapret_addr np (ps s) = Done (None, t) →
      step c s (mk_sys t (cpus s) (set_at p TUser (tasks s)))
  | s_exit s p t t' cc :
      cpus s c = Running p → tasks s p = TUser → initproc (ps s) ≠ Some p → exit_table c cc p (ps s) = Done (tt, t) → scheduler_back t = Done (tt, t') →
      step c s (mk_sys t' (set_at c (SchedAt (S p)) (cpus s)) (set_at p TExit (tasks s)))
  | s_wait_done s p t r cc :
      cpus s c = Running p → tasks s p = TUser → wait_enter c cc p (ps s) = Done (Some r, t) →
      step c s (mk_sys t (cpus s) (tasks s))
  | s_wait_sleep s p t t' cc :
      cpus s c = Running p → tasks s p = TUser → wait_enter c cc p (ps s) = Done (None, t) → scheduler_back t = Done (tt, t') →
      step c s (mk_sys t' (set_at c (SchedAt (S p)) (cpus s)) (set_at p TWait (tasks s)))
  | s_own s p q w :
      cpus s c = Running p → own_change (procs (ps s) !!! p) q →
      step c s (mk_sys (mk_pst (pt_lock (ps s)) (<[p := q]> (procs (ps s))) (initproc (ps s)) (nextpid (ps s)) w)
        (cpus s) (tasks s)).

(** ** The invariant, on what the table says of each process *)

Definition alive (x : procstate) : Prop := x = SLEEPING ∨ x = RUNNABLE ∨ x = RUNNING.
Definition live_or_zombie (x : procstate) : Prop := alive x ∨ x = ZOMBIE.

(** What a process of state [x] is doing. *)
Definition task_ok (p : nat) (x : procstate) (pa : option nat) (ch : option chan) (t : task) : Prop :=
  match x with
  | UNUSED | EMBRYO => pa = None
  | RUNNABLE => t = TFork ∨ t = TYield ∨ t = TSleep ∨ t = TWait
  | SLEEPING => (t = TSleep ∧ ∃ a, ch = Some (CAddr a)) ∨ (t = TWait ∧ ch = Some (CProc p))
  | RUNNING => t = TUser ∨ ∃ np, t = TForking np
  | ZOMBIE => t = TExit
  end.

(** [st], [pa], [ch]: state, parent and channel of each entry. *)
Record tinv (st : nat → procstate) (pa : nat → option nat) (ch : nat → option chan) (ip : nat)
    (cp : nat → place) (tk : nat → task) : Prop := {
  ti_out p : (NPROC ≤ p)%nat → st p = UNUSED ∧ pa p = None;
  ti_run c p : cp c = Running p → st p = RUNNING;
  ti_one c c' p : cp c = Running p → cp c' = Running p → c = c';
  ti_cpu p : st p = RUNNING → ∃ c, cp c = Running p;
  ti_task p : task_ok p (st p) (pa p) (ch p) (tk p);
  ti_init : alive (st ip);
  ti_parent p : live_or_zombie (st p) → p ≠ ip → ∃ r, pa p = Some r ∧ alive (st r);
  ti_self p : pa p ≠ Some p;
  ti_initpa : pa ip = None;
  ti_wait p q : st p = SLEEPING → tk p = TWait → pa q = Some p → st q ≠ ZOMBIE;
  ti_fork p np : st p = RUNNING → tk p = TForking np → st np = EMBRYO;
  ti_fork1 p p' np : st p = RUNNING → st p' = RUNNING → tk p = TForking np → tk p' = TForking np → p = p';
}.

(** The table as functions, as the invariant uses it. *)
Definition st_of (t : pst W) (i : nat) : procstate := state (procs t !!! i).
Definition pa_of (t : pst W) (i : nat) : option nat := parent (procs t !!! i).
Definition ch_of (t : pst W) (i : nat) : option chan := p_chan (procs t !!! i).

(** The lock is free, or held by the one CPU that is in the scheduler's loop. *)
Definition lock_inv (lk : spinlock) (cp : nat → place) : Prop :=
  (lock_free lk ∧ ∀ c i, cp c ≠ SchedAt i) ∨
  (∃ c i name, lk = mk_spinlock 1 name (Some c) ∧ cp c = SchedAt i ∧ ∀ c' j, cp c' = SchedAt j → c' = c).

Record pinv s : Prop := {
  pi_len : length (procs (ps s)) = NPROC;
  pi_lock : lock_inv (pt_lock (ps s)) (cpus s);
  pi_tab : ∃ ip, initproc (ps s) = Some ip ∧
    tinv (st_of (ps s)) (pa_of (ps s)) (ch_of (ps s)) ip (cpus s) (tasks s);
}.

(** *** What the steps do to the table *)

Definition not_running (x : place) : Prop := match x with Running _ => False | _ => True end.

Ltac at_cases := unfold set_at in *; repeat case_decide; simplify_eq/=; try done; try congruence.

Lemma tinv_ext st pa ch ip cp tk st' pa' ch' cp' tk' :
  tinv st pa ch ip cp tk → (∀ p, st' p = st p) → (∀ p, pa' p = pa p) → (∀ p, ch' p = ch p) →
  (∀ c, cp' c = cp c) → (∀ p, tk' p = tk p) → tinv st' pa' ch' ip cp' tk'.
Proof.
  intros [H1 H2 H3 H4 H5 H6 H7 Hself Hipa H8 H9 H10] E1 E2 E3 E4 E5. split; intros *; rewrite ?E1, ?E2, ?E3, ?E4, ?E5; eauto.
  - intros Hs. destruct (H4 p Hs) as [c Hc]. exists c. by rewrite E4.
  - intros Hs Hne. destruct (H7 p Hs Hne) as (r & Hr & Ha). exists r. by rewrite E1.
Qed.

(** A CPU moves inside the scheduler. *)
Lemma tinv_sched st pa ch ip cp tk c x :
  tinv st pa ch ip cp tk → not_running (cp c) → not_running x → tinv st pa ch ip (set_at c x cp) tk.
Proof.
  intros [H1 H2 H3 H4 H5 H6 H7 Hself Hipa H8 H9 H10] Hc Hx. split; try done.
  - intros c' p E. at_cases. by eapply H2.
  - intros c1 c2 p E1 E2. at_cases. by eapply H3.
  - intros p Hs. destruct (H4 p Hs) as [c' Hc']. exists c'. at_cases. by rewrite Hc' in Hc.
Qed.

(** A process is scheduled. *)
Lemma tinv_run st pa ch ip cp tk c i y :
  tinv st pa ch ip cp tk → not_running (cp c) → st i = RUNNABLE →
  tinv (set_at i RUNNING st) pa (set_at i y ch) ip (set_at c (Running i) cp) (set_at i TUser tk).
Proof.
  intros [H1 H2 H3 H4 H5 H6 H7 Hself Hipa H8 H9 H10] Hc Hi.
  assert (∀ p, alive (st p) → alive (set_at i RUNNING st p)) as Hal.
  { intros p Hp. at_cases. unfold alive. auto. }
  split.
  - intros p Hp. pose proof (H1 p Hp) as [??]. at_cases.
  - intros c' p E. at_cases. by eapply H2.
  - intros c1 c2 p E1 E2. at_cases; try (by eapply H3); (apply H2 in E1 || apply H2 in E2); congruence.
  - intros p Hs. destruct (decide (p = i)) as [->|Hne]; [exists c; at_cases|].
    destruct (H4 p) as [c' Hc']; [by at_cases|]. exists c'. at_cases. by rewrite Hc' in Hc.
  - intros p. at_cases; try apply H5. by left.
  - by apply Hal.
  - intros p Hs Hne. destruct (H7 p) as (r & Hr & Ha); [|done|exists r; auto]. at_cases. left. unfold alive. auto.
  - done.
  - done.
  - intros p q Hs Ht Hq. at_cases. by eapply H8.
  - intros p np Hs Ht. at_cases; [apply H9 in Ht; congruence|by eapply H9].
  - intros p p' np Hs Hs' Ht Ht'. at_cases. by eapply H10.
Qed.

(** A running process gives up the CPU. *)
Lemma tinv_leave st pa ch ip cp tk c p x y t z :
  tinv st pa ch ip cp tk → cp c = Running p → tk p = TUser → not_running z →
  (x = RUNNABLE ∧ t = TYield) ∨ (x = SLEEPING ∧ t = TSleep ∧ ∃ a, y = Some (CAddr a)) ∨
  (x = SLEEPING ∧ t = TWait ∧ y = Some (CProc p) ∧ ∀ q, pa q = Some p → st q ≠ ZOMBIE) →
  tinv (set_at p x st) pa (set_at p y ch) ip (set_at c z cp) (set_at p t tk).
Proof.
  intros [H1 H2 H3 H4 H5 H6 H7 Hself Hipa H8 H9 H10] Hc Hp Hz Hx. pose proof (H2 _ _ Hc) as Hst.
  assert (alive x ∧ x ≠ RUNNING) as [Hax Hnr] by (unfold alive; naive_solver).
  assert (∀ q, alive (st q) → alive (set_at p x st q)) as Hal by (intros q Hq; by at_cases).
  split.
  - intros q Hq. pose proof (H1 q Hq) as [??]. at_cases.
  - intros c' q E. at_cases; [|by eapply H2]. destruct (decide (c' = c)); [congruence|]. destruct H. by eapply H3.
  - intros c1 c2 q E1 E2. at_cases. by eapply H3.
  - intros q Hs. at_cases. destruct (H4 q Hs) as [c' Hc']. exists c'. at_cases.
  - intros q. destruct Hx as [(-> & ->)|[(-> & -> & a & ->)|(-> & -> & -> & _)]]; at_cases; try apply H5; naive_solver.
  - by apply Hal.
  - intros q Hs Hne. destruct (H7 q) as (r & Hr & Ha); [|done|exists r; auto]. at_cases. left. unfold alive. auto.
  - done.
  - done.
  - intros q q' Hs Ht Hq'. unfold alive in Hax. at_cases; try (by eapply H8); naive_solver.
  - intros q np Hs Ht. at_cases; [|by eapply H9]. apply H9 in Ht; [congruence|done].
  - intros q q' np Hs Hs' Ht Ht'. at_cases. by eapply H10.
Qed.

(** Some sleeping processes are made runnable. *)
Definition woken (st st' : nat → procstate) : Prop := ∀ p, st' p = st p ∨ (st p = SLEEPING ∧ st' p = RUNNABLE).

Lemma woken_alive st st' p : woken st st' → alive (st' p) ↔ alive (st p).
Proof. intros Hw. unfold alive. destruct (Hw p) as [->|[-> ->]]; naive_solver. Qed.

Lemma woken_same st st' p x : woken st st' → x ≠ RUNNABLE → x ≠ SLEEPING → st' p = x ↔ st p = x.
Proof. intros Hw H1 H2. destruct (Hw p) as [->|[-> ->]]; naive_solver. Qed.

Lemma tinv_wake st pa ch ip cp tk st' :
  tinv st pa ch ip cp tk → woken st st' → tinv st' pa ch ip cp tk.
Proof.
  intros [H1 H2 H3 H4 H5 H6 H7 Hself Hipa H8 H9 H10] Hw.
  assert (∀ p x, x ≠ RUNNABLE → x ≠ SLEEPING → st' p = x ↔ st p = x) as Hs by (intros; by apply woken_same).
  split; try done.
  - intros p Hp. rewrite Hs by done. by apply H1.
  - intros c p Hc. rewrite Hs by done. by eapply H2.
  - intros p. rewrite Hs by done. apply H4.
  - intros p. specialize (H5 p). destruct (Hw p) as [->|[E ->]]; [done|]. rewrite E in H5. cbn in *. naive_solver.
  - by rewrite woken_alive.
  - intros p Hp Hne. destruct (H7 p) as (r & Hr & Ha); [|done|].
    + destruct Hp as [Hp|Hp]; [left; by rewrite woken_alive in Hp|right; by rewrite Hs in Hp].
    + exists r. by rewrite woken_alive.
  - intros p q Hp Ht Hq. rewrite Hs by done. apply (H8 p); try done. destruct (Hw p) as [<-|[? ?]]; congruence.
  - intros p np. rewrite !Hs by done. apply H9.
  - intros p p' np. rewrite !Hs by done. apply H10.
Qed.

Lemma tinv_alloc st pa ch ip cp tk p np :
  tinv st pa ch ip cp tk → st p = RUNNING → tk p = TUser → st np = UNUSED → (np < NPROC)%nat →
  tinv (set_at np EMBRYO st) pa ch ip cp (set_at p (TForking np) tk).
Proof.
  intros [H1 H2 H3 H4 H5 H6 H7 Hself Hipa H8 H9 H10] Hp Ht Hnp Hlt.
  assert (np ≠ p) as Hne by congruence.
  assert (∀ q, alive (st q) → alive (set_at np EMBRYO st q)) as Hal.
  { intros q Hq. at_cases. rewrite Hnp in Hq. unfold alive in Hq. naive_solver. }
  split; try done.
  - intros q Hq. pose proof (H1 q Hq) as [??]. at_cases. lia.
  - intros c q E. apply H2 in E. at_cases.
  - intros q E. at_cases. by apply H4.
  - intros q. pose proof (H5 q) as Hq. at_cases; [by rewrite Hnp in Hq|rewrite Hp; right; by eexists].
  - by apply Hal.
  - intros q Hq Hqi. destruct (H7 q) as (r & Hr & Ha); [|done|exists r; auto]. at_cases. unfold live_or_zombie, alive in Hq. naive_solver.
  - intros q q' Hs Hq Hq'. at_cases. by eapply H8.
  - intros q n Hs Hq. at_cases. apply H9 in Hq; [congruence|done].
  - intros q q' n Hs Hs' Hq Hq'. at_cases; try (by eapply H10); (apply H9 in Hq || apply H9 in Hq'); congruence.
Qed.

Lemma tinv_forked st pa ch ip cp tk p np y :
  tinv st pa ch ip cp tk → st p = RUNNING → tk p = TForking np →
  tinv (set_at np RUNNABLE st) (set_at np (Some p) pa) (set_at np y ch) ip cp (set_at p TUser (set_at np TFork tk)).
Proof.
  intros [H1 H2 H3 H4 H5 H6 H7 Hself Hipa H8 H9 H10] Hp Ht. pose proof (H9 _ _ Hp Ht) as Hnp.
  assert (np ≠ p) as Hne by congruence.
  assert (np ≠ ip) as Hip by (intros ->; rewrite Hnp in H6; unfold alive in H6; naive_solver).
  assert (∀ q, alive (st q) → alive (set_at np RUNNABLE st q)) as Hal.
  { intros q Hq. at_cases. unfold alive. auto. }
  split.
  - intros q Hq. pose proof (H1 q Hq) as [??]. at_cases.
  - intros c q E. apply H2 in E. at_cases.
  - done.
  - intros q E. at_cases. by apply H4.
  - intros q. pose proof (H5 q) as Hq. at_cases; try rewrite Hp; by left.
  - by apply Hal.
  - intros q Hq Hqi. destruct (decide (q = np)) as [->|Hqn].
    + exists p. split; [at_cases|]. apply Hal. rewrite Hp. unfold alive. auto.
    + destruct (H7 q) as (r & Hr & Ha); [at_cases|done|exists r; split; [at_cases|auto]].
  - intros q. at_cases.
  - at_cases.
  - intros q q' Hs Hq Hq'. at_cases. by eapply H8.
  - intros q n Hs Hq. at_cases; [|by eapply H9]. pose proof (H10 p q np). naive_solver.
  - intros q q' n Hs Hs' Hq Hq'. at_cases. by eapply H10.
Qed.

Lemma tinv_fork_fails st pa ch ip cp tk p np :
  tinv st pa ch ip cp tk → st p = RUNNING → tk p = TForking np →
  tinv (set_at np UNUSED st) pa ch ip cp (set_at p TUser tk).
Proof.
  intros [H1 H2 H3 H4 H5 H6 H7 Hself Hipa H8 H9 H10] Hp Ht. pose proof (H9 _ _ Hp Ht) as Hnp.
  assert (np ≠ p) as Hne by congruence.
  assert (∀ q, alive (st q) → alive (set_at np UNUSED st q)) as Hal.
  { intros q Hq. at_cases. rewrite Hnp in Hq. unfold alive in Hq. naive_solver. }
  split; try done.
  - intros q Hq. pose proof (H1 q Hq) as [??]. at_cases.
  - intros c q E. apply H2 in E. at_cases.
  - intros q E. at_cases. by apply H4.
  - intros q. pose proof (H5 q) as Hq. at_cases; [by rewrite Hnp in Hq|rewrite Hp; by left].
  - by apply Hal.
  - intros q Hq Hqi. destruct (H7 q) as (r & Hr & Ha); [|done|exists r; auto]. at_cases. unfold live_or_zombie, alive in Hq. naive_solver.
  - intros q q' Hs Hq Hq'. at_cases. by eapply H8.
  - intros q n Hs Hq. at_cases; [|by eapply H9]. pose proof (H10 p q np). naive_solver.
  - intros q q' n Hs Hs' Hq Hq'. at_cases. by eapply H10.
Qed.

(** What a process that does not exist would do does not matter. *)
Lemma tinv_unused st pa ch ip cp tk np x :
  tinv st pa ch ip cp tk → st np = UNUSED → tinv st pa ch ip cp (set_at np x tk).
Proof.
  intros [H1 H2 H3 H4 H5 H6 H7 Hself Hipa H8 H9 H10] Hnp. split; try done.
  - intros q. pose proof (H5 q) as Hq. at_cases. by rewrite Hnp in *.
  - intros q q' Hs Hq Hq'. at_cases. by eapply H8.
  - intros q n Hs Hq. at_cases. by eapply H9.
  - intros q q' n Hs Hs' Hq Hq'. at_cases. by eapply H10.
Qed.

Lemma tinv_reap st pa ch ip cp tk z :
  tinv st pa ch ip cp tk → st z = ZOMBIE → tinv (set_at z UNUSED st) (set_at z None pa) ch ip cp tk.
Proof.
  intros [H1 H2 H3 H4 H5 H6 H7 Hself Hipa H8 H9 H10] Hz.
  assert (∀ q, alive (st q) → alive (set_at z UNUSED st q)) as Hal.
  { intros q Hq. at_cases. rewrite Hz in Hq. unfold alive in Hq. naive_solver. }
  split; try done.
  - intros q Hq. pose proof (H1 q Hq) as [??]. at_cases.
  - intros c q E. apply H2 in E. at_cases.
  - intros q E. at_cases. by apply H4.
  - intros q. pose proof (H5 q) as Hq. at_cases.
  - by apply Hal.
  - intros q Hq Hqi. assert (q ≠ z) by (intros ->; unfold live_or_zombie, alive, set_at in Hq; rewrite decide_True in Hq by done; naive_solver).
    destruct (H7 q) as (r & Hr & Ha); [at_cases|done|exists r; split; [at_cases|auto]].
  - intros q. at_cases.
  - at_cases.
  - intros q q' Hs Hq Hq'. at_cases. by eapply H8.
  - intros q n Hs Hq. at_cases; [apply H9 in Hq; congruence|by eapply H9].
  - intros q q' n Hs Hs' Hq Hq'. at_cases. by eapply H10.
Qed.

(** Process [p] exits: its parent, and init if it inherits a zombie, are not
    left asleep in [wait]; its children become init's. *)
Lemma tinv_exit st pa ch ip cp tk c p z st' pa' :
  tinv st pa ch ip cp tk → cp c = Running p → tk p = TUser → p ≠ ip → not_running z → woken st st' →
  (∀ r, pa p = Some r → st' r = SLEEPING → ch r ≠ Some (CProc r)) →
  (∀ q, pa q = Some p → st q = ZOMBIE → st' ip = SLEEPING → ch ip ≠ Some (CProc ip)) →
  (∀ q, pa' q = if decide (pa q = Some p) then Some ip else pa q) →
  tinv (set_at p ZOMBIE st') pa' ch ip (set_at c z cp) (set_at p TExit tk).
Proof.
  intros Hi Hc Hp Hpi Hz Hw W1 W2 Hpa. pose proof (ti_run _ _ _ _ _ _ Hi _ _ Hc) as Hst.
  pose proof (ti_one _ _ _ _ _ _ Hi) as Hone.
  apply (tinv_wake _ _ _ _ _ _ st') in Hi; [|done]. destruct Hi as [H1 H2 H3 H4 H5 H6 H7 Hself Hipa H8 H9 H10].
  assert (st' p = RUNNING) as Hst' by (by apply (woken_same st)).
  assert (∀ q, st' q = ZOMBIE ↔ st q = ZOMBIE) as Hzo by (intros; by apply woken_same).
  assert (∀ q, q ≠ p → alive (st' q) → alive (set_at p ZOMBIE st' q)) as Hal by (intros q Hq Ha; by at_cases).
  split.
  - intros q Hq. rewrite Hpa. pose proof (H1 q Hq) as [? E]. rewrite E. at_cases.
  - intros c' q E. at_cases; [|by eapply H2]. destruct H. by eapply Hone.
  - intros c1 c2 q E1 E2. at_cases. by eapply H3.
  - intros q E. at_cases. destruct (H4 q E) as [c' Hc']. exists c'. at_cases.
  - intros q. rewrite Hpa. pose proof (H5 q) as Hq. at_cases. destruct (st' q); try done; congruence.
  - apply Hal; [congruence|done].
  - intros q Hq Hqi. destruct (H7 q) as (r & Hr & Ha); [|done|].
    + at_cases. rewrite Hst'. left. unfold alive. auto.
    + rewrite Hpa, Hr. case_decide as E; [exists ip; split; [done|]; apply Hal; congruence|].
      exists r. split; [done|]. apply Hal; [congruence|done].
  - intros q. rewrite Hpa. case_decide as E; [|apply Hself]. intros [= ->]. congruence.
  - rewrite Hpa, Hipa. by rewrite decide_False.
  - intros q q' Hs Ht. rewrite Hpa. destruct (decide (q = p)) as [->|Hqp]; [at_cases|].
    assert (st' q = SLEEPING ∧ tk q = TWait) as [Hs' Ht'] by at_cases.
    pose proof (H5 q) as Htq. rewrite Hs', Ht' in Htq. destruct Htq as [[? _]|[_ Hch]]; [done|].
    case_decide as E; intros Hq'.
    + injection Hq' as ->. destruct (decide (q' = p)) as [->|]; [by apply Hself in E|].
      unfold set_at. rewrite decide_False, Hzo by done. intros Hzq. by apply (W2 q' E Hzq).
    + destruct (decide (q' = p)) as [->|]; [by destruct (W1 q Hq' Hs')|].
      unfold set_at. rewrite decide_False by done. by apply (H8 q).
  - intros q n Hs Hq. at_cases; [apply H9 in Hq; congruence|by eapply H9].
  - intros q q' n Hs Hs' Hq Hq'. at_cases. by eapply H10.
Qed.

(** *** What the code does to the table *)

Implicit Types t u : pst W.

Definition with_lock (lk : spinlock) t : pst W := mk_pst lk (procs t) (initproc t) (nextpid t) (world t).

Lemma lock_acquire c t r t' :
  on_ptable_lock (acquire c) t = Done (r, t') → locked (pt_lock t) = 0 ∧ t' = with_lock (mk_spinlock 1 (lk_name (pt_lock t)) (Some c)) t.
Proof. intros (lk & [H ->]%acquire_Done & ->)%zoom_Done. done. Qed.

Lemma lock_release c t r t' :
  on_ptable_lock (release c) t = Done (r, t') →
  lk_cpu (pt_lock t) = Some c ∧ t' = with_lock (mk_spinlock 0 (lk_name (pt_lock t)) None) t.
Proof. intros (lk & (H1 & H2 & ->)%release_Done & ->)%zoom_Done. done. Qed.

Lemma env_run {A} (m : M W A) t a t' : env m t = Done (a, t') → ∃ w, t' = mk_pst (pt_lock t) (procs t) (initproc t) (nextpid t) w.
Proof. intros (w & _ & ->)%zoom_Done. eauto. Qed.

Lemma sched_run c cc p t r t' : sched c cc p t = Done (r, t') → t' = t.
Proof.
  unfold sched. intros (lk & u & [= <- <-] & H)%bind_Done. apply bind_Done in H as (q & u & [= <- <-] & H).
  repeat case_match; try done. by injection H.
Qed.

(** Inverts a run that succeeded. *)
Ltac run_step :=
  match goal with
  | H : bind _ _ _ = Done _ |- _ => apply bind_Done in H as (? & ? & ? & ?)
  | H : on_ptable_lock (acquire _) _ = Done _ |- _ => apply lock_acquire in H as [? ?]
  | H : on_ptable_lock (release _) _ = Done _ |- _ => apply lock_release in H as [? ?]
  | H : env _ _ = Done _ |- _ => apply env_run in H as [? ?]
  | H : sched _ _ _ _ = Done _ |- _ => apply sched_run in H
  | H : upd _ _ _ = Done _ |- _ => first [injection H as <- <-|injection H as ? ?]
  | H : proc_at _ _ = Done _ |- _ => first [injection H as <- <-|injection H as ? ?]
  | H : gets _ _ = Done _ |- _ => first [injection H as <- <-|injection H as ? ?]
  | H : modify _ _ = Done _ |- _ => first [injection H as <- <-|injection H as ? ?]
  | H : ret _ _ = Done _ |- _ => first [injection H as <- <-|injection H as ? ?]
  | H : panic _ _ = Done _ |- _ => discriminate H
  | H : fail _ _ = Done _ |- _ => discriminate H
  end.
Ltac run := repeat (run_step; subst).

Lemma yield_enter_run c cc p t r t' :
  yield_enter c cc p t = Done (r, t') → locked (pt_lock t) = 0 ∧
  t' = mk_pst (mk_spinlock 1 (lk_name (pt_lock t)) (Some c)) (<[p := set_state RUNNABLE (procs t !!! p)]> (procs t))
         (initproc t) (nextpid t) (world t).
Proof. unfold yield_enter. intros H. run. done. Qed.

Lemma sleep_ptable_run c cc p ch t r t' :
  (p < length (procs t))%nat → sleep_ptable_enter c cc p ch t = Done (r, t') →
  t' = set_procs (<[p := set_state SLEEPING (set_chan (Some ch) (procs t !!! p))]> (procs t)) t.
Proof.
  unfold sleep_ptable_enter. intros Hp H. run. unfold set_procs. cbn. rewrite list_lookup_total_insert_eq by done.
  by rewrite list_insert_insert_eq.
Qed.

Lemma sleep_enter_run c cc p ch lk t r t' :
  (p < length (procs t))%nat → sleep_enter c cc p ch lk t = Done (r, t') → locked (pt_lock t) = 0 ∧ ∃ w,
  t' = mk_pst (mk_spinlock 1 (lk_name (pt_lock t)) (Some c)) (<[p := set_state SLEEPING (set_chan (Some ch) (procs t !!! p))]> (procs t))
         (initproc t) (nextpid t) w.
Proof.
  unfold sleep_enter. intros Hp H. apply bind_Done in H as (? & t1 & [Hl ->]%lock_acquire & H).
  apply bind_Done in H as (? & t2 & (w & _ & ->)%zoom_Done & H). apply sleep_ptable_run in H; [|done].
  split; [done|]. exists w. exact H.
Qed.

Lemma wakeup_run c ch t r t' :
  wakeup c ch t = Done (r, t') → locked (pt_lock t) = 0 ∧
  t' = mk_pst (mk_spinlock 0 (lk_name (pt_lock t)) None) (wake_if ch <$> procs t) (initproc t) (nextpid t) (world t).
Proof. unfold wakeup, wakeup1, upd_all. intros H. run. done. Qed.

(** What the scheduler and other processes look at. *)
Definition key (q : proc) : procstate * option nat * option chan := (state q, parent q, p_chan q).

Lemma kill_run c pid t r t' :
  kill c pid t = Done (r, t') → locked (pt_lock t) = 0 ∧ pt_lock t' = mk_spinlock 0 (lk_name (pt_lock t)) None ∧
  length (procs t') = length (procs t) ∧ initproc t' = initproc t ∧
  ∀ i, parent (procs t' !!! i) = parent (procs t !!! i) ∧ p_chan (procs t' !!! i) = p_chan (procs t !!! i) ∧
    (state (procs t' !!! i) = state (procs t !!! i) ∨
     state (procs t !!! i) = SLEEPING ∧ state (procs t' !!! i) = RUNNABLE).
Proof.
  unfold kill. intros H. run. destruct (scan _ _ 0) as [p|] eqn:Es; run; cbn; [|by split_and!; auto].
  apply scan_Some in Es as [Hp _]. cbn in Hp. rewrite !length_insert. split_and!; try done. intros i.
  rewrite !list_lookup_total_insert_eq, list_insert_insert_eq, insert_at by lia.
  destruct (decide (i = p)) as [->|_]; [|by auto]. cbn.
  destruct (bool_decide (state (procs t !!! p) = SLEEPING)) eqn:E; [apply bool_decide_eq_true in E|]; cbn; auto.
Qed.

(** Only entry [np] differs. *)
Record frame (np : nat) t t' : Prop := {
  fr_lock : pt_lock t' = pt_lock t;
  fr_init : initproc t' = initproc t;
  fr_len : length (procs t') = length (procs t);
  fr_other i : i ≠ np → procs t' !!! i = procs t !!! i;
}.

Lemma frame_refl np t : frame np t t.
Proof. by split. Qed.

Lemma frame_trans np t1 t2 t3 : frame np t1 t2 → frame np t2 t3 → frame np t1 t3.
Proof. intros [A1 A2 A3 A4] [B1 B2 B3 B4]. split; [congruence..|]. intros i Hi. by rewrite B4, A4. Qed.

Lemma frame_env {A} np (m : M W A) t a t' : env m t = Done (a, t') → frame np t t' ∧ procs t' = procs t.
Proof. intros [w ->]%env_run. by split. Qed.

Lemma frame_upd np f t r t' :
  (np < length (procs t))%nat → upd np f t = Done (r, t') → frame np t t' ∧ procs t' !!! np = f (procs t !!! np).
Proof.
  intros Hnp [= _ <-]. cbn. split; [|by rewrite list_lookup_total_insert_eq].
  split; cbn; [done..|by rewrite length_insert|]. intros i Hi. by rewrite list_lookup_total_insert_ne.
Qed.

(** Entry [np] changes, but not the fields in [key]. *)
Definition frame_key (np : nat) t t' : Prop := frame np t t' ∧ key (procs t' !!! np) = key (procs t !!! np).

Lemma frame_key_trans np t1 t2 t3 : frame_key np t1 t2 → frame_key np t2 t3 → frame_key np t1 t3.
Proof. intros [A1 A2] [B1 B2]. split; [by eapply frame_trans|congruence]. Qed.

Lemma frame_key_env {A} np (m : M W A) t a t' : env m t = Done (a, t') → frame_key np t t'.
Proof. intros [Hf Hp]%(frame_env np). split; [done|]. by rewrite Hp. Qed.

Lemma frame_key_upd np f t r t' :
  (np < length (procs t))%nat → (∀ q, key (f q) = key q) → upd np f t = Done (r, t') → frame_key np t t'.
Proof. intros Hnp Hk H. destruct (frame_upd np f t r t' Hnp H) as [Hf E]. split; [done|]. by rewrite E, Hk. Qed.

Lemma frame_key_refl np t : frame_key np t t.
Proof. by split. Qed.

Lemma fork_files_run n i p np t r t' :
  (np < length (procs t))%nat → fork_files n i p np t = Done (r, t') → frame_key np t t'.
Proof.
  revert i t. induction n as [|n IH]; intros i t Hnp H; cbn [fork_files] in H; run; [done|].
  destruct (ofile _ !!! i) as [f|]; run; [|by apply (IH (S i))].
  eapply frame_key_trans; [|eapply IH; [|done]; cbn; by rewrite length_insert].
  split; [|cbn; by rewrite list_lookup_total_insert_eq].
  split; cbn; [done..|by rewrite length_insert|]. intros j Hj. by rewrite list_lookup_total_insert_ne.
Qed.

Lemma allocproc_slot_run c t np t' :
  allocproc_slot c t = Done (Some np, t') →
  locked (pt_lock t) = 0 ∧ pt_lock t' = mk_spinlock 0 (lk_name (pt_lock t)) None ∧ initproc t' = initproc t ∧
  (np < length (procs t))%nat ∧ state (procs t !!! np) = UNUSED ∧
  procs t' = <[np := set_pid (nextpid t) (set_state EMBRYO (procs t !!! np))]> (procs t).
Proof.
  unfold allocproc_slot. intros H. run. destruct (scan is_unused _ 0) as [p|] eqn:Es; run; simplify_eq.
  apply scan_Some in Es as [Hp Hu]. cbn in Hp, Hu. rewrite Nat.sub_0_r in Hu. apply bool_decide_eq_true in Hu.
  cbn. rewrite list_lookup_total_insert_eq, list_insert_insert_eq by lia. split_and!; try done. lia.
Qed.

(** Relative to [t0] only entry [np] has changed, and its key is [k]. *)
Definition has_key t0 (np : nat) (k : procstate * option nat * option chan) t : Prop :=
  frame np t0 t ∧ key (procs t !!! np) = k.

Lemma has_key_env {A} t0 np k (m : M W A) t a t' : has_key t0 np k t → env m t = Done (a, t') → has_key t0 np k t'.
Proof. intros [Hf Hk] [He Hp]%(frame_env np). split; [by eapply frame_trans|by rewrite Hp]. Qed.

Lemma has_key_upd t0 np k k' f t r t' :
  (np < length (procs t0))%nat → has_key t0 np k t → (∀ q, key q = k → key (f q) = k') → upd np f t = Done (r, t') →
  has_key t0 np k' t'.
Proof.
  intros Hnp [Hf Hk] Hkf H. destruct (frame_upd np f t r t') as [Hf' E]; [by rewrite (fr_len _ _ _ Hf)|done|].
  split; [by eapply frame_trans|]. rewrite E. by apply Hkf.
Qed.

Lemma has_key_frame t0 np k t t' : has_key t0 np k t → frame_key np t t' → has_key t0 np k t'.
Proof. intros [Hf Hk] [Hf' Hk']. split; [by eapply frame_trans|congruence]. Qed.

(** Follows a run of [env] and [upd np] steps. *)
Ltac follow_step :=
  match goal with
  | H : bind _ _ _ = Done _ |- _ => apply bind_Done in H as (? & ? & ? & ?)
  | H : proc_at _ _ = Done _ |- _ => injection H as <- <-
  | H : gets _ _ = Done _ |- _ => injection H as <- <-
  | H : ret _ _ = Done _ |- _ => injection H as <- <-
  | H : panic _ _ = Done _ |- _ => discriminate H
  | H : fail _ _ = Done _ |- _ => discriminate H
  | K : has_key _ _ _ ?t, H : env _ ?t = Done (_, _) |- _ =>
      let K' := fresh "K" in pose proof (has_key_env _ _ _ _ _ _ _ K H) as K'; clear K H
  | Hnp : (?np < length (procs ?t0))%nat, K : has_key ?t0 ?np _ ?t, H : upd ?np _ ?t = Done (_, _) |- _ =>
      let K' := fresh "K" in
      eassert (has_key t0 np _ _) as K' by
        (eapply (has_key_upd _ _ _ _ _ _ _ _ Hnp K); [|exact H];
         let q := fresh "q" in let E1 := fresh in let E2 := fresh in let E3 := fresh in
         intros q; unfold key; cbn; intros [= E1 E2 E3]; rewrite ?E1, ?E2, ?E3; reflexivity); clear K H
  end.
Ltac follow := repeat follow_step.

Lemma key_eq q x y z : key q = (x, y, z) ↔ state q = x ∧ parent q = y ∧ p_chan q = z.
Proof. unfold key. naive_solver. Qed.

Lemma allocproc_stack_run np t x y z r t' :
  (np < length (procs t))%nat → key (procs t !!! np) = (x, y, z) →
  allocproc_stack forkret_addr trapret_addr np t = Done (r, t') →
  (r = Some np ∧ has_key t np (x, y, z) t') ∨ (r = None ∧ has_key t np (UNUSED, y, z) t').
Proof.
  unfold allocproc_stack. intros Hnp Hk H. assert (has_key t np (x, y, z) t) as K by (by split; [apply frame_refl|]).
  follow. destruct (_ =? 0); follow; [by right|by left].
Qed.

Lemma has_key_at t0 np x y z t i :
  has_key t0 np (x, y, z) t →
  st_of t i = set_at np x (st_of t0) i ∧ pa_of t i = set_at np y (pa_of t0) i ∧ ch_of t i = set_at np z (ch_of t0) i.
Proof.
  intros [Hf (H1 & H2 & H3)%key_eq]. unfold st_of, pa_of, ch_of, set_at. destruct (decide (i = np)) as [->|Hne]; [done|].
  by rewrite (fr_other _ _ _ Hf i Hne).
Qed.

Lemma reap_run z x y ch t r t' :
  (z < length (procs t))%nat → key (procs t !!! z) = (x, y, ch) → reap z t = Done (r, t') → has_key t z (UNUSED, None, ch) t'.
Proof.
  unfold reap. intros Hz Hk H. assert (has_key t z (x, y, ch) t) as K by (by split; [apply frame_refl|]). by follow.
Qed.

Lemma upd_with_lock lk np f t r t' :
  upd np f (with_lock lk t) = Done (r, t') → ∃ t2, upd np f t = Done (r, t2) ∧ t' = with_lock lk t2.
Proof. intros [= <- <-]. eexists. split; [done|]. done. Qed.

Lemma fork_rest_run c p np x y z t r t' :
  (np < length (procs t))%nat → key (procs t !!! np) = (x, y, z) → fork_rest c p np t = Done (r, t') →
  (has_key t np (UNUSED, y, z) t') ∨
  (locked (pt_lock t) = 0 ∧ ∃ t2, has_key t np (RUNNABLE, Some p, z) t2 ∧ t' = with_lock (mk_spinlock 0 (lk_name (pt_lock t)) None) t2).
Proof.
  unfold fork_rest. intros Hnp Hk H. assert (has_key t np (x, y, z) t) as K by (by split; [apply frame_refl|]).
  follow. destruct (_ =? 0); follow; [by left|]. right.
  match goal with H : fork_files _ _ _ _ ?u = Done _, K : has_key _ _ _ ?u |- _ =>
    apply fork_files_run in H; [|by rewrite (fr_len _ _ _ (proj1 K))]; pose proof (has_key_frame _ _ _ _ _ K H) as K'; clear K H end.
  destruct (cwd _) as [cw|]; follow.
  match goal with H : on_ptable_lock (acquire _) ?u = Done _, K : has_key _ _ _ ?u |- _ =>
    pose proof (fr_lock _ _ _ (proj1 K)) as El; apply lock_acquire in H as [Hl ->] end.
  match goal with H : upd _ _ (with_lock _ _) = Done _ |- _ => apply upd_with_lock in H as (t2 & H & ->) end.
  match goal with H : on_ptable_lock (release _) _ = Done _ |- _ => apply lock_release in H as [_ ->] end.
  follow. rewrite El in Hl. split; [done|]. exists t2. split; [done|]. unfold with_lock. cbn. by rewrite El.
Qed.

Lemma wake_state ch q : state (wake_if ch q) = state q ∨ (state q = SLEEPING ∧ state (wake_if ch q) = RUNNABLE).
Proof. unfold wake_if. case_bool_decide; [|by left]. case_bool_decide; [by right|by left]. Qed.

Lemma wake_key ch q : parent (wake_if ch q) = parent q ∧ p_chan (wake_if ch q) = p_chan q.
Proof. unfold wake_if. by case_bool_decide; [case_bool_decide|]. Qed.

Lemma wake_asleep ch q : state (wake_if ch q) = SLEEPING → p_chan q ≠ ch.
Proof. unfold wake_if. case_bool_decide; [|done]. by case_bool_decide. Qed.

(** What waking the sleepers on [ch] does to the table. *)
Lemma wake_all ch t t' :
  procs t' = wake_if ch <$> procs t →
  woken (st_of t) (st_of t') ∧ (∀ j, pa_of t' j = pa_of t j) ∧ (∀ j, ch_of t' j = ch_of t j) ∧
  (∀ j, st_of t' j = SLEEPING → ch_of t j ≠ ch).
Proof.
  intros E. unfold woken, st_of, pa_of, ch_of. split_and!; intros j; rewrite E, wake_at.
  - apply wake_state.
  - apply wake_key.
  - apply wake_key.
  - apply wake_asleep.
Qed.

Lemma woken_trans st1 st2 st3 : woken st1 st2 → woken st2 st3 → woken st1 st3.
Proof.
  intros H1 H2 p. destruct (H1 p) as [E1|[E1 E1']], (H2 p) as [E2|[E2 E2']]; rewrite ?E2, ?E2', ?E1, ?E1'; auto; try congruence.
  right. split; congruence.
Qed.

(** One entry of [exit]'s loop that passes children to init. *)
Definition reparent_one (i p : nat) : M (pst W) unit :=
  q <- proc_at i;;
  ip <- gets initproc;;
  when (bool_decide (parent q = Some p)) (
    upd i (set_parent ip);;
    q <- proc_at i;;
    when (bool_decide (state q = ZOMBIE)) (wakeup1 (CProc <$> ip))).

Lemma reparent_S n i p t : reparent (S n) i p t = (reparent_one i p;; reparent n (S i) p) t.
Proof.
  cbn [reparent]. unfold reparent_one, bind, proc_at, gets. by destruct (when _ _ t) as [[? ?]|].
Qed.

(** Children of [p] among the entries [I] were passed on. *)
Record passed (I : nat → Prop) (p : nat) t t' : Prop := {
  pa_lock : pt_lock t' = pt_lock t;
  pa_init : initproc t' = initproc t;
  pa_len : length (procs t') = length (procs t);
  pa_ch j : ch_of t' j = ch_of t j;
  pa_woken : woken (st_of t) (st_of t');
  pa_parent j : (I j ∧ pa_of t j = Some p ∧ pa_of t' j = initproc t) ∨ (¬ (I j ∧ pa_of t j = Some p) ∧ pa_of t' j = pa_of t j);
  pa_zombie j ip : I j → pa_of t j = Some p → st_of t j = ZOMBIE → initproc t = Some ip → st_of t' ip = SLEEPING →
    ch_of t ip ≠ Some (CProc ip);
}.

Lemma reparent_one_run p i t r t' :
  reparent_one i p t = Done (r, t') → (i < length (procs t))%nat → passed (eq i) p t t'.
Proof.
  unfold reparent_one. intros H Hi. run. case_bool_decide as E; cbn [when] in *; run; cbn in *.
  2:{ split; try done; [by left|right; split; [|done]; intros [<- ?]; done|intros j ip <- ?; done]. }
  assert (∀ j, st_of (set_procs (<[i := set_parent (initproc t) (procs t !!! i)]> (procs t)) t) j = st_of t j ∧
    ch_of (set_procs (<[i := set_parent (initproc t) (procs t !!! i)]> (procs t)) t) j = ch_of t j ∧
    pa_of (set_procs (<[i := set_parent (initproc t) (procs t !!! i)]> (procs t)) t) j = if decide (j = i) then initproc t else pa_of t j) as Hj.
  { intros j. unfold st_of, ch_of, pa_of. cbn. rewrite insert_at by done. by destruct (decide (j = i)) as [->|]. }
  set (t1 := set_procs _ t) in *.
  assert (∀ j, (i = j ∧ pa_of t j = Some p ∧ pa_of t1 j = initproc t) ∨ (¬ (i = j ∧ pa_of t j = Some p) ∧ pa_of t1 j = pa_of t j)) as Hp.
  { intros j. destruct (Hj j) as (_ & _ & ->). destruct (decide (j = i)) as [->|]; [left|right]; split_and!; try done. naive_solver. }
  assert (length (procs t1) = length (procs t)) as Hl by apply length_insert.
  rewrite list_lookup_total_insert_eq in * by done. cbn in *. case_bool_decide as Ez; cbn [when] in *.
  - unfold wakeup1, upd_all in *. run. destruct (wake_all (CProc <$> initproc t) t1 (set_procs (wake_if (CProc <$> initproc t) <$> procs t1) t1))
      as (W1 & W2 & W3 & W4); [done|]. set (t2 := set_procs (wake_if _ <$> _) t1) in *. split; try done.
    + cbn. by rewrite length_fmap.
    + intros j. rewrite W3. apply Hj.
    + intros j. destruct (Hj j) as (<- & _). apply W1.
    + intros j. rewrite W2. apply Hp.
    + intros j ip <- _ _ Hip Hs. specialize (W4 ip Hs). rewrite Hip in W4. destruct (Hj ip) as (_ & E' & _). by rewrite E' in W4.
  - run. split; try done.
    + intros j. apply Hj.
    + intros j. left. apply Hj.
    + intros j ip <- _ Hz. done.
Qed.

(** The loop of [exit] that passes children to init. *)
Lemma reparent_run p n i t r t' :
  reparent n i p t = Done (r, t') → (n + i = length (procs t))%nat → passed (λ j, (i ≤ j < length (procs t))%nat) p t t'.
Proof.
  revert i t. induction n as [|n IH]; intros i t H Hn.
  { cbn in H. run. split; try done; [by left|right; split; [lia|done]|intros; lia]. }
  rewrite reparent_S in H. apply bind_Done in H as (? & t1 & H1 & H2).
  apply reparent_one_run in H1; [|lia]. apply IH in H2; [|rewrite (pa_len _ _ _ _ H1); lia].
  assert (length (procs t1) = length (procs t)) as Hl by apply H1.
  destruct H1 as [A1 A2 _ A4 A5 A6 A7], H2 as [B1 B2 B3 B4 B5 B6 B7]. rewrite Hl, A2 in *. split; try congruence.
  - apply (woken_trans _ _ _ A5 B5).
  - intros j. specialize (A6 j). specialize (B6 j).
    destruct A6 as [(-> & E1 & E2)|(E1 & E2)], B6 as [(E3 & E4 & E5)|(E3 & E4)]; rewrite ?E2 in *.
    + lia.
    + left. split; [lia|]. split; congruence.
    + left. split; [lia|]. split; congruence.
    + right. split; [|done]. intros [Hr Hp]. apply E3. split; [|done]. destruct (decide (i = j)) as [->|]; [by destruct E1|lia].
  - intros j ip Hr Hp Hz Hip Hs.
    assert (st_of t1 ip = SLEEPING ∨ st_of t1 ip = st_of t' ip) as Hs1 by (destruct (B5 ip) as [E|[E _]]; auto).
    destruct (decide (i = j)) as [<-|Hne].
    + apply (A7 i ip); try done. destruct Hs1; congruence.
    + rewrite <-A4. apply (B7 j ip); [lia| |apply (woken_same _ _ j ZOMBIE A5); done|done|done].
      destruct (A6 j) as [(? & _)|[_ E]]; [done|]. by rewrite E.
Qed.

Lemma out_of_table t j : (length (procs t) ≤ j)%nat → st_of t j = UNUSED ∧ pa_of t j = None ∧ ch_of t j = None.
Proof.
  intros Hj. unfold st_of, pa_of, ch_of. rewrite !list_lookup_total_alt. by rewrite (lookup_ge_None_2 _ _ Hj).
Qed.

Lemma exit_table_run c cc p ip t r t' :
  exit_table c cc p t = Done (r, t') → length (procs t) = NPROC → (p < NPROC)%nat → initproc t = Some ip →
  locked (pt_lock t) = 0 ∧ pt_lock t' = mk_spinlock 1 (lk_name (pt_lock t)) (Some c) ∧ initproc t' = Some ip ∧
  length (procs t') = NPROC ∧
  ∃ st', woken (st_of t) st' ∧ (∀ j, st_of t' j = set_at p ZOMBIE st' j) ∧ (∀ j, ch_of t' j = ch_of t j) ∧
    (∀ j, pa_of t' j = if decide (pa_of t j = Some p) then Some ip else pa_of t j) ∧
    (∀ r, pa_of t p = Some r → st' r = SLEEPING → ch_of t r ≠ Some (CProc r)) ∧
    (∀ q, pa_of t q = Some p → st_of t q = ZOMBIE → st' ip = SLEEPING → ch_of t ip ≠ Some (CProc ip)).
Proof.
  unfold exit_table. intros H Hlen Hp Hip. apply bind_Done in H as (? & t0 & [Hl ->]%lock_acquire & H).
  set (lk := mk_spinlock 1 _ _) in *. apply bind_Done in H as (q & ? & [= <- <-] & H). cbn [procs with_lock] in H.
  apply bind_Done in H as (? & t1 & [= <- <-] & H). apply bind_Done in H as (? & t2 & H2 & H).
  apply bind_Done in H as (? & t3 & [= <- <-] & H%sched_run). subst t'.
  destruct (wake_all (CProc <$> parent (procs t !!! p)) t (set_procs (wake_if (CProc <$> parent (procs t !!! p)) <$> procs t) (with_lock lk t)))
    as (W1 & W2 & W3 & W4); [done|]. cbn [procs with_lock] in H2.
  set (t1 := set_procs _ (with_lock lk t)) in *.
  assert (length (procs t1) = NPROC) as Hl1 by (cbn; by rewrite length_fmap).
  apply reparent_run in H2; [|lia]. destruct H2 as [P1 P2 P3 P4 P5 P6 P7]. rewrite Hl1 in *.
  cbn. rewrite P1, P2, length_insert, P3. split_and!; try done. exists (st_of t2).
  split; [by eapply woken_trans|].
  assert (∀ j, pa_of t j = Some p → (0 ≤ j < NPROC)%nat) as Hin.
  { intros j Hj. destruct (decide (j < NPROC)%nat); [lia|]. destruct (out_of_table t j) as (_ & E & _); [lia|congruence]. }
  split_and!.
  - intros j. unfold st_of at 1, set_at. cbn. rewrite insert_at by lia. by destruct (decide (j = p)).
  - intros j. rewrite <-W3, <-P4. unfold ch_of. cbn. rewrite insert_at by lia. by destruct (decide (j = p)) as [->|].
  - intros j. transitivity (pa_of t2 j).
    { unfold pa_of. cbn. rewrite insert_at by lia. by destruct (decide (j = p)) as [->|]. }
    rewrite <-W2. destruct (P6 j) as [(E1 & E2 & E3)|[E1 E2]].
    + rewrite decide_True by done. by rewrite E3.
    + rewrite E2. case_decide as Ep; [|done]. destruct E1. split; [|done]. apply Hin. by rewrite <-W2.
  - intros r' Hr Hs. unfold pa_of in Hr. rewrite Hr in *. apply W4.
    destruct (P5 r') as [E|[E E']]; [by rewrite <-E|congruence].
  - intros j Hj Hz Hs. rewrite <-W3. apply (P7 j ip); try done; [by apply Hin|by rewrite W2|by apply (woken_same _ _ j ZOMBIE W1)].
Qed.

Lemma wait_round_run c cc p t r t' :
  wait_round c cc p t = Done (r, t') → (p < length (procs t))%nat →
  (r = None ∧ (∀ q, pa_of t q = Some p → st_of t q ≠ ZOMBIE) ∧
     t' = set_procs (<[p := set_state SLEEPING (set_chan (Some (CProc p)) (procs t !!! p))]> (procs t)) t) ∨
  (is_Some r ∧ ∃ t2, t' = with_lock (mk_spinlock 0 (lk_name (pt_lock t)) None) t2 ∧
     (t2 = t ∨ ∃ z, (z < length (procs t))%nat ∧ st_of t z = ZOMBIE ∧ pa_of t z = Some p ∧ has_key t z (UNUSED, None, ch_of t z) t2)).
Proof.
  unfold wait_round. intros H Hp. apply bind_Done in H as (? & ? & [= <- <-] & H).
  destruct (scan _ _ 0) as [z|] eqn:Es.
  - right. apply scan_Some in Es as [Hz Ez]. cbn in Hz. rewrite Nat.sub_0_r in Ez.
    apply andb_true_iff in Ez as [Ez1%bool_decide_eq_true Ez2%bool_decide_eq_true].
    apply bind_Done in H as (pid & t2 & Hr & H). apply bind_Done in H as (? & ? & [_ ->]%lock_release & [= <- <-]).
    split; [by eexists|]. apply (reap_run z ZOMBIE (Some p) (ch_of t z)) in Hr; [|lia|by apply key_eq]. exists t2. split.
    + by rewrite (fr_lock _ _ _ (proj1 Hr)).
    + right. exists z. split_and!; try done. lia.
  - apply bind_Done in H as (? & ? & [= <- <-] & H). destruct (_ || _).
    + right. apply bind_Done in H as (? & ? & [_ ->]%lock_release & [= <- <-]). split; [by eexists|]. exists t. auto.
    + left. apply bind_Done in H as (? & ? & Hsl & [= <- <-]). apply sleep_ptable_run in Hsl; [|done]. split_and!; try done.
      intros q Hq Hz. destruct (decide (q < length (procs t))%nat) as [Hl|Hl].
      * pose proof (scan_None _ _ _ Es q Hl) as E. unfold pa_of, st_of in *. rewrite Hq, Hz in E. cbn in E.
        by rewrite !bool_decide_true in E.
      * destruct (out_of_table t q) as (_ & E & _); [lia|]. congruence.
Qed.

(** *** The lock *)

Lemma lock_inv_free lk cp : lock_inv lk cp → locked lk = 0 → lock_free lk ∧ ∀ c i, cp c ≠ SchedAt i.
Proof. intros [H|(c & i & nm & -> & _)] E; [done|]. done. Qed.

Lemma lock_inv_take lk cp c i nm : lock_inv lk cp → locked lk = 0 → lock_inv (mk_spinlock 1 nm (Some c)) (set_at c (SchedAt i) cp).
Proof.
  intros Hi E. destruct (lock_inv_free _ _ Hi E) as [_ Hn]. right. exists c, i, nm. split; [done|].
  split; [by unfold set_at; rewrite decide_True|]. intros c' j E'. unfold set_at in E'. case_decide; [done|]. by destruct (Hn c' j).
Qed.

Lemma lock_inv_move lk cp c i j : lock_inv lk cp → cp c = SchedAt i → lock_inv lk (set_at c (SchedAt j) cp).
Proof.
  intros [[_ Hn]|(c0 & i0 & nm & -> & E & Hu)] Hc; [by destruct (Hn c i)|]. assert (c = c0) as -> by (by eapply Hu).
  right. exists c0, j, nm. split; [done|]. split; [by unfold set_at; rewrite decide_True|].
  intros c' j' E'. unfold set_at in E'. case_decide; [done|]. by eapply Hu.
Qed.

Lemma lock_inv_drop lk cp c i nm x :
  lock_inv lk cp → cp c = SchedAt i → (∀ j, x ≠ SchedAt j) → lock_inv (mk_spinlock 0 nm None) (set_at c x cp).
Proof.
  intros [[_ Hn]|(c0 & i0 & nm' & -> & E & Hu)] Hc Hx; [by destruct (Hn c i)|]. assert (c = c0) as -> by (by eapply Hu).
  left. split; [done|]. intros c' j' E'. unfold set_at in E'. case_decide as Ec; [by destruct (Hx j')|]. apply Hu in E'. done.
Qed.

Lemma lock_inv_brief lk cp nm : lock_inv lk cp → locked lk = 0 → lock_inv (mk_spinlock 0 nm None) cp.
Proof. intros Hi E. destruct (lock_inv_free _ _ Hi E) as [_ Hn]. by left. Qed.

(** *** Every step preserves the invariant *)

Lemma pinv_mk t cp tk ip :
  length (procs t) = NPROC → lock_inv (pt_lock t) cp → initproc t = Some ip →
  tinv (st_of t) (pa_of t) (ch_of t) ip cp tk → pinv (mk_sys t cp tk).
Proof. intros H1 H2 H3 H4. split; [done|done|]. by exists ip. Qed.

Definition set_world (w : W) (t : pst W) : pst W := mk_pst (pt_lock t) (procs t) (initproc t) (nextpid t) w.

Lemma pinv_world w t cp tk : pinv (mk_sys t cp tk) → pinv (mk_sys (set_world w t) cp tk).
Proof. intros [H1 H2 (ip & H3 & H4)]. by apply (pinv_mk _ _ _ ip). Qed.

Lemma pinv_back t t' cp tk : scheduler_back t = Done (tt, t') → pinv (mk_sys t cp tk) → pinv (mk_sys t' cp tk).
Proof. intros (w & _ & ->)%zoom_Done. apply pinv_world. Qed.

Lemma scheduler_try_run i t b t' :
  scheduler_try i t = Done (b, t') →
  if b then st_of t i = RUNNABLE ∧ ∃ w, t' = set_procs (<[i := set_state RUNNING (procs t !!! i)]> (procs t)) (set_world w t) else t' = t.
Proof.
  unfold scheduler_try. intros H. run. case_bool_decide; cbn [negb] in *; [|run; done].
  apply bind_Done in H0 as (? & t0 & He & Hu). apply zoom_Done in He as (w & _ & ->). run. eauto.
Qed.

(** Takes the state after a change of the world for the one before it. *)
Ltac use_world w t :=
  change (st_of t) with (st_of (set_world w t)) in *; change (pt_lock t) with (pt_lock (set_world w t)) in *;
  change (procs t) with (procs (set_world w t)) in *; generalize dependent (set_world w t); clear t; intros t; intros.

(** Changes of one entry, as the invariant sees them. *)
Lemma insert_key t np q i :
  (np < length (procs t))%nat →
  st_of (set_procs (<[np := q]> (procs t)) t) i = set_at np (state q) (st_of t) i ∧
  pa_of (set_procs (<[np := q]> (procs t)) t) i = set_at np (parent q) (pa_of t) i ∧
  ch_of (set_procs (<[np := q]> (procs t)) t) i = set_at np (p_chan q) (ch_of t) i.
Proof. intros H. unfold st_of, pa_of, ch_of, set_at. cbn. rewrite insert_at by done. by destruct (decide (i = np)). Qed.

Lemma set_at_same {A} (f : nat → A) p i : set_at p (f p) f i = f i.
Proof. unfold set_at. by destruct (decide (i = p)) as [->|]. Qed.

(** A process gets the CPU, with its channel set to [y]; the lock is still held. *)
Lemma pinv_run c i j y t cp tk :
  pinv (mk_sys t cp tk) → cp c = SchedAt j → (i < NPROC)%nat → st_of t i = RUNNABLE →
  ∃ ip, initproc t = Some ip ∧ length (procs t) = NPROC ∧ lock_inv (pt_lock t) cp ∧
    tinv (set_at i RUNNING (st_of t)) (pa_of t) (set_at i y (ch_of t)) ip (set_at c (Running i) cp) (set_at i TUser tk).
Proof.
  intros [H1 H2 (ip & H3 & H4)] Hc Hi Hr. exists ip. split_and!; try done. apply tinv_run; try done. by rewrite Hc.
Qed.

Lemma pinv_scheduled c i j t t1 t' cp tk :
  pinv (mk_sys t cp tk) → cp c = SchedAt j → (i < NPROC)%nat → scheduler_try i t = Done (true, t1) →
  (t' = with_lock (mk_spinlock 0 (lk_name (pt_lock t)) None) t1 ∨
   t' = with_lock (mk_spinlock 0 (lk_name (pt_lock t)) None) (set_procs (<[i := set_chan None (procs t1 !!! i)]> (procs t1)) t1)) →
  pinv (mk_sys t' (set_at c (Running i) cp) (set_at i TUser tk)).
Proof.
  intros Hpi Hc Hi [Hr [w ->]]%scheduler_try_run Ht. apply (pinv_world w) in Hpi. use_world w t.
  assert (∃ y, length (procs t') = length (procs t) ∧ pt_lock t' = mk_spinlock 0 (lk_name (pt_lock t)) None ∧ initproc t' = initproc t ∧
    ∀ j, st_of t' j = set_at i RUNNING (st_of t) j ∧ pa_of t' j = pa_of t j ∧ ch_of t' j = set_at i y (ch_of t) j) as (y & E1 & E2 & E3 & E4).
  { pose proof (pi_len _ Hpi) as Hl. cbn in Hl. destruct Ht as [->| ->]; [exists (ch_of t i)|exists None]; cbn.
    - rewrite length_insert. split_and!; try done. intros k. 
      destruct (insert_key t i (set_state RUNNING (procs t !!! i)) k) as (A1 & A2 & A3); [lia|].
      split_and!; [exact A1|rewrite <-(set_at_same (pa_of t) i k); exact A2|exact A3].
    - rewrite list_lookup_total_insert_eq, list_insert_insert_eq, length_insert by lia. split_and!; try done. intros k.
      destruct (insert_key t i (set_chan None (set_state RUNNING (procs t !!! i))) k) as (A1 & A2 & A3); [lia|].
      split_and!; [exact A1|rewrite <-(set_at_same (pa_of t) i k); exact A2|exact A3]. }
  destruct (pinv_run c i j y t cp tk Hpi Hc Hi Hr) as (ip & F1 & F2 & F3 & F4).
  apply (pinv_mk _ _ _ ip); [congruence| |congruence|].
  - rewrite E2. by eapply lock_inv_drop.
  - eapply tinv_ext; [exact F4|..]; try done; intros k; apply E4.
Qed.

(** A round of [wait], with the lock held. *)
Lemma tinv_wait_round c cc p k t r t' cp tk ip :
  tinv (st_of t) (pa_of t) (ch_of t) ip cp tk → cp c = Running p → tk p = TUser → length (procs t) = NPROC →
  initproc t = Some ip → wait_round c cc p t = Done (r, t') →
  initproc t' = Some ip ∧ length (procs t') = NPROC ∧
  match r with
  | Some _ => pt_lock t' = mk_spinlock 0 (lk_name (pt_lock t)) None ∧ tinv (st_of t') (pa_of t') (ch_of t') ip cp tk
  | None => pt_lock t' = pt_lock t ∧ tinv (st_of t') (pa_of t') (ch_of t') ip (set_at c (SchedAt k) cp) (set_at p TWait tk)
  end.
Proof.
  intros Hi Hc Hp Hl Hip H. assert (p < length (procs t))%nat as Hlt.
  { destruct (decide (p < length (procs t))%nat); [done|]. pose proof (ti_run _ _ _ _ _ _ Hi _ _ Hc).
    destruct (out_of_table t p) as [? _]; [lia|congruence]. }
  destruct (wait_round_run _ _ _ _ _ _ H Hlt) as [(-> & Hz & ->)|([x ->] & t2 & -> & Ht2)].
  - cbn. rewrite length_insert. split_and!; try done.
    eapply tinv_ext; [apply (tinv_leave _ _ _ _ _ _ c p SLEEPING (Some (CProc p)) TWait (SchedAt k) Hi Hc Hp)|..]; try done.
    + right. right. done.
    + intros j. by apply insert_key.
    + intros j. rewrite <-(set_at_same (pa_of t) p j). by apply insert_key.
    + intros j. by apply insert_key.
  - destruct Ht2 as [->|(z & Hzl & Hzz & Hzp & Hk)]; [done|]. cbn.
    rewrite (fr_init _ _ _ (proj1 Hk)), (fr_len _ _ _ (proj1 Hk)). split_and!; try done.
    eapply tinv_ext; [by apply (tinv_reap _ _ _ _ _ _ z Hi)|..]; try done; intros j.
    + by apply (has_key_at t z UNUSED None (ch_of t z) t2 j).
    + by apply (has_key_at t z UNUSED None (ch_of t z) t2 j).
    + rewrite <-(set_at_same (ch_of t) z j). by apply (has_key_at t z UNUSED None (ch_of t z) t2 j).
Qed.

Lemma pinv_rewait c cc i j t t1 t' r cp tk :
  pinv (mk_sys t cp tk) → cp c = SchedAt j → (i < NPROC)%nat → scheduler_try i t = Done (true, t1) → tk i = TWait →
  wait_leave c cc i t1 = Done (r, t') →
  match r with
  | Some _ => pinv (mk_sys t' (set_at c (Running i) cp) (set_at i TUser tk))
  | None => pinv (mk_sys t' (set_at c (SchedAt (S i)) cp) tk)
  end.
Proof.
  intros Hpi Hc Hi [Hr [w ->]]%scheduler_try_run Ht H. apply (pinv_world w) in Hpi. use_world w t. unfold wait_leave, sleep_ptable_leave in H.
  apply bind_Done in H as (? & t2 & [= <- <-] & H). cbn [procs set_procs] in H.
  destruct (pinv_run c i j None t cp tk Hpi Hc Hi Hr) as (ip & F1 & F2 & F3 & F4).
  rewrite list_lookup_total_insert_eq, list_insert_insert_eq in H by lia.
  set (q := set_chan None _) in H. change (set_procs (<[i := q]> (procs t)) _) with (set_procs (<[i := q]> (procs t)) t) in H.
  set (t2 := set_procs (<[i := q]> (procs t)) t) in H.
  assert (tinv (st_of t2) (pa_of t2) (ch_of t2) ip (set_at c (Running i) cp) (set_at i TUser tk)) as Hti.
  { eapply tinv_ext; [exact F4|..]; try done; intros k; [| rewrite <-(set_at_same (pa_of t) i k) |]; apply insert_key; lia. }
  apply (tinv_wait_round c cc i (S i) t2 r t' (set_at c (Running i) cp) (set_at i TUser tk) ip) in H; [|done|unfold set_at; by rewrite decide_True..|cbn; by rewrite length_insert|done].
  destruct H as (G1 & G2 & G3). destruct r as [x|]; destruct G3 as [G3 G4]; (apply (pinv_mk _ _ _ ip); [done| |done|]).
  - rewrite G3. by eapply lock_inv_drop.
  - done.
  - rewrite G3. by eapply lock_inv_move.
  - eapply tinv_ext; [exact G4|..]; try done; intros k; unfold set_at; by repeat case_decide; subst.
Qed.

Lemma running_bound s c p : pinv s → cpus s c = Running p → (p < length (procs (ps s)))%nat.
Proof.
  intros [H1 _ (ip & _ & H3)] Hc. pose proof (ti_run _ _ _ _ _ _ H3 _ _ Hc) as Hr.
  destruct (decide (p < length (procs (ps s)))%nat); [done|]. destruct (out_of_table (ps s) p) as [E _]; [lia|]. congruence.
Qed.

Lemma pinv_leave s c p t x y k tk' nm w :
  pinv s → cpus s c = Running p → tasks s p = TUser → locked (pt_lock (ps s)) = 0 →
  t = mk_pst (mk_spinlock 1 nm (Some c)) (<[p := set_state x (set_chan y (procs (ps s) !!! p))]> (procs (ps s)))
        (initproc (ps s)) (nextpid (ps s)) w →
  (x = RUNNABLE ∧ tk' = TYield) ∨ (x = SLEEPING ∧ tk' = TSleep ∧ ∃ a, y = Some (CAddr a)) →
  pinv (mk_sys t (set_at c (SchedAt k) (cpus s)) (set_at p tk' (tasks s))).
Proof.
  intros Hpi Hc Hp Hl -> Hx. pose proof (running_bound s c p Hpi Hc) as Hlt. destruct Hpi as [H1 H2 (ip & H3 & H4)].
  apply (pinv_mk _ _ _ ip); cbn; [by rewrite length_insert|by eapply lock_inv_take|done|].
  eapply tinv_ext; [apply (tinv_leave _ _ _ _ _ _ c p x y tk' (SchedAt k) H4 Hc Hp)|..]; try done.
  - naive_solver.
  - intros j. by apply (insert_key (ps s)).
  - intros j. rewrite <-(set_at_same (pa_of (ps s)) p j). by apply (insert_key (ps s)).
  - intros j. by apply (insert_key (ps s)).
Qed.

Lemma pinv_woken s t nm :
  pinv s → locked (pt_lock (ps s)) = 0 → pt_lock t = mk_spinlock 0 nm None → length (procs t) = length (procs (ps s)) →
  initproc t = initproc (ps s) → woken (st_of (ps s)) (st_of t) → (∀ j, pa_of t j = pa_of (ps s) j) →
  (∀ j, ch_of t j = ch_of (ps s) j) → pinv (mk_sys t (cpus s) (tasks s)).
Proof.
  intros [H1 H2 (ip & H3 & H4)] Hl E1 E2 E3 Hw E4 E5. apply (pinv_mk _ _ _ ip); [congruence| |congruence|].
  - rewrite E1. by eapply lock_inv_brief.
  - eapply tinv_ext; [by apply (tinv_wake _ _ _ _ _ _ (st_of t) H4)|..]; done.
Qed.

Lemma pinv_forked s c p np t t' r :
  pinv s → cpus s c = Running p → tasks s p = TForking np →
  allocproc_stack forkret_addr trapret_addr np (ps s) = Done (Some np, t) → fork_rest c p np t = Done (r, t') →
  pinv (mk_sys t' (cpus s) (set_at p TUser (set_at np TFork (tasks s)))).
Proof.
  intros [H1 H2 (ip & H3 & H4)] Hc Hp Ha Hf. pose proof (ti_run _ _ _ _ _ _ H4 _ _ Hc) as Hr.
  pose proof (ti_fork _ _ _ _ _ _ H4 p np Hr Hp) as Hnp.
  assert (np < length (procs (ps s)))%nat as Hlt.
  { destruct (decide (np < length (procs (ps s)))%nat); [done|]. destruct (out_of_table (ps s) np) as [E _]; [lia|]. congruence. }
  apply (allocproc_stack_run np (ps s) EMBRYO (pa_of (ps s) np) (ch_of (ps s) np)) in Ha; [|done|by apply key_eq].
  destruct Ha as [[_ Ka]|[? _]]; [|done].
  assert (np < length (procs t))%nat as Hlt' by (by rewrite (fr_len _ _ _ (proj1 Ka))).
  apply (fork_rest_run c p np EMBRYO (pa_of (ps s) np) (ch_of (ps s) np)) in Hf; [|done|apply Ka].
  assert (∀ k t2, has_key t np k t2 → has_key (ps s) np k t2) as Htr.
  { intros k t2 [A1 A2]. split; [|done]. eapply frame_trans; [apply Ka|done]. }
  destruct Hf as [Kf%Htr|(Hl & t2 & Kf%Htr & ->)].
  - apply (pinv_mk _ _ _ ip); [by rewrite (fr_len _ _ _ (proj1 Kf))|by rewrite (fr_lock _ _ _ (proj1 Kf))|by rewrite (fr_init _ _ _ (proj1 Kf))|].
    assert (np ≠ p) as Hne by congruence.
    eapply tinv_ext; [apply (tinv_unused _ _ _ _ _ _ np TFork (tinv_fork_fails _ _ _ _ _ _ p np H4 Hr Hp))|..]; try done.
    + unfold set_at. by rewrite decide_True.
    + intros j. by apply (has_key_at _ _ _ _ _ _ j Kf).
    + intros j. rewrite <-(set_at_same (pa_of (ps s)) np j). by apply (has_key_at _ _ _ _ _ _ j Kf).
    + intros j. rewrite <-(set_at_same (ch_of (ps s)) np j). by apply (has_key_at _ _ _ _ _ _ j Kf).
    + intros j. unfold set_at. repeat case_decide; congruence.
  - rewrite (fr_lock _ _ _ (proj1 Ka)) in Hl |- *.
    apply (pinv_mk _ _ _ ip); cbn; [by rewrite (fr_len _ _ _ (proj1 Kf))|by eapply lock_inv_brief|by rewrite (fr_init _ _ _ (proj1 Kf))|].
    eapply tinv_ext; [by apply (tinv_forked _ _ _ _ _ _ p np (ch_of (ps s) np) H4)|..]; try done; intros j; by apply (has_key_at _ _ _ _ _ _ j Kf).
Qed.

Lemma pinv_fork s c p np t :
  pinv s → cpus s c = Running p → tasks s p = TUser → allocproc_slot c (ps s) = Done (Some np, t) →
  pinv (mk_sys t (cpus s) (set_at p (TForking np) (tasks s))).
Proof.
  intros [H1 H2 (ip & H3 & H4)] Hc Hp Ha. destruct (allocproc_slot_run _ _ _ _ Ha) as (Hl & E1 & E2 & Hlt & Hu & E3).
  assert (∀ j, st_of t j = set_at np EMBRYO (st_of (ps s)) j ∧ pa_of t j = pa_of (ps s) j ∧ ch_of t j = ch_of (ps s) j) as Hj.
  { intros j. unfold st_of, pa_of, ch_of, set_at. rewrite E3, insert_at by done. by destruct (decide (j = np)) as [->|]. }
  apply (pinv_mk _ _ _ ip); [rewrite E3; by rewrite length_insert|rewrite E1; by eapply lock_inv_brief|congruence|].
  eapply tinv_ext; [apply (tinv_alloc _ _ _ _ _ _ p np H4)|..]; try done; try (intros j; apply Hj).
  - by eapply (ti_run _ _ _ _ _ _ H4).
  - by rewrite <-H1.
Qed.

Lemma pinv_fork_fails s c p np t :
  pinv s → cpus s c = Running p → tasks s p = TForking np →
  allocproc_stack forkret_addr trapret_addr np (ps s) = Done (None, t) → pinv (mk_sys t (cpus s) (set_at p TUser (tasks s))).
Proof.
  intros [H1 H2 (ip & H3 & H4)] Hc Hp Ha. pose proof (ti_run _ _ _ _ _ _ H4 _ _ Hc) as Hr.
  pose proof (ti_fork _ _ _ _ _ _ H4 p np Hr Hp) as Hnp.
  assert (np < length (procs (ps s)))%nat as Hlt.
  { destruct (decide (np < length (procs (ps s)))%nat); [done|]. destruct (out_of_table (ps s) np) as [E _]; [lia|]. congruence. }
  apply (allocproc_stack_run np (ps s) EMBRYO (pa_of (ps s) np) (ch_of (ps s) np)) in Ha; [|done|by apply key_eq].
  destruct Ha as [[? _]|[_ Kf]]; [done|].
  apply (pinv_mk _ _ _ ip); [by rewrite (fr_len _ _ _ (proj1 Kf))|by rewrite (fr_lock _ _ _ (proj1 Kf))|by rewrite (fr_init _ _ _ (proj1 Kf))|].
  eapply tinv_ext; [apply (tinv_fork_fails _ _ _ _ _ _ p np H4 Hr Hp)|..]; try done.
  + intros j. by apply (has_key_at _ _ _ _ _ _ j Kf).
  + intros j. rewrite <-(set_at_same (pa_of (ps s)) np j). by apply (has_key_at _ _ _ _ _ _ j Kf).
  + intros j. rewrite <-(set_at_same (ch_of (ps s)) np j). by apply (has_key_at _ _ _ _ _ _ j Kf).
Qed.

Lemma pinv_exit s c cc p t r :
  pinv s → cpus s c = Running p → tasks s p = TUser → initproc (ps s) ≠ Some p → exit_table c cc p (ps s) = Done (r, t) →
  pinv (mk_sys t (set_at c (SchedAt (S p)) (cpus s)) (set_at p TExit (tasks s))).
Proof.
  intros Hpi Hc Hp Hne H. pose proof (running_bound s c p Hpi Hc) as Hlt. destruct Hpi as [H1 H2 (ip & H3 & H4)].
  rewrite H1 in Hlt. destruct (exit_table_run _ _ _ _ _ _ _ H H1 Hlt H3) as (Hl & E1 & E2 & E3 & st' & Hw & X1 & X2 & X3 & X4 & X5).
  apply (pinv_mk _ _ _ ip); [done|rewrite E1; by eapply lock_inv_take|done|].
  eapply tinv_ext; [apply (tinv_exit _ _ _ _ _ _ c p (SchedAt (S p)) st' (pa_of t) H4)|..]; try done. congruence.
Qed.

Lemma pinv_wait s c cc p t r :
  pinv s → cpus s c = Running p → tasks s p = TUser → wait_enter c cc p (ps s) = Done (r, t) →
  match r with
  | Some _ => pinv (mk_sys t (cpus s) (tasks s))
  | None => pinv (mk_sys t (set_at c (SchedAt (S p)) (cpus s)) (set_at p TWait (tasks s)))
  end.
Proof.
  intros [H1 H2 (ip & H3 & H4)] Hc Hp H. apply bind_Done in H as (? & t1 & [Hl ->]%lock_acquire & H).
  apply (tinv_wait_round c cc p (S p) _ r t (cpus s) (tasks s) ip) in H; try done.
  destruct H as (G1 & G2 & G3). destruct r as [pid|]; destruct G3 as [G3 G4]; (apply (pinv_mk _ _ _ ip); [done| |done|done]); rewrite G3; cbn.
  - by eapply lock_inv_brief.
  - by eapply lock_inv_take.
Qed.

Lemma pinv_step c s s' : pinv s → step c s s' → pinv s'.
Proof.
  intros Hpi Hs. destruct Hs.
  - destruct (lock_acquire _ _ _ _ H0) as [Hl ->]. destruct Hpi as [H1 H2 (ip & H3 & H4)].
    apply (pinv_mk _ _ _ ip); [done|by eapply lock_inv_take|done|]. apply tinv_sched; [done|by rewrite H|done].
  - apply scheduler_try_run in H1 as ->. destruct Hpi as [A1 A2 (ip & A3 & A4)].
    apply (pinv_mk _ _ _ ip); [done|by eapply lock_inv_move|done|]. apply tinv_sched; [done|by rewrite H|done].
  - destruct (lock_release _ _ _ _ H0) as [_ ->]. destruct Hpi as [A1 A2 (ip & A3 & A4)].
    apply (pinv_mk _ _ _ ip); [done|by eapply lock_inv_drop|done|]. apply tinv_sched; [done|by rewrite H|done].
  - destruct s as [u cp tk]. eapply pinv_scheduled; try done. pose proof (scheduler_try_run _ _ _ _ H1) as [_ [w Et]].
    destruct H2 as [[_ E]|[[_ E]|[_ E]]].
    + apply lock_release in E as [_ ->]. left. by rewrite Et.
    + apply lock_release in E as [_ ->]. left. by rewrite Et.
    + unfold sleep_leave in E. apply bind_Done in E as (? & ? & [= <- <-] & [_ ->]%lock_release). right. by rewrite Et.
  - destruct s as [u cp tk]. by apply (pinv_rewait c cc i i u t t' (Some r) cp tk).
  - destruct s as [u cp tk]. eapply pinv_back; [done|]. by apply (pinv_rewait c cc i i u t t' None cp tk).
  - eapply pinv_back; [done|]. apply yield_enter_run in H1 as [Hl ->]. eapply (pinv_leave s c p _ RUNNABLE (p_chan (procs (ps s) !!! p))); try done. by left.
  - pose proof (running_bound s c p Hpi H) as Hlt. apply sleep_enter_run in H1 as [Hl [w ->]]; [|done].
    eapply pinv_back; [done|].
    eapply (pinv_leave s c p _ SLEEPING (Some (CAddr a))); try done. right. eauto.
  - apply wakeup_run in H0 as [Hl ->].
    destruct (wake_all (Some (CAddr a)) (ps s) (mk_pst (mk_spinlock 0 (lk_name (pt_lock (ps s))) None) (wake_if (Some (CAddr a)) <$> procs (ps s))
      (initproc (ps s)) (nextpid (ps s)) (world (ps s)))) as (W1 & W2 & W3 & _); [done|].
    eapply pinv_woken; try done. cbn. by rewrite length_fmap.
  - apply kill_run in H1 as (Hl & E1 & E2 & E3 & E4). eapply pinv_woken; try done; intros j; apply E4.
  - by eapply pinv_fork.
  - by eapply pinv_forked.
  - by eapply pinv_fork_fails.
  - eapply pinv_back; [done|]. by eapply pinv_exit.
  - by apply (pinv_wait s c cc p t (Some r)).
  - eapply pinv_back; [done|]. by apply (pinv_wait s c cc p t None).
  - pose proof (running_bound s c p Hpi H) as Hlt. destruct Hpi as [A1 A2 (ip & A3 & A4)]. destruct H0 as (O1 & O2 & O3 & O4).
    apply (pinv_mk _ _ _ ip); cbn; [by rewrite length_insert|done|done|].
    eapply tinv_ext; [exact A4|..]; try done; intros j; unfold st_of, pa_of, ch_of; cbn; rewrite insert_at by done;
      by destruct (decide (j = p)) as [->|].
Qed.

(** ** From boot on *)

(** The table as the loader leaves it. *)
Definition blank (w : W) : pst W := mk_pst (initlock "ptable") (replicate NPROC zero_proc) None 1 w.

Lemma blank_key w np : key (procs (blank w) !!! np) = (UNUSED, None, None).
Proof.
  cbn [blank procs]. rewrite list_lookup_total_alt. destruct (replicate NPROC zero_proc !! np) as [q|] eqn:E; [|done].
  by apply lookup_replicate in E as [-> _].
Qed.

Lemma userinit_run w c r t :
  userinit c forkret_addr trapret_addr (blank w) = Done (r, t) →
  length (procs t) = NPROC ∧ lock_free (pt_lock t) ∧ ∃ ip, (ip < NPROC)%nat ∧ initproc t = Some ip ∧
    ∀ j, st_of t j = set_at ip RUNNABLE (λ _, UNUSED) j ∧ pa_of t j = None ∧ ch_of t j = None.
Proof.
  unfold userinit, allocproc. intros H. apply bind_Done in H as (o & t2 & Ha & H).
  apply bind_Done in Ha as ([ip|] & t1 & Hs & Ha); [|injection Ha as <- <-; run].
  destruct (allocproc_slot_run _ _ _ _ Hs) as (_ & E1 & _ & Hlt & _ & E3). cbn [blank procs] in Hlt. rewrite length_replicate in Hlt.
  assert (∀ j, key (procs t1 !!! j) = if decide (j = ip) then (EMBRYO, None, None) else (UNUSED, None, None)) as Hk.
  { intros j. rewrite E3, insert_at by (cbn [blank procs]; by rewrite length_replicate).
    pose proof (blank_key w j) as Hj. pose proof (blank_key w ip) as (_ & K1 & K2)%key_eq.
    destruct (decide (j = ip)) as [->|]; [|exact Hj]. apply key_eq. done. }
  assert (length (procs t1) = NPROC) as Hl1 by (rewrite E3, length_insert; cbn [blank procs]; by rewrite length_replicate).
  apply (allocproc_stack_run ip t1 EMBRYO None None) in Ha; [|lia|rewrite Hk; by rewrite decide_True].
  destruct Ha as [[-> Ka]|[-> _]]; [|run]. apply bind_Done in H as (? & t3 & [= <- <-] & H).
  set (t3 := mk_pst _ _ _ _ _) in H.
  assert (ip < length (procs t3))%nat as Hlt3 by (cbn; rewrite (fr_len _ _ _ (proj1 Ka)); lia).
  assert (has_key t3 ip (EMBRYO, None, None) t3) as K by (split; [apply frame_refl|apply Ka]). follow.
  destruct (_ =? 0); follow.
  match goal with H : on_ptable_lock (acquire _) ?u = Done _ |- _ => apply lock_acquire in H as [_ ->] end.
  match goal with H : upd _ _ (with_lock _ _) = Done _ |- _ => apply upd_with_lock in H as (t4 & H & ->) end.
  match goal with H : on_ptable_lock (release _) _ = Done _ |- _ => apply lock_release in H as [_ ->] end.
  follow. match goal with K : has_key t3 ip _ t4 |- _ => rename K into Kf end.
  assert (length (procs t4) = NPROC) as Hl4 by (rewrite (fr_len _ _ _ (proj1 Kf)); cbn; by rewrite (fr_len _ _ _ (proj1 Ka))).
  split; [done|]. split; [done|]. exists ip. split; [lia|]. split; [cbn; by rewrite (fr_init _ _ _ (proj1 Kf))|].
  intros j. destruct (has_key_at _ _ _ _ _ _ j Kf) as (A1 & A2 & A3).
  destruct (has_key_at _ _ _ _ _ _ j Ka) as (B1 & B2 & B3). unfold st_of, pa_of, ch_of, set_at in *. cbn in *.
  specialize (Hk j). destruct (decide (j = ip)); apply key_eq in Hk as (C1 & C2 & C3); rewrite A1, A2, A3, ?B1, ?B2, ?B3; done.
Qed.

(** The states a machine can be in: [main] has run [userinit] on one CPU, every
    CPU has entered [scheduler], and then the CPUs step in any order. *)
Inductive reach : sys W → Prop :=
  | r_boot w c r t :
      userinit c forkret_addr trapret_addr (blank w) = Done (r, t) → reach (mk_sys t (λ _, SchedTop) (λ _, TFork))
  | r_step s c s' : reach s → step c s s' → reach s'.

Lemma pinv_boot w c r t :
  userinit c forkret_addr trapret_addr (blank w) = Done (r, t) → pinv (mk_sys t (λ _, SchedTop) (λ _, TFork)).
Proof.
  intros H. destruct (userinit_run _ _ _ _ H) as (Hl & Hf & ip & Hip & Ei & Hj).
  assert (∀ j, st_of t j = if decide (j = ip) then RUNNABLE else UNUSED) as Hst by (intros j; apply Hj).
  assert (∀ j, pa_of t j = None) as Hpa by (intros j; apply Hj).
  split; cbn [ps cpus tasks]; [done|by left|]. exists ip. split; [done|].
  split; intros *; rewrite ?Hst, ?Hpa; try done; intros; at_cases; try lia.
  - by left.
  - unfold alive. auto.
  - unfold live_or_zombie, alive in *. naive_solver.
Qed.

Lemma reach_pinv s : reach s → pinv s.
Proof. induction 1 as [w c r t H|s c s' _ IH H]; [by eapply pinv_boot|by eapply pinv_step]. Qed.

(** ** Properties *)

(** C4: however the CPUs interleave, a process runs on one CPU at most; the
    entries of state RUNNING are those of the processes that are on a CPU; and
    only a CPU that holds [ptable.lock] is inside [scheduler]'s loop over the
    table, so one at most. *)
Theorem process_on_one_cpu s :
  reach s →
  (∀ c c' p, cpus s c = Running p → cpus s c' = Running p → c = c') ∧
  (∀ p, st_of (ps s) p = RUNNING ↔ ∃ c, cpus s c = Running p) ∧
  (∀ c i, cpus s c = SchedAt i → locked (pt_lock (ps s)) = 1 ∧ lk_cpu (pt_lock (ps s)) = Some c).
Proof.
  intros [_ Hl (ip & _ & Ht)]%reach_pinv. split; [apply Ht|]. split.
  - intros p. split; [apply Ht|]. intros [c Hc]. by eapply Ht.
  - intros c i Hc. destruct Hl as [[_ Hn]|(c' & j & nm & -> & _ & Hu)]; [by destruct (Hn c i)|]. by rewrite (Hu c i Hc).
Qed.

(** C5: [wait] does not miss an [exit].  In every reachable state a ZOMBIE has
    a parent that is a live process and is not asleep in [wait]: it was woken,
    or it has yet to call [wait], whose scan then finds the child.  This covers
    the orphans, which [exit] hands to [initproc]. *)
Theorem zombie_has_waking_parent s z :
  reach s → st_of (ps s) z = ZOMBIE →
  ∃ r, pa_of (ps s) z = Some r ∧ alive (st_of (ps s) r) ∧ ¬ (st_of (ps s) r = SLEEPING ∧ tasks s r = TWait).
Proof.
  intros [_ _ (ip & _ & Ht)]%reach_pinv Hz. destruct (ti_parent _ _ _ _ _ _ Ht z) as (r & Hr & Ha).
  - by right.
  - intros ->. pose proof (ti_init _ _ _ _ _ _ Ht) as Hi. rewrite Hz in Hi. unfold alive in Hi. naive_solver.
  - exists r. split; [done|]. split; [done|]. intros [Hs Hw]. by apply (ti_wait _ _ _ _ _ _ Ht r z Hs Hw Hr).
Qed.

Lemma scan_ext f g l i : (∀ q, q ∈ l → f q = g q) → scan f l i = scan g l i.
Proof.
  revert i. induction l as [|q l IH]; intros i H; [done|]. cbn. rewrite (H q) by constructor.
  destruct (g q); [done|]. apply IH. intros q' Hq'. apply H. by constructor.
Qed.

Lemma scan_insert f l i p x : scan f l i = Some p → f x = true → scan f (<[(p - i)%nat := x]> l) i = Some p.
Proof.
  revert i. induction l as [|q l IH]; intros i H Hx; [done|]. cbn in H. destruct (f q) eqn:Ef.
  - injection H as <-. rewrite Nat.sub_diag. cbn. by rewrite Hx.
  - destruct (scan_Some _ _ _ _ H) as [Hp _]. replace (p - i)%nat with (S (p - S i)) by lia. cbn. rewrite Ef. by apply IH.
Qed.

(** [kill(0)] succeeds when a slot is free: it marks the free slot, whose
    [pid] is 0, as killed.  The next process made in that slot is born killed,
    as [allocproc] does not clear the mark. *)
Theorem kill_zero_marks_next_process c t p :
  lock_free (pt_lock t) → (∀ q, q ∈ procs t → p_pid q = 0 ↔ state q = UNUSED) → scan is_unused (procs t) 0 = Some p →
  ∃ t1 t2, kill c 0 t = Done (0, t1) ∧ allocproc_slot c t1 = Done (Some p, t2) ∧
    st_of t2 p = EMBRYO ∧ killed (procs t2 !!! p) = 1.
Proof.
  destruct t as [lk l ip n w]. cbn [pt_lock procs]. intros ->%lock_free_eq Hpid Hp.
  destruct (scan_Some _ _ _ _ Hp) as [Hlt Hu]. rewrite Nat.sub_0_r in Hu. unfold is_unused in Hu. apply bool_decide_eq_true in Hu.
  assert (scan (λ q, p_pid q =? 0) l 0 = Some p) as Hs.
  { rewrite <-Hp. apply scan_ext. intros q Hq. unfold is_unused. specialize (Hpid q Hq).
    destruct (Z.eqb_spec (p_pid q) 0); case_bool_decide; naive_solver. }
  set (q1 := set_killed 1 (l !!! p)).
  set (t1 := mk_pst (mk_spinlock 0 (lk_name lk) None) (<[p := q1]> l) ip n w).
  assert (kill c 0 (mk_pst (mk_spinlock 0 (lk_name lk) None) l ip n w) = Done (0, t1)) as E1.
  { unfold kill, on_ptable_lock, bind, zoom. cbn. rewrite Hs. cbn. rewrite !insert_at, !decide_True by (done || lia).
    cbn. rewrite Hu. rewrite bool_decide_false by done. cbn. rewrite release_held. cbn.
    by rewrite list_insert_insert_eq. }
  assert (scan is_unused (<[p := q1]> l) 0 = Some p) as Hs1.
  { rewrite <-(Nat.sub_0_r p) at 1. apply scan_insert; [done|]. unfold is_unused. cbn. by rewrite Hu. }
  set (q2 := set_pid n (set_state EMBRYO q1)).
  exists t1, (mk_pst (mk_spinlock 0 (lk_name lk) None) (<[p := q2]> l) ip (s32 (n + 1)) w). split; [done|]. split.
  - unfold allocproc_slot, on_ptable_lock, bind, zoom. cbn. rewrite Hs1. cbn.
    rewrite !insert_at, !decide_True by (rewrite ?length_insert; done || lia). cbn.
    rewrite release_held. cbn. by rewrite !list_insert_insert_eq.
  - unfold st_of. cbn. by rewrite !insert_at, !decide_True by (done || lia).
Qed.
End spec.

(** ** A small run

    An environment with a single page address for everything, and the run in
    which [init] forks a child that exits. *)
Module Demo.
#[local] Instance env0 : ProcEnv unit := {
  pe_kalloc := ret 0x80400000; pe_kfree _ := ret tt; pe_store32 _ _ := ret tt;
  pe_setupkvm := ret 0x80401000; pe_inituvm _ := ret tt; pe_copyuvm _ _ := ret 0x80402000; pe_freevm _ := ret tt;
  pe_allocuvm _ _ n := ret n; pe_deallocuvm _ _ n := ret n; pe_switchuvm _ _ := ret tt; pe_switchkvm := ret tt;
  pe_filedup f := ret f; pe_fileclose _ := ret tt; pe_idup i := ret i; pe_iput _ := ret tt;
  pe_begin_op := ret tt; pe_end_op := ret tt; pe_namei_root := ret (Some 1%nat);
  pe_forkret_first := ret tt; pe_acquire _ := ret tt; pe_release _ := ret tt;
}.

(** Interrupts as [sched] wants them: off, one [pushcli] deep. *)
Definition cc0 : cpu := mk_cpu 0 1 0.
Definition out {A} (r : result (A * pst unit)) : pst unit := match r with Done (_, t) => t | Fail _ => blank tt end.

Definition t0 : pst unit := out (userinit 0 1 2 (blank tt)).
Definition s0 : sys unit := mk_sys t0 (λ _, SchedTop) (λ _, TFork).
(** CPU 0 takes the lock and schedules [init]. *)
Definition t1 : pst unit := out (on_ptable_lock (acquire 0) (ps s0)).
Definition s1 : sys unit := mk_sys t1 (set_at 0%nat (SchedAt 0) (cpus s0)) (tasks s0).
Definition t2' : pst unit := out (scheduler_try 0 (ps s1)).
Definition t2 : pst unit := out (forkret_enter 0 t2').
Definition s2 : sys unit := mk_sys t2 (set_at 0%nat (Running 0) (cpus s1)) (set_at 0%nat TUser (tasks s1)).
(** [init] forks process 1 and yields. *)
Definition t3 : pst unit := out (allocproc_slot 0 (ps s2)).
Definition s3 : sys unit := mk_sys t3 (cpus s2) (set_at 0%nat (TForking 1) (tasks s2)).
Definition t4' : pst unit := out (allocproc_stack 1 2 1 (ps s3)).
Definition t4 : pst unit := out (fork_rest 0 0 1 t4').
Definition s4 : sys unit := mk_sys t4 (cpus s3) (set_at 0%nat TUser (set_at 1%nat TFork (tasks s3))).
Definition t5' : pst unit := out (yield_enter 0 cc0 0 (ps s4)).
Definition t5 : pst unit := out (scheduler_back t5').
Definition s5 : sys unit := mk_sys t5 (set_at 0%nat (SchedAt 1) (cpus s4)) (set_at 0%nat TYield (tasks s4)).
(** Process 1 runs and exits. *)
Definition t6' : pst unit := out (scheduler_try 1 (ps s5)).
Definition t6 : pst unit := out (forkret_enter 0 t6').
Definition s6 : sys unit := mk_sys t6 (set_at 0%nat (Running 1) (cpus s5)) (set_at 1%nat TUser (tasks s5)).
Definition t7' : pst unit := out (exit_table 0 cc0 1 (ps s6)).
Definition t7 : pst unit := out (scheduler_back t7').
Definition s7 : sys unit := mk_sys t7 (set_at 0%nat (SchedAt 2) (cpus s6)) (set_at 1%nat TExit (tasks s6)).

Ltac eval_step := vm_compute; reflexivity.
Lemma lt_NPROC i : (i <? NPROC)%nat = true → (i < NPROC)%nat.
Proof. apply Nat.ltb_lt. Qed.

Lemma reach_s4 : reach 1 2 s4.
Proof.
  apply (r_step 1 2 s3 0); [apply (r_step 1 2 s2 0); [apply (r_step 1 2 s1 0); [apply (r_step 1 2 s0 0)|]|]|].
  - apply (r_boot 1 2 tt 0 tt t0). eval_step.
  - refine (s_top 1 2 0 s0 t1 _ _); eval_step.
  - refine (s_run 1 2 0 s1 0 t2' t2 _ (lt_NPROC _ _) _ (or_introl (conj _ _))); eval_step.
  - refine (s_fork 1 2 0 s2 0 1 t3 _ _ _); eval_step.
  - refine (s_forked 1 2 0 s3 0 1 t4' t4 2 _ _ _ _); eval_step.
Qed.

Lemma reach_s7 : reach 1 2 s7.
Proof.
  apply (r_step 1 2 s6 0); [apply (r_step 1 2 s5 0); [apply (r_step 1 2 s4 0); [apply reach_s4|]|]|].
  - refine (s_yield 1 2 0 s4 0 t5' t5 cc0 _ _ _ _); eval_step.
  - refine (s_run 1 2 0 s5 1 t6' t6 _ (lt_NPROC _ _) _ (or_introl (conj _ _))); eval_step.
  - refine (s_exit 1 2 0 s6 1 t7' t7 cc0 _ _ _ _ _); [eval_step..| |eval_step|eval_step].
    vm_compute. discriminate.
Qed.
End Demo.

(** In the run, [init] is on CPU 0 when it has forked. *)
Lemma process_on_one_cpu_witness : cpus Demo.s4 0%nat = Running 0 ∧ st_of (ps Demo.s4) 0 = RUNNING.
Proof.
  split; [done|]. apply (proj1 (proj2 (process_on_one_cpu 1 2 Demo.s4 Demo.reach_s4)) 0%nat). by exists 0%nat.
Defined.

(** The child has exited; its parent [init] is alive and not asleep in [wait]. *)
Lemma zombie_has_waking_parent_witness :
  st_of (ps Demo.s7) 1 = ZOMBIE ∧ ∃ r, pa_of (ps Demo.s7) 1 = Some r ∧ alive (st_of (ps Demo.s7) r).
Proof.
  split; [by vm_compute|].
  destruct (zombie_has_waking_parent 1 2 Demo.s7 1 Demo.reach_s7) as (r & H1 & H2 & _); [by vm_compute|eauto].
Defined.

Lemma kill_zero_marks_next_process_witness :
  ∃ t1 t2, kill 0 0 (ps Demo.s4) = Done (0, t1) ∧ allocproc_slot 0 t1 = Done (Some 2%nat, t2) ∧
    st_of t2 2 = EMBRYO ∧ killed (procs t2 !!! 2%nat) = 1.
Proof.
  apply (kill_zero_marks_next_process 0 (ps Demo.s4) 2).
  - by vm_compute.
  - apply Forall_forall. apply (bool_decide_unpack _). by vm_compute.
  - by vm_compute.
Defined.
