(* ===== verification/ProcVm.v ===== *)
(** * Processes on the memory of the kernel

    The interface [ProcEnv] of proc.c, implemented by the code of kalloc.c and
    vm.c; what proc.c uses of files and inodes stays an interface.  [growproc]
    keeps the size of a process and its pages in step. *)

From S2P Require Import Prelude CString Spinlock Mmu Kalloc Vm VmSpec VmLife Segment Proc.

(** [tickslock] and [ticks] of trap.c. *)
Record clock := mk_clock { tickslock : spinlock; ticks : Z }.

(** Memory, the CPU, the kernel's page directory, [forkret]'s variable [first],
    the clock, and what belongs to files. *)
Record kworld (F : Type) := mk_kworld { kw_mem : kmem; kw_cpu : cpu_mmu; kpgdir : Z; first : Z; kw_clock : clock; kw_files : F }.
Arguments mk_kworld {F}.
Arguments kw_mem {F}.
Arguments kw_cpu {F}.
Arguments kpgdir {F}.
Arguments first {F}.
Arguments kw_clock {F}.
Arguments kw_files {F}.

(** file.c, fs.c and log.c, and the locks proc.c is given, as it calls them. *)
Class FileEnv (F : Type) := {
  fe_filedup : nat → M F nat;
  fe_fileclose : nat → M F unit;
  fe_idup : nat → M F nat;
  fe_iput : nat → M F unit;
  fe_begin_op : M F unit;
  fe_end_op : M F unit;
  fe_namei_root : M F (option nat);
  fe_iinit : M F unit;
  fe_initlog : M F unit;
  fe_acquire : Z → M F unit;
  fe_release : Z → M F unit;
}.

Section env.
Context {F : Type} `{!FileEnv F}.
(** The CPU; the linker's symbols [end] and [data]; initcode's address and
    size; the address of the CPU's task state. *)
Context (me : nat) (kend data init initsz ts_addr : Z).
(** The address of [tickslock], which [sleep] is given. *)
Context (tickslock_addr : Z).

Definition on_kmem {A} (m : M kmem A) : M (kworld F) A := zoom kw_mem (λ k w, mk_kworld k (kw_cpu w) (kpgdir w) (first w) (kw_clock w) (kw_files w)) m.
Definition on_cpu {A} (m : M cpu_mmu A) : M (kworld F) A := zoom kw_cpu (λ c w, mk_kworld (kw_mem w) c (kpgdir w) (first w) (kw_clock w) (kw_files w)) m.
Definition on_files {A} (m : M F A) : M (kworld F) A := zoom kw_files (λ f w, mk_kworld (kw_mem w) (kw_cpu w) (kpgdir w) (first w) (kw_clock w) f) m.

Definition on_clock {A} (m : M clock A) : M (kworld F) A :=
  zoom kw_clock (λ c w, mk_kworld (kw_mem w) (kw_cpu w) (kpgdir w) (first w) c (kw_files w)) m.
Definition on_tickslock {A} (m : M spinlock A) : M (kworld F) A := on_clock (zoom tickslock (λ l c, mk_clock l (ticks c)) m).

#[export] Instance kernel_env : ProcEnv (kworld F) := {
  pe_kalloc := on_kmem (kalloc me);
  pe_kfree v := on_kmem (kfree me kend v);
  pe_store32 a v := on_kmem (write32 a v);
  pe_setupkvm := on_kmem (setupkvm me kend data);
  pe_inituvm pgdir := on_kmem (inituvm me pgdir init initsz);
  pe_copyuvm pgdir sz := on_kmem (copyuvm me kend data pgdir sz);
  pe_freevm pgdir := on_kmem (freevm me kend pgdir);
  pe_allocuvm pgdir old new := on_kmem (allocuvm me kend pgdir old new);
  pe_deallocuvm pgdir old new := on_kmem (deallocuvm me kend pgdir old new);
  pe_switchuvm kstack pgdir := on_cpu (switchuvm ts_addr kstack pgdir);
  pe_switchkvm := k <- gets kpgdir;; on_cpu (switchkvm k);
  pe_filedup f := on_files (fe_filedup f);
  pe_fileclose f := on_files (fe_fileclose f);
  pe_idup i := on_files (fe_idup i);
  pe_iput i := on_files (fe_iput i);
  pe_begin_op := on_files fe_begin_op;
  pe_end_op := on_files fe_end_op;
  pe_namei_root := on_files fe_namei_root;
  pe_forkret_first :=
    f <- gets first;;
    when (negb (f =? 0)) (
      modify (λ w, mk_kworld (kw_mem w) (kw_cpu w) (kpgdir w) 0 (kw_clock w) (kw_files w));;
      on_files fe_iinit;;
      on_files fe_initlog);
  pe_acquire lk := if lk =? tickslock_addr then on_tickslock (acquire me) else on_files (fe_acquire lk);
  pe_release lk := if lk =? tickslock_addr then on_tickslock (release me) else on_files (fe_release lk);
}.

(** [kvmalloc], which [main] calls. *)
Definition kvmalloc : M (kworld F) unit :=
  k <- on_kmem (setupkvm me kend data);;
  modify (λ w, mk_kworld (kw_mem w) (kw_cpu w) k (first w) (kw_clock w) (kw_files w));;
  on_cpu (switchkvm k).

(** ** Growing *)

Lemma switchuvm_ok kstack pgdir c :
  kstack ≠ 0 → pgdir ≠ 0 → 0 ≤ ncli (intr c) →
  ∃ c', switchuvm ts_addr kstack pgdir c = Done (tt, c') ∧ cr3 c' = V2P pgdir ∧ ts_esp0 c' = u32 (kstack + KSTACKSIZE) ∧
    ncli (intr c') = ncli (intr c).
Proof.
  intros Hk Hp Hn. unfold switchuvm. destruct (Z.eqb_spec kstack 0); [done|]. destruct (Z.eqb_spec pgdir 0); [done|].
  unfold bind, modify. cbn [intr set_intr set_gdt set_ts ltr lcr3]. unfold popcli. rewrite pushcli_if. cbn [ncli].
  rewrite pushcli_ncli. destruct (Z.ltb_spec (ncli (intr c) + 1 - 1) 0); [lia|]. destruct (_ && _); eexists; (split; [done|]); cbn; (split; [done|]); (split; [done|]);
    rewrite ?pushcli_ncli; lia.
Qed.

(** The entries of the kernel's half. *)
Context (kern : Z → option Z).

(** Process [p] has a kernel stack and the address space [us], of its size. *)
Record pmem (t : pst (kworld F)) (p : nat) (l : list Z) (own : gmap Z role) (ts : gmap Z Z) (us : gmap Z (Z * Z)) (sz : Z) : Prop := {
  pm_bound : (p < length (procs t))%nat;
  pm_as : as_inv kend kern (kw_mem (world t)) l own (p_pgdir (procs t !!! p)) ts us;
  pm_sized : sized us sz;
  pm_sz : 0 ≤ p_sz (procs t !!! p) < KERNBASE;
  pm_stack : kstack (procs t !!! p) ≠ 0;
  pm_cli : 0 ≤ ncli (intr (kw_cpu (world t)));
}.

Context (Hkend : KERNBASE < kend).

(** Everything but the size of [p], the memory and the CPU's registers. *)
Definition same_procs (p : nat) (sz : Z) (t t' : pst (kworld F)) : Prop :=
  procs t' = <[p := set_sz sz (procs t !!! p)]> (procs t) ∧ pt_lock t' = pt_lock t ∧ initproc t' = initproc t ∧
  nextpid t' = nextpid t ∧ kw_files (world t') = kw_files (world t) ∧ kw_clock (world t') = kw_clock (world t).

Lemma growproc_set_ok t p l own ts us x sz :
  pmem t p l own ts us x → 0 ≤ sz < KERNBASE →
  ∃ t', growproc_set p sz t = Done (0, t') ∧ pmem t' p l own ts us x ∧ same_procs p sz t t' ∧
    cr3 (kw_cpu (world t')) = V2P (p_pgdir (procs t !!! p)) ∧ kw_mem (world t') = kw_mem (world t).
Proof.
  intros [Hp Ha Hs Hz Hk Hc] Hsz. assert (p_pgdir (procs t !!! p) ≠ 0) as Hd.
  { intros E. pose proof (as_dir _ _ _ _ _ _ _ Ha) as Hdir. destruct (as_pages _ _ _ _ _ _ _ Ha _ _ Hdir) as (_ & _ & H & _).
    rewrite E in H. unfold KERNBASE in *. lia. }
  destruct (switchuvm_ok _ _ (kw_cpu (world t)) Hk Hd Hc) as (c' & E & H1 & _ & H2).
  unfold growproc_set, bind, upd, modify, proc_at, gets, env, zoom. cbn.
  rewrite list_lookup_total_insert_eq by done. cbn. unfold on_cpu, zoom. rewrite E.
  eexists. split; [reflexivity|]. split; [|done].
  split; cbn; rewrite ?length_insert, ?list_lookup_total_insert_eq by done; try done. lia.
Qed.

(** [env] of an operation on the memory. *)
Definition with_kmem (k : kmem) (t : pst (kworld F)) : pst (kworld F) :=
  mk_pst (pt_lock t) (procs t) (initproc t) (nextpid t) (mk_kworld k (kw_cpu (world t)) (kpgdir (world t)) (first (world t)) (kw_clock (world t)) (kw_files (world t))).

Lemma env_kmem {A} (m : M kmem A) t a k' : m (kw_mem (world t)) = Done (a, k') → env (on_kmem m) t = Done (a, with_kmem k' t).
Proof. intros E. unfold env, on_kmem, zoom. by rewrite E. Qed.

Lemma pmem_kmem t p l own ts us x k' l' own' ts' us' x' :
  pmem t p l own ts us x → as_inv kend kern k' l' own' (p_pgdir (procs t !!! p)) ts' us' → sized us' x' →
  pmem (with_kmem k' t) p l' own' ts' us' x'.
Proof. by intros [Hp Ha Hs Hz Hk Hc] Ha' Hs'. Qed.

Lemma same_procs_refl t p k' : (p < length (procs t))%nat → same_procs p (p_sz (procs t !!! p)) t (with_kmem k' t).
Proof.
  intros Hp. split; [|done]. cbn. rewrite list_insert_id; [done|]. rewrite list_lookup_lookup_total_lt by done. f_equal.
  by destruct (procs t !!! p).
Qed.

(** The outcomes of [growproc(n)] for a process of size [sz] with the pages
    [us]: the result, the size of the process, the size its pages have, and
    its pages.  The last two sizes differ in one case only, a call that takes
    the size to 0. *)
Inductive grow_case (sz n : Z) (own : gmap Z role) (us : gmap Z (Z * Z)) (m m' : mem) : Z → Z → Z → gmap Z (Z * Z) → Prop :=
  | grow_more us' : 0 < n → sz + n < KERNBASE → added own us us' m' (PGROUNDUP sz) (sz + n) → keeps_us kend own us m m' →
      grow_case sz n own us m m' 0 (sz + n) (sz + n) us'
  | grow_fails : 0 < n → KERNBASE ≤ sz + n ∨ exhausted own us (PGROUNDUP sz) (sz + n) → keeps_us kend own us m m' →
      grow_case sz n own us m m' (-1) sz sz us
  | grow_nothing : n = 0 ∨ (sz + n < 0 ∧ 0 < sz) → m' = m → grow_case sz n own us m m' 0 sz sz us
  | grow_less : n < 0 → 0 < sz + n → keeps_us kend own (without (PGROUNDUP (sz + n)) sz us) m m' →
      grow_case sz n own us m m' 0 (sz + n) (sz + n) (without (PGROUNDUP (sz + n)) sz us)
  | grow_to_zero : n < 0 → sz + n = 0 → keeps_us kend own (without 0 sz us) m m' →
      grow_case sz n own us m m' (-1) sz 0 (without 0 sz us)
  | grow_below_zero : n < 0 → sz = 0 → m' = m → grow_case sz n own us m m' (-1) sz sz us.

(** The outcome, the process well formed with the pages it has, the CPU
    switched to it after a success, and the rest of the kernel as before. *)
Definition grown (t : pst (kworld F)) (p : nat) (n : Z) (own : gmap Z role) (us : gmap Z (Z * Z)) (r : Z) (t' : pst (kworld F)) : Prop :=
  ∃ l' own' ts' us' sz' x, grow_case (p_sz (procs t !!! p)) n own us (kmem_mem (kw_mem (world t))) (kmem_mem (kw_mem (world t'))) r sz' x us' ∧
    same_procs p sz' t t' ∧ dom own' = dom own ∧ pmem t' p l' own' ts' us' x ∧
    (r = 0 → cr3 (kw_cpu (world t')) = V2P (p_pgdir (procs t !!! p))).

(** The size is set when the memory has it. *)
Lemma grown_set t p n k' l' own own' ts' us us' sz' :
  pmem (with_kmem k' t) p l' own' ts' us' sz' → 0 ≤ sz' < KERNBASE → dom own' = dom own →
  grow_case (p_sz (procs t !!! p)) n own us (kmem_mem (kw_mem (world t))) (kmem_mem k') 0 sz' sz' us' →
  ∃ r t', growproc_set p sz' (with_kmem k' t) = Done (r, t') ∧ grown t p n own us r t'.
Proof.
  intros Hpm Hsz Hd Hx. destruct (growproc_set_ok _ p _ _ _ _ _ sz' Hpm Hsz) as (t' & E & Hpm' & Hsame & Hcr & Hm).
  exists 0, t'. split; [done|]. exists l', own', ts', us', sz', sz'. rewrite Hm. by split_and!.
Qed.

Lemma grown_not t p n k' l' own own' ts' us us' x :
  pmem (with_kmem k' t) p l' own' ts' us' x → dom own' = dom own →
  grow_case (p_sz (procs t !!! p)) n own us (kmem_mem (kw_mem (world t))) (kmem_mem k') (-1) (p_sz (procs t !!! p)) x us' →
  grown t p n own us (-1) (with_kmem k' t).
Proof.
  intros Hpm Hd Hc. exists l', own', ts', us', (p_sz (procs t !!! p)), x. split_and!; try done. apply same_procs_refl. apply Hpm.
Qed.

Lemma with_kmem_id t : with_kmem (kw_mem (world t)) t = t.
Proof. by destruct t as [? ? ? ? []]. Qed.

Lemma growproc_up t p n l own ts us :
  pmem t p l own ts us (p_sz (procs t !!! p)) → 0 < n < 2 ^ 31 →
  ∃ r t', growproc p n t = Done (r, t') ∧ grown t p n own us r t'.
Proof.
  intros Hpm Hn. pose proof Hpm as [Hp Ha Hs Hz Hk Hc]. unfold growproc, bind, proc_at, gets.
  set (sz := p_sz (procs t !!! p)) in *. set (d := p_pgdir (procs t !!! p)) in *.
  destruct (Z.ltb_spec 0 n); [|lia]. rewrite u32_small by (unfold KERNBASE in *; lia). cbn [pe_allocuvm kernel_env].
  destruct (decide (sz + n < KERNBASE)) as [Hk1|Hk1].
  - destruct (allocuvm_ok me kend Hkend _ l own d ts us sz (sz + n) Ha) as (r & k' & l' & own' & ts' & us' & E & Ha' & Hd & Hkeep & Hr);
      [lia|done| |].
    { intros va Hva. destruct (us !! va) as [[f fl]|] eqn:Ev; [|done]. destruct (as_frames _ _ _ _ _ _ _ Ha _ _ _ Ev) as (_ & Hu & _).
      assert (va < sz) as Hlt by (apply (Hs va Hu); by rewrite Ev). apply (PGROUNDUP_lt va sz) in Hlt; [lia|lia|apply Hu]. }
    rewrite (env_kmem _ _ _ _ E). destruct Hr as [[-> Hadd]|(-> & -> & Hex)].
    + destruct (Z.eqb_spec (sz + n) 0); [lia|].
      eapply (grown_set t p n k' l' own own' ts' us us' (sz + n)); try done; [|lia|by apply grow_more].
      eapply pmem_kmem; [done|done|]. eapply (sized_added own us us' _ sz (sz + n)); [lia|lia|done|done].
    + exists (-1), (with_kmem k' t). split; [done|]. eapply grown_not; [by eapply pmem_kmem|done|]. apply grow_fails; [done|by right|done].
  - rewrite (env_kmem _ t 0 (kw_mem (world t))).
    2: { unfold allocuvm. destruct (Z.leb_spec KERNBASE (sz + n)); [done|lia]. }
    exists (-1), (with_kmem (kw_mem (world t)) t). split; [done|].
    eapply grown_not; [rewrite with_kmem_id; exact Hpm|done|]. apply grow_fails; [done|left; lia|done].
Qed.

Lemma growproc_down t p n l own ts us :
  pmem t p l own ts us (p_sz (procs t !!! p)) → -2 ^ 31 ≤ n < 0 →
  ∃ r t', growproc p n t = Done (r, t') ∧ grown t p n own us r t'.
Proof.
  intros Hpm Hn. pose proof Hpm as [Hp Ha Hs Hz Hk Hc]. unfold growproc, bind, proc_at, gets.
  set (sz := p_sz (procs t !!! p)) in *. set (d := p_pgdir (procs t !!! p)) in *.
  destruct (Z.ltb_spec 0 n); [lia|]. destruct (Z.ltb_spec n 0); [|lia]. cbn [pe_deallocuvm kernel_env].
  destruct (decide (sz + n < 0)) as [Hlt|Hge].
  - rewrite (env_kmem _ t sz (kw_mem (world t))).
    2: { unfold deallocuvm, u32. rewrite <-(Z.mod_add (sz + n) 1), Z.mod_small by (unfold KERNBASE in *; lia).
         destruct (Z.leb_spec sz (sz + n + 1 * 2 ^ 32)); [done|unfold KERNBASE in *; lia]. }
    destruct (Z.eqb_spec sz 0) as [Hz0|Hz0].
    + exists (-1), (with_kmem (kw_mem (world t)) t). split; [done|].
      eapply grown_not; [rewrite with_kmem_id; exact Hpm|done|by apply grow_below_zero].
    + eapply (grown_set t p n _ l own own ts us us sz); [by rewrite with_kmem_id|lia|done|]. apply grow_nothing; [right; lia|done].
  - rewrite u32_small by (unfold KERNBASE in *; lia).
    destruct (deallocuvm_ok me kend Hkend d ts sz (sz + n) _ l own us Ha) as (k' & l' & own' & E & Ha' & Hd & Hkeep); [lia|lia|].
    assert (sized (without (PGROUNDUP (sz + n)) sz us) (sz + n)) as Hs' by (apply sized_without; [lia|lia|done]).
    rewrite (env_kmem _ _ _ _ E). destruct (Z.eqb_spec (sz + n) 0) as [E0|E0].
    + exists (-1), (with_kmem k' t). split; [done|]. rewrite E0 in *. change (PGROUNDUP 0) with 0 in *.
      eapply grown_not; [by eapply pmem_kmem|done|by apply grow_to_zero].
    + eapply (grown_set t p n k' l' own own' ts us _ (sz + n)); [by eapply pmem_kmem|lia|done|]. apply grow_less; [done|lia|done].
Qed.

(** C15: [growproc] on the kernel's memory, for every [int] argument.  It grows
    the process by [n] bytes with pages of zeros, or fails because the size
    would reach the kernel or the memory is exhausted; it shrinks the process
    and frees the pages; a call that would take the size below 0 changes
    nothing.  The page directory stays an address space whose pages are
    exactly those below the process's size, pages that stay keep their
    contents, no page is lost or used twice, and no other entry of the process
    table changes.  The one exception is a call that takes the size to 0: all
    pages are freed, but the call returns -1 and the process keeps its old
    size. *)
Theorem growproc_keeps_size t p n l own ts us :
  pmem t p l own ts us (p_sz (procs t !!! p)) → -2 ^ 31 ≤ n < 2 ^ 31 →
  ∃ r t', growproc p n t = Done (r, t') ∧ grown t p n own us r t'.
Proof.
  intros Hpm Hn. destruct (decide (0 < n)); [eapply growproc_up; [done|lia]|].
  destruct (decide (n < 0)); [eapply growproc_down; [done|lia]|]. assert (n = 0) as -> by lia.
  change (growproc p 0 t) with (growproc_set p (p_sz (procs t !!! p)) t).
  pose proof (grown_set t p 0 (kw_mem (world t)) l own own ts us us (p_sz (procs t !!! p))) as H. rewrite with_kmem_id in H.
  apply H; [done|apply Hpm|done|]. apply grow_nothing; [by left|done].
Qed.
End env.

(** ** A process with one page, which it gives up *)

Module PmDemo.
#[local] Instance no_files : FileEnv unit := {
  fe_filedup f := ret f; fe_fileclose _ := ret tt; fe_idup i := ret i; fe_iput _ := ret tt;
  fe_begin_op := ret tt; fe_end_op := ret tt; fe_namei_root := ret None;
  fe_iinit := ret tt; fe_initlog := ret tt; fe_acquire _ := ret tt; fe_release _ := ret tt;
}.
Definition q0 : proc := set_sz 4096 (set_pgdir demo_dir (set_kstack 0x80500000 zero_proc)).
Definition c0 : cpu_mmu := mk_cpu_mmu (replicate NSEGS inhabitant) 0 0 0 (0, 0) 0 0 (mk_cpu 0 1 0).
Definition t0 : pst (kworld unit) := mk_pst (initlock "ptable") [q0] (Some 0%nat) 2 (mk_kworld demo_kmem2 c0 demo_dir 1 (mk_clock (initlock "time") 0) tt).

Lemma t0_pmem : pmem demo_end demo_kern t0 0 [] demo_own {[0 := demo_table]} {[0 := (demo_frame, 7)]} 4096.
Proof.
  split; cbn; try done; [lia|apply demo_as|].
  intros va [Ha Hv]. unfold is_Some. setoid_rewrite lookup_singleton_Some. unfold aligned, PGSIZE in Ha. split.
  - intros (e & <- & _). lia.
  - intros Hlt. exists (demo_frame, 7). split; [|done]. rewrite Z.mod_small in Ha by lia. done.
Qed.
End PmDemo.

Lemma growproc_keeps_size_witness :
  ∃ r t', growproc (ProcEnv0 := kernel_env (FileEnv0 := PmDemo.no_files) 0 demo_end 0x80108000 0x8010A460 44 0x80112000 0x80113000)
      0 (-4096) PmDemo.t0 = Done (r, t') ∧ grown demo_end demo_kern PmDemo.t0 0 (-4096) demo_own {[0 := (demo_frame, 7)]} r t'.
Proof.
  apply (growproc_keeps_size (FileEnv0 := PmDemo.no_files) 0 demo_end 0x80108000 0x8010A460 44 0x80112000 0x80113000
    demo_kern ltac:(done) PmDemo.t0 0 (-4096) _ _ _ _ PmDemo.t0_pmem).
  lia.
Defined.
