(* ===== verification/Syscall.v ===== *)
(** * syscall.c, sysproc.c and trap.c

    How a process enters the kernel: the arguments of a system call, the calls
    on processes, the dispatch of system calls and of traps.  The state is the
    process table over the kernel's memory ([ProcVm]).  A function in which a
    process gives up the CPU is split there, as in [Proc].  What is printed is
    left out. *)

From S2P Require Import Prelude CString Irq Spinlock Mmu Kalloc Vm VmSpec Segment Proc ProcVm.

(** ** The MMU *)

(** The kernel address of user address [va], if it is mapped. *)
Definition translate (m : mem) (pgdir va : Z) : option Z :=
  let pde := load32 m (pgdir + 4 * PDX va) in
  if Z.land pde PTE_P =? 0 then None
  else
    let pte := load32 m (P2V (PTE_ADDR pde) + 4 * PTX va) in
    if Z.land pte PTE_P =? 0 then None else Some (P2V (PTE_ADDR pte) + va mod PGSIZE).

Section syscall.
Context {F : Type} `{!FileEnv F}.
Context (me : nat) (kend data init initsz ts_addr tickslock_addr ticks_addr forkret_addr trapret_addr : Z).
#[local] Instance kernel : ProcEnv (kworld F) := kernel_env me kend data init initsz ts_addr tickslock_addr.
Abbreviation P := (M (pst (kworld F))).

(** A load by the kernel at a user address of process [p].  A page fault in
    the kernel ends in [panic("trap")]. *)
Definition user_load (p : nat) (va : Z) : P Z :=
  s <- get;;
  let m := kmem_mem (kw_mem (world s)) in
  match translate m (p_pgdir (procs s !!! p)) va with
  | Some a => ret (m a)
  | None => panic "trap"
  end.

(** ** Arguments

    [None] is the result -1; the values stored through the pointer arguments
    are the results otherwise. *)

Definition fetchint (p : nat) (addr : Z) : P (option Z) :=
  q <- proc_at p;;
  if (p_sz q <=? addr) || (p_sz q <? u32 (addr + 4)) then ret None
  else
    b0 <- user_load p addr;;
    b1 <- user_load p (addr + 1);;
    b2 <- user_load p (addr + 2);;
    b3 <- user_load p (addr + 3);;
    ret (Some (s32 (le_val [b0; b1; b2; b3]))).

(** [for(s = *pp; s < ep; s++)], with [n] bytes left. *)
Fixpoint fetchstr_loop (n : nat) (p : nat) (s pp : Z) : P (option Z) :=
  match n with
  | O => ret None
  | S n' =>
      b <- user_load p s;;
      if b =? 0 then ret (Some (s - pp)) else fetchstr_loop n' p (s + 1) pp
  end.

(** The length and the pointer. *)
Definition fetchstr (p : nat) (addr : Z) : P (option (Z * Z)) :=
  q <- proc_at p;;
  if p_sz q <=? addr then ret None
  else
    r <- fetchstr_loop (Z.to_nat (p_sz q - addr)) p addr addr;;
    ret (match r with Some n => Some (n, addr) | None => None end).

Definition argint (p : nat) (n : Z) : P (option Z) :=
  q <- proc_at p;;
  fetchint p (u32 (esp (tf q) + 4 + 4 * n)).

Definition argptr (p : nat) (n size : Z) : P (option Z) :=
  q <- proc_at p;;
  r <- argint p n;;
  match r with
  | None => ret None
  | Some i =>
      if (size <? 0) || (p_sz q <=? u32 i) || (p_sz q <? u32 (u32 i + size)) then ret None
      else ret (Some (u32 i))
  end.

Definition argstr (p : nat) (n : Z) : P (option (Z * Z)) :=
  r <- argint p n;;
  match r with
  | None => ret None
  | Some addr => fetchstr p (u32 addr)
  end.

(** ** sysproc.c *)

Definition sys_fork (p : nat) : P Z := fork me forkret_addr trapret_addr p.
Definition sys_exit (c : cpu) (p : nat) : P unit := exit me c p.
(** [None]: the process is asleep; [wait_leave] continues. *)
Definition sys_wait (c : cpu) (p : nat) : P (option Z) := wait_enter me c p.

Definition sys_kill (p : nat) : P Z :=
  r <- argint p 0;;
  match r with None => ret (-1) | Some pid => kill me pid end.

Definition sys_getpid (p : nat) : P Z := q <- proc_at p;; ret (p_pid q).

Definition sys_sbrk (p : nat) : P Z :=
  r <- argint p 0;;
  match r with
  | None => ret (-1)
  | Some n =>
      q <- proc_at p;;
      let addr := s32 (p_sz q) in
      g <- growproc p n;;
      if g <? 0 then ret (-1) else ret addr
  end.

(** The test of [sys_sleep]'s loop and its body up to [sched]; the comparison
    is one of unsigned values. *)
Definition sleep_round (c : cpu) (p : nat) (ticks0 n : Z) : P (option Z) :=
  t <- env (gets (λ w, ticks (kw_clock w)));;
  if u32 (t - ticks0) <? u32 n then
    q <- proc_at p;;
    if negb (killed q =? 0) then env (on_tickslock (release me));; ret (Some (-1))
    else sleep_enter me c p (CAddr ticks_addr) tickslock_addr;; ret None
  else env (on_tickslock (release me));; ret (Some 0).

(** The result, or the locals [ticks0] and [n] of the sleeping call. *)
Definition sys_sleep (c : cpu) (p : nat) : P (Z + Z * Z) :=
  r <- argint p 0;;
  match r with
  | None => ret (inl (-1))
  | Some n =>
      env (on_tickslock (acquire me));;
      ticks0 <- env (gets (λ w, ticks (kw_clock w)));;
      r <- sleep_round c p ticks0 n;;
      ret (match r with Some v => inl v | None => inr (ticks0, n) end)
  end.
Definition sys_sleep_resume (c : cpu) (p : nat) (ticks0 n : Z) : P (option Z) :=
  sleep_leave me p;;
  sleep_relock tickslock_addr;;
  sleep_round c p ticks0 n.

Definition sys_uptime : P Z :=
  env (on_tickslock (acquire me));;
  xticks <- env (gets (λ w, ticks (kw_clock w)));;
  env (on_tickslock (release me));;
  ret (s32 xticks).

(** ** sysarp.c *)

Definition sys_arp (send_arpRequest : Z → Z → Z → P Z) (p : nat) : P Z :=
  interface <- argstr p 0;;
  match interface with
  | None => ret (-1)
  | Some (_, interface) =>
      ipAddr <- argstr p 1;;
      match ipAddr with
      | None => ret (-1)
      | Some (_, ipAddr) =>
          size <- argint p 3;;
          match size with
          | None => ret (-1)
          | Some size =>
              arpResp <- argptr p 2 size;;
              match arpResp with
              | None => ret (-1)
              | Some arpResp =>
                  r <- send_arpRequest interface ipAddr arpResp;;
                  if r <? 0 then ret (-1) else ret 0
              end
          end
      end
  end.

(** ** Dispatch *)

Inductive sysno :=
  | SYS_fork | SYS_exit | SYS_wait | SYS_pipe | SYS_read | SYS_kill | SYS_exec | SYS_fstat | SYS_chdir | SYS_dup
  | SYS_getpid | SYS_sbrk | SYS_sleep | SYS_uptime | SYS_open | SYS_write | SYS_mknod | SYS_unlink | SYS_link
  | SYS_mkdir | SYS_close | SYS_arp.

(** The table [syscalls]: [None] is its null entry 0. *)
Definition syscalls : list (option sysno) :=
  None :: (Some <$>
    [SYS_fork; SYS_exit; SYS_wait; SYS_pipe; SYS_read; SYS_kill; SYS_exec; SYS_fstat; SYS_chdir; SYS_dup;
     SYS_getpid; SYS_sbrk; SYS_sleep; SYS_uptime; SYS_open; SYS_write; SYS_mknod; SYS_unlink; SYS_link;
     SYS_mkdir; SYS_close; SYS_arp]).

(** The calls themselves, as the table's functions. *)
Context (call : sysno → nat → P Z).

Definition set_result (p : nat) (v : Z) : P unit := upd p (λ q, set_tf (tf_ptr q) (set_eax (u32 v) (tf q)) q).

Definition syscall (p : nat) : P unit :=
  q <- proc_at p;;
  let num := s32 (eax (tf q)) in
  match (if (0 <? num) && (num <? Z.of_nat (length syscalls)) then syscalls !!! Z.to_nat num else None) with
  | Some f => r <- call f p;; set_result p r
  | None => set_result p (-1)
  end.

(** ** Traps *)


(** The device handlers and [lapiceoi]. *)
Context (ideintr kbdintr uartintr lapiceoi : P unit).

(** [trap] returns; or the process has exited; or it has yielded, and
    [trap_resume] continues. *)
Inductive trap_end := Returned | Exited | Yielded.

Definition from_user (f : trapframe) : bool := Z.land (cs f) 3 =? DPL_USER.

(** [if(myproc() && myproc()->killed && (tf->cs&3) == DPL_USER) exit();] *)
Definition exit_if_killed (c : cpu) (cur : option nat) (f : trapframe) (k : P trap_end) : P trap_end :=
  match cur with
  | None => k
  | Some p =>
      q <- proc_at p;;
      if negb (killed q =? 0) && from_user f then exit me c p;; ret Exited else k
  end.

Definition timer_tick : P unit :=
  when (me =? 0)%nat (
    env (on_tickslock (acquire me));;
    env (on_clock (modify (λ c, mk_clock (tickslock c) (u32 (ticks c + 1)))));;
    wakeup me (Some (CAddr ticks_addr));;
    env (on_tickslock (release me))).

(** The [switch] on the trap number. *)
Definition trap_switch (cur : option nat) (f : trapframe) : P unit :=
  let n := trapno f in
  if n =? T_IRQ0 + IRQ_TIMER then timer_tick;; lapiceoi
  else if n =? T_IRQ0 + IRQ_IDE then ideintr;; lapiceoi
  else if n =? T_IRQ0 + IRQ_IDE + 1 then ret tt
  else if n =? T_IRQ0 + IRQ_KBD then kbdintr;; lapiceoi
  else if n =? T_IRQ0 + IRQ_COM1 then uartintr;; lapiceoi
  else if (n =? T_IRQ0 + 7) || (n =? T_IRQ0 + IRQ_SPURIOUS) then lapiceoi
  else match cur with
    | None => panic "trap"
    | Some p => if Z.land (cs f) 3 =? 0 then panic "trap" else upd p (set_killed 1)
    end.

Definition trap_syscall (c : cpu) (cur : option nat) (tfp : Z) (f : trapframe) : P trap_end :=
  match cur with
  | None => fail (EOob "null")
  | Some p =>
      q <- proc_at p;;
      if negb (killed q =? 0) then exit me c p;; ret Exited
      else
        upd p (set_tf tfp f);;
        syscall p;;
        q <- proc_at p;;
        if negb (killed q =? 0) then exit me c p;; ret Exited else ret Returned
  end.

(** [cur] is [myproc()]; [tfp] is the address of the trap frame [f]. *)
Definition trap (c : cpu) (cur : option nat) (tfp : Z) (f : trapframe) : P trap_end :=
  if trapno f =? Z.of_nat T_SYSCALL then trap_syscall c cur tfp f
  else
    trap_switch cur f;;
    exit_if_killed c cur f (
      match cur with
      | None => ret Returned
      | Some p =>
          q <- proc_at p;;
          if bool_decide (state q = RUNNING) && (trapno f =? T_IRQ0 + IRQ_TIMER) then yield_enter me c p;; ret Yielded
          else exit_if_killed c cur f (ret Returned)
      end).

Definition trap_resume (c : cpu) (p : nat) (f : trapframe) : P trap_end :=
  yield_leave me;;
  exit_if_killed c (Some p) f (ret Returned).
End syscall.
