(* ===== verification/SyscallSpec.v ===== *)
(** * What entering the kernel guarantees

    The arguments of system calls are fetched without a fault for whatever a
    process passes, and what the kernel does with a trap nobody handles. *)

From S2P Require Import Prelude Irq CString Spinlock Mmu Kalloc Vm VmSpec Segment Proc ProcVm Syscall.

Lemma page_indices va : 0 ≤ va < KERNBASE → PDX (PGROUNDDOWN va) = PDX va ∧ PTX (PGROUNDDOWN va) = PTX va.
Proof.
  intros Hva. destruct (PGROUNDDOWN_user va Hva) as ((Ha & Hr) & E & Hm).
  assert (PGROUNDDOWN va / 4096 = va / 4096) as Hq.
  { unfold aligned, PGSIZE in *. pose proof (Z.div_mod (PGROUNDDOWN va) 4096 ltac:(lia)).
    apply (Z.div_unique va 4096 _ (va mod 4096)); lia. }
  rewrite !PDX_eq, !PTX_eq by (unfold KERNBASE in *; lia). change (2 ^ 22) with (4096 * 1024). change (2 ^ 12) with 4096.
  rewrite <-!Z.div_div by lia. by rewrite Hq.
Qed.

Section spec.
Context {F : Type} `{!FileEnv F}.
Context (me : nat) (kend data init initsz ts_addr tickslock_addr : Z) (Hkend : KERNBASE < kend).
Context (kern : Z → option Z).
Implicit Types t : pst (kworld F).

Lemma translate_user k l own pgdir ts us va f fl :
  as_inv kend kern k l own pgdir ts us → 0 ≤ va < KERNBASE → us !! PGROUNDDOWN va = Some (f, fl) →
  translate (kmem_mem k) pgdir va = Some (f + va mod PGSIZE).
Proof.
  intros Hi Hva Hu. destruct (as_frames _ _ _ _ _ _ _ Hi _ _ _ Hu) as (Ho & Hup & Hfl).
  pose proof (as_pages _ _ _ _ _ _ _ Hi _ _ Ho) as Hpf. destruct (page_indices va Hva) as [E1 E2].
  destruct (user_table _ Hkend _ _ _ _ _ _ _ _ Hi Hu) as [tb Et]. destruct (as_tables _ _ _ _ _ _ _ Hi _ _ Et) as [_ Hot].
  pose proof (as_pte _ _ _ _ _ _ _ Hi _ Hup) as He. unfold entry in He. rewrite Hu, Et, E2 in He. rewrite E1 in Et.
  pose proof (as_pde _ _ _ _ _ _ _ Hi (PDX va) (PDX_range va)) as Hd. rewrite Et in Hd.
  destruct (page_ok_v2p _ Hkend tb) as (V1 & V2 & V3); [by eapply as_pages|].
  destruct (pte_addr_flags (V2P tb) 7) as (A1 & _ & A2); [done|done|lia|unfold PHYSTOP in *; lia|].
  destruct (entry_present _ Hkend _ _ _ He Hpf Hfl) as (P1 & P2 & _).
  unfold translate. rewrite Hd, A1, A2, V3. change (Z.land 7 PTE_P =? 0) with false. cbn [negb].
  by rewrite (proj2 (Z.eqb_neq _ _) P1), P2.
Qed.

(** A process with its memory as large as it says. *)
Abbreviation well_formed t p l own ts us := (pmem kend kern t p l own ts us (p_sz (procs t !!! p))).

(** The byte process [p] has at [va]. *)
Definition byte_at t us (va b : Z) : Prop := ubyte (kmem_mem (kw_mem (world t))) us va = Some b.

Lemma user_load_ok t p l own ts us va :
  well_formed t p l own ts us → 0 ≤ va < p_sz (procs t !!! p) →
  ∃ b, user_load p va t = Done (b, t) ∧ byte_at t us va b.
Proof.
  intros [Hp Ha Hs Hz Hk Hc] Hva. destruct (PGROUNDDOWN_user va ltac:(lia)) as (Hu & E & Hm).
  destruct (proj2 (Hs _ Hu)) as [[f fl] Hf]; [lia|].
  exists (kmem_mem (kw_mem (world t)) (f + va mod PGSIZE)). unfold user_load, bind, get, byte_at, ubyte.
  rewrite (translate_user _ _ _ _ _ _ va f fl Ha ltac:(lia) Hf). by rewrite Hf.
Qed.

Lemma fetchint_ok t p l own ts us addr :
  well_formed t p l own ts us → 0 ≤ addr < 2 ^ 32 → ∃ r, fetchint p addr t = Done (r, t).
Proof.
  intros Hw Ha. pose proof (pm_sz _ _ _ _ _ _ _ _ _ Hw) as Hz. unfold fetchint, bind, proc_at, gets.
  destruct (Z.leb_spec (p_sz (procs t !!! p)) addr); [by eexists|].
  rewrite u32_small by (unfold KERNBASE in *; lia). destruct (Z.ltb_spec (p_sz (procs t !!! p)) (addr + 4)); [by eexists|]. cbn [orb].
  do 4 (match goal with |- context [user_load p ?a t] =>
    destruct (user_load_ok t p l own ts us a Hw ltac:(lia)) as (? & -> & _) end). by eexists.
Qed.

Lemma argint_ok t p l own ts us n : well_formed t p l own ts us → ∃ r, argint p n t = Done (r, t).
Proof. intros Hw. unfold argint, bind, proc_at, gets. eapply fetchint_ok; [done|]. apply u32_range. Qed.

Lemma argptr_ok t p l own ts us n size :
  well_formed t p l own ts us → -2 ^ 31 ≤ size < 2 ^ 31 →
  ∃ r, argptr p n size t = Done (r, t) ∧
    ∀ a, r = Some a → 0 ≤ size ∧ 0 ≤ a ∧ a + size ≤ p_sz (procs t !!! p).
Proof.
  intros Hw Hsz. pose proof (pm_sz _ _ _ _ _ _ _ _ _ Hw) as Hz. unfold argptr, bind at 1, proc_at, gets, bind.
  destruct (argint_ok t p l own ts us n Hw) as [[i|] ->]; [|by eexists]. pose proof (u32_range i) as Hi.
  destruct (Z.ltb_spec size 0); [by eexists|]. destruct (Z.leb_spec (p_sz (procs t !!! p)) (u32 i)); [by eexists|].
  rewrite (u32_small (u32 i + size)) by (unfold KERNBASE in *; lia).
  destruct (Z.ltb_spec (p_sz (procs t !!! p)) (u32 i + size)); [by eexists|]. cbn [orb].
  eexists. split; [done|]. intros a [= <-]. lia.
Qed.

Lemma fetchstr_loop_ok t p l own ts us pp n s :
  well_formed t p l own ts us → 0 ≤ pp ≤ s → s + Z.of_nat n = p_sz (procs t !!! p) →
  ∃ r, fetchstr_loop n p s pp t = Done (r, t) ∧
    ∀ k, r = Some k → s ≤ pp + k < p_sz (procs t !!! p) ∧ byte_at t us (pp + k) 0 ∧
      ∀ x, s ≤ x < pp + k → ∃ b, byte_at t us x b ∧ b ≠ 0.
Proof.
  intros Hw. revert s. induction n as [|n IH]; intros s Hs Hn; cbn [fetchstr_loop]; [by eexists|].
  unfold bind. destruct (user_load_ok t p l own ts us s Hw ltac:(lia)) as (b & -> & Hb).
  destruct (Z.eqb_spec b 0) as [->|Hb0].
  - eexists. split; [done|]. intros k [= <-]. replace (pp + (s - pp)) with s by lia. split; [lia|]. split; [done|lia].
  - destruct (IH (s + 1)) as (r & Hr & H); [lia|lia|]. exists r. split; [done|]. intros k Hk. destruct (H k Hk) as (H1 & H2 & H3).
    split; [lia|]. split; [done|]. intros x Hx. destruct (decide (x = s)) as [->|]; [by exists b|]. apply H3. lia.
Qed.

Lemma argstr_ok t p l own ts us n :
  well_formed t p l own ts us →
  ∃ r, argstr p n t = Done (r, t) ∧
    ∀ k a, r = Some (k, a) → 0 ≤ k ∧ 0 ≤ a ∧ a + k < p_sz (procs t !!! p) ∧ byte_at t us (a + k) 0 ∧
      ∀ x, a ≤ x < a + k → ∃ b, byte_at t us x b ∧ b ≠ 0.
Proof.
  intros Hw. unfold argstr, bind. destruct (argint_ok t p l own ts us n Hw) as [[i|] ->]; [|by eexists].
  pose proof (u32_range i) as Hi. unfold fetchstr, bind, proc_at, gets.
  destruct (Z.leb_spec (p_sz (procs t !!! p)) (u32 i)); [by eexists|].
  destruct (fetchstr_loop_ok t p l own ts us (u32 i) (Z.to_nat (p_sz (procs t !!! p) - u32 i)) (u32 i) Hw) as (r & -> & Hr); [lia|lia|].
  eexists. split; [done|]. destruct r as [k|]; [|done]. intros k' a [= <- <-]. destruct (Hr k eq_refl) as (H1 & H2 & H3). split_and!; try done; lia.
Qed.

(** C11: system call arguments are fetched safely, whatever the process put in
    its stack pointer and on its stack.  [argint], [argptr] and [argstr] never
    fault and change nothing; a pointer that [argptr] accepts for [size] bytes
    points to [size] bytes of the process's own memory, and a string that
    [argstr] accepts ends with its first NUL inside the process's memory. *)
Theorem syscall_arguments_safe t p l own ts us n size :
  pmem kend kern t p l own ts us (p_sz (procs t !!! p)) → -2 ^ 31 ≤ size < 2 ^ 31 →
  (∃ r, argint p n t = Done (r, t)) ∧
  (∃ r, argptr p n size t = Done (r, t) ∧
     ∀ a, r = Some a → 0 ≤ size ∧ ∀ x, a ≤ x < a + size → is_Some (ubyte (kmem_mem (kw_mem (world t))) us x)) ∧
  (∃ r, argstr p n t = Done (r, t) ∧
     ∀ k a, r = Some (k, a) → 0 ≤ k ∧ byte_at t us (a + k) 0 ∧ ∀ x, a ≤ x < a + k → ∃ b, byte_at t us x b ∧ b ≠ 0).
Proof.
  intros Hw Hsz. split; [by eapply argint_ok|]. split.
  - destruct (argptr_ok t p l own ts us n size Hw Hsz) as (r & E & H). exists r. split; [done|]. intros a Ha.
    destruct (H a Ha) as (H1 & H2 & H3). split; [done|]. intros x Hx.
    destruct (user_load_ok t p l own ts us x Hw ltac:(lia)) as (b & _ & Hb). by exists b.
  - destruct (argstr_ok t p l own ts us n Hw) as (r & E & H). exists r. split; [done|]. intros k a Hr.
    destruct (H k a Hr) as (H1 & _ & _ & H2 & H3). done.
Qed.

(** ** Traps nobody handles *)

Section traps.
Context (ticks_addr : Z) (call : sysno → nat → M (pst (kworld F)) Z) (ideintr kbdintr uartintr lapiceoi : M (pst (kworld F)) unit).

(** The interrupt lines [trap] has a case for. *)
Definition handled_irqs : list Z := [0; 1; 4; 7; 14; 15; 31].

Lemma trap_switch_other cur f irq :
  trapno f = T_IRQ0 + irq → irq ∉ handled_irqs →
  trap_switch me ticks_addr ideintr kbdintr uartintr lapiceoi cur f =
  match cur with
  | None => panic "trap"
  | Some p => if Z.land (cs f) 3 =? 0 then panic "trap" else Proc.upd p (set_killed 1)
  end.
Proof.
  intros En Hi. assert (∀ x, x ∈ handled_irqs → (T_IRQ0 + irq =? T_IRQ0 + x) = false) as Hx.
  { intros x Hx. apply Z.eqb_neq. intros E. apply Hi. by replace irq with x by lia. }
  unfold trap_switch. rewrite En. unfold handled_irqs in Hx.
  rewrite (Hx IRQ_TIMER), (Hx IRQ_IDE), (Hx IRQ_KBD), (Hx IRQ_COM1), (Hx 7), (Hx IRQ_SPURIOUS) by (by apply (bool_decide_unpack _)).
  rewrite <-Z.add_assoc, (Hx (IRQ_IDE + 1)) by (by apply (bool_decide_unpack _)). done.
Qed.

(** An interrupt line without a case in [trap] brings the machine down:
    in the kernel it panics, and in a process it kills the process, although
    neither did anything wrong; no end of interrupt is signalled.  The line
    of the network card, which [e1000_init] enables, is such a line. *)
Theorem unhandled_interrupt_fatal c cur tfp f irq t :
  trapno f = T_IRQ0 + irq → 0 ≤ irq < 32 → irq ∉ handled_irqs →
  let trap := trap me kend data init initsz ts_addr tickslock_addr ticks_addr call ideintr kbdintr uartintr lapiceoi in
  (cur = None ∨ Z.land (cs f) 3 = 0 → trap c cur tfp f t = Fail (EPanic "trap")) ∧
  (∀ p, cur = Some p → Z.land (cs f) 3 = DPL_USER → (p < length (procs t))%nat →
     trap c cur tfp f t =
       (exit (ProcEnv0 := kernel me kend data init initsz ts_addr tickslock_addr) me c p;; ret Exited)
         (set_procs (<[p := set_killed 1 (procs t !!! p)]> (procs t)) t)).
Proof.
  intros En Hr Hi. unfold trap. rewrite En. replace (T_IRQ0 + irq =? Z.of_nat T_SYSCALL) with false.
  2: { symmetry. apply Z.eqb_neq. change (Z.of_nat T_SYSCALL) with 64. unfold T_IRQ0. lia. }
  rewrite (trap_switch_other cur f irq En Hi). split.
  - intros H. unfold bind at 1. destruct cur as [p|]; [|done]. destruct H as [| ->]; done.
  - intros p -> Hc Hp. rewrite Hc. change (DPL_USER =? 0) with false. unfold bind at 1, Proc.upd, modify, exit_if_killed, bind at 1, proc_at, gets.
    cbn [procs set_procs]. rewrite list_lookup_total_insert_eq by done. unfold from_user. by rewrite Hc.
Qed.
End traps.
End spec.

(** The card's line under QEMU is 11; an interrupt arrives while the kernel runs. *)
Lemma unhandled_interrupt_fatal_witness :
  trap (FileEnv0 := PmDemo.no_files) 1 demo_end 0x80108000 0x8010A460 44 0x80112000 0x80113000 0x80113040 (λ _ _, ret 0) (ret tt) (ret tt) (ret tt) (ret tt)
    (mk_cpu 0 0 0) (Some 0%nat) 0x80500fb4 (mk_trapframe 0 0 0 0 0 0 0 0 0 0 0 0 43 0 0 8 0 0 0) PmDemo.t0 = Fail (EPanic "trap").
Proof.
  apply (unhandled_interrupt_fatal (FileEnv0 := PmDemo.no_files) 1 demo_end 0x80108000 0x8010A460 44 0x80112000 0x80113000 0x80113040
    (λ _ _, ret 0) (ret tt) (ret tt) (ret tt) (ret tt) (mk_cpu 0 0 0) (Some 0%nat) 0x80500fb4 _ 11 PmDemo.t0).
  - reflexivity.
  - lia.
  - by apply (bool_decide_unpack _).
  - right. reflexivity.
Defined.

Lemma syscall_arguments_safe_witness : ∃ r, argptr 0 2 18 PmDemo.t0 = Done (r, PmDemo.t0).
Proof.
  destruct (syscall_arguments_safe demo_end ltac:(done) demo_kern PmDemo.t0 0 _ _ _ _ 2 18 PmDemo.t0_pmem ltac:(lia)) as (_ & (r & E & _) & _).
  exists r. exact E.
Defined.
