(* ===== verification/E1000.v ===== *)
(** * e1000.c: the driver of the 82540EM network card

    The card is hardware.  It is seen through the [Mmio] registers the
    driver reads and writes and through [tick]: what the card does to itself
    and to memory (by DMA) while the driver waits for one [inb(0x84)].

    The descriptors and packet buffers are in the byte memory of the page
    allocator, because the card reads and writes them there.  [struct e1000]
    is a record; it starts out as whatever bytes the page [kalloc] returned
    holds ([e1000_at]), as in the source, which does not clear the page. *)

From S2P Require Import Prelude CString Spinlock Mmu Kalloc Irq Pci.

Definition E1000_RBD_SLOTS : Z := 128.
Definition E1000_TBD_SLOTS : Z := 128.

Definition E1000_CNTRL_REG : Z := 0x00000.
Definition E1000_CNTRL_RST_MASK : Z := 0x04000000.
Definition E1000_CNTRL_ASDE_MASK : Z := 0x00000020.
Definition E1000_CNTRL_SLU_MASK : Z := 0x00000040.
Definition E1000_CNTRL_RST_BIT (cntrl : Z) : Z := Z.land cntrl E1000_CNTRL_RST_MASK.

Definition E1000_RCV_RAL0 : Z := 0x05400.
Definition E1000_RCV_RAH0 : Z := 0x05404.
Definition E1000_TDBAL : Z := 0x03800.
Definition E1000_TDBAH : Z := 0x03804.
Definition E1000_TDLEN : Z := 0x03808.
Definition E1000_TDH : Z := 0x03810.
Definition E1000_TDT : Z := 0x03818.
Definition E1000_RDBAL : Z := 0x02800.
Definition E1000_RDBAH : Z := 0x02804.
Definition E1000_RDLEN : Z := 0x02808.
Definition E1000_RDH : Z := 0x02810.
Definition E1000_RDT : Z := 0x02818.

Definition E1000_TCTL : Z := 0x00400.
Definition E1000_TCTL_EN : Z := 0x00000002.
Definition E1000_TCTL_PSP : Z := 0x00000008.
Definition E1000_TCTL_CT_SET (value : Z) : Z := Z.land (Z.shiftl value 4) 0x00000ff0.
Definition E1000_TCTL_COLD_SET (value : Z) : Z := Z.land (Z.shiftl value 12) 0x003ff000.

Definition E1000_TIPG : Z := 0x00410.
Definition E1000_TIPG_IPGT_SET (value : Z) : Z := Z.land (Z.shiftl value 0) 0x000003ff.
Definition E1000_TIPG_IPGR1_SET (value : Z) : Z := Z.land (Z.shiftl value 10) 0x000ffc00.
Definition E1000_TIPG_IPGR2_SET (value : Z) : Z := Z.land (Z.shiftl value 20) 0x3ff00000.

Definition E1000_IMS : Z := 0x000d0.
Definition E1000_IMS_TXQE : Z := 0x00000002.
Definition E1000_IMS_RXSEQ : Z := 0x00000008.
Definition E1000_IMS_RXO : Z := 0x00000040.
Definition E1000_IMS_RXT0 : Z := 0x00000080.

Definition E1000_RCTL : Z := 0x00100.
Definition E1000_RCTL_EN : Z := 0x00000002.
Definition E1000_RCTL_BAM : Z := 0x00008000.
Definition E1000_RCTL_BSIZE : Z := 0x00000000.

Definition E1000_TDESC_CMD_RS : Z := 0x08.
Definition E1000_TDESC_CMD_EOP : Z := 0x01.
Definition E1000_TDESC_CMD_IFCS : Z := 0x02.
Definition E1000_TDESC_STATUS_DONE (status : Z) : Z := Z.land status 0x01.

(** ** Layout of the structs the card and the driver share *)

(** [struct e1000_tbd]: addr (8 bytes), length (2), cso, cmd, status, css,
    special (2). *)
Definition sizeof_tbd : Z := 16.
Definition tbd_length : Z := 8.
Definition tbd_cso : Z := 10.
Definition tbd_cmd : Z := 11.
Definition tbd_status : Z := 12.

(** [struct e1000_rbd]: addr_l (4), addr_h (4), length, checksum, status,
    errors, special. *)
Definition sizeof_rbd : Z := 16.
Definition rbd_addr_l : Z := 0.
Definition rbd_addr_h : Z := 4.

Definition sizeof_packet_buf : Z := 2046.

Record e1000 := mk_e1000 {
  tbd : list Z;
  rbd : list Z;
  tx_buf : list Z;
  rx_buf : list Z;
  tbd_head : Z;
  tbd_tail : Z;
  rbd_head : Z;
  rbd_tail : Z;
  iobase : Z;
  membase : Z;
  e_irq_line : Z;
  e_irq_pin : Z;
  mac_addr : list Z;
}.

(** The struct as the bytes at [p] give it. *)
Definition words_at (m : mem) (p : Z) (n : nat) : list Z :=
  (λ i, load32 m (p + 4 * Z.of_nat i)) <$> seq 0 n.

Definition e1000_at (m : mem) (p : Z) : e1000 :=
  mk_e1000 (words_at m p 128) (words_at m (p + 512) 128)
    (words_at m (p + 1024) 128) (words_at m (p + 1536) 128)
    (load32 m (p + 2048)) (load32 m (p + 2052)) (load32 m (p + 2060)) (load32 m (p + 2064))
    (load32 m (p + 2072)) (load32 m (p + 2076)) (m (p + 2080)) (m (p + 2081))
    (read_bytes m (p + 2082) 6).

Definition set_tbd l e := mk_e1000 l (rbd e) (tx_buf e) (rx_buf e) (tbd_head e) (tbd_tail e)
  (rbd_head e) (rbd_tail e) (iobase e) (membase e) (e_irq_line e) (e_irq_pin e) (mac_addr e).
Definition set_rbd l e := mk_e1000 (tbd e) l (tx_buf e) (rx_buf e) (tbd_head e) (tbd_tail e)
  (rbd_head e) (rbd_tail e) (iobase e) (membase e) (e_irq_line e) (e_irq_pin e) (mac_addr e).
Definition set_tx_buf l e := mk_e1000 (tbd e) (rbd e) l (rx_buf e) (tbd_head e) (tbd_tail e)
  (rbd_head e) (rbd_tail e) (iobase e) (membase e) (e_irq_line e) (e_irq_pin e) (mac_addr e).
Definition set_rx_buf l e := mk_e1000 (tbd e) (rbd e) (tx_buf e) l (tbd_head e) (tbd_tail e)
  (rbd_head e) (rbd_tail e) (iobase e) (membase e) (e_irq_line e) (e_irq_pin e) (mac_addr e).
Definition set_tbd_tail t e := mk_e1000 (tbd e) (rbd e) (tx_buf e) (rx_buf e) (tbd_head e) t
  (rbd_head e) (rbd_tail e) (iobase e) (membase e) (e_irq_line e) (e_irq_pin e) (mac_addr e).
Definition set_iobase b e := mk_e1000 (tbd e) (rbd e) (tx_buf e) (rx_buf e) (tbd_head e) (tbd_tail e)
  (rbd_head e) (rbd_tail e) b (membase e) (e_irq_line e) (e_irq_pin e) (mac_addr e).
Definition set_membase b e := mk_e1000 (tbd e) (rbd e) (tx_buf e) (rx_buf e) (tbd_head e) (tbd_tail e)
  (rbd_head e) (rbd_tail e) (iobase e) b (e_irq_line e) (e_irq_pin e) (mac_addr e).
(** irq_line, irq_pin, and all four ring indices zero. *)
Definition set_irq_reset l p e := mk_e1000 (tbd e) (rbd e) (tx_buf e) (rx_buf e) 0 0 0 0
  (iobase e) (membase e) l p (mac_addr e).
Definition set_mac a e := mk_e1000 (tbd e) (rbd e) (tx_buf e) (rx_buf e) (tbd_head e) (tbd_tail e)
  (rbd_head e) (rbd_tail e) (iobase e) (membase e) (e_irq_line e) (e_irq_pin e) a.

Definition store16 (m : mem) (a v : Z) : mem := upd (upd m a (u8 v)) (a + 1) (u8 (Z.shiftr v 8)).

(** ** The driver *)

Class Ticks (H : Type) := tick : H → mem → H * mem.

Record nst (H : Type) := mk_nst { km : kmem; hw : pic H }.
Arguments mk_nst {H}.
Arguments km {H}.
Arguments hw {H}.

Section e1000.
Context {H : Type} `{!Mmio H, !BytePorts H, !Ticks H} (me : nat) (kend : Z).

Definition with_mem (f : mem → mem) : M (nst H) unit :=
  modify (λ s, mk_nst (set_kmem_mem (f (kmem_mem (km s))) (km s)) (hw s)).
Definition with_km {A} (m : M kmem A) : M (nst H) A :=
  zoom km (λ k s, mk_nst k (hw s)) m.
Definition with_pic {A} (m : M (pic H) A) : M (nst H) A :=
  zoom hw (λ p s, mk_nst (km s) p) m.
Definition with_ports {A} (m : M H A) : M (nst H) A :=
  with_pic (zoom pic_ports (λ h p, mk_pic (irqmask p) h) m).

Definition e1000_reg_write (reg_addr value : Z) (the_e1000 : e1000) : M (nst H) unit :=
  with_ports (modify (mmio_write (u32 (membase the_e1000 + reg_addr)) (u32 value))).

Definition e1000_reg_read (reg_addr : Z) (the_e1000 : e1000) : M (nst H) Z :=
  with_ports (λ h, Done (mmio_read (u32 (membase the_e1000 + reg_addr)) h)).

(** One [inb(0x84)]: the card runs meanwhile. *)
Definition delay_inb : M (nst H) unit :=
  _ <- with_ports (λ h, Done (inb 0x84 h));;
  modify (λ s, let '(h, m) := tick (pic_ports (hw s)) (kmem_mem (km s)) in
               mk_nst (set_kmem_mem m (km s)) (mk_pic (irqmask (hw s)) h)).

Definition udelay (u : nat) : M (nst H) unit := for_ u 0 (λ _, delay_inb).

(** *** Sending *)

(** Lines up to the write of the tail register: fill the descriptor and the
    buffer of the slot [tbd_tail], and hand the slot to the card. *)
Definition e1000_fill (e : e1000) (pkt length : Z) : M (nst H) e1000 :=
  let d := tbd e !!! Z.to_nat (tbd_tail e) in
  let b := tx_buf e !!! Z.to_nat (tbd_tail e) in
  with_mem (memset d 0 sizeof_tbd);;
  with_mem (memmove b pkt length);;
  with_mem (λ m, store32 (store32 m d (V2P b)) (d + 4) 0);;
  with_mem (λ m, store16 m (d + tbd_length) length);;
  with_mem (λ m, upd m (d + tbd_cmd)
    (Z.lor (Z.lor E1000_TDESC_CMD_RS E1000_TDESC_CMD_EOP) E1000_TDESC_CMD_IFCS));;
  with_mem (λ m, upd m (d + tbd_cso) 0);;
  let e' := set_tbd_tail (Z.rem (tbd_tail e + 1) E1000_TBD_SLOTS) e in
  e1000_reg_write E1000_TDT (tbd_tail e') e';;
  ret e'.

(** [while(!DONE(tbd[oldtail]->status)) udelay(2)] *)
Fixpoint wait_done (fuel : nat) (d : Z) : M (nst H) unit :=
  match fuel with
  | O => fail EFuel
  | S fuel' =>
      m <- gets (λ s, kmem_mem (km s));;
      if E1000_TDESC_STATUS_DONE (m (d + tbd_status)) =? 0
      then udelay 2;; wait_done fuel' d
      else ret tt
  end.

Definition e1000_send (fuel : nat) (e : e1000) (pkt length : Z) : M (nst H) e1000 :=
  let oldtail := tbd_tail e in
  e' <- e1000_fill e pkt length;;
  wait_done fuel (tbd e' !!! Z.to_nat oldtail);;
  ret e'.

Definition e1000_recv (e : e1000) (pkt length : Z) : M (nst H) unit := ret tt.

(** *** Initialisation *)

(** The loop over the BARs: the first region below 64 KB is the I/O region
    and ends the search, the regions before it are the register memory. *)
Fixpoint scan_bars (regions : list (Z * Z)) (e : e1000) : result e1000 :=
  match regions with
  | [] => Done e
  | (base, size) :: regions' =>
      if base <=? 0xffff then
        if negb (size =? 64) then Fail (EPanic "I/O space BAR size != 64")
        else Done (set_iobase base e)
      else if 0 <? base then
        if negb (size =? Z.shiftl 1 17) then Fail (EPanic "Mem space BAR size != 128KB")
        else scan_bars regions' (set_membase base e)
      else scan_bars regions' e
  end.

Definition lift_result {A} (r : result A) : M (nst H) A :=
  match r with Done a => ret a | Fail e => fail e end.

(** [do udelay(3); while(RST_BIT(...))] *)
Fixpoint wait_reset (fuel : nat) (e : e1000) : M (nst H) unit :=
  match fuel with
  | O => fail EFuel
  | S fuel' =>
      udelay 3;;
      r <- e1000_reg_read E1000_CNTRL_REG e;;
      if negb (E1000_CNTRL_RST_BIT r =? 0) then wait_reset fuel' e else ret tt
  end.

(** 128 descriptors of 16 bytes, one after the other. *)
Definition ring (base : Z) : list Z := (λ i, base + 16 * Z.of_nat i) <$> seq 0 128.

(** The receive buffers, two to a page, and their descriptors. *)
Fixpoint rx_loop (n : nat) (i : nat) (e : e1000) : M (nst H) e1000 :=
  match n with
  | O => ret e
  | S n' =>
      tmp <- with_km (kalloc me);;
      let e1 := set_rx_buf (<[i := tmp]> (rx_buf e)) e in
      with_mem (λ m, store32 m ((rbd e1 !!! i) + rbd_addr_l) (V2P (rx_buf e1 !!! i)));;
      with_mem (λ m, store32 m ((rbd e1 !!! i) + rbd_addr_h) 0);;
      let e2 := set_rx_buf (<[(i + 1)%nat := tmp + sizeof_packet_buf]> (rx_buf e1)) e1 in
      with_mem (λ m, store32 m ((rbd e2 !!! (i + 1)%nat) + rbd_addr_l) (V2P (rx_buf e2 !!! (i + 1)%nat)));;
      with_mem (λ m, store32 m ((rbd e2 !!! (i + 1)%nat) + rbd_addr_h) 0);;
      rx_loop n' (i + 2) e2
  end.

(** The transmit buffers, two to a page. *)
Fixpoint tx_loop (n : nat) (i : nat) (e : e1000) : M (nst H) e1000 :=
  match n with
  | O => ret e
  | S n' =>
      tmp <- with_km (kalloc me);;
      tx_loop n' (i + 2)
        (set_tx_buf (<[(i + 1)%nat := tmp + sizeof_packet_buf]> (<[i := tmp]> (tx_buf e))) e)
  end.

(** The register writes after the rings are set up, in order. *)
Definition ring_registers (e : e1000) : list (Z * Z) :=
  [(E1000_TDBAL, V2P (tbd e !!! 0%nat));
   (E1000_TDBAH, 0);
   (E1000_TDLEN, Z.shiftl (E1000_TBD_SLOTS * 16) 7);
   (E1000_TDH, 0);
   (E1000_TCTL, Z.lor (Z.lor (Z.lor E1000_TCTL_EN E1000_TCTL_PSP) (E1000_TCTL_CT_SET 0x0f))
                  (E1000_TCTL_COLD_SET 0x200));
   (E1000_TDT, 0);
   (E1000_TIPG, Z.lor (Z.lor (E1000_TIPG_IPGT_SET 10) (E1000_TIPG_IPGR1_SET 10))
                  (E1000_TIPG_IPGR2_SET 10));
   (E1000_RDBAL, V2P (rbd e !!! 0%nat));
   (E1000_RDBAH, 0);
   (E1000_RDLEN, Z.shiftl (E1000_RBD_SLOTS * 16) 7);
   (E1000_RDH, 0);
   (E1000_RDT, 0);
   (E1000_IMS, Z.lor (Z.lor (Z.lor E1000_IMS_RXSEQ E1000_IMS_RXO) E1000_IMS_RXT0) E1000_IMS_TXQE);
   (E1000_RCTL, Z.lor (Z.lor (Z.lor E1000_RCTL_EN E1000_RCTL_BAM) E1000_RCTL_BSIZE) 8)].

Fixpoint write_registers (ws : list (Z * Z)) (e : e1000) : M (nst H) unit :=
  match ws with
  | [] => ret tt
  | (r, v) :: ws' => e1000_reg_write r v e;; write_registers ws' e
  end.

(** Reset, then auto speed detection and link up. *)
Definition reset_card (fuel : nat) (e : e1000) : M (nst H) unit :=
  r <- e1000_reg_read E1000_CNTRL_REG e;;
  e1000_reg_write E1000_CNTRL_REG (Z.lor r E1000_CNTRL_RST_MASK) e;;
  wait_reset fuel e;;
  cntrl_reg <- e1000_reg_read E1000_CNTRL_REG e;;
  e1000_reg_write E1000_CNTRL_REG
    (Z.lor (Z.lor cntrl_reg E1000_CNTRL_ASDE_MASK) E1000_CNTRL_SLU_MASK) e.

(** From the transmit ring to the end: both rings, the packet buffers, the
    ring registers, the interrupt. *)
Definition setup_rings (e3 : e1000) (mac : list Z) : M (nst H) (Z * e1000 * list Z) :=
  ttmp <- with_km (kalloc me);;
  let e4 := set_tbd (ring ttmp) e3 in
  if negb (Z.land (V2P (tbd e4 !!! 0%nat)) 0xf =? 0)
  then with_km (kfree me kend (ttmp + 128 * sizeof_tbd));; ret (-1, e4, mac) else
  rtmp <- with_km (kalloc me);;
  let e5 := set_rbd (ring rtmp) e4 in
  if negb (Z.land (V2P (rbd e5 !!! 0%nat)) 0xf =? 0)
  then with_km (kfree me kend (rtmp + 128 * sizeof_rbd));; ret (-1, e5, mac) else
  e6 <- rx_loop 64 0 e5;;
  e7 <- tx_loop 64 0 e6;;
  write_registers (ring_registers e7) e7;;
  _ <- e1000_reg_read E1000_IMS e7;;
  with_pic (picenable (e_irq_line e7));;
  with_ports (ioapicenable (e_irq_line e7) 0);;
  with_ports (ioapicenable (e_irq_line e7) 1);;
  ret (0, e7, mac).

(** The result is the return value, the struct, and the six bytes stored
    through [mac_addr].  The second store through [mac_addr] is 32 bits wide:
    it puts two zero bytes behind the array, where [struct nic_device] has its
    padding. *)
Definition e1000_init (fuel : nat) (pcif : pci_func) : M (nst H) (Z * e1000 * list Z) :=
  p <- with_km (kalloc me);;
  m0 <- gets (λ s, kmem_mem (km s));;
  e1 <- lift_result (scan_bars (zip (reg_base pcif) (reg_size pcif)) (e1000_at m0 p));;
  if iobase e1 =? 0 then panic "Fail to find a valid I/O port base for E1000." else
  if membase e1 =? 0 then panic "Fail to find a valid Mem I/O base for E1000." else
  let e2 := set_irq_reset (irq_line pcif) (irq_pin pcif) e1 in
  reset_card fuel e2;;
  macaddr_l <- e1000_reg_read E1000_RCV_RAL0 e2;;
  macaddr_h <- e1000_reg_read E1000_RCV_RAH0 e2;;
  let e3 := set_mac (le_bytes 4 macaddr_l ++ le_bytes 2 (u16 macaddr_h)) e2 in
  let mac := le_bytes 4 macaddr_l ++ take 2 (le_bytes 4 (u16 macaddr_h)) in
  setup_rings e3 mac.

End e1000.

(** ** Memory written by the driver *)

Lemma store16_spec m a v a' :
  store16 m a v a' = if decide (a ≤ a' < a + 2) then le_bytes 2 v !!! Z.to_nat (a' - a) else m a'.
Proof.
  unfold store16. case_decide as Ha.
  - assert (a' = a ∨ a' = a + 1) as [-> | ->] by lia.
    + rewrite upd_other, upd_same, Z.sub_diag by lia. done.
    + rewrite upd_same, u8_shiftr by lia. by replace (a + 1 - a) with 1 by lia.
  - by rewrite !upd_other by lia.
Qed.

Lemma store32_spec m a v a' :
  store32 m a v a' = if decide (a ≤ a' < a + 4) then le_bytes 4 v !!! Z.to_nat (a' - a) else m a'.
Proof.
  case_decide as Ha; [|apply store32_other; lia]. unfold store32.
  cbn [le_bytes]. rewrite !Z.div_div by lia.
  assert (a' = a ∨ a' = a + 1 ∨ a' = a + 2 ∨ a' = a + 3) as [-> |[-> |[-> | ->]]] by lia.
  - rewrite Z.sub_diag. repeat (rewrite upd_same || rewrite upd_other by lia). done.
  - repeat (rewrite upd_same || rewrite upd_other by lia). rewrite u8_shiftr by lia.
    by replace (a + 1 - a) with 1 by lia.
  - repeat (rewrite upd_same || rewrite upd_other by lia). rewrite u8_shiftr by lia.
    by replace (a + 2 - a) with 2 by lia.
  - repeat (rewrite upd_same || rewrite upd_other by lia). rewrite u8_shiftr by lia.
    by replace (a + 3 - a) with 3 by lia.
Qed.

(** What the card finds in a transmit descriptor. *)
Definition tx_descriptor (buf length : Z) : list Z :=
  le_bytes 8 (V2P buf) ++ le_bytes 2 length ++ [0; 0x0b; 0; 0; 0; 0].

(** The memory [e1000_fill] leaves, as a function of the one it found. *)
Definition filled (m : mem) (d b pkt length : Z) : mem := λ a,
  if decide (d ≤ a < d + 16) then tx_descriptor b length !!! Z.to_nat (a - d)
  else if decide (b ≤ a < b + length) then m (a - b + pkt) else m a.

Lemma V2P_range a : 0 ≤ V2P a < 2 ^ 32.
Proof. apply u32_range. Qed.

Lemma le_bytes_8_word x : 0 ≤ x < 2 ^ 32 → le_bytes 8 x = le_bytes 4 x ++ [0; 0; 0; 0].
Proof.
  intros Hx. cbn [le_bytes app]. rewrite !Z.div_div by lia.
  change (256 * 256 * 256 * 256) with (2 ^ 32). rewrite (Z.div_small x (2 ^ 32)) by done.
  rewrite (Z.div_small x (2 ^ 32 * 256)), (Z.div_small x (2 ^ 32 * 256 * 256)),
    (Z.div_small x (2 ^ 32 * 256 * 256 * 256)) by lia. done.
Qed.

Lemma filled_spec m d b pkt length a :
  0 ≤ length → d + 16 ≤ b ∨ b + length ≤ d → d + 16 ≤ pkt ∨ pkt + length ≤ d →
  upd (upd (store16 (store32 (store32 (memmove b pkt length (memset d 0 16 m)) d (V2P b)) (d + 4) 0)
    (d + 8) length) (d + 11) 0x0b) (d + 10) 0 a = filled m d b pkt length a.
Proof.
  intros Hl Hdb Hdp. unfold filled, tx_descriptor. rewrite le_bytes_8_word by apply V2P_range.
  case_decide as Hd.
  - assert (∃ k, a = d + k ∧ 0 ≤ k < 16) as (k & -> & Hk) by (exists (a - d); lia).
    replace (d + k - d) with k by lia.
    unfold upd. rewrite !Z_eqb_add_l, store16_spec, !store32_spec, memmove_copied, !memset_spec by lia.
    revert k Hk Hd. apply (z_cases 16 (λ k, d ≤ d + k < d + 16 → _)).
    repeat (constructor; [intros _; repeat case_decide; try lia; simpl;
      repeat match goal with |- context [d + ?x - ?y] => ring_simplify (d + x - y) end; reflexivity|]).
    constructor.
  - rewrite !upd_other by lia. rewrite store16_spec, !store32_spec, memmove_copied, !memset_spec by lia.
    repeat case_decide; lia || done.
Qed.

(** Two packet buffers in each page. *)
Fixpoint buffers_of (ps : list Z) : list Z :=
  match ps with [] => [] | p :: ps' => p :: p + sizeof_packet_buf :: buffers_of ps' end.

Lemma length_buffers_of ps : length (buffers_of ps) = (2 * length ps)%nat.
Proof. induction ps as [|p ps IH]; [done|]. simpl. rewrite IH. lia. Qed.

Lemma splice_insert2 {A} n (w l : list A) c1 c2 :
  (n + 1 < length l)%nat →
  splice (n + 2) w (<[(n + 1)%nat := c2]> (<[n := c1]> l)) = splice n (c1 :: c2 :: w) l.
Proof.
  intros Hn. replace (n + 2)%nat with (n + 1 + 1)%nat by lia.
  rewrite splice_insert by (rewrite length_insert; lia). apply splice_insert. lia.
Qed.

(** Areas (address, size) that do not overlap. *)
Definition apart (r1 r2 : Z * Z) : Prop := fst r1 + snd r1 ≤ fst r2 ∨ fst r2 + snd r2 ≤ fst r1.

Fixpoint pairwise_apart (rs : list (Z * Z)) : Prop :=
  match rs with [] => True | r :: rs' => Forall (apart r) rs' ∧ pairwise_apart rs' end.

(** The area is inside the page at [p]. *)
Definition in_page (p : Z) (r : Z * Z) : Prop := p ≤ fst r ∧ fst r + snd r ≤ p + PGSIZE.

Definition buffer_areas (ps : list Z) : list (Z * Z) := (λ b, (b, sizeof_packet_buf)) <$> buffers_of ps.

Lemma buffer_areas_in_page ps : Forall (λ r, ∃ p, p ∈ ps ∧ in_page p r) (buffer_areas ps).
Proof.
  induction ps as [|p ps IH]; [constructor|].
  change (buffer_areas (p :: ps)) with
    ((p, sizeof_packet_buf) :: (p + sizeof_packet_buf, sizeof_packet_buf) :: buffer_areas ps).
  rewrite !Forall_cons. split_and!.
  - exists p. split; [set_solver|]. unfold in_page, PGSIZE, sizeof_packet_buf. simpl. lia.
  - exists p. split; [set_solver|]. unfold in_page, PGSIZE, sizeof_packet_buf. simpl. lia.
  - eapply Forall_impl; [exact IH|]. set_solver.
Qed.

Lemma apart_pages kend p q r1 r2 :
  page_ok kend p → page_ok kend q → p ≠ q → in_page p r1 → in_page q r2 → apart r1 r2.
Proof.
  intros Hp Hq Hne [H1 H2] [H3 H4]. unfold apart.
  destruct (page_ok_disjoint kend p q Hp Hq Hne); lia.
Qed.

Lemma apart_all_pages kend p r ps rs :
  page_ok kend p → Forall (page_ok kend) ps → p ∉ ps → in_page p r →
  Forall (λ r', ∃ q, q ∈ ps ∧ in_page q r') rs → Forall (apart r) rs.
Proof.
  intros Hp Hps Hnot Hr Hrs. eapply Forall_impl; [exact Hrs|]. intros r' (q & Hq & Hr').
  rewrite Forall_forall in Hps. apply (apart_pages kend p q); auto. set_solver.
Qed.

Lemma buffer_areas_apart kend ps :
  Forall (page_ok kend) ps → NoDup ps → pairwise_apart (buffer_areas ps).
Proof.
  induction ps as [|p ps IH]; [done|]. intros [Hp Hps]%Forall_cons [Hnot Hn]%NoDup_cons.
  pose proof (buffer_areas_in_page ps) as Hin.
  change (buffer_areas (p :: ps)) with
    ((p, sizeof_packet_buf) :: (p + sizeof_packet_buf, sizeof_packet_buf) :: buffer_areas ps).
  cbn [pairwise_apart]. split_and!; [apply Forall_cons; split|..|by apply IH].
  - unfold apart. simpl. lia.
  - apply (apart_all_pages kend p _ ps); try done. unfold in_page, PGSIZE, sizeof_packet_buf. simpl. lia.
  - apply (apart_all_pages kend p _ ps); try done. unfold in_page, PGSIZE, sizeof_packet_buf. simpl. lia.
Qed.

Lemma init_areas_apart kend T R rxs txs rest :
  Forall (page_ok kend) (T :: R :: rxs ++ txs ++ rest) → NoDup (T :: R :: rxs ++ txs ++ rest) →
  pairwise_apart ((T, 2048) :: (R, 2048) :: buffer_areas (rxs ++ txs)).
Proof.
  intros [HT [HR Hps]%Forall_cons]%Forall_cons [HnT [HnR Hnps]%NoDup_cons]%NoDup_cons.
  rewrite app_assoc in Hps, Hnps, HnR, HnT. apply Forall_app in Hps as [Hps _].
  apply NoDup_app in Hnps as (Hnps & _ & _).
  pose proof (buffer_areas_in_page (rxs ++ txs)) as Hin.
  assert (∀ p, in_page p (p, 2048)) as H2 by (intros p; unfold in_page, PGSIZE; simpl; lia).
  cbn [pairwise_apart]. split_and!; [apply Forall_cons; split|..|by apply (buffer_areas_apart kend)].
  - apply (apart_pages kend T R); try done. set_solver.
  - apply (apart_all_pages kend T _ (rxs ++ txs)); try done. set_solver.
  - apply (apart_all_pages kend R _ (rxs ++ txs)); try done. set_solver.
Qed.

Section e1000_proofs.
Context {H : Type} `{!Mmio H, !BytePorts H, !Ticks H} (me : nat) (kend : Z).
Implicit Types s : nst H.

Abbreviation nmem s := (kmem_mem (km s)).

(** ** Waiting for the card *)

Definition tick_state (s : nst H) : nst H :=
  let h := snd (inb 0x84 (pic_ports (hw s))) in
  let '(h', m) := tick h (nmem s) in mk_nst (set_kmem_mem m (km s)) (mk_pic (irqmask (hw s)) h').

Lemma delay_inb_run s : delay_inb s = Done (tt, tick_state s).
Proof.
  unfold delay_inb, tick_state, bind, with_ports, with_pic, zoom, modify. simpl.
  destruct (inb 132 (pic_ports (hw s))) as [v h]. simpl. by destruct (tick h (nmem s)).
Qed.

Lemma udelay_run u s : udelay u s = Done (tt, Nat.iter u tick_state s).
Proof.
  unfold udelay. generalize 0. revert s. induction u as [|u IH]; intros s i; [done|].
  cbn [for_]. unfold bind. by rewrite delay_inb_run, IH, Nat.iter_succ_r.
Qed.

(** The state after [n] rounds of the polling loop. *)
Definition polled (n : nat) (s : nst H) : nst H := Nat.iter n (Nat.iter 2 tick_state) s.

(** The card has set the done bit of the descriptor at [d]. *)
Definition done_at (d : Z) (s : nst H) : bool :=
  negb (E1000_TDESC_STATUS_DONE (nmem s (d + tbd_status)) =? 0).

Lemma wait_done_step fuel d s :
  wait_done (S fuel) d s = if done_at d s then Done (tt, s) else wait_done fuel d (polled 1 s).
Proof.
  cbn [wait_done]. unfold bind at 1, gets, done_at.
  destruct (E1000_TDESC_STATUS_DONE _ =? 0); simpl; [|done].
  unfold bind. by rewrite udelay_run.
Qed.

Lemma polled_S n s : polled n (polled 1 s) = polled (S n) s.
Proof. unfold polled. by rewrite (Nat.iter_succ_r n). Qed.

(** The loop ends in the first state in which the bit is set. *)
Lemma wait_done_run fuel d s n :
  (n < fuel)%nat → done_at d (polled n s) = true → (∀ k, (k < n)%nat → done_at d (polled k s) = false) →
  wait_done fuel d s = Done (tt, polled n s).
Proof.
  revert n s. induction fuel as [|fuel IH]; intros n s Hn Hd Hb; [lia|].
  rewrite wait_done_step. destruct n as [|n].
  - change (polled 0 s) with s in Hd. by rewrite Hd.
  - pose proof (Hb 0%nat ltac:(lia)) as H0. change (polled 0 s) with s in H0.
    rewrite H0, <-(polled_S n). apply IH; [lia|by rewrite (polled_S n)|].
    intros k Hk. rewrite (polled_S k). apply Hb. lia.
Qed.

Lemma wait_done_stuck fuel d s :
  (∀ n, (n < fuel)%nat → done_at d (polled n s) = false) → wait_done fuel d s = Fail EFuel.
Proof.
  revert s. induction fuel as [|fuel IH]; intros s Hb; [done|].
  pose proof (Hb 0%nat ltac:(lia)) as H0. change (polled 0 s) with s in H0.
  rewrite wait_done_step, H0. apply IH. intros n Hn. rewrite (polled_S n). apply Hb. lia.
Qed.

Lemma done_or_not fuel d s :
  (∃ n, (n < fuel)%nat ∧ done_at d (polled n s) = true) ∨
  (∀ n, (n < fuel)%nat → done_at d (polled n s) = false).
Proof.
  induction fuel as [|fuel [(n & Hn & Hd)|Hno]]; [right; lia|left; exists n; split; [lia|done]|].
  destruct (done_at d (polled fuel s)) eqn:Hf; [left; exists fuel; split; [lia|done]|].
  right. intros n Hn. destruct (decide (n = fuel)) as [->|]; [done|apply Hno; lia].
Qed.

Lemma first_done d s n :
  done_at d (polled n s) = true →
  ∃ k, (k ≤ n)%nat ∧ done_at d (polled k s) = true ∧ ∀ j, (j < k)%nat → done_at d (polled j s) = false.
Proof.
  revert s. induction n as [|n IH]; intros s Hn.
  { exists 0%nat. split_and!; [lia|done|lia]. }
  destruct (done_at d s) eqn:H0.
  { exists 0%nat. split_and!; [lia|done|lia]. }
  rewrite <-(polled_S n) in Hn. destruct (IH _ Hn) as (k & Hk & Hd & Hlt).
  exists (S k). split_and!; [lia|by rewrite <-(polled_S k)|].
  intros [|j] Hj; [done|]. rewrite <-(polled_S j). apply Hlt. lia.
Qed.

(** ** Sending *)

Lemma e1000_fill_run e pkt length s :
  let d := tbd e !!! Z.to_nat (tbd_tail e) in
  let b := tx_buf e !!! Z.to_nat (tbd_tail e) in
  let tail := Z.rem (tbd_tail e + 1) E1000_TBD_SLOTS in
  0 ≤ length → d + 16 ≤ b ∨ b + length ≤ d → d + 16 ≤ pkt ∨ pkt + length ≤ d →
  ∃ m, e1000_fill e pkt length s = Done (set_tbd_tail tail e,
      mk_nst (set_kmem_mem m (km s)) (mk_pic (irqmask (hw s))
        (mmio_write (u32 (membase e + E1000_TDT)) (u32 tail) (pic_ports (hw s))))) ∧
    ∀ a, m a = filled (nmem s) d b pkt length a.
Proof.
  intros d b tail Hl Hdb Hdp.
  exists (upd (upd (store16 (store32 (store32 (memmove b pkt length (memset d 0 16 (nmem s)))
    d (V2P b)) (d + 4) 0) (d + 8) length) (d + 11) 0x0b) (d + 10) 0).
  split; [reflexivity|]. intros a. by apply filled_spec.
Qed.

Lemma e1000_send_run e pkt length s :
  let d := tbd e !!! Z.to_nat (tbd_tail e) in
  let b := tx_buf e !!! Z.to_nat (tbd_tail e) in
  let tail := (tbd_tail e + 1) mod 128 in
  0 ≤ tbd_tail e < 128 → 0 ≤ length ≤ sizeof_packet_buf →
  d + 16 ≤ b ∨ b + sizeof_packet_buf ≤ d → d + 16 ≤ pkt ∨ pkt + length ≤ d →
  ∃ m s1,
    (∀ a, m a = filled (nmem s) d b pkt length a) ∧
    s1 = mk_nst (set_kmem_mem m (km s)) (mk_pic (irqmask (hw s))
           (mmio_write (u32 (membase e + E1000_TDT)) tail (pic_ports (hw s)))) ∧
    (∀ n, done_at d (polled n s1) = true →
       ∃ k, (k ≤ n)%nat ∧ ∀ fuel, (n < fuel)%nat →
         e1000_send fuel e pkt length s = Done (set_tbd_tail tail e, polled k s1)) ∧
    (∀ fuel, (∀ n, (n < fuel)%nat → done_at d (polled n s1) = false) →
       e1000_send fuel e pkt length s = Fail EFuel).
Proof.
  intros d b tail Ht Hl Hdb Hdp.
  destruct (e1000_fill_run e pkt length s) as (m & Hfill & Hm); [lia|..|done|]; fold d b.
  { unfold sizeof_packet_buf in *. lia. }
  assert (Z.rem (tbd_tail e + 1) E1000_TBD_SLOTS = tail) as Etail
    by (unfold tail, E1000_TBD_SLOTS; rewrite Z.rem_mod_nonneg by lia; done).
  rewrite Etail in Hfill. rewrite (u32_small tail) in Hfill
    by (pose proof (Z.mod_pos_bound (tbd_tail e + 1) 128); unfold tail; lia).
  exists m. eexists. split; [exact Hm|]. split; [reflexivity|].
  set (s1 := mk_nst _ _) in *. unfold e1000_send. unfold bind at 1.
  split; [intros n Hn|intros fuel Hn]; rewrite ?Hfill; cbn [tbd set_tbd_tail]; fold d.
  - destruct (first_done d s1 n Hn) as (k & Hk & Hdk & Hlt). exists k. split; [done|].
    intros fuel Hf. unfold bind.
    by rewrite (wait_done_run fuel d s1 k) by (done || lia).
  - unfold bind. rewrite Hfill. cbn [tbd set_tbd_tail]. fold d. by rewrite wait_done_stuck.
Qed.

(** C12: sending a packet.  Before it writes the card's tail register, the
    driver has put exactly the packet into the buffer of the current slot,
    has made the slot's descriptor say where that buffer is (its physical
    address), how long the packet is, and that it is a whole packet with a
    checksum to insert and a status to report; it has changed no other byte.
    The tail register gets the index of the next slot, modulo the ring size.
    The call then polls the descriptor: it returns as soon as the card has
    set the done bit, and never before. *)
Theorem e1000_send_correct e pkt length s :
  let d := tbd e !!! Z.to_nat (tbd_tail e) in
  let b := tx_buf e !!! Z.to_nat (tbd_tail e) in
  let tail := (tbd_tail e + 1) mod 128 in
  0 ≤ tbd_tail e < 128 → 0 ≤ length ≤ sizeof_packet_buf →
  d + 16 ≤ b ∨ b + sizeof_packet_buf ≤ d → d + 16 ≤ pkt ∨ pkt + length ≤ d →
  ∃ m s1,
    (∀ a, m a = filled (nmem s) d b pkt length a) ∧
    s1 = mk_nst (set_kmem_mem m (km s)) (mk_pic (irqmask (hw s))
           (mmio_write (u32 (membase e + E1000_TDT)) tail (pic_ports (hw s)))) ∧
    (∀ n, done_at d (polled n s1) = true →
       ∃ k, (k ≤ n)%nat ∧ ∀ fuel, (n < fuel)%nat →
         e1000_send fuel e pkt length s = Done (set_tbd_tail tail e, polled k s1)) ∧
    (∀ fuel, (∀ n, (n < fuel)%nat → done_at d (polled n s1) = false) →
       e1000_send fuel e pkt length s = Fail EFuel).
Proof. apply e1000_send_run. Qed.

(** ** Initialisation *)

Lemma tx_loop_run ps i e s rest :
  kmem_inv kend (km s) (ps ++ rest) → (i + 2 * length ps ≤ length (tx_buf e))%nat →
  ∃ k', tx_loop me (length ps) i e s
        = Done (set_tx_buf (splice i (buffers_of ps) (tx_buf e)) e, mk_nst k' (hw s)) ∧
    kmem_inv kend k' rest ∧ kmem_mem k' = nmem s.
Proof.
  revert i e s. induction ps as [|p ps IH]; intros i e s Hi Hlen; cbn [length tx_loop].
  { exists (km s). split; [|done]. unfold splice. simpl.
    rewrite Nat.add_0_r, take_drop. by destruct e, s. }
  destruct (kalloc_inv me kend _ _ Hi) as (k1 & Hk1 & Hi1 & _ & _ & Hm1 & _).
  unfold bind at 1, with_km, zoom. rewrite Hk1.
  destruct (IH (i + 2)%nat (set_tx_buf (<[(i + 1)%nat := p + sizeof_packet_buf]>
    (<[i := p]> (tx_buf e))) e) (mk_nst k1 (hw s))) as (k2 & Hk2 & Hi2 & Hm2); [done| |].
  { cbn [tx_buf set_tx_buf]. rewrite !length_insert. simpl in Hlen. lia. }
  exists k2. cbn [hw] in Hk2. rewrite Hk2. split; [|split; [done|by rewrite Hm2]].
  cbn [tx_buf set_tx_buf]. rewrite splice_insert2 by (simpl in Hlen; lia). done.
Qed.

Lemma ring_lookup base i : (i < 128)%nat → ring base !!! i = base + 16 * Z.of_nat i.
Proof.
  intros Hi. apply list_lookup_total_correct. unfold ring.
  rewrite list_lookup_fmap, lookup_seq_lt by done. done.
Qed.

(** The four stores of one round of [rx_loop]. *)
Definition rx_stores (d b1 b2 : Z) (m : mem) : mem :=
  store32 (store32 (store32 (store32 m (d + 0) (V2P b1)) (d + 4) 0) (d + 16 + 0) (V2P b2)) (d + 16 + 4) 0.

Lemma rx_stores_spec d b1 b2 m :
  load32 (rx_stores d b1 b2 m) d = V2P b1 ∧ load32 (rx_stores d b1 b2 m) (d + 4) = 0 ∧
  load32 (rx_stores d b1 b2 m) (d + 16) = V2P b2 ∧ load32 (rx_stores d b1 b2 m) (d + 20) = 0 ∧
  ∀ a, a < d ∨ d + 32 ≤ a → rx_stores d b1 b2 m a = m a.
Proof.
  unfold rx_stores. rewrite !Z.add_0_r. replace (d + 16 + 4) with (d + 20) by lia.
  pose proof (V2P_range b1). pose proof (V2P_range b2). split_and!.
  - rewrite (load32_ext _ (store32 m d (V2P b1))); [by apply load32_store32|].
    intros k Hk. by rewrite !store32_other by lia.
  - rewrite (load32_ext _ (store32 (store32 m d (V2P b1)) (d + 4) 0)); [by apply load32_store32|].
    intros k Hk. by rewrite !store32_other by lia.
  - rewrite (load32_ext _ (store32 (store32 (store32 m d (V2P b1)) (d + 4) 0) (d + 16) (V2P b2)));
      [by apply load32_store32|]. intros k Hk. by rewrite store32_other by lia.
  - by apply load32_store32.
  - intros a Ha. by rewrite !store32_other by lia.
Qed.

Lemma rx_loop_run ps i e s rest R :
  kmem_inv kend (km s) (ps ++ rest) → (i + 2 * length ps ≤ 128)%nat → length (rx_buf e) = 128%nat →
  rbd e = ring R → page_ok kend R → R ∉ ps ++ rest →
  ∃ k', rx_loop me (length ps) i e s
        = Done (set_rx_buf (splice i (buffers_of ps) (rx_buf e)) e, mk_nst k' (hw s)) ∧
    kmem_inv kend k' rest ∧
    (∀ a, a < R + 16 * Z.of_nat i ∨ R + 16 * Z.of_nat (i + 2 * length ps) ≤ a → kmem_mem k' a = nmem s a) ∧
    (∀ j, (j < 2 * length ps)%nat →
      load32 (kmem_mem k') (R + 16 * Z.of_nat (i + j)) = V2P (buffers_of ps !!! j) ∧
      load32 (kmem_mem k') (R + 16 * Z.of_nat (i + j) + 4) = 0).
Proof.
  revert i e s. induction ps as [|p ps IH]; intros i e s Hi Hlen Hrx Hr HR Hnot; cbn [length rx_loop].
  { exists (km s). split; [|split_and!; [done|done|simpl; lia]]. unfold splice. simpl.
    rewrite Nat.add_0_r, take_drop. by destruct e, s. }
  cbn [length] in Hlen.
  destruct (kalloc_inv me kend _ _ Hi) as (k1 & Hk1 & Hi1 & _ & _ & Hm1 & _).
  unfold bind at 1, with_km, zoom. rewrite Hk1.
  set (e2 := set_rx_buf (<[(i + 1)%nat := p + sizeof_packet_buf]> (<[i := p]> (rx_buf e))) e).
  set (d := R + 16 * Z.of_nat i).
  set (s2 := mk_nst (set_kmem_mem (rx_stores d p (p + sizeof_packet_buf) (kmem_mem k1)) k1) (hw s)).
  pose proof (rx_stores_spec d p (p + sizeof_packet_buf) (kmem_mem k1)) as (L1 & L2 & L3 & L4 & Lo).
  destruct (IH (i + 2)%nat e2 s2) as (k2 & Hk2 & Hi2 & Ho2 & Hl2); try done.
  { apply kmem_inv_frame with (v := R); [done|done|set_solver|].
    intros a Ha. apply Lo. unfold d, PGSIZE in *. lia. }
  { lia. }
  { unfold e2. cbn [rx_buf set_rx_buf]. by rewrite !length_insert. }
  { set_solver. }
  exists k2. split; [|split; [done|split]].
  - transitivity (rx_loop me (length ps) (i + 2) e2 s2).
    { unfold e2, s2, rx_stores, d, bind, with_mem, modify, rbd_addr_l, rbd_addr_h.
      cbn [rbd rx_buf set_rx_buf km hw]. rewrite Hr, !ring_lookup by lia.
      rewrite !list_lookup_total_insert_eq by (rewrite ?length_insert; lia).
      by replace (R + 16 * Z.of_nat (i + 1)) with (R + 16 * Z.of_nat i + 16) by lia. }
    rewrite Hk2. unfold e2. cbn [rx_buf set_rx_buf]. by rewrite splice_insert2 by lia.
  - intros a Ha. rewrite Ho2 by lia. unfold s2. cbn [km kmem_mem set_kmem_mem].
    rewrite Lo by (unfold d; lia). by rewrite Hm1.
  - intros j Hj. destruct j as [|[|j]].
    + rewrite !(load32_ext (kmem_mem k2) (nmem s2)) by (intros a Ha; apply Ho2; lia).
      rewrite Nat.add_0_r. by split.
    + rewrite !(load32_ext (kmem_mem k2) (nmem s2)) by (intros a Ha; apply Ho2; lia).
      replace (R + 16 * Z.of_nat (i + 1)) with (d + 16) by (unfold d; lia).
      replace (d + 16 + 4) with (d + 20) by lia. by split.
    + specialize (Hl2 j ltac:(lia)). by replace (i + 2 + j)%nat with (i + S (S j))%nat in Hl2 by lia.
Qed.

Lemma with_ports_modify (f : H → H) s :
  with_ports (modify f) s = Done (tt, mk_nst (km s) (mk_pic (irqmask (hw s)) (f (pic_ports (hw s))))).
Proof. done. Qed.

Lemma e1000_reg_read_run r e s : ∃ v h, e1000_reg_read r e s = Done (v, mk_nst (km s) h).
Proof.
  unfold e1000_reg_read, with_ports, with_pic, zoom. destruct (mmio_read _ _). by eauto.
Qed.

Lemma write_registers_run ws e s :
  write_registers ws e s = Done (tt, mk_nst (km s) (mk_pic (irqmask (hw s))
    (foldl (λ h w, mmio_write (u32 (membase e + fst w)) (u32 (snd w)) h) (pic_ports (hw s)) ws))).
Proof.
  revert s. induction ws as [|[r v] ws IH]; intros s; cbn [write_registers foldl].
  { by destruct s as [? []]. }
  unfold bind, e1000_reg_write. rewrite with_ports_modify, IH. done.
Qed.

(** A page boundary is a paragraph boundary. *)
Lemma ring_aligned p : page_ok kend p → Z.land (V2P (ring p !!! 0%nat)) 0xf = 0.
Proof.
  intros (Hr & Hal & _). rewrite ring_lookup by lia. change 0xf with (Z.ones 4).
  rewrite Z.land_ones by lia. unfold V2P, PGSIZE, KERNBASE in *.
  rewrite (u32_small (p + _)) by lia. unfold u32.
  Z.to_euclidean_division_equations. lia.
Qed.

Lemma with_km_kalloc p l s :
  kmem_inv kend (km s) (p :: l) →
  ∃ k', with_km (kalloc me) s = Done (p, mk_nst k' (hw s)) ∧ kmem_inv kend k' l ∧
    page_ok kend p ∧ p ∉ l ∧ kmem_mem k' = nmem s.
Proof.
  intros Hi. destruct (kalloc_inv me kend _ _ Hi) as (k' & Hk & Hi' & Hp & Hn & Hm & _).
  exists k'. unfold with_km, zoom. by rewrite Hk.
Qed.

(** The last steps only touch the hardware. *)
Lemma irq_setup_run {A} (r : A) irq e s :
  ∃ h, (_ <- e1000_reg_read E1000_IMS e;; with_pic (picenable irq);;
        with_ports (ioapicenable irq 0);; with_ports (ioapicenable irq 1);; ret r) s
       = Done (r, mk_nst (km s) h).
Proof.
  destruct (e1000_reg_read_run E1000_IMS e s) as (v & h & E). unfold bind at 1. rewrite E.
  eexists. reflexivity.
Qed.

(** What [e1000_init] sets up. *)
Record initialised (e : e1000) (s : nst H) (M I T R : Z) (rxs txs : list Z) : Prop := {
  in_tbd : tbd e = ring T;
  in_rbd : rbd e = ring R;
  in_rx : rx_buf e = buffers_of rxs;
  in_tx : tx_buf e = buffers_of txs;
  in_tail : tbd_tail e = 0 ∧ tbd_head e = 0 ∧ rbd_tail e = 0 ∧ rbd_head e = 0;
  in_base : membase e = M ∧ iobase e = I;
  in_desc : ∀ j, (j < 128)%nat →
    load32 (nmem s) (rbd e !!! j) = V2P (rx_buf e !!! j) ∧ load32 (nmem s) (rbd e !!! j + 4) = 0;
}.

(** The card finishes its reset without touching memory. *)
Definition resets (fuel : nat) (M : Z) (h : pic H) : Prop :=
  ∀ e k, membase e = M → ∃ h', reset_card fuel e (mk_nst k h) = Done (tt, mk_nst k h').

(** The card's address: after a reset the receive address registers hold the
    six bytes [addr] of the EEPROM, the first four in RAL0, the others in the
    low half of RAH0. *)
Definition holds_mac (fuel : nat) (M : Z) (addr : list Z) : Prop :=
  length addr = 6%nat ∧ bytes addr ∧
  ∀ e k h h', membase e = M → reset_card fuel e (mk_nst k h) = Done (tt, mk_nst k h') →
    let '(l, d) := mmio_read (u32 (M + E1000_RCV_RAL0)) (pic_ports h') in
    l = le_val (take 4 addr) ∧ u16 (fst (mmio_read (u32 (M + E1000_RCV_RAH0)) d)) = le_val (drop 4 addr).

Lemma mac_bytes addr : length addr = 6%nat → bytes addr →
  le_bytes 4 (le_val (take 4 addr)) ++ take 2 (le_bytes 4 (le_val (drop 4 addr))) = addr.
Proof.
  intros Hl Hb. assert (bytes (take 4 addr) ∧ bytes (drop 4 addr)) as [H1 H2] by (split; [by apply Forall_take|by apply Forall_drop]).
  change 4%nat with (2 + 2)%nat at 3. rewrite <-(take_drop 4 addr) at 3. f_equal.
  - rewrite <-(le_bytes_val (take 4 addr)) at 2 by done. rewrite length_take, Hl. done.
  - rewrite <-(le_bytes_val (drop 4 addr)) at 2 by done. rewrite length_drop, Hl. done.
Qed.

Lemma rings_run M I T R rxs txs rest e s mac :
  kmem_inv kend (km s) (T :: R :: rxs ++ txs ++ rest) → length rxs = 64%nat → length txs = 64%nat →
  length (rx_buf e) = 128%nat → length (tx_buf e) = 128%nat → membase e = M → iobase e = I →
  tbd_tail e = 0 ∧ tbd_head e = 0 ∧ rbd_tail e = 0 ∧ rbd_head e = 0 →
  ∃ e' s', setup_rings me kend e mac s = Done ((0, e', mac), s') ∧
    initialised e' s' M I T R rxs txs ∧ kmem_inv kend (km s') rest ∧ mac_addr e' = mac_addr e.
Proof.
  intros Hi Hrx Htx Hlr Hlt HM HI Htails.
  destruct (with_km_kalloc _ _ _ Hi) as (k1 & E1 & Hi1 & HT & HnT & Hm1).
  unfold setup_rings, bind at 1. rewrite E1. cbv zeta. cbn [tbd rbd set_tbd set_rbd].
  rewrite (ring_aligned T HT). cbn [Z.eqb negb].
  destruct (with_km_kalloc _ _ (mk_nst k1 (hw s)) Hi1) as (k2 & E2 & Hi2 & HR & HnR & Hm2).
  unfold bind at 1. rewrite E2. rewrite (ring_aligned R HR). cbn [Z.eqb negb hw].
  set (e5 := set_rbd (ring R) (set_tbd (ring T) e)).
  destruct (rx_loop_run rxs 0 e5 (mk_nst k2 (hw s)) (txs ++ rest) R) as (k3 & E3 & Hi3 & Ho3 & Hd3);
    try done; [lia|].
  rewrite Hrx in E3. unfold bind at 1. rewrite E3. cbn [hw].
  set (e6 := set_rx_buf _ e5) in *.
  destruct (tx_loop_run txs 0 e6 (mk_nst k3 (hw s)) rest) as (k4 & E4 & Hi4 & Hm4);
    [done|cbn [tx_buf e6 set_rx_buf e5 set_rbd set_tbd]; lia|].
  rewrite Htx in E4. unfold bind at 1. rewrite E4. cbn [hw].
  set (e7 := set_tx_buf _ e6) in *. unfold bind at 1. rewrite write_registers_run.
  destruct (irq_setup_run (0, e7, mac) (e_irq_line e7) e7 (mk_nst k4 (mk_pic (irqmask (hw s))
    (foldl (λ h w, mmio_write (u32 (membase e7 + fst w)) (u32 (snd w)) h)
       (pic_ports (hw s)) (ring_registers e7))))) as (h & E5).
  cbn [km hw] in *. rewrite E5. exists e7, (mk_nst k4 h). split; [done|]. split; [|done].
  assert (∀ ps l, length ps = 64%nat → length l = 128%nat → splice 0 (buffers_of ps) l = buffers_of ps) as Hsp.
  { intros ps l Hps Hl. unfold splice. rewrite take_0, drop_ge, app_nil_r; [done|].
    rewrite length_buffers_of. lia. }
  assert (rx_buf e7 = buffers_of rxs) as Hrx7 by (apply Hsp; done).
  split; try done; [by apply Hsp|]. cbn [km]. intros j Hj. rewrite Hrx7, Hm4. cbn [km].
  change (rbd e7) with (ring R). rewrite ring_lookup by done. apply (Hd3 j). lia.
Qed.

Lemma e1000_init_run fuel pcif s M I bs ss p0 T R rxs txs rest :
  kmem_inv kend (km s) (p0 :: T :: R :: rxs ++ txs ++ rest) →
  length rxs = 64%nat → length txs = 64%nat →
  reg_base pcif = M :: I :: bs → reg_size pcif = 2 ^ 17 :: 64 :: ss →
  0xffff < M → 0 < I ≤ 0xffff → resets fuel M (hw s) →
  ∃ e mac s', e1000_init me kend fuel pcif s = Done ((0, e, mac), s') ∧
    initialised e s' M I T R rxs txs ∧ length mac = 6%nat ∧ mac_addr e = mac ∧
    pairwise_apart ((T, 2048) :: (R, 2048) :: buffer_areas (rxs ++ txs)) ∧
    kmem_inv kend (km s') rest ∧ ∀ addr, holds_mac fuel M addr → mac = addr.
Proof.
  intros Hi Hrx Htx Hb Hs HM HI Hreset. pose proof Hi as [_ Hpages Hnodup _].
  destruct (with_km_kalloc _ _ _ Hi) as (k0 & E0 & Hi0 & _ & _ & Hm0).
  unfold e1000_init, bind at 1. rewrite E0. unfold bind at 1, gets. cbn [km]. rewrite Hm0, Hb, Hs.
  set (ej := e1000_at (nmem s) p0).
  assert (scan_bars (zip (M :: I :: bs) (2 ^ 17 :: 64 :: ss)) ej
          = Done (set_iobase I (set_membase M ej))) as ->.
  { cbn [zip zip_with scan_bars]. destruct (Z.leb_spec M 0xffff); [lia|].
    destruct (Z.ltb_spec 0 M); [|lia]. cbn [zip zip_with scan_bars negb].
    change (2 ^ 17 =? Z.shiftl 1 17) with true. cbn [negb].
    by destruct (Z.leb_spec I 0xffff); [|lia]. }
  unfold lift_result, bind at 1, ret. cbn [iobase membase set_iobase set_membase].
  destruct (Z.eqb_spec I 0); [lia|]. destruct (Z.eqb_spec M 0); [lia|].
  cbv zeta. set (e2 := set_irq_reset _ _ _).
  destruct (Hreset e2 k0 eq_refl) as (h1 & E1). unfold bind at 1. rewrite E1.
  destruct (e1000_reg_read_run E1000_RCV_RAL0 e2 (mk_nst k0 h1)) as (vl & h2 & E2).
  unfold bind at 1. rewrite E2. cbn [km].
  destruct (e1000_reg_read_run E1000_RCV_RAH0 e2 (mk_nst k0 h2)) as (vh & h3 & E3).
  unfold bind at 1. rewrite E3. cbn [km].
  set (e3 := set_mac _ e2). set (mac := _ ++ _).
  destruct (rings_run M I T R rxs txs rest e3 (mk_nst k0 h3) mac) as (e & s' & E4 & Hin & Hi4 & Hmac); try done.
  exists e, mac, s'. split; [exact E4|]. split_and!; try done.
  - apply Forall_cons in Hpages as [_ Hpages]. apply NoDup_cons in Hnodup as [_ Hnodup].
    by apply (init_areas_apart kend T R rxs txs rest).
  - intros addr (Hal & Hab & Haddr). specialize (Haddr e2 k0 _ _ eq_refl E1).
    unfold e1000_reg_read, with_ports, with_pic, zoom in E2, E3. cbn [km hw] in E2, E3. change (membase e2) with M in E2, E3.
    destruct (mmio_read (u32 (M + E1000_RCV_RAL0)) (pic_ports h1)) as [l d] eqn:El. injection E2 as -> <-. cbn [pic_ports] in E3.
    destruct (mmio_read (u32 (M + E1000_RCV_RAH0)) d) as [l' d'] eqn:El'. injection E3 as -> _.
    cbn [fst] in Haddr. destruct Haddr as [-> Hh]. unfold mac. rewrite Hh. by apply mac_bytes.
Qed.

(** C13: initialising the card.  Given 131 free pages, a card with a 128 KB
    memory BAR followed by a 64-byte I/O BAR, and a reset that completes,
    [e1000_init] succeeds: both rings are 128 consecutive descriptors at the
    start of a page of their own, every receive descriptor in memory holds
    the physical address of its buffer, and the 2 rings and 256 packet
    buffers do not overlap each other or any page still free. *)
Theorem e1000_init_correct fuel pcif s M I bs ss p0 T R rxs txs rest :
  kmem_inv kend (km s) (p0 :: T :: R :: rxs ++ txs ++ rest) →
  length rxs = 64%nat → length txs = 64%nat →
  reg_base pcif = M :: I :: bs → reg_size pcif = 2 ^ 17 :: 64 :: ss →
  0xffff < M → 0 < I ≤ 0xffff → resets fuel M (hw s) →
  ∃ e mac s', e1000_init me kend fuel pcif s = Done ((0, e, mac), s') ∧
    initialised e s' M I T R rxs txs ∧ length mac = 6%nat ∧ mac_addr e = mac ∧
    pairwise_apart ((T, 2048) :: (R, 2048) :: buffer_areas (rxs ++ txs)) ∧
    kmem_inv kend (km s') rest.
Proof. intros. destruct (e1000_init_run fuel pcif s M I bs ss p0 T R rxs txs rest) as (e & mac & s' & Hr); try done. exists e, mac, s'. tauto. Qed.

End e1000_proofs.

(** ** A card *)

(** Enough of a card to reset and to transmit: while the head of the ring is not at the
    tail, each tick marks one descriptor done and advances the head. *)
Record card := mk_card { c_tdbal : Z; c_tdh : Z; c_tdt : Z }.
Definition card_base : Z := 0xfebc0000.

#[export] Instance card_mmio : Mmio card := {|
  mmio_read a c :=
    (if a =? card_base + E1000_RCV_RAL0 then 0x12005452 else if a =? card_base + E1000_RCV_RAH0 then 0x80005634 else 0, c);
  mmio_write a v c :=
    if a =? card_base + E1000_CNTRL_REG then
      if E1000_CNTRL_RST_BIT v =? 0 then c else mk_card 0 0 0
    else if a =? card_base + E1000_TDBAL then mk_card v (c_tdh c) (c_tdt c)
    else if a =? card_base + E1000_TDH then mk_card (c_tdbal c) v (c_tdt c)
    else if a =? card_base + E1000_TDT then mk_card (c_tdbal c) (c_tdh c) v
    else c;
|}.
#[export] Instance card_byte_ports : BytePorts card := {| inb _ c := (0, c); outb _ _ c := c |}.
#[export] Instance card_ticks : Ticks card := λ c m,
  if c_tdh c =? c_tdt c then (c, m)
  else (mk_card (c_tdbal c) ((c_tdh c + 1) mod 128) (c_tdt c),
        upd m (P2V (c_tdbal c + 16 * c_tdh c) + tbd_status) 1).

Definition demo_e1000 : e1000 :=
  mk_e1000 (ring 0x80200000) (ring 0x80201000) (replicate 128 0x80202000) (replicate 128 0x80203000)
    0 0 0 0 0xc000 card_base 11 1 [0x52; 0x54; 0; 0x12; 0x34; 0x56].
Definition demo_state : nst card :=
  mk_nst kmem0 (mk_pic pic_init_mask (mk_card 0x200000 0 0)).

Lemma e1000_send_correct_witness :
  ∃ s', e1000_send 3 demo_e1000 0x80300000 42 demo_state = Done (set_tbd_tail 1 demo_e1000, s').
Proof.
  destruct (e1000_send_correct demo_e1000 0x80300000 42 demo_state) as (m & s1 & _ & Hs1 & Hdone & _);
    [vm_compute; split; congruence|vm_compute; split; congruence|left; vm_compute; congruence
    |left; vm_compute; congruence|].
  destruct (Hdone 1%nat) as (k & _ & Hk).
  - rewrite Hs1. reflexivity.
  - eexists. exact (Hk 3%nat ltac:(lia)).
Defined.

Lemma card_resets (p : pic card) : resets 1 card_base p.
Proof.
  intros e [l u f m] Hm. destruct p as [mask c]. exists (mk_pic mask (mk_card 0 0 0)).
  unfold reset_card, wait_reset, e1000_reg_read, e1000_reg_write. rewrite Hm. by vm_compute.
Qed.

Lemma demo_pages_ok : Forall (page_ok 0x80108000) (pages_from 0x80200000 131).
Proof.
  apply Forall_forall. intros p (i & Hi & ->)%elem_of_pages_from.
  apply page_ok_range; unfold PGSIZE, KERNBASE, PHYSTOP; [|lia..].
  rewrite Z.mod_add by lia. reflexivity.
Qed.

Lemma e1000_init_correct_witness :
  ∃ k e mac s', e1000_init 0 0x80108000 1 (mk_pci_func 0 3 0 0x100e8086 0x02000000
      [card_base; 0xc000; 0; 0; 0; 0] [0x20000; 64; 0; 0; 0; 0] 11 1) (mk_nst k (hw demo_state))
    = Done ((0, e, mac), s') ∧ length mac = 6%nat ∧ tbd e = ring 0x80281000.
Proof.
  destruct (freerange_loop_run 0 0x80108000 131 132 0x80200000 (0x80200000 + 131 * PGSIZE) kmem0 [])
    as (k & _ & _ & Hk); [lia|unfold PGSIZE; lia|exact demo_pages_ok|set_solver|apply kmem0_inv|].
  set (ps := rev (pages_from 0x80200000 131) ++ []) in Hk.
  destruct (e1000_init_correct 0 0x80108000 1 (mk_pci_func 0 3 0 0x100e8086 0x02000000
      [card_base; 0xc000; 0; 0; 0; 0] [0x20000; 64; 0; 0; 0; 0] 11 1) (mk_nst k (hw demo_state))
    card_base 0xc000 [0; 0; 0; 0] [0; 0; 0; 0] 0x80282000 0x80281000 0x80280000
    (take 64 (drop 3 ps)) (take 64 (drop 67 ps)) []) as (e & mac & s' & E & Hin & Hl & _).
  - exact Hk.
  - reflexivity.
  - reflexivity.
  - reflexivity.
  - reflexivity.
  - reflexivity.
  - vm_compute. split; congruence.
  - apply card_resets.
  - exists k, e, mac, s'. split; [exact E|]. split; [exact Hl|]. apply Hin.
Defined.

(** The ring length registers take a number of bytes: 2048 for 128
    descriptors.  The driver writes that number shifted left by 7. *)
Lemma ring_length_registers e :
  E1000_TBD_SLOTS * sizeof_tbd = 2048 ∧
  (E1000_TDLEN, 128 * 2048) ∈ ring_registers e ∧ (E1000_RDLEN, 128 * 2048) ∈ ring_registers e.
Proof. split; [done|]. split; repeat constructor. Qed.

(** [e1000_init] takes its struct from [kalloc] without clearing it, and a
    page from [kalloc] holds the fill of [kfree].  When the first BAR is the
    I/O region, no register memory has been found, but [membase] is not
    zero, so the check after the loop does not notice. *)
Lemma membase_junk_not_detected me kend k l p k' base bs ss :
  kmem_inv kend k l → page_ok kend p → kfree me kend p k = Done (tt, k') → base ≤ 0xffff →
  ∃ e, scan_bars (zip (base :: bs) (64 :: ss)) (e1000_at (kmem_mem k') p) = Done e ∧
    membase e = 0x01010101 ∧ membase e ≠ 0.
Proof.
  intros [_ _ _ Hf] Hp Hk Hb. rewrite kfree_run in Hk by done. injection Hk as <-.
  cbn [zip zip_with scan_bars]. destruct (Z.leb_spec base 0xffff); [|lia]. cbn [Z.eqb negb].
  eexists. split; [reflexivity|].
  cbn [membase set_iobase kmem_mem].
  enough (membase (e1000_at (store32 (memset p 1 PGSIZE (kmem_mem k)) p (freelist k)) p) = 0x01010101)
    as E by (by rewrite E).
  cbn [e1000_at membase]. unfold load32.
  rewrite !store32_other, !memset_spec by (unfold PGSIZE; lia).
  unfold PGSIZE. repeat (case_decide; [|lia]). reflexivity.
Qed.
