(* ===== verification/Net.v ===== *)
(** * nic.c, arp.c, and the bus walk of pci.c

    The network stack above the card: the table of network devices, device
    discovery ([pci_init] down to [e1000_attach]), and sending an ARP
    request.  The state is the driver's ([nst]) and the one-entry table
    [nic_devices].  Text the code prints on the console is left out. *)

From S2P Require Import Prelude CString Arp Spinlock Mmu Kalloc Pci Irq E1000.

(** ** nic.c *)

(** The functions the [send_packet] and [recv_packet] pointers can be. *)
Inductive packet_fn := Fn_e1000_send | Fn_e1000_recv.

(** [nd_driver] is [None] when the pointer was never set. *)
Record nic_device := mk_nic_device {
  nd_driver : option e1000;
  nd_mac_addr : list Z;
  send_packet : option packet_fn;
  recv_packet : option packet_fn;
}.

Record net (H : Type) := mk_net { ns : nst H; nic0 : nic_device }.
Arguments mk_net {H}.
Arguments ns {H}.
Arguments nic0 {H}.

(** [nic_devices] is a global: all zero at boot. *)
Definition no_nic : nic_device := mk_nic_device None (replicate 6 0) None None.

Section net.
Context {H : Type} `{!Mmio H, !BytePorts H, !Ticks H, !PciPorts H} (me : nat) (kend : Z).

Definition with_ns {A} (m : M (nst H) A) : M (net H) A := zoom ns (λ s n, mk_net s (nic0 n)) m.
Definition with_pci {A} (m : M H A) : M (net H) A := with_ns (with_ports m).

Definition get_device (interface : list Z) : M (net H) (Z * option nic_device) :=
  nd <- gets nic0;;
  match send_packet nd, recv_packet nd with
  | Some _, Some _ => ret (0, Some nd)
  | _, _ => ret (-1, None)
  end.

Definition register_device (nd : nic_device) : M (net H) unit :=
  modify (λ n, mk_net (ns n) nd).

(** ** Device discovery *)

Definition e1000_attach (fuel : nat) (pcif : pci_func) : M (net H) Z :=
  pcif' <- with_pci (pci_enable_device pcif);;
  r <- with_ns (e1000_init me kend fuel pcif');;
  let '(rc, e, mac) := r in
  let driver := if rc =? 0 then Some e else None in
  register_device (mk_nic_device driver mac (Some Fn_e1000_send) (Some Fn_e1000_recv));;
  ret 0.

(** A row of [pci_attach_vendor_based]. *)
Record pci_driver := mk_pci_driver { key1 : Z; key2 : Z; attachfn : pci_func → M (net H) Z }.

Definition pci_attach_vendor_based (fuel : nat) : list pci_driver :=
  [mk_pci_driver 0x8086 0x100e (e1000_attach fuel)].

(** The table ends with a row without [attachfn]. *)
Fixpoint pci_attach_nic (table : list pci_driver) (pcif : pci_func) : M (net H) unit :=
  match table with
  | [] => ret tt
  | row :: table' =>
      (if (key1 row =? PCI_VENDOR (dev_id pcif)) && (key2 row =? PCI_PRODUCT (dev_id pcif))
       then _ <- attachfn row pcif;; ret tt
       else ret tt);;
      pci_attach_nic table' pcif
  end.

Definition set_dev_id v f := mk_pci_func (busno f) (pf_dev f) (pf_func f) v (dev_class f)
  (reg_base f) (reg_size f) (irq_line f) (irq_pin f).
Definition set_irq l p f := mk_pci_func (busno f) (pf_dev f) (pf_func f) (dev_id f) (dev_class f)
  (reg_base f) (reg_size f) l p.
Definition set_dev_class v f := mk_pci_func (busno f) (pf_dev f) (pf_func f) (dev_id f) v
  (reg_base f) (reg_size f) (irq_line f) (irq_pin f).
(** The struct after [memset(&df, 0, sizeof(df))] with the loop counters. *)
Definition blank_func (bus dev func : Z) : pci_func :=
  mk_pci_func bus dev func 0 0 (replicate 6 0) (replicate 6 0) 0 0.

Definition probe_func (table : list pci_driver) (bus dev func : Z) : M (net H) unit :=
  let f := blank_func bus dev func in
  id <- with_pci (pci_conf_read f PCI_ID_REG);;
  let af := set_dev_id id f in
  if PCI_VENDOR (dev_id af) =? 0xffff then ret tt
  else
    intr <- with_pci (pci_conf_read af PCI_INTERRUPT_REG);;
    let af := set_irq (PCI_INTERRUPT_LINE intr) (PCI_INTERRUPT_PIN intr) af in
    class <- with_pci (pci_conf_read af PCI_CLASS_REG);;
    let af := set_dev_class class af in
    when (PCI_CLASS (dev_class af) =? PCI_DEVICE_CLASS_NETWORK_CONTROLLER) (pci_attach_nic table af).

Fixpoint enumerate_devs (n : nat) (table : list pci_driver) (bus dev totaldev : Z) : M (net H) Z :=
  match n with
  | O => ret totaldev
  | S n' =>
      bhlc <- with_pci (pci_conf_read (blank_func bus dev 0) PCI_BHLC_REG);;
      if 1 <? PCI_HDRTYPE_TYPE bhlc then enumerate_devs n' table bus (dev + 1) totaldev
      else
        for_ (if PCI_HDRTYPE_MULTIFN bhlc then 8 else 1) 0 (probe_func table bus dev);;
        enumerate_devs n' table bus (dev + 1) (totaldev + 1)
  end.

Definition pci_enumerate_bus (table : list pci_driver) (bus : Z) : M (net H) Z :=
  enumerate_devs (Z.to_nat MAX_DEVICE_PER_PCI_BUS) table bus 0 0.

Definition pci_init (fuel : nat) : M (net H) Z :=
  pci_enumerate_bus (pci_attach_vendor_based fuel) 0.

(** ** arp.c *)

(** What the call finds on its stack: the address and the old contents of
    [eth], the old contents of [arpResponse], and the uninitialised arrays of
    the two [get_ip] calls. *)
Record arp_frame_locals := mk_arp_locals {
  eth_p : Z;
  eth0 : ethr_hdr;
  arpResponse0 : ethr_hdr;
  ip_arr0 : list Z;
  ip_vals0 : list Z;
}.

Definition block_until_arp_reply (arpReply : ethr_hdr) : M (net H) (Z * ethr_hdr) :=
  ret (0, arpReply).

Definition call_send_packet (fuel : nat) (nd : nic_device) (pkt length : Z) : M (net H) unit :=
  match send_packet nd, nd_driver nd with
  | Some Fn_e1000_send, Some e =>
      e' <- with_ns (e1000_send fuel e pkt length);;
      register_device (mk_nic_device (Some e') (nd_mac_addr nd) (send_packet nd) (recv_packet nd))
  | Some Fn_e1000_recv, Some e => with_ns (e1000_recv e pkt length)
  | _, _ => fail (EOob "driver")
  end.

Definition send_arpRequest (fuel : nat) (l : arp_frame_locals) (interface ipAddr : list Z)
    (arpResp : Z) : M (net H) Z :=
  r <- get_device interface;;
  match r with
  | (_, None) => ret (-1)
  | (_, Some nd) =>
      e <- with_ns (lift_result (create_eth_arp_frame (ip_arr0 l) (ip_vals0 l) (nd_mac_addr nd) ipAddr (eth0 l)));;
      with_ns (with_mem (write_bytes (eth_p l) (ethr_bytes (snd e))));;
      call_send_packet fuel nd (eth_p l) (sizeof_ethr_hdr - 2);;
      r <- block_until_arp_reply (arpResponse0 l);;
      if fst r <? 0 then ret (-3)
      else
        with_ns (with_mem (unpack_mac (arp_dmac (snd r)) arpResp));;
        with_ns (with_mem (λ m, upd m (arpResp + 17) 0));;
        ret 0
  end.

End net.

(** ** What is on the bus *)

(** The header registers, by device, function and offset. *)
Definition headers := Z → Z → Z → Z.

Definition described (h : headers) (bus dev func : Z) : pci_func :=
  set_dev_class (h dev func PCI_CLASS_REG)
    (set_irq (PCI_INTERRUPT_LINE (h dev func PCI_INTERRUPT_REG))
             (PCI_INTERRUPT_PIN (h dev func PCI_INTERRUPT_REG))
      (set_dev_id (h dev func PCI_ID_REG) (blank_func bus dev func))).

(** A function that is present and a network controller. *)
Definition is_nic (h : headers) (dev func : Z) : bool :=
  negb (PCI_VENDOR (h dev func PCI_ID_REG) =? 0xffff) &&
  (PCI_CLASS (h dev func PCI_CLASS_REG) =? PCI_DEVICE_CLASS_NETWORK_CONTROLLER).

Definition is_dev (h : headers) (dev : Z) : bool := PCI_HDRTYPE_TYPE (h dev 0 PCI_BHLC_REG) <=? 1.
Definition num_funcs (h : headers) (dev : Z) : nat :=
  if PCI_HDRTYPE_MULTIFN (h dev 0 PCI_BHLC_REG) then 8 else 1.

Fixpoint nics_of_dev (h : headers) (bus dev : Z) (n : nat) (func : Z) : list pci_func :=
  match n with
  | O => []
  | S n' => (if is_nic h dev func then [described h bus dev func] else [])
            ++ nics_of_dev h bus dev n' (func + 1)
  end.

(** The network controllers among devices [dev], ..., [dev + n - 1], in bus
    order, and the number of devices there. *)
Fixpoint nics_on_bus (h : headers) (bus : Z) (n : nat) (dev : Z) : list pci_func :=
  match n with
  | O => []
  | S n' => (if is_dev h dev then nics_of_dev h bus dev (num_funcs h dev) 0 else [])
            ++ nics_on_bus h bus n' (dev + 1)
  end.
Fixpoint devs_on_bus (h : headers) (n : nat) (dev : Z) : Z :=
  match n with O => 0 | S n' => (if is_dev h dev then 1 else 0) + devs_on_bus h n' (dev + 1) end.

(** The header registers the walk reads. *)
Definition header_off (off : Z) : Prop :=
  off = PCI_ID_REG ∨ off = PCI_CLASS_REG ∨ off = PCI_BHLC_REG ∨ off = PCI_INTERRUPT_REG.

Section discovery.
Context {H : Type} `{!Mmio H, !BytePorts H, !Ticks H, !PciPorts H}.
Context {conf : H → Z → Z} {wmask : Z → Z} `{!ConfigMechanism H conf wmask}.
Context (table : list (@pci_driver H)) (bus : Z) (h : headers).

Definition conf_of (n : net H) : Z → Z := conf (pic_ports (hw (ns n))).

(** [P todo n]: the controllers in [todo] have not been attached yet. *)
Context (P : list pci_func → net H → Prop).
Hypothesis P_headers : ∀ todo n dev func off, P todo n →
  0 ≤ dev < 32 → 0 ≤ func < 8 → header_off off →
  conf_of n (conf_addr (blank_func bus dev func) off) = h dev func off.
Hypothesis P_conf : ∀ todo n n', P todo n → km (ns n') = km (ns n) → nic0 n' = nic0 n →
  irqmask (hw (ns n')) = irqmask (hw (ns n)) → (∀ a, conf_of n' a = conf_of n a) → P todo n'.
Hypothesis P_attach : ∀ f todo n, P (f :: todo) n →
  ∃ n', pci_attach_nic table f n = Done (tt, n') ∧ P todo n'.

Lemma header_read_run todo n f dev func off :
  P todo n → busno f = bus → pf_dev f = dev → pf_func f = func →
  0 ≤ dev < 32 → 0 ≤ func < 8 → header_off off →
  ∃ n', with_pci (pci_conf_read f off) n = Done (h dev func off, n') ∧ P todo n'.
Proof.
  intros HP <- <- <- Hdev Hfun Hoff. destruct (pci_conf_read_run (conf := conf) (wmask := wmask) f off (pic_ports (hw (ns n))))
    as (d & E & Hd).
  exists (mk_net (mk_nst (km (ns n)) (mk_pic (irqmask (hw (ns n))) d)) (nic0 n)). split.
  - unfold with_pci, with_ns, with_ports, with_pic, zoom. rewrite E.
    by rewrite <-(P_headers todo n (pf_dev f) (pf_func f) off HP Hdev Hfun Hoff).
  - eapply P_conf; [exact HP|done..].
Qed.

Lemma probe_func_run dev func todo n :
  0 ≤ dev < 32 → 0 ≤ func < 8 →
  P ((if is_nic h dev func then [described h bus dev func] else []) ++ todo) n →
  ∃ n', probe_func table bus dev func n = Done (tt, n') ∧ P todo n'.
Proof.
  intros Hdev Hfun HP. unfold probe_func, is_nic in *. cbv zeta.
  destruct (header_read_run _ n (blank_func bus dev func) dev func PCI_ID_REG HP) as (n1 & E1 & HP1); [done || lia || (unfold header_off; tauto)..|].
  unfold bind at 1. rewrite E1. cbn [dev_id set_dev_id].
  destruct (PCI_VENDOR _ =? 0xffff); cbn [negb andb] in HP1; [by exists n1|].
  destruct (header_read_run _ n1 (set_dev_id (h dev func PCI_ID_REG) (blank_func bus dev func))
    dev func PCI_INTERRUPT_REG HP1) as (n2 & E2 & HP2); [done || (unfold header_off; tauto)..|].
  unfold bind at 1. rewrite E2.
  set (af := set_irq _ _ _). destruct (header_read_run _ n2 af dev func PCI_CLASS_REG HP2)
    as (n3 & E3 & HP3); [done || (unfold header_off; tauto)..|].
  unfold bind. rewrite E3. cbn [dev_class set_dev_class].
  destruct (PCI_CLASS _ =? _); cbn [when] in *; [|by exists n3].
  destruct (P_attach _ _ _ HP3) as (n4 & E4 & HP4). by exists n4.
Qed.

Lemma probe_funcs_run dev k func todo n :
  0 ≤ dev < 32 → 0 ≤ func → func + Z.of_nat k ≤ 8 →
  P (nics_of_dev h bus dev k func ++ todo) n →
  ∃ n', for_ k func (probe_func table bus dev) n = Done (tt, n') ∧ P todo n'.
Proof.
  intros Hdev. revert func n. induction k as [|k IH]; intros func n Hf Hk HP; cbn [nics_of_dev for_] in *; [by exists n|].
  rewrite <-app_assoc in HP. destruct (probe_func_run dev func _ _ Hdev ltac:(lia) HP) as (n1 & E1 & HP1).
  unfold bind. rewrite E1. apply IH; [lia|lia|done].
Qed.

Lemma enumerate_devs_run k dev total todo n :
  0 ≤ dev → dev + Z.of_nat k ≤ 32 →
  P (nics_on_bus h bus k dev ++ todo) n →
  ∃ n', enumerate_devs k table bus dev total n = Done (total + devs_on_bus h k dev, n') ∧ P todo n'.
Proof.
  revert dev total n. induction k as [|k IH]; intros dev total n Hd Hk HP;
    cbn [nics_on_bus devs_on_bus enumerate_devs] in *.
  { exists n. by rewrite Z.add_0_r. }
  rewrite <-app_assoc in HP.
  destruct (header_read_run _ n (blank_func bus dev 0) dev 0 PCI_BHLC_REG HP) as (n1 & E1 & HP1); [done || lia || (unfold header_off; tauto)..|].
  unfold bind at 1. rewrite E1. unfold is_dev in *. rewrite Z.ltb_antisym.
  destruct (PCI_HDRTYPE_TYPE _ <=? 1); cbn [negb].
  - destruct (probe_funcs_run dev (num_funcs h dev) 0 (nics_on_bus h bus k (dev + 1) ++ todo) n1) as (n2 & E2 & HP2);
      [lia|lia|unfold num_funcs; case_match; lia|done|]. unfold num_funcs in E2.
    unfold bind. rewrite E2. destruct (IH (dev + 1) (total + 1) n2 ltac:(lia) ltac:(lia) HP2) as (n3 & E3 & HP3).
    exists n3. by rewrite E3, Z.add_assoc.
  - destruct (IH (dev + 1) total n1 ltac:(lia) ltac:(lia) HP1) as (n2 & E2 & HP2). exists n2. by rewrite E2.
Qed.

End discovery.

(** ** Configuration space is separate

    Memory-mapped and byte-port accesses, and the card's own activity, do not
    change configuration registers. *)

Class SeparateSpaces (H : Type) `{!Mmio H, !BytePorts H, !Ticks H} (conf : H → Z → Z) := {
  ss_mmio_write a v d r : conf (mmio_write a v d) r = conf d r;
  ss_mmio_read a d r : conf (snd (mmio_read a d)) r = conf d r;
  ss_outb a v d r : conf (outb a v d) r = conf d r;
  ss_inb a d r : conf (snd (inb a d)) r = conf d r;
  ss_tick d m r : conf (fst (tick d m)) r = conf d r;
}.

Section separate.
Context {H : Type} `{!Mmio H, !BytePorts H, !Ticks H} {conf : H → Z → Z}.
Context `{!SeparateSpaces H conf} (me : nat) (kend : Z).

(** [m] leaves configuration space alone. *)
Definition keeps_conf {A} (m : M (nst H) A) : Prop :=
  ∀ s a s', m s = Done (a, s') → ∀ r, conf (pic_ports (hw s')) r = conf (pic_ports (hw s)) r.

Lemma keeps_bind {A B} (m : M (nst H) A) (f : A → M (nst H) B) :
  keeps_conf m → (∀ a, keeps_conf (f a)) → keeps_conf (bind m f).
Proof.
  intros Hm Hf s b s' E r. unfold bind in E. destruct (m s) as [[a s1]|] eqn:E1; [|done].
  by rewrite (Hf _ _ _ _ E), (Hm _ _ _ E1).
Qed.

Lemma keeps_ret {A} (a : A) : keeps_conf (ret a).
Proof. intros s b s' E r. by injection E as _ <-. Qed.
Lemma keeps_fail {A} e : keeps_conf (fail (A:=A) e).
Proof. done. Qed.
Lemma keeps_gets {A} (f : nst H → A) : keeps_conf (gets f).
Proof. intros s b s' E r. by injection E as _ <-. Qed.
Lemma keeps_with_mem f : keeps_conf (with_mem f).
Proof. intros s b s' E r. by injection E as _ <-. Qed.
Lemma keeps_with_km {A} (m : M kmem A) : keeps_conf (with_km m).
Proof.
  intros s a s' E r. unfold with_km, zoom in E. destruct (m (km s)) as [[b k]|]; [|done].
  by injection E as _ <-.
Qed.
Lemma keeps_lift {A} (r : result A) : keeps_conf (lift_result r).
Proof. destruct r; [apply keeps_ret|done]. Qed.
Lemma keeps_reg_write r v e : keeps_conf (e1000_reg_write r v e).
Proof. intros s b s' E q. injection E as <- <-. apply ss_mmio_write. Qed.
Lemma keeps_reg_read r e : keeps_conf (e1000_reg_read r e).
Proof.
  intros s b s' E q. unfold e1000_reg_read, with_ports, with_pic, zoom in E.
  pose proof (ss_mmio_read (u32 (membase e + r)) (pic_ports (hw s)) q) as Hq.
  destruct (mmio_read _ _). by injection E as <- <-.
Qed.
Lemma keeps_delay : keeps_conf delay_inb.
Proof.
  intros s b s' E q. rewrite delay_inb_run in E. injection E as _ <-. unfold tick_state.
  pose proof (ss_inb 0x84 (pic_ports (hw s)) q) as H1.
  pose proof (ss_tick (snd (inb 0x84 (pic_ports (hw s)))) (kmem_mem (km s)) q) as H2.
  destruct (tick _ _). simpl in *. by rewrite H2, H1.
Qed.
Lemma keeps_picenable irq : keeps_conf (with_pic (picenable irq)).
Proof. intros s b s' E q. injection E as <- <-. simpl. by rewrite !ss_outb. Qed.
Lemma keeps_ioapicenable irq c : keeps_conf (with_ports (ioapicenable irq c)).
Proof. intros s b s' E q. injection E as <- <-. simpl. by rewrite !ss_mmio_write. Qed.

Create HintDb keeps.
Hint Resolve keeps_bind keeps_ret keeps_fail keeps_gets keeps_with_mem keeps_with_km keeps_lift
  keeps_reg_write keeps_reg_read keeps_delay keeps_picenable keeps_ioapicenable : keeps.

Lemma keeps_udelay u : keeps_conf (udelay u).
Proof. unfold udelay. generalize 0. induction u; intros i; cbn [for_]; auto with keeps. Qed.
Hint Resolve keeps_udelay : keeps.

Lemma keeps_wait_reset fuel e : keeps_conf (wait_reset fuel e).
Proof.
  induction fuel; cbn [wait_reset]; [auto with keeps|].
  apply keeps_bind; [auto with keeps|intros _]. apply keeps_bind; [auto with keeps|intros r].
  destruct (negb _); auto with keeps.
Qed.
Lemma keeps_write_registers ws e : keeps_conf (write_registers ws e).
Proof. induction ws as [|[r v] ws IH]; cbn [write_registers]; auto with keeps. Qed.
Lemma keeps_rx_loop n i e : keeps_conf (rx_loop me n i e).
Proof. revert i e. induction n; intros i e; cbn [rx_loop]; auto 20 with keeps. Qed.
Lemma keeps_tx_loop n i e : keeps_conf (tx_loop me n i e).
Proof. revert i e. induction n; intros i e; cbn [tx_loop]; auto 20 with keeps. Qed.
Hint Resolve keeps_wait_reset keeps_write_registers keeps_rx_loop keeps_tx_loop : keeps.

Lemma keeps_reset_card fuel e : keeps_conf (reset_card fuel e).
Proof. unfold reset_card. auto 10 with keeps. Qed.
Hint Resolve keeps_reset_card : keeps.

Lemma keeps_setup_rings e mac : keeps_conf (setup_rings me kend e mac).
Proof.
  unfold setup_rings. cbv zeta. apply keeps_bind; [auto with keeps|intros t].
  destruct (negb _); [auto with keeps|]. apply keeps_bind; [auto with keeps|intros r].
  destruct (negb _); auto 20 with keeps.
Qed.
Hint Resolve keeps_setup_rings : keeps.

Lemma keeps_e1000_init fuel pcif : keeps_conf (e1000_init me kend fuel pcif).
Proof.
  unfold e1000_init. cbv zeta. do 3 (apply keeps_bind; [auto with keeps|intros ?]).
  repeat (destruct (_ =? 0); [apply keeps_fail|]). auto 20 with keeps.
Qed.

End separate.

(** ** Bringing up the card *)

Section bring_up.
Context {H : Type} `{!Mmio H, !BytePorts H, !Ticks H, !PciPorts H}.
Context {conf : H → Z → Z} {wmask : Z → Z}.
Context `{!ConfigMechanism H conf wmask, !SeparateSpaces H conf}.
Context (me : nat) (kend : Z) (fuel : nat) (h : headers) (dev func : Z).
Context (M I : Z) (prefetch : bool) (bars : list bar) (addr : list Z) (p0 T R : Z) (rxs txs rest : list Z).

Abbreviation the_func := (described h 0 dev func).

(** I/O ports, memory, and access to memory by the card itself. *)
Definition enable_bits : Z := 1 + 2 + 4.

(** The enable bits of the card's command register are all set. *)
Definition card_enabled (n : net H) : Prop :=
  Z.land (conf_of (conf := conf) n (conf_addr the_func PCI_COMMAND_STATUS_REG)) enable_bits = enable_bits.

(** The machine: exactly one network controller on bus 0, an 82540EM at
    [dev]:[func] with 128 KB of registers at [M], 64 bytes of ports at [I], the
    address [addr], and a command register whose enable bits can be written;
    131 free pages, and a card whose reset completes. *)
Record bootable : Prop := {
  bt_only : nics_on_bus h 0 32 0 = [the_func];
  bt_range : 0 ≤ dev < 32 ∧ 0 ≤ func < 8;
  bt_vendor : PCI_VENDOR (h dev func PCI_ID_REG) = 0x8086;
  bt_product : PCI_PRODUCT (h dev func PCI_ID_REG) = 0x100e;
  bt_bars : total_regs (BarMem 17 false prefetch M :: BarIo 6 I :: bars) = 6%nat;
  bt_mem : 0xffff < M;
  bt_io : 0 < I ≤ 0xffff;
  bt_rx : length rxs = 64%nat;
  bt_tx : length txs = 64%nat;
  bt_reset : ∀ p, resets fuel M p;
  bt_addr : holds_mac fuel M addr;
  bt_command : Z.land enable_bits (wmask (conf_addr the_func PCI_COMMAND_STATUS_REG)) = enable_bits;
}.

Definition headers_ok (n : net H) : Prop :=
  ∀ d f off, 0 ≤ d < 32 → 0 ≤ f < 8 → header_off off →
    conf_of (conf := conf) n (conf_addr (blank_func 0 d f) off) = h d f off.

(** What holds before and after the card is attached. *)
Definition boot_inv (todo : list pci_func) (n : net H) : Prop :=
  headers_ok n ∧
  match todo with
  | [] => card_enabled n ∧
      ∃ e, nic0 n = mk_nic_device (Some e) addr (Some Fn_e1000_send) (Some Fn_e1000_recv) ∧
            initialised e (ns n) M I T R rxs txs ∧ mac_addr e = addr ∧ kmem_inv kend (km (ns n)) rest
  | f :: todo' => f = the_func ∧ todo' = [] ∧
      bars_at (conf_of (conf := conf) n) wmask the_func PCI_MAPREG_START
        (BarMem 17 false prefetch M :: BarIo 6 I :: bars) ∧
      kmem_inv kend (km (ns n)) (p0 :: T :: R :: rxs ++ txs ++ rest)
  end.

Lemma boot_inv_conf todo n n' :
  boot_inv todo n → km (ns n') = km (ns n) → nic0 n' = nic0 n →
  (∀ a, conf_of (conf := conf) n' a = conf_of (conf := conf) n a) → boot_inv todo n'.
Proof.
  intros [Hh Ht] Hk Hn Hc. split.
  - intros d f off Hd Hf Ho. rewrite Hc. by apply Hh.
  - destruct todo as [|f todo].
    + destruct Ht as (He & e & E & [] & Hl & Hi). split; [unfold card_enabled; by rewrite Hc|]. exists e. rewrite Hn, Hk.
      split_and!; [done| |done|done]. split; try done. by rewrite Hk.
    + destruct Ht as (-> & -> & Hb & Hi). rewrite Hk. split_and!; [done|done| |done].
      eapply bars_at_ext; [|done|exact Hb]. done.
Qed.

Lemma header_ne_command d f off :
  0 ≤ d < 32 → 0 ≤ f < 8 → header_off off → 0 ≤ dev < 32 → 0 ≤ func < 8 →
  conf_addr (blank_func 0 d f) off ≠ conf_addr the_func PCI_COMMAND_STATUS_REG.
Proof.
  intros Hd Hf Ho Hdev Hfun. unfold conf_addr. cbn [busno pf_dev pf_func described set_dev_class
    set_irq set_dev_id blank_func].
  unfold header_off, PCI_ID_REG, PCI_CLASS_REG, PCI_BHLC_REG, PCI_INTERRUPT_REG, PCI_COMMAND_STATUS_REG in *.
  rewrite !pci_config_format_addr_sum by (unfold dev_in_range; lia). lia.
Qed.

Lemma regions_head :
  ∃ bs ss, reg_base (set_regions 0 (BarMem 17 false prefetch M :: BarIo 6 I :: bars) the_func) = M :: I :: bs ∧
    reg_size (set_regions 0 (BarMem 17 false prefetch M :: BarIo 6 I :: bars) the_func) = 2 ^ 17 :: 64 :: ss.
Proof.
  cbn [set_regions bar_regs]. set (f := set_region _ _ _ (set_region _ _ _ _)).
  assert (∃ bs ss, reg_base f = M :: I :: bs ∧ reg_size f = 2 ^ 17 :: 64 :: ss) as Hf
    by (by eexists _, _).
  assert (2 ≤ 0 + Z.of_nat 1 + Z.of_nat 1) as Hi by lia. revert Hf Hi.
  generalize (0 + Z.of_nat 1 + Z.of_nat 1) f. induction bars as [|b bs IH]; intros i g Hg Hi; [done|].
  cbn [set_regions]. apply IH; [|lia]. destruct b as [|k w p base|k base]; [done| |];
    destruct Hg as (xs & ys & E1 & E2); unfold set_region; cbn [reg_base reg_size];
    rewrite E1, E2; replace (Z.to_nat i) with (S (S (Z.to_nat (i - 2)))) by lia; by eexists _, _.
Qed.

Lemma enable_bits_set x : Z.land (Z.lor enable_bits x) enable_bits = enable_bits.
Proof.
  apply Z.bits_inj'. intros i _. rewrite Z.land_spec, Z.lor_spec. by destruct (Z.testbit enable_bits i), (Z.testbit x i).
Qed.

Lemma e1000_attach_run todo n :
  bootable → boot_inv (the_func :: todo) n →
  ∃ n', e1000_attach me kend fuel the_func n = Done (0, n') ∧ boot_inv todo n'.
Proof.
  intros Hb (Hh & _ & -> & Hbars & Hi). destruct Hb as [_ [Hdev Hfun] _ _ Hregs HM HI Hrx Htx Hreset Haddr Hcmd].
  destruct (pci_enable_device_run (conf := conf) (wmask := wmask)
    (BarMem 17 false prefetch M :: BarIo 6 I :: bars) the_func (pic_ports (hw (ns n)))) as (d1 & E1 & C1);
    [repeat split; simpl; lia|exact Hbars|exact Hregs|].
  destruct regions_head as (bs & ss & Hbase & Hsize).
  set (f1 := set_regions 0 _ the_func) in *.
  set (s1 := mk_nst (km (ns n)) (mk_pic (irqmask (hw (ns n))) d1)).
  destruct (e1000_init_run me kend fuel f1 s1 M I bs ss p0 T R rxs txs rest)
    as (e & mac & s2 & E2 & Hin & Hl & Hmac & _ & Hi2 & Hpin); try done. apply Hpin in Haddr as ->.
  exists (mk_net s2 (mk_nic_device (Some e) addr (Some Fn_e1000_send) (Some Fn_e1000_recv))).
  split.
  - unfold e1000_attach. unfold bind at 1. unfold with_pci at 1, with_ns at 1, with_ports, with_pic, zoom.
    rewrite E1. fold s1. unfold bind, with_ns, zoom. cbn [ns]. rewrite E2. done.
  - split; [|split; [|by exists e]].
    2: { unfold card_enabled, conf_of. cbn [ns]. rewrite (keeps_e1000_init me kend fuel f1 _ _ _ E2). unfold s1. cbn [hw pic_ports].
         rewrite C1, Z.eqb_refl. change 7 with enable_bits. rewrite Hcmd. apply enable_bits_set. }
    intros d f off Hd Hf Ho. unfold conf_of. cbn [ns].
    rewrite (keeps_e1000_init me kend fuel f1 _ _ _ E2). unfold s1. cbn [hw pic_ports]. rewrite C1.
    destruct (Z.eqb_spec (conf_addr (blank_func 0 d f) off) (conf_addr the_func PCI_COMMAND_STATUS_REG)) as [E|_];
      [by apply header_ne_command in E|by apply Hh].
Qed.

(** C2: bringing up the network.  On a machine whose bus 0 has exactly one
    network controller, an 82540EM with its two regions, [pci_init] walks
    the bus, returns the number of devices on it, finds the card wherever it
    is, sets the I/O, memory and bus master bits of its command register, and
    leaves it registered as network device 0 with the address of its EEPROM
    and with its rings and buffers set up. *)
Theorem pci_init_brings_up_card n :
  bootable → headers_ok n →
  bars_at (conf_of (conf := conf) n) wmask the_func PCI_MAPREG_START
    (BarMem 17 false prefetch M :: BarIo 6 I :: bars) →
  kmem_inv kend (km (ns n)) (p0 :: T :: R :: rxs ++ txs ++ rest) →
  ∃ n' e, pci_init me kend fuel n = Done (devs_on_bus h 32 0, n') ∧ card_enabled n' ∧
    nic0 n' = mk_nic_device (Some e) addr (Some Fn_e1000_send) (Some Fn_e1000_recv) ∧
    initialised e (ns n') M I T R rxs txs ∧ mac_addr e = addr ∧ kmem_inv kend (km (ns n')) rest.
Proof.
  intros Hb Hh Hbars Hi.
  destruct (enumerate_devs_run (conf := conf) (wmask := wmask) (pci_attach_vendor_based me kend fuel) 0 h boot_inv)
    with (k := 32%nat) (dev := 0) (total := 0) (todo := @nil pci_func) (n := n) as (n' & E & Ht).
  - intros todo n1 d f off [Hh1 _] Hd Hf Ho. by apply Hh1.
  - intros todo n1 n2 HP Hk Hn _ Hc. by apply (boot_inv_conf todo n1).
  - intros f todo n1 HP. assert (f = the_func) as -> by apply HP.
    destruct (e1000_attach_run todo n1 Hb HP) as (n2 & E2 & HP2). exists n2. split; [|done].
    unfold pci_attach_vendor_based. cbn [pci_attach_nic key1 key2 attachfn].
    change (dev_id the_func) with (h dev func PCI_ID_REG).
    rewrite (bt_vendor Hb), (bt_product Hb). unfold bind. cbn [Z.eqb andb]. simpl. by rewrite E2.
  - lia.
  - lia.
  - rewrite (bt_only Hb), app_nil_r. by split_and!.
  - destruct Ht as (_ & He & e & Hn & Hin & Hl & Hi'). exists n', e. by split_and!.
Qed.

End bring_up.

(** ** Sending an ARP request *)

Section arp.
Context {H : Type} `{!Mmio H, !BytePorts H, !Ticks H, !PciPorts H}.

(** The state of a machine with the card registered. *)
Definition registered (e : e1000) (mac : list Z) (n : net H) : Prop :=
  nic0 n = mk_nic_device (Some e) mac (Some Fn_e1000_send) (Some Fn_e1000_recv).

Definition locals_ok (l : arp_frame_locals) : Prop :=
  length (ip_arr0 l) = 4%nat ∧ length (ip_vals0 l) = 4%nat ∧
  length (dmac (eth0 l)) = 6%nat ∧ length (smac (eth0 l)) = 6%nat ∧
  length (arp_smac (eth0 l)) = 6%nat ∧ length (arp_dmac (eth0 l)) = 6%nat.

#[local] Opaque unpack_mac e1000_send.

(** The part of [send_arpRequest] after the frame was built. *)
Lemma send_arpRequest_unfold fuel l interface ip arpResp e mac n eth :
  registered e mac n →
  create_eth_arp_frame (ip_arr0 l) (ip_vals0 l) mac ip (eth0 l) = Done (0, eth) →
  let s0 := mk_nst (set_kmem_mem (write_bytes (eth_p l) (ethr_bytes eth) (kmem_mem (km (ns n)))) (km (ns n)))
              (hw (ns n)) in
  send_arpRequest fuel l interface ip arpResp n =
  match e1000_send fuel e (eth_p l) 42 s0 with
  | Done (e', s1) =>
      Done (0, mk_net (mk_nst (set_kmem_mem (upd (unpack_mac (arp_dmac (arpResponse0 l)) arpResp
                 (kmem_mem (km s1))) (arpResp + 17) 0) (km s1)) (hw s1))
               (mk_nic_device (Some e') mac (Some Fn_e1000_send) (Some Fn_e1000_recv)))
  | Fail er => Fail er
  end.
Proof.
  intros Hn He s0. unfold send_arpRequest, get_device. unfold bind at 1 2, gets. rewrite Hn.
  cbn [send_packet recv_packet nd_mac_addr]. unfold ret at 1.
  unfold bind at 1, with_ns at 1, zoom. cbn [nd_mac_addr]. rewrite He. cbn [lift_result].
  unfold ret at 1. unfold bind at 1. cbn [snd].
  unfold with_ns at 1, zoom, with_mem at 1, modify. cbn [ns nic0].
  fold s0.
  unfold bind at 1, call_send_packet. cbn [send_packet nd_driver].
  unfold bind at 1, with_ns at 1, zoom. cbn [ns].
  change (sizeof_ethr_hdr - 2) with 42.
  destruct (e1000_send fuel e (eth_p l) 42 s0) as [[e' s1]|er]; reflexivity.
Qed.

#[local] Transparent unpack_mac e1000_send.

(** C7: an ARP request reaches the card.  When [send_arpRequest] is called
    with a dotted-quad address, then at the moment the driver hands the slot
    to the card, the slot's buffer holds exactly the 42 bytes of the RFC 826
    request for that address and the descriptor says so; the call returns 0
    if and only if the card ever marks the slot done. *)
Theorem send_arpRequest_transmits l interface w0 w1 w2 w3 arpResp e mac n :
  let d := tbd e !!! Z.to_nat (tbd_tail e) in
  let b := tx_buf e !!! Z.to_nat (tbd_tail e) in
  registered e mac n → locals_ok l → length mac = 6%nat →
  quad_part w0 → quad_part w1 → quad_part w2 → quad_part w3 →
  0 ≤ tbd_tail e < 128 → d + 16 ≤ b ∨ b + sizeof_packet_buf ≤ d →
  d + 16 ≤ eth_p l ∨ eth_p l + 42 ≤ d →
  ∃ s1,
    (∀ j, 0 ≤ j < 42 → kmem_mem (km s1) (b + j) =
       arp_request_bytes mac [dec_val w0; dec_val w1; dec_val w2; dec_val w3] !!! Z.to_nat j) ∧
    (∀ j, 0 ≤ j < 16 → kmem_mem (km s1) (d + j) = tx_descriptor b 42 !!! Z.to_nat j) ∧
    pic_ports (hw s1) = mmio_write (u32 (membase e + E1000_TDT)) ((tbd_tail e + 1) mod 128)
                          (pic_ports (hw (ns n))) ∧
    ((∃ fuel n', send_arpRequest fuel l interface (dotted_quad w0 w1 w2 w3) arpResp n = Done (0, n')) ↔
     ∃ k, done_at d (polled k s1) = true).
Proof.
  intros d b Hn (La & Lv & Ld & Ls & Las & Lad) Hmac Q0 Q1 Q2 Q3 Ht Hdb Hdp.
  destruct (create_arp_frame_run (ip_arr0 l) (ip_vals0 l) mac w0 w1 w2 w3 (eth0 l))
    as (eth & He & Hw); [assumption..|].
  pose proof (λ fuel, send_arpRequest_unfold fuel l interface _ arpResp e mac n eth Hn He) as Hu.
  cbv zeta in Hu. set (s0 := mk_nst _ _) in Hu.
  destruct (e1000_send_run e (eth_p l) 42 s0) as (m & s1 & Hm & Hs1 & Hdone & Hstuck);
    [done|unfold sizeof_packet_buf; lia|done|done|]. fold d b in Hm, Hdone, Hstuck.
  exists s1. rewrite Hs1. cbn [km kmem_mem set_kmem_mem hw pic_ports]. rewrite <-Hs1. split_and!.
  - intros j Hj. rewrite Hm. unfold filled.
    destruct (decide (d ≤ b + j < d + 16)); [unfold sizeof_packet_buf in *; lia|].
    destruct (decide (b ≤ b + j < b + 42)); [|lia]. unfold s0. cbn [km kmem_mem set_kmem_mem].
    change (Z.to_nat (sizeof_ethr_hdr - 2)) with 42%nat in Hw.
    assert (42 ≤ length (ethr_bytes eth))%nat as Hlen.
    { assert (length (take 42 (ethr_bytes eth)) = 42%nat) as H42.
      { rewrite Hw. unfold arp_request_bytes. rewrite !length_app, Hmac. done. }
      rewrite length_take in H42. lia. }
    rewrite write_bytes_spec. destruct (decide _); [|lia]. rewrite <-Hw.
    rewrite !list_lookup_total_alt, lookup_take_lt by lia. do 2 f_equal. lia.
  - intros j Hj. rewrite Hm. unfold filled. destruct (decide (d ≤ d + j < d + 16)); [|lia].
    f_equal. lia.
  - done.
  - split.
    + intros (fuel & n' & E). destruct (done_or_not fuel d s1) as [(k & _ & Hk)|Hno]; [by exists k|].
      rewrite Hu, Hstuck in E by done. done.
    + intros [k Hk]. destruct (Hdone k Hk) as (k' & _ & Hrun). exists (S k). eexists.
      rewrite Hu, Hrun by lia. done.
Qed.

#[local] Opaque unpack_mac call_send_packet create_eth_arp_frame.

Lemma send_arpRequest_cases fuel l interface ip arpResp n r n' :
  send_arpRequest fuel l interface ip arpResp n = Done (r, n') →
  (r = -1 ∧ n' = n ∧ (send_packet (nic0 n) = None ∨ recv_packet (nic0 n) = None)) ∨
  (r = 0 ∧ ∃ m, kmem_mem (km (ns n')) = upd (unpack_mac (arp_dmac (arpResponse0 l)) arpResp m) (arpResp + 17) 0).
Proof.
  intros E. unfold send_arpRequest, get_device in E. unfold bind at 1 2, gets in E.
  destruct (send_packet (nic0 n)) as [f1|]; [|unfold ret in E; injection E as <- <-; tauto].
  destruct (recv_packet (nic0 n)) as [f2|]; [|unfold ret in E; injection E as <- <-; tauto].
  unfold ret at 1 in E. right. unfold bind at 1, with_ns at 1, zoom in E.
  destruct (create_eth_arp_frame _ _ _ _ _) as [[rc eth]|]; [|done]. cbn [lift_result] in E.
  unfold ret at 1 in E. unfold bind at 1 in E. unfold with_ns at 1, zoom, with_mem at 1, modify in E.
  unfold bind at 1 in E. destruct (call_send_packet _ _ _ _ _) as [[[] n1]|]; [|done].
  injection E as <- <-. split; [done|]. by eexists.
Qed.

#[local] Transparent unpack_mac call_send_packet create_eth_arp_frame.

(** The address [send_arpRequest] reports does not come from the network.
    Whatever card and network there are, a call that returns has failed with
    -1 because no device is registered (and has changed nothing), or has
    returned 0 and stored as text the six bytes its own uninitialised
    [arpResponse] happened to hold on the stack. *)
Theorem send_arpRequest_reports_stack fuel l interface ip arpResp n r n' :
  length (arp_dmac (arpResponse0 l)) = 6%nat →
  send_arpRequest fuel l interface ip arpResp n = Done (r, n') →
  (r = -1 ∧ n' = n ∧ (send_packet (nic0 n) = None ∨ recv_packet (nic0 n) = None)) ∨
  (r = 0 ∧ read_bytes (kmem_mem (km (ns n'))) arpResp 18 = mac_text (arp_dmac (arpResponse0 l))).
Proof.
  intros Hl E. destruct (send_arpRequest_cases _ _ _ _ _ _ _ _ E) as [?|(-> & m & ->)]; [by left|right].
  split; [done|]. rewrite <-(unpack_mac_read _ arpResp m Hl). apply list_fmap_ext. intros i j Hij.
  destruct (decide (arpResp + Z.of_nat j = arpResp + 17)) as [Ej|Ej]; [|by rewrite upd_other].
  rewrite Ej, upd_same. pose proof (lookup_read_bytes (unpack_mac (arp_dmac (arpResponse0 l)) arpResp m) arpResp 18 17) as H17.
  rewrite unpack_mac_read in H17 by done. specialize (H17 ltac:(lia)).
  destruct (mac_six _ Hl) as (? & ? & ? & ? & ? & ? & Hm). rewrite Hm in H17. simpl in H17.
  injection H17 as H17. rewrite Hm. exact H17.
Qed.

End arp.

(** ** A machine *)

Definition machine : Type := chipset * card.

(** The bits of the configuration registers that can be written. *)
Definition machine_mask (a : Z) : Z :=
  if a =? pci_config_format_addr 0 3 0 PCI_COMMAND_STATUS_REG then 0x547 else card_reg bar_mask a.

#[local] Instance machine_pci : PciPorts machine := {|
  outl p v d := (chip_outl (machine_mask) p v (fst d), snd d);
  inl_ p d := let '(v, c) := chip_inl p (fst d) in (v, (c, snd d)) |}.
#[local] Instance machine_mmio : Mmio machine := {|
  mmio_read a d := let '(v, c) := mmio_read a (snd d) in (v, (fst d, c));
  mmio_write a v d := (fst d, mmio_write a v (snd d)) |}.
#[local] Instance machine_bytes : BytePorts machine := {| inb _ d := (0, d); outb _ _ d := d |}.
#[local] Instance machine_ticks : Ticks machine := λ d m,
  let '(c, m') := tick (snd d) m in ((fst d, c), m').

Definition machine_conf (d : machine) : Z → Z := cfg (fst d).

#[local] Instance machine_config : ConfigMechanism machine machine_conf (machine_mask).
Proof. split; reflexivity. Qed.
#[local] Instance machine_separate : SeparateSpaces machine machine_conf.
Proof.
  split; try reflexivity. intros [c d] m r. unfold tick, machine_ticks. simpl. by destruct (tick d m).
Qed.

(** Device 3 is the card; nothing answers elsewhere. *)
Definition machine_cfg (a : Z) : Z :=
  if a =? pci_config_format_addr 0 3 0 PCI_ID_REG then 0x100e8086
  else if a =? pci_config_format_addr 0 3 0 PCI_CLASS_REG then 0x02000000
  else if a =? pci_config_format_addr 0 3 0 PCI_BHLC_REG then 0
  else if a =? pci_config_format_addr 0 3 0 PCI_INTERRUPT_REG then 0x010b
  else if (pci_config_format_addr 0 3 0 0 <=? a) && (a <=? pci_config_format_addr 0 3 0 0xff)
  then card_reg bar_value a else 0xffffffff.

Definition machine_headers : headers := λ d f off, machine_cfg (conf_addr (blank_func 0 d f) off).
Definition machine0 (k : kmem) : net machine :=
  mk_net (mk_nst k (mk_pic pic_init_mask (mk_chipset 0 machine_cfg, mk_card 0 0 0))) no_nic.

Lemma machine_resets (p : pic machine) : resets 1 card_base p.
Proof.
  intros e [l u f m] Hm. destruct p as [mask [c d]]. exists (mk_pic mask (c, mk_card 0 0 0)).
  unfold reset_card, wait_reset, e1000_reg_read, e1000_reg_write. rewrite Hm. by vm_compute.
Qed.

Lemma machine_bootable ps :
  length ps = 131%nat →
  bootable (wmask := machine_mask) 1 machine_headers 3 0 card_base 0xc000 false (replicate 4 BarNone)
    [0x52; 0x54; 0; 0x12; 0x34; 0x56] (take 64 (drop 3 ps)) (take 64 (drop 67 ps)).
Proof.
  intros Hl. split.
  - vm_compute. reflexivity.
  - lia.
  - vm_compute. reflexivity.
  - vm_compute. reflexivity.
  - reflexivity.
  - unfold card_base. lia.
  - lia.
  - rewrite length_take, length_drop. lia.
  - rewrite length_take, length_drop. lia.
  - apply machine_resets.
  - split; [done|]. split; [apply (bool_decide_eq_true_1 _); by vm_compute|]. by intros e k h [mask [c d]] _ _.
  - by vm_compute.
Qed.

Lemma pci_init_brings_up_card_witness :
  ∃ k n' e, pci_init 0 0x80108000 1 (machine0 k) = Done (1, n') ∧
    nic0 n' = mk_nic_device (Some e) [0x52; 0x54; 0; 0x12; 0x34; 0x56] (Some Fn_e1000_send) (Some Fn_e1000_recv) ∧
    tbd e = ring 0x80281000 ∧ Z.land (machine_conf (pic_ports (hw (ns n'))) (pci_config_format_addr 0 3 0 4)) 7 = 7.
Proof.
  destruct (freerange_loop_run 0 0x80108000 131 132 0x80200000 (0x80200000 + 131 * PGSIZE) kmem0 [])
    as (k & _ & _ & Hk); [lia|unfold PGSIZE; lia|exact demo_pages_ok|set_solver|apply kmem0_inv|].
  set (ps := rev (pages_from 0x80200000 131) ++ []) in Hk.
  destruct (pci_init_brings_up_card (conf := machine_conf) (wmask := machine_mask)
    0 0x80108000 1 machine_headers 3 0 card_base 0xc000 false (replicate 4 BarNone)
    [0x52; 0x54; 0; 0x12; 0x34; 0x56] 0x80282000 0x80281000 0x80280000 (take 64 (drop 3 ps)) (take 64 (drop 67 ps)) [] (machine0 k))
    as (n' & e & E & He & Hn & Hin & _).
  - apply machine_bootable. reflexivity.
  - intros d f off _ _ _. reflexivity.
  - cbn [bars_at replicate bar_regs]. repeat split; lia || (vm_compute; congruence).
  - exact Hk.
  - exists k, n', e. split; [exact E|]. split; [exact Hn|]. split; [apply Hin|exact He].
Defined.

Definition demo_net : net machine :=
  mk_net (mk_nst kmem0 (mk_pic pic_init_mask (mk_chipset 0 machine_cfg, mk_card 0x200000 0 0)))
    (mk_nic_device (Some demo_e1000) (mac_addr demo_e1000) (Some Fn_e1000_send) (Some Fn_e1000_recv)).
Definition demo_locals : arp_frame_locals :=
  mk_arp_locals 0x80300000 blank_eth blank_eth [1; 1; 1; 1] [2; 2; 2; 2].

Lemma demo_done s1 :
  pic_ports (hw s1) = mmio_write (u32 (membase demo_e1000 + E1000_TDT)) 1 (pic_ports (hw (ns demo_net))) →
  done_at (H := machine) (tbd demo_e1000 !!! 0%nat) (polled 1 s1) = true.
Proof. destruct s1 as [k [mask ports]]. cbn [hw pic_ports]. intros ->. reflexivity. Qed.

Lemma quad_192_168_2_1 :
  quad_part (chars "192") ∧ quad_part (chars "168") ∧ quad_part (chars "2") ∧ quad_part (chars "1").
Proof. split_and!; (split; [repeat constructor|split; simpl; [lia|done]]). Qed.

Lemma send_arpRequest_transmits_witness :
  ∃ fuel n', send_arpRequest fuel demo_locals (chars "mynet0") (chars "192.168.2.1") 0x1000 demo_net
             = Done (0, n').
Proof.
  destruct quad_192_168_2_1 as (Q0 & Q1 & Q2 & Q3).
  destruct (send_arpRequest_transmits demo_locals (chars "mynet0") (chars "192") (chars "168")
    (chars "2") (chars "1") 0x1000 demo_e1000 (mac_addr demo_e1000) demo_net)
    as (s1 & _ & _ & Hp & Hiff); [reflexivity|by split_and!|reflexivity|assumption..| | | |].
  - simpl. lia.
  - left. vm_compute. congruence.
  - left. vm_compute. congruence.
  - apply Hiff. exists 1%nat. apply demo_done. exact Hp.
Defined.

Lemma send_arpRequest_reports_stack_witness :
  ∃ n', send_arpRequest 3 demo_locals (chars "mynet0") (chars "192.168.2.1") 0x1000 demo_net = Done (0, n') ∧
    read_bytes (kmem_mem (km (ns n'))) 0x1000 18 = chars "00:00:00:00:00:00" ++ [0].
Proof.
  destruct quad_192_168_2_1 as (Q0 & Q1 & Q2 & Q3).
  destruct (create_arp_frame_run [1; 1; 1; 1] [2; 2; 2; 2] (mac_addr demo_e1000) (chars "192") (chars "168")
    (chars "2") (chars "1") blank_eth) as (eth & He & _); [reflexivity..|assumption|assumption|assumption|assumption|].
  pose proof (send_arpRequest_unfold 3 demo_locals (chars "mynet0") _ 0x1000 demo_e1000 _ demo_net eth eq_refl He) as Hu.
  cbv zeta in Hu. set (s0 := mk_nst _ _) in Hu.
  destruct (e1000_send_run demo_e1000 0x80300000 42 s0) as (m & s1 & _ & Hs1 & Hdone & _);
    [vm_compute; split; congruence|vm_compute; split; congruence|left; vm_compute; congruence
    |left; vm_compute; congruence|].
  destruct (Hdone 1%nat) as (k & _ & Hk); [rewrite Hs1; apply demo_done; reflexivity|].
  change (eth_p demo_locals) with 0x80300000 in Hu. rewrite (Hk 3%nat) in Hu by lia.
  eexists. split; [exact Hu|].
  destruct (send_arpRequest_reports_stack 3 demo_locals (chars "mynet0") _ 0x1000 demo_net _ _ eq_refl Hu)
    as [(E & _)|(_ & E)]; [discriminate E|exact E].
Defined.
