(* ===== verification/Buf.v ===== *)
(** * buf.h, param.h, memide.c: disk blocks, buffers, and the disk below them

    [BlockDev] is what the buffer cache asks of a disk driver ([iderw]) and
    [BlockDevSpec] what it may rely on.  [Memide] is the driver of memide.c
    and an instance of both; [Unreliable] is any driver on a machine whose
    power fails after a number of block writes.

    [BufLayer] and [BufLayerSpec] are the interface one level up: what the
    buffer cache promises to the log and the file system. *)

From S2P Require Import Prelude Spinlock.

Definition BSIZE : Z := 512.
Definition MAXOPBLOCKS : Z := 10.
Definition LOGSIZE : Z := MAXOPBLOCKS * 3.
Definition NBUF : nat := Z.to_nat (MAXOPBLOCKS * 3).
Definition FSSIZE : Z := 1000.
Definition ROOTDEV : Z := 1.

Definition B_VALID : Z := 0x2.
Definition B_DIRTY : Z := 0x4.

(** [qnext] belongs to the disk queue of ide.c. *)
Record buf := mk_buf {
  flags : Z;
  dev : Z;
  blockno : Z;
  b_lock : sleeplock;
  refcnt : Z;
  prev : nat;
  next : nat;
  data : list Z;
}.

Definition set_flags v b := mk_buf v (dev b) (blockno b) (b_lock b) (refcnt b) (prev b) (next b) (data b).
Definition set_ident d n b := mk_buf (flags b) d n (b_lock b) (refcnt b) (prev b) (next b) (data b).
Definition set_b_lock l b := mk_buf (flags b) (dev b) (blockno b) l (refcnt b) (prev b) (next b) (data b).
Definition set_refcnt v b := mk_buf (flags b) (dev b) (blockno b) (b_lock b) v (prev b) (next b) (data b).
Definition set_prev v b := mk_buf (flags b) (dev b) (blockno b) (b_lock b) (refcnt b) v (next b) (data b).
Definition set_next v b := mk_buf (flags b) (dev b) (blockno b) (b_lock b) (refcnt b) (prev b) v (data b).
Definition set_data v b := mk_buf (flags b) (dev b) (blockno b) (b_lock b) (refcnt b) (prev b) (next b) v.

(** A struct buf in zeroed memory. *)
Definition zero_lock : sleeplock := mk_sleeplock 0 (mk_spinlock 0 EmptyString None) EmptyString 0.
Definition zero_buf : buf := mk_buf 0 0 0 zero_lock 0 0 0 (replicate (Z.to_nat BSIZE) 0).
#[export] Instance buf_inhabited : Inhabited buf := populate zero_buf.

Definition has (f : Z) (b : buf) : bool := negb (Z.land (flags b) f =? 0).

(** ** The disk driver's interface *)

Class BlockDev (D : Type) := iderw : nat → buf → D → result (buf * D).

(** [img d] are the blocks on the disk, [ok d] says the driver is in working
    order.  A read fills the buffer; a write makes the block durable or is cut
    short by a power failure that leaves the disk as it was. *)
Class BlockDevSpec (D : Type) `{!BlockDev D} (ok : D → Prop) (img : D → gmap Z (list Z)) := {
  dev_read me b d blk name pid :
    ok d → dev b = ROOTDEV → flags b = 0 → b_lock b = sl_held name pid → img d !! blockno b = Some blk →
    ∃ d', iderw me b d = Done (set_flags B_VALID (set_data blk b), d') ∧ ok d' ∧ img d' = img d;
  dev_write me b d name pid :
    ok d → dev b = ROOTDEV → flags b = Z.lor B_VALID B_DIRTY → b_lock b = sl_held name pid →
    is_Some (img d !! blockno b) → length (data b) = Z.to_nat BSIZE →
    (∃ d', iderw me b d = Done (set_flags B_VALID b, d') ∧ ok d' ∧
       img d' = <[blockno b := data b]> (img d)) ∨
    iderw me b d = Fail (ECrash (img d));
}.

(** ** memide.c *)

Module Memide.

Record disk := mk_disk { disksize : Z; memdisk : list Z }.

Definition ideinit (fs_img : list Z) : disk := mk_disk (Z.of_nat (length fs_img) / BSIZE) fs_img.

Definition ideintr (d : disk) : disk := d.

Definition block_at (d : disk) (p : Z) : list Z := take (Z.to_nat BSIZE) (drop (Z.to_nat p) (memdisk d)).

Definition iderw (me : nat) (b : buf) (d : disk) : result (buf * disk) :=
  match holdingsleep me (b_lock b) with
  | Fail e => Fail e
  | Done (h, l) =>
      let b := set_b_lock l b in
      if h =? 0 then Fail (EPanic "iderw: buf not locked")
      else if Z.land (flags b) (Z.lor B_VALID B_DIRTY) =? B_VALID then Fail (EPanic "iderw: nothing to do")
      else if negb (dev b =? 1) then Fail (EPanic "iderw: request not for disk 1")
      else if disksize d <=? blockno b then Fail (EPanic "iderw: block out of range")
      else
        let p := u32 (blockno b * BSIZE) in
        if has B_DIRTY b then
          let b := set_flags (Z.land (flags b) (Z.lnot B_DIRTY)) b in
          let d := mk_disk (disksize d) (splice (Z.to_nat p) (data b) (memdisk d)) in
          Done (set_flags (Z.lor (flags b) B_VALID) b, d)
        else
          let b := set_data (block_at d p) b in
          Done (set_flags (Z.lor (flags b) B_VALID) b, d)
  end.

#[export] Instance memide_dev : BlockDev disk := iderw.

(** The image as blocks. *)
Definition img (d : disk) : gmap Z (list Z) :=
  list_to_map ((λ i, (Z.of_nat i, block_at d (Z.of_nat i * BSIZE))) <$> seq 0 (Z.to_nat (disksize d))).

(** The disk as [ideinit] finds it: whole blocks, less than 4 GB. *)
Definition wf (d : disk) : Prop :=
  Z.of_nat (length (memdisk d)) = disksize d * BSIZE ∧ 0 ≤ disksize d ∧ disksize d * BSIZE < 2 ^ 32.

Lemma img_lookup d i : 0 ≤ i < disksize d → img d !! i = Some (block_at d (i * BSIZE)).
Proof.
  intros Hi. apply elem_of_list_to_map.
  - rewrite <-list_fmap_compose. apply NoDup_fmap_2_strong; [|apply NoDup_seq].
    intros x y _ _ E. simpl in E. lia.
  - apply list_elem_of_fmap. exists (Z.to_nat i). rewrite Z2Nat.id by lia. split; [done|].
    apply elem_of_seq. lia.
Qed.

Lemma img_lookup_Some d i blk :
  img d !! i = Some blk → 0 ≤ i < disksize d ∧ blk = block_at d (i * BSIZE).
Proof.
  intros H. apply elem_of_list_to_map_2, list_elem_of_fmap in H as (k & E & Hk%elem_of_seq).
  injection E as -> ->. split; [lia|done].
Qed.

Lemma block_at_splice d i j dat :
  wf d → 0 ≤ i < disksize d → 0 ≤ j < disksize d → length dat = Z.to_nat BSIZE →
  block_at (mk_disk (disksize d) (splice (Z.to_nat (i * BSIZE)) dat (memdisk d))) (j * BSIZE)
  = if decide (j = i) then dat else block_at d (j * BSIZE).
Proof.
  intros (Hl & _ & _) Hi Hj Hd. unfold block_at. cbn [memdisk].
  apply list_eq. intros k. unfold BSIZE in *.
  destruct (decide (k < Z.to_nat 512)%nat) as [Hk|Hk].
  - rewrite lookup_take_lt, lookup_drop by done. destruct (decide (j = i)) as [->|Hne].
    + rewrite lookup_splice_in by lia. f_equal. lia.
    + rewrite lookup_splice_out by lia. by rewrite lookup_take_lt, lookup_drop by done.
  - rewrite lookup_take_ge by lia. destruct (decide (j = i)).
    + symmetry. apply lookup_ge_None. lia.
    + by rewrite lookup_take_ge by lia.
Qed.

Lemma img_write d i dat :
  wf d → 0 ≤ i < disksize d → length dat = Z.to_nat BSIZE →
  img (mk_disk (disksize d) (splice (Z.to_nat (i * BSIZE)) dat (memdisk d))) = <[i := dat]> (img d).
Proof.
  intros Hw Hi Hd. apply map_eq. intros j. set (d' := mk_disk _ _).
  destruct (decide (0 ≤ j < disksize d)) as [Hj|Hj].
  - rewrite img_lookup by done. unfold d'. rewrite block_at_splice by done.
    case_decide; [subst; by rewrite lookup_insert_eq|].
    by rewrite lookup_insert_ne, img_lookup by done.
  - rewrite lookup_insert_ne by (intros ->; done).
    destruct (img d' !! j) eqn:E1; [by apply img_lookup_Some in E1 as [? _]|].
    destruct (img d !! j) eqn:E2; [by apply img_lookup_Some in E2 as [? _]|done].
Qed.

Lemma iderw_read me b d blk name pid :
  wf d → dev b = ROOTDEV → flags b = 0 → b_lock b = sl_held name pid → img d !! blockno b = Some blk →
  iderw me b d = Done (set_flags B_VALID (set_data blk b), d).
Proof.
  intros Hw Hdev Hf Hl Hb. apply img_lookup_Some in Hb as [Hr ->]. unfold iderw.
  rewrite Hl, holdingsleep_held. destruct b as [f dv n lk r p x dat]. simpl in *. subst.
  destruct (Z.leb_spec (disksize d) n); [lia|].
  rewrite u32_small by (unfold wf, BSIZE in *; lia). done.
Qed.

Lemma iderw_write me b d name pid :
  wf d → dev b = ROOTDEV → flags b = Z.lor B_VALID B_DIRTY → b_lock b = sl_held name pid →
  is_Some (img d !! blockno b) → length (data b) = Z.to_nat BSIZE →
  ∃ d', iderw me b d = Done (set_flags B_VALID b, d') ∧ wf d' ∧ img d' = <[blockno b := data b]> (img d).
Proof.
  intros Hw Hdev Hf Hl [blk Hb] Hd. apply img_lookup_Some in Hb as [Hr _].
  exists (mk_disk (disksize d) (splice (Z.to_nat (blockno b * BSIZE)) (data b) (memdisk d))).
  split; [|split; [|by apply img_write]].
  - unfold iderw. rewrite Hl, holdingsleep_held. destruct b as [f dv n lk r p x dat]. simpl in *. subst.
    destruct (Z.leb_spec (disksize d) n); [lia|].
    rewrite u32_small by (unfold wf, BSIZE in *; lia). done.
  - destruct Hw as (H1 & H2 & H3). split; [|done]. cbn [memdisk disksize].
    rewrite length_splice; [done|]. unfold BSIZE in *. lia.
Qed.

#[export] Instance memide_spec : BlockDevSpec disk wf img.
Proof.
  split.
  - intros me b d blk name pid Hw Hdev Hf Hl Hb. exists d. split; [|done]. by eapply iderw_read.
  - intros me b d name pid Hw Hdev Hf Hl Hb Hd. left. by eapply iderw_write.
Qed.

End Memide.

(** ** Power failures *)

(** A disk whose power fails at the write after [budget] writes. *)
Record unreliable (D : Type) := mk_unreliable { budget : nat; under : D }.
Arguments mk_unreliable {D}.
Arguments budget {D}.
Arguments under {D}.

Section unreliable.
Context {D : Type} `{!BlockDev D} {ok : D → Prop} {img : D → gmap Z (list Z)} `{!BlockDevSpec D ok img}.

#[export] Instance unreliable_dev : BlockDev (unreliable D) := λ me b u,
  if has B_DIRTY b then
    match budget u with
    | O => Fail (ECrash (img (under u)))
    | S n => match iderw me b (under u) with
             | Done (b', d) => Done (b', mk_unreliable n d)
             | Fail e => Fail e
             end
    end
  else
    match iderw me b (under u) with
    | Done (b', d) => Done (b', mk_unreliable (budget u) d)
    | Fail e => Fail e
    end.

#[export] Instance unreliable_spec : BlockDevSpec (unreliable D) (ok ∘ under) (img ∘ under).
Proof.
  split.
  - intros me b [n d] blk name pid Hok Hdev Hf Hl Hb. unfold iderw, unreliable_dev, has.
    rewrite Hf. destruct (dev_read me b d blk name pid Hok Hdev Hf Hl Hb) as (d' & E & Hok' & Himg).
    cbn [Z.land Z.eqb negb under budget]. rewrite E. by eexists.
  - intros me b [n d] name pid Hok Hdev Hf Hl Hb Hd. unfold iderw at 1 2, unreliable_dev, has. rewrite Hf.
    change (negb (Z.land (Z.lor B_VALID B_DIRTY) B_DIRTY =? 0)) with true. cbv iota. simpl.
    destruct n as [|n]; [by right|].
    destruct (dev_write me b d name pid Hok Hdev Hf Hl Hb Hd) as [(d' & E & Hok' & Himg)|E].
    + left. rewrite E. by eexists.
    + right. by rewrite E.
Qed.

End unreliable.

(** ** What the buffer cache promises

    Seen from above, the cache is the disk plus the blocks that are in use:
    locked by the caller, or modified and not yet written back.  Which other
    blocks are cached, and in what order, cannot be observed. *)

Record aent := mk_aent { ae_h : nat; ae_data : list Z; ae_dirty : bool; ae_locked : bool }.
Record acache := mk_acache { a_disk : gmap Z (list Z); a_busy : gmap Z aent }.

Definition a_put (blk : Z) (e : aent) (a : acache) : acache :=
  mk_acache (a_disk a) (<[blk := e]> (a_busy a)).

(** The contents a reader of the block sees. *)
Definition a_view (a : acache) (blk : Z) : option (list Z) :=
  match a_busy a !! blk with Some e => Some (ae_data e) | None => a_disk a !! blk end.

(** The block can be locked: it is free, and it is in use already or there is
    room for one more. *)
Definition a_can_lock (a : acache) (blk : Z) : Prop :=
  match a_busy a !! blk with Some e => ae_locked e = false | None => (size (a_busy a) < NBUF)%nat end.

Definition a_dirty (a : acache) (blk : Z) : bool :=
  match a_busy a !! blk with Some e => ae_dirty e | None => false end.

Definition a_unlock (blk : Z) (e : aent) (a : acache) : acache :=
  if ae_dirty e then a_put blk (mk_aent (ae_h e) (ae_data e) true false) a
  else mk_acache (a_disk a) (delete blk (a_busy a)).

Class BufLayer (S : Type) := {
  bread : Z → Z → M S nat;
  bwrite : nat → M S unit;
  brelse : nat → M S unit;
  buf_data : nat → S → list Z;
  buf_blockno : nat → S → Z;
  set_buf_data : nat → list Z → S → S;
  mark_dirty : nat → S → S;
}.

Class BufLayerSpec (S : Type) `{!BufLayer S} (R : S → acache → Prop) := {
  bl_length s a blk dat : R s a → a_view a blk = Some dat → length dat = Z.to_nat BSIZE;
  bl_bread s a blk dat :
    R s a → a_view a blk = Some dat → a_can_lock a blk → is_Some (a_disk a !! blk) →
    ∃ h s', bread ROOTDEV blk s = Done (h, s') ∧ R s' (a_put blk (mk_aent h dat (a_dirty a blk) true) a);
  bl_bwrite s a blk h dat dirty :
    R s a → a_busy a !! blk = Some (mk_aent h dat dirty true) →
    (∃ s', bwrite h s = Done (tt, s') ∧
       R s' (mk_acache (<[blk := dat]> (a_disk a)) (<[blk := mk_aent h dat false true]> (a_busy a)))) ∨
    bwrite h s = Fail (ECrash (a_disk a));
  bl_brelse s a blk h dat dirty :
    R s a → a_busy a !! blk = Some (mk_aent h dat dirty true) → dirty = true ∨ a_disk a !! blk = Some dat →
    ∃ s', brelse h s = Done (tt, s') ∧ R s' (a_unlock blk (mk_aent h dat dirty true) a);
  bl_data s a blk h dat dirty :
    R s a → a_busy a !! blk = Some (mk_aent h dat dirty true) → buf_data h s = dat ∧ buf_blockno h s = blk;
  bl_set_data s a blk h dat dirty dat' :
    R s a → a_busy a !! blk = Some (mk_aent h dat dirty true) → length dat' = Z.to_nat BSIZE →
    R (set_buf_data h dat' s) (a_put blk (mk_aent h dat' dirty true) a);
  bl_mark_dirty s a blk h dat dirty :
    R s a → a_busy a !! blk = Some (mk_aent h dat dirty true) →
    R (mark_dirty h s) (a_put blk (mk_aent h dat true true) a);
}.
