(* ===== verification/Bio.v ===== *)
(** * bio.c: the buffer cache

    The 30 buffers and the list head are the nodes 0, ..., 29 and [HEAD] of
    a circular doubly linked list, most recently used first.  The model keeps
    the pointers [prev] and [next] of the source.  The disk below is any
    [BlockDev]. *)

From S2P Require Import Prelude Spinlock Buf.

Definition HEAD : nat := NBUF.

Record bst (D : Type) := mk_bst { bc_lock : spinlock; nodes : list buf; bdisk : D }.
Arguments mk_bst {D}.
Arguments bc_lock {D}.
Arguments nodes {D}.
Arguments bdisk {D}.

Section bio.
Context {D : Type} `{!BlockDev D} (me : nat) (pid : Z).
Implicit Types s : bst D.

Definition node (i : nat) (s : bst D) : buf := nodes s !!! i.
Definition upd_node (i : nat) (f : buf → buf) : M (bst D) unit :=
  modify (λ s, mk_bst (bc_lock s) (<[i := f (node i s)]> (nodes s)) (bdisk s)).
Definition acquire_bcache : M (bst D) unit :=
  zoom bc_lock (λ l s, mk_bst l (nodes s) (bdisk s)) (acquire me).
Definition release_bcache : M (bst D) unit :=
  zoom bc_lock (λ l s, mk_bst l (nodes s) (bdisk s)) (release me).
(** A sleep-lock operation on the lock of buffer [i]. *)
Definition on_lock {A} (i : nat) (m : M sleeplock A) : M (bst D) A :=
  zoom (λ s, b_lock (node i s))
    (λ l s, mk_bst (bc_lock s) (<[i := set_b_lock l (node i s)]> (nodes s)) (bdisk s)) m.

(** Link node [b] in right after the head; [b] is not in the list. *)
Definition link_front (b : nat) : M (bst D) unit :=
  hn <- gets (λ s, next (node HEAD s));;
  upd_node b (set_next hn);;
  upd_node b (set_prev HEAD);;
  hn' <- gets (λ s, next (node HEAD s));;
  upd_node hn' (set_prev b);;
  upd_node HEAD (set_next b).

Fixpoint binit_loop (n : nat) (b : nat) : M (bst D) unit :=
  match n with
  | O => ret tt
  | S n' =>
      hn <- gets (λ s, next (node HEAD s));;
      upd_node b (set_next hn);;
      upd_node b (set_prev HEAD);;
      upd_node b (set_b_lock (initsleeplock "buffer"));;
      hn' <- gets (λ s, next (node HEAD s));;
      upd_node hn' (set_prev b);;
      upd_node HEAD (set_next b);;
      binit_loop n' (S b)
  end.

Definition binit : M (bst D) unit :=
  modify (λ s, mk_bst (initlock "bcache") (nodes s) (bdisk s));;
  upd_node HEAD (set_prev HEAD);;
  upd_node HEAD (set_next HEAD);;
  binit_loop NBUF 0.

(** The two scans of [bget], forward for a cached block and backward for a
    buffer to recycle.  At most [NBUF] nodes before the head comes again. *)
Fixpoint find_cached (fuel : nat) (dv blk : Z) (b : nat) : M (bst D) (option nat) :=
  match fuel with
  | O => fail EFuel
  | S fuel' =>
      if decide (b = HEAD) then ret None
      else
        n <- gets (node b);;
        if (dev n =? dv) && (blockno n =? blk) then ret (Some b)
        else find_cached fuel' dv blk (next n)
  end.

Fixpoint find_free (fuel : nat) (b : nat) : M (bst D) (option nat) :=
  match fuel with
  | O => fail EFuel
  | S fuel' =>
      if decide (b = HEAD) then ret None
      else
        n <- gets (node b);;
        if (refcnt n =? 0) && (Z.land (flags n) B_DIRTY =? 0) then ret (Some b)
        else find_free fuel' (prev n)
  end.

Definition bget (dv blk : Z) : M (bst D) nat :=
  acquire_bcache;;
  hn <- gets (λ s, next (node HEAD s));;
  c <- find_cached (S NBUF) dv blk hn;;
  match c with
  | Some b =>
      upd_node b (λ n, set_refcnt (u32 (refcnt n + 1)) n);;
      release_bcache;;
      on_lock b (acquiresleep me pid);;
      ret b
  | None =>
      hp <- gets (λ s, prev (node HEAD s));;
      f <- find_free (S NBUF) hp;;
      match f with
      | Some b =>
          upd_node b (set_ident dv blk);;
          upd_node b (set_flags 0);;
          upd_node b (set_refcnt 1);;
          release_bcache;;
          on_lock b (acquiresleep me pid);;
          ret b
      | None => panic "bget: no buffers"
      end
  end.

(** [iderw(b)] on buffer [b] of the cache. *)
Definition call_iderw (b : nat) : M (bst D) unit := λ s,
  match iderw me (node b s) (bdisk s) with
  | Done (n, d) => Done (tt, mk_bst (bc_lock s) (<[b := n]> (nodes s)) d)
  | Fail e => Fail e
  end.

Definition bio_bread (dv blk : Z) : M (bst D) nat :=
  b <- bget dv blk;;
  n <- gets (node b);;
  when (Z.land (flags n) B_VALID =? 0) (call_iderw b);;
  ret b.

Definition bio_bwrite (b : nat) : M (bst D) unit :=
  h <- on_lock b (holdingsleep me);;
  if h =? 0 then panic "bwrite"
  else
    upd_node b (λ n, set_flags (Z.lor (flags n) B_DIRTY) n);;
    call_iderw b.

Definition bio_brelse (b : nat) : M (bst D) unit :=
  h <- on_lock b (holdingsleep me);;
  if h =? 0 then panic "brelse"
  else
    on_lock b (releasesleep me);;
    acquire_bcache;;
    upd_node b (λ n, set_refcnt (u32 (refcnt n - 1)) n);;
    r <- gets (λ s, refcnt (node b s));;
    when (r =? 0) (
      n <- gets (node b);;
      upd_node (next n) (set_prev (prev n));;
      n' <- gets (node b);;
      upd_node (prev n') (set_next (next n'));;
      link_front b);;
    release_bcache.

End bio.

#[export] Instance bio_layer {D} `{!BlockDev D} (me : nat) (pid : Z) : BufLayer (bst D) := {|
  bread := bio_bread me pid;
  bwrite := bio_bwrite me;
  brelse := bio_brelse me;
  buf_data h s := data (node h s);
  buf_blockno h s := blockno (node h s);
  set_buf_data h l s := mk_bst (bc_lock s) (<[h := set_data l (node h s)]> (nodes s)) (bdisk s);
  mark_dirty h s :=
    mk_bst (bc_lock s) (<[h := set_flags (Z.lor (flags (node h s)) B_DIRTY) (node h s)]> (nodes s)) (bdisk s);
|}.

(** The cache before [binit]: a global, so zeroed. *)
Definition bcache0 {D} (d : D) : bst D := mk_bst (mk_spinlock 0 EmptyString None) (replicate (S NBUF) zero_buf) d.

(** ** Circular lists

    [path x l e]: following [next] from [x] goes through [l] and then to [e],
    and [prev] goes back. *)

Section path.
Implicit Types NX PV : nat → nat.

Fixpoint path NX PV (x : nat) (l : list nat) (e : nat) : Prop :=
  match l with
  | [] => NX x = e ∧ PV e = x
  | y :: l' => NX x = y ∧ PV y = x ∧ path NX PV y l' e
  end.

Lemma path_ext NX PV NX' PV' x l e :
  path NX PV x l e → (∀ z, z ∈ x :: l → NX' z = NX z) → (∀ z, z ∈ l ++ [e] → PV' z = PV z) →
  path NX' PV' x l e.
Proof.
  revert x. induction l as [|y l IH]; intros x; simpl.
  - intros [H1 H2] HN HP. rewrite HN, HP by set_solver. done.
  - intros (H1 & H2 & H3) HN HP. rewrite HN, HP by set_solver. split_and!; [done|done|].
    apply IH; [done|set_solver..].
Qed.

Lemma path_app NX PV x l1 b l2 e :
  path NX PV x (l1 ++ b :: l2) e ↔ path NX PV x l1 b ∧ path NX PV b l2 e.
Proof. revert x. induction l1 as [|y l1 IH]; intros x; simpl; [|rewrite IH]; tauto. Qed.

Lemma path_last NX PV x l e : path NX PV x l e → PV e ∈ x :: l.
Proof.
  revert x. induction l as [|y l IH]; intros x; simpl; [intros [_ ->]; set_solver|].
  intros (_ & _ & H%IH). set_solver.
Qed.

Lemma path_first NX PV x l e : path NX PV x l e → NX x ∈ l ++ [e].
Proof. destruct l; simpl; intros H; [destruct H as [-> _]|destruct H as (-> & _)]; set_solver. Qed.

Definition fupd (f : nat → nat) (i v : nat) : nat → nat := λ j, if decide (j = i) then v else f j.

Lemma fupd_same f i v : fupd f i v i = v.
Proof. unfold fupd. by case_decide. Qed.
Lemma fupd_other f i v j : j ≠ i → fupd f i v j = f j.
Proof. unfold fupd. by case_decide. Qed.

(** Take [b] out of the path. *)
Lemma path_unlink NX PV x l1 b l2 e :
  path NX PV x l1 b → path NX PV b l2 e →
  NoDup (x :: l1) → NoDup (l2 ++ [e]) → (∀ z, z ∈ l1 → z ∉ l2 ++ [e]) → x ∉ l2 →
  path (fupd NX (PV b) (NX b)) (fupd PV (NX b) (PV b)) x (l1 ++ l2) e.
Proof.
  intros H1 H2 Hn1 Hn2 Hd Hx. pose proof (path_first _ _ _ _ _ H2) as Hn.
  revert x H1 Hn1 Hx. induction l1 as [|y l1 IH]; intros x H1 Hn1 Hx; cbn [app].
  - destruct H1 as [_ Hp]. rewrite Hp. destruct l2 as [|y l2]; destruct H2 as [E H2]; simpl.
    + by rewrite E, !fupd_same.
    + destruct H2 as [H2 H3]. rewrite E, !fupd_same. split_and!; [done|done|].
      apply NoDup_cons in Hn2 as [Hy _].
      apply (path_ext NX PV); [done|intros z Hz; apply fupd_other; set_solver..].
  - destruct H1 as (E1 & E2 & H1). pose proof (path_last _ _ _ _ _ H1) as Hp. simpl.
    apply NoDup_cons in Hn1 as [Hx1 Hn1].
    assert (x ≠ PV b) by (intros ->; done).
    assert (y ≠ NX b) by (intros ->; by apply (Hd (NX b)); [left|]).
    rewrite !fupd_other by done. split_and!; [done|done|].
    apply IH; [intros z Hz; apply Hd; by right|done|done|]. intros Hy. apply (Hd y); [left|].
    apply elem_of_app. by left.
Qed.

(** Put [b] right after [x]. *)
Lemma path_link NX PV x l e b :
  path NX PV x l e → b ∉ x :: l ++ [e] → NoDup (x :: l) → NoDup (l ++ [e]) →
  path (fupd (fupd NX b (NX x)) x b) (fupd (fupd PV b x) (NX x) b) x (b :: l) e.
Proof.
  intros H Hb Hn1 Hn2. pose proof (path_first _ _ _ _ _ H) as Hf. cbn [path].
  rewrite fupd_same. rewrite (fupd_other _ (NX x)) by set_solver. rewrite fupd_same.
  split_and!; [done|done|]. apply NoDup_cons in Hn1 as [Hx Hn1].
  destruct l as [|y l]; destruct H as [E H]; cbn [path].
  - rewrite E, fupd_same, fupd_other, fupd_same by set_solver. done.
  - destruct H as [E2 H]. rewrite E, fupd_same, fupd_other, fupd_same by set_solver.
    split_and!; [done|done|]. apply NoDup_cons in Hn2 as [Hy _].
    apply (path_ext NX PV); [done|intros z Hz; rewrite !fupd_other by set_solver; done..].
Qed.

End path.

(** ** The list of buffers *)

Definition setn (i : nat) (f : buf → buf) (l : list buf) : list buf := <[i := f (l !!! i)]> l.
Definition nx (l : list buf) (i : nat) : nat := next (l !!! i).
Definition pv (l : list buf) (i : nat) : nat := prev (l !!! i).
(** Everything but the links. *)
Definition payload (b : buf) : buf := set_prev 0 (set_next 0 b).

Lemma setn_lookup l i f j :
  (i < length l)%nat → setn i f l !!! j = if decide (j = i) then f (l !!! i) else l !!! j.
Proof.
  intros Hi. unfold setn. case_decide as E; [subst; by rewrite list_lookup_total_insert_eq|].
  by rewrite list_lookup_total_insert_ne.
Qed.

Lemma length_setn i f l : length (setn i f l) = length l.
Proof. apply length_insert. Qed.

(** [link_front] and the unlinking in [brelse], on the list of nodes. *)
Definition front (b : nat) (l : list buf) : list buf :=
  let l1 := setn b (set_next (nx l HEAD)) l in
  let l2 := setn b (set_prev HEAD) l1 in
  let l3 := setn (nx l2 HEAD) (set_prev b) l2 in
  setn HEAD (set_next b) l3.

Definition unlink (b : nat) (l : list buf) : list buf :=
  let l1 := setn (nx l b) (set_prev (pv l b)) l in
  setn (pv l1 b) (set_next (nx l1 b)) l1.

(** [l'] is [l] with other links. *)
Definition relinked (l l' : list buf) (NX PV : nat → nat) : Prop :=
  length l' = length l ∧ (∀ i, payload (l' !!! i) = payload (l !!! i)) ∧
  (∀ i, nx l' i = NX i) ∧ (∀ i, pv l' i = PV i).

Lemma relinked_next l l1 NX PV i v :
  relinked l l1 NX PV → (i < length l)%nat → relinked l (setn i (set_next v) l1) (fupd NX i v) PV.
Proof.
  intros (Hl & Hp & HN & HP) Hi. unfold relinked, nx, pv, fupd. rewrite length_setn.
  split; [done|]. split_and!; intros j; rewrite setn_lookup by lia;
    (destruct (decide (j = i)) as [->|]; [|apply Hp || apply HN || apply HP]); simpl; [apply Hp|done|apply HP].
Qed.

Lemma relinked_prev l l1 NX PV i v :
  relinked l l1 NX PV → (i < length l)%nat → relinked l (setn i (set_prev v) l1) NX (fupd PV i v).
Proof.
  intros (Hl & Hp & HN & HP) Hi. unfold relinked, nx, pv, fupd. rewrite length_setn.
  split; [done|]. split_and!; intros j; rewrite setn_lookup by lia;
    (destruct (decide (j = i)) as [->|]; [|apply Hp || apply HN || apply HP]); simpl; [apply Hp|apply HN|done].
Qed.

Lemma relinked_refl l : relinked l l (nx l) (pv l).
Proof. done. Qed.

Lemma front_relinked b l :
  length l = S NBUF → (b < HEAD)%nat → (nx l HEAD ≤ HEAD)%nat →
  relinked l (front b l) (fupd (fupd (nx l) b (nx l HEAD)) HEAD b) (fupd (fupd (pv l) b HEAD) (nx l HEAD) b).
Proof.
  intros Hl Hb Hf. unfold front, HEAD in *. cbv zeta.
  set (l1 := setn b _ l). set (l2 := setn b _ l1).
  assert (relinked l l2 (fupd (nx l) b (nx l NBUF)) (fupd (pv l) b NBUF)) as H2.
  { apply relinked_prev; [|lia]. apply relinked_next; [apply relinked_refl|lia]. }
  assert (nx l2 NBUF = nx l NBUF) as E by (destruct H2 as (_ & _ & H & _); rewrite H; apply fupd_other; lia).
  rewrite E. apply relinked_next; [|lia]. apply relinked_prev; [done|lia].
Qed.

Lemma unlink_relinked b l :
  length l = S NBUF → (nx l b < length l)%nat → (pv l b < length l)%nat → nx l b ≠ b →
  relinked l (unlink b l) (fupd (nx l) (pv l b) (nx l b)) (fupd (pv l) (nx l b) (pv l b)).
Proof.
  intros Hl Hn Hp Hne. unfold unlink. cbv zeta. set (l1 := setn _ _ l).
  assert (relinked l l1 (nx l) (fupd (pv l) (nx l b) (pv l b))) as H1
    by (apply relinked_prev; [apply relinked_refl|done]).
  assert (nx l1 b = nx l b ∧ pv l1 b = pv l b) as [E1 E2].
  { destruct H1 as (_ & _ & HN & HP). rewrite HN, HP. by rewrite fupd_other. }
  rewrite E1, E2. by apply relinked_next.
Qed.

(** The buffers are linked in the order [ord]. *)
Definition linked (l : list buf) (ord : list nat) : Prop :=
  length l = S NBUF ∧ ord ≡ₚ seq 0 NBUF ∧ path (nx l) (pv l) HEAD ord HEAD.

Lemma linked_ext l l' ord :
  linked l ord → length l' = length l → (∀ i, nx l' i = nx l i ∧ pv l' i = pv l i) → linked l' ord.
Proof.
  intros (Hl & Hp & Hpath) Hl' He. split; [by rewrite Hl'|]. split; [done|].
  apply (path_ext (nx l) (pv l)); [done|intros z _; apply He..].
Qed.

Lemma order_facts ord :
  ord ≡ₚ seq 0 NBUF → NoDup (HEAD :: ord) ∧ NoDup (ord ++ [HEAD]) ∧ (∀ i, i ∈ ord ↔ (i < HEAD)%nat).
Proof.
  intros Hp. assert (∀ i, i ∈ ord ↔ (i < HEAD)%nat) as Hin.
  { intros i. rewrite Hp, elem_of_seq. unfold HEAD. lia. }
  assert (NoDup ord) as Hn by (rewrite Hp; apply NoDup_seq).
  assert (NoDup (HEAD :: ord)) as H1 by (apply NoDup_cons; split; [rewrite Hin; lia|done]).
  split_and!; [done| |done]. by rewrite <-Permutation_cons_append.
Qed.

(** Moving a buffer to the front of the list, as [brelse] does. *)
Lemma linked_move l l1 b l2 :
  linked l (l1 ++ b :: l2) →
  linked (front b (unlink b l)) (b :: l1 ++ l2) ∧
  ∀ i, payload (front b (unlink b l) !!! i) = payload (l !!! i).
Proof.
  intros (Hl & Hp & [H1 H2]%path_app). destruct (order_facts _ Hp) as (Hn1 & Hn2 & Hin).
  pose proof (path_first _ _ _ _ _ H2) as Hfst. pose proof (path_last _ _ _ _ _ H1) as Hlst.
  assert (b < HEAD)%nat as Hb by (apply Hin; set_solver).
  assert (∀ z, z ∈ HEAD :: l1 ++ b :: l2 → (z < S NBUF)%nat) as Hlt.
  { intros z [->|Hz]%elem_of_cons; [unfold HEAD; lia|]. apply Hin in Hz. unfold HEAD in *. lia. }
  rewrite <-app_assoc, <-app_comm_cons in Hn2.
  apply NoDup_app in Hn2 as (Hn3 & Hd & [Hb2 Hn4]%NoDup_cons).
  apply NoDup_cons in Hn1 as [HH Hn1]. apply NoDup_app in Hn1 as (_ & Hd' & _).
  destruct (unlink_relinked b l) as (Lu & Pu & NXu & PVu); [done|rewrite Hl; apply Hlt; set_solver|
    rewrite Hl; apply Hlt; set_solver|intros E; rewrite E in Hfst; done|].
  set (lu := unlink b l) in *.
  assert (path (nx lu) (pv lu) HEAD (l1 ++ l2) HEAD) as Hpu.
  { eapply path_ext; [apply (path_unlink _ _ _ _ _ _ _ H1 H2)|intros z _; apply NXu|intros z _; apply PVu].
    - apply NoDup_cons. split; [set_solver|done].
    - done.
    - intros z Hz Hz'. apply (Hd z Hz). set_solver.
    - set_solver. }
  assert (NoDup (l1 ++ l2)) as Hn12.
  { apply NoDup_app. split_and!; [done|intros z Hz Hz'; apply (Hd' z Hz); set_solver|].
    by apply NoDup_app in Hn4 as (? & _ & _). }
  assert (HEAD ∉ l1 ++ l2) as HH' by set_solver.
  assert (b ∉ l1 ++ l2) as Hbn by set_solver.
  destruct (front_relinked b lu) as (Lf & Pf & NXf & PVf); [by rewrite Lu|done| |].
  { pose proof (path_first _ _ _ _ _ Hpu) as Hf. apply elem_of_app in Hf as [Hf|Hf].
    - assert (nx lu HEAD < S NBUF)%nat; [apply Hlt; set_solver|unfold HEAD in *; lia].
    - apply list_elem_of_singleton in Hf. lia. }
  split; [|intros i; by rewrite Pf, Pu].
  split; [by rewrite Lf, Lu|]. split.
  - rewrite <-Hp. solve_Permutation.
  - eapply path_ext; [apply (path_link _ _ _ _ _ b Hpu)|intros z _; apply NXf|intros z _; apply PVf].
    + assert (b ≠ HEAD) by lia. set_solver.
    + by apply NoDup_cons.
    + rewrite <-Permutation_cons_append. by apply NoDup_cons.
Qed.

Lemma setn_setn i f g l : (i < length l)%nat → setn i f (setn i g l) = setn i (f ∘ g) l.
Proof.
  intros Hi. unfold setn. rewrite list_lookup_total_insert_eq by done. by rewrite list_insert_insert_eq.
Qed.

Lemma linked_setn l ord i n :
  linked l ord → (i < length l)%nat → next n = nx l i → prev n = pv l i → linked (setn i (λ _, n) l) ord.
Proof.
  intros Hr Hi Hn Hp. apply (linked_ext l); [done|apply length_setn|].
  intros j. unfold nx, pv. rewrite setn_lookup by done. by destruct (decide (j = i)) as [->|].
Qed.

(** ** The buffers and the blocks they hold *)

Definition busy (n : buf) : bool := negb (refcnt n =? 0) || has B_DIRTY n.
Definition ent (i : nat) (n : buf) : aent := mk_aent i (data n) (has B_DIRTY n) (negb (refcnt n =? 0)).

Record buf_ok (disk : gmap Z (list Z)) (n : buf) : Prop := {
  bk_len : length (data n) = Z.to_nat BSIZE;
  bk_lock : (b_lock n = sl_free "buffer" ∧ refcnt n = 0) ∨
            (∃ pid, b_lock n = sl_held "buffer" pid ∧ refcnt n = 1);
  bk_state : (dev n = 0 ∧ flags n = 0 ∧ refcnt n = 0) ∨
    (dev n = ROOTDEV ∧ is_Some (disk !! blockno n) ∧
     (flags n = B_VALID ∨ flags n = Z.lor B_VALID B_DIRTY) ∧
     (busy n = false → disk !! blockno n = Some (data n)));
}.

Record cache_ok (N : nat → buf) (a : acache) : Prop := {
  co_buf i : (i < NBUF)%nat → buf_ok (a_disk a) (N i);
  co_uniq i j : (i < NBUF)%nat → (j < NBUF)%nat → dev (N i) = ROOTDEV → dev (N j) = ROOTDEV →
    blockno (N i) = blockno (N j) → i = j;
  co_busy blk e : a_busy a !! blk = Some e ↔
    ∃ i, (i < NBUF)%nat ∧ dev (N i) = ROOTDEV ∧ busy (N i) = true ∧ blockno (N i) = blk ∧ e = ent i (N i);
  co_disk blk dat : a_disk a !! blk = Some dat → length dat = Z.to_nat BSIZE;
}.

Lemma busy_root disk n : buf_ok disk n → busy n = true → dev n = ROOTDEV.
Proof.
  intros [_ _ [(_ & Hf & Hr)|(? & _)]] Hb; [|done]. unfold busy, has in Hb. by rewrite Hf, Hr in Hb.
Qed.

Lemma buf_ok_payload disk n n' : payload n = payload n' → buf_ok disk n → buf_ok disk n'.
Proof. destruct n, n'. intros [= -> -> -> -> -> ->] [H1 H2 H3]. split; done. Qed.

Lemma cache_ok_payload N N' a :
  (∀ i, payload (N' i) = payload (N i)) → cache_ok N a → cache_ok N' a.
Proof.
  intros Hp [H1 H2 H3 H4].
  assert (∀ i, dev (N' i) = dev (N i) ∧ blockno (N' i) = blockno (N i) ∧ busy (N' i) = busy (N i) ∧
               ent i (N' i) = ent i (N i)) as He.
  { intros i. specialize (Hp i). destruct (N i), (N' i). by injection Hp as -> -> -> -> -> ->. }
  split; [| | |done].
  - intros i Hi. eapply buf_ok_payload; [symmetry; apply Hp|by apply H1].
  - intros i j Hi Hj. destruct (He i) as (-> & -> & _), (He j) as (-> & -> & _). by apply H2.
  - intros blk e. rewrite H3. f_equiv. intros i. destruct (He i) as (-> & -> & -> & ->). done.
Qed.

Lemma buf_ok_disk disk disk' n :
  buf_ok disk n → (dev n = ROOTDEV → disk' !! blockno n = disk !! blockno n) → buf_ok disk' n.
Proof.
  intros [H1 H2 H3] Hd. split; [done|done|]. destruct H3 as [?|(Hdev & H)]; [by left|right].
  by rewrite Hd.
Qed.

(** Node [i] becomes [n'], which holds block [blk]; [blk] was in node [i]
    already, or nowhere. *)
Lemma cache_update N N' a i n' blk disk' :
  cache_ok N a → (i < NBUF)%nat → N' i = n' → (∀ j, j ≠ i → N' j = N j) →
  (dev (N i) = ROOTDEV ∧ blockno (N i) = blk) ∨
    (busy (N i) = false ∧ ∀ j, (j < NBUF)%nat → dev (N j) = ROOTDEV → blockno (N j) ≠ blk) →
  dev n' = ROOTDEV → blockno n' = blk → buf_ok disk' n' →
  (∀ b, b ≠ blk → disk' !! b = a_disk a !! b) →
  (∀ b dat, disk' !! b = Some dat → length dat = Z.to_nat BSIZE) →
  cache_ok N' (mk_acache disk' (if busy n' then <[blk := ent i n']> (a_busy a) else delete blk (a_busy a))).
Proof.
  intros [H1 H2 H3 H4] Hi Hn Hj Hold Hdev Hblk Hok Hd Hlen.
  assert (∀ j, (j < NBUF)%nat → j ≠ i → dev (N j) = ROOTDEV → blockno (N j) ≠ blk) as Hother.
  { intros j Hjb Hji Hjd E. destruct Hold as [[Hid Hib]|[_ Hno]]; [|by apply (Hno j)].
    apply Hji, H2; [done..|congruence]. }
  split; cbn [a_disk a_busy]; [| | |done].
  - intros j Hjb. destruct (decide (j = i)) as [->|Hji]; [by rewrite Hn|]. rewrite Hj by done.
    apply (buf_ok_disk (a_disk a)); [by apply H1|]. intros Hjd. apply Hd. by apply Hother.
  - intros j k Hjb Hkb Ej Ek E. destruct (decide (j = i)) as [->|Hji], (decide (k = i)) as [->|Hki]; [done|..].
    + rewrite Hn, (Hj k) in * by done. by destruct (Hother k Hkb Hki Ek); congruence.
    + rewrite Hn, (Hj j) in * by done. by destruct (Hother j Hjb Hji Ej); congruence.
    + rewrite !Hj in * by done. by apply H2.
  - assert (∀ b e, b ≠ blk → a_busy a !! b = Some e ↔ ∃ k, (k < NBUF)%nat ∧ dev (N' k) = ROOTDEV ∧
      busy (N' k) = true ∧ blockno (N' k) = b ∧ e = ent k (N' k)) as Hne.
    { intros b e Hb. rewrite H3. split; intros (k & Hk & Kd & Kb & Kn & Ke); exists k.
      - destruct (decide (k = i)) as [->|Hki]; [|by rewrite Hj].
        destruct Hold as [[_ Hib]|[Hnb _]]; congruence.
      - destruct (decide (k = i)) as [->|Hki]; [rewrite Hn in Kn; congruence|].
        rewrite (Hj k Hki) in Kd, Kb, Kn, Ke. done. }
    intros b e. destruct (decide (b = blk)) as [->|Hb].
    + trans (busy n' = true ∧ e = ent i n').
      { destruct (busy n'); [rewrite lookup_insert_eq|rewrite lookup_delete_eq]; naive_solver. }
      split; [intros [Hbz ->]; exists i; by rewrite Hn|].
      intros (k & Hk & Kd & Kb & Kn & ->). destruct (decide (k = i)) as [->|Hki]; [by rewrite Hn in *|].
      rewrite (Hj k Hki) in Kd, Kn. by destruct (Hother k Hk Hki Kd).
    + rewrite <-Hne by done. destruct (busy n'); [by rewrite lookup_insert_ne|by rewrite lookup_delete_ne].
Qed.

(** If fewer than [NBUF] blocks are in use, some buffer is not. *)
Lemma cache_room N a :
  cache_ok N a → (size (a_busy a) < NBUF)%nat → ∃ i, (i < NBUF)%nat ∧ busy (N i) = false.
Proof.
  intros Hc Hs. destruct (decide (Exists (λ i, busy (N i) = false) (seq 0 NBUF))) as [He|He].
  { apply Exists_exists in He as (i & Hi%elem_of_seq & Hb). exists i. split; [lia|done]. }
  exfalso. apply not_Exists_Forall in He; [|apply _]. rewrite Forall_forall in He.
  assert (∀ i, (i < NBUF)%nat → busy (N i) = true) as Hall.
  { intros i Hi. apply not_false_is_true, He, elem_of_seq. lia. }
  assert (∀ i, (i < NBUF)%nat → dev (N i) = ROOTDEV) as Hdev.
  { intros i Hi. eapply busy_root; [by apply Hc|by apply Hall]. }
  assert ((λ i, blockno (N i)) <$> seq 0 NBUF ⊆ elements (dom (a_busy a))) as Hsub.
  { intros b (i & -> & Hi%elem_of_seq)%list_elem_of_fmap. apply elem_of_elements, elem_of_dom.
    exists (ent i (N i)). apply (co_busy N a Hc). exists i. split_and!; auto with lia. }
  assert (length ((λ i, blockno (N i)) <$> seq 0 NBUF) ≤ length (elements (dom (a_busy a))))%nat as Hlen.
  { apply NoDup_incl_length.
    - apply NoDup_ListNoDup, NoDup_fmap_2_strong; [|apply NoDup_seq].
      intros i j Hi%elem_of_seq Hj%elem_of_seq E. apply (co_uniq N a Hc); auto with lia.
    - intros b Hb. apply list_elem_of_In, Hsub, list_elem_of_In, Hb. }
  rewrite length_fmap, length_seq in Hlen. change (length (elements (dom (a_busy a)))) with (size (dom (a_busy a))) in Hlen.
  rewrite size_dom in Hlen. lia.
Qed.

(** ** The operations *)

(** The first buffer along [l] that satisfies [P]. *)
Definition first (P : buf → bool) (l : list buf) (ix : list nat) : option nat := find (λ i, P (l !!! i)) ix.

Definition holds (dv blk : Z) (n : buf) : bool := (dev n =? dv) && (blockno n =? blk).
Definition recyclable (n : buf) : bool := (refcnt n =? 0) && (Z.land (flags n) B_DIRTY =? 0).

Lemma recyclable_busy n : recyclable n = negb (busy n).
Proof. unfold recyclable, busy, has. by destruct (refcnt n =? 0), (Z.land (flags n) B_DIRTY =? 0). Qed.

Section runs.
Context {D : Type} `{!BlockDev D} (me : nat) (pid : Z).
Implicit Types s : bst D.

Lemma find_cached_run dv blk s x ix fuel :
  path (nx (nodes s)) (pv (nodes s)) x ix HEAD → HEAD ∉ ix → (length ix < fuel)%nat →
  find_cached fuel dv blk (nx (nodes s) x) s = Done (first (holds dv blk) (nodes s) ix, s).
Proof.
  revert x fuel. induction ix as [|y ix IH]; intros x [|fuel] Hp Hh Hf; simpl in Hf; try lia.
  - destruct Hp as [-> _]. done.
  - destruct Hp as (-> & _ & Hp). cbn [find_cached]. rewrite decide_False by (intros ->; apply Hh; by left).
    unfold first, bind, gets. cbn [find]. change (node y s) with (nodes s !!! y). unfold holds at 1.
    destruct ((dev (nodes s !!! y) =? dv) && _); [done|].
    apply IH; [done|set_solver|lia].
Qed.

Lemma find_free_run s ix e fuel :
  path (nx (nodes s)) (pv (nodes s)) HEAD ix e → HEAD ∉ ix → (length ix < fuel)%nat →
  find_free fuel (pv (nodes s) e) s = Done (first recyclable (nodes s) (reverse ix), s).
Proof.
  revert e fuel. induction ix as [|y ix IH] using rev_ind; intros e [|fuel] Hp Hh Hf; try lia.
  - destruct Hp as [_ ->]. done.
  - apply path_app in Hp as [Hp [_ ->]]. rewrite length_app in Hf. simpl in Hf.
    rewrite reverse_snoc. cbn [find_free].
    rewrite decide_False by (intros ->; apply Hh; set_solver).
    unfold first, bind, gets. cbn [find]. change (node y s) with (nodes s !!! y). unfold recyclable at 1.
    destruct ((refcnt (nodes s !!! y) =? 0) && _); [done|].
    apply IH; [done|set_solver|lia].
Qed.

(** A free buffer [b] is taken: its new contents, but for the links. *)
Definition taken (n n' : buf) : buf := set_b_lock (sl_held "buffer" pid) (set_refcnt 1 n').

Lemma bget_run dv blk s ord :
  lock_free (bc_lock s) → linked (nodes s) ord →
  bget me pid dv blk s =
    match first (holds dv blk) (nodes s) ord with
    | Some b =>
        match on_lock b (acquiresleep me pid)
                (mk_bst (bc_lock s) (setn b (λ n, set_refcnt (u32 (refcnt n + 1)) n) (nodes s)) (bdisk s)) with
        | Done (_, s') => Done (b, s')
        | Fail e => Fail e
        end
    | None =>
        match first recyclable (nodes s) (reverse ord) with
        | Some b =>
            match on_lock b (acquiresleep me pid)
                    (mk_bst (bc_lock s) (setn b (set_refcnt 1) (setn b (set_flags 0) (setn b (set_ident dv blk) (nodes s))))
                       (bdisk s)) with
            | Done (_, s') => Done (b, s')
            | Fail e => Fail e
            end
        | None => Fail (EPanic "bget: no buffers")
        end
    end.
Proof.
  intros Hl (Hlen & Hord & Hp). destruct (order_facts _ Hord) as (Hnd & _ & Hin).
  apply NoDup_cons in Hnd as [Hh _].
  assert (length ord < S NBUF)%nat as Hf by (rewrite Hord, length_seq; lia).
  destruct s as [[k nm c] l d]. destruct Hl as [Hk Hc]. cbn [bc_lock nodes bdisk locked lk_cpu] in *. subst k c.
  unfold bget, acquire_bcache, bind, zoom, gets. cbn [bc_lock nodes bdisk].
  rewrite acquire_free by done. cbn [bc_lock nodes bdisk]. unfold node at 1. cbn [nodes].
  set (s1 := mk_bst _ l d).
  rewrite (find_cached_run dv blk s1 HEAD ord) by done. change (nodes s1) with l.
  destruct (first _ l ord) as [b|].
  - unfold upd_node, modify, release_bcache, zoom, s1. cbn [bc_lock nodes bdisk].
    by rewrite release_held.
  - unfold node at 1. cbn [nodes]. rewrite (find_free_run s1 ord HEAD) by done. change (nodes s1) with l.
    destruct (first _ l (reverse ord)) as [b|]; [|done].
    unfold upd_node, modify, release_bcache, zoom, s1. cbn [bc_lock nodes bdisk].
    by rewrite release_held.
Qed.
End runs.

Lemma first_Some P l ix i : first P l ix = Some i → i ∈ ix ∧ P (l !!! i) = true.
Proof. intros [H1 H2]%find_some. split; [by apply list_elem_of_In|done]. Qed.

Lemma first_None P l ix i : first P l ix = None → i ∈ ix → P (l !!! i) = false.
Proof. intros H1 H2%list_elem_of_In. exact (find_none _ _ H1 i H2). Qed.

Lemma holds_true dv blk n : holds dv blk n = true ↔ dev n = dv ∧ blockno n = blk.
Proof. unfold holds. rewrite andb_true_iff, !Z.eqb_eq. done. Qed.

Lemma buf_ok_free disk n : buf_ok disk n → refcnt n = 0 → b_lock n = sl_free "buffer".
Proof. intros H Hr. destruct (bk_lock _ _ H) as [[? _]|(pid & _ & E)]; [done|congruence]. Qed.

Lemma buf_ok_refcnt disk n : buf_ok disk n → negb (refcnt n =? 0) = false → refcnt n = 0.
Proof. intros _ H. apply negb_false_iff, Z.eqb_eq in H. done. Qed.

(** The block is in buffer [b]. *)
Lemma cache_hit N a b blk dat :
  cache_ok N a → (b < NBUF)%nat → dev (N b) = ROOTDEV → blockno (N b) = blk →
  a_view a blk = Some dat → a_can_lock a blk →
  refcnt (N b) = 0 ∧ data (N b) = dat ∧ has B_DIRTY (N b) = a_dirty a blk.
Proof.
  intros Hc Hb Hd Hn Hv Hl. pose proof (co_buf _ _ Hc b Hb) as Hok.
  unfold a_view, a_can_lock, a_dirty in *. destruct (a_busy a !! blk) as [e|] eqn:E.
  - apply (co_busy _ _ Hc) in E as (i & Hi & Hdi & Hbz & Hbi & ->).
    assert (i = b) as -> by (apply (co_uniq _ _ Hc); congruence).
    injection Hv as <-. split_and!; [|done..]. by eapply buf_ok_refcnt.
  - assert (busy (N b) = false) as Hbz.
    { apply not_true_is_false. intros Hbz. enough (a_busy a !! blk = Some (ent b (N b))) by congruence.
      apply (co_busy _ _ Hc). by exists b. }
    destruct (bk_state _ _ Hok) as [(E0 & _)|(_ & _ & _ & Hdat)]; [unfold ROOTDEV in *; congruence|].
    specialize (Hdat Hbz). unfold busy in Hbz. apply orb_false_iff in Hbz as [H1 H2].
    split_and!; [by eapply buf_ok_refcnt| |done]. congruence.
Qed.

(** The block is in no buffer. *)
Lemma cache_miss N a blk :
  cache_ok N a → (∀ i, (i < NBUF)%nat → ¬ (dev (N i) = ROOTDEV ∧ blockno (N i) = blk)) →
  a_busy a !! blk = None.
Proof.
  intros Hc Hno. destruct (a_busy a !! blk) as [e|] eqn:E; [|done].
  apply (co_busy _ _ Hc) in E as (i & Hi & Hd & _ & Hb & _). by destruct (Hno i Hi).
Qed.

(** The entry of a locked block. *)
Lemma cache_entry N a blk h dat dirty :
  cache_ok N a → a_busy a !! blk = Some (mk_aent h dat dirty true) →
  (h < NBUF)%nat ∧ dev (N h) = ROOTDEV ∧ blockno (N h) = blk ∧ data (N h) = dat ∧
  has B_DIRTY (N h) = dirty ∧ refcnt (N h) = 1 ∧ ∃ pid, b_lock (N h) = sl_held "buffer" pid.
Proof.
  intros Hc E. apply (co_busy _ _ Hc) in E as (i & Hi & Hd & _ & Hb & Ee).
  injection Ee as -> -> -> Hr. split_and!; [done..| |].
  - destruct (bk_lock _ _ (co_buf _ _ Hc i Hi)) as [[_ E]|(pid & _ & E)]; [by rewrite E in Hr|done].
  - destruct (bk_lock _ _ (co_buf _ _ Hc i Hi)) as [[_ E]|(pid & Hp & E)]; [by rewrite E in Hr|by exists pid].
Qed.

(** A buffer the caller has locked. *)
Lemma buf_ok_held disk n pid b :
  length (data n) = Z.to_nat BSIZE → b_lock n = sl_held "buffer" pid → refcnt n = 1 →
  dev n = ROOTDEV → is_Some (disk !! blockno n) → flags n = B_VALID ∨ flags n = Z.lor B_VALID B_DIRTY →
  buf_ok disk n ∧ busy n = true ∧ ent b n = mk_aent b (data n) (has B_DIRTY n) true.
Proof.
  intros Hlen Hl Hr Hd Hs Hf. assert (busy n = true) as Hb by (unfold busy; by rewrite Hr).
  split_and!; [|done|unfold ent; by rewrite Hr].
  split; [done|right; by exists pid|right]. split_and!; [done..|]. by rewrite Hb.
Qed.

Section spec.
Context {D : Type} `{!BlockDev D} {ok : D → Prop} {img : D → gmap Z (list Z)} `{!BlockDevSpec D ok img}.
Context (me : nat) (pid : Z).
Implicit Types s : bst D.

Definition bio_R (s : bst D) (a : acache) : Prop :=
  (∃ ord, linked (nodes s) ord) ∧ lock_free (bc_lock s) ∧ ok (bdisk s) ∧ img (bdisk s) = a_disk a ∧
  cache_ok (λ i, nodes s !!! i) a.

Lemma on_lock_run {A} b (m : M sleeplock A) s v sl :
  m (b_lock (nodes s !!! b)) = Done (v, sl) →
  on_lock b m s = Done (v, mk_bst (bc_lock s) (setn b (set_b_lock sl) (nodes s)) (bdisk s)).
Proof. intros E. unfold on_lock, zoom. change (node b s) with (nodes s !!! b). by rewrite E. Qed.

Lemma bind_upd_node {A} i f (k : M (bst D) A) s :
  (upd_node i f;; k) s = k (mk_bst (bc_lock s) (setn i f (nodes s)) (bdisk s)).
Proof. done. Qed.

(** Replacing one buffer, links kept. *)
Lemma bio_R_update s a b n' d' blk :
  bio_R s a → (b < NBUF)%nat →
  next n' = next (nodes s !!! b) → prev n' = prev (nodes s !!! b) →
  (dev (nodes s !!! b) = ROOTDEV ∧ blockno (nodes s !!! b) = blk) ∨
    (busy (nodes s !!! b) = false ∧
     ∀ j, (j < NBUF)%nat → dev (nodes s !!! j) = ROOTDEV → blockno (nodes s !!! j) ≠ blk) →
  dev n' = ROOTDEV → blockno n' = blk → buf_ok (img d') n' → ok d' →
  (∀ b, b ≠ blk → img d' !! b = a_disk a !! b) →
  (∀ b dat, img d' !! b = Some dat → length dat = Z.to_nat BSIZE) →
  bio_R (mk_bst (bc_lock s) (setn b (λ _, n') (nodes s)) d')
    (mk_acache (img d') (if busy n' then <[blk := ent b n']> (a_busy a) else delete blk (a_busy a))).
Proof.
  intros ([ord Hr] & Hl & Hok & Himg & Hc) Hb Hnx Hpv Hold Hdev Hblk Hbok Hok' Hd Hlen.
  assert (b < length (nodes s))%nat as Hbl by (destruct Hr as [-> _]; lia).
  unfold bio_R. cbn [nodes bc_lock bdisk a_disk]. split_and!; [|done|done|done|].
  - exists ord. by apply linked_setn.
  - apply (cache_update (λ i, nodes s !!! i)); try done.
    + rewrite setn_lookup by done. by rewrite decide_True.
    + intros j Hj. rewrite setn_lookup by done. by rewrite decide_False.
Qed.

(** The same for a buffer that ends up locked. *)
Lemma bio_R_held s a b n' d' blk p :
  bio_R s a → (b < NBUF)%nat →
  next n' = next (nodes s !!! b) → prev n' = prev (nodes s !!! b) →
  (dev (nodes s !!! b) = ROOTDEV ∧ blockno (nodes s !!! b) = blk) ∨
    (busy (nodes s !!! b) = false ∧
     ∀ j, (j < NBUF)%nat → dev (nodes s !!! j) = ROOTDEV → blockno (nodes s !!! j) ≠ blk) →
  length (data n') = Z.to_nat BSIZE → b_lock n' = sl_held "buffer" p → refcnt n' = 1 →
  dev n' = ROOTDEV → blockno n' = blk → flags n' = B_VALID ∨ flags n' = Z.lor B_VALID B_DIRTY →
  is_Some (a_disk a !! blk) → ok d' → (img d' = a_disk a ∨ img d' = <[blk := data n']> (a_disk a)) →
  bio_R (mk_bst (bc_lock s) (setn b (λ _, n') (nodes s)) d')
    (mk_acache (img d') (<[blk := mk_aent b (data n') (has B_DIRTY n') true]> (a_busy a))).
Proof.
  intros HR Hb Hnx Hpv Hold Hlen Hl Hr Hdev Hblk Hf Hs Hok Himg.
  pose proof HR as (_ & _ & _ & _ & Hc). pose proof (co_disk _ _ Hc) as Hd.
  destruct (buf_ok_held (img d') n' p b) as (Hbok & Hbz & He); [done..| |done|].
  { rewrite Hblk. destruct Himg as [->| ->]; [done|rewrite lookup_insert_eq; by eexists]. }
  rewrite <-He. pose proof (bio_R_update s a b n' d' blk) as H. rewrite Hbz in H. apply H; try done.
  - intros x Hx. destruct Himg as [->| ->]; [done|by rewrite lookup_insert_ne].
  - intros x dat. destruct Himg as [->| ->]; [apply Hd|].
    destruct (decide (x = blk)) as [->|]; [rewrite lookup_insert_eq; congruence|].
    rewrite lookup_insert_ne by done. apply Hd.
Qed.

Lemma bread_hit s a ord b blk dat :
  bio_R s a → linked (nodes s) ord → first (holds ROOTDEV blk) (nodes s) ord = Some b →
  a_view a blk = Some dat → a_can_lock a blk →
  ∃ s', bio_bread me pid ROOTDEV blk s = Done (b, s') ∧
        bio_R s' (a_put blk (mk_aent b dat (a_dirty a blk) true) a).
Proof.
  intros HR Hr Hf Hv Hl. pose proof HR as (_ & Hlk & Hok & Himg & Hc).
  destruct (first_Some _ _ _ _ Hf) as [Hb [Hd Hn]%holds_true].
  destruct (order_facts ord (proj1 (proj2 Hr))) as (_ & _ & Hin). apply Hin in Hb.
  destruct (cache_hit _ _ b blk dat Hc Hb Hd Hn Hv Hl) as (Hrc & Hdat & Hdy).
  pose proof (co_buf _ _ Hc b Hb) as Hbok. pose proof (buf_ok_free _ _ Hbok Hrc) as Hsl.
  assert (b < length (nodes s))%nat as Hbl by (destruct Hr as [-> _]; unfold HEAD in *; lia).
  set (n' := set_b_lock (sl_held "buffer" pid) (set_refcnt 1 (nodes s !!! b))).
  exists (mk_bst (bc_lock s) (setn b (λ _, n') (nodes s)) (bdisk s)). split.
  - unfold bio_bread, bind at 1. rewrite (bget_run me pid _ _ s ord) by done. rewrite Hf.
    erewrite on_lock_run by (cbn [nodes]; rewrite setn_lookup by done; rewrite decide_True by done;
      cbn [set_refcnt b_lock]; rewrite Hsl; apply acquiresleep_free).
    cbn [nodes bc_lock bdisk]. rewrite setn_setn by done. unfold setn at 1. cbv beta.
    unfold compose. rewrite Hrc. fold n'. unfold bind, gets, when.
    unfold node. cbn [nodes]. rewrite list_lookup_total_insert_eq by done.
    destruct (bk_state _ _ Hbok) as [(E0 & _)|(_ & _ & [Hfl|Hfl] & _)]; [by rewrite Hd in E0|..];
      subst n'; cbn [set_b_lock set_refcnt flags]; by rewrite Hfl.
  - unfold a_put. rewrite <-Himg, <-Hdat, <-Hdy. destruct (bk_state _ _ Hbok) as [(E0 & _)|(_ & Hs & Hfl & _)].
    { by rewrite Hd in E0. }
    apply (bio_R_held s a b n' (bdisk s) blk pid); try done; [by left|apply Hbok|congruence|by left].
Qed.

(** What the two scans of [bget] find when the block is not cached. *)
Lemma scans_miss s a ord blk :
  bio_R s a → linked (nodes s) ord → first (holds ROOTDEV blk) (nodes s) ord = None → a_can_lock a blk →
  a_busy a !! blk = None ∧
  (∀ j, (j < NBUF)%nat → dev (nodes s !!! j) = ROOTDEV → blockno (nodes s !!! j) ≠ blk) ∧
  ∃ b, first recyclable (nodes s) (reverse ord) = Some b ∧ (b < NBUF)%nat ∧
    busy (nodes s !!! b) = false ∧ b_lock (nodes s !!! b) = sl_free "buffer".
Proof.
  intros (_ & _ & _ & _ & Hc) Hr Hf Hl.
  destruct (order_facts ord (proj1 (proj2 Hr))) as (_ & _ & Hin).
  assert (∀ i, (i < NBUF)%nat → ¬ (dev (nodes s !!! i) = ROOTDEV ∧ blockno (nodes s !!! i) = blk)) as Hno.
  { intros i Hi%Hin E%holds_true. by rewrite (first_None _ _ _ _ Hf Hi) in E. }
  pose proof (cache_miss _ _ _ Hc Hno) as Hnone. unfold a_can_lock in Hl. rewrite Hnone in Hl.
  split_and!; [done|intros j Hj H1 H2; by apply (Hno j)|].
  destruct (first recyclable (nodes s) (reverse ord)) as [b|] eqn:Hfree; last first.
  { exfalso. destruct (cache_room _ _ Hc Hl) as (i & Hi%Hin & Hbz).
    eapply first_None in Hfree; [|by apply elem_of_reverse]. by rewrite recyclable_busy, Hbz in Hfree. }
  destruct (first_Some _ _ _ _ Hfree) as [Hb%elem_of_reverse%Hin Hbz].
  rewrite recyclable_busy in Hbz. apply negb_true_iff in Hbz. exists b. split_and!; [done..|].
  unfold busy in Hbz. apply orb_false_iff in Hbz as [E%negb_false_iff%Z.eqb_eq _].
  eapply buf_ok_free; [by apply Hc|done].
Qed.

Lemma bread_miss s a ord blk dat :
  bio_R s a → linked (nodes s) ord → first (holds ROOTDEV blk) (nodes s) ord = None →
  a_view a blk = Some dat → a_can_lock a blk →
  ∃ b s', first recyclable (nodes s) (reverse ord) = Some b ∧
    bio_bread me pid ROOTDEV blk s = Done (b, s') ∧
    bio_R s' (a_put blk (mk_aent b dat (a_dirty a blk) true) a).
Proof.
  intros HR Hr Hf Hv Hl. pose proof HR as (_ & Hlk & Hok & Himg & Hc).
  destruct (scans_miss s a ord blk) as (Hnone & Hno & b & Hfree & Hb & Hbz & Hsl); [done..|].
  unfold a_view, a_dirty in *. rewrite Hnone in *.
  assert (b < length (nodes s))%nat as Hbl by (destruct Hr as [-> _]; lia).
  set (n1 := set_b_lock (sl_held "buffer" pid) (set_refcnt 1 (set_flags 0 (set_ident ROOTDEV blk (nodes s !!! b))))).
  destruct (dev_read me n1 (bdisk s) dat "buffer" pid) as (d' & E & Hok' & Himg'); [done..|by rewrite Himg|].
  exists b, (mk_bst (bc_lock s) (setn b (λ _, set_flags B_VALID (set_data dat n1)) (nodes s)) d').
  split_and!; [done| |].
  - unfold bio_bread, bind at 1. rewrite (bget_run me pid _ _ s ord) by done. rewrite Hf, Hfree.
    erewrite on_lock_run by (cbn [nodes]; rewrite !setn_lookup by (rewrite ?length_setn; done);
      rewrite !decide_True by done; cbn [set_refcnt set_flags set_ident b_lock]; rewrite Hsl; apply acquiresleep_free).
    cbn [nodes bc_lock bdisk]. rewrite !setn_setn by (rewrite ?length_setn; done).
    unfold setn, compose. fold n1. unfold bind, gets, when, call_iderw.
    unfold node. cbn [nodes bdisk bc_lock]. rewrite list_lookup_total_insert_eq by done.
    change (Z.land (flags n1) B_VALID =? 0) with true. cbv iota beta. cbn [nodes bdisk bc_lock].
    rewrite list_lookup_total_insert_eq by done. rewrite E. by rewrite list_insert_insert_eq.
  - unfold a_put. rewrite <-Himg, <-Himg'.
    apply (bio_R_held s a b (set_flags B_VALID (set_data dat n1)) d' blk pid); try done;
      [by right|by apply (co_disk _ _ Hc) in Hv|by left|left; congruence].
Qed.

Lemma bio_bread_ok s a blk dat :
  bio_R s a → a_view a blk = Some dat → a_can_lock a blk →
  ∃ h s', bio_bread me pid ROOTDEV blk s = Done (h, s') ∧
    bio_R s' (a_put blk (mk_aent h dat (a_dirty a blk) true) a).
Proof.
  intros HR Hv Hl. pose proof HR as ([ord Hr] & _).
  destruct (first (holds ROOTDEV blk) (nodes s) ord) as [b|] eqn:E.
  - destruct (bread_hit s a ord b blk dat) as (s' & H1 & H2); [done..|]. by exists b, s'.
  - destruct (bread_miss s a ord blk dat) as (b & s' & _ & H1 & H2); [done..|]. by exists b, s'.
Qed.

(** Facts about a buffer the caller has locked. *)
Lemma bio_R_entry s a blk h dat dirty :
  bio_R s a → a_busy a !! blk = Some (mk_aent h dat dirty true) →
  (h < NBUF)%nat ∧ (h < length (nodes s))%nat ∧ dev (nodes s !!! h) = ROOTDEV ∧ blockno (nodes s !!! h) = blk ∧
  data (nodes s !!! h) = dat ∧ has B_DIRTY (nodes s !!! h) = dirty ∧ refcnt (nodes s !!! h) = 1 ∧
  length dat = Z.to_nat BSIZE ∧ is_Some (a_disk a !! blk) ∧
  flags (nodes s !!! h) = (if dirty then Z.lor B_VALID B_DIRTY else B_VALID) ∧
  ∃ p, b_lock (nodes s !!! h) = sl_held "buffer" p.
Proof.
  intros ([ord [Hlen _]] & _ & _ & _ & Hc) E.
  destruct (cache_entry _ _ _ _ _ _ Hc E) as (Hh & Hd & Hb & Hdat & Hdy & Hrc & Hl).
  destruct (co_buf _ _ Hc h Hh) as [Hdl _ [(E0 & _)|(_ & Hs & Hf & _)]]; [by rewrite Hd in E0|].
  split_and!; [done|lia|done..| | | |done]; [congruence| |].
  - by rewrite <-Hb.
  - subst dirty. unfold has. by destruct Hf as [-> | ->].
Qed.

Lemma bio_bwrite_ok s a blk h dat dirty :
  bio_R s a → a_busy a !! blk = Some (mk_aent h dat dirty true) →
  (∃ s', bio_bwrite me h s = Done (tt, s') ∧
     bio_R s' (mk_acache (<[blk := dat]> (a_disk a)) (<[blk := mk_aent h dat false true]> (a_busy a)))) ∨
  bio_bwrite me h s = Fail (ECrash (a_disk a)).
Proof.
  intros HR E. destruct (bio_R_entry _ _ _ _ _ _ HR E)
    as (Hh & Hhl & Hd & Hb & Hdat & Hdy & Hrc & Hlen & Hs & Hf & p & Hl).
  pose proof HR as (_ & _ & Hok & Himg & _).
  set (n1 := set_flags (Z.lor B_VALID B_DIRTY) (nodes s !!! h)).
  assert (bio_bwrite me h s = call_iderw me h (mk_bst (bc_lock s) (setn h (λ _, n1) (nodes s)) (bdisk s))) as Eq.
  { unfold bio_bwrite, bind at 1. erewrite on_lock_run by (rewrite Hl; apply holdingsleep_held).
    cbn [Z.eqb]. unfold bind, upd_node, modify. unfold node. cbn [nodes bc_lock bdisk].
    do 2 f_equal. rewrite setn_lookup, decide_True by done. unfold setn. rewrite list_insert_insert_eq. f_equal.
    unfold n1. rewrite <-Hl. destruct (nodes s !!! h). cbn in *. rewrite Hf. by destruct dirty. }
  unfold call_iderw in Eq. rewrite Eq. unfold node. cbn [nodes bdisk bc_lock].
  rewrite setn_lookup, decide_True by done.
  destruct (dev_write me n1 (bdisk s) "buffer" p) as [(d' & Ew & Hok' & Himg')|Ew];
    [done..|rewrite Himg; cbn; by rewrite Hb|cbn; by rewrite Hdat| |]; rewrite Ew; [left|right; by rewrite Himg].
  eexists. split; [done|]. unfold setn. rewrite list_insert_insert_eq.
  assert (img d' = <[blk := dat]> (a_disk a)) as E2 by (rewrite Himg', Himg; cbn; by rewrite Hb, Hdat).
  rewrite <-E2. cbn in Hdat. rewrite <-Hdat.
  apply (bio_R_held s a h (set_flags B_VALID n1) d' blk p); cbn; try done; [by left|congruence|by left|right; congruence].
Qed.

Lemma bio_set_data_ok s a blk h dat dirty dat' :
  bio_R s a → a_busy a !! blk = Some (mk_aent h dat dirty true) → length dat' = Z.to_nat BSIZE →
  bio_R (set_buf_data (BufLayer := bio_layer me pid) h dat' s) (a_put blk (mk_aent h dat' dirty true) a).
Proof.
  intros HR E Hl'. destruct (bio_R_entry _ _ _ _ _ _ HR E)
    as (Hh & Hhl & Hd & Hb & Hdat & Hdy & Hrc & Hlen & Hs & Hf & p & Hl).
  pose proof HR as (_ & _ & Hok & Himg & _). unfold a_put. rewrite <-Himg, <-Hdy.
  apply (bio_R_held s a h (set_data dat' (nodes s !!! h)) (bdisk s) blk p); cbn; try done; [by left| |by left].
  rewrite Hf. destruct dirty; [by right|by left].
Qed.

Lemma bio_mark_dirty_ok s a blk h dat dirty :
  bio_R s a → a_busy a !! blk = Some (mk_aent h dat dirty true) →
  bio_R (mark_dirty (BufLayer := bio_layer me pid) h s) (a_put blk (mk_aent h dat true true) a).
Proof.
  intros HR E. destruct (bio_R_entry _ _ _ _ _ _ HR E)
    as (Hh & Hhl & Hd & Hb & Hdat & Hdy & Hrc & Hlen & Hs & Hf & p & Hl).
  pose proof HR as (_ & _ & Hok & Himg & _). unfold a_put. rewrite <-Himg, <-Hdat.
  cbn [mark_dirty bio_layer]. unfold node. rewrite Hf.
  replace (Z.lor (if dirty then Z.lor B_VALID B_DIRTY else B_VALID) B_DIRTY)
    with (Z.lor B_VALID B_DIRTY) by (by destruct dirty).
  apply (bio_R_held s a h (set_flags (Z.lor B_VALID B_DIRTY) (nodes s !!! h)) (bdisk s) blk p);
    cbn; try done; [by left|congruence|by right|by left].
Qed.

(** The effect of [brelse], as a function of the cache. *)
Lemma bio_brelse_run s ord h p :
  linked (nodes s) ord → lock_free (bc_lock s) → (h < NBUF)%nat →
  b_lock (nodes s !!! h) = sl_held "buffer" p → refcnt (nodes s !!! h) = 1 →
  bio_brelse me h s =
    Done (tt, mk_bst (bc_lock s)
      (front h (unlink h (setn h (λ n, set_refcnt 0 (set_b_lock (sl_free "buffer") n)) (nodes s)))) (bdisk s)).
Proof.
  intros (Hlen & _) [Hk Hc] Hh Hl Hrc. destruct s as [[k nm c] l d]. cbn [bc_lock nodes bdisk locked lk_cpu] in *. subst k c.
  assert (h < length l)%nat as Hhl by lia.
  unfold bio_brelse. unfold bind at 1. erewrite on_lock_run by (cbn [nodes]; rewrite Hl; apply holdingsleep_held).
  cbn [Z.eqb nodes bc_lock bdisk]. unfold bind at 1.
  erewrite on_lock_run by (cbn [nodes]; rewrite setn_lookup, decide_True by done; apply releasesleep_held).
  cbn [nodes bc_lock bdisk]. rewrite setn_setn by done.
  set (l1 := setn h _ l). assert (length l1 = length l) as Hl1 by apply length_setn.
  unfold bind at 1, acquire_bcache, zoom at 1. cbn [bc_lock nodes bdisk]. rewrite acquire_free by done.
  rewrite bind_upd_node. cbn [bc_lock nodes bdisk]. unfold l1. rewrite setn_setn by done.
  set (l2 := setn h _ l).
  assert (l2 = setn h (λ n, set_refcnt 0 (set_b_lock (sl_free "buffer") n)) l) as <-.
  { unfold l2, setn, compose. f_equal. cbn. by rewrite Hrc. }
  assert (refcnt (l2 !!! h) = 0) as Hr2.
  { unfold l2. rewrite setn_lookup, decide_True by done. cbn. by rewrite Hrc. }
  unfold bind at 1, gets at 1, node at 1. cbn [nodes]. rewrite Hr2. cbn [Z.eqb when].
  clearbody l2. transitivity (release_bcache me (mk_bst (mk_spinlock 1 nm (Some me)) (front h (unlink h l2)) d)).
  { reflexivity. }
  unfold release_bcache, zoom. cbn [bc_lock nodes bdisk]. by rewrite release_held.
Qed.

Lemma bio_brelse_ok s a blk h dat dirty :
  bio_R s a → a_busy a !! blk = Some (mk_aent h dat dirty true) → dirty = true ∨ a_disk a !! blk = Some dat →
  ∃ s', bio_brelse me h s = Done (tt, s') ∧ bio_R s' (a_unlock blk (mk_aent h dat dirty true) a).
Proof.
  intros HR E Hdat'. destruct (bio_R_entry _ _ _ _ _ _ HR E)
    as (Hh & Hhl & Hd & Hb & Hdat & Hdy & Hrc & Hlen & Hs & Hf & p & Hl).
  pose proof HR as ([ord Hr] & Hlk & Hok & Himg & Hc).
  eexists. split; [by eapply bio_brelse_run|].
  set (n' := set_refcnt 0 (set_b_lock (sl_free "buffer") (nodes s !!! h))).
  assert (busy n' = dirty) as Hbz by (subst n'; unfold busy; cbn; exact Hdy).
  assert (bio_R (mk_bst (bc_lock s) (setn h (λ _, n') (nodes s)) (bdisk s))
    (a_unlock blk (mk_aent h dat dirty true) a)) as HR1.
  { unfold a_unlock, a_put. cbn [ae_dirty ae_h ae_data]. rewrite <-Himg.
    replace (if dirty then _ else _) with (mk_acache (img (bdisk s))
      (if busy n' then <[blk := ent h n']> (a_busy a) else delete blk (a_busy a))).
    2:{ rewrite Hbz. destruct dirty; [|done]. unfold ent.
        change (has B_DIRTY n') with (has B_DIRTY (nodes s !!! h)). change (data n') with (data (nodes s !!! h)).
        by rewrite Hdy, Hdat. }
    apply bio_R_update; try done; [by left| |by rewrite Himg|rewrite Himg; apply Hc].
    split; [cbn; congruence|by left|right]. rewrite Himg. split_and!; [done|cbn; by rewrite Hb| |].
    - cbn. rewrite Hf. destruct dirty; [by right|by left].
    - rewrite Hbz. cbn. intros ->. rewrite Hb, Hdat. by destruct Hdat'. }
  destruct HR1 as ([ord1 Hr1] & Hlk1 & Hok1 & Himg1 & Hc1). cbn [nodes bc_lock bdisk] in *.
  assert (h ∈ ord1) as Hin.
  { apply (order_facts ord1); [apply Hr1|done]. }
  apply list_elem_of_split in Hin as (o1 & o2 & ->).
  destruct (linked_move _ _ _ _ Hr1) as [Hr2 Hp2].
  unfold bio_R. cbn [nodes bc_lock bdisk]. split_and!; [by eexists|done..|].
  eapply cache_ok_payload; [|exact Hc1]. exact Hp2.
Qed.

#[export] Instance bio_spec : BufLayerSpec (BufLayer0 := bio_layer me pid) (bst D) bio_R.
Proof.
  split.
  - intros s a blk dat HR Hv. pose proof HR as (_ & _ & _ & _ & Hc). unfold a_view in Hv.
    destruct (a_busy a !! blk) as [e|] eqn:E; [|by apply Hc in Hv].
    apply Hc in E as (i & Hi & _ & _ & _ & ->). injection Hv as <-. apply (co_buf _ _ Hc i Hi).
  - intros s a blk dat HR Hv Hl _. by apply bio_bread_ok.
  - intros. by eapply bio_bwrite_ok.
  - intros. by eapply bio_brelse_ok.
  - intros s a blk h dat dirty HR E. destruct (bio_R_entry _ _ _ _ _ _ HR E) as (_ & _ & _ & Hb & Hd & _).
    by split.
  - intros. by eapply bio_set_data_ok.
  - intros. by eapply bio_mark_dirty_ok.
Qed.

End spec.

(** ** Initialisation *)

#[local] Instance spinlock_eq_dec : EqDecision spinlock.
Proof. solve_decision. Defined.
#[local] Instance sleeplock_eq_dec : EqDecision sleeplock.
Proof. solve_decision. Defined.
#[local] Instance path_dec NX PV x l e : Decision (path NX PV x l e).
Proof. revert x. induction l as [|y l IH]; intros x; simpl; apply _. Defined.

(** The nodes [binit] leaves. *)
Definition binit_nodes : list buf :=
  match binit (bcache0 tt) with Done (_, s) => nodes s | Fail _ => [] end.

Lemma binit_run {D} (d : D) : binit (bcache0 d) = Done (tt, mk_bst (initlock "bcache") binit_nodes d).
Proof. vm_compute. reflexivity. Qed.

Lemma binit_linked : linked binit_nodes (reverse (seq 0 NBUF)).
Proof.
  split; [vm_compute; reflexivity|]. split; [apply reverse_Permutation|].
  refine (bool_decide_eq_true_1 _ _). vm_compute. reflexivity.
Qed.

Lemma binit_fresh i :
  (i < NBUF)%nat → let n := binit_nodes !!! i in
  dev n = 0 ∧ flags n = 0 ∧ refcnt n = 0 ∧ b_lock n = sl_free "buffer" ∧ length (data n) = Z.to_nat BSIZE.
Proof.
  intros Hi. cbv zeta.
  assert (Forall (λ n, dev n = 0 ∧ flags n = 0 ∧ refcnt n = 0 ∧ b_lock n = sl_free "buffer" ∧
                       length (data n) = Z.to_nat BSIZE) (take NBUF binit_nodes)) as H.
  { refine (bool_decide_eq_true_1 _ _). vm_compute. reflexivity. }
  rewrite Forall_lookup in H. apply (H i).
  rewrite lookup_take_lt by done. apply list_lookup_lookup_total_lt.
  destruct binit_linked as [-> _]. lia.
Qed.

Lemma cache_ok_fresh (N : nat → buf) disk :
  (∀ i, (i < NBUF)%nat → let n := N i in dev n = 0 ∧ flags n = 0 ∧ refcnt n = 0 ∧
     b_lock n = sl_free "buffer" ∧ length (data n) = Z.to_nat BSIZE) →
  (∀ blk dat, disk !! blk = Some dat → length dat = Z.to_nat BSIZE) →
  cache_ok N (mk_acache disk ∅).
Proof.
  intros H Hlen. assert (∀ i, (i < NBUF)%nat → dev (N i) = 0) as Hdev by (intros; by apply H).
  split; cbn [a_disk a_busy]; [| | |done].
  - intros i (H1 & H2 & H3 & H4 & H5)%H. split; [done|by left|by left].
  - intros i j Hi _ E. by rewrite Hdev in E.
  - intros blk e. rewrite lookup_empty. split; [done|]. intros (i & Hi & E & _). by rewrite Hdev in E.
Qed.

Lemma binit_ok {D} `{!BlockDev D} {ok img} `{!BlockDevSpec D ok img} (d : D) :
  ok d → (∀ blk dat, img d !! blk = Some dat → length dat = Z.to_nat BSIZE) →
  ∃ s, binit (bcache0 d) = Done (tt, s) ∧ bio_R (ok := ok) (img := img) s (mk_acache (img d) ∅).
Proof.
  intros Hok Hlen. rewrite binit_run. eexists. split; [reflexivity|].
  split; [eexists; exact binit_linked|]. split; [done|]. split; [exact Hok|]. split; [reflexivity|].
  apply cache_ok_fresh; [exact binit_fresh|exact Hlen].
Qed.

(** ** Properties of the cache *)

Section properties.
Context {D : Type} `{!BlockDev D} {ok : D → Prop} {img : D → gmap Z (list Z)} `{!BlockDevSpec D ok img}.
Abbreviation R := (bio_R (ok := ok) (img := img)).

(** C32: [bread] of a block that is not locked, while at most 29 other blocks
    are in use, returns with the block's current contents in a locked buffer;
    the buffer is the one that holds the block already, and otherwise the
    least recently released one that is neither referenced nor dirty.  The
    cache stays consistent and no list link changes. *)
Theorem bread_correct me pid (s : bst D) a ord blk dat :
  R s a → linked (nodes s) ord → a_view a blk = Some dat → a_can_lock a blk →
  ∃ b s', bio_bread me pid ROOTDEV blk s = Done (b, s') ∧
    R s' (a_put blk (mk_aent b dat (a_dirty a blk) true) a) ∧
    data (node b s') = dat ∧ blockno (node b s') = blk ∧ sl_locked (b_lock (node b s')) = 1 ∧
    (first (holds ROOTDEV blk) (nodes s) ord = Some b ∨
     first (holds ROOTDEV blk) (nodes s) ord = None ∧ first recyclable (nodes s) (reverse ord) = Some b).
Proof.
  intros HR Hr Hv Hl. assert (∃ b s', bio_bread me pid ROOTDEV blk s = Done (b, s') ∧
    R s' (a_put blk (mk_aent b dat (a_dirty a blk) true) a) ∧
    (first (holds ROOTDEV blk) (nodes s) ord = Some b ∨
     first (holds ROOTDEV blk) (nodes s) ord = None ∧ first recyclable (nodes s) (reverse ord) = Some b))
    as (b & s' & E & HR' & Hb).
  { destruct (first (holds ROOTDEV blk) (nodes s) ord) as [b|] eqn:E.
    - destruct (bread_hit me pid s a ord b blk dat HR Hr E Hv Hl) as (s' & H1 & H2). exists b, s'. auto.
    - destruct (bread_miss me pid s a ord blk dat HR Hr E Hv Hl) as (b & s' & H0 & H1 & H2). exists b, s'. auto. }
  exists b, s'. destruct (bio_R_entry s' _ blk b dat (a_dirty a blk) HR') as (_ & _ & _ & Hbn & Hd & _ & _ & _ & _ & _ & p & Hp).
  { apply lookup_insert_eq. }
  unfold node. rewrite Hp. done.
Qed.

(** What [bwrite] returned from is on the disk: after a reboot that
    rebuilds the cache with [binit], [bread] returns the data written. *)
Theorem bwrite_durable me pid (s s' : bst D) a blk h dat dirty :
  R s a → a_busy a !! blk = Some (mk_aent h dat dirty true) → bio_bwrite me h s = Done (tt, s') →
  ∃ s0 b s1, binit (bcache0 (bdisk s')) = Done (tt, s0) ∧
    bio_bread me pid ROOTDEV blk s0 = Done (b, s1) ∧ data (node b s1) = dat.
Proof.
  intros HR E Hw. destruct (bio_bwrite_ok me s a blk h dat dirty HR E) as [(s2 & E2 & HR2)|E2]; [|congruence].
  assert (s2 = s') as -> by congruence. destruct HR2 as (_ & _ & Hok & Himg & Hc).
  destruct (binit_ok (bdisk s') Hok) as (s0 & Hi & HR0).
  { intros x y Hxy. apply (co_disk _ _ Hc x). by rewrite <-Himg. }
  destruct (bio_bread_ok me pid s0 _ blk dat HR0) as (b & s1 & E1 & HR1).
  { unfold a_view. cbn [a_busy a_disk]. rewrite lookup_empty, Himg. apply lookup_insert_eq. }
  { unfold a_can_lock. cbn. rewrite lookup_empty, map_size_empty. unfold NBUF, MAXOPBLOCKS. lia. }
  exists s0, b, s1. split_and!; [done..|].
  destruct (bio_R_entry s1 _ blk b dat (a_dirty (mk_acache (img (bdisk s')) ∅) blk) HR1)
    as (_ & _ & _ & _ & Hd & _); [apply lookup_insert_eq|done].
Qed.

End properties.

#[local] Existing Instances Memide.memide_dev Memide.memide_spec.

(** A disk of three blocks, freshly booted. *)
Definition demo_disk : Memide.disk := Memide.ideinit (concat (replicate 512 <$> [1; 2; 3])).
Definition demo_cache : bst Memide.disk := mk_bst (initlock "bcache") binit_nodes demo_disk.

Lemma demo_disk_wf : Memide.wf demo_disk.
Proof. split; [by vm_compute|]. split; vm_compute; congruence. Qed.

Lemma demo_disk_blocks blk dat : Memide.img demo_disk !! blk = Some dat → length dat = Z.to_nat BSIZE.
Proof.
  intros [Hb ->]%Memide.img_lookup_Some. revert blk Hb. change (Memide.disksize demo_disk) with (Z.of_nat 3).
  apply z_cases. repeat constructor.
Qed.

Lemma demo_cache_ok : bio_R (ok := Memide.wf) (img := Memide.img) demo_cache (mk_acache (Memide.img demo_disk) ∅).
Proof.
  destruct (binit_ok demo_disk demo_disk_wf demo_disk_blocks) as (s & E & HR).
  rewrite binit_run in E. injection E as <-. exact HR.
Qed.

Lemma demo_block : Memide.img demo_disk !! 1 = Some (replicate 512 2).
Proof.
  rewrite Memide.img_lookup by (vm_compute; split; congruence).
  vm_compute. reflexivity.
Qed.

Lemma bread_correct_witness :
  ∃ b s', bio_bread 0 7 ROOTDEV 1 demo_cache = Done (b, s') ∧ data (node b s') = replicate 512 2.
Proof.
  destruct (bread_correct 0 7 demo_cache (mk_acache (Memide.img demo_disk) ∅) (reverse (seq 0 NBUF)) 1
    (replicate 512 2) demo_cache_ok binit_linked demo_block) as (b & s' & E & _ & Hd & _).
  { vm_compute. lia. }
  exists b, s'. exact (conj E Hd).
Defined.

(** Block 1 read, then written back. *)
Definition demo_locked : bst Memide.disk :=
  match bio_bread 0 7 ROOTDEV 1 demo_cache with Done (_, s) => s | Fail _ => demo_cache end.
Definition demo_written : bst Memide.disk :=
  match bio_bwrite 0 0 demo_locked with Done (_, s) => s | Fail _ => demo_cache end.

Lemma demo_written_ok : bio_bwrite 0 0 demo_locked = Done (tt, demo_written).
Proof.
  assert (match bio_bwrite 0 0 demo_locked with Done _ => true | Fail _ => false end = true) as H by (by vm_compute).
  unfold demo_written. destruct (bio_bwrite 0 0 demo_locked) as [[[] s]|]; [reflexivity|discriminate].
Qed.

Lemma demo_locked_ok :
  bio_R (ok := Memide.wf) (img := Memide.img) demo_locked
    (a_put 1 (mk_aent 0 (replicate 512 2) false true) (mk_acache (Memide.img demo_disk) ∅)).
Proof.
  destruct (bio_bread_ok 0 7 demo_cache _ 1 (replicate 512 2) demo_cache_ok demo_block) as (b & s & E & HR);
    [vm_compute; lia|].
  assert (match bio_bread 0 7 ROOTDEV 1 demo_cache with Done (b, _) => b | Fail _ => 1%nat end = 0%nat) as Hb
    by (by vm_compute).
  unfold demo_locked. rewrite E in Hb |- *. rewrite Hb in HR. exact HR.
Qed.

Lemma bwrite_durable_witness :
  ∃ s0 b s1, binit (bcache0 (bdisk demo_written)) = Done (tt, s0) ∧
    bio_bread 0 8 ROOTDEV 1 s0 = Done (b, s1) ∧ data (node b s1) = replicate 512 2.
Proof.
  exact (bwrite_durable 0 8 demo_locked demo_written _ 1 0 (replicate 512 2) false
    demo_locked_ok (lookup_insert_eq _ _ _) demo_written_ok).
Defined.
