(* ===== verification/Log.v ===== *)
(** * log.c: the write-ahead log

    The log runs on any [BufLayer].  The model covers all of log.c: the
    header block, [initlog], recovery, [begin_op], [end_op], [commit] and
    [log_write].

    [logical] is the disk as recovery would leave it.  The theorems say that
    the writes of a transaction reach the logical disk all at once or not at
    all, wherever the power fails, during the commit or during any number of
    attempts at recovery. *)

From S2P Require Import Prelude Spinlock Buf Bio.

(** ** struct superblock of fs.h, struct log *)

Record superblock := mk_superblock {
  sb_size : Z; sb_nblocks : Z; sb_ninodes : Z; sb_nlog : Z; sb_logstart : Z; sb_inodestart : Z; sb_bmapstart : Z;
}.

Record logst := mk_logst {
  l_lock : spinlock;
  l_start : Z;
  l_size : Z;
  outstanding : Z;
  committing : Z;
  l_dev : Z;
  lh_n : Z;
  lh_block : list Z;
}.

Definition set_l_lock v l := mk_logst v (l_start l) (l_size l) (outstanding l) (committing l) (l_dev l) (lh_n l) (lh_block l).
Definition set_geometry a b d l := mk_logst (l_lock l) a b (outstanding l) (committing l) d (lh_n l) (lh_block l).
Definition set_outstanding v l := mk_logst (l_lock l) (l_start l) (l_size l) v (committing l) (l_dev l) (lh_n l) (lh_block l).
Definition set_committing v l := mk_logst (l_lock l) (l_start l) (l_size l) (outstanding l) v (l_dev l) (lh_n l) (lh_block l).
Definition set_lh_n v l := mk_logst (l_lock l) (l_start l) (l_size l) (outstanding l) (committing l) (l_dev l) v (lh_block l).
Definition set_lh_block v l := mk_logst (l_lock l) (l_start l) (l_size l) (outstanding l) (committing l) (l_dev l) (lh_n l) v.

(** The log before [initlog]: a global, so zeroed. *)
Definition log0 : logst :=
  mk_logst (mk_spinlock 0 EmptyString None) 0 0 0 0 0 0 (replicate (Z.to_nat LOGSIZE) 0).

(** Integers in a block seen through a struct pointer. *)
Definition get_int (off : Z) (d : list Z) : Z := s32 (le_val (take 4 (drop (Z.to_nat off) d))).
Definition get_uint (off : Z) (d : list Z) : Z := le_val (take 4 (drop (Z.to_nat off) d)).
Definition put_int (off v : Z) (d : list Z) : list Z := splice (Z.to_nat off) (le_bytes 4 (u32 v)) d.

Definition sizeof_logheader : Z := 4 + 4 * LOGSIZE.
Definition hd_n (d : list Z) : Z := get_int 0 d.
Definition hd_block (i : Z) (d : list Z) : Z := get_int (4 + 4 * i) d.

Record lst (S : Type) := mk_lst { lbuf : S; lg : logst }.
Arguments mk_lst {S}.
Arguments lbuf {S}.
Arguments lg {S}.

Section log.
Context {S : Type} `{!BufLayer S} (me : nat).
Implicit Types s : lst S.

Definition bufs {A} (m : M S A) : M (lst S) A := zoom lbuf (λ b s, mk_lst b (lg s)) m.
Definition edit (h : nat) (f : list Z → list Z) : M (lst S) unit :=
  modify (λ s, mk_lst (set_buf_data h (f (buf_data h (lbuf s))) (lbuf s)) (lg s)).
Definition upd_log (f : logst → logst) : M (lst S) unit := modify (λ s, mk_lst (lbuf s) (f (lg s))).
Definition on_log_lock (m : M spinlock unit) : M (lst S) unit :=
  zoom (λ s, l_lock (lg s)) (λ l s, mk_lst (lbuf s) (set_l_lock l (lg s))) m.

(** [log.lh.block[i]], an array of LOGSIZE entries. *)
Definition get_lh_block (i : Z) : M (lst S) Z := λ s,
  match lh_block (lg s) !! Z.to_nat i with Some b => Done (b, s) | None => Fail (EOob "log.lh.block") end.
Definition put_lh_block (i v : Z) : M (lst S) unit := λ s,
  if i <? LOGSIZE then upd_log (λ l, set_lh_block (<[Z.to_nat i := v]> (lh_block l)) l) s
  else Fail (EOob "log.lh.block").

(** fs.c *)
Definition decode_sb (d : list Z) : superblock :=
  mk_superblock (get_uint 0 d) (get_uint 4 d) (get_uint 8 d) (get_uint 12 d) (get_uint 16 d) (get_uint 20 d) (get_uint 24 d).
Definition readsb (dv : Z) : M (lst S) superblock :=
  bp <- bufs (bread dv 1);;
  d <- gets (λ s, buf_data bp (lbuf s));;
  bufs (brelse bp);;
  ret (decode_sb d).

Definition install_step (tail : Z) : M (lst S) unit :=
  l <- gets lg;;
  lb <- bufs (bread (l_dev l) (u32 (l_start l + tail + 1)));;
  blk <- get_lh_block tail;;
  db <- bufs (bread (l_dev l) (u32 blk));;
  src <- gets (λ s, buf_data lb (lbuf s));;
  edit db (λ _, src);;
  bufs (bwrite db);;
  bufs (brelse lb);;
  bufs (brelse db).

Definition install_trans : M (lst S) unit :=
  n <- gets (λ s, lh_n (lg s));;
  for_ (Z.to_nat n) 0 install_step.

Definition read_head_step (h : nat) (i : Z) : M (lst S) unit :=
  d <- gets (λ s, buf_data h (lbuf s));;
  put_lh_block i (hd_block i d).

Definition read_head : M (lst S) unit :=
  l <- gets lg;;
  h <- bufs (bread (l_dev l) (u32 (l_start l)));;
  d <- gets (λ s, buf_data h (lbuf s));;
  upd_log (set_lh_n (hd_n d));;
  for_ (Z.to_nat (hd_n d)) 0 (read_head_step h);;
  bufs (brelse h).

Definition write_head_step (h : nat) (i : Z) : M (lst S) unit :=
  blk <- get_lh_block i;;
  edit h (put_int (4 + 4 * i) blk).

Definition write_head : M (lst S) unit :=
  l <- gets lg;;
  h <- bufs (bread (l_dev l) (u32 (l_start l)));;
  edit h (put_int 0 (lh_n l));;
  for_ (Z.to_nat (lh_n l)) 0 (write_head_step h);;
  bufs (bwrite h);;
  bufs (brelse h).

Definition recover_from_log : M (lst S) unit :=
  read_head;;
  install_trans;;
  upd_log (set_lh_n 0);;
  write_head.

Definition initlog (dv : Z) : M (lst S) unit :=
  if BSIZE <=? sizeof_logheader then panic "initlog: too big logheader"
  else
    upd_log (set_l_lock (initlock "log"));;
    sb <- readsb dv;;
    upd_log (set_geometry (s32 (sb_logstart sb)) (s32 (sb_nlog sb)) dv);;
    recover_from_log.

(** With nobody else running, a [begin_op] that has to sleep sleeps for good. *)
Definition begin_op : M (lst S) unit :=
  on_log_lock (acquire me);;
  l <- gets lg;;
  if negb (committing l =? 0) then fail (ESleep "log")
  else if LOGSIZE <? lh_n l + (outstanding l + 1) * MAXOPBLOCKS then fail (ESleep "log")
  else
    upd_log (set_outstanding (outstanding l + 1));;
    on_log_lock (release me).

Definition write_log_step (tail : Z) : M (lst S) unit :=
  l <- gets lg;;
  to <- bufs (bread (l_dev l) (u32 (l_start l + tail + 1)));;
  blk <- get_lh_block tail;;
  from <- bufs (bread (l_dev l) (u32 blk));;
  src <- gets (λ s, buf_data from (lbuf s));;
  edit to (λ _, src);;
  bufs (bwrite to);;
  bufs (brelse from);;
  bufs (brelse to).

Definition write_log : M (lst S) unit :=
  n <- gets (λ s, lh_n (lg s));;
  for_ (Z.to_nat n) 0 write_log_step.

Definition commit : M (lst S) unit :=
  n <- gets (λ s, lh_n (lg s));;
  when (0 <? n) (
    write_log;;
    write_head;;
    install_trans;;
    upd_log (set_lh_n 0);;
    write_head).

(** The wakeups of [end_op] act on the process table (see [Proc]). *)
Definition end_op : M (lst S) unit :=
  on_log_lock (acquire me);;
  upd_log (λ l, set_outstanding (outstanding l - 1) l);;
  l <- gets lg;;
  if negb (committing l =? 0) then panic "log.committing"
  else
    when (outstanding l =? 0) (upd_log (set_committing 1));;
    on_log_lock (release me);;
    when (outstanding l =? 0) (
      commit;;
      on_log_lock (acquire me);;
      upd_log (set_committing 0);;
      on_log_lock (release me)).

(** Where [log_write] records the block: the first entry that has it, or the end. *)
Fixpoint absorb (blk : Z) (bs : list Z) (i : Z) : Z :=
  match bs with
  | [] => i
  | b :: bs' => if b =? blk then i else absorb blk bs' (i + 1)
  end.

Definition log_write (h : nat) : M (lst S) unit :=
  l <- gets lg;;
  if (LOGSIZE <=? lh_n l) || (l_size l - 1 <=? lh_n l) then panic "too big a transaction"
  else if outstanding l <? 1 then panic "log_write outside of trans"
  else
    on_log_lock (acquire me);;
    blk <- gets (λ s, s32 (buf_blockno h (lbuf s)));;
    let i := absorb blk (take (Z.to_nat (lh_n l)) (lh_block l)) 0 in
    put_lh_block i blk;;
    when (i =? lh_n l) (upd_log (set_lh_n (lh_n l + 1)));;
    modify (λ s, mk_lst (mark_dirty h (lbuf s)) (lg s));;
    on_log_lock (release me).

End log.

(** ** The disk as recovery leaves it *)

Definition install (us : list (Z * list Z)) (d : gmap Z (list Z)) : gmap Z (list Z) :=
  foldl (λ d u, <[u.1 := u.2]> d) d us.

Definition header (start : Z) (d : gmap Z (list Z)) : list Z := default [] (d !! start).

(** The committed writes that the log holds. *)
Definition log_entries (start : Z) (d : gmap Z (list Z)) : list (Z * list Z) :=
  (λ i, (hd_block (Z.of_nat i) (header start d), default [] (d !! (start + 1 + Z.of_nat i)))) <$>
    seq 0 (Z.to_nat (hd_n (header start d))).

Definition logical (start : Z) (d : gmap Z (list Z)) : gmap Z (list Z) := install (log_entries start d) d.

Lemma install_snoc us u d : install (us ++ [u]) d = <[u.1 := u.2]> (install us d).
Proof. unfold install. by rewrite foldl_app. Qed.

Lemma install_out us d b : b ∉ us.*1 → install us d !! b = d !! b.
Proof.
  induction us as [|u us IH] using rev_ind; [done|]. rewrite fmap_app, install_snoc. intros H.
  rewrite lookup_insert_ne by set_solver. apply IH. set_solver.
Qed.

Lemma install_in us d d' b : b ∈ us.*1 → install us d !! b = install us d' !! b.
Proof.
  induction us as [|u us IH] using rev_ind; [set_solver|]. rewrite fmap_app, !install_snoc. intros H.
  destruct (decide (b = u.1)) as [->|]; [by rewrite !lookup_insert_eq|].
  rewrite !lookup_insert_ne by done. apply IH. set_solver.
Qed.

(** Installing again what was installed before changes nothing. *)
Lemma install_absorb us us' d : us'.*1 ⊆ us.*1 → install us (install us' d) = install us d.
Proof.
  intros H. apply map_eq. intros b. destruct (decide (b ∈ us.*1)) as [Hb|Hb].
  - by apply install_in.
  - rewrite !install_out; [done|done|set_solver|done].
Qed.

Lemma install_lookup us d b x : NoDup us.*1 → (b, x) ∈ us → install us d !! b = Some x.
Proof.
  induction us as [|u us IH] using rev_ind; [set_solver|]. rewrite fmap_app, install_snoc.
  intros (Hn & Hd & _)%NoDup_app [H|H]%elem_of_app.
  - rewrite lookup_insert_ne by (intros E; apply (Hd b); [apply list_elem_of_fmap; by exists (b, x)|set_solver]).
    by apply IH.
  - apply list_elem_of_singleton in H as <-. apply lookup_insert_eq.
Qed.

Lemma install_dom us d b : is_Some (d !! b) → is_Some (install us d !! b).
Proof.
  intros H. induction us as [|u us IH] using rev_ind; [done|]. rewrite install_snoc.
  destruct (decide (b = u.1)) as [->|]; [rewrite lookup_insert_eq; by eexists|by rewrite lookup_insert_ne].
Qed.

(** The log only depends on the blocks of the log. *)
Lemma log_entries_ext start d d' :
  (∀ i, 0 ≤ i ≤ hd_n (header start d) ∨ i = 0 → d' !! (start + i) = d !! (start + i)) →
  log_entries start d' = log_entries start d.
Proof.
  intros H. assert (header start d' = header start d) as Eh.
  { unfold header. rewrite <-(Z.add_0_r start), H; [done|by right]. }
  unfold log_entries. rewrite Eh. apply list_fmap_ext. intros k x Hk. apply lookup_seq in Hk as [-> Hk]. cbn.
  rewrite <-!Z.add_assoc, H; [done|left; lia].
Qed.

(** *** The header block *)

Lemma length_put_int off v d :
  0 ≤ off → off + 4 ≤ Z.of_nat (length d) → length (put_int off v d) = length d.
Proof. intros H1 H2. apply length_splice. rewrite length_le_bytes. lia. Qed.

Lemma get_put_int off v d :
  0 ≤ off → off + 4 ≤ Z.of_nat (length d) → - 2 ^ 31 ≤ v < 2 ^ 31 → get_int off (put_int off v d) = v.
Proof.
  intros H1 H2 Hv. unfold get_int, put_int, splice.
  rewrite drop_app_ge by (rewrite length_take; lia). rewrite length_take.
  replace (Z.to_nat off - _)%nat with 0%nat by lia. rewrite drop_0.
  rewrite take_app_le by (rewrite length_le_bytes; lia). rewrite take_ge by (rewrite length_le_bytes; lia).
  rewrite le_val_bytes by (pose proof (u32_range v); lia). unfold s32, u32. rewrite Zplus_mod_idemp_l.
  rewrite Z.mod_small; lia.
Qed.

Lemma get_put_int_other off off' v d :
  0 ≤ off → off + 4 ≤ Z.of_nat (length d) → 0 ≤ off' → off + 4 ≤ off' ∨ off' + 4 ≤ off →
  get_int off' (put_int off v d) = get_int off' d.
Proof.
  intros H1 H2 H3 Hd. unfold get_int, put_int. do 2 f_equal. apply list_eq. intros k.
  destruct (decide (k < 4)%nat); [|by rewrite !lookup_take_ge by lia].
  rewrite !lookup_take_lt, !lookup_drop by lia.
  apply lookup_splice_out; rewrite length_le_bytes; lia.
Qed.

(** ** Reasoning about buffers in the log's state *)

(** The unlocked modified blocks, up to the buffers that hold them. *)
Definition busy_is (a : acache) (m : gmap Z (list Z)) : Prop := ∀ b,
  match m !! b with
  | Some dat => ∃ h, a_busy a !! b = Some (mk_aent h dat true false)
  | None => a_busy a !! b = None
  end.

Lemma busy_is_dom a m : busy_is a m → dom (a_busy a) = dom m.
Proof.
  intros H. apply set_eq. intros b. rewrite !elem_of_dom. specialize (H b).
  destruct (m !! b) as [dat|]; [destruct H as [h ->]; naive_solver|]. rewrite H. by split; intros [? ?].
Qed.

Lemma busy_is_size a m : busy_is a m → size (a_busy a) = size m.
Proof. intros H%busy_is_dom. rewrite <-!size_dom. by rewrite H. Qed.

Lemma busy_is_Some a m b dat :
  busy_is a m → m !! b = Some dat → ∃ h, a_busy a !! b = Some (mk_aent h dat true false).
Proof. intros H E. specialize (H b). by rewrite E in H. Qed.

Lemma busy_is_None a m b : busy_is a m → m !! b = None → a_busy a !! b = None.
Proof. intros H E. specialize (H b). by rewrite E in H. Qed.

Definition crashed (P : gmap Z (list Z) → Prop) (e : err) : Prop := ∃ d, e = ECrash d ∧ P d.

(** The log region, and what the log's variables must be like. *)
Definition in_log (l : logst) (b : Z) : Prop := l_start l ≤ b < l_start l + l_size l.

Record geom (l : logst) : Prop := {
  g_dev : l_dev l = ROOTDEV;
  g_start : 0 ≤ l_start l;
  g_end : l_start l + l_size l < 2 ^ 31;
  g_blocks : length (lh_block l) = Z.to_nat LOGSIZE;
}.

Definition log_disk (l : logst) (d : gmap Z (list Z)) : Prop := ∀ b, in_log l b → is_Some (d !! b).
(** [b] is a block on the disk outside the log, and not the super block. *)
Definition home (l : logst) (d : gmap Z (list Z)) (b : Z) : Prop :=
  ¬ in_log l b ∧ (0 ≤ b < 2 ^ 31 ∧ b ≠ 1) ∧ is_Some (d !! b).
(** The header in memory lists the blocks of [us]. *)
Definition pend (l : logst) (us : list (Z * list Z)) : Prop :=
  lh_n l = Z.of_nat (length us) ∧ take (length us) (lh_block l) = us.*1.

Lemma pend_lookup l us i u : pend l us → us !! i = Some u → lh_block l !! i = Some u.1.
Proof.
  intros [_ E] H. assert (us.*1 !! i = Some u.1) as H1 by (by rewrite list_lookup_fmap, H).
  rewrite <-E in H1. apply lookup_take_Some in H1. apply H1.
Qed.

Section rules.
Context {S : Type} `{!BufLayer S} {R : S → acache → Prop} `{!BufLayerSpec S R}.
Implicit Types s : lst S.

Lemma wpe_bread s a blk dat Q E :
  R (lbuf s) a → a_view a blk = Some dat → a_can_lock a blk → is_Some (a_disk a !! blk) →
  (∀ h b', R b' (a_put blk (mk_aent h dat (a_dirty a blk) true) a) → Q h (mk_lst b' (lg s))) →
  wpe (bufs (bread ROOTDEV blk)) Q E s.
Proof.
  intros HR Hv Hl Hd HQ. apply wpe_zoom. destruct (bl_bread (lbuf s) a blk dat HR Hv Hl Hd) as (h & b' & E1 & HR').
  unfold wpe. rewrite E1. by apply HQ.
Qed.

Lemma wpe_bwrite s a blk h dat dirty Q (E : err → Prop) :
  R (lbuf s) a → a_busy a !! blk = Some (mk_aent h dat dirty true) →
  (∀ b', R b' (mk_acache (<[blk := dat]> (a_disk a)) (<[blk := mk_aent h dat false true]> (a_busy a))) →
     Q tt (mk_lst b' (lg s))) →
  E (ECrash (a_disk a)) →
  wpe (bufs (bwrite h)) Q E s.
Proof.
  intros HR He HQ HE. apply wpe_zoom. destruct (bl_bwrite (lbuf s) a blk h dat dirty HR He) as [(b' & E1 & HR')|E1];
    unfold wpe; rewrite E1; [by apply HQ|done].
Qed.

Lemma wpe_brelse s a blk h dat dirty Q E :
  R (lbuf s) a → a_busy a !! blk = Some (mk_aent h dat dirty true) → dirty = true ∨ a_disk a !! blk = Some dat →
  (∀ b', R b' (a_unlock blk (mk_aent h dat dirty true) a) → Q tt (mk_lst b' (lg s))) →
  wpe (bufs (brelse h)) Q E s.
Proof.
  intros HR He Hd HQ. apply wpe_zoom. destruct (bl_brelse (lbuf s) a blk h dat dirty HR He Hd) as (b' & E1 & HR').
  unfold wpe. rewrite E1. by apply HQ.
Qed.

Lemma wpe_edit s a blk h dat dirty f Q E :
  R (lbuf s) a → a_busy a !! blk = Some (mk_aent h dat dirty true) → length (f dat) = Z.to_nat BSIZE →
  (∀ b', R b' (a_put blk (mk_aent h (f dat) dirty true) a) → Q tt (mk_lst b' (lg s))) →
  wpe (edit h f) Q E s.
Proof.
  intros HR He Hl HQ. apply wpe_modify. destruct (bl_data _ _ _ _ _ _ HR He) as [-> _].
  apply HQ. by apply (bl_set_data _ _ _ _ dat).
Qed.

Lemma wpe_data s a blk h dat dirty Q E :
  R (lbuf s) a → a_busy a !! blk = Some (mk_aent h dat dirty true) → Q dat s →
  wpe (gets (λ s, buf_data h (lbuf s))) Q E s.
Proof. intros HR He HQ. apply wpe_gets. destruct (bl_data _ _ _ _ _ _ HR He) as [-> _]. done. Qed.

Lemma wpe_get_lh_block s i blk Q E :
  lh_block (lg s) !! Z.to_nat i = Some blk → Q blk s → wpe (get_lh_block i) Q E s.
Proof. intros H HQ. unfold wpe, get_lh_block. by rewrite H. Qed.

(** *** One block copied to the log *)
Lemma write_log_step_ok s a m tail blk lb dat :
  R (lbuf s) a → busy_is a m → l_dev (lg s) = ROOTDEV →
  lh_block (lg s) !! Z.to_nat tail = Some blk → u32 blk = blk → m !! blk = Some dat →
  u32 (l_start (lg s) + tail + 1) = lb → m !! lb = None → (size m < NBUF)%nat →
  is_Some (a_disk a !! lb) → is_Some (a_disk a !! blk) →
  wpe (write_log_step tail)
    (λ _ s', lg s' = lg s ∧ ∃ a', R (lbuf s') a' ∧ a_disk a' = <[lb := dat]> (a_disk a) ∧ busy_is a' m)
    (crashed (λ d, d = a_disk a)) s.
Proof.
  intros HR Hm Hdev Hb Hblk Hdat Hlb Hn Hs [d0 Hd0] Hd1. unfold write_log_step.
  assert (blk ≠ lb) as Hne by congruence.
  assert (a_busy a !! lb = None) as Hbn by (by eapply busy_is_None).
  destruct (busy_is_Some a m blk dat) as [h0 Hh0]; [done..|].
  apply wpe_bind, wpe_gets, wpe_bind. rewrite Hdev, Hlb.
  apply (wpe_bread s a lb d0); [done|unfold a_view; by rewrite Hbn|
    unfold a_can_lock; rewrite Hbn; by rewrite (busy_is_size _ m)|by eexists|].
  intros to b1 HR1. unfold a_dirty in HR1. rewrite Hbn in HR1.
  apply wpe_bind, (wpe_get_lh_block _ _ blk); [done|]. apply wpe_bind. rewrite Hblk.
  assert (length dat = Z.to_nat BSIZE) as Hlen.
  { apply (bl_length (lbuf s) a blk); [done|]. unfold a_view. by rewrite Hh0. }
  eapply (wpe_bread _ _ blk dat); [done|..].
  { unfold a_view. cbn. by rewrite lookup_insert_ne, Hh0. }
  { unfold a_can_lock. cbn. by rewrite lookup_insert_ne, Hh0. }
  { done. }
  intros from b2 HR2. unfold a_dirty, a_put in HR2. cbn in HR2. rewrite lookup_insert_ne, Hh0 in HR2 by done. cbn in HR2.
  apply wpe_bind. eapply (wpe_data _ _ blk); [done|apply lookup_insert_eq|].
  apply wpe_bind. eapply (wpe_edit _ _ lb); [done|cbn; rewrite lookup_insert_ne by done; apply lookup_insert_eq|done|].
  intros b3 HR3. apply wpe_bind. eapply (wpe_bwrite _ _ lb); [done|apply lookup_insert_eq| |by eexists].
  intros b4 HR4. cbn in HR4. apply wpe_bind.
  eapply (wpe_brelse _ _ blk); [done|cbn; rewrite !lookup_insert_ne by done; apply lookup_insert_eq|by left|].
  intros b5 HR5. cbn in HR5.
  eapply (wpe_brelse _ _ lb); [done|cbn; rewrite lookup_insert_ne by done; apply lookup_insert_eq|
    right; apply lookup_insert_eq|].
  intros b6 HR6. cbn in HR6. split; [done|]. eexists. split; [exact HR6|]. split; [done|]. cbn.
  intros b. cbn. destruct (decide (b = lb)) as [->|]; [rewrite lookup_delete_eq, Hn; done|].
  rewrite lookup_delete_ne by done. destruct (decide (b = blk)) as [->|]; [rewrite lookup_insert_eq, Hdat; by eexists|].
  rewrite !lookup_insert_ne by done. apply Hm.
Qed.

(** *** One block copied from the log *)
Lemma install_step_ok s a m tail blk lb dat :
  R (lbuf s) a → busy_is a m → l_dev (lg s) = ROOTDEV →
  lh_block (lg s) !! Z.to_nat tail = Some blk → u32 blk = blk → blk ≠ lb →
  u32 (l_start (lg s) + tail + 1) = lb → m !! lb = None → (size m < NBUF)%nat →
  is_Some (m !! blk) ∨ (size m + 1 < NBUF)%nat →
  a_disk a !! lb = Some dat → is_Some (a_disk a !! blk) →
  wpe (install_step tail)
    (λ _ s', lg s' = lg s ∧ ∃ a', R (lbuf s') a' ∧ a_disk a' = <[blk := dat]> (a_disk a) ∧ busy_is a' (delete blk m))
    (crashed (λ d, d = a_disk a)) s.
Proof.
  intros HR Hm Hdev Hb Hblk Hne Hlb Hn Hs Hroom Hdat [d1 Hd1]. unfold install_step.
  assert (a_busy a !! lb = None) as Hbn by (by eapply busy_is_None).
  assert (length dat = Z.to_nat BSIZE) as Hlen.
  { apply (bl_length (lbuf s) a lb); [done|]. unfold a_view. by rewrite Hbn. }
  apply wpe_bind, wpe_gets, wpe_bind. rewrite Hdev, Hlb.
  apply (wpe_bread s a lb dat); [done|unfold a_view; by rewrite Hbn|
    unfold a_can_lock; rewrite Hbn; by rewrite (busy_is_size _ m)|by eexists|].
  intros h1 b1 HR1. unfold a_dirty, a_put in HR1. rewrite Hbn in HR1.
  apply wpe_bind, (wpe_get_lh_block _ _ blk); [done|]. apply wpe_bind. rewrite Hblk.
  match type of HR1 with R _ ?a1 => set (a1' := a1) in * end.
  assert (∃ dat1, a_view a1' blk = Some dat1 ∧ a_can_lock a1' blk) as (dat1 & Hv & Hl).
  { unfold a_view, a_can_lock, a1'. cbn. rewrite lookup_insert_ne by done. pose proof (Hm blk) as Hmb.
    destruct (m !! blk) as [x|] eqn:E; [destruct Hmb as [h ->]; by eexists|]. rewrite Hmb. exists d1. split; [done|].
    rewrite map_size_insert_None, (busy_is_size _ m) by done. destruct Hroom as [[? ?]|?]; [done|lia]. }
  eapply (wpe_bread _ a1' blk dat1); [done..|cbn; by eexists|].
  intros h2 b2 HR2. apply wpe_bind.
  eapply (wpe_data _ _ lb _ dat); [done|cbn; rewrite lookup_insert_ne by done; apply lookup_insert_eq|].
  apply wpe_bind. eapply (wpe_edit _ _ blk); [done|apply lookup_insert_eq|done|].
  intros b3 HR3. apply wpe_bind. eapply (wpe_bwrite _ _ blk); [done|apply lookup_insert_eq| |by eexists].
  intros b4 HR4. cbn in HR4. apply wpe_bind.
  eapply (wpe_brelse _ _ lb); [done|cbn; rewrite !lookup_insert_ne by done; apply lookup_insert_eq|
    right; cbn; by rewrite lookup_insert_ne|].
  intros b5 HR5. cbn in HR5.
  eapply (wpe_brelse _ _ blk); [done|cbn; rewrite lookup_delete_ne by done; apply lookup_insert_eq|
    right; apply lookup_insert_eq|].
  intros b6 HR6. cbn in HR6. split; [done|]. eexists. split; [exact HR6|]. split; [done|].
  intros b. cbn. destruct (decide (b = blk)) as [->|]; [by rewrite !lookup_delete_eq|].
  rewrite !lookup_delete_ne by done. destruct (decide (b = lb)) as [->|]; [rewrite lookup_delete_eq, Hn; done|].
  rewrite lookup_delete_ne, !lookup_insert_ne by done. apply Hm.
Qed.

(** *** The header, written *)
Lemma write_head_ok s a m n :
  R (lbuf s) a → busy_is a m → l_dev (lg s) = ROOTDEV → 0 ≤ l_start (lg s) < 2 ^ 32 →
  lh_n (lg s) = n → 0 ≤ n ≤ LOGSIZE → length (lh_block (lg s)) = Z.to_nat LOGSIZE →
  (∀ i b, (i < Z.to_nat n)%nat → lh_block (lg s) !! i = Some b → - 2 ^ 31 ≤ b < 2 ^ 31) →
  m !! l_start (lg s) = None → (size m < NBUF)%nat → is_Some (a_disk a !! l_start (lg s)) →
  wpe write_head
    (λ _ s', lg s' = lg s ∧ ∃ a' hdr, R (lbuf s') a' ∧ a_disk a' = <[l_start (lg s) := hdr]> (a_disk a) ∧
       busy_is a' m ∧ hd_n hdr = n ∧
       ∀ i, 0 ≤ i < n → lh_block (lg s) !! Z.to_nat i = Some (hd_block i hdr))
    (crashed (λ d, d = a_disk a)) s.
Proof.
  intros HR Hm Hdev Hst Hn Hnr Hlen Hblk Hno Hsz [d0 Hd0]. unfold write_head.
  assert (a_busy a !! l_start (lg s) = None) as Hbn by (by eapply busy_is_None).
  assert (length d0 = Z.to_nat BSIZE) as Hd0l.
  { apply (bl_length (lbuf s) a (l_start (lg s))); [done|]. unfold a_view. by rewrite Hbn. }
  apply wpe_bind, wpe_gets, wpe_bind. rewrite Hdev, u32_small, Hn by done.
  apply (wpe_bread s a _ d0); [done|unfold a_view; by rewrite Hbn|
    unfold a_can_lock; rewrite Hbn; by rewrite (busy_is_size _ m)|by eexists|].
  intros h b1 HR1. unfold a_dirty in HR1. rewrite Hbn in HR1.
  apply wpe_bind. eapply (wpe_edit _ _ (l_start (lg s))); [done|apply lookup_insert_eq| |].
  { rewrite length_put_int; unfold BSIZE in *; lia. }
  intros b2 HR2. cbn [lg lbuf] in *. unfold a_put in HR2. cbn in HR2. rewrite insert_insert_eq in HR2. apply wpe_bind.
  apply (wpe_loop _ _ (λ i t, lg t = lg s ∧ ∃ dat,
    R (lbuf t) (mk_acache (a_disk a) (<[l_start (lg s) := mk_aent h dat false true]> (a_busy a))) ∧
    length dat = Z.to_nat BSIZE ∧ hd_n dat = n ∧
    ∀ j, 0 ≤ j < i → lh_block (lg s) !! Z.to_nat j = Some (hd_block j dat))); [lia|..].
  - split; [done|]. exists (put_int 0 n d0). split_and!; [done|rewrite length_put_int; unfold BSIZE in *; lia| |lia].
    apply get_put_int; unfold BSIZE, LOGSIZE, MAXOPBLOCKS in *; lia.
  - intros j t Hj (Hlg & dat & HRt & Hdl & Hdn & Hdb). unfold write_head_step.
    destruct (lookup_lt_is_Some_2 (lh_block (lg s)) (Z.to_nat j)) as [b Hb]; [unfold LOGSIZE, MAXOPBLOCKS in *; lia|].
    apply wpe_bind, (wpe_get_lh_block _ _ b); [by rewrite Hlg|].
    assert (j < 30) by (unfold LOGSIZE, MAXOPBLOCKS in *; lia). unfold BSIZE in Hdl.
    eapply (wpe_edit _ _ (l_start (lg s))); [done|apply lookup_insert_eq| |].
    { rewrite length_put_int; unfold BSIZE; lia. }
    intros b3 HR3. split; [done|]. exists (put_int (4 + 4 * j) b dat). unfold a_put in HR3. cbn in HR3.
    rewrite insert_insert_eq in HR3. split_and!; [done|rewrite length_put_int; unfold BSIZE; lia| |].
    + unfold hd_n. rewrite get_put_int_other; [done|lia..].
    + intros k Hk. unfold hd_block. destruct (decide (k = j)) as [->|Hkj].
      * rewrite get_put_int; [done|lia..|]. apply (Hblk (Z.to_nat j)); [lia|done].
      * rewrite get_put_int_other by lia. apply Hdb. lia.
  - intros t (Hlg & dat & HRt & Hdl & Hdn & Hdb).
    apply wpe_bind. eapply (wpe_bwrite _ _ (l_start (lg s))); [done|apply lookup_insert_eq| |by eexists].
    intros b4 HR4. cbn in HR4. rewrite insert_insert_eq in HR4.
    eapply (wpe_brelse _ _ (l_start (lg s))); [done|apply lookup_insert_eq|right; apply lookup_insert_eq|].
    intros b5 HR5. cbn in HR5. rewrite delete_insert_id in HR5 by done.
    split; [done|]. eexists _, dat. split; [exact HR5|]. split_and!; [done| |done|done].
    exact Hm.
Qed.

(** *** The loops *)

(** The first [k] data blocks of [us] are in the log; the rest of the disk,
    header included, is as in [d0]. *)
Definition logged (l : logst) (us : list (Z * list Z)) (d0 : gmap Z (list Z)) (k : Z) (d : gmap Z (list Z)) : Prop :=
  (∀ b, ¬ in_log l b ∨ b = l_start l → d !! b = d0 !! b) ∧
  (∀ i u, Z.of_nat i < k → us !! i = Some u → d !! (l_start l + 1 + Z.of_nat i) = Some u.2) ∧
  log_disk l d.

Lemma logged_step l us d0 k d u :
  logged l us d0 k d → 0 ≤ k → us !! Z.to_nat k = Some u → k + 1 < l_size l →
  logged l us d0 (k + 1) (<[l_start l + 1 + k := u.2]> d).
Proof.
  intros (H1 & H2 & H3) Hk Hu Hsz. split_and!.
  - intros b Hb. rewrite lookup_insert_ne; [by apply H1|]. unfold in_log in Hb. lia.
  - intros i v Hi Hv. destruct (decide (Z.of_nat i = k)) as [<-|Hne].
    + rewrite Nat2Z.id in Hu. rewrite lookup_insert_eq. congruence.
    + rewrite lookup_insert_ne by lia. apply H2; [lia|done].
  - intros b Hb. destruct (decide (b = l_start l + 1 + k)) as [->|]; [rewrite lookup_insert_eq; by eexists|].
    rewrite lookup_insert_ne by done. by apply H3.
Qed.

Lemma write_log_ok s a m us :
  R (lbuf s) a → busy_is a m → geom (lg s) → pend (lg s) us →
  (∀ u, u ∈ us → m !! u.1 = Some u.2 ∧ home (lg s) (a_disk a) u.1) →
  (∀ b, in_log (lg s) b → m !! b = None) → (size m < NBUF)%nat →
  Z.of_nat (length us) < l_size (lg s) → log_disk (lg s) (a_disk a) →
  wpe write_log
    (λ _ s', lg s' = lg s ∧ ∃ a', R (lbuf s') a' ∧ busy_is a' m ∧
       logged (lg s) us (a_disk a) (lh_n (lg s)) (a_disk a'))
    (crashed (λ d, ∃ k, logged (lg s) us (a_disk a) k d)) s.
Proof.
  intros HR Hm [Hdev Hst Hend Hbl] Hp Hus Hno Hsz Hfit Hld. pose proof Hp as [Hn _].
  unfold write_log. apply wpe_bind, wpe_gets.
  apply (wpe_loop _ _ (λ k t, lg t = lg s ∧ ∃ a', R (lbuf t) a' ∧ busy_is a' m ∧
    logged (lg s) us (a_disk a) k (a_disk a'))); [lia|..].
  - split; [done|]. exists a. split_and!; [done..|]. split_and!; [done|lia|done].
  - intros k t Hk (Hlg & a1 & HR1 & Hm1 & Hl1). rewrite Hn in Hk.
    destruct (lookup_lt_is_Some_2 us (Z.to_nat k)) as [u Hu]; [lia|].
    destruct (Hus u) as [Hmu (Hi & Hr & Hd)]; [by eapply list_elem_of_lookup_2|].
    assert (in_log (lg s) (l_start (lg s) + k + 1)) as Hin by (unfold in_log; lia).
    eapply wpe_mono; [eapply (write_log_step_ok t a1 m k u.1 (l_start (lg s) + k + 1) u.2)| |]; rewrite ?Hlg; try done.
    + by apply (pend_lookup _ us).
    + apply u32_small. lia.
    + apply u32_small. lia.
    + by apply Hno.
    + by apply Hl1.
    + rewrite (proj1 Hl1) by (by left). done.
    + intros _ t' (Hlg' & a2 & HR2 & Hd2 & Hm2). split; [congruence|]. exists a2. split_and!; [done..|].
      rewrite Hd2. replace (l_start (lg s) + k + 1) with (l_start (lg s) + 1 + k) by lia.
      apply logged_step; [done|lia|done|lia].
    + intros e (d & -> & ->). eexists. split; [done|]. by exists k.
  - done.
Qed.

(** The invariant of the installing loop: which modified blocks are left. *)
Definition left_dirty (us : list (Z * list Z)) (k : nat) (m : gmap Z (list Z)) : Prop :=
  m = ∅ ∨ NoDup us.*1 ∧ (∀ b, is_Some (m !! b) ↔ b ∈ (drop k us).*1).

Lemma left_dirty_step us k m u :
  left_dirty us k m → us !! k = Some u → left_dirty us (Datatypes.S k) (delete u.1 m).
Proof.
  intros [->|[Hn H]] Hu; [left; apply delete_empty|right]. split; [done|]. intros b.
  assert ((drop k us).*1 = u.1 :: (drop (Datatypes.S k) us).*1) as E by (by rewrite (drop_S _ _ _ Hu)).
  assert (u.1 ∉ (drop (Datatypes.S k) us).*1) as Hnot.
  { rewrite <-(take_drop k us), fmap_app, E in Hn. apply NoDup_app in Hn as (_ & _ & Hn). by apply NoDup_cons in Hn as [? _]. }
  specialize (H b). rewrite E in H. destruct (decide (b = u.1)) as [->|Hb].
  - rewrite lookup_delete_eq. split; [by intros [? ?]|done].
  - rewrite lookup_delete_ne by done. rewrite H. set_solver.
Qed.

Lemma left_dirty_room us k m u :
  left_dirty us k m → us !! k = Some u → is_Some (m !! u.1) ∨ (size m + 1 < NBUF)%nat.
Proof.
  intros [->|[_ H]] Hu; [right; rewrite map_size_empty; unfold NBUF, MAXOPBLOCKS; lia|left].
  apply H. rewrite (drop_S _ _ _ Hu). left.
Qed.

Lemma install_trans_ok s a m us :
  R (lbuf s) a → busy_is a m → geom (lg s) → pend (lg s) us →
  (∀ u, u ∈ us → home (lg s) (a_disk a) u.1) → left_dirty us 0 m →
  (∀ b, in_log (lg s) b → m !! b = None) → (size m < NBUF)%nat → Z.of_nat (length us) < l_size (lg s) →
  (∀ i u, us !! i = Some u → a_disk a !! (l_start (lg s) + 1 + Z.of_nat i) = Some u.2) →
  wpe install_trans
    (λ _ s', lg s' = lg s ∧ ∃ a', R (lbuf s') a' ∧ busy_is a' ∅ ∧ a_disk a' = install us (a_disk a))
    (crashed (λ d, ∃ k, d = install (take k us) (a_disk a))) s.
Proof.
  intros HR Hm [Hdev Hst Hend Hbl] Hp Hus Hl0 Hno Hsz Hfit Hlog. pose proof Hp as [Hn _].
  unfold install_trans. apply wpe_bind, wpe_gets.
  apply (wpe_loop _ _ (λ k t, lg t = lg s ∧ ∃ a' m', R (lbuf t) a' ∧ busy_is a' m' ∧
    left_dirty us (Z.to_nat k) m' ∧ (size m' < NBUF)%nat ∧ (∀ b, in_log (lg s) b → m' !! b = None) ∧
    a_disk a' = install (take (Z.to_nat k) us) (a_disk a))); [lia|..].
  - split; [done|]. by exists a, m.
  - intros k t Hk (Hlg & a1 & m1 & HR1 & Hm1 & Hl1 & Hs1 & Hn1 & Hd1). rewrite Hn in Hk.
    destruct (lookup_lt_is_Some_2 us (Z.to_nat k)) as [u Hu]; [lia|].
    destruct (Hus u) as (Hi & Hr & Hd); [by eapply list_elem_of_lookup_2|].
    assert (in_log (lg s) (l_start (lg s) + k + 1)) as Hin by (unfold in_log; lia).
    assert (l_start (lg s) + k + 1 ∉ (take (Z.to_nat k) us).*1) as Hout.
    { intros (v & Hv & (i & Hvi & _)%elem_of_take)%list_elem_of_fmap.
      destruct (Hus v) as [Hv2 _]; [by eapply list_elem_of_lookup_2|congruence]. }
    eapply wpe_mono; [eapply (install_step_ok t a1 m1 k u.1 (l_start (lg s) + k + 1) u.2)| |]; rewrite ?Hlg; try done.
    + by apply (pend_lookup _ us).
    + apply u32_small. lia.
    + congruence.
    + apply u32_small. lia.
    + by apply Hn1.
    + by eapply left_dirty_room.
    + rewrite Hd1, install_out by done. specialize (Hlog _ _ Hu). rewrite Z2Nat.id in Hlog by lia.
      rewrite <-Hlog. f_equal. lia.
    + rewrite Hd1. by apply install_dom.
    + intros _ t' (Hlg' & a2 & HR2 & Hd2 & Hm2). split; [congruence|]. exists a2, (delete u.1 m1).
      replace (Z.to_nat (k + 1)) with (Datatypes.S (Z.to_nat k)) by lia.
      split_and!; [done|done|by apply left_dirty_step| | |].
      * rewrite map_size_delete. destruct (m1 !! u.1); unfold id; lia.
      * intros b Hb. apply lookup_delete_None. right. by apply Hn1.
      * rewrite Hd2, Hd1. rewrite (take_S_r _ _ _ Hu). by rewrite install_snoc.
    + intros e (d & -> & ->). eexists. split; [done|]. by exists (Z.to_nat k).
  - rewrite Hn, Nat2Z.id. intros t (Hlg & a1 & m1 & HR1 & Hm1 & Hl1 & _ & _ & Hd1).
    split; [done|]. exists a1. rewrite take_ge in Hd1 by done. split_and!; [done| |done].
    destruct Hl1 as [->|[_ H]]; [done|]. replace ∅ with m1; [done|]. apply map_empty. intros b.
    apply eq_None_not_Some. rewrite H, drop_ge by done. set_solver.
Qed.

(** *** Recovery *)

Definition home_eq (l : logst) (d d' : gmap Z (list Z)) : Prop := ∀ b, ¬ in_log l b → d !! b = d' !! b.

(** A disk that recovery can work on. *)
Record log_wf (l : logst) (d : gmap Z (list Z)) : Prop := {
  lw_disk : log_disk l d;
  lw_n : 0 ≤ hd_n (header (l_start l) d) ≤ LOGSIZE;
  lw_fit : hd_n (header (l_start l) d) < l_size l;
  lw_home i : 0 ≤ i < hd_n (header (l_start l) d) → home l d (hd_block i (header (l_start l) d));
}.

Lemma log_wf_install l d us :
  log_wf l d → (∀ u, u ∈ us → ¬ in_log l u.1) →
  log_wf l (install us d) ∧ log_entries (l_start l) (install us d) = log_entries (l_start l) d ∧
  header (l_start l) (install us d) = header (l_start l) d.
Proof.
  intros [H1 H2 H3 H4] Hus.
  assert (∀ b, in_log l b → install us d !! b = d !! b) as Hin.
  { intros b Hb. apply install_out. intros (u & -> & Hu)%list_elem_of_fmap. by apply (Hus u). }
  assert (header (l_start l) (install us d) = header (l_start l) d) as Eh.
  { unfold header. rewrite Hin; [done|]. unfold in_log. lia. }
  split; [|split; [|done]].
  - split; rewrite ?Eh; [|done|done|].
    + intros b Hb. rewrite Hin by done. by apply H1.
    + intros i Hi. destruct (H4 i Hi) as (? & ? & ?). split; [done|]. split; [done|by apply install_dom].
  - apply log_entries_ext. intros i Hi. apply Hin. unfold in_log. lia.
Qed.

Lemma log_entries_home l d u : log_wf l d → u ∈ log_entries (l_start l) d → home l d u.1.
Proof.
  intros Hw (i & -> & Hi%elem_of_seq)%list_elem_of_fmap. cbn. apply (lw_home _ _ Hw). lia.
Qed.

Lemma log_entries_lookup l d i u :
  log_wf l d → log_entries (l_start l) d !! i = Some u → d !! (l_start l + 1 + Z.of_nat i) = Some u.2.
Proof.
  intros Hw Hu. apply list_lookup_fmap_Some in Hu as (k & -> & [-> Hk]%lookup_seq). cbn.
  pose proof (lw_fit _ _ Hw). destruct (lw_disk _ _ Hw (l_start l + 1 + Z.of_nat i)) as [x Hx]; [unfold in_log; lia|].
  by rewrite Hx.
Qed.

Lemma length_log_entries l d :
  log_wf l d → Z.of_nat (length (log_entries (l_start l) d)) = hd_n (header (l_start l) d).
Proof. intros Hw. pose proof (lw_n _ _ Hw). unfold log_entries. rewrite length_fmap, length_seq. lia. Qed.

Lemma read_head_ok s a E :
  R (lbuf s) a → busy_is a ∅ → geom (lg s) → log_wf (lg s) (a_disk a) →
  wpe read_head
    (λ _ s', (∃ n bs, lg s' = set_lh_n n (set_lh_block bs (lg s))) ∧ geom (lg s') ∧
       pend (lg s') (log_entries (l_start (lg s)) (a_disk a)) ∧
       ∃ a', R (lbuf s') a' ∧ busy_is a' ∅ ∧ a_disk a' = a_disk a) E s.
Proof.
  intros HR Hm [Hdev Hst Hend Hbl] Hw. set (st := l_start (lg s)).
  pose proof (lw_n _ _ Hw) as Hn. pose proof (lw_fit _ _ Hw) as Hfit. fold st in Hn, Hfit.
  destruct (lw_disk _ _ Hw st) as [hdr Hh]; [unfold in_log, st in *; lia|].
  assert (header st (a_disk a) = hdr) as Eh by (unfold header; by rewrite Hh).
  assert (a_busy a !! st = None) as Hbn by (by eapply (busy_is_None _ ∅)).
  rewrite Eh in Hn, Hfit. unfold read_head. apply wpe_bind, wpe_gets, wpe_bind. rewrite Hdev, u32_small by lia. fold st.
  apply (wpe_bread s a _ hdr); [done|unfold a_view; by rewrite Hbn| |by eexists|].
  { unfold a_can_lock. rewrite Hbn, (busy_is_size _ ∅), map_size_empty by done. unfold NBUF, MAXOPBLOCKS. lia. }
  intros h b1 HR1. unfold a_dirty in HR1. rewrite Hbn in HR1.
  apply wpe_bind. eapply (wpe_data _ _ st); [done|apply lookup_insert_eq|].
  apply wpe_bind, wpe_modify. cbn [lbuf lg]. apply wpe_bind.
  apply (wpe_loop _ _ (λ k t, lbuf t = b1 ∧ ∃ bs, lg t = set_lh_n (hd_n hdr) (set_lh_block bs (lg s)) ∧
    length bs = Z.to_nat LOGSIZE ∧ ∀ i, 0 ≤ i < k → bs !! Z.to_nat i = Some (hd_block i hdr))); [lia|..].
  - split; [done|]. exists (lh_block (lg s)). split_and!; [by destruct (lg s)|done|lia].
  - intros k t Hk (Hb & bs & Hlg & Hlen & Hbs). unfold read_head_step. apply wpe_bind.
    eapply (wpe_data _ _ st); [rewrite Hb; exact HR1|apply lookup_insert_eq|].
    unfold wpe, put_lh_block. destruct (Z.ltb_spec k LOGSIZE); [|lia]. cbn. split; [done|].
    exists (<[Z.to_nat k := hd_block k hdr]> bs). rewrite Hlg. split_and!; [done|by rewrite length_insert|].
    intros i Hi. destruct (decide (i = k)) as [->|]; [apply list_lookup_insert_eq; unfold LOGSIZE, MAXOPBLOCKS in *; lia|].
    rewrite list_lookup_insert_ne by lia. apply Hbs. lia.
  - intros t (Hb & bs & Hlg & Hlen & Hbs). eapply (wpe_brelse _ _ st); [rewrite Hb; exact HR1|apply lookup_insert_eq|by right|].
    intros b2 HR2. cbn [lg]. rewrite Hlg. split; [by eexists _, _|]. split; [by split|]. split; [split|].
    + unfold st. rewrite length_log_entries by done. fold st. by rewrite Eh.
    + apply list_eq. intros i. unfold log_entries. rewrite Eh, list_lookup_fmap, length_fmap, length_seq.
      destruct (decide (i < Z.to_nat (hd_n hdr))%nat).
      * rewrite lookup_take_lt by done. cbn. rewrite list_lookup_fmap, lookup_seq_lt by done. cbn.
        rewrite <-(Nat2Z.id i) at 1. apply Hbs. lia.
      * rewrite lookup_take_ge by lia. rewrite list_lookup_fmap, lookup_seq_ge by lia. done.
    + eexists. split; [exact HR2|]. cbn. rewrite delete_insert_id by done. done.
Qed.

Lemma header_insert st hdr d : header st (<[st := hdr]> d) = hdr.
Proof. unfold header. by rewrite lookup_insert_eq. Qed.

Lemma logical_idle st d : hd_n (header st d) = 0 → logical st d = d.
Proof. intros H. unfold logical, log_entries. by rewrite H. Qed.

(** Homes in the pending list are integers a header can hold. *)
Lemma pend_range l us d i b :
  pend l us → (∀ u, u ∈ us → home l d u.1) → (i < Z.to_nat (lh_n l))%nat → lh_block l !! i = Some b →
  - 2 ^ 31 ≤ b < 2 ^ 31.
Proof.
  intros [Hn E] Hus Hi Hb. rewrite Hn, Nat2Z.id in Hi.
  destruct (lookup_lt_is_Some_2 us i Hi) as [u Hu]. rewrite (pend_lookup l us i u) in Hb; [|by split|done].
  injection Hb as <-. destruct (Hus u) as (_ & ? & _); [by eapply list_elem_of_lookup_2|lia].
Qed.

(** The last step of a commit and of recovery. *)
Lemma clear_head_ok s a :
  R (lbuf s) a → busy_is a ∅ → geom (lg s) → 0 < l_size (lg s) → log_disk (lg s) (a_disk a) →
  wpe (upd_log (set_lh_n 0);; write_head)
    (λ _ s', lg s' = set_lh_n 0 (lg s) ∧ ∃ a' hdr, R (lbuf s') a' ∧ busy_is a' ∅ ∧
       a_disk a' = <[l_start (lg s) := hdr]> (a_disk a) ∧ hd_n hdr = 0)
    (crashed (λ d, d = a_disk a)) s.
Proof.
  intros HR Hm [Hdev Hst Hend Hbl] Hsz Hld. apply wpe_bind, wpe_modify.
  eapply wpe_mono; [eapply (write_head_ok _ a ∅ 0)| |]; cbn [lg lbuf l_dev l_start lh_n lh_block set_lh_n]; try done.
  - lia.
  - intros i b Hi. simpl in Hi. lia.
  - rewrite map_size_empty. unfold NBUF, MAXOPBLOCKS. lia.
  - apply Hld. unfold in_log. lia.
  - intros _ s' (Hlg & a' & hdr & HR' & Hd & Hm' & Hn & _). split; [done|]. by exists a', hdr.
Qed.

Lemma recover_ok s a :
  R (lbuf s) a → busy_is a ∅ → geom (lg s) → log_wf (lg s) (a_disk a) →
  wpe recover_from_log
    (λ _ s', (∃ bs, lg s' = set_lh_n 0 (set_lh_block bs (lg s)) ∧ length bs = Z.to_nat LOGSIZE) ∧
       ∃ a' hdr, R (lbuf s') a' ∧ busy_is a' ∅ ∧
         a_disk a' = <[l_start (lg s) := hdr]> (logical (l_start (lg s)) (a_disk a)) ∧ hd_n hdr = 0)
    (crashed (λ d, log_wf (lg s) d ∧ logical (l_start (lg s)) d = logical (l_start (lg s)) (a_disk a))) s.
Proof.
  intros HR Hm Hg Hw. unfold recover_from_log. apply wpe_bind.
  eapply wpe_mono; [by apply (read_head_ok s a)| |done]. intros _ t ((n & bs & Hlg) & Hgt & Hp & a1 & HR1 & Hm1 & Hd1).
  set (us := log_entries (l_start (lg s)) (a_disk a)) in *.
  assert (∀ k, log_wf (lg s) (install (take k us) (a_disk a)) ∧
    logical (l_start (lg s)) (install (take k us) (a_disk a)) = logical (l_start (lg s)) (a_disk a)) as Hpart.
  { intros k. destruct (log_wf_install (lg s) (a_disk a) (take k us)) as (H1 & H2 & _); [done| |].
    - intros u (i & Hu & _)%elem_of_take. eapply log_entries_home; [done|by eapply list_elem_of_lookup_2].
    - split; [done|]. unfold logical. rewrite H2. apply install_absorb. intros b (u & -> & (i & Hu & _)%elem_of_take)%list_elem_of_fmap.
      apply list_elem_of_fmap. exists u. split; [done|by eapply list_elem_of_lookup_2]. }
  apply wpe_bind. eapply wpe_mono; [apply (install_trans_ok t a1 ∅ us)| |].
  all: rewrite ?Hd1, ?Hlg; try done.
  - by rewrite <-Hlg.
  - by rewrite <-Hlg.
  - intros u Hu. by eapply (log_entries_home (lg s)).
  - by left.
  - rewrite map_size_empty. unfold NBUF, MAXOPBLOCKS. lia.
  - cbn. unfold us. rewrite length_log_entries by done. apply Hw.
  - cbn. intros i u Hu. by eapply (log_entries_lookup (lg s)).
  - intros _ t2 (Hlg2 & a2 & HR2 & Hm2 & Hd2). fold (logical (l_start (lg s)) (a_disk a)) in Hd2.
    eapply wpe_mono; [apply (clear_head_ok t2 a2)| |]; rewrite ?Hlg2, ?Hd2; try done.
    + by rewrite <-Hlg.
    + cbn. pose proof (lw_n _ _ Hw). pose proof (lw_fit _ _ Hw). lia.
    + pose proof (Hpart (length us)) as [[H _] _]. by rewrite take_ge in H.
    + intros _ s' (Hlg' & a' & hdr & HR' & Hm' & Hd' & Hn'). split; [|by exists a', hdr].
      exists bs. split; [done|]. destruct Hgt as [_ _ _ Hbl]. by rewrite Hlg in Hbl.
    + intros e (d & -> & ->). eexists. split; [done|]. pose proof (Hpart (length us)) as H. by rewrite take_ge in H.
  - intros e (d & -> & k & ->). eexists. split; [done|]. apply Hpart.
Qed.

(** *** Commit *)

(** A transaction ready to commit: [us] are its blocks, modified in the cache
    and not on disk, and the log on disk is empty. *)
Record ready (l : logst) (a : acache) (us : list (Z * list Z)) : Prop := {
  rd_geom : geom l;
  rd_pend : pend l us;
  rd_nodup : NoDup us.*1;
  rd_busy : busy_is a (list_to_map us);
  rd_home u : u ∈ us → home l (a_disk a) u.1;
  rd_fit : Z.of_nat (length us) < l_size l;
  rd_room : (length us < NBUF)%nat;
  rd_disk : log_disk l (a_disk a);
  rd_idle : hd_n (header (l_start l) (a_disk a)) = 0;
}.

(** The disk [d] recovers to [d'], as far as the blocks outside the log go. *)
Definition recovers (l : logst) (d d' : gmap Z (list Z)) : Prop :=
  log_wf l d ∧ home_eq l (logical (l_start l) d) d'.

Lemma ready_size l a us : ready l a us → (size (list_to_map us : gmap Z (list Z)) < NBUF)%nat.
Proof.
  intros H. rewrite <-size_dom, dom_list_to_map_L.
  pose proof (size_list_to_set (C := gset Z) us.*1 (rd_nodup _ _ _ H)) as E. rewrite length_fmap in E.
  pose proof (rd_room _ _ _ H). lia.
Qed.

Lemma ready_out l a us b : ready l a us → in_log l b → (list_to_map us : gmap Z (list Z)) !! b = None.
Proof.
  intros H Hb. apply not_elem_of_list_to_map_1. intros (u & -> & Hu)%list_elem_of_fmap.
  by destruct (rd_home _ _ _ H u Hu).
Qed.

(** Until the header is written the transaction has not happened. *)
Lemma logged_recovers l a us k d : ready l a us → logged l us (a_disk a) k d → recovers l d (a_disk a).
Proof.
  intros Hr (H1 & _ & H3). assert (header (l_start l) d = header (l_start l) (a_disk a)) as Eh.
  { unfold header. rewrite H1; [done|by right]. }
  pose proof (rd_idle _ _ _ Hr) as H0. pose proof (rd_fit _ _ _ Hr). split.
  - split; [done|rewrite Eh, H0; unfold LOGSIZE, MAXOPBLOCKS; lia|rewrite Eh, H0; lia|rewrite Eh, H0; lia].
  - rewrite logical_idle by congruence. intros b Hb. apply H1. by left.
Qed.

Lemma entries_of_header l us d :
  pend l us → hd_n (header (l_start l) d) = lh_n l →
  (∀ i, 0 ≤ i < lh_n l → lh_block l !! Z.to_nat i = Some (hd_block i (header (l_start l) d))) →
  (∀ i u, us !! i = Some u → d !! (l_start l + 1 + Z.of_nat i) = Some u.2) →
  log_entries (l_start l) d = us.
Proof.
  intros Hp Hn Hb Hd. pose proof Hp as [Hln _].
  apply list_eq. intros i. unfold log_entries. rewrite Hn, Hln, Nat2Z.id, list_lookup_fmap.
  destruct (us !! i) as [[b x]|] eqn:Hu.
  - apply lookup_lt_Some in Hu as Hi. rewrite lookup_seq_lt by done. cbn.
    specialize (Hb (Z.of_nat i) ltac:(lia)). rewrite Nat2Z.id, (pend_lookup l us i (b, x)) in Hb by done.
    injection Hb as ->. by rewrite (Hd i _ Hu).
  - apply lookup_ge_None in Hu. by rewrite lookup_seq_ge.
Qed.

(** Once it is, the transaction is complete. *)
Lemma committed_recovers l a us d hdr k :
  ready l a us → logged l us (a_disk a) (lh_n l) d → hd_n hdr = lh_n l →
  (∀ i, 0 ≤ i < lh_n l → lh_block l !! Z.to_nat i = Some (hd_block i hdr)) →
  recovers l (install (take k us) (<[l_start l := hdr]> d)) (install us (a_disk a)).
Proof.
  intros Hr (H1 & H2 & H3) Hn Hb. pose proof (rd_pend _ _ _ Hr) as [Hln _]. pose proof (rd_fit _ _ _ Hr) as Hfit.
  set (d1 := <[l_start l := hdr]> d).
  assert (header (l_start l) d1 = hdr) as Eh by apply header_insert.
  assert (∀ b, ¬ in_log l b → d1 !! b = a_disk a !! b) as Hout.
  { intros b Hbl. unfold d1. rewrite lookup_insert_ne by (intros <-; apply Hbl; unfold in_log; lia). apply H1. by left. }
  assert (log_entries (l_start l) d1 = us) as Eus.
  { apply (entries_of_header l); rewrite ?Eh; [apply Hr|done|done|]. intros i u Hu. unfold d1.
    rewrite lookup_insert_ne by lia. apply lookup_lt_Some in Hu as Hi. apply H2; [lia|done]. }
  assert (∀ u, u ∈ us → ¬ in_log l u.1) as Hus by (intros u Hu; by apply (rd_home _ _ _ Hr)).
  assert (log_wf l d1) as Hw.
  { split; rewrite ?Eh.
    - intros b Hbl. unfold d1. destruct (decide (b = l_start l)) as [->|]; [rewrite lookup_insert_eq; by eexists|].
      rewrite lookup_insert_ne by done. by apply H3.
    - pose proof (rd_room _ _ _ Hr). unfold NBUF, LOGSIZE, MAXOPBLOCKS in *. lia.
    - lia.
    - intros i Hi. destruct (lookup_lt_is_Some_2 us (Z.to_nat i)) as [u Hu]; [lia|].
      assert (hd_block i hdr = u.1) as ->.
      { specialize (Hb i ltac:(lia)). rewrite (pend_lookup l us _ u) in Hb by (done || apply Hr). congruence. }
      destruct (rd_home _ _ _ Hr u) as (? & ? & ?); [by eapply list_elem_of_lookup_2|].
      split; [done|]. split; [done|]. by rewrite Hout. }
  assert (∀ u, u ∈ take k us → u ∈ us) as Htk.
  { intros u (i & Hu & _)%elem_of_take. by eapply list_elem_of_lookup_2. }
  destruct (log_wf_install l d1 (take k us)) as (Hw1 & He1 & _); [done|intros u Hu; by apply Hus, Htk|].
  split; [done|]. unfold logical. rewrite He1, Eus, install_absorb.
  2:{ intros b (u & -> & Hu)%list_elem_of_fmap. apply list_elem_of_fmap. eauto. }
  intros b Hbl. destruct (decide (b ∈ us.*1)) as [Hb1|Hb1]; [by apply install_in|].
  rewrite !install_out by done. by apply Hout.
Qed.

Lemma recovers_idle l d d' :
  log_disk l d → 0 < l_size l → hd_n (header (l_start l) d) = 0 → home_eq l d d' → recovers l d d'.
Proof.
  intros Hd Hs H0 He. split; [|by rewrite logical_idle].
  split; [done|rewrite H0; unfold LOGSIZE, MAXOPBLOCKS; lia|rewrite H0; lia|rewrite H0; lia].
Qed.

(** The four phases of a commit. *)
Definition in_the_log (l : logst) (a0 : acache) (us : list (Z * list Z)) (a : acache) : Prop :=
  busy_is a (list_to_map us) ∧ logged l us (a_disk a0) (lh_n l) (a_disk a).

Definition committed (l : logst) (a0 : acache) (us : list (Z * list Z)) (a : acache) : Prop :=
  ∃ hdr d, busy_is a (list_to_map us) ∧ a_disk a = <[l_start l := hdr]> d ∧ logged l us (a_disk a0) (lh_n l) d ∧
    hd_n hdr = lh_n l ∧ ∀ i, 0 ≤ i < lh_n l → lh_block l !! Z.to_nat i = Some (hd_block i hdr).

Definition installed (l : logst) (a0 : acache) (us : list (Z * list Z)) (a : acache) : Prop :=
  busy_is a ∅ ∧ recovers l (a_disk a) (install us (a_disk a0)) ∧ home_eq l (a_disk a) (install us (a_disk a0)).

Lemma write_log_ready s a us :
  R (lbuf s) a → ready (lg s) a us →
  wpe write_log (λ _ s', lg s' = lg s ∧ ∃ a', R (lbuf s') a' ∧ in_the_log (lg s) a us a')
    (crashed (λ d, recovers (lg s) d (a_disk a))) s.
Proof.
  intros HR Hr. eapply wpe_mono; [apply (write_log_ok s a (list_to_map us) us)| |]; try done.
  - apply Hr.
  - apply Hr.
  - apply Hr.
  - intros [b x] Hu. split; [|by apply (rd_home _ _ _ Hr)]. apply elem_of_list_to_map_1; [apply Hr|done].
  - intros b Hb. by apply (ready_out (lg s) a).
  - by apply (ready_size (lg s) a).
  - apply Hr.
  - apply Hr.
  - intros e (d & -> & k & Hd). eexists. split; [done|]. by eapply logged_recovers.
Qed.

Lemma write_head_ready l s a0 a us :
  lg s = l → R (lbuf s) a → ready l a0 us → in_the_log l a0 us a →
  wpe write_head (λ _ s', lg s' = l ∧ ∃ a', R (lbuf s') a' ∧ committed l a0 us a')
    (crashed (λ d, recovers l d (a_disk a0))) s.
Proof.
  intros <- HR Hr [Hm Hl]. pose proof (rd_fit _ _ _ Hr) as Hfit. pose proof (rd_pend _ _ _ Hr) as [Hn _].
  assert (in_log (lg s) (l_start (lg s))) as Hst by (unfold in_log; lia).
  pose proof (rd_geom _ _ _ Hr) as [Hdev H0 Hend Hbl].
  eapply wpe_mono; [apply (write_head_ok s a (list_to_map us) (lh_n (lg s)))| |]; try done.
  - lia.
  - pose proof (rd_room _ _ _ Hr). unfold NBUF, LOGSIZE, MAXOPBLOCKS in *. lia.
  - intros i b Hi Hb. eapply (pend_range (lg s) us (a_disk a0)); [apply Hr|apply Hr|done|done].
  - by apply (ready_out (lg s) a0).
  - by apply (ready_size (lg s) a0).
  - by apply Hl.
  - intros _ s2 (Hlg & a2 & hdr & HR2 & Hd2 & Hm2 & Hhn & Hhb). split; [done|]. exists a2. split; [done|].
    by exists hdr, (a_disk a).
  - intros e (d & -> & ->). eexists. split; [done|]. by eapply logged_recovers.
Qed.

Lemma install_ready l s a0 a us :
  lg s = l → R (lbuf s) a → ready l a0 us → committed l a0 us a →
  wpe install_trans (λ _ s', lg s' = l ∧ ∃ a', R (lbuf s') a' ∧ installed l a0 us a')
    (crashed (λ d, recovers l d (install us (a_disk a0)))) s.
Proof.
  intros <- HR Hr (hdr & d & Hm & Hd & Hl & Hhn & Hhb). pose proof (rd_fit _ _ _ Hr) as Hfit.
  pose proof (rd_pend _ _ _ Hr) as [Hn _].
  pose proof (λ k, committed_recovers (lg s) a0 us d hdr k Hr Hl Hhn Hhb) as Hrec. rewrite <-Hd in Hrec.
  assert (∀ b, ¬ in_log (lg s) b → a_disk a !! b = a_disk a0 !! b) as Hout.
  { intros b Hb. rewrite Hd, lookup_insert_ne by (intros <-; apply Hb; unfold in_log; lia). apply Hl. by left. }
  eapply wpe_mono; [apply (install_trans_ok s a (list_to_map us) us)| |]; try done.
  - apply Hr.
  - apply Hr.
  - intros u Hu. destruct (rd_home _ _ _ Hr u Hu) as (H1 & H2 & H3). split; [done|]. split; [done|]. by rewrite Hout.
  - right. split; [apply Hr|]. intros b. rewrite drop_0, <-elem_of_dom, dom_list_to_map_L. apply elem_of_list_to_set.
  - intros b Hb. by apply (ready_out (lg s) a0).
  - by apply (ready_size (lg s) a0).
  - intros i u Hu. rewrite Hd, lookup_insert_ne by lia. apply lookup_lt_Some in Hu as Hi.
    apply (proj1 (proj2 Hl)); [lia|done].
  - intros _ s3 (Hlg & a3 & HR3 & Hm3 & Hd3). split; [done|]. exists a3. split; [done|]. split; [done|].
    specialize (Hrec (length us)). rewrite take_ge, <-Hd3 in Hrec by done. split; [done|].
    intros b Hb. rewrite Hd3. destruct (decide (b ∈ us.*1)); [by apply install_in|].
    rewrite !install_out by done. by apply Hout.
  - intros e (d' & -> & k & ->). eexists. split; [done|]. apply Hrec.
Qed.

(** The state of the disk between transactions. *)
Definition idle (l : logst) (d : gmap Z (list Z)) : Prop := log_disk l d ∧ hd_n (header (l_start l) d) = 0.

Lemma clear_ready l s a0 a us :
  lg s = l → R (lbuf s) a → ready l a0 us → installed l a0 us a →
  wpe (upd_log (set_lh_n 0);; write_head)
    (λ _ s', lg s' = set_lh_n 0 l ∧ ∃ a', R (lbuf s') a' ∧ busy_is a' ∅ ∧ idle l (a_disk a') ∧
       home_eq l (a_disk a') (install us (a_disk a0)))
    (crashed (λ d, recovers l d (install us (a_disk a0)))) s.
Proof.
  intros <- HR Hr (Hm & Hrec & He). pose proof Hrec as [Hw _]. pose proof (rd_fit _ _ _ Hr).
  eapply wpe_mono; [apply (clear_head_ok s a)| |]; try done.
  - apply Hr.
  - lia.
  - apply Hw.
  - intros _ s4 (Hlg & a4 & hdr & HR4 & Hm4 & Hd4 & Hn4). split; [done|]. exists a4. rewrite Hd4.
    split_and!; [done|done|split|].
    + intros b Hb. destruct (decide (b = l_start (lg s))) as [->|]; [rewrite lookup_insert_eq; by eexists|].
      rewrite lookup_insert_ne by done. by apply Hw.
    + by rewrite header_insert.
    + intros b Hb. rewrite lookup_insert_ne by (intros <-; apply Hb; unfold in_log; lia). by apply He.
  - intros e (d & -> & ->). eexists. split; [done|]. done.
Qed.

Lemma commit_ok s a us :
  R (lbuf s) a → ready (lg s) a us →
  wpe commit
    (λ _ s', lg s' = set_lh_n 0 (lg s) ∧ ∃ a', R (lbuf s') a' ∧ busy_is a' ∅ ∧ idle (lg s) (a_disk a') ∧
       home_eq (lg s) (a_disk a') (install us (a_disk a)))
    (crashed (λ d, recovers (lg s) d (a_disk a) ∨ recovers (lg s) d (install us (a_disk a)))) s.
Proof.
  intros HR Hr. unfold commit. apply wpe_bind, wpe_gets.
  destruct (Z.ltb_spec 0 (lh_n (lg s))) as [Hpos|Hpos]; cbn [when]; last first.
  { pose proof (rd_pend _ _ _ Hr) as [Hn _]. destruct us; [|cbn in Hn; lia]. apply wpe_ret.
    split; [destruct (lg s); cbn in *; by subst|]. exists a. split_and!; [done|apply Hr|split; apply Hr|done]. }
  apply wpe_bind. eapply wpe_mono; [by apply (write_log_ready s a us)| |intros e (d & -> & ?); eexists; eauto].
  intros _ s1 (Hlg1 & a1 & HR1 & H1).
  apply wpe_bind. eapply wpe_mono; [by apply (write_head_ready (lg s) s1 a a1 us)| |intros e (d & -> & ?); eexists; eauto].
  intros _ s2 (Hlg2 & a2 & HR2 & H2).
  apply wpe_bind. eapply wpe_mono; [by apply (install_ready (lg s) s2 a a2 us)| |intros e (d & -> & ?); eexists; eauto].
  intros _ s3 (Hlg3 & a3 & HR3 & H3).
  eapply wpe_mono; [by apply (clear_ready (lg s) s3 a a3 us)|done|intros e (d & -> & ?); eexists; eauto].
Qed.

(** *** Transactions *)

(** An open transaction that has modified the blocks [bs], to [m]. *)
Record opened (l : logst) (a : acache) (bs : list Z) (m : gmap Z (list Z)) : Prop := {
  op_geom : geom l;
  op_lock : lock_free (l_lock l);
  op_committing : committing l = 0;
  op_outstanding : 1 ≤ outstanding l;
  op_n : lh_n l = Z.of_nat (length bs);
  op_blocks : take (length bs) (lh_block l) = bs;
  op_nodup : NoDup bs;
  op_dom b : is_Some (m !! b) ↔ b ∈ bs;
  op_busy : busy_is a m;
  op_home b : b ∈ bs → home l (a_disk a) b;
  op_idle : idle l (a_disk a);
}.

Lemma absorb_in blk bs i : blk ∈ bs → ∃ k, bs !! k = Some blk ∧ absorb blk bs i = i + Z.of_nat k.
Proof.
  revert i. induction bs as [|b bs IH]; intros i Hin; [by apply not_elem_of_nil in Hin|]. cbn.
  destruct (Z.eqb_spec b blk) as [->|Hne]; [exists 0%nat; split; [done|lia]|].
  destruct (IH (i + 1)) as (k & Hk & ->); [set_solver|]. exists (Datatypes.S k). split; [done|lia].
Qed.

Lemma absorb_out blk bs i : blk ∉ bs → absorb blk bs i = i + Z.of_nat (length bs).
Proof.
  revert i. induction bs as [|b bs IH]; intros i Hin; cbn [absorb length]; [lia|].
  destruct (Z.eqb_spec b blk) as [->|Hne]; [by destruct Hin; left|]. rewrite IH by set_solver. lia.
Qed.

(** The blocks recorded after one more write. *)
Definition record (blk : Z) (bs : list Z) : list Z := if decide (blk ∈ bs) then bs else bs ++ [blk].

Lemma elem_of_record b blk bs : b ∈ record blk bs ↔ b = blk ∨ b ∈ bs.
Proof. unfold record. case_decide; set_solver. Qed.

Lemma record_nodup blk bs : NoDup bs → NoDup (record blk bs).
Proof. unfold record. case_decide; [done|]. intros. rewrite <-Permutation_cons_append. by constructor. Qed.

(** What [log_write] does to the header in memory. *)
Lemma absorb_record blk bs blks :
  length blks = Z.to_nat LOGSIZE → take (length bs) blks = bs → Z.of_nat (length bs) < LOGSIZE →
  absorb blk bs 0 < LOGSIZE ∧
  take (length (record blk bs)) (<[Z.to_nat (absorb blk bs 0) := blk]> blks) = record blk bs ∧
  (if absorb blk bs 0 =? Z.of_nat (length bs) then Z.of_nat (length bs) + 1 else Z.of_nat (length bs))
    = Z.of_nat (length (record blk bs)).
Proof.
  intros Hlen Hbs Hlt. unfold record. destruct (decide (blk ∈ bs)) as [Hin|Hin].
  - destruct (absorb_in blk bs 0 Hin) as (k & Hk & ->). apply lookup_lt_Some in Hk as Hkl.
    assert (blks !! k = Some blk) as Hk2 by (rewrite <-Hbs in Hk; by apply lookup_take_Some in Hk as [? _]).
    rewrite Z.add_0_l, Nat2Z.id, list_insert_id by done. split_and!; [lia|done|].
    destruct (Z.eqb_spec (Z.of_nat k) (Z.of_nat (length bs))); lia.
  - rewrite (absorb_out blk bs 0 Hin), Z.add_0_l, Nat2Z.id, Z.eqb_refl, length_app. cbn. split_and!; [done| |lia].
    rewrite Nat.add_1_r, (take_S_r _ _ blk).
    + by rewrite take_insert_ge, Hbs by done.
    + apply list_lookup_insert_eq. unfold LOGSIZE, MAXOPBLOCKS in *. lia.
Qed.

(** Everything but the list of blocks. *)
Definition same_log (l l' : logst) : Prop := l' = set_lh_n (lh_n l') (set_lh_block (lh_block l') l).

Lemma log_write_run me s h blk bs :
  lock_free (l_lock (lg s)) → 1 ≤ outstanding (lg s) → length (lh_block (lg s)) = Z.to_nat LOGSIZE →
  lh_n (lg s) = Z.of_nat (length bs) → take (length bs) (lh_block (lg s)) = bs →
  Z.of_nat (length bs) < LOGSIZE → Z.of_nat (length bs) < l_size (lg s) - 1 →
  buf_blockno h (lbuf s) = blk → 0 ≤ blk < 2 ^ 31 →
  ∃ l', log_write me h s = Done (tt, mk_lst (mark_dirty h (lbuf s)) l') ∧ same_log (lg s) l' ∧
    length (lh_block l') = Z.to_nat LOGSIZE ∧
    lh_n l' = Z.of_nat (length (record blk bs)) ∧ take (length (record blk bs)) (lh_block l') = record blk bs.
Proof.
  intros Hlk Ho Hlen Hn Hbs Hlt Hlt2 Hblk Hr. unfold log_write, bind at 1, gets at 1.
  destruct (Z.leb_spec LOGSIZE (lh_n (lg s))); [lia|]. destruct (Z.leb_spec (l_size (lg s) - 1) (lh_n (lg s))); [lia|].
  destruct (Z.ltb_spec (outstanding (lg s)) 1); [lia|]. cbn [orb].
  destruct s as [sb [lk st sz ou co dv n blks]]. cbn [lg lbuf l_lock lh_n lh_block l_size outstanding] in *.
  unfold bind at 1, on_log_lock, zoom at 1. cbn [lg l_lock]. rewrite acquire_free by done. cbn [lbuf set_l_lock].
  unfold bind at 1, gets. cbn [lbuf lg]. rewrite Hblk, s32_small by lia. cbv zeta.
  rewrite Hn, Nat2Z.id, Hbs.
  destruct (absorb_record blk bs blks Hlen Hbs Hlt) as (Hi & E4 & E3).
  set (n' := if absorb blk bs 0 =? _ then _ else _) in *. set (blks' := <[_ := _]> blks) in *.
  exists (mk_logst (mk_spinlock 0 (lk_name lk) None) st sz ou co dv n' blks'). split.
  - unfold bind at 1, put_lh_block. destruct (Z.ltb_spec (absorb blk bs 0) LOGSIZE); [|lia].
    unfold upd_log, modify. cbn [lbuf lg set_lh_block lh_block]. unfold bind at 1, when, n'.
    destruct (absorb blk bs 0 =? _); unfold bind, zoom, ret; cbn; by rewrite release_held.
  - split_and!; [|cbn; unfold blks'; by rewrite length_insert|done|done].
    unfold same_log. cbn. rewrite (lock_free_eq lk) at 2 by done. done.
Qed.

(** [log_write]'s typical use, as its comment gives it. *)
Definition tx_write (me : nat) (w : Z * list Z) : M (lst S) unit :=
  h <- bufs (bread ROOTDEV w.1);;
  edit h (λ _, w.2);;
  log_write me h;;
  bufs (brelse h).

Fixpoint tx_writes (me : nat) (ws : list (Z * list Z)) : M (lst S) unit :=
  match ws with [] => ret tt | w :: ws' => tx_write me w;; tx_writes me ws' end.

(** A file system call that writes the blocks [ws]. *)
Definition transaction (me : nat) (ws : list (Z * list Z)) : M (lst S) unit :=
  begin_op me;; tx_writes me ws;; end_op me.

Lemma opened_size l a bs m : opened l a bs m → size m = length bs.
Proof.
  intros H. rewrite <-size_dom. rewrite <-(size_list_to_set (C := gset Z) bs) by apply H. f_equal.
  apply set_eq. intros b. rewrite elem_of_dom, elem_of_list_to_set. apply H.
Qed.

Lemma tx_write_ok me s a bs m w :
  R (lbuf s) a → opened (lg s) a bs m → home (lg s) (a_disk a) w.1 → length w.2 = Z.to_nat BSIZE →
  Z.of_nat (length bs) < l_size (lg s) - 1 → Z.of_nat (length bs) < LOGSIZE →
  wp (tx_write me w)
    (λ _ s', same_log (lg s) (lg s') ∧ ∃ a', R (lbuf s') a' ∧ a_disk a' = a_disk a ∧
       opened (lg s') a' (record w.1 bs) (<[w.1 := w.2]> m)) s.
Proof.
  intros HR Ho Hh Hlen Hfit Hlog. destruct w as [blk dat]. cbn [fst snd] in *. pose proof Hh as (Hout & [Hrng _] & d0 & Hd0).
  pose proof (op_busy _ _ _ _ Ho) as Hm. unfold tx_write. apply wpe_bind. cbn [fst snd].
  assert (∃ dat0, a_view a blk = Some dat0 ∧ a_can_lock a blk) as (dat0 & Hv & Hl).
  { unfold a_view, a_can_lock. pose proof (Hm blk) as Hmb. destruct (m !! blk); [destruct Hmb as [h ->]; by eexists|].
    rewrite Hmb. exists d0. split; [done|]. rewrite (busy_is_size _ _ Hm), (opened_size _ _ _ _ Ho).
    unfold NBUF, LOGSIZE, MAXOPBLOCKS in *. lia. }
  apply (wpe_bread s a blk dat0); [done..|by eexists|]. intros h b1 HR1.
  apply wpe_bind. eapply (wpe_edit _ _ blk); [done|apply lookup_insert_eq|done|]. intros b2 HR2.
  unfold a_put in HR2. cbn in HR2. rewrite insert_insert_eq in HR2.
  destruct (bl_data _ _ blk h dat (a_dirty a blk) HR2) as [_ Hbn]; [apply lookup_insert_eq|].
  destruct (log_write_run me (mk_lst b2 (lg s)) h blk bs) as (l' & E & Hsl & Hl1 & Hn1 & Hb1);
    [apply Ho|apply Ho|apply Ho|apply Ho|apply Ho|done..|].
  apply wpe_bind. unfold wpe at 1. cbn [lbuf lg] in E, Hsl |- *. rewrite E.
  eapply (wpe_brelse _ _ blk); [apply (bl_mark_dirty _ _ blk _ dat (a_dirty a blk) HR2); apply lookup_insert_eq|apply lookup_insert_eq|by left|].
  cbn [lg]. intros b3 HR3. split; [done|]. eexists. split; [exact HR3|]. split; [done|]. unfold a_put. cbn.
  rewrite !insert_insert_eq. unfold same_log in Hsl. destruct Ho as [[] ? ? ? ? ? ? Hdom ? Hhome Hidle].
  split; try (rewrite Hsl; done); try done.
  - by apply record_nodup.
  - intros b. rewrite elem_of_record. destruct (decide (b = blk)) as [->|Hb].
    + rewrite lookup_insert_eq. split; [by left|by eexists].
    + rewrite lookup_insert_ne by done. rewrite Hdom. naive_solver.
  - intros b. cbn. destruct (decide (b = blk)) as [->|Hb]; [rewrite !lookup_insert_eq; by eexists|].
    rewrite !lookup_insert_ne by done. apply Hm.
  - intros b [->|Hb]%elem_of_record; rewrite Hsl; [done|]. by apply Hhome.
Qed.

Lemma same_log_trans l1 l2 l3 : same_log l1 l2 → same_log l2 l3 → same_log l1 l3.
Proof. unfold same_log. intros -> ->. by destruct l1, l3. Qed.

Lemma same_log_home l l' d b : same_log l l' → home l' d b ↔ home l d b.
Proof. by intros ->. Qed.

Lemma record_length blk bs : (length (record blk bs) ≤ length bs + 1)%nat.
Proof. unfold record. case_decide; [lia|]. rewrite length_app. cbn. lia. Qed.

Lemma tx_writes_ok me ws s a bs m :
  R (lbuf s) a → opened (lg s) a bs m →
  (∀ w, w ∈ ws → home (lg s) (a_disk a) w.1 ∧ length w.2 = Z.to_nat BSIZE) →
  Z.of_nat (length bs + length ws) < l_size (lg s) → Z.of_nat (length bs + length ws) ≤ LOGSIZE →
  wp (tx_writes me ws)
    (λ _ s', same_log (lg s) (lg s') ∧ ∃ a' bs', R (lbuf s') a' ∧ a_disk a' = a_disk a ∧
       opened (lg s') a' bs' (install ws m) ∧ (length bs' ≤ length bs + length ws)%nat) s.
Proof.
  revert s a bs m. induction ws as [|w ws IH]; intros s a bs m HR Ho Hws Hfit Hlog; cbn [tx_writes].
  { apply wpe_ret. split; [unfold same_log; by destruct (lg s)|]. exists a, bs. split_and!; [done..|lia]. }
  cbn [length] in *. destruct (Hws w) as [Hh Hl]; [by left|].
  apply wpe_bind. eapply wpe_mono; [apply (tx_write_ok me s a bs m w); (done || lia)| |done].
  intros _ s1 (Hs1 & a1 & HR1 & Hd1 & Ho1). pose proof (record_length w.1 bs) as Hrl.
  assert (l_size (lg s1) = l_size (lg s)) as Hsz by (by rewrite Hs1).
  eapply wpe_mono; [apply (IH s1 a1 (record w.1 bs) (<[w.1 := w.2]> m)); [done|done| |lia|lia]| |done].
  { intros w' Hw'. rewrite Hd1. destruct (Hws w') as [Hh' Hl']; [by right|]. split; [|done].
    by apply (same_log_home (lg s)). }
  intros _ s2 (Hs2 & a2 & bs2 & HR2 & Hd2 & Ho2 & Hl2). split; [by eapply same_log_trans|].
  exists a2, bs2. split_and!; [done|congruence|done|lia].
Qed.

(** The transaction that [end_op] commits. *)
Definition updates (bs : list Z) (m : gmap Z (list Z)) : list (Z * list Z) := (λ b, (b, default [] (m !! b))) <$> bs.

Lemma updates_fst bs m : (updates bs m).*1 = bs.
Proof. unfold updates. rewrite <-list_fmap_compose. by rewrite list_fmap_id. Qed.

Lemma updates_map bs m : NoDup bs → (∀ b, is_Some (m !! b) ↔ b ∈ bs) → list_to_map (updates bs m) = m.
Proof.
  intros Hn Hd. apply map_eq. intros b. destruct (m !! b) as [x|] eqn:E.
  - apply elem_of_list_to_map_1; [by rewrite updates_fst|]. apply list_elem_of_fmap. exists b. rewrite E. split; [done|].
    apply Hd. by eexists.
  - apply not_elem_of_list_to_map_1. rewrite updates_fst. rewrite <-Hd, E. by intros [? ?].
Qed.

Lemma install_updates bs m d b :
  NoDup bs → (∀ b, is_Some (m !! b) ↔ b ∈ bs) → install (updates bs m) d !! b = (m ∪ d) !! b.
Proof.
  intros Hn Hd. destruct (m !! b) as [x|] eqn:E.
  - rewrite (lookup_union_Some_l _ _ _ x) by done. apply install_lookup; [by rewrite updates_fst|].
    apply list_elem_of_fmap. exists b. rewrite E. split; [done|]. apply Hd. by eexists.
  - rewrite lookup_union_r by done. apply install_out. rewrite updates_fst, <-Hd, E. by intros [? ?].
Qed.

Lemma install_union ws d : install ws d = install ws ∅ ∪ d.
Proof.
  induction ws as [|w ws IH] using rev_ind; [cbn; by rewrite (left_id_L ∅ (∪))|].
  rewrite !install_snoc, IH. by rewrite insert_union_l.
Qed.

Lemma opened_ready l a bs m :
  opened l a bs m → Z.of_nat (length bs) < l_size l → (length bs < NBUF)%nat →
  ready l a (updates bs m).
Proof.
  intros Ho Hfit Hroom. assert (length (updates bs m) = length bs) as Hl by apply length_fmap.
  split; rewrite ?Hl; try apply Ho; try done.
  - split; rewrite Hl; [apply Ho|]. rewrite updates_fst. apply Ho.
  - rewrite updates_fst. apply Ho.
  - rewrite updates_map; [apply Ho|apply Ho|apply Ho].
  - intros u (b & -> & Hb)%list_elem_of_fmap. by apply (op_home _ _ _ _ Ho).
Qed.

Lemma geom_counts l l' :
  geom l → l_dev l' = l_dev l → l_start l' = l_start l → l_size l' = l_size l →
  length (lh_block l') = length (lh_block l) → geom l'.
Proof. intros [] E1 E2 E3 E4. split; congruence. Qed.

Lemma ready_counts l a us o c : ready l a us → ready (set_committing c (set_outstanding o l)) a us.
Proof. intros [Hg]. split; try done. by apply (geom_counts l). Qed.

Lemma recovers_region l l' d d' :
  l_start l' = l_start l → l_size l' = l_size l → recovers l d d' → recovers l' d d'.
Proof.
  intros E1 E2 [[H1 H2 H3 H4] He]. unfold log_disk, home, home_eq, in_log in *.
  split; [split|]; unfold log_disk, home, home_eq, in_log in *; rewrite ?E1, ?E2 in *; done.
Qed.

(** The log between transactions. *)
Record quiet (l : logst) (a : acache) : Prop := {
  q_geom : geom l;
  q_lock : lock_free (l_lock l);
  q_outstanding : outstanding l = 0;
  q_committing : committing l = 0;
  q_n : lh_n l = 0;
  q_busy : busy_is a ∅;
  q_idle : idle l (a_disk a);
}.

Lemma begin_op_ok me s a :
  R (lbuf s) a → quiet (lg s) a →
  ∃ s', begin_op me s = Done (tt, s') ∧ lbuf s' = lbuf s ∧ lg s' = set_outstanding 1 (lg s) ∧
        opened (lg s') a [] ∅.
Proof.
  intros HR [Hg Hlk Ho Hc Hn Hm Hi]. destruct s as [b [lk st sz ou co dv n bl]]. cbn in Ho, Hc, Hn, Hlk. subst.
  eexists. split; [|split; [|split]].
  - unfold begin_op, on_log_lock, bind, zoom, gets, upd_log, modify. cbn [lg l_lock]. rewrite acquire_free by done.
    cbn [lg set_l_lock committing lh_n outstanding Z.eqb negb].
    change (LOGSIZE <? 0 + (0 + 1) * MAXOPBLOCKS) with false. cbn. by rewrite release_held.
  - done.
  - cbn. unfold set_outstanding. cbn. by rewrite <-(lock_free_eq lk).
  - destruct Hg. split; cbn in *; try done; try lia.
    + by apply NoDup_nil_2.
    + intros x. rewrite lookup_empty. split; [by intros [? ?]|by intros ?%not_elem_of_nil].
    + by intros x ?%not_elem_of_nil.
Qed.

Lemma end_op_ok me s a bs m :
  R (lbuf s) a → opened (lg s) a bs m → outstanding (lg s) = 1 →
  Z.of_nat (length bs) < l_size (lg s) → (length bs < NBUF)%nat →
  wpe (end_op me)
    (λ _ s', lg s' = set_outstanding 0 (set_lh_n 0 (lg s)) ∧ ∃ a', R (lbuf s') a' ∧ quiet (lg s') a' ∧
       home_eq (lg s) (a_disk a') (m ∪ a_disk a))
    (crashed (λ d, recovers (lg s) d (a_disk a) ∨ recovers (lg s) d (m ∪ a_disk a))) s.
Proof.
  intros HR Ho H1 Hfit Hroom. pose proof (opened_ready _ _ _ _ Ho Hfit Hroom) as Hr.
  assert (∀ d b, install (updates bs m) d !! b = (m ∪ d) !! b) as Hiu.
  { intros d b. apply install_updates; apply Ho. }
  assert (∀ l d d' b, home_eq l d (install (updates bs m) d') → ¬ in_log l b → d !! b = (m ∪ d') !! b) as Hhe.
  { intros l d d' b He Hb. by rewrite He, Hiu. }
  destruct s as [b [lk st sz ou co dv n bl]]. cbn in H1. subst ou.
  pose proof (op_lock _ _ _ _ Ho) as Hlk. pose proof (op_committing _ _ _ _ Ho) as Hc. cbn in Hlk, Hc. subst co.
  set (s1 := mk_lst b (mk_logst lk st sz 0 1 dv n bl)).
  apply (wpe_eq _ (commit;; on_log_lock (acquire me);; upd_log (set_committing 0);; on_log_lock (release me)) _ _ _ s1).
  { unfold end_op. set (rest := bind commit _). unfold on_log_lock, bind, zoom, gets, upd_log, modify.
    cbn [lg l_lock]. rewrite acquire_free by done. cbn [lg set_l_lock set_outstanding committing outstanding negb Z.eqb].
    change (1 - 1 =? 0) with true. cbn. rewrite release_held. cbn. by rewrite <-(lock_free_eq lk). }
  apply wpe_bind. eapply wpe_mono; [apply (commit_ok s1 a (updates bs m)); [done|exact (ready_counts _ _ _ 0 1 Hr)]| |].
  - intros _ [b2 l2] (Hl2 & a2 & HR2 & Hm2 & Hi2 & He2). cbn [lg lbuf] in *. subst l2.
    unfold on_log_lock, upd_log, modify, bind, zoom, wpe. cbn [lg lbuf set_lh_n l_lock s1]. rewrite acquire_free by done.
    cbn. rewrite release_held. cbn. rewrite <-(lock_free_eq lk) by done. split; [done|].
    exists a2. split; [done|]. split; [|intros x Hx; eapply Hhe; [exact He2|exact Hx]].
    split; try done. apply (geom_counts _ _ (op_geom _ _ _ _ Ho)); done.
  - intros e (d & -> & H). eexists. split; [done|]. 
    destruct H as [H|H]; [left|right]; (eapply (recovers_region (lg s1)); [done|done|]); [done|].
    destruct H as [Hw He]. split; [done|]. intros x Hx. by apply (Hhe (lg s1)).
Qed.

Lemma transaction_ok me ws s a :
  R (lbuf s) a → quiet (lg s) a →
  (∀ w, w ∈ ws → home (lg s) (a_disk a) w.1 ∧ length w.2 = Z.to_nat BSIZE) →
  Z.of_nat (length ws) ≤ MAXOPBLOCKS → MAXOPBLOCKS < l_size (lg s) →
  wpe (transaction me ws)
    (λ _ s', same_log (lg s) (lg s') ∧ ∃ a', R (lbuf s') a' ∧ quiet (lg s') a' ∧
       home_eq (lg s) (a_disk a') (install ws (a_disk a)))
    (crashed (λ d, recovers (lg s) d (a_disk a) ∨ recovers (lg s) d (install ws (a_disk a)))) s.
Proof.
  intros HR Hq Hws Hlen Hsz. destruct (begin_op_ok me s a HR Hq) as (s1 & E1 & Hb1 & Hl1 & Ho1).
  unfold transaction. apply wpe_bind. unfold wpe at 1. rewrite E1. apply wpe_bind.
  eapply wpe_mono; [apply (tx_writes_ok me ws s1 a [] ∅)| |done]; rewrite ?Hb1; try done.
  - intros w Hw. rewrite Hl1. by apply Hws.
  - rewrite Hl1. cbn in *. lia.
  - cbn. unfold LOGSIZE, MAXOPBLOCKS in *. lia.
  - intros _ s2 (Hs2 & a2 & bs & HR2 & Hd2 & Ho2 & Hl2). cbn in Hl2.
    rewrite Hl1 in Hs2. unfold same_log in Hs2.
    eapply wpe_mono; [apply (end_op_ok me s2 a2 bs (install ws ∅)); [done|done|by rewrite Hs2|rewrite Hs2; cbn; lia|]| |].
    { unfold NBUF, MAXOPBLOCKS in *. lia. }
    + rewrite Hd2, <-install_union. intros _ s3 (Hl3 & a3 & HR3 & Hq3 & He3). split.
      * unfold same_log. rewrite Hl3, Hs2. pose proof (q_outstanding _ _ Hq) as E0. destruct (lg s). cbn in *. by subst.
      * exists a3. split; [done|]. split; [done|]. by rewrite Hs2 in He3.
    + rewrite Hd2, <-install_union. intros e (d & -> & H). eexists. split; [done|].
      destruct H as [H|H]; [left|right]; (eapply (recovers_region (lg s2)); [by rewrite Hs2|by rewrite Hs2|done]).
Qed.

(** *** Booting *)

(** The log described by the super block. *)
Definition log_at (st sz : Z) : logst := set_geometry st sz ROOTDEV (set_l_lock (initlock "log") log0).

(** The super block on disk describes the log region of [l]. *)
Record described (l : logst) (d : gmap Z (list Z)) : Prop := {
  de_sb : ∃ blk, d !! 1 = Some blk ∧ sb_logstart (decode_sb blk) = l_start l ∧ sb_nlog (decode_sb blk) = l_size l;
  de_start : 2 ≤ l_start l;
  de_size : 0 < l_size l;
  de_end : l_start l + l_size l < 2 ^ 31;
}.

Lemma recovers_sb l d d' : recovers l d d' → ¬ in_log l 1 → d !! 1 = d' !! 1.
Proof.
  intros [Hw He] H1. rewrite <-He by done. symmetry. apply install_out.
  intros (u & E & Hu)%list_elem_of_fmap. destruct (log_entries_home l d u Hw Hu) as (_ & [_ Hne] & _). done.
Qed.

Lemma readsb_ok s a blk E :
  R (lbuf s) a → a_busy a = ∅ → a_disk a !! 1 = Some blk →
  wpe (readsb ROOTDEV) (λ sb s', sb = decode_sb blk ∧ lg s' = lg s ∧
    R (lbuf s') (mk_acache (a_disk a) ∅)) E s.
Proof.
  intros HR Hb Hd. unfold readsb. apply wpe_bind.
  apply (wpe_bread s a 1 blk); [done|unfold a_view; by rewrite Hb, lookup_empty| |by eexists|].
  { unfold a_can_lock. rewrite Hb, lookup_empty, map_size_empty. unfold NBUF, MAXOPBLOCKS. lia. }
  intros h b1 HR1. unfold a_dirty in HR1. rewrite Hb, lookup_empty in HR1. unfold a_put in HR1. rewrite Hb in HR1.
  apply wpe_bind. eapply (wpe_data _ _ 1); [done|apply lookup_insert_eq|].
  apply wpe_bind. eapply (wpe_brelse _ _ 1); [done|apply lookup_insert_eq|by right|].
  intros b2 HR2. cbn in HR2. rewrite delete_insert_id in HR2 by done. by apply wpe_ret.
Qed.

Lemma initlog_ok l b d :
  R b (mk_acache d ∅) → described l d → log_wf l d →
  wpe (initlog ROOTDEV)
    (λ _ s', ∃ a', R (lbuf s') a' ∧ quiet (lg s') a' ∧ l_start (lg s') = l_start l ∧ l_size (lg s') = l_size l ∧
       home_eq l (a_disk a') (logical (l_start l) d))
    (crashed (λ d', recovers l d' (logical (l_start l) d))) (mk_lst b log0).
Proof.
  intros HR [(blk & Hblk & Hst & Hsz) H1 H2 H3] Hw. unfold initlog.
  change (BSIZE <=? sizeof_logheader) with false. cbv iota. apply wpe_bind, wpe_modify. cbn [lbuf lg]. apply wpe_bind.
  eapply wpe_mono; [by apply (readsb_ok _ (mk_acache d ∅) blk)| |done]. intros sb s1 (-> & Hl1 & HR1).
  cbn [lg] in Hl1. apply wpe_bind, wpe_modify. rewrite Hst, Hsz, !s32_small by lia.
  set (s2 := mk_lst _ _). assert (lg s2 = log_at (l_start l) (l_size l)) as Hl2 by (cbn; by rewrite Hl1).
  assert (log_wf (lg s2) d) as Hw2 by (rewrite Hl2; by apply (recovers_region l _ d (logical (l_start l) d))).
  eapply wpe_mono; [apply (recover_ok s2 (mk_acache d ∅)); [done| | |done]| |]; rewrite ?Hl2.
  - intros x. by rewrite !lookup_empty.
  - split; cbn; (done || lia).
  - intros _ s' ((bs & Hl' & Hlb) & a' & hdr & HR' & Hm' & Hd' & Hn'). cbn in Hd'. exists a'.
    rewrite Hl'. split; [done|]. split; [|split; [done|split; [done|]]].
    + split; try done; [split; cbn; (done || lia)|]. cbn. rewrite Hd'. split; [|cbn; by rewrite header_insert].
      intros x Hx. destruct (decide (x = l_start l)) as [->|]; [rewrite lookup_insert_eq; by eexists|].
      rewrite lookup_insert_ne by done. apply install_dom. apply (lw_disk _ _ Hw). exact Hx.
    + intros x Hx. rewrite Hd', lookup_insert_ne; [done|]. intros <-. apply Hx. unfold in_log. lia.
  - intros e (d' & -> & Hw' & He'). eexists. split; [done|]. split; [|intros x _; cbn in He'; by rewrite He'].
    apply (recovers_region (log_at (l_start l) (l_size l)) l d' (logical (l_start l) d')); [done|done|by split].
Qed.

(** The disks that crashes during recovery can leave. *)
Inductive reboots : gmap Z (list Z) → gmap Z (list Z) → Prop :=
  | reboot_here d : reboots d d
  | reboot_crash d b d1 d2 :
      R b (mk_acache d ∅) → initlog ROOTDEV (mk_lst b log0) = Fail (ECrash d1) → reboots d1 d2 → reboots d d2.

Lemma described_same l d d' : described l d → d !! 1 = d' !! 1 → described l d'.
Proof. intros [H1 H2 H3 H4] E. split; [by rewrite <-E|done..]. Qed.

Lemma described_out l d : described l d → ¬ in_log l 1.
Proof. intros [_ H _ _]. unfold in_log. lia. Qed.

Lemma reboots_recovers l d d2 d' :
  reboots d d2 → recovers l d d' → described l d → recovers l d2 d' ∧ described l d2.
Proof.
  induction 1 as [|d b d1 d2 HR E _ IH]; [done|]. intros Hrec Hde. pose proof Hrec as [Hw He].
  pose proof (initlog_ok l b d HR Hde Hw) as H. unfold wpe in H. rewrite E in H. destruct H as (d1' & [= <-] & Hrec1).
  assert (recovers l d1 d') as Hrec2.
  { split; [apply Hrec1|]. intros x Hx. destruct Hrec1 as [_ He1]. by rewrite He1, He. }
  apply IH; [done|]. apply (described_same l d); [done|].
  pose proof (described_out l d Hde). rewrite (recovers_sb l d d') by done. by rewrite (recovers_sb l d1 d').
Qed.

(** Whatever happens, recovery comes to the disk [d1] that [d] stands for. *)
Lemma reboots_initlog l d0 d d1 d2 b :
  described l d0 → d1 !! 1 = d0 !! 1 → recovers l d d1 → reboots d d2 → R b (mk_acache d2 ∅) →
  wpe (initlog ROOTDEV)
    (λ _ s', ∃ a', R (lbuf s') a' ∧ quiet (lg s') a' ∧ home_eq l (a_disk a') d1) (crashed (λ _, True)) (mk_lst b log0).
Proof.
  intros Hde0 E1 Hrec Hre HRb. assert (described l d) as Hde1.
  { apply (described_same _ d0); [done|]. rewrite (recovers_sb l d d1); [done|done|by eapply described_out]. }
  destruct (reboots_recovers _ _ _ _ Hre Hrec Hde1) as [[Hw2 He2] Hde2].
  eapply wpe_mono; [by apply (initlog_ok l b d2)| |].
  - intros _ s' (a' & HR' & Hq' & _ & _ & He'). exists a'. split_and!; [done..|].
    intros x Hx. by rewrite He', He2.
  - intros e (d3 & -> & _). by exists d3.
Qed.

(** C3: a file system call that modifies up to [MAXOPBLOCKS] blocks through the
    log is atomic.  If it returns, all its writes are on disk.  If the power
    fails at any point, then, however often it fails again during recovery,
    every later boot recovers without a panic, and the blocks outside the log
    are either all as before the call or all as after it. *)
Theorem transaction_crash_atomic me ws s a :
  R (lbuf s) a → quiet (lg s) a → described (lg s) (a_disk a) →
  (∀ w, w ∈ ws → home (lg s) (a_disk a) w.1 ∧ length w.2 = Z.to_nat BSIZE) →
  Z.of_nat (length ws) ≤ MAXOPBLOCKS → MAXOPBLOCKS < l_size (lg s) →
  wpe (transaction me ws)
    (λ _ s', ∃ a', R (lbuf s') a' ∧ quiet (lg s') a' ∧ home_eq (lg s) (a_disk a') (install ws (a_disk a)))
    (crashed (λ d, ∃ d1, (d1 = a_disk a ∨ d1 = install ws (a_disk a)) ∧
       ∀ d2 b, reboots d d2 → R b (mk_acache d2 ∅) →
         wpe (initlog ROOTDEV)
           (λ _ s', ∃ a', R (lbuf s') a' ∧ quiet (lg s') a' ∧ home_eq (lg s) (a_disk a') d1)
           (crashed (λ _, True)) (mk_lst b log0))) s.
Proof.
  intros HR Hq Hde Hws Hlen Hsz.
  eapply wpe_mono; [by apply (transaction_ok me ws s a)|intros _ s' (_ & a' & H); by exists a'|].
  intros e (d & -> & H). eexists. split; [done|].
  assert (∃ d1, (d1 = a_disk a ∨ d1 = install ws (a_disk a)) ∧ recovers (lg s) d d1) as (d1 & Hd1 & Hrec).
  { destruct H as [H|H]; eauto. }
  assert (1 ∉ ws.*1) as Hsb.
  { intros (w & E & Hw)%list_elem_of_fmap. destruct (Hws w Hw) as [(_ & [_ Hne] & _) _]. done. }
  exists d1. split; [done|]. intros d2 b Hre HRb. apply (reboots_initlog _ (a_disk a) d d1 d2); try done.
  destruct Hd1 as [->| ->]; [done|]. by rewrite install_out.
Qed.
End rules.

(** ** Log space

    Any number of system calls run at once; each has reserved [MAXOPBLOCKS]
    blocks of log space with [begin_op] and uses up one of them with every
    [log_write].  [ks] are what is left of the reservations of the calls that
    are between [begin_op] and [end_op].  In between, anything may happen to
    the buffers. *)

Section space.
Context {S : Type} `{!BufLayer S} (me : nat).
Implicit Types s : lst S.

Inductive op_step : lst S * list nat → lst S * list nat → Prop :=
  | step_begin s s' ks :
      begin_op me s = Done (tt, s') → op_step (s, ks) (s', Z.to_nat MAXOPBLOCKS :: ks)
  | step_write s s' h k ks1 ks2 :
      log_write me h s = Done (tt, s') → op_step (s, ks1 ++ Datatypes.S k :: ks2) (s', ks1 ++ k :: ks2)
  | step_end s s' k ks1 ks2 :
      end_op me s = Done (tt, s') → op_step (s, ks1 ++ k :: ks2) (s', ks1 ++ ks2)
  | step_bufs s b ks : op_step (s, ks) (mk_lst b (lg s), ks).

Definition space_inv (sz : Z) (st : lst S * list nat) : Prop :=
  let '(s, ks) := st in
  0 ≤ lh_n (lg s) ∧ outstanding (lg s) = Z.of_nat (length ks) ∧ Forall (λ k, (k ≤ Z.to_nat MAXOPBLOCKS)%nat) ks ∧
  lh_n (lg s) + Z.of_nat (sum_list ks) ≤ LOGSIZE ∧ lock_free (l_lock (lg s)) ∧ l_size (lg s) = sz.

Lemma sum_list_app_cons ks1 k ks2 : sum_list (ks1 ++ k :: ks2) = (k + sum_list (ks1 ++ ks2))%nat.
Proof. induction ks1 as [|x ks1 IH]; cbn in *; lia. Qed.

Lemma sum_list_bound ks :
  Forall (λ k, (k ≤ Z.to_nat MAXOPBLOCKS)%nat) ks → Z.of_nat (sum_list ks) ≤ MAXOPBLOCKS * Z.of_nat (length ks).
Proof. unfold MAXOPBLOCKS. induction 1 as [|k ks Hk _ IH]; cbn -[Z.mul]; lia. Qed.

(** Nothing below the log touches the log's variables. *)
Definition keeps_log {A} (m : M (lst S) A) : Prop := ∀ s a s', m s = Done (a, s') → lg s' = lg s.

Lemma lg_keeps_bind {A B} (m : M (lst S) A) (f : A → M (lst S) B) :
  keeps_log m → (∀ a, keeps_log (f a)) → keeps_log (bind m f).
Proof.
  intros Hm Hf s b s2. unfold bind. destruct (m s) as [[a s1]|] eqn:E; [|done].
  intros E2. rewrite (Hf a s1 b s2 E2). by eapply Hm.
Qed.

Lemma lg_keeps_bufs {A} (m : M S A) : keeps_log (bufs m).
Proof. intros s a s'. unfold bufs, zoom. destruct (m (lbuf s)) as [[x t]|]; [|done]. by intros [= <- <-]. Qed.

Lemma lg_keeps_edit h f : keeps_log (edit h f).
Proof. intros s a s'. by intros [= <- <-]. Qed.

Lemma lg_keeps_gets {A} (f : lst S → A) : keeps_log (gets f).
Proof. intros s a s'. by intros [= <- <-]. Qed.

Lemma lg_keeps_get_lh_block i : keeps_log (get_lh_block i).
Proof. intros s a s'. unfold get_lh_block. destruct (_ !! _); [|done]. by intros [= <- <-]. Qed.

Lemma lg_keeps_for n i body : (∀ j, keeps_log (body j)) → keeps_log (for_ n i body).
Proof.
  intros H. revert i. induction n as [|n IH]; intros i; cbn [for_]; [intros s a s'; by intros [= <- <-]|].
  by apply lg_keeps_bind.
Qed.

Ltac keeps :=
  repeat first [apply lg_keeps_bind|apply lg_keeps_gets|apply lg_keeps_bufs|apply lg_keeps_edit|apply lg_keeps_for|
    apply lg_keeps_get_lh_block|match goal with |- ∀ _, keeps_log _ => intros ? end].

Lemma lg_keeps_write_head : keeps_log write_head.
Proof. keeps. Qed.

Lemma lg_keeps_install_trans : keeps_log install_trans.
Proof. keeps. Qed.

Lemma lg_keeps_write_log : keeps_log write_log.
Proof. keeps. Qed.

Lemma begin_op_inv s s' :
  lock_free (l_lock (lg s)) → begin_op me s = Done (tt, s') →
  lg s' = set_outstanding (outstanding (lg s) + 1) (lg s) ∧
  lh_n (lg s) + (outstanding (lg s) + 1) * MAXOPBLOCKS ≤ LOGSIZE.
Proof.
  intros Hlk. unfold begin_op, on_log_lock, bind, zoom, gets, upd_log, modify. rewrite acquire_free by done.
  cbn [lg set_l_lock committing lh_n outstanding]. destruct (committing (lg s) =? 0); cbn [negb]; [|done].
  destruct (Z.ltb_spec LOGSIZE (lh_n (lg s) + (outstanding (lg s) + 1) * MAXOPBLOCKS)); [done|].
  cbn. rewrite release_held. intros [= <-]. cbn. split; [|done].
  destruct (lg s) as [lk]. cbn in *. by rewrite <-(lock_free_eq lk).
Qed.

Lemma log_write_inv h s s' :
  lock_free (l_lock (lg s)) → log_write me h s = Done (tt, s') →
  lock_free (l_lock (lg s')) ∧ outstanding (lg s') = outstanding (lg s) ∧ l_size (lg s') = l_size (lg s) ∧
  lh_n (lg s) ≤ lh_n (lg s') ≤ lh_n (lg s) + 1.
Proof.
  intros Hlk. unfold log_write, on_log_lock, bind, zoom, gets, upd_log, modify. destruct (_ || _); [done|].
  destruct (outstanding (lg s) <? 1); [done|]. rewrite acquire_free by done. cbn [lg lbuf set_l_lock lh_n lh_block].
  unfold put_lh_block, upd_log, modify. destruct (_ <? LOGSIZE); [|done]. cbn.
  destruct (absorb _ _ _ =? lh_n (lg s)); cbn; rewrite release_held; intros [= <-]; cbn; split_and!; (done || lia).
Qed.

Lemma commit_inv s s' :
  commit s = Done (tt, s') → 0 ≤ lh_n (lg s) → lg s' = set_lh_n 0 (lg s).
Proof.
  unfold commit, bind, gets. destruct (Z.ltb_spec 0 (lh_n (lg s))) as [H|H]; cbn [when].
  - destruct (write_log s) as [[? s1]|] eqn:E1; [|done]. apply lg_keeps_write_log in E1.
    destruct (write_head s1) as [[? s2]|] eqn:E2; [|done]. apply lg_keeps_write_head in E2.
    destruct (install_trans s2) as [[? s3]|] eqn:E3; [|done]. apply lg_keeps_install_trans in E3.
    intros E4. apply lg_keeps_write_head in E4. cbn in E4. congruence.
  - intros [= <-] H0. assert (lh_n (lg s) = 0) as E by lia. destruct (lg s). cbn in *. by subst.
Qed.

Lemma end_op_inv s s' :
  lock_free (l_lock (lg s)) → 0 ≤ lh_n (lg s) → end_op me s = Done (tt, s') →
  lock_free (l_lock (lg s')) ∧ outstanding (lg s') = outstanding (lg s) - 1 ∧ l_size (lg s') = l_size (lg s) ∧
  lh_n (lg s') = if outstanding (lg s) =? 1 then 0 else lh_n (lg s).
Proof.
  intros Hlk Hn. unfold end_op. set (rest := bind commit _).
  unfold on_log_lock at 1 2, bind, zoom, gets, upd_log, modify. rewrite acquire_free by done.
  cbn [lg lbuf set_l_lock set_outstanding committing outstanding]. destruct (committing (lg s) =? 0); cbn [negb]; [|done].
  replace (outstanding (lg s) - 1 =? 0) with (outstanding (lg s) =? 1)
    by (destruct (Z.eqb_spec (outstanding (lg s)) 1), (Z.eqb_spec (outstanding (lg s) - 1) 0); (done || lia)).
  destruct (outstanding (lg s) =? 1); cbn; rewrite release_held; cbn.
  - unfold rest, bind. destruct (commit _) as [[[] s1]|] eqn:E; [|done]. apply commit_inv in E; [|done].
    unfold on_log_lock, zoom, upd_log, modify. rewrite E. cbn. rewrite release_held. by intros [= <-].
  - by intros [= <-].
Qed.

Lemma space_inv_step sz st st' : op_step st st' → space_inv sz st → space_inv sz st'.
Proof.
  destruct 1 as [s s' ks E|s s' h k ks1 ks2 E|s s' k ks1 ks2 E|]; [..|done]; intros (Hn & Ho & Hk & Hs & Hlk & Hz).
  - destruct (begin_op_inv s s' Hlk E) as [El Hg]. pose proof (sum_list_bound ks Hk). unfold space_inv. rewrite El.
    cbn -[Z.mul] in *.
    split_and!; [done|lia|by constructor|unfold MAXOPBLOCKS in *; lia|done|done].
  - destruct (log_write_inv h s s' Hlk E) as (Hlk' & Ho' & Hz' & Hn'). rewrite !sum_list_app_cons in *. cbn [space_inv].
    rewrite length_app in *. cbn [length] in *. apply Forall_app in Hk as [Hk1 Hk2]. apply Forall_cons in Hk2 as [Hk2 Hk3].
    split_and!; [lia|lia|apply Forall_app; split; [done|by constructor; [lia|]]| |done|congruence].
    rewrite sum_list_app_cons. lia.
  - destruct (end_op_inv s s' Hlk Hn E) as (Hlk' & Ho' & Hz' & Hn'). rewrite !sum_list_app_cons in *.
    rewrite length_app in Ho. cbn [length] in Ho. apply Forall_app in Hk as [Hk1 Hk2]. apply Forall_cons in Hk2 as [_ Hk2].
    assert (Forall (λ k, (k ≤ Z.to_nat MAXOPBLOCKS)%nat) (ks1 ++ ks2)) as Hk3 by (by apply Forall_app).
    pose proof (sum_list_bound _ Hk3) as Hb. rewrite length_app in Hb. cbn [space_inv].
    destruct (Z.eqb_spec (outstanding (lg s)) 1);
      split_and!; try done; rewrite ?length_app; unfold MAXOPBLOCKS, LOGSIZE in *; lia.
Qed.

Lemma absorb_le blk bs i : absorb blk bs i ≤ i + Z.of_nat (length bs).
Proof. revert i. induction bs as [|b bs IH]; intros i; cbn; [lia|]. destruct (b =? blk); [lia|]. specialize (IH (i + 1)). lia. Qed.

(** C34: as long as no call writes more blocks than it reserved, a log of
    [LOGSIZE + 1] blocks (the header and [LOGSIZE] data blocks) never runs out
    of space: in every reachable state, [log_write] succeeds for a call that
    has reserved space left. *)
Theorem log_reservation_safe s0 s ks1 k ks2 h :
  lock_free (l_lock (lg s0)) → lh_n (lg s0) = 0 → outstanding (lg s0) = 0 → LOGSIZE < l_size (lg s0) →
  rtc op_step (s0, []) (s, ks1 ++ Datatypes.S k :: ks2) →
  ∃ s', log_write me h s = Done (tt, s').
Proof.
  intros Hlk Hn Ho Hsz Hr.
  assert (space_inv (l_size (lg s0)) (s, ks1 ++ Datatypes.S k :: ks2)) as (H0 & Hout & _ & Hs & Hlk' & Hz).
  { assert (space_inv (l_size (lg s0)) (s0, [])) as Hi by (cbn; rewrite Hn, Ho; split_and!; try done).
    revert Hi. generalize (s0, @nil nat) (s, ks1 ++ Datatypes.S k :: ks2) Hr.
    induction 1 as [|x y z Hxy _ IH]; [done|]. intros Hx. by apply IH, (space_inv_step _ x). }
  rewrite sum_list_app_cons in Hs. rewrite length_app in Hout. cbn [length] in Hout.
  unfold log_write, on_log_lock, bind, zoom, gets, upd_log, modify.
  destruct (Z.leb_spec LOGSIZE (lh_n (lg s))); [lia|]. destruct (Z.leb_spec (l_size (lg s) - 1) (lh_n (lg s))); [lia|].
  cbn [orb]. destruct (Z.ltb_spec (outstanding (lg s)) 1); [lia|]. rewrite acquire_free by done. cbn [lg lbuf].
  unfold put_lh_block, upd_log, modify. set (i := absorb _ _ 0).
  assert (i < LOGSIZE) as Hi.
  { unfold i. pose proof (absorb_le (s32 (buf_blockno h (lbuf s))) (take (Z.to_nat (lh_n (lg s))) (lh_block (lg s))) 0) as Ha.
    rewrite length_take in Ha. lia. }
  destruct (Z.ltb_spec i LOGSIZE); [|lia]. cbn.
  destruct (i =? lh_n (lg s)); cbn; rewrite release_held; by eexists.
Qed.
End space.

(** ** A disk with a log

    16 blocks: the super block is block 1, the log is blocks 2 to 13. *)

Definition demo_blocks : list (list Z) :=
  replicate 512 0 ::
  (le_bytes 4 16 ++ le_bytes 4 2 ++ le_bytes 4 0 ++ le_bytes 4 12 ++ le_bytes 4 2 ++ replicate 492 0) ::
  replicate 14 (replicate 512 0).

Definition demo_ide : Memide.disk := Memide.ideinit (concat demo_blocks).
Definition demo_unreliable (n : nat) : unreliable Memide.disk := mk_unreliable n demo_ide.
Abbreviation demo_img := (Memide.img demo_ide).

#[local] Existing Instances Memide.memide_dev Memide.memide_spec.
#[local] Instance demo_dev : BlockDev (unreliable Memide.disk) := unreliable_dev (img := Memide.img).
#[local] Instance demo_spec : BlockDevSpec (unreliable Memide.disk) (Memide.wf ∘ under) (Memide.img ∘ under) := unreliable_spec.

Lemma demo_log_wf : Memide.wf demo_ide.
Proof. split; [by vm_compute|]. split; vm_compute; congruence. Qed.

Lemma demo_log_blocks blk : 0 ≤ blk < 16 →
  ∃ dat, demo_img !! blk = Some dat ∧ length dat = Z.to_nat BSIZE ∧ dat = demo_blocks !!! Z.to_nat blk.
Proof.
  intros Hb. eexists. split; [apply Memide.img_lookup; exact Hb|].
  revert blk Hb. change 16 with (Z.of_nat 16). apply z_cases. repeat constructor; vm_compute; reflexivity.
Qed.

Lemma demo_log_R n :
  bio_R (ok := Memide.wf ∘ under) (img := Memide.img ∘ under)
    (mk_bst (initlock "bcache") binit_nodes (demo_unreliable n)) (mk_acache demo_img ∅).
Proof.
  destruct (binit_ok (ok := Memide.wf ∘ under) (img := Memide.img ∘ under) (demo_unreliable n) demo_log_wf) as (s & E & HR).
  { intros blk dat Hd. unfold compose in Hd. cbn [under demo_unreliable] in Hd.
    pose proof Hd as [Hb _]%Memide.img_lookup_Some. destruct (demo_log_blocks blk Hb) as (x & Hx & Hl & _). congruence. }
  rewrite binit_run in E. assert (s = mk_bst (initlock "bcache") binit_nodes (demo_unreliable n)) as -> by congruence.
  exact HR.
Qed.

(** Two blocks are written; the power fails at the fourth disk write, after
    the header made the transaction permanent and before it is installed. *)
Definition demo_writes : list (Z * list Z) := [(14, replicate 512 7); (15, replicate 512 8)].
Definition demo_log : lst (bst (unreliable Memide.disk)) :=
  mk_lst (mk_bst (initlock "bcache") binit_nodes (demo_unreliable 3)) (log_at 2 12).

Lemma demo_quiet : quiet (lg demo_log) (mk_acache demo_img ∅).
Proof.
  split; try done. split.
  - intros b Hb. destruct (demo_log_blocks b) as (x & Hx & _); [unfold in_log in Hb; cbn in Hb; lia|]. by exists x.
  - unfold header. destruct (demo_log_blocks 2) as (x & Hx & _ & ->); [lia|]. cbn [l_start lg demo_log log_at set_geometry a_disk].
    rewrite Hx. by vm_compute.
Qed.

Lemma demo_described : described (lg demo_log) demo_img.
Proof.
  split; try (by vm_compute). destruct (demo_log_blocks 1) as (x & Hx & _ & ->); [lia|].
  eexists. split; [exact Hx|]. split; by vm_compute.
Qed.

Lemma demo_writes_home w :
  w ∈ demo_writes → home (lg demo_log) demo_img w.1 ∧ length w.2 = Z.to_nat BSIZE.
Proof.
  assert (∀ b, 14 ≤ b < 16 → home (lg demo_log) demo_img b) as H.
  { intros b Hb. split; [unfold in_log; cbn; lia|]. split; [lia|].
    destruct (demo_log_blocks b) as (x & Hx & _); [lia|]. by exists x. }
  unfold demo_writes. intros [->|[->|[]%not_elem_of_nil]%elem_of_cons]%elem_of_cons; (split; [apply H; cbn; lia|done]).
Qed.

Lemma transaction_crash_atomic_witness :
  is_Some (match transaction (BufLayer0 := bio_layer 0 7) 0 demo_writes demo_log with Fail e => Some e | Done _ => None end) ∧
  wpe (transaction (BufLayer0 := bio_layer 0 7) 0 demo_writes) (λ _ _, True)
    (crashed (λ d, ∃ d1, d1 = demo_img ∨ d1 = install demo_writes demo_img)) demo_log.
Proof.
  split; [vm_compute; by eexists|].
  eapply wpe_mono; [apply (transaction_crash_atomic (R := bio_R (ok := Memide.wf ∘ under) (img := Memide.img ∘ under))
    0 demo_writes demo_log (mk_acache demo_img ∅) (demo_log_R 3) demo_quiet demo_described demo_writes_home)| |].
  - vm_compute. congruence.
  - by vm_compute.
  - done.
  - intros e (d & -> & d1 & Hd1 & _). eexists. split; [done|]. by exists d1.
Defined.

(** *** Log space *)

Definition space_log (sz : Z) : lst (bst (unreliable Memide.disk)) :=
  mk_lst (mk_bst (initlock "bcache") binit_nodes
    (mk_unreliable 0 (Memide.ideinit (concat (replicate 64 (replicate 512 0)))))) (log_at 2 sz).

Definition space_begun : lst (bst (unreliable Memide.disk)) :=
  mk_lst (lbuf (space_log 31)) (set_outstanding 1 (lg (space_log 31))).

Lemma log_reservation_safe_witness :
  ∃ s', log_write (BufLayer0 := bio_layer 0 7) 0 0 space_begun = Done (tt, s').
Proof.
  apply (log_reservation_safe (BufLayer0 := bio_layer 0 7) 0 (space_log 31) space_begun [] 9 [] 0);
    [done|done|done|done|].
  apply rtc_once, step_begin. reflexivity.
Defined.

(** Three calls, each of which writes the ten blocks it may write. *)
Definition three_calls : M (lst (bst (unreliable Memide.disk))) unit :=
  begin_op 0;; begin_op 0;; begin_op 0;;
  tx_writes (BufLayer0 := bio_layer 0 7) 0 ((λ b, (Z.of_nat b, replicate 512 1)) <$> seq 33 30).

(** With the log that mkfs makes, of [LOGSIZE] blocks one of which is the
    header, the reservation of [begin_op] is one block short: three calls that
    each write the [MAXOPBLOCKS] blocks they reserved panic, while a log of
    [LOGSIZE + 1] blocks has room for them. *)
Theorem log_reservation_short :
  three_calls (space_log LOGSIZE) = Fail (EPanic "too big a transaction") ∧
  ∃ s, three_calls (space_log (LOGSIZE + 1)) = Done (tt, s) ∧ lh_n (lg s) = 3 * MAXOPBLOCKS.
Proof.
  split; [vm_compute; reflexivity|].
  assert (match three_calls (space_log (LOGSIZE + 1)) with Done (_, s) => lh_n (lg s) =? 3 * MAXOPBLOCKS | Fail _ => false end
    = true) as H by (vm_compute; reflexivity).
  destruct (three_calls (space_log (LOGSIZE + 1))) as [[[] s]|]; [|discriminate]. exists s.
  split; [reflexivity|]. by apply Z.eqb_eq.
Qed.
