(* ===== verification/Tx.v ===== *)
(** * Blocks inside a transaction

    [BlockLayer] is what fs.c uses of bio.c and log.c: [bread], [log_write],
    [brelse] and access to the data of a buffer.  [BlockLayerSpec] is what it
    may rely on inside a transaction: the blocks are a map that the
    transaction reads and modifies, with buffers to be logged before they are
    released and a bound on the number of blocks that can be logged.  The
    theorems show that the log on any buffer cache provides it, and that what
    a transaction did to the map becomes durable as a whole. *)

From S2P Require Import Prelude Spinlock Buf Bio Log.

Class BlockLayer (T : Type) := {
  b_read : Z → Z → M T nat;
  b_log : nat → M T unit;
  b_rel : nat → M T unit;
  b_edit : nat → (list Z → list Z) → M T unit;
  b_data : nat → T → list Z;
}.

#[export] Instance log_layer {S} `{!BufLayer S} (me : nat) : BlockLayer (lst S) := {|
  b_read dv blk := bufs (bread dv blk);
  b_log h := log_write me h;
  b_rel h := bufs (brelse h);
  b_edit h f := edit h f;
  b_data h s := buf_data h (lbuf s);
|}.

(** The blocks, the buffers held (and whether they have changes that are not
    logged), the blocks logged so far and how many more may be. *)
Record view := mk_view {
  v_blk : gmap Z (list Z);
  v_held : gmap Z (nat * bool);
  v_logged : gset Z;
  v_room : nat;
}.

(** Buffers one call holds at a time. *)
Definition MAXHELD : nat := 4.

Definition v_hold (b : Z) (h : nat) (x : bool) (v : view) : view :=
  mk_view (v_blk v) (<[b := (h, x)]> (v_held v)) (v_logged v) (v_room v).
Definition v_drop (b : Z) (v : view) : view :=
  mk_view (v_blk v) (delete b (v_held v)) (v_logged v) (v_room v).
Definition v_write (b : Z) (d : list Z) (v : view) : view :=
  mk_view (<[b := d]> (v_blk v)) (v_held v) (v_logged v) (v_room v).
Definition v_log (b : Z) (v : view) : view :=
  if decide (b ∈ v_logged v) then v
  else mk_view (v_blk v) (v_held v) ({[b]} ∪ v_logged v) (v_room v - 1).
Definition v_can_log (b : Z) (v : view) : Prop := b ∈ v_logged v ∨ (0 < v_room v)%nat.

Lemma v_cycle b h d v :
  v_held v !! b = None →
  v_drop b (v_hold b h false (v_log b (v_hold b h true (v_write b d (v_hold b h false v))))) = v_log b (v_write b d v).
Proof.
  intros Hn. unfold v_log, v_drop, v_hold, v_write. cbn. destruct (decide (b ∈ v_logged v)); cbn; f_equal;
    by rewrite !insert_insert_eq, delete_insert_id.
Qed.

Lemma v_peek b h x v : v_held v !! b = None → v_drop b (v_hold b h x v) = v.
Proof. intros Hn. destruct v. unfold v_drop, v_hold. cbn in *. by rewrite delete_insert_id. Qed.

Lemma v_log_blk b v : v_blk (v_log b v) = v_blk v.
Proof. unfold v_log. by destruct (decide _). Qed.
Lemma v_log_held b v : v_held (v_log b v) = v_held v.
Proof. unfold v_log. by destruct (decide _). Qed.

Lemma v_put_blk b d v : v_blk (v_log b (v_write b d v)) = <[b := d]> (v_blk v).
Proof. by rewrite v_log_blk. Qed.
Lemma v_put_held b d v : v_held (v_log b (v_write b d v)) = v_held v.
Proof. by rewrite v_log_held. Qed.

Class BlockLayerSpec (T : Type) `{!BlockLayer T} (TR : T → view → Prop) (writable : Z → Prop) := {
  bs_len t v b d : TR t v → v_blk v !! b = Some d → length d = Z.to_nat BSIZE;
  bs_read t v b d :
    TR t v → v_blk v !! b = Some d → v_held v !! b = None → (size (v_held v) < MAXHELD)%nat →
    ∃ h t', b_read ROOTDEV b t = Done (h, t') ∧ TR t' (v_hold b h false v);
  bs_data t v b h x d :
    TR t v → v_held v !! b = Some (h, x) → v_blk v !! b = Some d → b_data h t = d;
  bs_edit t v b h x d f :
    TR t v → v_held v !! b = Some (h, x) → v_blk v !! b = Some d → length (f d) = Z.to_nat BSIZE →
    ∃ t', b_edit h f t = Done (tt, t') ∧ TR t' (v_hold b h true (v_write b (f d) v));
  bs_log t v b h x :
    TR t v → v_held v !! b = Some (h, x) → writable b → v_can_log b v →
    ∃ t', b_log h t = Done (tt, t') ∧ TR t' (v_hold b h false (v_log b v));
  bs_rel t v b h :
    TR t v → v_held v !! b = Some (h, false) → ∃ t', b_rel h t = Done (tt, t') ∧ TR t' (v_drop b v);
}.

(** ** The log provides it *)

Section tx.
Context {S : Type} `{!BufLayer S} {R : S → acache → Prop} `{!BufLayerSpec S R} (me : nat).
Context (l0 : logst).
Implicit Types s : lst S.

(** A block that may be written: on the disk [d0], outside the log. *)
Definition tx_writable (d0 : gmap Z (list Z)) (b : Z) : Prop := home l0 d0 b.

(** What the cache has of block [b]. *)
Definition entry_ok (a : acache) (bs : list Z) (v : view) (b : Z) : Prop :=
  match v_held v !! b with
  | Some (h, x) => ∃ d, v_blk v !! b = Some d ∧ a_busy a !! b = Some (mk_aent h d (bool_decide (b ∈ bs)) true) ∧
      (x = false → b ∈ bs ∨ a_disk a !! b = Some d)
  | None =>
      if decide (b ∈ bs) then ∃ h d, v_blk v !! b = Some d ∧ a_busy a !! b = Some (mk_aent h d true false)
      else a_busy a !! b = None ∧ v_blk v !! b = a_disk a !! b
  end.

Record tx_state (d0 : gmap Z (list Z)) (s : lst S) (v : view) (a : acache) (bs : list Z) : Prop := {
  ts_R : R (lbuf s) a;
  ts_disk : a_disk a = d0;
  ts_log : same_log l0 (lg s);
  ts_geom : geom (lg s);
  ts_lock : lock_free (l_lock (lg s));
  ts_committing : committing (lg s) = 0;
  ts_outstanding : 1 ≤ outstanding (lg s);
  ts_n : lh_n (lg s) = Z.of_nat (length bs);
  ts_blocks : take (length bs) (lh_block (lg s)) = bs;
  ts_nodup : NoDup bs;
  ts_logged : v_logged v = list_to_set bs;
  ts_room : (length bs + v_room v ≤ Z.to_nat MAXOPBLOCKS)%nat;
  ts_size : MAXOPBLOCKS + 1 < l_size l0;
  ts_home b : b ∈ bs → home l0 d0 b;
  ts_idle : idle l0 d0;
  ts_dom b : is_Some (v_blk v !! b) ↔ is_Some (d0 !! b);
  ts_entry b : entry_ok a bs v b;
  ts_held : (size (v_held v) ≤ MAXHELD)%nat;
}.

Definition tx_R (d0 : gmap Z (list Z)) (s : lst S) (v : view) : Prop := ∃ a bs, tx_state d0 s v a bs.

Lemma tx_busy_size d0 s v a bs : tx_state d0 s v a bs → (size (a_busy a) ≤ length bs + size (v_held v))%nat.
Proof.
  intros Ht. rewrite <-!size_dom.
  assert (dom (a_busy a) ⊆ list_to_set bs ∪ dom (v_held v)) as Hsub.
  { intros b [e Hb]%elem_of_dom. pose proof (ts_entry _ _ _ _ _ Ht b) as He. unfold entry_ok in He.
    apply elem_of_union. destruct (v_held v !! b) as [[h x]|] eqn:E; [right; by apply elem_of_dom|left].
    apply elem_of_list_to_set. destruct (decide (b ∈ bs)) as [|Hn]; [done|]. destruct He as [He _]. congruence. }
  apply subseteq_size in Hsub. rewrite size_union_alt in Hsub.
  pose proof (subseteq_size (dom (v_held v) ∖ list_to_set bs) (dom (v_held v)) ltac:(set_solver)) as H1.
  pose proof (size_list_to_set (C := gset Z) bs (ts_nodup _ _ _ _ _ Ht)) as H2. lia.
Qed.

Lemma entry_frame a a' bs bs' v v' b :
  entry_ok a bs v b → v_held v' !! b = v_held v !! b → v_blk v' !! b = v_blk v !! b →
  a_busy a' !! b = a_busy a !! b → a_disk a' = a_disk a → (b ∈ bs' ↔ b ∈ bs) → entry_ok a' bs' v' b.
Proof.
  unfold entry_ok. intros H -> -> -> -> Hb. destruct (v_held v !! b) as [[h x]|].
  - destruct H as (d & H1 & H2 & H3). exists d. split_and!; [done| |by rewrite Hb].
    by rewrite (bool_decide_ext (b ∈ bs') (b ∈ bs) Hb).
  - destruct (decide (b ∈ bs)), (decide (b ∈ bs')); naive_solver.
Qed.

Lemma tx_held d0 s v a bs b h x d :
  tx_state d0 s v a bs → v_held v !! b = Some (h, x) → v_blk v !! b = Some d →
  a_busy a !! b = Some (mk_aent h d (bool_decide (b ∈ bs)) true) ∧ (x = false → b ∈ bs ∨ a_disk a !! b = Some d).
Proof.
  intros Ht Hh Hd. pose proof (ts_entry _ _ _ _ _ Ht b) as He. unfold entry_ok in He. rewrite Hh in He.
  destruct He as (d' & E & H1 & H2). rewrite Hd in E. by injection E as <-.
Qed.

(** Only block [b] changes, and only in the cache. *)
Lemma tx_state_cache d0 s v a bs b b' v' a' :
  tx_state d0 s v a bs → R b' a' → a_disk a' = a_disk a →
  (∀ x, x ≠ b → a_busy a' !! x = a_busy a !! x ∧ v_held v' !! x = v_held v !! x ∧ v_blk v' !! x = v_blk v !! x) →
  (is_Some (v_blk v' !! b) ↔ is_Some (v_blk v !! b)) →
  v_logged v' = v_logged v → v_room v' = v_room v → (size (v_held v') ≤ MAXHELD)%nat →
  entry_ok a' bs v' b → tx_state d0 (mk_lst b' (lg s)) v' a' bs.
Proof.
  intros Ht HR Hd Hx Hb Hl Hr Hs He. destruct Ht. split; cbn [lbuf lg]; rewrite ?Hl, ?Hr; try done.
  - congruence.
  - intros x. destruct (decide (x = b)) as [->|Hne]; [by rewrite Hb|]. destruct (Hx x Hne) as (_ & _ & ->). done.
  - intros x. destruct (decide (x = b)) as [->|Hne]; [done|]. destruct (Hx x Hne) as (H1 & H2 & H3).
    by apply (entry_frame a a' bs bs v v').
Qed.

Lemma tx_read d0 s v b d :
  tx_R d0 s v → v_blk v !! b = Some d → v_held v !! b = None → (size (v_held v) < MAXHELD)%nat →
  ∃ h s', bufs (bread ROOTDEV b) s = Done (h, s') ∧ tx_R d0 s' (v_hold b h false v).
Proof.
  intros (a & bs & Ht) Hd Hh Hs. pose proof (ts_entry _ _ _ _ _ Ht b) as He. unfold entry_ok in He. rewrite Hh in He.
  assert (a_view a b = Some d ∧ a_can_lock a b ∧ a_dirty a b = bool_decide (b ∈ bs) ∧
          (b ∈ bs ∨ a_disk a !! b = Some d)) as (Hv & Hl & Hdy & Hc).
  { unfold a_view, a_can_lock, a_dirty. destruct (decide (b ∈ bs)) as [Hb|Hb].
    - destruct He as (h & d' & E & ->). rewrite Hd in E. injection E as <-. rewrite bool_decide_true by done. auto.
    - destruct He as [-> E]. rewrite bool_decide_false by done. rewrite <-E. split_and!; [done| |done|by right].
      pose proof (tx_busy_size _ _ _ _ _ Ht). pose proof (ts_room _ _ _ _ _ Ht).
      unfold NBUF, MAXOPBLOCKS, MAXHELD in *. lia. }
  destruct (bl_bread (lbuf s) a b d) as (h & b' & E & HR'); [apply Ht|done|done| |].
  { rewrite (ts_disk _ _ _ _ _ Ht). apply (ts_dom _ _ _ _ _ Ht). by exists d. }
  exists h, (mk_lst b' (lg s)). split; [unfold bufs, zoom; by rewrite E|].
  exists (a_put b (mk_aent h d (a_dirty a b) true) a), bs. eapply (tx_state_cache d0 s v a bs b); try done.
  - intros x Hx. cbn. by rewrite !lookup_insert_ne.
  - cbn. rewrite map_size_insert_None by done. lia.
  - unfold entry_ok. cbn. rewrite lookup_insert_eq, Hdy. exists d. rewrite lookup_insert_eq. done.
Qed.

Lemma tx_edit d0 s v b h x d f :
  tx_R d0 s v → v_held v !! b = Some (h, x) → v_blk v !! b = Some d → length (f d) = Z.to_nat BSIZE →
  ∃ s', edit h f s = Done (tt, s') ∧ tx_R d0 s' (v_hold b h true (v_write b (f d) v)).
Proof.
  intros (a & bs & Ht) Hh Hd Hf. destruct (tx_held _ _ _ _ _ _ _ _ _ Ht Hh Hd) as [He _].
  pose proof (ts_R _ _ _ _ _ Ht) as HR. destruct (bl_data _ _ _ _ _ _ HR He) as [Ed _].
  eexists. split; [unfold edit, modify; by rewrite Ed|].
  exists (a_put b (mk_aent h (f d) (bool_decide (b ∈ bs)) true) a), bs.
  eapply (tx_state_cache d0 s v a bs b); try done.
  - by apply (bl_set_data _ _ _ _ d).
  - intros y Hy. cbn. by rewrite !lookup_insert_ne.
  - cbn. rewrite lookup_insert_eq, Hd. by split; eexists.
  - cbn. rewrite map_size_insert_Some by done. apply Ht.
  - unfold entry_ok. cbn. rewrite !lookup_insert_eq. by exists (f d).
Qed.

Lemma tx_rel d0 s v b h :
  tx_R d0 s v → v_held v !! b = Some (h, false) →
  ∃ s', bufs (brelse h) s = Done (tt, s') ∧ tx_R d0 s' (v_drop b v).
Proof.
  intros (a & bs & Ht) Hh. pose proof (ts_entry _ _ _ _ _ Ht b) as He. unfold entry_ok in He. rewrite Hh in He.
  destruct He as (d & Hd & Hb & Hc). specialize (Hc eq_refl).
  destruct (bl_brelse (lbuf s) a b h d (bool_decide (b ∈ bs))) as (b' & E & HR'); [apply Ht|done| |].
  { destruct Hc as [Hc|Hc]; [left; by apply bool_decide_true|by right]. }
  exists (mk_lst b' (lg s)). split; [unfold bufs, zoom; by rewrite E|].
  eexists _, bs. eapply (tx_state_cache d0 s v a bs b); [done|exact HR'| | |done|done|done| |].
  - unfold a_unlock. cbn. by case_bool_decide.
  - intros x Hx. unfold a_unlock. cbn. rewrite lookup_delete_ne by done.
    case_bool_decide; cbn; [by rewrite lookup_insert_ne|by rewrite lookup_delete_ne].
  - cbn. rewrite map_size_delete, Hh. pose proof (ts_held _ _ _ _ _ Ht). lia.
  - unfold entry_ok. cbn. rewrite lookup_delete_eq. unfold a_unlock. cbn.
    destruct (decide (b ∈ bs)) as [Hin|Hin].
    + rewrite bool_decide_true by done. cbn. rewrite lookup_insert_eq. by exists h, d.
    + rewrite bool_decide_false by done. cbn. rewrite lookup_delete_eq. destruct Hc as [?|Hc]; [done|]. by rewrite Hc.
Qed.

Lemma v_log_record bs b v :
  v_logged v = list_to_set bs → (length bs + v_room v ≤ Z.to_nat MAXOPBLOCKS)%nat → v_can_log b v →
  v_blk (v_log b v) = v_blk v ∧ v_held (v_log b v) = v_held v ∧ v_logged (v_log b v) = list_to_set (record b bs) ∧
  (length (record b bs) + v_room (v_log b v) ≤ Z.to_nat MAXOPBLOCKS)%nat.
Proof.
  intros Hl Hr Hc. assert (b ∈ v_logged v ↔ b ∈ bs) as Hiff by (by rewrite Hl, elem_of_list_to_set).
  unfold v_log, record. destruct (decide (b ∈ v_logged v)) as [Hin|Hin], (decide (b ∈ bs)) as [Hb|Hb]; try naive_solver.
  cbn. rewrite Hl, length_app. split_and!; [done|done|set_solver|]. destruct Hc as [?|Hc]; [done|]. cbn. lia.
Qed.

Lemma tx_log d0 s v b h x :
  tx_R d0 s v → v_held v !! b = Some (h, x) → tx_writable d0 b → v_can_log b v →
  ∃ s', log_write me h s = Done (tt, s') ∧ tx_R d0 s' (v_hold b h false (v_log b v)).
Proof.
  intros (a & bs & Ht) Hh Hw Hc. pose proof (ts_entry _ _ _ _ _ Ht b) as He. unfold entry_ok in He. rewrite Hh in He.
  destruct He as (d & Hd & Hb & _). pose proof (ts_R _ _ _ _ _ Ht) as HR. destruct (bl_data _ _ _ _ _ _ HR Hb) as [_ Ebn].
  pose proof (ts_log _ _ _ _ _ Ht) as Hsl. pose proof (ts_room _ _ _ _ _ Ht) as Hroom. pose proof (ts_size _ _ _ _ _ Ht) as Hsz.
  destruct (v_log_record bs b v) as (V1 & V2 & V3 & V4); [apply Ht|done|done|].
  destruct (log_write_run me s h b bs) as (l' & E & Hl' & Hlen & Hn' & Hb').
  1-5: apply Ht.
  - unfold LOGSIZE, MAXOPBLOCKS in *. lia.
  - rewrite Hsl. cbn. unfold MAXOPBLOCKS in *. lia.
  - done.
  - apply Hw.
  - exists (mk_lst (mark_dirty h (lbuf s)) l'). split; [done|].
    exists (a_put b (mk_aent h d true true) a), (record b bs).
    destruct Ht. split; cbn [lbuf lg a_disk a_put v_hold v_blk v_held v_logged v_room]; rewrite ?V1, ?V2, ?V3; try done.
    + by apply (bl_mark_dirty _ _ _ _ d (bool_decide (b ∈ bs))).
    + by eapply same_log_trans.
    + apply (geom_counts (lg s)); [done|by rewrite Hl'..|]. by rewrite Hlen, (g_blocks _ ts_geom0).
    + by rewrite Hl'.
    + by rewrite Hl'.
    + by rewrite Hl'.
    + by apply record_nodup.
    + intros y [->|Hy]%elem_of_record; [done|by apply ts_home0].
    + intros y. destruct (decide (y = b)) as [->|Hy].
      * unfold entry_ok. cbn. rewrite lookup_insert_eq, V1. exists d. rewrite lookup_insert_eq, bool_decide_true
          by (apply elem_of_record; by left). split_and!; [done..|]. intros _. left. apply elem_of_record. by left.
      * apply (entry_frame a _ bs _ v); [done|cbn; by rewrite lookup_insert_ne, V2|cbn; by rewrite V1|cbn; by rewrite lookup_insert_ne|done|].
        rewrite elem_of_record. naive_solver.
    + rewrite map_size_insert_Some by done. done.
Qed.

#[export] Instance tx_spec (d0 : gmap Z (list Z)) :
  BlockLayerSpec (BlockLayer0 := log_layer me) (lst S) (tx_R d0) (tx_writable d0).
Proof.
  split.
  - intros t v b d (a & bs & Ht) Hd. pose proof (ts_entry _ _ _ _ _ Ht b) as He.
    apply (bl_length (lbuf t) a b); [apply Ht|]. unfold entry_ok in He. unfold a_view.
    destruct (v_held v !! b) as [[h x]|]; [by destruct He as (d' & E & -> & _); rewrite E in Hd|].
    destruct (decide (b ∈ bs)); [by destruct He as (h & d' & E & ->); rewrite E in Hd|]. destruct He as [-> <-]. done.
  - intros. by eapply tx_read.
  - intros t v b h x d (a & bs & Ht) Hh Hd. destruct (tx_held _ _ _ _ _ _ _ _ _ Ht Hh Hd) as [He _].
    by destruct (bl_data _ _ _ _ _ _ (ts_R _ _ _ _ _ Ht) He).
  - intros. by eapply tx_edit.
  - intros. by eapply tx_log.
  - intros. by eapply tx_rel.
Qed.
End tx.

(** ** From [begin_op] to [end_op] *)

Section call.
Context {S : Type} `{!BufLayer S} {R : S → acache → Prop} `{!BufLayerSpec S R} (me : nat).
Implicit Types s : lst S.

(** What a transaction on the disk [d0] starts with. *)
Definition fresh_view (d0 : gmap Z (list Z)) : view := mk_view d0 ∅ ∅ (Z.to_nat MAXOPBLOCKS).

(** A system call that changes the disk. *)
Definition call {A} (op : M (lst S) A) : M (lst S) A :=
  begin_op me;;
  r <- op;;
  end_op me;;
  ret r.

Lemma tx_begin s a :
  R (lbuf s) a → quiet (lg s) a → MAXOPBLOCKS + 1 < l_size (lg s) →
  ∃ s', begin_op me s = Done (tt, s') ∧ lg s' = set_outstanding 1 (lg s) ∧
        tx_R (R := R) (lg s') (a_disk a) s' (fresh_view (a_disk a)).
Proof.
  intros HR Hq Hsz. destruct (begin_op_ok me s a HR Hq) as (s' & E & Hb & Hl & Ho). exists s'. split; [done|]. split; [done|].
  exists a, []. destruct Ho. split; cbn; try done.
  - by rewrite Hb.
  - unfold same_log. by destruct (lg s').
  - by rewrite Hl.
  - intros b. unfold entry_ok. cbn. rewrite lookup_empty, decide_False by apply not_elem_of_nil.
    split; [|done]. specialize (op_busy b). by rewrite lookup_empty in op_busy.
  - rewrite map_size_empty. lia.
Qed.

(** Nothing is held: what the transaction logged is the difference to the disk. *)
Lemma tx_opened l0 d0 s v a bs :
  tx_state (R := R) l0 d0 s v a bs → v_held v = ∅ →
  ∃ m, opened (lg s) a bs m ∧ m ∪ d0 = v_blk v.
Proof.
  intros Ht Hh. pose proof (ts_entry _ _ _ _ _ _ Ht) as He. pose proof (ts_log _ _ _ _ _ _ Ht) as Hsl.
  exists (filter (λ e, e.1 ∈ bs) (v_blk v)).
  assert (∀ b, if decide (b ∈ bs) then ∃ h d, v_blk v !! b = Some d ∧ a_busy a !! b = Some (mk_aent h d true false)
               else a_busy a !! b = None ∧ v_blk v !! b = a_disk a !! b) as He'.
  { intros b. specialize (He b). unfold entry_ok in He. by rewrite Hh, lookup_empty in He. }
  split.
  - destruct Ht. split; try done.
    + intros b. specialize (He' b). destruct (decide (b ∈ bs)) as [Hb|Hb].
      * destruct He' as (h & d & Hd & _). split; [done|]. intros _. exists d. by apply map_lookup_filter_Some.
      * split; [|done]. intros [d [_ ?]%map_lookup_filter_Some]. done.
    + intros b. specialize (He' b). destruct (filter _ _ !! b) as [d|] eqn:Ef.
      * apply map_lookup_filter_Some in Ef as [Hd Hb]. rewrite decide_True in He' by done.
        destruct He' as (h & d' & Hd' & ->). exists h. congruence.
      * destruct (decide (b ∈ bs)) as [Hb|Hb]; [|by destruct He'].
        destruct He' as (h & d' & Hd' & _). rewrite map_lookup_filter_None in Ef. destruct Ef as [Ef|Ef]; [congruence|].
        by destruct (Ef _ Hd').
    + intros b Hb. rewrite ts_disk0, Hsl. exact (ts_home0 b Hb).
    + rewrite ts_disk0, Hsl. exact ts_idle0.
  - apply map_eq. intros b. rewrite <-(ts_disk _ _ _ _ _ _ Ht). specialize (He' b). rewrite lookup_union.
    destruct (decide (b ∈ bs)) as [Hb|Hb].
    + destruct He' as (h & d & Hd & _). rewrite (map_lookup_filter_Some_2 _ _ _ d); [|done|done].
      rewrite Hd. by destruct (a_disk a !! b).
    + destruct He' as [_ ->]. rewrite map_lookup_filter_None_2; [by destruct (a_disk a !! b)|by right].
Qed.

Lemma call_ok {A} (op : M (lst S) A) P s a :
  R (lbuf s) a → quiet (lg s) a → MAXOPBLOCKS + 1 < l_size (lg s) →
  (∀ l0 s1, l0 = set_outstanding 1 (lg s) → tx_R (R := R) l0 (a_disk a) s1 (fresh_view (a_disk a)) →
     wp op (λ r s2, ∃ v, tx_R (R := R) l0 (a_disk a) s2 v ∧ v_held v = ∅ ∧ P r v) s1) →
  wpe (call op)
    (λ r s', ∃ v, P r v ∧ same_log (lg s) (lg s') ∧ ∃ a', R (lbuf s') a' ∧ quiet (lg s') a' ∧ home_eq (lg s) (a_disk a') (v_blk v))
    (crashed (λ d, recovers (lg s) d (a_disk a) ∨ ∃ r v, P r v ∧ v_blk v !! 1 = a_disk a !! 1 ∧ recovers (lg s) d (v_blk v))) s.
Proof.
  intros HR Hq Hsz Hop. destruct (tx_begin s a HR Hq Hsz) as (s1 & E1 & Hl1 & HR1).
  unfold call. apply wpe_bind. unfold wpe at 1. rewrite E1. apply wpe_bind.
  eapply wpe_mono; [apply (Hop (lg s1) s1 Hl1 HR1)| |done]. intros r s2 (v & (a2 & bs & Ht) & Hh & HP).
  destruct (tx_opened _ _ _ _ _ _ Ht Hh) as (m & Ho & Hm). pose proof (ts_log _ _ _ _ _ _ Ht) as Hsl.
  pose proof (ts_room _ _ _ _ _ _ Ht). pose proof (ts_disk _ _ _ _ _ _ Ht) as Hd.
  assert (v_blk v !! 1 = a_disk a !! 1) as H1.
  { rewrite <-Hm. rewrite lookup_union_r; [done|]. apply eq_None_not_Some. intros Hs%(op_dom _ _ _ _ Ho).
    by destruct (ts_home _ _ _ _ _ _ Ht _ Hs) as (_ & [_ ?] & _). }
  unfold same_log in Hsl. rewrite Hl1 in Hsl. apply wpe_bind.
  eapply wpe_mono; [apply (end_op_ok me s2 a2 bs m); [apply Ht|done|by rewrite Hsl|rewrite Hsl; cbn; unfold MAXOPBLOCKS in *; lia|]| |].
  { unfold NBUF, MAXOPBLOCKS in *. lia. }
  - intros _ s3 (Hl3 & a3 & HR3 & Hq3 & He3). rewrite Hd, Hm in He3. exists v. split; [done|]. split.
    + unfold same_log. rewrite Hl3, Hsl. pose proof (q_outstanding _ _ Hq) as E0. destruct (lg s). cbn in *. by subst.
    + exists a3. split; [done|]. split; [done|]. by rewrite Hsl in He3.
  - intros e (d & -> & Hrec). eexists. split; [done|]. rewrite Hd, Hm in Hrec.
    destruct Hrec as [Hrec|Hrec]; [left|right; exists r, v; split; [done|]; split; [done|]]; (eapply (recovers_region (lg s2)); [by rewrite Hsl|by rewrite Hsl|done]).
Qed.

(** C1: any system call that works on the blocks through [bread],
    [log_write] and [brelse] as [BlockLayerSpec] describes, between [begin_op]
    and [end_op], is atomic: if it completes, the disk holds everything it
    did; if the power fails at any disk write, and again during any number of
    recoveries, then the recovery that completes leaves on the disk (outside
    the log) all of what it did or nothing of it. *)
Theorem call_crash_atomic {A} (op : M (lst S) A) P s a :
  R (lbuf s) a → quiet (lg s) a → described (lg s) (a_disk a) → MAXOPBLOCKS + 1 < l_size (lg s) →
  (∀ l0 s1, l0 = set_outstanding 1 (lg s) → tx_R (R := R) l0 (a_disk a) s1 (fresh_view (a_disk a)) →
     wp op (λ r s2, ∃ v, tx_R (R := R) l0 (a_disk a) s2 v ∧ v_held v = ∅ ∧ P r (v_blk v)) s1) →
  wpe (call op)
    (λ r s', ∃ d1 a', P r d1 ∧ R (lbuf s') a' ∧ quiet (lg s') a' ∧ home_eq (lg s) (a_disk a') d1)
    (crashed (λ d, ∃ d1, (d1 = a_disk a ∨ ∃ r, P r d1) ∧
       ∀ d2 b, reboots (R := R) d d2 → R b (mk_acache d2 ∅) →
         wpe (initlog ROOTDEV)
           (λ _ s', ∃ a', R (lbuf s') a' ∧ quiet (lg s') a' ∧ home_eq (lg s) (a_disk a') d1)
           (crashed (λ _, True)) (mk_lst b log0))) s.
Proof.
  intros HR Hq Hde Hsz Hop. eapply wpe_mono; [by apply (call_ok op (λ r v, P r (v_blk v)) s a)| |].
  - intros r s' (v & HP & _ & a' & H). by exists (v_blk v), a'.
  - intros e (d & -> & [Hrec|(r & v & HP & H1 & Hrec)]); eexists; (split; [done|]).
    + exists (a_disk a). split; [by left|]. intros. by eapply reboots_initlog.
    + exists (v_blk v). split; [right; by exists r|]. intros. by eapply reboots_initlog.
Qed.
End call.

(** A call that reads a block, changes it, logs it and releases it. *)
Definition change {S} `{!BufLayer S} (b : Z) (f : list Z → list Z) : M (lst S) unit :=
  h <- b_read (BlockLayer := log_layer 0) ROOTDEV b;;
  b_edit (BlockLayer := log_layer 0) h f;;
  b_log (BlockLayer := log_layer 0) h;;
  b_rel (BlockLayer := log_layer 0) h.

Lemma change_ok {S} `{!BufLayer S} {R : S → acache → Prop} `{!BufLayerSpec S R} l0 d0 s b f d :
  tx_R (R := R) l0 d0 s (fresh_view d0) → d0 !! b = Some d → home l0 d0 b → length (f d) = Z.to_nat BSIZE →
  wp (change b f) (λ _ s', ∃ v, tx_R (R := R) l0 d0 s' v ∧ v_held v = ∅ ∧ v_blk v = <[b := f d]> d0) s.
Proof.
  intros HR Hd Hh Hf.
  destruct (tx_read l0 d0 s _ b d HR) as (h & s1 & E1 & HR1); [done|apply lookup_empty|vm_compute; lia|].
  destruct (tx_edit l0 d0 s1 _ b h false d f HR1) as (s2 & E2 & HR2); [apply lookup_insert_eq|done|done|].
  destruct (tx_log 0 l0 d0 s2 _ b h true HR2) as (s3 & E3 & HR3); [apply lookup_insert_eq|done|right; cbn; vm_compute; lia|].
  destruct (tx_rel l0 d0 s3 _ b h HR3) as (s4 & E4 & HR4); [apply lookup_insert_eq|].
  unfold change. cbn [b_read b_edit b_log b_rel log_layer]. apply wpe_bind. unfold wpe at 1. rewrite E1. apply wpe_bind. unfold wpe at 1. rewrite E2.
  apply wpe_bind. unfold wpe at 1. rewrite E3. unfold wpe. rewrite E4. eexists. split; [exact HR4|].
  rewrite v_cycle by apply lookup_empty. by rewrite v_put_held, v_put_blk.
Qed.

#[local] Existing Instances Memide.memide_dev Memide.memide_spec demo_dev demo_spec.

Lemma call_crash_atomic_witness :
  wpe (call (BufLayer0 := bio_layer 0 7) 0 (change (BufLayer0 := bio_layer 0 7) 14 (λ _, replicate 512 7))) (λ _ _, True)
    (crashed (λ _, True)) demo_log.
Proof.
  destruct (demo_log_blocks 14) as (x & Hx & _); [lia|].
  eapply wpe_mono; [apply (call_crash_atomic (BufLayer0 := bio_layer 0 7) (R := bio_R (ok := Memide.wf ∘ under) (img := Memide.img ∘ under)) 0
    (change (BufLayer0 := bio_layer 0 7) 14 (λ _, replicate 512 7)) (λ _ d, d = <[14 := replicate 512 7]> demo_img) demo_log
    (mk_acache demo_img ∅) (demo_log_R 3) demo_quiet demo_described)|done|].
  - by vm_compute.
  - intros l0 s1 -> HR. apply (change_ok _ demo_img s1 14 (λ _, replicate 512 7) x HR Hx); [|done].
    destruct (demo_writes_home (14, replicate 512 7)) as [H _]; [by left|exact H].
  - intros e (d & -> & _). by eexists.
Defined.
