(* ===== verification/Fs.v ===== *)
(** * fs.c: blocks, inodes, directories and path names

    The file system runs inside a transaction on any [BlockLayer]: reading,
    editing, logging and releasing blocks, as log.c and bio.c provide them.
    Inodes are referred to by their index in [icache.inode].  The functions
    that fill a caller's buffer return its contents. *)

From S2P Require Import Prelude Spinlock Buf Log Tx.

(** ** Constants and structures of fs.h, file.h, stat.h *)

Definition ROOTINO : Z := 1.
Definition NDIRECT : Z := 12.
Definition NINDIRECT : Z := BSIZE / 4.
Definition MAXFILE : Z := NDIRECT + NINDIRECT.
Definition sizeof_dinode : Z := 64.
Definition IPB : Z := BSIZE / sizeof_dinode.
Definition IBLOCK (i : Z) (sb : superblock) : Z := u32 (i / IPB + sb_inodestart sb).
Definition BPB : Z := BSIZE * 8.
Definition BBLOCK (b : Z) (sb : superblock) : Z := u32 (b / BPB + sb_bmapstart sb).
Definition DIRSIZ : nat := 14.
Definition sizeof_dirent : Z := 16.
Definition NINODE : nat := 50.
Definition NDEV : Z := 10.
Definition T_DIR : Z := 1.
Definition T_FILE : Z := 2.
Definition T_DEV : Z := 3.

Record inode := mk_inode {
  i_dev : Z;
  inum : Z;
  ref : Z;
  i_lock : sleeplock;
  valid : Z;
  i_type : Z;
  major : Z;
  minor : Z;
  nlink : Z;
  i_size : Z;
  addrs : list Z;
}.

Definition zero_inode : inode := mk_inode 0 0 0 zero_lock 0 0 0 0 0 0 (replicate 13 0).
#[export] Instance inode_inhabited : Inhabited inode := populate zero_inode.

Definition set_ident_i d n i := mk_inode d n (ref i) (i_lock i) (valid i) (i_type i) (major i) (minor i) (nlink i) (i_size i) (addrs i).
Definition set_ref v i := mk_inode (i_dev i) (inum i) v (i_lock i) (valid i) (i_type i) (major i) (minor i) (nlink i) (i_size i) (addrs i).
Definition set_i_lock v i := mk_inode (i_dev i) (inum i) (ref i) v (valid i) (i_type i) (major i) (minor i) (nlink i) (i_size i) (addrs i).
Definition set_valid v i := mk_inode (i_dev i) (inum i) (ref i) (i_lock i) v (i_type i) (major i) (minor i) (nlink i) (i_size i) (addrs i).
Definition set_type v i := mk_inode (i_dev i) (inum i) (ref i) (i_lock i) (valid i) v (major i) (minor i) (nlink i) (i_size i) (addrs i).
Definition set_major_minor a b i := mk_inode (i_dev i) (inum i) (ref i) (i_lock i) (valid i) (i_type i) a b (nlink i) (i_size i) (addrs i).
Definition set_nlink v i := mk_inode (i_dev i) (inum i) (ref i) (i_lock i) (valid i) (i_type i) (major i) (minor i) v (i_size i) (addrs i).
Definition set_isize v i := mk_inode (i_dev i) (inum i) (ref i) (i_lock i) (valid i) (i_type i) (major i) (minor i) (nlink i) v (addrs i).
Definition set_addrs v i := mk_inode (i_dev i) (inum i) (ref i) (i_lock i) (valid i) (i_type i) (major i) (minor i) (nlink i) (i_size i) v.

(** struct dinode in a block: four shorts, the size and 13 block numbers. *)
Definition s16 (x : Z) : Z := (x + 2 ^ 15) mod 2 ^ 16 - 2 ^ 15.
Definition get_short (off : Z) (d : list Z) : Z := s16 (le_val (take 2 (drop (Z.to_nat off) d))).
Definition put_short (off v : Z) (d : list Z) : list Z := splice (Z.to_nat off) (le_bytes 2 (u16 v)) d.
Definition get_addrs (off : Z) (d : list Z) : list Z := (λ k, get_uint (off + 4 * Z.of_nat k) d) <$> seq 0 13.
Definition put_addrs (off : Z) (l : list Z) (d : list Z) : list Z := splice (Z.to_nat off) (concat (le_bytes 4 <$> l)) d.
Definition dinode_off (i : Z) : Z := sizeof_dinode * (i mod IPB).

(** ** State *)

Record fst_ (T : Type) := mk_fst { fb : T; sb : superblock; ic_lock : spinlock; inodes : list inode }.
Arguments mk_fst {T}.
Arguments fb {T}.
Arguments sb {T}.
Arguments ic_lock {T}.
Arguments inodes {T}.

Definition stat_info : Type := Z * Z * Z * Z * Z.

Section fs.
Context {T : Type} `{!BlockLayer T} (me : nat) (pid : Z).
(** [devsw[major].read] and [.write]; [None] is a null pointer. *)
Context (dev_read : Z → option (nat → Z → M (fst_ T) (Z * list Z))).
Context (dev_write : Z → option (nat → list Z → M (fst_ T) Z)).
Abbreviation F := (M (fst_ T)).

Definition blocks {A} (m : M T A) : F A := zoom fb (λ t s, mk_fst t (sb s) (ic_lock s) (inodes s)) m.
Definition block_data (bp : nat) : F (list Z) := gets (λ s, b_data bp (fb s)).
Definition on_ic_lock (m : M spinlock unit) : F unit :=
  zoom ic_lock (λ l s, mk_fst (fb s) (sb s) l (inodes s)) m.
Definition ino (ip : nat) : F inode := gets (λ s, inodes s !!! ip).
Definition upd_ino (ip : nat) (f : inode → inode) : F unit :=
  modify (λ s, mk_fst (fb s) (sb s) (ic_lock s) (<[ip := f (inodes s !!! ip)]> (inodes s))).
Definition on_ilock {A} (ip : nat) (m : M sleeplock A) : F A :=
  zoom (λ s, i_lock (inodes s !!! ip))
    (λ l s, mk_fst (fb s) (sb s) (ic_lock s) (<[ip := set_i_lock l (inodes s !!! ip)]> (inodes s))) m.
Definition get_sb : F superblock := gets sb.

(** [readsb(dev, &sb)] *)
Definition fs_readsb (dv : Z) : F unit :=
  bp <- blocks (b_read dv 1);;
  d <- block_data bp;;
  modify (λ s, mk_fst (fb s) (decode_sb d) (ic_lock s) (inodes s));;
  blocks (b_rel bp).

Definition bzero (dv bno : Z) : F unit :=
  bp <- blocks (b_read dv bno);;
  blocks (b_edit bp (λ _, replicate (Z.to_nat BSIZE) 0));;
  blocks (b_log bp);;
  blocks (b_rel bp).

(** Bit [bi] of a bitmap block. *)
Definition bit_set (d : list Z) (bi : Z) : bool := negb (Z.land (d !!! Z.to_nat (bi / 8)) (Z.shiftl 1 (bi mod 8)) =? 0).
Definition set_bit (bi : Z) (d : list Z) : list Z :=
  <[Z.to_nat (bi / 8) := u8 (Z.lor (d !!! Z.to_nat (bi / 8)) (Z.shiftl 1 (bi mod 8)))]> d.
Definition clear_bit (bi : Z) (d : list Z) : list Z :=
  <[Z.to_nat (bi / 8) := u8 (Z.land (d !!! Z.to_nat (bi / 8)) (Z.lnot (Z.shiftl 1 (bi mod 8))))]> d.

(** The inner loop of [balloc]: [n] bits from [bi] on. *)
Fixpoint find_bit (n : nat) (bi : Z) (d : list Z) : option Z :=
  match n with
  | O => None
  | S n' => if bit_set d bi then find_bit n' (bi + 1) d else Some bi
  end.

Fixpoint balloc_loop (fuel : nat) (dv b : Z) : F Z :=
  match fuel with
  | O => fail EFuel
  | S fuel' =>
      s <- get_sb;;
      if b <? sb_size s then
        bp <- blocks (b_read dv (BBLOCK b s));;
        d <- block_data bp;;
        match find_bit (Z.to_nat (Z.min BPB (sb_size s - b))) 0 d with
        | Some bi =>
            blocks (b_edit bp (set_bit bi));;
            blocks (b_log bp);;
            blocks (b_rel bp);;
            bzero dv (b + bi);;
            ret (b + bi)
        | None => blocks (b_rel bp);; balloc_loop fuel' dv (b + BPB)
        end
      else panic "balloc: out of blocks"
  end.

(** At most one block of the bitmap per [BPB] blocks of the file system. *)
Definition balloc (dv : Z) : F Z :=
  s <- get_sb;;
  balloc_loop (Z.to_nat (sb_size s / BPB) + 2) dv 0.

Definition bfree (dv b : Z) : F unit :=
  fs_readsb dv;;
  s <- get_sb;;
  bp <- blocks (b_read dv (BBLOCK b s));;
  d <- block_data bp;;
  let bi := b mod BPB in
  if negb (bit_set d bi) then panic "freeing free block"
  else
    blocks (b_edit bp (clear_bit bi));;
    blocks (b_log bp);;
    blocks (b_rel bp).

(** ** Inodes *)

Fixpoint init_locks (n : nat) (i : nat) : F unit :=
  match n with
  | O => ret tt
  | S n' => upd_ino i (set_i_lock (initsleeplock "inode"));; init_locks n' (S i)
  end.

(** The line [cprintf] prints is not modelled. *)
Definition iinit (dv : Z) : F unit :=
  modify (λ s, mk_fst (fb s) (sb s) (initlock "icache") (inodes s));;
  init_locks NINODE 0;;
  fs_readsb dv.

(** The scan of [iget]: the entry that holds the inode, or the first free one. *)
Fixpoint iget_scan (l : list inode) (i : nat) (empty : option nat) (dv n : Z) : option nat * option nat :=
  match l with
  | [] => (None, empty)
  | ip :: l' =>
      if (0 <? ref ip) && (i_dev ip =? dv) && (inum ip =? n) then (Some i, empty)
      else iget_scan l' (S i) (match empty with None => if ref ip =? 0 then Some i else None | _ => empty end) dv n
  end.

Definition iget (dv n : Z) : F nat :=
  on_ic_lock (acquire me);;
  l <- gets inodes;;
  match iget_scan l 0 None dv n with
  | (Some ip, _) =>
      upd_ino ip (λ i, set_ref (s32 (ref i + 1)) i);;
      on_ic_lock (release me);;
      ret ip
  | (None, None) => panic "iget: no inodes"
  | (None, Some ip) =>
      upd_ino ip (set_ident_i dv n);;
      upd_ino ip (set_ref 1);;
      upd_ino ip (set_valid 0);;
      on_ic_lock (release me);;
      ret ip
  end.

Definition idup (ip : nat) : F nat :=
  on_ic_lock (acquire me);;
  upd_ino ip (λ i, set_ref (s32 (ref i + 1)) i);;
  on_ic_lock (release me);;
  ret ip.

(** The dinode zeroed by [memset], then given its type. *)
Definition new_dinode (off type : Z) (d : list Z) : list Z :=
  put_short off type (splice (Z.to_nat off) (replicate (Z.to_nat sizeof_dinode) 0) d).

Fixpoint ialloc_loop (fuel : nat) (dv type n : Z) : F nat :=
  match fuel with
  | O => fail EFuel
  | S fuel' =>
      s <- get_sb;;
      if n <? sb_ninodes s then
        bp <- blocks (b_read dv (IBLOCK n s));;
        d <- block_data bp;;
        if get_short (dinode_off n) d =? 0 then
          blocks (b_edit bp (new_dinode (dinode_off n) type));;
          blocks (b_log bp);;
          blocks (b_rel bp);;
          iget dv n
        else blocks (b_rel bp);; ialloc_loop fuel' dv type (n + 1)
      else panic "ialloc: no inodes"
  end.

Definition ialloc (dv type : Z) : F nat :=
  s <- get_sb;;
  ialloc_loop (S (Z.to_nat (sb_ninodes s))) dv type 1.

Definition put_dinode (off : Z) (i : inode) (d : list Z) : list Z :=
  put_addrs (off + 12) (addrs i) (put_int (off + 8) (i_size i) (put_short (off + 6) (nlink i)
    (put_short (off + 4) (minor i) (put_short (off + 2) (major i) (put_short off (i_type i) d))))).

Definition iupdate (ip : nat) : F unit :=
  i <- ino ip;;
  s <- get_sb;;
  bp <- blocks (b_read (i_dev i) (IBLOCK (inum i) s));;
  blocks (b_edit bp (put_dinode (dinode_off (inum i)) i));;
  blocks (b_log bp);;
  blocks (b_rel bp).

Definition load_dinode (off : Z) (d : list Z) (i : inode) : inode :=
  mk_inode (i_dev i) (inum i) (ref i) (i_lock i) (valid i) (get_short off d) (get_short (off + 2) d)
    (get_short (off + 4) d) (get_short (off + 6) d) (get_uint (off + 8) d) (get_addrs (off + 12) d).

(** A null [ip] is [None]. *)
Definition ilock (ip : option nat) : F unit :=
  match ip with
  | None => panic "ilock"
  | Some ip =>
      i <- ino ip;;
      if ref i <? 1 then panic "ilock"
      else
        on_ilock ip (acquiresleep me pid);;
        i <- ino ip;;
        when (valid i =? 0) (
          s <- get_sb;;
          bp <- blocks (b_read (i_dev i) (IBLOCK (inum i) s));;
          d <- block_data bp;;
          upd_ino ip (load_dinode (dinode_off (inum i)) d);;
          blocks (b_rel bp);;
          upd_ino ip (set_valid 1);;
          i <- ino ip;;
          when (i_type i =? 0) (panic "ilock: no type"))
  end.

Definition iunlock (ip : option nat) : F unit :=
  match ip with
  | None => panic "iunlock"
  | Some ip =>
      h <- on_ilock ip (holdingsleep me);;
      i <- ino ip;;
      if (h =? 0) || (ref i <? 1) then panic "iunlock"
      else on_ilock ip (releasesleep me)
  end.

(** ** Contents *)

Definition bmap (ip : nat) (bn : Z) : F Z :=
  i <- ino ip;;
  if bn <? NDIRECT then
    let addr := addrs i !!! Z.to_nat bn in
    if addr =? 0 then
      a <- balloc (i_dev i);;
      upd_ino ip (λ i, set_addrs (<[Z.to_nat bn := a]> (addrs i)) i);;
      ret a
    else ret addr
  else
    let bn := bn - NDIRECT in
    if bn <? NINDIRECT then
      let addr := addrs i !!! Z.to_nat NDIRECT in
      addr <- (if addr =? 0 then
                 a <- balloc (i_dev i);;
                 upd_ino ip (λ i, set_addrs (<[Z.to_nat NDIRECT := a]> (addrs i)) i);;
                 ret a
               else ret addr);;
      bp <- blocks (b_read (i_dev i) addr);;
      d <- block_data bp;;
      let a := get_uint (4 * bn) d in
      if a =? 0 then
        a <- balloc (i_dev i);;
        blocks (b_edit bp (put_int (4 * bn) a));;
        blocks (b_log bp);;
        blocks (b_rel bp);;
        ret a
      else blocks (b_rel bp);; ret a
    else panic "bmap: out of range".

Fixpoint itrunc_direct (n : nat) (k : nat) (ip : nat) : F unit :=
  match n with
  | O => ret tt
  | S n' =>
      i <- ino ip;;
      when (negb (addrs i !!! k =? 0)) (
        bfree (i_dev i) (addrs i !!! k);;
        upd_ino ip (λ i, set_addrs (<[k := 0]> (addrs i)) i));;
      itrunc_direct n' (S k) ip
  end.

Fixpoint itrunc_indirect (n : nat) (j : Z) (dv : Z) (bp : nat) : F unit :=
  match n with
  | O => ret tt
  | S n' =>
      d <- block_data bp;;
      when (negb (get_uint (4 * j) d =? 0)) (bfree dv (get_uint (4 * j) d));;
      itrunc_indirect n' (j + 1) dv bp
  end.

Definition itrunc (ip : nat) : F unit :=
  itrunc_direct (Z.to_nat NDIRECT) 0 ip;;
  i <- ino ip;;
  let a := addrs i !!! Z.to_nat NDIRECT in
  when (negb (a =? 0)) (
    bp <- blocks (b_read (i_dev i) a);;
    itrunc_indirect (Z.to_nat NINDIRECT) 0 (i_dev i) bp;;
    blocks (b_rel bp);;
    bfree (i_dev i) a;;
    upd_ino ip (λ i, set_addrs (<[Z.to_nat NDIRECT := 0]> (addrs i)) i));;
  upd_ino ip (set_isize 0);;
  iupdate ip.

Definition iput (ip : nat) : F unit :=
  on_ilock ip (acquiresleep me pid);;
  i <- ino ip;;
  when (negb (valid i =? 0) && (nlink i =? 0)) (
    on_ic_lock (acquire me);;
    i <- ino ip;;
    on_ic_lock (release me);;
    when (ref i =? 1) (
      itrunc ip;;
      upd_ino ip (set_type 0);;
      iupdate ip;;
      upd_ino ip (set_valid 0)));;
  on_ilock ip (releasesleep me);;
  on_ic_lock (acquire me);;
  upd_ino ip (λ i, set_ref (s32 (ref i - 1)) i);;
  on_ic_lock (release me).

Definition iunlockput (ip : nat) : F unit :=
  iunlock (Some ip);;
  iput ip.

Definition stati (ip : nat) : F stat_info :=
  i <- ino ip;;
  ret (i_dev i, inum i, i_type i, nlink i, i_size i).

(** The copying loops of [readi] and [writei]: [n] bytes are left; each round
    handles at least one. *)
Fixpoint readi_loop (fuel : nat) (ip : nat) (off n : Z) : F (list Z) :=
  match fuel with
  | O => fail EFuel
  | S fuel' =>
      if n <=? 0 then ret []
      else
        i <- ino ip;;
        addr <- bmap ip (off / BSIZE);;
        bp <- blocks (b_read (i_dev i) addr);;
        d <- block_data bp;;
        let m := Z.min n (BSIZE - off mod BSIZE) in
        let got := take (Z.to_nat m) (drop (Z.to_nat (off mod BSIZE)) d) in
        blocks (b_rel bp);;
        rest <- readi_loop fuel' ip (u32 (off + m)) (n - m);;
        ret (got ++ rest)
  end.

Definition readi (ip : nat) (off n : Z) : F (Z * list Z) :=
  i <- ino ip;;
  if i_type i =? T_DEV then
    if (major i <? 0) || (NDEV <=? major i) then ret (-1, [])
    else match dev_read (major i) with
         | None => ret (-1, [])
         | Some rd => rd ip n
         end
  else if (i_size i <? off) || (u32 (off + n) <? off) then ret (-1, [])
  else
    let n := if i_size i <? u32 (off + n) then i_size i - off else n in
    l <- readi_loop (S (Z.to_nat n)) ip off n;;
    ret (n, l).

(** [src] is what is left of the source buffer; the result is the final [off]. *)
Fixpoint writei_loop (fuel : nat) (ip : nat) (src : list Z) (off n : Z) : F Z :=
  match fuel with
  | O => fail EFuel
  | S fuel' =>
      if n <=? 0 then ret off
      else
        i <- ino ip;;
        addr <- bmap ip (off / BSIZE);;
        bp <- blocks (b_read (i_dev i) addr);;
        let m := Z.min n (BSIZE - off mod BSIZE) in
        blocks (b_edit bp (splice (Z.to_nat (off mod BSIZE)) (take (Z.to_nat m) src)));;
        blocks (b_log bp);;
        blocks (b_rel bp);;
        writei_loop fuel' ip (drop (Z.to_nat m) src) (u32 (off + m)) (n - m)
  end.

(** [n] is the length of [src]. *)
Definition writei (ip : nat) (src : list Z) (off : Z) : F Z :=
  let n := Z.of_nat (length src) in
  i <- ino ip;;
  if i_type i =? T_DEV then
    if (major i <? 0) || (NDEV <=? major i) then ret (-1)
    else match dev_write (major i) with
         | None => ret (-1)
         | Some wr => wr ip src
         end
  else if (i_size i <? off) || (u32 (off + n) <? off) then ret (-1)
  else if MAXFILE * BSIZE <? u32 (off + n) then ret (-1)
  else
    off' <- writei_loop (S (Z.to_nat n)) ip src off n;;
    i <- ino ip;;
    when ((0 <? n) && (i_size i <? off')) (
      upd_ino ip (set_isize off');;
      iupdate ip);;
    ret n.

(** ** Directories *)

(** strncmp and strncpy of string.c, on buffers whose missing characters are NULs. *)
Fixpoint strncmp_l (n : nat) (p q : list Z) : Z :=
  match n with
  | O => 0
  | S n' =>
      let a := hd 0 p in let b := hd 0 q in
      if negb (a =? 0) && (a =? b) then strncmp_l n' (tl p) (tl q) else u8 a - u8 b
  end.

Fixpoint strncpy_l (n : nat) (t : list Z) : list Z :=
  match n with
  | O => []
  | S n' => let c := hd 0 t in if c =? 0 then replicate n 0 else c :: strncpy_l n' (tl t)
  end.

Definition namecmp (s t : list Z) : Z := strncmp_l DIRSIZ s t.

Definition de_inum (de : list Z) : Z := le_val (take 2 de).
Definition de_name (de : list Z) : list Z := drop 2 de.
Definition encode_dirent (n : Z) (name : list Z) : list Z := le_bytes 2 (u16 n) ++ strncpy_l DIRSIZ name.

(** The inode and the offset of its entry, if there is one. *)
Fixpoint dirlookup_loop (fuel : nat) (dp : nat) (name : list Z) (off : Z) : F (option (nat * Z)) :=
  match fuel with
  | O => fail EFuel
  | S fuel' =>
      i <- ino dp;;
      if off <? i_size i then
        r <- readi dp off sizeof_dirent;;
        if negb (r.1 =? sizeof_dirent) then panic "dirlookup read"
        else if de_inum r.2 =? 0 then dirlookup_loop fuel' dp name (u32 (off + sizeof_dirent))
        else if namecmp name (de_name r.2) =? 0 then
          ip <- iget (i_dev i) (de_inum r.2);;
          ret (Some (ip, off))
        else dirlookup_loop fuel' dp name (u32 (off + sizeof_dirent))
      else ret None
  end.

Definition dirlookup (dp : nat) (name : list Z) : F (option (nat * Z)) :=
  i <- ino dp;;
  if negb (i_type i =? T_DIR) then panic "dirlookup not DIR"
  else dirlookup_loop (S (Z.to_nat (i_size i))) dp name 0.

(** The offset of the first free entry, or the end of the directory. *)
Fixpoint find_dirent (fuel : nat) (dp : nat) (off : Z) : F Z :=
  match fuel with
  | O => fail EFuel
  | S fuel' =>
      i <- ino dp;;
      if off <? i_size i then
        r <- readi dp off sizeof_dirent;;
        if negb (r.1 =? sizeof_dirent) then panic "dirlink read"
        else if de_inum r.2 =? 0 then ret off
        else find_dirent fuel' dp (off + sizeof_dirent)
      else ret off
  end.

Definition dirlink (dp : nat) (name : list Z) (n : Z) : F Z :=
  r <- dirlookup dp name;;
  match r with
  | Some (ip, _) => iput ip;; ret (-1)
  | None =>
      i <- ino dp;;
      off <- find_dirent (S (Z.to_nat (i_size i))) dp 0;;
      w <- writei dp (encode_dirent n name) off;;
      if negb (w =? sizeof_dirent) then panic "dirlink"
      else ret 0
  end.

(** ** Path names *)

Definition SLASH : Z := 47.

Fixpoint skip_slashes (path : list Z) : list Z :=
  match path with c :: p => if c =? SLASH then skip_slashes p else path | [] => [] end.

(** Up to the next slash or the end. *)
Fixpoint span_elem (path : list Z) : list Z * list Z :=
  match path with
  | c :: p => if c =? SLASH then ([], path) else let '(e, r) := span_elem p in (c :: e, r)
  | [] => ([], [])
  end.

(** The element goes to the buffer [name], of DIRSIZ bytes. *)
Definition skipelem (path name : list Z) : option (list Z * list Z) :=
  match skip_slashes path with
  | [] => None
  | p =>
      let '(e, r) := span_elem p in
      let name := if (DIRSIZ <=? length e)%nat then splice 0 (take DIRSIZ e) name
                  else splice 0 (e ++ [0]) name in
      Some (skip_slashes r, name)
  end.

Fixpoint namex_loop (fuel : nat) (path : list Z) (parent : bool) (name : list Z) (ip : nat) :
    F (option nat * list Z) :=
  match fuel with
  | O => fail EFuel
  | S fuel' =>
      match skipelem path name with
      | None => if parent then iput ip;; ret (None, name) else ret (Some ip, name)
      | Some (path, name) =>
          ilock (Some ip);;
          i <- ino ip;;
          if negb (i_type i =? T_DIR) then iunlockput ip;; ret (None, name)
          else if parent && (match path with [] => true | _ => false end) then
            iunlock (Some ip);; ret (Some ip, name)
          else
            nx <- dirlookup ip name;;
            match nx with
            | None => iunlockput ip;; ret (None, name)
            | Some (next, _) => iunlockput ip;; namex_loop fuel' path parent name next
            end
      end
  end.

(** [cwd] is [myproc()->cwd]. *)
Definition namex (cwd : nat) (path : list Z) (parent : bool) (name : list Z) : F (option nat * list Z) :=
  ip <- (if hd 0 path =? SLASH then iget ROOTDEV ROOTINO else idup cwd);;
  namex_loop (S (length path)) path parent name ip.

Definition namei (cwd : nat) (path : list Z) : F (option nat) :=
  r <- namex cwd path false (replicate DIRSIZ 0);;
  ret r.1.

Definition nameiparent (cwd : nat) (path name : list Z) : F (option nat * list Z) :=
  namex cwd path true name.

End fs.
