(* ===== verification/FsSpec.v ===== *)
(** * Properties of the file system

    Path names, the layout of inodes on disk, and the block allocator, for
    the definitions of [Fs] on any block layer that keeps its promises. *)

From S2P Require Import Prelude Spinlock Buf Log Tx Fs.

(** ** Path names *)

(** The elements of a path: the maximal sequences without slashes. *)
Fixpoint elems_from (cur : list Z) (path : list Z) : list (list Z) :=
  match path with
  | [] => match cur with [] => [] | _ => [cur] end
  | c :: p =>
      if decide (c = SLASH) then match cur with [] => elems_from [] p | _ => cur :: elems_from [] p end
      else elems_from (cur ++ [c]) p
  end.
Definition elems (path : list Z) : list (list Z) := elems_from [] path.

Lemma elems_skip_slashes path : elems (skip_slashes path) = elems path.
Proof.
  induction path as [|c p IH]; [done|]. cbn [skip_slashes]. destruct (Z.eqb_spec c SLASH) as [->|]; [|done].
  rewrite IH. unfold elems. cbn. done.
Qed.

Lemma skip_slashes_head path : hd 0 (skip_slashes path) ≠ SLASH.
Proof.
  induction path as [|c p IH]; [done|]. cbn [skip_slashes]. by destruct (Z.eqb_spec c SLASH).
Qed.

Lemma span_elem_elems cur path e r :
  span_elem path = (e, r) → cur ++ e ≠ [] → elems_from cur path = (cur ++ e) :: elems r ∧
  (r = [] ∨ hd 0 r = SLASH) ∧ Forall (λ c, c ≠ SLASH) e.
Proof.
  revert cur e. induction path as [|c p IH]; intros cur e; cbn [span_elem].
  { intros [= <- <-] Hne. rewrite app_nil_r in *. cbn. destruct cur; [done|]. split_and!; [done|by left|done]. }
  destruct (Z.eqb_spec c SLASH) as [->|Hc].
  - intros [= <- <-] Hne. rewrite app_nil_r in *. cbn. destruct cur; [done|]. unfold elems. cbn.
    split_and!; [done|by right|done].
  - destruct (span_elem p) as [e1 r1] eqn:E. intros [= <- <-] Hne. cbn [elems_from]. rewrite decide_False by done.
    destruct (IH (cur ++ [c]) e1 eq_refl) as (H1 & H2 & H3); [by destruct cur|].
    rewrite <-app_assoc in H1. split_and!; [done..|by constructor].
Qed.

(** What the buffer [name] says: its characters up to a NUL or to DIRSIZ. *)
Fixpoint upto_nul (l : list Z) : list Z :=
  match l with [] => [] | c :: l' => if c =? 0 then [] else c :: upto_nul l' end.

Lemma upto_nul_app e r : Forall (λ c, c ≠ 0) e → upto_nul (e ++ 0 :: r) = e.
Proof. induction 1 as [|c e Hc _ IH]; [done|]. cbn. destruct (Z.eqb_spec c 0); [done|]. by rewrite IH. Qed.

Lemma upto_nul_id e : Forall (λ c, c ≠ 0) e → upto_nul e = e.
Proof. induction 1 as [|c e Hc _ IH]; [done|]. cbn. destruct (Z.eqb_spec c 0); [done|]. by rewrite IH. Qed.

Lemma span_elem_nonul path e r : span_elem path = (e, r) → path = e ++ r.
Proof.
  revert e. induction path as [|c p IH]; intros e; cbn [span_elem]; [by intros [= <- <-]|].
  destruct (c =? SLASH); [by intros [= <- <-]|]. destruct (span_elem p) as [e1 r1]. intros [= <- <-].
  cbn. by rewrite (IH e1).
Qed.

Lemma skip_slashes_ok P path : Forall P path → Forall P (skip_slashes path).
Proof. induction 1 as [|c p Hc Hp IH]; [done|]. cbn. destruct (c =? SLASH); [done|by constructor]. Qed.

Lemma skipelem_run path name :
  Forall (λ c, c ≠ 0) path → length name = DIRSIZ →
  match skipelem path name with
  | None => elems path = []
  | Some (rest, name') =>
      ∃ e, elems path = e :: elems rest ∧ upto_nul name' = take DIRSIZ e ∧ length name' = DIRSIZ ∧
        Forall (λ c, c ≠ 0) rest ∧ (rest = [] ↔ elems rest = [])
  end.
Proof.
  intros Hok Hname. unfold skipelem. pose proof (skip_slashes_head path) as Hhd.
  pose proof (skip_slashes_ok _ _ Hok) as Hok1. rewrite <-elems_skip_slashes.
  destruct (skip_slashes path) as [|c p]; [done|]. cbn in Hhd.
  destruct (span_elem (c :: p)) as [e r] eqn:E. pose proof (span_elem_nonul _ _ _ E) as Ecat.
  assert (e ≠ []) as He.
  { cbn in E. destruct (Z.eqb_spec c SLASH); [done|]. destruct (span_elem p). by injection E as <- <-. }
  destruct (span_elem_elems [] _ _ _ E He) as (H1 & H2 & H3). rewrite Ecat in Hok1. apply Forall_app in Hok1 as [He0 Hr0].
  exists e. rewrite elems_skip_slashes. split_and!; [exact H1| | |by apply skip_slashes_ok|].
  - destruct (Nat.leb_spec DIRSIZ (length e)).
    + unfold splice. rewrite take_0, app_nil_l, drop_ge, app_nil_r by (rewrite length_take; lia).
      apply upto_nul_id. by apply Forall_take.
    + unfold splice. rewrite take_0, app_nil_l, <-app_assoc. cbn [app]. rewrite upto_nul_app by done.
      by rewrite take_ge by lia.
  - destruct (Nat.leb_spec DIRSIZ (length e)); (rewrite length_splice; [done|]);
      rewrite ?length_take, ?length_app; cbn [length]; lia.
  - rewrite <-elems_skip_slashes. split; [by intros ->|].
    pose proof (skip_slashes_head r) as Hh. destruct (skip_slashes r) as [|x r']; [done|]. cbn in Hh.
    unfold elems. cbn. rewrite decide_False by done. cbn. intros Hn. exfalso.
    assert (∀ cur l, cur ≠ [] → elems_from cur l ≠ []) as Hnn.
    { clear. intros cur l. revert cur. induction l as [|y l IH]; intros cur Hc; cbn; [by destruct cur|].
      case_decide; [by destruct cur|]. apply IH. by destruct cur. }
    by apply (Hnn [x] r').
Qed.

(** [skipelem] takes a path apart into its elements: it copies the first
    element to [name], cut to DIRSIZ characters and NUL-terminated if there is
    room, returns a path with the remaining elements, which is empty exactly
    if there are none, and returns 0 exactly if there is no element left. *)
Theorem skipelem_correct path name :
  Forall (λ c, c ≠ 0) path → length name = DIRSIZ →
  match skipelem path name with
  | None => elems path = []
  | Some (rest, name') =>
      ∃ e, elems path = e :: elems rest ∧ upto_nul name' = take DIRSIZ e ∧ length name' = DIRSIZ ∧
        Forall (λ c, c ≠ 0) rest ∧ (rest = [] ↔ elems rest = [])
  end.
Proof. apply skipelem_run. Qed.

Lemma skipelem_correct_witness :
  ∃ e, elems (chars "//usr/lib/") = e :: elems (chars "lib/") ∧ e = chars "usr".
Proof.
  pose proof (skipelem_correct (chars "//usr/lib/") (replicate DIRSIZ 7)) as H.
  destruct H as (e & H1 & _); [repeat constructor; discriminate|reflexivity|].
  exists e. split; [exact H1|]. by injection H1.
Defined.

(** ** Dinodes on disk *)

Definition dinode_ok (i : inode) : Prop :=
  (∀ x, x ∈ [i_type i; major i; minor i; nlink i] → - 2 ^ 15 ≤ x < 2 ^ 15) ∧
  0 ≤ i_size i < 2 ^ 32 ∧ length (addrs i) = 13%nat ∧ Forall (λ a, 0 ≤ a < 2 ^ 32) (addrs i).

(** [n] bytes at [off]. *)
Definition slice (off n : nat) (d : list Z) : list Z := take n (drop off d).

(** Reading what was written, and reading elsewhere. *)
Lemma slice_splice_in off (l d : list Z) k n :
  (off + length l ≤ length d)%nat → (k + n ≤ length l)%nat →
  slice (off + k) n (splice off l d) = slice k n l.
Proof.
  intros H1 H2. apply list_eq. intros j. unfold slice.
  destruct (decide (j < n)%nat); [|by rewrite !lookup_take_ge by lia].
  rewrite !lookup_take_lt, !lookup_drop by lia. rewrite lookup_splice_in by lia. f_equal. lia.
Qed.

Lemma slice_splice_other off (l d : list Z) off' n :
  (off + length l ≤ length d)%nat → (off' + n ≤ off ∨ off + length l ≤ off')%nat →
  slice off' n (splice off l d) = slice off' n d.
Proof.
  intros H1 H2. apply list_eq. intros k. unfold slice.
  destruct (decide (k < n)%nat); [|by rewrite !lookup_take_ge by lia].
  rewrite !lookup_take_lt, !lookup_drop by lia. apply lookup_splice_out; lia.
Qed.

Lemma splice_adjacent off off' (l1 l2 d : list Z) :
  off' = (off + length l1)%nat → (off + length l1 + length l2 ≤ length d)%nat →
  splice off' l2 (splice off l1 d) = splice off (l1 ++ l2) d.
Proof.
  intros -> H. apply list_eq. intros k.
  assert (length (splice off l1 d) = length d) as Hl by (apply length_splice; lia).
  destruct (decide (k < off)%nat); [|destruct (decide (k < off + length l1)%nat); [|destruct (decide (k < off + length l1 + length l2)%nat)]].
  - rewrite !lookup_splice_out; rewrite ?length_app; try done; lia.
  - rewrite lookup_splice_out by lia. rewrite !lookup_splice_in by (rewrite ?length_app; lia). by rewrite lookup_app_l by lia.
  - rewrite !lookup_splice_in by (rewrite ?length_app; lia). rewrite lookup_app_r by lia. f_equal. lia.
  - rewrite !lookup_splice_out; rewrite ?length_app; try done; lia.
Qed.

Lemma length_concat_words l : length (concat (le_bytes 4 <$> l)) = (4 * length l)%nat.
Proof. induction l as [|x l IH]; [done|]. cbn -[le_bytes]. rewrite length_app, length_le_bytes, IH. lia. Qed.

Lemma drop_concat_words l k :
  (k ≤ length l)%nat → drop (4 * k) (concat (le_bytes 4 <$> l)) = concat (le_bytes 4 <$> drop k l).
Proof.
  revert k. induction l as [|x l IH]; intros k Hk.
  { cbn in Hk. by replace k with 0%nat by lia. }
  destruct k as [|k]; [done|].
  cbn [fmap list_fmap concat drop]. rewrite drop_app_ge by (rewrite length_le_bytes; lia).
  rewrite length_le_bytes. replace (4 * S k - 4)%nat with (4 * k)%nat by lia. apply IH. cbn in Hk. lia.
Qed.

(** The 64 bytes of a dinode. *)
Definition encode_dinode (i : inode) : list Z :=
  ((((le_bytes 2 (u16 (i_type i)) ++ le_bytes 2 (u16 (major i))) ++ le_bytes 2 (u16 (minor i))) ++
     le_bytes 2 (u16 (nlink i))) ++ le_bytes 4 (u32 (i_size i))) ++ concat (le_bytes 4 <$> addrs i).

Lemma length_encode_dinode i : dinode_ok i → length (encode_dinode i) = 64%nat.
Proof.
  intros (_ & _ & Hl & _). unfold encode_dinode. rewrite !length_app, !length_le_bytes, length_concat_words. lia.
Qed.

Lemma put_dinode_splice off i d :
  dinode_ok i → 0 ≤ off → off + 64 ≤ Z.of_nat (length d) →
  put_dinode off i d = splice (Z.to_nat off) (encode_dinode i) d.
Proof.
  intros (_ & _ & Hl & _) H1 H2. unfold put_dinode, put_addrs, put_int, put_short, encode_dinode.
  rewrite !(splice_adjacent (Z.to_nat off)); rewrite ?length_app, ?length_le_bytes, ?length_concat_words; try done; lia.
Qed.

Lemma get_short_slice off k d l :
  0 ≤ off → (Z.to_nat off + length l ≤ length d)%nat → (k + 2 ≤ length l)%nat →
  get_short (off + Z.of_nat k) (splice (Z.to_nat off) l d) = s16 (le_val (slice k 2 l)).
Proof.
  intros H1 H2 H3. unfold get_short. do 2 f_equal. replace (Z.to_nat (off + Z.of_nat k)) with (Z.to_nat off + k)%nat by lia.
  exact (slice_splice_in (Z.to_nat off) l d k 2 H2 H3).
Qed.

Lemma get_uint_slice off k d l :
  0 ≤ off → (Z.to_nat off + length l ≤ length d)%nat → (k + 4 ≤ length l)%nat →
  get_uint (off + Z.of_nat k) (splice (Z.to_nat off) l d) = le_val (slice k 4 l).
Proof.
  intros H1 H2 H3. unfold get_uint. f_equal. replace (Z.to_nat (off + Z.of_nat k)) with (Z.to_nat off + k)%nat by lia.
  exact (slice_splice_in (Z.to_nat off) l d k 4 H2 H3).
Qed.

Lemma s16_u16 x : - 2 ^ 15 ≤ x < 2 ^ 15 → s16 (le_val (le_bytes 2 (u16 x))) = x.
Proof.
  intros H. rewrite le_val_bytes by (pose proof (Z.mod_pos_bound x (2 ^ 16) eq_refl); unfold u16; lia).
  unfold s16, u16. rewrite Zplus_mod_idemp_l, Z.mod_small; lia.
Qed.

Lemma slice_word k l x : l !! k = Some x → slice (4 * k) 4 (concat (le_bytes 4 <$> l)) = le_bytes 4 x.
Proof.
  intros Hx. apply lookup_lt_Some in Hx as Hk. unfold slice. rewrite drop_concat_words by lia.
  rewrite (drop_S _ _ _ Hx). cbn [fmap list_fmap concat].
  rewrite take_app_le by (rewrite length_le_bytes; lia). by rewrite take_ge by (rewrite length_le_bytes; lia).
Qed.

Lemma slice_app_r m k n (l1 l2 : list Z) : m = length l1 → slice (m + k) n (l1 ++ l2) = slice k n l2.
Proof.
  intros ->. unfold slice. f_equal. rewrite drop_app_ge by lia. f_equal. lia.
Qed.

(** Reading a dinode gives back what was written. *)
Lemma load_put_dinode off i d j :
  dinode_ok i → 0 ≤ off → off + 64 ≤ Z.of_nat (length d) →
  load_dinode off (put_dinode off i d) j =
  mk_inode (i_dev j) (inum j) (ref j) (i_lock j) (valid j) (i_type i) (major i) (minor i) (nlink i) (i_size i) (addrs i).
Proof.
  intros Hok H1 H2. rewrite put_dinode_splice by done. pose proof (length_encode_dinode i Hok) as Hlen.
  destruct Hok as (Hs & Hz & Hl & Ha). unfold load_dinode. f_equal.
  - rewrite <-(Z.add_0_r off) at 1. rewrite (get_short_slice off 0) by lia. apply s16_u16, Hs. set_solver.
  - rewrite (get_short_slice off 2) by lia. apply s16_u16, Hs. set_solver.
  - rewrite (get_short_slice off 4) by lia. apply s16_u16, Hs. set_solver.
  - rewrite (get_short_slice off 6) by lia. apply s16_u16, Hs. set_solver.
  - rewrite (get_uint_slice off 8) by lia. change (slice 8 4 (encode_dinode i)) with (le_bytes 4 (u32 (i_size i))).
    rewrite u32_small by done. by apply le_val_bytes.
  - apply list_eq. intros k. unfold get_addrs. rewrite list_lookup_fmap. destruct (decide (k < 13)%nat) as [Hk|Hk].
    + rewrite lookup_seq_lt by done. cbn [fmap option_fmap option_map]. rewrite Nat.add_0_l.
      destruct (lookup_lt_is_Some_2 (addrs i) k) as [x Hx]; [lia|]. rewrite Hx. f_equal.
      replace (off + 12 + 4 * Z.of_nat k) with (off + Z.of_nat (12 + 4 * k)) by lia.
      rewrite get_uint_slice by lia. unfold encode_dinode. rewrite slice_app_r by (by rewrite !length_app, !length_le_bytes).
      rewrite (slice_word _ _ _ Hx). apply le_val_bytes. rewrite Forall_lookup in Ha. by apply (Ha k).
    + rewrite lookup_seq_ge by lia. symmetry. apply lookup_ge_None. lia.
Qed.

(** The other dinodes of the block are not touched. *)
Lemma load_put_dinode_other off off' i d j :
  dinode_ok i → 0 ≤ off → off + 64 ≤ Z.of_nat (length d) → 0 ≤ off' → off' + 64 ≤ off ∨ off + 64 ≤ off' →
  load_dinode off' (put_dinode off i d) j = load_dinode off' d j.
Proof.
  intros Hok H1 H2 H3 Hapart. rewrite put_dinode_splice by done. pose proof (length_encode_dinode i Hok) as Hlen.
  assert (∀ k n, 0 ≤ k → k + Z.of_nat n ≤ 64 → slice (Z.to_nat (off' + k)) n (splice (Z.to_nat off) (encode_dinode i) d)
    = slice (Z.to_nat (off' + k)) n d) as Hsl.
  { intros k n Hk Hn. apply slice_splice_other; lia. }
  pose proof (Hsl 0 2%nat) as E0. rewrite Z.add_0_r in E0.
  unfold load_dinode, get_short, get_uint. unfold slice in *. f_equal; [by rewrite E0 by lia|by rewrite Hsl by lia..|].
  unfold get_addrs. apply list_fmap_ext. intros k x [-> Hk]%lookup_seq. unfold get_uint. f_equal.
  rewrite <-!Z.add_assoc. apply Hsl; lia.
Qed.

(** ** Running the file system on a block layer

    The rules below are all that the proofs about fs.c use of the layers
    below: they hold on any [BlockLayer] that satisfies [BlockLayerSpec]. *)

Section on_blocks.
Context {T : Type} `{!BlockLayer T} {TR : T → view → Prop} {writable : Z → Prop} `{!BlockLayerSpec T TR writable}.
Implicit Types s : fst_ T.

Definition with_fb (t : T) s : fst_ T := mk_fst t (sb s) (ic_lock s) (inodes s).

(** Block [b] can be read: it exists, is not held, and fewer than [MAXHELD] are. *)
Definition readable (v : view) (b : Z) (d : list Z) : Prop :=
  v_blk v !! b = Some d ∧ v_held v !! b = None ∧ (size (v_held v) < MAXHELD)%nat.

Lemma wp_b_read s v b d Q E :
  TR (fb s) v → readable v b d →
  (∀ h t, TR t (v_hold b h false v) → b_data h t = d → Q h (with_fb t s)) → wpe (blocks (b_read ROOTDEV b)) Q E s.
Proof.
  intros HR (H1 & H2 & H3) HQ. destruct (bs_read _ _ _ _ HR H1 H2 H3) as (h & t & Er & HR').
  apply wpe_zoom. unfold wpe. rewrite Er. apply HQ; [done|].
  eapply (bs_data _ _ b h false d HR'); cbn; [by rewrite lookup_insert_eq|done].
Qed.

Lemma wp_block_data s h Q E : Q (b_data h (fb s)) s → wpe (block_data h) Q E s.
Proof. done. Qed.

Lemma wp_b_edit s v b h x d f Q E :
  TR (fb s) v → v_held v !! b = Some (h, x) → v_blk v !! b = Some d → length (f d) = Z.to_nat BSIZE →
  (∀ t, TR t (v_hold b h true (v_write b (f d) v)) → Q tt (with_fb t s)) → wpe (blocks (b_edit h f)) Q E s.
Proof.
  intros HR H1 H2 H3 HQ. destruct (bs_edit _ _ _ _ _ _ _ HR H1 H2 H3) as (t & Er & HR').
  apply wpe_zoom. unfold wpe. rewrite Er. by apply HQ.
Qed.

Lemma wp_b_log s v b h x Q E :
  TR (fb s) v → v_held v !! b = Some (h, x) → writable b → v_can_log b v →
  (∀ t, TR t (v_hold b h false (v_log b v)) → Q tt (with_fb t s)) → wpe (blocks (b_log h)) Q E s.
Proof.
  intros HR H1 H2 H3 HQ. destruct (bs_log _ _ _ _ _ HR H1 H2 H3) as (t & Er & HR').
  apply wpe_zoom. unfold wpe. rewrite Er. by apply HQ.
Qed.

Lemma wp_b_rel s v b h Q E :
  TR (fb s) v → v_held v !! b = Some (h, false) →
  (∀ t, TR t (v_drop b v) → Q tt (with_fb t s)) → wpe (blocks (b_rel h)) Q E s.
Proof.
  intros HR H1 HQ. destruct (bs_rel _ _ _ _ HR H1) as (t & Er & HR').
  apply wpe_zoom. unfold wpe. rewrite Er. by apply HQ.
Qed.

(** Edit, log and release a block that was read and not changed since. *)
Lemma wp_b_write s v b h d f Q E :
  TR (fb s) (v_hold b h false v) → readable v b d → writable b → v_can_log b v → length (f d) = Z.to_nat BSIZE →
  (∀ t, TR t (v_log b (v_write b (f d) v)) → Q tt (with_fb t s)) →
  wpe (blocks (b_edit h f);; blocks (b_log h);; blocks (b_rel h)) Q E s.
Proof.
  intros HR (H1 & H2 & H3) Hw Hc Hf HQ.
  apply wpe_bind. eapply (wp_b_edit _ _ b); [exact HR|cbn; by rewrite lookup_insert_eq|done|done|]. intros t1 HR1.
  apply wpe_bind. eapply (wp_b_log _ _ b); [exact HR1|cbn; by rewrite lookup_insert_eq|done|done|]. intros t2 HR2.
  eapply (wp_b_rel _ _ b); [exact HR2|cbn; by rewrite lookup_insert_eq|]. intros t3 HR3.
  cbn in HR3. rewrite v_cycle in HR3 by done. by apply HQ.
Qed.

Lemma wp_b_write_then {A} s v b h d f (k : M (fst_ T) A) Q E :
  TR (fb s) (v_hold b h false v) → readable v b d → writable b → v_can_log b v → length (f d) = Z.to_nat BSIZE →
  (∀ t, TR t (v_log b (v_write b (f d) v)) → wpe k Q E (with_fb t s)) →
  wpe (blocks (b_edit h f);; blocks (b_log h);; blocks (b_rel h);; k) Q E s.
Proof.
  intros HR Hr Hw Hc Hf HQ.
  assert (wpe (blocks (b_edit h f);; blocks (b_log h);; blocks (b_rel h)) (λ _, wpe k Q E) E s) as H
    by by eapply wp_b_write.
  revert H. unfold wpe, bind. destruct (blocks (b_edit h f) s) as [[? ?]|]; [|done].
  destruct (blocks (b_log h) _) as [[? ?]|]; [|done]. by destruct (blocks (b_rel h) _) as [[? ?]|].
Qed.

(** ** Zeroing a block *)

Lemma bzero_ok s v b d Q E :
  TR (fb s) v → readable v b d → writable b → v_can_log b v →
  (∀ t, TR t (v_log b (v_write b (replicate (Z.to_nat BSIZE) 0) v)) → Q tt (with_fb t s)) →
  wpe (bzero ROOTDEV b) Q E s.
Proof.
  intros HR Hr Hw Hc HQ. unfold bzero. apply wpe_bind. eapply wp_b_read; [done..|]. intros h t HR' _.
  by eapply wp_b_write.
Qed.

(** ** Inodes on disk *)

(** The block and the bytes where inode [n] is. *)
Lemma dinode_off_bounds n : 0 ≤ n → 0 ≤ dinode_off n ∧ dinode_off n + 64 ≤ BSIZE.
Proof.
  intros Hn. unfold dinode_off, sizeof_dinode, IPB, BSIZE, sizeof_dinode in *.
  pose proof (Z.mod_pos_bound n (512 / 64) eq_refl). change (512 / 64) with 8 in *. lia.
Qed.

Lemma length_put_dinode off i d :
  dinode_ok i → 0 ≤ off → off + 64 ≤ Z.of_nat (length d) → length (put_dinode off i d) = length d.
Proof.
  intros Hok H1 H2. rewrite put_dinode_splice by done. pose proof (length_encode_dinode i Hok). apply length_splice. lia.
Qed.

(** What [iupdate] does: it writes the inode to its place in its block. *)
Lemma iupdate_ok s v ip i d Q E :
  TR (fb s) v → inodes s !!! ip = i → i_dev i = ROOTDEV → dinode_ok i → 0 ≤ inum i →
  readable v (IBLOCK (inum i) (sb s)) d → writable (IBLOCK (inum i) (sb s)) → v_can_log (IBLOCK (inum i) (sb s)) v →
  (∀ t, TR t (v_log (IBLOCK (inum i) (sb s)) (v_write (IBLOCK (inum i) (sb s)) (put_dinode (dinode_off (inum i)) i d) v)) →
        Q tt (with_fb t s)) →
  wpe (iupdate ip) Q E s.
Proof.
  intros HR <- Hdv Hok Hn Hr Hw Hc HQ. unfold iupdate, ino, get_sb. apply wpe_bind, wpe_gets, wpe_bind, wpe_gets.
  rewrite Hdv. apply wpe_bind. eapply wp_b_read; [done..|]. intros h t HR' _.
  eapply wp_b_write; [exact HR'|done..| |done].
  pose proof (bs_len _ _ _ _ HR (proj1 Hr)) as Hl. pose proof (dinode_off_bounds _ Hn). unfold BSIZE in *.
  rewrite length_put_dinode; [done|done|lia|lia].
Qed.

(** What [ilock] does with an inode of the cache that is not loaded. *)
Lemma ilock_load me pid s v jp d name Q E :
  TR (fb s) v → (jp < length (inodes s))%nat →
  i_dev (inodes s !!! jp) = ROOTDEV → 1 ≤ ref (inodes s !!! jp) → valid (inodes s !!! jp) = 0 →
  i_lock (inodes s !!! jp) = sl_free name →
  readable v (IBLOCK (inum (inodes s !!! jp)) (sb s)) d → get_short (dinode_off (inum (inodes s !!! jp))) d ≠ 0 →
  (∀ t, TR t v →
    Q tt (mk_fst t (sb s) (ic_lock s)
      (<[jp := set_valid 1 (set_i_lock (sl_held name pid) (load_dinode (dinode_off (inum (inodes s !!! jp))) d (inodes s !!! jp)))]> (inodes s)))) →
  wpe (ilock me pid (Some jp)) Q E s.
Proof.
  intros HR Hjp Hdv Href Hv Hlk Hr Ht HQ. unfold ilock. apply wpe_bind. unfold ino at 1. apply wpe_gets.
  rewrite (proj2 (Z.ltb_ge _ _)) by lia. apply wpe_bind, wpe_zoom. unfold wpe at 1. rewrite Hlk, acquiresleep_free.
  apply wpe_bind. unfold ino at 1. apply wpe_gets. cbn [inodes]. rewrite list_lookup_total_insert_eq by done.
  cbn [valid set_i_lock i_dev inum]. rewrite Hv, Hdv. cbn [when Z.eqb].
  unfold get_sb. apply wpe_bind, wpe_gets. cbn [sb]. apply wpe_bind. eapply wp_b_read; [exact HR|exact Hr|].
  intros h t HR' Hd. apply wpe_bind, wp_block_data. cbn [with_fb fb]. rewrite Hd.
  apply wpe_bind. unfold upd_ino at 1. apply wpe_modify. cbn [with_fb fb sb ic_lock inodes].
  apply wpe_bind. eapply (wp_b_rel _ _ (IBLOCK (inum (inodes s !!! jp)) (sb s))); [exact HR'|cbn; by rewrite lookup_insert_eq|].
  intros t' HR2. rewrite v_peek in HR2 by apply Hr. apply wpe_bind. unfold upd_ino at 1. apply wpe_modify.
  cbn [with_fb fb sb ic_lock inodes].
  apply wpe_bind. unfold ino. apply wpe_gets. cbn [inodes].
  rewrite !list_lookup_total_insert_eq by (rewrite ?length_insert; done). rewrite !list_insert_insert_eq.
  cbn [load_dinode set_valid i_type set_i_lock]. rewrite (proj2 (Z.eqb_neq _ _) Ht). by apply HQ.
Qed.

(** Inode [n] as the blocks have it. *)
Definition disk_inode (v : view) (sb : superblock) (n : Z) (j : inode) : inode :=
  load_dinode (dinode_off n) (default [] (v_blk v !! IBLOCK n sb)) j.

(** Inode numbers whose block number does not wrap around. *)
Definition inum_ok (sb : superblock) (n : Z) : Prop := 0 ≤ n ∧ 0 ≤ sb_inodestart sb ∧ n / IPB + sb_inodestart sb < 2 ^ 32.

Lemma iblock_same sb n n' :
  inum_ok sb n → inum_ok sb n' → IBLOCK n sb = IBLOCK n' sb → n ≠ n' →
  dinode_off n + 64 ≤ dinode_off n' ∨ dinode_off n' + 64 ≤ dinode_off n.
Proof.
  intros (H1 & H2 & H3) (H4 & _ & H5) Heq Hne. unfold IBLOCK, dinode_off, IPB, sizeof_dinode, BSIZE in *.
  change (512 / 64) with 8 in *. pose proof (Z.div_mod n 8 ltac:(lia)). pose proof (Z.div_mod n' 8 ltac:(lia)).
  pose proof (Z.div_pos n 8 H1 ltac:(lia)). pose proof (Z.div_pos n' 8 H4 ltac:(lia)). rewrite !u32_small in Heq by lia. lia.
Qed.

(** The blocks after [iupdate] of [i]: [i] is there, the other inodes are as before. *)
Lemma disk_inode_update v sb i d n j :
  dinode_ok i → inum_ok sb (inum i) → inum_ok sb n → v_blk v !! IBLOCK (inum i) sb = Some d → length d = Z.to_nat BSIZE →
  disk_inode (v_log (IBLOCK (inum i) sb) (v_write (IBLOCK (inum i) sb) (put_dinode (dinode_off (inum i)) i d) v)) sb n j =
  if decide (n = inum i)
  then mk_inode (i_dev j) (inum j) (ref j) (i_lock j) (valid j) (i_type i) (major i) (minor i) (nlink i) (i_size i) (addrs i)
  else disk_inode v sb n j.
Proof.
  intros Hok Hi Hn Hd Hl. unfold disk_inode. rewrite v_log_blk. cbn [v_write v_blk].
  pose proof (dinode_off_bounds (inum i) (proj1 Hi)). pose proof (dinode_off_bounds n (proj1 Hn)). unfold BSIZE in *.
  destruct (decide (n = inum i)) as [->|Hne].
  - rewrite lookup_insert_eq. apply load_put_dinode; [done|lia|lia].
  - destruct (decide (IBLOCK n sb = IBLOCK (inum i) sb)) as [Heq|Hb].
    + rewrite Heq, lookup_insert_eq, Hd. cbn [default id].
      pose proof (iblock_same sb n (inum i) Hn Hi Heq Hne). apply (load_put_dinode_other _ _ i d); [done|lia..].
    + by rewrite lookup_insert_ne by congruence.
Qed.

(** After [iupdate], a later [ilock] of any inode that is not in memory
    finds on disk what [iupdate] wrote if it is the same inode, and what was
    there before if it is another inode, whatever happened to the inode cache
    in between. *)
Theorem iupdate_ilock me pid s v ip i d :
  TR (fb s) v → inodes s !!! ip = i → i_dev i = ROOTDEV → dinode_ok i → inum_ok (sb s) (inum i) →
  readable v (IBLOCK (inum i) (sb s)) d → writable (IBLOCK (inum i) (sb s)) → v_can_log (IBLOCK (inum i) (sb s)) v →
  wp (iupdate ip) (λ _ s1, ∀ lk inos jp j name d',
    inos !!! jp = j → (jp < length inos)%nat → i_dev j = ROOTDEV → 1 ≤ ref j → valid j = 0 → i_lock j = sl_free name →
    inum_ok (sb s) (inum j) → readable v (IBLOCK (inum j) (sb s)) d' →
    let j' := if decide (inum j = inum i)
              then mk_inode ROOTDEV (inum j) (ref j) (sl_held name pid) 1 (i_type i) (major i) (minor i) (nlink i) (i_size i) (addrs i)
              else set_valid 1 (set_i_lock (sl_held name pid) (disk_inode v (sb s) (inum j) j)) in
    i_type j' ≠ 0 →
    wp (ilock me pid (Some jp)) (λ _ s2, inodes s2 = <[jp := j']> inos) (mk_fst (fb s1) (sb s1) lk inos)) s.
Proof.
  intros HR Hi Hdv Hok Hn Hr Hw Hc. eapply (iupdate_ok s v ip i d); try done; [apply Hn|]. intros t HR1.
  intros lk inos jp j name d' Hj Hjp Hdvj Href Hv Hlk Hnj Hrj j' Ht.
  pose proof (bs_len _ _ _ _ HR (proj1 Hr)) as Hl.
  pose proof (disk_inode_update v (sb s) i d (inum j) j Hok Hn Hnj (proj1 Hr) Hl) as Hload. unfold disk_inode at 1 in Hload.
  set (v1 := v_log _ _) in *.
  assert (∃ d1, readable v1 (IBLOCK (inum j) (sb s)) d1) as [d1 Hr1].
  { unfold readable, v1. rewrite v_log_blk, v_log_held. destruct Hrj as (A1 & A2 & A3). cbn.
    destruct (decide (IBLOCK (inum j) (sb s) = IBLOCK (inum i) (sb s))) as [Heq|Hb].
    - rewrite Heq in A2 |- *. rewrite lookup_insert_eq. eauto.
    - rewrite lookup_insert_ne by congruence. eauto. }
  rewrite (proj1 Hr1) in Hload. cbn [default id] in Hload.
  assert (set_valid 1 (set_i_lock (sl_held name pid) (load_dinode (dinode_off (inum j)) d1 j)) = j') as Hj'.
  { unfold j'. rewrite Hload. case_decide; [|done]. unfold set_valid, set_i_lock. cbn. by rewrite Hdvj. }
  apply (ilock_load me pid _ v1 jp d1 name); cbn [inodes fb sb]; rewrite ?Hj; try done.
  - rewrite <-Hj' in Ht. exact Ht.
  - intros t' _. by rewrite Hj'.
Qed.

(** ** The block bitmap *)

Lemma bit_set_testbit d bi : 0 ≤ bi → bit_set d bi = Z.testbit (d !!! Z.to_nat (bi / 8)) (bi mod 8).
Proof.
  intros Hbi. unfold bit_set. pose proof (Z.mod_pos_bound bi 8 eq_refl) as Hm. set (x := d !!! _). set (k := bi mod 8) in *.
  assert (Z.land x (Z.shiftl 1 k) = if Z.testbit x k then 2 ^ k else 0) as ->.
  { rewrite Z.shiftl_1_l. apply Z.bits_inj'. intros n Hn. rewrite Z.land_spec, Z.pow2_bits_eqb by lia.
    destruct (Z.eqb_spec k n) as [->|Hne].
    - destruct (Z.testbit x n); [by rewrite Z.pow2_bits_true|by rewrite Z.bits_0].
    - rewrite andb_false_r. destruct (Z.testbit x k); [by rewrite Z.pow2_bits_false|by rewrite Z.bits_0]. }
  destruct (Z.testbit x k); [|done]. pose proof (Z.pow_pos_nonneg 2 k). by rewrite (proj2 (Z.eqb_neq _ _)) by lia.
Qed.

Lemma u8_testbit x k : 0 ≤ k < 8 → Z.testbit (u8 x) k = Z.testbit x k.
Proof. intros Hk. unfold u8. apply Z.mod_pow2_bits_low; lia. Qed.

(** Setting a bit sets that bit and no other. *)
Lemma bit_set_set_bit d bi bj :
  0 ≤ bi < 8 * Z.of_nat (length d) → 0 ≤ bj → bit_set (set_bit bi d) bj = (bi =? bj) || bit_set d bj.
Proof.
  intros Hi Hj. rewrite !bit_set_testbit by done. unfold set_bit.
  pose proof (Z.mod_pos_bound bi 8 eq_refl). pose proof (Z.mod_pos_bound bj 8 eq_refl).
  pose proof (Z.div_mod bi 8 ltac:(lia)). pose proof (Z.div_mod bj 8 ltac:(lia)).
  pose proof (Z.div_pos bi 8 ltac:(lia) ltac:(lia)). pose proof (Z.div_pos bj 8 ltac:(lia) ltac:(lia)).
  destruct (decide (bi / 8 = bj / 8)) as [Heq|Hne].
  - rewrite <-Heq, list_lookup_total_insert_eq by lia. rewrite u8_testbit, Z.lor_spec by done.
    rewrite orb_comm. f_equal. rewrite Z.shiftl_1_l, Z.pow2_bits_eqb by lia.
    destruct (Z.eqb_spec (bi mod 8) (bj mod 8)), (Z.eqb_spec bi bj); lia.
  - rewrite list_lookup_total_insert_ne by lia. destruct (Z.eqb_spec bi bj); [|done]. by subst.
Qed.

(** The scan stops at the first bit that is clear. *)
Lemma find_bit_spec n bi d :
  match find_bit n bi d with
  | Some k => bi ≤ k < bi + Z.of_nat n ∧ bit_set d k = false ∧ ∀ j, bi ≤ j < k → bit_set d j = true
  | None => ∀ j, bi ≤ j < bi + Z.of_nat n → bit_set d j = true
  end.
Proof.
  revert bi. induction n as [|n IH]; intros bi; cbn [find_bit]; [lia|].
  destruct (bit_set d bi) eqn:Hb; [|split_and!; [lia|lia|done|lia]].
  specialize (IH (bi + 1)). destruct (find_bit n (bi + 1) d) as [k|].
  - destruct IH as (H1 & H2 & H3). split_and!; [lia|lia|done|]. intros j Hj.
    destruct (decide (j = bi)) as [->|]; [done|]. apply H3. lia.
  - intros j Hj. destruct (decide (j = bi)) as [->|]; [done|]. apply IH. lia.
Qed.

(** Whether block [b] is in use. *)
Definition in_use (v : view) (sb : superblock) (b : Z) : bool :=
  bit_set (default [] (v_blk v !! BBLOCK b sb)) (b mod BPB).

(** The bitmap can be read and is itself in use. *)
Definition bitmap_ok (v : view) (sb : superblock) : Prop :=
  0 ≤ sb_bmapstart sb ∧ sb_size sb / BPB + sb_bmapstart sb < 2 ^ 32 ∧
  ∀ b, 0 ≤ b < sb_size sb → (∃ d, readable v (BBLOCK b sb) d) ∧ 0 ≤ BBLOCK b sb < sb_size sb ∧ in_use v sb (BBLOCK b sb) = true.

(** [b0] is the first block not in use. *)
Definition first_free (v : view) (sb : superblock) (b0 : Z) : Prop :=
  0 ≤ b0 < sb_size sb ∧ in_use v sb b0 = false ∧ ∀ b, 0 ≤ b < b0 → in_use v sb b = true.

Lemma bblock_bit sb b bi : 0 ≤ b → b mod BPB = 0 → 0 ≤ bi < BPB → BBLOCK (b + bi) sb = BBLOCK b sb ∧ (b + bi) mod BPB = bi.
Proof.
  intros H1 H2 H3. unfold BBLOCK, BPB, BSIZE in *. change (512 * 8) with 4096 in *.
  pose proof (Z.div_mod b 4096 ltac:(lia)) as Hb. rewrite H2, Z.add_0_r in Hb.
  replace (b + bi) with (bi + (b / 4096) * 4096) by lia.
  rewrite Z.div_add, Z.mod_add, Z.div_small, Z.mod_small by lia. done.
Qed.

Lemma in_use_bit v sb b bi d :
  v_blk v !! BBLOCK b sb = Some d → 0 ≤ b → b mod BPB = 0 → 0 ≤ bi < BPB → in_use v sb (b + bi) = bit_set d bi.
Proof.
  intros Hd H1 H2 H3. destruct (bblock_bit sb b bi H1 H2 H3) as [E1 E2]. unfold in_use. by rewrite E1, E2, Hd.
Qed.

(** The blocks after [b0] was allocated. *)
Definition v_alloc (sb : superblock) (b0 : Z) (d : list Z) (v : view) : view :=
  v_log b0 (v_write b0 (replicate (Z.to_nat BSIZE) 0) (v_log (BBLOCK b0 sb) (v_write (BBLOCK b0 sb) (set_bit (b0 mod BPB) d) v))).

Lemma v_can_log_next b b' d v : (2 ≤ v_room v)%nat → v_can_log b (v_log b' (v_write b' d v)).
Proof. intros H. right. unfold v_log. destruct (decide _); cbn; lia. Qed.

Lemma readable_other v b b' d d' :
  readable v b d → b ≠ b' → readable (v_log b' (v_write b' d' v)) b d.
Proof.
  intros (H1 & H2 & H3) Hne. unfold readable. rewrite v_log_blk, v_log_held. cbn. by rewrite lookup_insert_ne.
Qed.

(** The part of [balloc] that takes block [b + bi]. *)
Lemma balloc_take s v b bi h d z Q E :
  TR (fb s) (v_hold (BBLOCK b (sb s)) h false v) → 0 ≤ b → b mod BPB = 0 → 0 ≤ bi < BPB →
  readable v (BBLOCK b (sb s)) d → readable v (b + bi) z → BBLOCK b (sb s) ≠ b + bi → length d = Z.to_nat BSIZE →
  writable (BBLOCK b (sb s)) → writable (b + bi) → (2 ≤ v_room v)%nat →
  (∀ t, TR t (v_alloc (sb s) (b + bi) d v) → Q (b + bi) (with_fb t s)) →
  wpe (blocks (b_edit h (set_bit bi));; blocks (b_log h);; blocks (b_rel h);; bzero ROOTDEV (b + bi);; ret (b + bi)) Q E s.
Proof.
  intros HR H1 H2 H3 Hr Hrz Hne Hl Hw1 Hw2 Hroom HQ. destruct (bblock_bit (sb s) b bi H1 H2 H3) as [E1 E2].
  unfold v_alloc in HQ. rewrite E1, E2 in HQ.
  eapply (wp_b_write_then s v (BBLOCK b (sb s)) h d); [done..|right; lia| |].
  { unfold set_bit. by rewrite length_insert. }
  intros t HR1. apply wpe_bind. eapply bzero_ok; [exact HR1| |done| |].
  - apply readable_other; [exact Hrz|congruence].
  - by apply v_can_log_next.
  - intros t2 HR2. apply wpe_ret. by apply HQ.
Qed.

Lemma balloc_loop_ok b0 z s v Q E :
  TR (fb s) v → bitmap_ok v (sb s) → first_free v (sb s) b0 → readable v b0 z →
  writable b0 → writable (BBLOCK b0 (sb s)) → (2 ≤ v_room v)%nat →
  (∀ d t, v_blk v !! BBLOCK b0 (sb s) = Some d → TR t (v_alloc (sb s) b0 d v) → Q b0 (with_fb t s)) →
  ∀ fuel t b, TR t v → 0 ≤ b → b mod BPB = 0 → b ≤ b0 → (Z.to_nat ((sb_size (sb s) - b) / BPB) < fuel)%nat →
    wpe (balloc_loop fuel ROOTDEV b) Q E (with_fb t s).
Proof.
  intros HR (Hb1 & Hb2 & Hbm) (Hf1 & Hf2 & Hf3) Hz Hw Hwb Hroom HQ fuel.
  induction fuel as [|fuel IH]; intros t b HRt H0 Hm Hle Hfuel; [lia|]. cbn [balloc_loop].
  unfold get_sb. apply wpe_bind, wpe_gets. cbn [with_fb sb]. rewrite (proj2 (Z.ltb_lt _ _)) by lia.
  destruct (Hbm b ltac:(lia)) as ((d & Hr) & _ & Huse).
  apply wpe_bind. eapply wp_b_read; [exact HRt|exact Hr|]. intros h t1 HR1 Hd. apply wpe_bind, wp_block_data.
  cbn [with_fb fb]. rewrite Hd. pose proof (find_bit_spec (Z.to_nat (Z.min BPB (sb_size (sb s) - b))) 0 d) as Hfb.
  pose proof (λ j, in_use_bit v (sb s) b j d (proj1 Hr) H0 Hm) as Hiu.
  destruct (find_bit _ 0 d) as [bi|].
  - destruct Hfb as (Hbi & Hclear & Hset).
    assert (b0 = b + bi) as Heq.
    { destruct (Z.lt_trichotomy b0 (b + bi)) as [Hlt|[?|Hgt]]; [|done|].
      - pose proof (Hiu (b0 - b) ltac:(lia)) as Hc. rewrite Zplus_minus, Hset in Hc by lia. congruence.
      - pose proof (Hf3 (b + bi) ltac:(lia)). pose proof (Hiu bi ltac:(lia)). congruence. }
    pose proof (bs_len _ _ _ _ HR (proj1 Hr)) as Hl. destruct (bblock_bit (sb s) b bi H0 Hm ltac:(lia)) as [E1 E2].
    subst b0. rewrite E1 in *. eapply (balloc_take _ v b bi h d z); cbn [with_fb sb fb]; try done; [lia| |].
    + intros Hbad. rewrite Hbad in Huse. by rewrite Huse in Hf2.
    + intros t2 HR2. apply (HQ d); [apply Hr|done].
  - assert (b + BPB ≤ b0) as Hnext.
    { destruct (decide (b + BPB ≤ b0)); [done|].
      pose proof (Hiu (b0 - b) ltac:(lia)) as Hc. rewrite Zplus_minus, Hfb in Hc by lia. congruence. }
    apply wpe_bind. eapply (wp_b_rel _ _ (BBLOCK b (sb s))); [exact HR1|cbn; by rewrite lookup_insert_eq|].
    intros t2 HR2. rewrite v_peek in HR2 by apply Hr. apply IH; [done|unfold BPB, BSIZE; lia| |done|].
    + by rewrite Z.add_mod, Hm, Z_mod_same_full by done.
    + replace (sb_size (sb s) - (b + BPB)) with (sb_size (sb s) - b + (-1) * BPB) by lia. rewrite Z.div_add by done.
      assert (1 ≤ (sb_size (sb s) - b) / BPB); [apply Z.div_le_lower_bound; unfold BPB, BSIZE in *; lia|lia].
Qed.

(** With every block in use the search ends in a panic. *)
Lemma balloc_loop_full s v :
  bitmap_ok v (sb s) → (∀ b, 0 ≤ b < sb_size (sb s) → in_use v (sb s) b = true) →
  ∀ fuel t b, TR t v → 0 ≤ b → b mod BPB = 0 → (Z.to_nat ((sb_size (sb s) - b) / BPB) + 1 < fuel)%nat →
    wpe (balloc_loop fuel ROOTDEV b) (λ _ _, False) (eq (EPanic "balloc: out of blocks")) (with_fb t s).
Proof.
  intros (_ & _ & Hbm) Hfull fuel. induction fuel as [|fuel IH]; intros t b HRt H0 Hm Hfuel; [lia|].
  cbn [balloc_loop]. unfold get_sb. apply wpe_bind, wpe_gets. cbn [with_fb sb].
  destruct (Z.ltb_spec b (sb_size (sb s))) as [Hlt|]; [|done].
  destruct (Hbm b ltac:(lia)) as ((d & Hr) & _ & _).
  apply wpe_bind. eapply wp_b_read; [exact HRt|exact Hr|]. intros h t1 HR1 Hd. apply wpe_bind, wp_block_data.
  cbn [with_fb fb]. rewrite Hd. pose proof (find_bit_spec (Z.to_nat (Z.min BPB (sb_size (sb s) - b))) 0 d) as Hfb.
  destruct (find_bit _ 0 d) as [bi|].
  - destruct Hfb as (Hbi & Hclear & _). pose proof (Hfull (b + bi) ltac:(lia)) as Hc.
    rewrite (in_use_bit v (sb s) b bi d) in Hc by (try apply Hr; lia). congruence.
  - apply wpe_bind. eapply (wp_b_rel _ _ (BBLOCK b (sb s))); [exact HR1|cbn; by rewrite lookup_insert_eq|].
    intros t2 HR2. rewrite v_peek in HR2 by apply Hr. cbn [with_fb].
    destruct (decide (b + BPB < sb_size (sb s))) as [Hmore|Hend].
    + apply IH; [done|unfold BPB, BSIZE; lia| |].
      * by rewrite Z.add_mod, Hm, Z_mod_same_full by done.
      * replace (sb_size (sb s) - (b + BPB)) with (sb_size (sb s) - b + (-1) * BPB) by lia. rewrite Z.div_add by done.
        assert (1 ≤ (sb_size (sb s) - b) / BPB); [apply Z.div_le_lower_bound; unfold BPB, BSIZE in *; lia|lia].
    + destruct fuel as [|fuel]; [lia|]. cbn [balloc_loop]. unfold get_sb. apply wpe_bind, wpe_gets. cbn [with_fb sb].
      by rewrite (proj2 (Z.ltb_ge _ _)) by lia.
Qed.

(** What the allocation of [b0] does to the blocks. *)
Lemma v_alloc_spec v sb b0 d :
  bitmap_ok v sb → first_free v sb b0 → v_blk v !! BBLOCK b0 sb = Some d → length d = Z.to_nat BSIZE →
  v_held (v_alloc sb b0 d v) = v_held v ∧ (v_room v ≤ v_room (v_alloc sb b0 d v) + 2)%nat ∧
  v_blk (v_alloc sb b0 d v) !! b0 = Some (replicate (Z.to_nat BSIZE) 0) ∧
  (∀ b, b ≠ b0 → b ≠ BBLOCK b0 sb → v_blk (v_alloc sb b0 d v) !! b = v_blk v !! b) ∧
  (∀ b, 0 ≤ b < sb_size sb → in_use (v_alloc sb b0 d v) sb b = (b =? b0) || in_use v sb b).
Proof.
  intros (Hs1 & Hs2 & Hbm) (Hf1 & Hf2 & _) Hd Hl. unfold v_alloc.
  split; [by rewrite !v_put_held|split]; [unfold v_log; repeat case_decide; cbn; lia|]. rewrite !v_put_blk.
  split; [apply lookup_insert_eq|split]; [intros b H1 H2; by rewrite !lookup_insert_ne|].
  intros b Hb. unfold in_use. rewrite !v_put_blk.
  destruct (Hbm b Hb) as (_ & Hr1 & Hu1).
  rewrite lookup_insert_ne by (intros E; rewrite <-E in Hu1; congruence).
  assert (∀ x, 0 ≤ x < sb_size sb → 0 ≤ x / BPB ∧ x / BPB + sb_bmapstart sb < 2 ^ 32) as Hq.
  { intros x Hx. split; [apply Z.div_pos; [lia|done]|].
    assert (x / BPB ≤ sb_size sb / BPB) by (apply Z.div_le_mono; [done|lia]). lia. }
  pose proof (Hq b Hb) as [Q1 Q2]. pose proof (Hq b0 Hf1) as [Q3 Q4].
  pose proof (Z.div_mod b BPB ltac:(done)) as D1. pose proof (Z.div_mod b0 BPB ltac:(done)) as D2.
  pose proof (Z.mod_pos_bound b BPB eq_refl) as M1. pose proof (Z.mod_pos_bound b0 BPB eq_refl) as M2.
  destruct (decide (BBLOCK b sb = BBLOCK b0 sb)) as [Heq|Hne].
  - rewrite Heq, lookup_insert_eq, Hd. cbn [default id].
    rewrite bit_set_set_bit; [f_equal|unfold BPB, BSIZE in *; lia|lia].
    unfold BBLOCK in Heq. rewrite !u32_small in Heq by lia.
    destruct (Z.eqb_spec (b0 mod BPB) (b mod BPB)), (Z.eqb_spec b b0); try done; [|congruence].
    assert (b / BPB = b0 / BPB) by lia. congruence.
  - rewrite lookup_insert_ne by done. destruct (Z.eqb_spec b b0) as [->|]; done.
Qed.

(** [balloc] takes the first block whose bit is clear, sets that bit and
    no other, fills the block with zeros, and changes nothing else; with every
    block in use it panics.  It never runs out of fuel. *)
Theorem balloc_correct s v :
  TR (fb s) v → bitmap_ok v (sb s) → 0 ≤ sb_size (sb s) →
  (∀ b0 z, first_free v (sb s) b0 → readable v b0 z → writable b0 → writable (BBLOCK b0 (sb s)) → (2 ≤ v_room v)%nat →
     wp (balloc ROOTDEV) (λ b s', b = b0 ∧ sb s' = sb s ∧ ic_lock s' = ic_lock s ∧ inodes s' = inodes s ∧
       ∃ v', TR (fb s') v' ∧ v_held v' = v_held v ∧ (v_room v ≤ v_room v' + 2)%nat ∧
         v_blk v' !! b0 = Some (replicate (Z.to_nat BSIZE) 0) ∧
         (∀ b, b ≠ b0 → b ≠ BBLOCK b0 (sb s) → v_blk v' !! b = v_blk v !! b) ∧
         (∀ b, 0 ≤ b < sb_size (sb s) → in_use v' (sb s) b = (b =? b0) || in_use v (sb s) b)) s) ∧
  ((∀ b, 0 ≤ b < sb_size (sb s) → in_use v (sb s) b = true) → balloc ROOTDEV s = Fail (EPanic "balloc: out of blocks")).
Proof.
  intros HR Hbm Hsz. assert (s = with_fb (fb s) s) as Hs by by destruct s.
  split.
  - intros b0 z Hf Hz Hw Hwb Hroom. unfold balloc, get_sb. apply wpe_bind, wpe_gets. rewrite Hs at 2.
    eapply (balloc_loop_ok b0 z s v); try done; [|apply Hf|rewrite Z.sub_0_r; lia].
    intros d t Hd HR'. split; [done|]. split; [done|]. split; [done|]. split; [done|]. exists (v_alloc (sb s) b0 d v).
    split; [done|]. apply v_alloc_spec; try done. by apply (bs_len _ _ _ _ HR Hd).
  - intros Hfull. pose proof (balloc_loop_full s v Hbm Hfull (Z.to_nat (sb_size (sb s) / BPB) + 2) (fb s) 0 HR) as H.
    rewrite Z.sub_0_r, <-Hs in H. specialize (H ltac:(lia) eq_refl ltac:(lia)). unfold wpe in H.
    unfold balloc, get_sb, bind, gets. destruct (balloc_loop _ _ _ _) as [[??]|e]; [done|]. by subst.
Qed.
End on_blocks.

(** ** An instance: blocks in memory

    A map from block numbers to blocks, where logging does nothing, is enough
    to run the file system. *)

Module Mem.
Abbreviation mem := (gmap Z (list Z)).

#[export] Instance mem_layer : BlockLayer mem := {|
  b_read dv b := ret (Z.to_nat b);
  b_log h := ret tt;
  b_rel h := ret tt;
  b_edit h f := modify (λ t, <[Z.of_nat h := f (default [] (t !! Z.of_nat h))]> t);
  b_data h t := default [] (t !! Z.of_nat h);
|}.

Definition mem_ok (t : mem) : Prop := map_Forall (λ b d, 0 ≤ b ∧ length d = Z.to_nat BSIZE) t.
Definition mem_R (t : mem) (v : view) : Prop :=
  v_blk v = t ∧ mem_ok t ∧ map_Forall (λ b (e : nat * bool), Z.of_nat e.1 = b) (v_held v).
Definition any (b : Z) : Prop := True.

#[export] Instance mem_spec : BlockLayerSpec mem mem_R any.
Proof.
  split.
  - intros t v b d (<- & H & _) Hd. by apply (H b d).
  - intros t v b d (<- & H & Hh) Hd _ _. exists (Z.to_nat b), (v_blk v). split; [done|]. split; [done|]. split; [done|].
    apply map_Forall_insert_2; [|done]. cbn. destruct (H b d Hd). lia.
  - intros t v b h x d (<- & H & Hh) Hb Hd. cbn. specialize (Hh b _ Hb). cbn in Hh. subst. by rewrite Hd.
  - intros t v b h x d f (<- & H & Hh) Hb Hd Hf. eexists. split; [done|]. pose proof (Hh b _ Hb) as E. cbn in E. rewrite E, Hd.
    split; [done|split]; apply map_Forall_insert_2; try done. split; [|done]. by destruct (H b d Hd).
  - intros t v b h x (<- & H & Hh) Hb _ _. eexists. split; [done|]. split; [cbn; by rewrite v_log_blk|]. split; [done|].
    cbn. rewrite v_log_held. apply map_Forall_insert_2; [by apply (Hh b _ Hb)|done].
  - intros t v b h (<- & H & Hh) Hb. eexists. split; [done|]. split; [done|]. split; [done|]. by apply map_Forall_delete.
Qed.

(** A disk of ten blocks: inodes in block 1, the bitmap in block 2; the first
    four blocks are in use. *)
Definition demo_disk : mem :=
  <[2 := 15 :: replicate 511 0]> (list_to_map ((λ k, (Z.of_nat k, replicate 512 0)) <$> seq 0 10)).
Definition demo_sb : superblock := mk_superblock 10 6 8 0 0 1 2.
Definition demo_view : view := mk_view demo_disk ∅ ∅ 10.
Definition demo_inode : inode := mk_inode ROOTDEV 3 1 (sl_free "inode") 1 T_FILE 0 0 1 700 (replicate 13 5).
Definition demo_cold : inode := mk_inode ROOTDEV 3 1 (sl_free "inode") 0 0 0 0 0 0 (replicate 13 0).
Definition demo_fs : fst_ mem := mk_fst demo_disk demo_sb (initlock "icache") [demo_inode].

Lemma demo_R : mem_R (fb demo_fs) demo_view.
Proof.
  split; [done|]. split; [|apply map_Forall_empty]. apply (bool_decide_eq_true_1 _). by vm_compute.
Qed.

Lemma demo_all (P : Z → Prop) `{∀ b, Decision (P b)} n :
  bool_decide (Forall P (seqZ 0 n)) = true → ∀ b, 0 ≤ b < n → P b.
Proof. intros HF%bool_decide_eq_true_1 b Hb. rewrite Forall_forall in HF. apply HF, elem_of_seqZ. lia. Qed.

Lemma demo_bitmap : bitmap_ok demo_view demo_sb.
Proof.
  split; [done|]. split; [done|]. intros b Hb.
  destruct (demo_all (λ b, v_blk demo_view !! BBLOCK b demo_sb = Some (15 :: replicate 511 0) ∧
    0 ≤ BBLOCK b demo_sb < 10 ∧ in_use demo_view demo_sb (BBLOCK b demo_sb) = true) 10) with b as (H1 & H2 & H3); [by vm_compute|done|].
  split; [|done]. eexists. split; [exact H1|]. split; [apply lookup_empty|]. by vm_compute; lia.
Qed.

Lemma demo_free : first_free demo_view demo_sb 4.
Proof. split; [done|]. split; [by vm_compute|]. apply (demo_all (λ b, in_use demo_view demo_sb b = true) 4). by vm_compute. Qed.

Lemma demo_readable b d : demo_disk !! b = Some d → readable demo_view b d.
Proof. intros H. split; [done|]. split; [apply lookup_empty|]. by vm_compute; lia. Qed.

Lemma demo_inode_ok : dinode_ok demo_inode.
Proof.
  split; [|split; [done|split; [done|apply (bool_decide_eq_true_1 _); by vm_compute]]].
  apply (Forall_forall (λ x, - 2 ^ 15 ≤ x < 2 ^ 15)). apply (bool_decide_eq_true_1 _). by vm_compute.
Qed.
End Mem.
#[local] Existing Instances Mem.mem_layer Mem.mem_spec.

Lemma balloc_correct_witness :
  match balloc ROOTDEV Mem.demo_fs with Done (b, _) => b = 4 | Fail _ => False end.
Proof.
  destruct (balloc_correct (TR := Mem.mem_R) (writable := Mem.any) Mem.demo_fs Mem.demo_view Mem.demo_R
    Mem.demo_bitmap) as [H _]; [done|].
  specialize (H 4 (replicate 512 0) Mem.demo_free). revert H. unfold wpe.
  destruct (balloc ROOTDEV Mem.demo_fs) as [[b s']|e]; intros H; apply H; try exact I;
    solve [apply Mem.demo_readable; by vm_compute | vm_compute; lia].
Defined.

Lemma iupdate_ilock_witness :
  match iupdate 0 Mem.demo_fs with
  | Done (_, s1) => match ilock 0 7 (Some 0%nat) (mk_fst (fb s1) (sb s1) (ic_lock s1) [Mem.demo_cold]) with
                    | Done (_, s2) => i_size <$> inodes s2 = [700] | Fail _ => False end
  | Fail _ => False
  end.
Proof.
  assert (inum_ok (sb Mem.demo_fs) 3) as Hn by done.
  assert (readable Mem.demo_view (IBLOCK 3 (sb Mem.demo_fs)) (replicate 512 0)) as Hr
    by (apply Mem.demo_readable; by vm_compute).
  pose proof (iupdate_ilock (TR := Mem.mem_R) (writable := Mem.any) 0 7 Mem.demo_fs Mem.demo_view 0 Mem.demo_inode
    (replicate 512 0) Mem.demo_R eq_refl eq_refl Mem.demo_inode_ok Hn Hr I) as H.
  unfold wpe at 1 in H. specialize (H ltac:(right; vm_compute; lia)).
  destruct (iupdate 0 Mem.demo_fs) as [[[] s1]|e]; [|done].
  specialize (H (ic_lock s1) [Mem.demo_cold] 0%nat Mem.demo_cold "inode" (replicate 512 0) eq_refl ltac:(cbn; lia) eq_refl
    ltac:(cbn; lia) eq_refl eq_refl Hn Hr ltac:(vm_compute; lia)). unfold wpe in H.
  destruct (ilock 0 7 (Some 0%nat) _) as [[[] s2]|e]; [|done]. rewrite H. by vm_compute.
Defined.
