(* ===== verification/FsData.v ===== *)
(** * The contents of files

    A file as an array of bytes: the block numbers an inode and its indirect
    block hold, the bytes in those blocks, and what [bmap], [readi] and
    [writei] do to them.  The bitmap, the inodes on disk and the other files
    are part of the statements. *)

From S2P Require Import Prelude Spinlock Buf Log Tx Fs FsSpec.

(** ** Block numbers of a file

    Slot [k] for [k < MAXFILE] is the number of the [k]-th block of the file;
    the slot behind them is the number of the indirect block.  0 is none. *)

Abbreviation indirect A := (A !!! Z.to_nat NDIRECT).

Definition slot (blk : gmap Z (list Z)) (A : list Z) (k : Z) : Z :=
  if k <? NDIRECT then A !!! Z.to_nat k
  else if k <? MAXFILE then
    if indirect A =? 0 then 0 else get_uint (4 * (k - NDIRECT)) (default [] (blk !! indirect A))
  else indirect A.

Definition owns (blk : gmap Z (list Z)) (A : list Z) (b : Z) : Prop :=
  b ≠ 0 ∧ ∃ k, 0 ≤ k ≤ MAXFILE ∧ slot blk A k = b.

(** Byte [k] of a file; a block that is not there counts as zeros. *)
Definition fbyte (blk : gmap Z (list Z)) (A : list Z) (k : Z) : Z :=
  let b := slot blk A (k / BSIZE) in
  if b =? 0 then 0 else default [] (blk !! b) !!! Z.to_nat (k mod BSIZE).

Definition contents (blk : gmap Z (list Z)) (A : list Z) (sz : Z) : list Z := fbyte blk A <$> seqZ 0 sz.

(** Blocks that [n] bytes take. *)
Definition nblocks (n : Z) : Z := (n + (BSIZE - 1)) / BSIZE.

(** Blocks that a file of [n] bytes takes, with its indirect block. *)
Definition nblocks_all (n : Z) : Z := nblocks n + (if NDIRECT <? nblocks n then 1 else 0).

Lemma nblocks_lt k e : k < nblocks e ↔ k * BSIZE < e.
Proof.
  unfold nblocks, BSIZE. pose proof (Z.div_mod (e + (512 - 1)) 512 ltac:(lia)).
  pose proof (Z.mod_pos_bound (e + (512 - 1)) 512 eq_refl). lia.
Qed.

Lemma nblocks_max e : e ≤ MAXFILE * BSIZE → nblocks e ≤ MAXFILE.
Proof. intros He. pose proof (nblocks_lt MAXFILE e). lia. Qed.

Lemma maxfile_eq : MAXFILE = 140.
Proof. done. Qed.

Lemma slot_indirect blk A : slot blk A MAXFILE = indirect A.
Proof. done. Qed.

Lemma slot_through blk A k :
  NDIRECT ≤ k < MAXFILE →
  slot blk A k = if indirect A =? 0 then 0 else get_uint (4 * (k - NDIRECT)) (default [] (blk !! indirect A)).
Proof. intros Hk. unfold slot. by rewrite (proj2 (Z.ltb_ge _ _)), (proj2 (Z.ltb_lt _ _)) by lia. Qed.

(** A block that is reached through the indirect block. *)
Lemma slot_needs_indirect blk A k : NDIRECT ≤ k < MAXFILE → slot blk A k ≠ 0 → indirect A ≠ 0.
Proof. intros Hk. rewrite slot_through by done. by destruct (Z.eqb_spec (indirect A) 0). Qed.

(** Only the indirect block matters for the block numbers. *)
Lemma slot_ext blk blk' A k : blk' !! indirect A = blk !! indirect A → slot blk' A k = slot blk A k.
Proof. unfold slot. by intros ->. Qed.

Lemma get_put_uint off v d :
  0 ≤ off → off + 4 ≤ Z.of_nat (length d) → 0 ≤ v < 2 ^ 32 → get_uint off (put_int off v d) = v.
Proof.
  intros H1 H2 H3. unfold put_int. rewrite <-(Z.add_0_r off) at 1.
  rewrite (get_uint_slice off 0) by (rewrite ?length_le_bytes; lia). rewrite u32_small by done.
  unfold slice. rewrite drop_0, take_ge by (rewrite length_le_bytes; lia). by apply le_val_bytes.
Qed.

Lemma get_put_uint_other off off' v d :
  0 ≤ off → off + 4 ≤ Z.of_nat (length d) → 0 ≤ off' → off + 4 ≤ off' ∨ off' + 4 ≤ off →
  get_uint off' (put_int off v d) = get_uint off' d.
Proof.
  intros H1 H2 H3 H4. unfold put_int, get_uint. f_equal.
  apply (slice_splice_other (Z.to_nat off) (le_bytes 4 (u32 v)) d (Z.to_nat off') 4); rewrite length_le_bytes; lia.
Qed.

Lemma get_uint_zeros off n : get_uint off (replicate n 0) = 0.
Proof.
  unfold get_uint. rewrite drop_replicate, take_replicate. generalize (4 `min` (n - Z.to_nat off))%nat.
  intros k. induction k as [|k IH]; [done|]. cbn [replicate le_val]. lia.
Qed.

(** ** Free blocks *)

Definition free_list (v : view) (sb : superblock) : list Z :=
  filter (λ b, in_use v sb b = false) (seqZ 0 (sb_size sb)).
Definition nfree (v : view) (sb : superblock) : nat := length (free_list v sb).

Lemma length_filter_flip (f g : Z → bool) b0 l :
  NoDup l → b0 ∈ l → f b0 = false → (∀ b, b ∈ l → g b = (b =? b0) || f b) →
  length (filter (λ b, f b = false) l) = S (length (filter (λ b, g b = false) l)).
Proof.
  assert (∀ l0 : list Z, b0 ∉ l0 → (∀ b, b ∈ l0 → g b = (b =? b0) || f b) →
    filter (λ b, f b = false) l0 = filter (λ b, g b = false) l0) as Hskip.
  { induction l0 as [|b l' IH]; intros Hn Hg; [done|]. rewrite !filter_cons, IH by set_solver.
    rewrite (Hg b) by set_solver. destruct (Z.eqb_spec b b0) as [->|]; [set_solver|done]. }
  induction l as [|b l IH]; intros Hnd Hin Hf Hg; [set_solver|]. apply NoDup_cons in Hnd as [Hb Hnd].
  rewrite !filter_cons. rewrite (Hg b) by set_solver. destruct (Z.eqb_spec b b0) as [->|Hne].
  - rewrite decide_True by done. rewrite decide_False by done. cbn [length]. rewrite Hskip; [done|done|set_solver].
  - cbn [orb]. assert (b0 ∈ l) by set_solver. destruct (decide (f b = false)); cbn [length]; rewrite IH; try done; set_solver.
Qed.

Lemma first_free_exists v sb : (0 < nfree v sb)%nat → ∃ b0, first_free v sb b0.
Proof.
  unfold nfree. intros Hn. destruct (free_list v sb) as [|b l] eqn:El; [cbn in Hn; lia|].
  assert (b ∈ free_list v sb) as Hb by (rewrite El; set_solver). unfold free_list in Hb.
  apply list_elem_of_filter in Hb as [Hu Hb%elem_of_seqZ]. clear El Hn. assert (0 ≤ b < sb_size sb) as Hr by lia. clear Hb.
  revert Hu Hr. induction (Z.lt_wf 0 b) as [b _ IH]. intros Hu Hr.
  destruct (decide (Exists (λ c, in_use v sb c = false) (seqZ 0 b))) as [(c & Hc%elem_of_seqZ & Huc)%Exists_exists|Hno].
  - apply (IH c); [lia|done|lia].
  - exists b. split; [done|]. split; [done|]. intros c Hc. destruct (in_use v sb c) eqn:E; [done|].
    destruct Hno. apply Exists_exists. exists c. split; [apply elem_of_seqZ; lia|done].
Qed.

(** The bytes that one round of the loops of [readi] and [writei] copies. *)
Abbreviation round_len off n := (Z.min n (BSIZE - off mod BSIZE)).

Section on_blocks.
Context {T : Type} `{!BlockLayer T} {TR : T → view → Prop} {writable : Z → Prop} `{!BlockLayerSpec T TR writable}.
Implicit Types s : fst_ T.

(** ** The disk

    The bitmap and the inodes are in blocks of their own, which are in use;
    the blocks that are not in use may be written. *)

Definition bitmap_block (sb : superblock) (b : Z) : Prop := ∃ c, 0 ≤ c < sb_size sb ∧ BBLOCK c sb = b.
Definition inode_block (sb : superblock) (b : Z) : Prop := ∃ n, 0 ≤ n < sb_ninodes sb ∧ IBLOCK n sb = b.

Record disk_ok (sb : superblock) (v : view) : Prop := {
  do_size : 0 ≤ sb_size sb < 2 ^ 32;
  do_start : 0 ≤ sb_bmapstart sb ∧ sb_size sb / BPB + sb_bmapstart sb < 2 ^ 32;
  do_inodes n : 0 ≤ n < sb_ninodes sb → inum_ok sb n;
  do_blk b : 0 ≤ b < sb_size sb → is_Some (v_blk v !! b);
  do_meta b : bitmap_block sb b ∨ inode_block sb b → 0 ≤ b < sb_size sb ∧ in_use v sb b = true ∧ writable b;
  do_apart b : bitmap_block sb b → inode_block sb b → False;
  do_free b : 0 ≤ b < sb_size sb → in_use v sb b = false → 0 < b ∧ writable b;
}.

(** The buffers held leave room for one more and are not in the way of an allocation. *)
Definition held_ok (sb : superblock) (v : view) : Prop :=
  (size (v_held v) < MAXHELD)%nat ∧
  ∀ b, is_Some (v_held v !! b) → in_use v sb b = true ∧ ¬ bitmap_block sb b.

Lemma held_ok_none sb v : v_held v = ∅ → held_ok sb v.
Proof. intros Hh. unfold held_ok. rewrite Hh. split; [vm_compute; lia|]. intros b [? Hb]. by rewrite lookup_empty in Hb. Qed.

Lemma disk_bitmap_ok sb v : disk_ok sb v → held_ok sb v → bitmap_ok v sb.
Proof.
  intros Hd [Hs Hh]. destruct (do_start _ _ Hd) as [H1 H2]. split; [done|]. split; [done|]. intros b Hb.
  assert (bitmap_block sb (BBLOCK b sb)) as Hm by (by exists b).
  destruct (do_meta _ _ Hd (BBLOCK b sb) (or_introl Hm)) as (Hr & Hu & _). split; [|done].
  destruct (do_blk _ _ Hd _ Hr) as [d Hbd]. exists d. split; [done|]. split; [|done].
  destruct (v_held v !! BBLOCK b sb) eqn:E; [|done]. destruct (Hh (BBLOCK b sb)) as [_ []]; [by eexists|done].
Qed.

(** What the allocation of block [b0] does. *)
Record allocated (sb : superblock) (v v' : view) (b0 : Z) : Prop := {
  al_new : 0 < b0 < sb_size sb ∧ in_use v sb b0 = false ∧ writable b0;
  al_held : v_held v' = v_held v;
  al_disk : disk_ok sb v';
  al_zero : v_blk v' !! b0 = Some (replicate (Z.to_nat BSIZE) 0);
  al_blk b : b ≠ b0 → ¬ bitmap_block sb b → v_blk v' !! b = v_blk v !! b;
  al_use b : 0 ≤ b < sb_size sb → in_use v' sb b = (b =? b0) || in_use v sb b;
  al_room : (v_room v ≤ v_room v' + 2)%nat;
  al_logged : v_logged v ⊆ v_logged v' ∧ b0 ∈ v_logged v';
  al_nfree : nfree v sb = S (nfree v' sb);
}.

Lemma v_log_logged b v : v_logged (v_log b v) = {[b]} ∪ v_logged v.
Proof using Type.
  clear dependent T. clear writable. unfold v_log. destruct (decide _); [|done]. set_solver. Qed.

Lemma v_alloc_allocated sb v b0 d :
  disk_ok sb v → held_ok sb v → first_free v sb b0 → v_blk v !! BBLOCK b0 sb = Some d → length d = Z.to_nat BSIZE →
  allocated sb v (v_alloc sb b0 d v) b0.
Proof using Type.
  clear dependent T.
  intros Hd Hh Hf Hbd Hl. pose proof (disk_bitmap_ok sb v Hd Hh) as Hb.
  destruct (v_alloc_spec v sb b0 d Hb Hf Hbd Hl) as (H1 & H2 & H3 & H4 & H5). destruct Hf as (Hr & Hu & _).
  destruct (do_free _ _ Hd b0 Hr Hu) as [H0 Hw]. assert (bitmap_block sb (BBLOCK b0 sb)) as Hm by by exists b0.
  split; try done; [by split_and!; try lia| |by intros b Hne Hnb; apply H4; [done|]; intros ->| |].
  - destruct Hd as [D1 D2 D3 D4 D5 D6 D7]. split; try done.
    + intros b Hb'. destruct (D4 b Hb') as [x Hx]. unfold v_alloc. rewrite !v_put_blk, !lookup_insert_is_Some'. right. right. by exists x.
    + intros b Hbm. destruct (D5 b Hbm) as (E1 & E2 & E3). split; [done|]. split; [|done]. rewrite H5, E2 by done. apply orb_true_r.
    + intros b Hb' Hfr. rewrite H5 in Hfr by done. apply orb_false_iff in Hfr as [_ Hfr]. by apply D7.
  - unfold v_alloc. rewrite !v_log_logged. cbn [v_write v_logged]. rewrite v_log_logged. cbn [v_write v_logged]. set_solver.
  - unfold nfree, free_list. apply (length_filter_flip _ _ b0); [apply NoDup_seqZ|apply elem_of_seqZ; lia|done|].
    intros b Hb'%elem_of_seqZ. apply H5. lia.
Qed.

Lemma balloc_ok s v Q E :
  TR (fb s) v → disk_ok (sb s) v → held_ok (sb s) v → (0 < nfree v (sb s))%nat → (2 ≤ v_room v)%nat →
  (∀ b0 t v', TR t v' → allocated (sb s) v v' b0 → Q b0 (with_fb t s)) → wpe (balloc ROOTDEV) Q E s.
Proof.
  intros HR Hd Hh Hn Hroom HQ. destruct (first_free_exists v (sb s) Hn) as [b0 Hf].
  destruct (Hf) as (Hr & Hu & _). destruct (do_free _ _ Hd b0 Hr Hu) as [H0 Hw].
  destruct (do_blk _ _ Hd b0 Hr) as [z Hz]. assert (bitmap_block (sb s) (BBLOCK b0 (sb s))) as Hm by by exists b0.
  unfold balloc, get_sb. apply wpe_bind, wpe_gets. assert (s = with_fb (fb s) s) as Hs by by destruct s. rewrite Hs at 2.
  eapply (balloc_loop_ok b0 z s v); try done.
  - by apply disk_bitmap_ok.
  - split; [done|]. split; [|apply Hh]. destruct (v_held v !! b0) eqn:Eh; [|done].
    destruct (proj2 Hh b0); [by eexists|congruence].
  - apply (do_meta _ _ Hd). by left.
  - intros d t Hbd HR'. eapply HQ; [exact HR'|]. apply v_alloc_allocated; try done. by apply (bs_len _ _ _ _ HR Hbd).
  - lia.
  - rewrite Z.sub_0_r. lia.
Qed.

(** ** Files

    The blocks of a file are in use, not shared and not part of the bitmap or
    the inodes, and the first [e] bytes have blocks. *)

Record file_ok (sb : superblock) (v : view) (A : list Z) (e : Z) : Prop := {
  fo_len : length A = 13%nat;
  fo_max : 0 ≤ e ≤ MAXFILE * BSIZE;
  fo_own k : 0 ≤ k ≤ MAXFILE → slot (v_blk v) A k ≠ 0 →
    0 < slot (v_blk v) A k < sb_size sb ∧ in_use v sb (slot (v_blk v) A k) = true ∧ writable (slot (v_blk v) A k) ∧
    ¬ bitmap_block sb (slot (v_blk v) A k) ∧ ¬ inode_block sb (slot (v_blk v) A k);
  fo_inj k k' : 0 ≤ k ≤ MAXFILE → 0 ≤ k' ≤ MAXFILE → slot (v_blk v) A k ≠ 0 →
    slot (v_blk v) A k = slot (v_blk v) A k' → k = k';
  fo_full k : 0 ≤ k < nblocks e → slot (v_blk v) A k ≠ 0;
}.

(** How a file may change: it gets blocks that were not in use and keeps
    those it has; what is in use is what was and what it got; the blocks of
    others are as they were. *)
Record grows (sb : superblock) (v : view) (A : list Z) (v' : view) (A' : list Z) : Prop := {
  g_held : v_held v' = v_held v;
  g_disk : disk_ok sb v';
  g_keep k : 0 ≤ k ≤ MAXFILE → slot (v_blk v) A k ≠ 0 → slot (v_blk v') A' k = slot (v_blk v) A k;
  g_fresh k : 0 ≤ k ≤ MAXFILE → slot (v_blk v) A k = 0 → slot (v_blk v') A' k ≠ 0 →
    0 < slot (v_blk v') A' k < sb_size sb ∧ in_use v sb (slot (v_blk v') A' k) = false;
  g_use b : 0 ≤ b < sb_size sb → in_use v' sb b = true ↔ in_use v sb b = true ∨ owns (v_blk v') A' b;
  g_frame b : 0 ≤ b < sb_size sb → in_use v sb b = true → ¬ owns (v_blk v) A b → ¬ bitmap_block sb b →
    v_blk v' !! b = v_blk v !! b;
  g_logged : v_logged v ⊆ v_logged v';
}.

Definition same_bytes (v : view) (A : list Z) (v' : view) (A' : list Z) : Prop :=
  ∀ k, 0 ≤ k < MAXFILE * BSIZE → fbyte (v_blk v') A' k = fbyte (v_blk v) A k.

Lemma file_grows_refl sb v A e : disk_ok sb v → file_ok sb v A e → grows sb v A v A.
Proof.
  intros Hd Hf. split; try done. intros b Hb. split; [by left|]. intros [?|(H0 & k & Hk & <-)]; [done|].
  by apply (fo_own _ _ _ _ Hf).
Qed.

Lemma file_grows_trans sb v A v1 A1 v2 A2 : grows sb v A v1 A1 → grows sb v1 A1 v2 A2 → grows sb v A v2 A2.
Proof using Type.
  clear dependent T.
  intros G1 G2.
  assert (∀ b, 0 ≤ b < sb_size sb → in_use v sb b = true → in_use v1 sb b = true) as Hmono.
  { intros b Hb Hu. apply (g_use _ _ _ _ _ G1); [done|by left]. }
  split.
  - by rewrite (g_held _ _ _ _ _ G2), (g_held _ _ _ _ _ G1).
  - apply (g_disk _ _ _ _ _ G2).
  - intros k Hk Hs. pose proof (g_keep _ _ _ _ _ G1 k Hk Hs) as E. rewrite <-E. apply (g_keep _ _ _ _ _ G2); [done|congruence].
  - intros k Hk H0 H2. destruct (decide (slot (v_blk v1) A1 k = 0)) as [E|E].
    + destruct (g_fresh _ _ _ _ _ G2 k Hk E H2) as [Hr Hu]. split; [done|].
      destruct (in_use v sb _) eqn:Eu; [|done]. rewrite Hmono in Hu; [done|lia|done].
    + rewrite (g_keep _ _ _ _ _ G2 k Hk E). by apply (g_fresh _ _ _ _ _ G1).
  - intros b Hb. rewrite (g_use _ _ _ _ _ G2), (g_use _ _ _ _ _ G1) by done. split; [|tauto]. intros [[?|(H0 & k & Hk & <-)]|?]; auto.
    right. split; [done|]. exists k. split; [done|]. by apply (g_keep _ _ _ _ _ G2).
  - intros b Hb Hu Hno Hnb. rewrite (g_frame _ _ _ _ _ G2), (g_frame _ _ _ _ _ G1); try done; [by apply Hmono|].
    intros (H0 & k & Hk & <-). destruct (decide (slot (v_blk v) A k = 0)) as [E|E].
    + destruct (g_fresh _ _ _ _ _ G1 k Hk E H0). congruence.
    + apply Hno. split; [done|]. exists k. split; [done|]. symmetry. by apply (g_keep _ _ _ _ _ G1).
  - pose proof (g_logged _ _ _ _ _ G1). pose proof (g_logged _ _ _ _ _ G2). set_solver.
Qed.

(** A file that got block [b0], by its slots before and after. *)
Record gets_block (sb : superblock) (v : view) (A : list Z) (v' : view) (A' : list Z) (k0 b0 : Z) : Prop := {
  gb_len : length A' = 13%nat;
  gb_k0 : 0 ≤ k0 ≤ MAXFILE ∧ slot (v_blk v) A k0 = 0 ∧ slot (v_blk v') A' k0 = b0;
  gb_slot k : 0 ≤ k ≤ MAXFILE → k ≠ k0 → slot (v_blk v') A' k = slot (v_blk v) A k;
  gb_b0 : 0 < b0 < sb_size sb ∧ in_use v sb b0 = false ∧ writable b0;
  gb_use b : 0 ≤ b < sb_size sb → in_use v' sb b = (b =? b0) || in_use v sb b;
  gb_disk : disk_ok sb v';
}.

Lemma not_free_meta sb v b : disk_ok sb v → in_use v sb b = false → ¬ bitmap_block sb b ∧ ¬ inode_block sb b.
Proof. intros Hd Hu. split; intros Hm; destruct (do_meta _ _ Hd b); intuition congruence. Qed.

Lemma gets_block_ok sb v A v' A' k0 b0 e :
  disk_ok sb v → file_ok sb v A e → gets_block sb v A v' A' k0 b0 → file_ok sb v' A' e.
Proof.
  intros Hd Hf [Hl (Hk0 & Hs0 & Hs1) Hs (Hb0 & Hu0 & Hw0) Huse _].
  assert (∀ k, 0 ≤ k ≤ MAXFILE → slot (v_blk v) A k = b0 → False) as Hfresh.
  { intros k Hk E. destruct (fo_own _ _ _ _ Hf k Hk) as (_ & Hu & _); [lia|congruence]. }
  split; [done|apply Hf|..].
  - intros k Hk Hn. destruct (decide (k = k0)) as [->|Hne].
    + rewrite Hs1. split; [done|]. split; [rewrite Huse, Z.eqb_refl by lia; done|]. split; [done|]. by apply (not_free_meta sb v).
    + rewrite Hs in * by done. destruct (fo_own _ _ _ _ Hf k Hk Hn) as (H1 & H2 & H3 & H4). split; [done|].
      split; [rewrite Huse, H2 by lia; apply orb_true_r|]. done.
  - intros k k' Hk Hk' Hn E. destruct (decide (k = k0)) as [->|Hne], (decide (k' = k0)) as [->|Hne']; [done|..].
    + rewrite Hs1, (Hs k') in E by done. by destruct (Hfresh k').
    + rewrite Hs1, (Hs k) in E by done. by destruct (Hfresh k).
    + rewrite !Hs in * by done. by apply (fo_inj _ _ _ _ Hf).
  - intros k Hk. pose proof (fo_full _ _ _ _ Hf k Hk) as Hn. destruct (decide (k = k0)) as [->|Hne]; [done|].
    pose proof (nblocks_max e (proj2 (fo_max _ _ _ _ Hf))). rewrite Hs by lia. done.
Qed.

Lemma gets_block_grows sb v A v' A' k0 b0 e :
  disk_ok sb v → file_ok sb v A e → gets_block sb v A v' A' k0 b0 →
  v_held v' = v_held v → v_logged v ⊆ v_logged v' →
  (∀ b, 0 ≤ b < sb_size sb → in_use v sb b = true → ¬ bitmap_block sb b → ¬ owns (v_blk v) A b → v_blk v' !! b = v_blk v !! b) →
  grows sb v A v' A'.
Proof.
  intros Hd Hf [Hl (Hk0 & Hs0 & Hs1) Hs (Hb0 & Hu0 & Hw0) Huse Hd'] Hh Hlog Hfr. split; try done.
  - intros k Hk Hn. destruct (decide (k = k0)) as [->|Hne]; [done|]. by apply Hs.
  - intros k Hk H0 H1. destruct (decide (k = k0)) as [->|Hne]; [|by rewrite Hs in H1]. by rewrite Hs1.
  - intros b Hb. rewrite Huse by done. rewrite orb_true_iff, Z.eqb_eq. split.
    + intros [->|?]; [right|by left]. split; [lia|]. by exists k0.
    + intros [?|(Hn & k & Hk & <-)]; [by right|]. destruct (decide (k = k0)) as [->|Hne]; [by left|]. right.
      rewrite Hs in * by done. by apply (fo_own _ _ _ _ Hf).
  - intros b Hb Hu Hno Hnb. by apply Hfr.
Qed.

(** Writing a block that is not part of the bitmap. *)
Abbreviation v_put b d v := (v_log b (v_write b d v)).

Lemma in_use_put sb v b d c :
  ¬ bitmap_block sb b → 0 ≤ c < sb_size sb → in_use (v_put b d v) sb c = in_use v sb c.
Proof.
  intros Hb Hc. unfold in_use. rewrite v_put_blk, lookup_insert_ne; [done|]. intros ->. apply Hb. by exists c.
Qed.

Lemma nfree_put sb v b d : ¬ bitmap_block sb b → nfree (v_put b d v) sb = nfree v sb.
Proof using Type.
  clear dependent T. clear writable.
  intros Hb. unfold nfree, free_list. f_equal. set (l := seqZ 0 (sb_size sb)).
  assert (∀ c, c ∈ l → in_use (v_put b d v) sb c = in_use v sb c) as H
    by (intros c Hc%elem_of_seqZ; apply in_use_put; [done|lia]).
  clearbody l. induction l as [|c l IH]; [done|]. rewrite !filter_cons, IH, H by set_solver. done.
Qed.

Lemma disk_ok_put sb v b d : disk_ok sb v → ¬ bitmap_block sb b → disk_ok sb (v_put b d v).
Proof.
  intros [D1 D2 D3 D4 D5 D6 D7] Hb. split; try done.
  - intros c Hc. rewrite v_put_blk, lookup_insert_is_Some'. right. by apply D4.
  - intros c Hm. destruct (D5 c Hm) as (E1 & E2 & E3). by rewrite in_use_put.
  - intros c Hc Hu. rewrite in_use_put in Hu by done. by apply D7.
Qed.

(** The blocks of a file are where an allocation does not write. *)
Lemma allocated_slot sb v v' b0 A e k :
  allocated sb v v' b0 → file_ok sb v A e → 0 ≤ k ≤ MAXFILE → slot (v_blk v) A k ≠ 0 →
  v_blk v' !! slot (v_blk v) A k = v_blk v !! slot (v_blk v) A k.
Proof.
  intros Ha Hf Hk Hn. destruct (fo_own _ _ _ _ Hf k Hk Hn) as (_ & Hu & _ & Hb & _).
  destruct (al_new _ _ _ _ Ha) as (_ & Hu0 & _). apply (al_blk _ _ _ _ Ha); [congruence|done].
Qed.

(** A block number stored in the inode. *)
Definition addr_slot (j : Z) : Z := if j =? NDIRECT then MAXFILE else j.

Lemma grow_addr sb v v' b0 A e j :
  allocated sb v v' b0 → file_ok sb v A e → 0 ≤ j ≤ NDIRECT → A !!! Z.to_nat j = 0 →
  gets_block sb v A v' (<[Z.to_nat j := b0]> A) (addr_slot j) b0.
Proof.
  intros Ha Hf Hj H0. pose proof (fo_len _ _ _ _ Hf) as Hl. pose proof (al_new _ _ _ _ Ha) as Hnew.
  pose proof maxfile_eq as Hmax. unfold NDIRECT in Hj.
  split; [by rewrite length_insert| | |done|apply Ha|apply Ha].
  - unfold addr_slot, slot, NDIRECT. rewrite Hmax. destruct (Z.eqb_spec j 12) as [->|Hne].
    + cbn [Z.ltb Z.compare Pos.compare Pos.compare_cont]. split; [lia|]. split; [done|]. apply list_lookup_total_insert_eq. lia.
    + rewrite (proj2 (Z.ltb_lt j 12)) by lia. split; [lia|]. split; [done|]. apply list_lookup_total_insert_eq. lia.
  - intros k Hk Hne. destruct (decide (k < NDIRECT)) as [Hd|Hd].
    + unfold slot. rewrite (proj2 (Z.ltb_lt k NDIRECT)) by done. apply list_lookup_total_insert_ne.
      unfold addr_slot, NDIRECT in *. destruct (Z.eqb_spec j 12); lia.
    + destruct (decide (k = MAXFILE)) as [->|Hk'].
      { rewrite !slot_indirect. apply list_lookup_total_insert_ne. unfold addr_slot, NDIRECT in *. destruct (Z.eqb_spec j 12); lia. }
      rewrite !slot_through by lia. destruct (decide (j = NDIRECT)) as [->|Hj'].
      * rewrite H0, list_lookup_total_insert_eq by (unfold NDIRECT; lia). rewrite (al_zero _ _ _ _ Ha).
        cbn [default id]. rewrite get_uint_zeros. by destruct (b0 =? 0).
      * rewrite list_lookup_total_insert_ne by (unfold NDIRECT in *; lia).
        destruct (Z.eqb_spec (indirect A) 0) as [|Hi]; [done|]. rewrite <-(slot_indirect (v_blk v)) in Hi |- *.
        rewrite (allocated_slot sb v v' b0 A e); [done|done|done|rewrite Hmax; lia|done].
Qed.

(** A block number stored in the indirect block. *)
Lemma grow_indirect sb v v' b0 A e d k0 :
  allocated sb v v' b0 → disk_ok sb v → file_ok sb v A e → NDIRECT ≤ k0 < MAXFILE → indirect A ≠ 0 → slot (v_blk v) A k0 = 0 →
  v_blk v !! indirect A = Some d → length d = Z.to_nat BSIZE →
  gets_block sb v A (v_put (indirect A) (put_int (4 * (k0 - NDIRECT)) b0 d) v') A k0 b0.
Proof.
  intros Ha Hd Hf Hk0 Hi Hs0 Hb Hl. pose proof (al_new _ _ _ _ Ha) as Hnew. pose proof maxfile_eq as Hmax.
  destruct (fo_own _ _ _ _ Hf MAXFILE) as (_ & _ & _ & Hnb & _); [lia|done|]. rewrite slot_indirect in Hnb.
  pose proof (do_size _ _ Hd). unfold NDIRECT, BSIZE in Hk0, Hl. rewrite Hmax in Hk0.
  assert (∀ k, NDIRECT ≤ k < MAXFILE → slot (v_blk v) A k = get_uint (4 * (k - NDIRECT)) d) as Hold.
  { intros k Hk. rewrite slot_through, (proj2 (Z.eqb_neq _ _) Hi), Hb by done. done. }
  assert (∀ k, NDIRECT ≤ k < MAXFILE → slot (v_blk (v_put (indirect A) (put_int (4 * (k0 - NDIRECT)) b0 d) v')) A k =
    get_uint (4 * (k - NDIRECT)) (put_int (4 * (k0 - NDIRECT)) b0 d)) as Hslot.
  { intros k Hk. rewrite slot_through, (proj2 (Z.eqb_neq _ _) Hi), v_put_blk, lookup_insert_eq by done. done. }
  split; [apply Hf| | |done| |].
  - split; [rewrite Hmax; lia|]. split; [done|]. rewrite Hslot by (unfold NDIRECT; rewrite Hmax; lia).
    apply get_put_uint; unfold NDIRECT; lia.
  - intros k Hk Hne. destruct (decide (NDIRECT ≤ k < MAXFILE)) as [Hr|Hr].
    + rewrite Hslot, Hold by done. unfold NDIRECT in *. apply get_put_uint_other; lia.
    + unfold slot. destruct (Z.ltb_spec k NDIRECT); [done|]. destruct (Z.ltb_spec k MAXFILE); [lia|done].
  - intros b Hbr. rewrite in_use_put by done. by apply (al_use _ _ _ _ Ha).
  - apply disk_ok_put; [apply Ha|done].
Qed.

(** The bytes are as they were when the new block is full of zeros. *)
Lemma gets_block_bytes sb v A v' A' k0 b0 :
  gets_block sb v A v' A' k0 b0 →
  (∀ k, 0 ≤ k < MAXFILE → slot (v_blk v) A k ≠ 0 → v_blk v' !! slot (v_blk v) A k = v_blk v !! slot (v_blk v) A k) →
  v_blk v' !! b0 = Some (replicate (Z.to_nat BSIZE) 0) ∨ k0 = MAXFILE → same_bytes v A v' A'.
Proof.
  intros [_ (Hk0 & Hs0 & Hs1) Hs _ _ _] Hdata Hz i Hi. unfold fbyte.
  assert (0 ≤ i / BSIZE < MAXFILE) as Hk by (split; [apply Z.div_pos|apply Z.div_lt_upper_bound]; unfold BSIZE in *; lia).
  destruct (decide (i / BSIZE = k0)) as [E|Hne].
  - rewrite E, Hs0, Hs1. destruct Hz as [->| ->]; [|lia]. cbn [Z.eqb default id]. destruct (b0 =? 0); [done|].
    apply lookup_total_replicate_2. pose proof (Z.mod_pos_bound i BSIZE eq_refl). lia.
  - rewrite Hs by lia. destruct (Z.eqb_spec (slot (v_blk v) A (i / BSIZE)) 0); [done|]. by rewrite Hdata.
Qed.

(** ** bmap *)

Definition with_ino (t : T) (ip : nat) (i : inode) s : fst_ T := mk_fst t (sb s) (ic_lock s) (<[ip := i]> (inodes s)).

Lemma with_ino_id s ip i t : inodes s !! ip = Some i → with_fb t s = with_ino t ip i s.
Proof. intros Hi. unfold with_fb, with_ino. by rewrite list_insert_id. Qed.

Lemma with_ino_addrs s ip i t : inodes s !! ip = Some i → with_fb t s = with_ino t ip (set_addrs (addrs i) i) s.
Proof. intros Hi. rewrite (with_ino_id _ ip i) by done. by destruct i. Qed.

(** What the log may still have to take for the indirect block. *)
Definition indirect_cost (v : view) (A : list Z) : nat :=
  if indirect A =? 0 then 2 else if decide (indirect A ∈ v_logged v) then 0 else 1.

Definition indirect_missing (A : list Z) (bn : Z) : nat := if (NDIRECT <=? bn) && (indirect A =? 0) then 1 else 0.

(** What [bmap] does when it has to find block [bn]. *)
Record bmapped (sb : superblock) (v : view) (A : list Z) (v' : view) (A' : list Z) (bn : Z) : Prop := {
  bm_grows : grows sb v A v' A';
  bm_bytes : same_bytes v A v' A';
  bm_slot : slot (v_blk v') A' bn ≠ 0;
  bm_same : slot (v_blk v) A bn ≠ 0 → v' = v ∧ A' = A;
  bm_nfree : (nfree v sb ≤ nfree v' sb + 1 + indirect_missing A bn)%nat;
  bm_room : (v_room v + indirect_cost v' A' ≤ v_room v' + 2 + indirect_cost v A)%nat;
  bm_new : slot (v_blk v) A bn = 0 → slot (v_blk v') A' bn ∈ v_logged v';
}.

Lemma indirect_cost_mono v v' A : v_logged v ⊆ v_logged v' → (indirect_cost v' A ≤ indirect_cost v A)%nat.
Proof using Type.
  clear dependent T. clear writable. intros Hl. unfold indirect_cost. destruct (indirect A =? 0); [done|]. repeat case_decide; try lia. set_solver. Qed.

Lemma disk_ok_view sb v v' : v_blk v' = v_blk v → disk_ok sb v → disk_ok sb v'.
Proof.
  intros Hb Hd. assert (∀ b, in_use v' sb b = in_use v sb b) as Hu by (intros b; unfold in_use; by rewrite Hb).
  split; try apply Hd.
  - intros b. rewrite Hb. apply Hd.
  - intros b. rewrite Hu. apply Hd.
  - intros b. rewrite Hu. apply Hd.
Qed.

(** Allocating while a buffer is held. *)
Lemma allocated_under sb v v' b h b0 :
  allocated sb (v_hold b h false v) v' b0 → v_held v !! b = None →
  allocated sb v (v_drop b v') b0 ∧ v_hold b h false (v_drop b v') = v'.
Proof.
  intros [H1 H2 H3 H4 H5 H6 H7 H8 H9] Hn. cbn in H2. split.
  - split; try done; [cbn; by rewrite H2, delete_insert_id|by apply (disk_ok_view sb v')].
  - destruct v'. unfold v_hold, v_drop. cbn in *. f_equal. by rewrite H2, insert_delete_eq, insert_insert_eq.
Qed.

(** Storing a new block number in the inode. *)
Lemma addr_alloc_ok {B} s v ip i j (k : Z → M (fst_ T) B) Q E :
  TR (fb s) v → disk_ok (sb s) v → v_held v = ∅ → inodes s !! ip = Some i →
  (0 < nfree v (sb s))%nat → (2 ≤ v_room v)%nat →
  (∀ b0 t v', TR t v' → allocated (sb s) v v' b0 → wpe (k b0) Q E (with_ino t ip (set_addrs (<[j := b0]> (addrs i)) i) s)) →
  wpe (a <- balloc ROOTDEV;; upd_ino ip (λ i, set_addrs (<[j := a]> (addrs i)) i);; k a) Q E s.
Proof.
  intros HR Hd Hh Hi Hn Hr HQ. apply wpe_bind. eapply balloc_ok; [done|done|by apply held_ok_none|done|done|].
  intros b0 t v' HR' Ha. apply wpe_bind, wpe_modify. cbn [with_fb inodes fb sb ic_lock].
  rewrite (list_lookup_total_correct _ _ _ Hi). by apply (HQ b0 t v').
Qed.

(** A file that got a block stored in the inode. *)
Lemma grow_addr_file sb v v' b0 A e j :
  allocated sb v v' b0 → disk_ok sb v → file_ok sb v A e → 0 ≤ j ≤ NDIRECT → A !!! Z.to_nat j = 0 →
  let A' := <[Z.to_nat j := b0]> A in grows sb v A v' A' ∧ same_bytes v A v' A' ∧ file_ok sb v' A' e.
Proof.
  intros Ha Hd Hf Hj H0 A'. pose proof (grow_addr sb v v' b0 A e j Ha Hf Hj H0) as Hg. split_and!.
  - apply (gets_block_grows sb v A v' A' (addr_slot j) b0 e); try done; try apply Ha.
    intros b Hb Hu Hnb _. apply (al_blk _ _ _ _ Ha); [|done]. intros ->. destruct (al_new _ _ _ _ Ha) as (_ & ? & _). congruence.
  - eapply gets_block_bytes; [exact Hg| |left; apply Ha]. intros k Hk Hn. eapply allocated_slot; [done..|lia|done].
  - by apply (gets_block_ok sb v A v' A' (addr_slot j) b0).
Qed.

(** A block that is there. *)
Lemma bmapped_present sb v A e bn :
  disk_ok sb v → file_ok sb v A e → slot (v_blk v) A bn ≠ 0 → bmapped sb v A v A bn.
Proof. intros Hd Hf Hn. split; try done; [by apply (file_grows_refl _ _ _ e)|lia|lia]. Qed.

(** A new block whose number is stored in the inode. *)
Lemma grow_addr_mapped sb v v' b0 A e bn :
  allocated sb v v' b0 → disk_ok sb v → file_ok sb v A e → 0 ≤ bn < NDIRECT → A !!! Z.to_nat bn = 0 →
  let A' := <[Z.to_nat bn := b0]> A in bmapped sb v A v' A' bn ∧ file_ok sb v' A' e ∧ slot (v_blk v') A' bn = b0.
Proof.
  intros Ha Hd Hf Hbn H0 A'. destruct (grow_addr_file sb v v' b0 A e bn Ha Hd Hf ltac:(lia) H0) as (Hg & Hby & Hf'). fold A' in Hg, Hby, Hf'.
  assert (∀ blk A, slot blk A bn = A !!! Z.to_nat bn) as Hslot.
  { intros blk A1. unfold slot. by rewrite (proj2 (Z.ltb_lt bn NDIRECT)) by lia. }
  destruct (al_new _ _ _ _ Ha) as (Hb0 & _). pose proof (fo_len _ _ _ _ Hf) as Hl. unfold NDIRECT in Hbn.
  assert (A' !!! Z.to_nat bn = b0) as Hat by (apply list_lookup_total_insert_eq; lia).
  split; [|split; [done|by rewrite Hslot]].
  split; try done; rewrite ?Hslot, ?Hat; [lia|done|rewrite (al_nfree _ _ _ _ Ha); lia| |intros _; apply Ha].
  pose proof (al_room _ _ _ _ Ha). pose proof (indirect_cost_mono v v' A (proj1 (al_logged _ _ _ _ Ha))).
  unfold indirect_cost, A' in *. rewrite list_lookup_total_insert_ne by (unfold NDIRECT; lia). lia.
Qed.

Lemma bmap_direct_ok s v ip i e bn Q E :
  TR (fb s) v → disk_ok (sb s) v → v_held v = ∅ → inodes s !! ip = Some i → i_dev i = ROOTDEV →
  file_ok (sb s) v (addrs i) e → 0 ≤ bn < NDIRECT →
  (slot (v_blk v) (addrs i) bn = 0 → (0 < nfree v (sb s))%nat ∧ (2 ≤ v_room v)%nat) →
  (∀ t v' A', TR t v' → bmapped (sb s) v (addrs i) v' A' bn → file_ok (sb s) v' A' e →
    Q (slot (v_blk v') A' bn) (with_ino t ip (set_addrs A' i) s)) →
  wpe (bmap ip bn) Q E s.
Proof.
  intros HR Hd Hh Hi Hdv Hf Hbn Hroom HQ. unfold bmap, ino. apply wpe_bind, wpe_gets.
  rewrite (list_lookup_total_correct _ _ _ Hi), Hdv, (proj2 (Z.ltb_lt bn NDIRECT)) by lia.
  assert (slot (v_blk v) (addrs i) bn = addrs i !!! Z.to_nat bn) as Hslot.
  { unfold slot. by rewrite (proj2 (Z.ltb_lt bn NDIRECT)) by lia. }
  destruct (Z.eqb_spec (addrs i !!! Z.to_nat bn) 0) as [H0|Hn].
  - destruct Hroom as [Hfr Hroom]; [by rewrite Hslot|]. eapply addr_alloc_ok; [done..|]. intros b0 t v' HR' Ha. apply wpe_ret.
    destruct (grow_addr_mapped (sb s) v v' b0 (addrs i) e bn Ha Hd Hf ltac:(lia) H0) as (Hm & Hf' & Hs'). rewrite <-Hs' at 1. by apply HQ.
  - apply wpe_ret. rewrite <-Hslot in Hn |- *. assert (s = with_fb (fb s) s) as Hs by by destruct s.
    rewrite Hs, (with_ino_addrs _ ip i) by done. apply (HQ (fb s) v (addrs i)); try done. by apply (bmapped_present _ _ _ e).
Qed.

(** The entry of a block in the indirect block. *)
Definition bmap_entry (bn a : Z) : M (fst_ T) Z :=
  bp <- blocks (b_read ROOTDEV a);;
  d <- block_data bp;;
  let a := get_uint (4 * (bn - NDIRECT)) d in
  if a =? 0 then
    a <- balloc ROOTDEV;;
    blocks (b_edit bp (put_int (4 * (bn - NDIRECT)) a));;
    blocks (b_log bp);;
    blocks (b_rel bp);;
    ret a
  else blocks (b_rel bp);; ret a.

(** A file that got a block stored in the indirect block. *)
Lemma grow_indirect_mapped sb v v' b0 A e d k0 :
  allocated sb v v' b0 → disk_ok sb v → file_ok sb v A e → NDIRECT ≤ k0 < MAXFILE → indirect A ≠ 0 → slot (v_blk v) A k0 = 0 →
  v_blk v !! indirect A = Some d → length d = Z.to_nat BSIZE →
  (2 + indirect_cost v A ≤ v_room v)%nat →
  let v2 := v_put (indirect A) (put_int (4 * (k0 - NDIRECT)) b0 d) v' in
  bmapped sb v A v2 A k0 ∧ file_ok sb v2 A e ∧ slot (v_blk v2) A k0 = b0.
Proof.
  intros Ha Hd Hf Hk0 Hi Hs0 Hb Hl Hroom v2.
  pose proof (grow_indirect sb v v' b0 A e d k0 Ha Hd Hf Hk0 Hi Hs0 Hb Hl) as Hg. fold v2 in Hg.
  destruct (fo_own _ _ _ _ Hf MAXFILE) as (_ & _ & _ & Hnb & _); [done|done|]. rewrite slot_indirect in Hnb.
  destruct (al_new _ _ _ _ Ha) as (Hb0 & Hu0 & _). destruct (al_logged _ _ _ _ Ha) as [Hl1 Hl2].
  pose proof (gb_k0 _ _ _ _ _ _ _ Hg) as (_ & _ & Hs). split; [|split; [by apply (gets_block_ok sb v A v2 A k0 b0)|done]].
  assert (v_logged v2 = {[indirect A]} ∪ v_logged v') as Hlog by (unfold v2; by rewrite v_log_logged).
  assert (∀ b, b ≠ indirect A → v_blk v2 !! b = v_blk v' !! b) as Hblk by (intros b Hne; unfold v2; rewrite v_put_blk; by rewrite lookup_insert_ne).
  assert (v_held v2 = v_held v) as Hheld by (unfold v2; rewrite v_put_held; apply Ha).
  assert (nfree v2 sb = nfree v' sb) as Hnf by (by apply nfree_put).
  assert (v_room v2 = if decide (indirect A ∈ v_logged v') then v_room v' else (v_room v' - 1)%nat) as Hrm
    by (unfold v2, v_log; cbn [v_write v_logged]; by case_decide).
  clearbody v2. split; [| | |done| | |intros _; rewrite Hs, Hlog; by apply elem_of_union_r].
  - apply (gets_block_grows sb v A v2 A k0 b0 e); try done; [rewrite Hlog; by apply union_subseteq_r'|].
    intros b Hbr Hu Hnbm Hno. rewrite Hblk; [apply (al_blk _ _ _ _ Ha); [congruence|done]|].
    intros ->. apply Hno. split; [done|]. by exists MAXFILE.
  - eapply gets_block_bytes; [exact Hg| |left; rewrite Hblk; [apply Ha|]].
    + intros k Hk Hn. rewrite Hblk; [eapply allocated_slot; [done..|lia|done]|].
      rewrite <-(slot_indirect (v_blk v)). intros E. apply (fo_inj _ _ _ _ Hf) in E; [lia|lia|done|done].
    + intros E. destruct (fo_own _ _ _ _ Hf MAXFILE) as (_ & Hu & _); [done|done|]. rewrite slot_indirect in Hu. congruence.
  - rewrite Hs. lia.
  - rewrite Hnf, (al_nfree _ _ _ _ Ha). lia.
  - pose proof (al_room _ _ _ _ Ha). unfold indirect_cost in *. rewrite (proj2 (Z.eqb_neq _ _) Hi) in *.
    rewrite decide_True by (rewrite Hlog; by apply elem_of_union_l, elem_of_singleton).
    rewrite Hrm. destruct (decide (indirect A ∈ v_logged v')) as [?|Hno]; [lia|].
    rewrite decide_False in Hroom |- * by (intros Hin; by apply Hno, Hl1). lia.
Qed.

Lemma bmap_entry_ok s v ip i e bn Q E :
  TR (fb s) v → disk_ok (sb s) v → v_held v = ∅ → inodes s !! ip = Some i →
  file_ok (sb s) v (addrs i) e → NDIRECT ≤ bn < MAXFILE → indirect (addrs i) ≠ 0 →
  (slot (v_blk v) (addrs i) bn = 0 → (0 < nfree v (sb s))%nat ∧ (2 + indirect_cost v (addrs i) ≤ v_room v)%nat) →
  (∀ t v', TR t v' → bmapped (sb s) v (addrs i) v' (addrs i) bn → file_ok (sb s) v' (addrs i) e →
    Q (slot (v_blk v') (addrs i) bn) (with_fb t s)) →
  wpe (bmap_entry bn (indirect (addrs i))) Q E s.
Proof.
  intros HR Hd Hh Hi Hf Hbn Hind Hroom HQ. set (A := addrs i) in *.
  destruct (fo_own _ _ _ _ Hf MAXFILE) as (Hr & Hu & Hw & Hnb & _); [done|done|]. rewrite slot_indirect in *.
  destruct (do_blk _ _ Hd (indirect A)) as [d Hbd]; [lia|]. pose proof (bs_len _ _ _ _ HR Hbd) as Hl.
  assert (readable v (indirect A) d) as Hrd.
  { split; [done|]. rewrite Hh. split; [apply lookup_empty|]. rewrite map_size_empty. vm_compute; lia. }
  assert (slot (v_blk v) A bn = get_uint (4 * (bn - NDIRECT)) d) as Hs.
  { by rewrite slot_through, (proj2 (Z.eqb_neq _ _) Hind), Hbd by done. }
  unfold bmap_entry. apply wpe_bind. eapply wp_b_read; [done..|]. intros h t HR1 Hdat. apply wpe_bind, wp_block_data.
  cbn [with_fb fb]. rewrite Hdat, <-Hs. destruct (Z.eqb_spec (slot (v_blk v) A bn) 0) as [H0|Hn].
  - destruct (Hroom H0) as [Hfr Hrm]. apply wpe_bind. eapply balloc_ok; cbn [with_fb fb sb]; [exact HR1|by apply (disk_ok_view _ v)| |done|cbn; lia|].
    { split; [cbn; by rewrite Hh, map_size_insert_None, map_size_empty; [vm_compute; lia|apply lookup_empty]|].
      intros b [x Hx]. cbn in Hx. apply lookup_insert_Some in Hx as [[<- _]|[_ Hx]]; [done|]. by rewrite Hh, lookup_empty in Hx. }
    intros b0 t1 v1 HR2 Ha. destruct (allocated_under _ _ _ _ _ _ Ha) as [Ha' Hv1]; [by rewrite Hh, lookup_empty|].
    rewrite <-Hv1 in HR2. set (v2 := v_drop (indirect A) v1) in *.
    destruct (grow_indirect_mapped (sb s) v v2 b0 A e d bn Ha' Hd Hf Hbn Hind H0 Hbd Hl Hrm) as (Hm & Hf' & Hs').
    assert (v_blk v2 !! indirect A = Some d) as Hbd2.
    { rewrite <-Hbd. apply (al_blk _ _ _ _ Ha'); [|done]. destruct (al_new _ _ _ _ Ha') as (_ & ? & _). congruence. }
    eapply (wp_b_write_then _ v2 (indirect A) h d); cbn [with_fb fb]; [exact HR2| |done| | |].
    + split; [done|]. rewrite (al_held _ _ _ _ Ha'), Hh. split; [apply lookup_empty|]. rewrite map_size_empty. vm_compute; lia.
    + pose proof (al_room _ _ _ _ Ha'). destruct (decide (indirect A ∈ v_logged v)) as [Hin|Hin].
      * left. by apply (al_logged _ _ _ _ Ha').
      * right. unfold indirect_cost in Hrm. rewrite (proj2 (Z.eqb_neq _ _) Hind), decide_False in Hrm by done. lia.
    + rewrite length_put_int; [done|unfold NDIRECT in *; lia|]. rewrite Hl. unfold NDIRECT in *. rewrite maxfile_eq in Hbn. unfold BSIZE. lia.
    + intros t2 HR3. apply wpe_ret. rewrite <-Hs'. by apply HQ.
  - apply wpe_bind. eapply (wp_b_rel _ _ (indirect A)); [exact HR1|cbn; by rewrite lookup_insert_eq|]. intros t1 HR2.
    rewrite v_peek in HR2 by apply Hrd. apply wpe_ret. apply HQ; [done| |done]. by apply (bmapped_present _ _ _ e).
Qed.

(** Taking the indirect block and then the entry is one step of [bmap]. *)
Lemma bmapped_after sb v v1 b0 A e bn v2 A2 :
  allocated sb v v1 b0 → disk_ok sb v → file_ok sb v A e → indirect A = 0 → NDIRECT ≤ bn < MAXFILE →
  bmapped sb v1 (<[Z.to_nat NDIRECT := b0]> A) v2 A2 bn → slot (v_blk v1) (<[Z.to_nat NDIRECT := b0]> A) bn = 0 →
  bmapped sb v A v2 A2 bn.
Proof.
  intros Ha Hd Hf Hi Hbn [M1 M2 M3 M4 M5 M6 M7] Hs1. set (A1 := <[_ := b0]> A) in *.
  destruct (grow_addr_file sb v v1 b0 A e NDIRECT Ha Hd Hf ltac:(done) Hi) as (Hg & Hby & Hf1). fold A1 in Hg, Hby, Hf1.
  assert (indirect A1 = b0) as Hi1.
  { unfold A1. apply list_lookup_total_insert_eq. rewrite (fo_len _ _ _ _ Hf). unfold NDIRECT. lia. }
  destruct (al_new _ _ _ _ Ha) as (Hb0 & _). pose proof (al_room _ _ _ _ Ha) as Hr. pose proof (al_nfree _ _ _ _ Ha) as Hn.
  assert (indirect_missing A1 bn = 0%nat) as E1.
  { unfold indirect_missing. rewrite Hi1, (proj2 (Z.eqb_neq b0 0)) by lia. by rewrite andb_false_r. }
  assert (indirect_missing A bn = 1%nat) as E2.
  { unfold indirect_missing. by rewrite Hi, (proj2 (Z.leb_le NDIRECT bn)) by lia. }
  assert (indirect_cost v1 A1 = 0%nat) as E3.
  { unfold indirect_cost. rewrite Hi1, (proj2 (Z.eqb_neq b0 0)) by lia. rewrite decide_True; [done|apply Ha]. }
  assert (indirect_cost v A = 2%nat) as E4 by (unfold indirect_cost; by rewrite Hi).
  split; try done.
  - by apply (file_grows_trans sb v A v1 A1).
  - intros k Hk. rewrite M2 by done. by apply Hby.
  - intros Hbad. by destruct (slot_needs_indirect (v_blk v) A bn Hbn Hbad).
  - lia.
  - lia.
  - intros _. by apply M7.
Qed.

(** [bmap] returns the number of block [bn] of the file, after giving the
    file that block, full of zeros, when it has none. *)
Lemma bmap_ok s v ip i e bn Q E :
  TR (fb s) v → disk_ok (sb s) v → v_held v = ∅ → inodes s !! ip = Some i → i_dev i = ROOTDEV →
  file_ok (sb s) v (addrs i) e → 0 ≤ bn < MAXFILE →
  (slot (v_blk v) (addrs i) bn = 0 →
    (1 + indirect_missing (addrs i) bn ≤ nfree v (sb s))%nat ∧ (2 + indirect_cost v (addrs i) ≤ v_room v)%nat) →
  (∀ t v' A', TR t v' → bmapped (sb s) v (addrs i) v' A' bn → file_ok (sb s) v' A' e →
    Q (slot (v_blk v') A' bn) (with_ino t ip (set_addrs A' i) s)) →
  wpe (bmap ip bn) Q E s.
Proof.
  intros HR Hd Hh Hi Hdv Hf Hbn Hroom HQ. destruct (decide (bn < NDIRECT)) as [Hlt|Hge].
  { eapply bmap_direct_ok; try done; [lia|]. intros H0. destruct (Hroom H0). lia. }
  unfold bmap. apply wpe_bind. unfold ino at 1. apply wpe_gets. rewrite (list_lookup_total_correct _ _ _ Hi), Hdv.
  rewrite (proj2 (Z.ltb_ge bn NDIRECT)) by lia. rewrite (proj2 (Z.ltb_lt (bn - NDIRECT) NINDIRECT)) by (unfold MAXFILE in *; lia).
  change (wpe (addr <- (if indirect (addrs i) =? 0 then
      a <- balloc ROOTDEV;; upd_ino ip (λ i0, set_addrs (<[Z.to_nat NDIRECT := a]> (addrs i0)) i0);; ret a
    else ret (indirect (addrs i)));; bmap_entry bn addr) Q E s).
  destruct (Z.eqb_spec (indirect (addrs i)) 0) as [H0|Hn].
  - assert (slot (v_blk v) (addrs i) bn = 0) as Hs by (rewrite slot_through, H0 by lia; done).
    destruct (Hroom Hs) as [Hfr Hrm]. unfold indirect_missing in Hfr. unfold indirect_cost in Hrm. rewrite H0 in Hfr, Hrm.
    rewrite (proj2 (Z.leb_le NDIRECT bn)) in Hfr by lia. cbn in Hfr, Hrm.
    apply wpe_bind. eapply addr_alloc_ok; try done; [lia|lia|]. intros b0 t v1 HR1 Ha. apply wpe_ret.
    set (A1 := <[_ := b0]> (addrs i)). destruct (grow_addr_file _ _ _ _ _ _ NDIRECT Ha Hd Hf ltac:(done) H0) as (Hg & _ & Hf1).
    fold A1 in Hg, Hf1. assert (indirect A1 = b0) as Hi1.
    { apply list_lookup_total_insert_eq. rewrite (fo_len _ _ _ _ Hf). unfold NDIRECT. lia. }
    pose proof (gb_slot _ _ _ _ _ _ _ (grow_addr _ _ _ _ _ _ NDIRECT Ha Hf ltac:(done) H0) bn) as Hs1. fold A1 in Hs1.
    rewrite Hs in Hs1. specialize (Hs1 ltac:(lia) ltac:(cbn; unfold NDIRECT, MAXFILE in *; lia)).
    destruct (al_new _ _ _ _ Ha) as (Hb0 & _). pose proof (al_room _ _ _ _ Ha). pose proof (al_nfree _ _ _ _ Ha).
    rewrite <-Hi1. eapply (bmap_entry_ok _ v1 ip (set_addrs A1 i) e); cbn [with_ino fb sb inodes addrs set_addrs]; try done.
    + apply Ha.
    + by rewrite (al_held _ _ _ _ Ha).
    + apply list_lookup_insert_eq. by eapply lookup_lt_Some.
    + lia.
    + lia.
    + intros _. split; [lia|]. unfold indirect_cost. rewrite Hi1, (proj2 (Z.eqb_neq b0 0)) by lia.
      rewrite decide_True by apply Ha. lia.
    + intros t2 v2 HR2 Hm Hf2. apply (HQ t2 v2 A1); [done| |done]. by eapply (bmapped_after _ v v1 b0); try done; lia.
  - apply wpe_bind, wpe_ret. eapply (bmap_entry_ok _ v ip i e); try done; [lia| |].
    + intros Hs. destruct (Hroom Hs). lia.
    + intros t v' HR' Hm Hf'. rewrite (with_ino_addrs _ ip i) by done. by apply HQ.
Qed.

(** ** writei *)

(** Writing [src] to the bytes from [off] on. *)
Definition bytes_written (v : view) (A : list Z) (v' : view) (A' : list Z) (off : Z) (src : list Z) : Prop :=
  ∀ k, 0 ≤ k < MAXFILE * BSIZE →
    fbyte (v_blk v') A' k =
    if (off <=? k) && (k <? off + Z.of_nat (length src)) then src !!! Z.to_nat (k - off) else fbyte (v_blk v) A k.

Lemma lookup_total_splice (off : nat) (l d : list Z) j :
  (off + length l ≤ length d)%nat →
  splice off l d !!! j = if ((off <=? j) && (j <? off + length l))%nat then l !!! (j - off)%nat else d !!! j.
Proof.
  intros H. rewrite !list_lookup_total_alt. destruct (Nat.leb_spec off j), (Nat.ltb_spec j (off + length l)); cbn [andb].
  - by rewrite lookup_splice_in by lia.
  - by rewrite lookup_splice_out by lia.
  - by rewrite lookup_splice_out by lia.
  - by rewrite lookup_splice_out by lia.
Qed.

Lemma lookup_total_app_Z (l1 l2 : list Z) j :
  0 ≤ j < Z.of_nat (length l1 + length l2) →
  (l1 ++ l2) !!! Z.to_nat j = if j <? Z.of_nat (length l1) then l1 !!! Z.to_nat j else l2 !!! Z.to_nat (j - Z.of_nat (length l1)).
Proof.
  intros Hj. destruct (Z.ltb_spec j (Z.of_nat (length l1))); [rewrite lookup_total_app_l; [done|lia]|].
  rewrite lookup_total_app_r by lia. f_equal. lia.
Qed.

Lemma bytes_written_trans v A v1 A1 v2 A2 off l1 l2 :
  0 ≤ off → bytes_written v A v1 A1 off l1 → bytes_written v1 A1 v2 A2 (off + Z.of_nat (length l1)) l2 →
  bytes_written v A v2 A2 off (l1 ++ l2).
Proof.
  intros Ho H1 H2 k Hk. rewrite H2, H1 by done. rewrite length_app.
  destruct (Z.leb_spec off k); cbn [andb].
  2: { rewrite (proj2 (Z.leb_gt _ k)) by lia. done. }
  destruct (Z.leb_spec (off + Z.of_nat (length l1)) k), (Z.ltb_spec k (off + Z.of_nat (length l1))); try lia; cbn [andb].
  - destruct (Z.ltb_spec k (off + Z.of_nat (length l1) + Z.of_nat (length l2))).
    + rewrite (proj2 (Z.ltb_lt k _)), lookup_total_app_Z, (proj2 (Z.ltb_ge _ _)) by lia. f_equal. lia.
    + by rewrite (proj2 (Z.ltb_ge k _)) by lia.
  - rewrite (proj2 (Z.ltb_lt k _)), lookup_total_app_Z, (proj2 (Z.ltb_lt _ _)) by lia. done.
Qed.

(** Writing a block of the file. *)
Lemma put_data sb v A e bn d :
  disk_ok sb v → file_ok sb v A e → 0 ≤ bn < MAXFILE → slot (v_blk v) A bn ≠ 0 →
  let b := slot (v_blk v) A bn in let v' := v_put b d v in
  (∀ k, slot (v_blk v') A k = slot (v_blk v) A k) ∧ grows sb v A v' A ∧ file_ok sb v' A e ∧ nfree v' sb = nfree v sb.
Proof.
  intros Hd Hf Hbn Hn b v'. destruct (fo_own _ _ _ _ Hf bn) as (Hr & Hu & Hw & Hnb & Hni); [lia|done|]. fold b in Hr, Hu, Hw, Hnb, Hni.
  assert (∀ k, slot (v_blk v') A k = slot (v_blk v) A k) as Hs.
  { intros k. apply slot_ext. unfold v'. rewrite v_put_blk, lookup_insert_ne; [done|].
    rewrite <-(slot_indirect (v_blk v)). intros E. apply (fo_inj _ _ _ _ Hf) in E; [lia|lia|done|done]. }
  assert (∀ c, 0 ≤ c < sb_size sb → in_use v' sb c = in_use v sb c) as Hiu by (intros c Hc; by apply in_use_put).
  split_and!; [done| | |by apply nfree_put].
  - split; try done.
    + unfold v'. by rewrite v_put_held.
    + by apply disk_ok_put.
    + intros k Hk H0 H1. by rewrite Hs in H1.
    + intros c Hc. rewrite Hiu by done. split; [by left|]. intros [?|(Hc0 & k & Hk & E)]; [done|]. rewrite Hs in E. subst c.
      by apply (fo_own _ _ _ _ Hf).
    + intros c Hc Huc Hno _. unfold v'. rewrite v_put_blk, lookup_insert_ne; [done|]. intros <-. apply Hno. split; [lia|].
      exists bn. split; [lia|done].
    + unfold v'. rewrite v_log_logged. by apply union_subseteq_r'.
  - destruct Hf as [F1 F2 F3 F4 F5]. split; try done.
    + intros k Hk. rewrite !Hs. intros Hk0. destruct (F3 k Hk Hk0) as (? & ? & ?). rewrite Hiu by lia. done.
    + intros k k' Hk Hk'. rewrite !Hs. auto.
    + intros k Hk. rewrite Hs. auto.
Qed.

Lemma put_data_bytes sb v A e off l d :
  disk_ok sb v → file_ok sb v A e → 0 ≤ off → off / BSIZE < MAXFILE → slot (v_blk v) A (off / BSIZE) ≠ 0 →
  v_blk v !! slot (v_blk v) A (off / BSIZE) = Some d → length d = Z.to_nat BSIZE →
  off mod BSIZE + Z.of_nat (length l) ≤ BSIZE →
  bytes_written v A (v_put (slot (v_blk v) A (off / BSIZE)) (splice (Z.to_nat (off mod BSIZE)) l d) v) A off l.
Proof.
  intros Hd Hf Ho Hlt Hn Hb Hld Hl k Hk. assert (0 ≤ off / BSIZE) by (by apply Z.div_pos).
  destruct (put_data sb v A e (off / BSIZE) (splice (Z.to_nat (off mod BSIZE)) l d) Hd Hf) as (Hs & _); [lia|done|].
  unfold fbyte. rewrite Hs, v_put_blk. unfold BSIZE in *.
  pose proof (Z.div_mod off 512 ltac:(lia)). pose proof (Z.mod_pos_bound off 512 eq_refl).
  pose proof (Z.div_mod k 512 ltac:(lia)). pose proof (Z.mod_pos_bound k 512 eq_refl).
  assert (0 ≤ k / 512 < MAXFILE) by (split; [apply Z.div_pos|apply Z.div_lt_upper_bound]; lia).
  destruct (decide (k / 512 = off / 512)) as [E|Hne].
  - rewrite E, (proj2 (Z.eqb_neq _ _) Hn), lookup_insert_eq, Hb. cbn [default id].
    rewrite lookup_total_splice by lia.
    destruct (Z.leb_spec off k), (Z.ltb_spec k (off + Z.of_nat (length l))),
      (Nat.leb_spec (Z.to_nat (off mod 512)) (Z.to_nat (k mod 512))),
      (Nat.ltb_spec (Z.to_nat (k mod 512)) (Z.to_nat (off mod 512) + length l)); try lia; cbn [andb]; try done.
    f_equal. lia.
  - assert ((off <=? k) && (k <? off + Z.of_nat (length l)) = false) as ->.
    { destruct (Z.leb_spec off k), (Z.ltb_spec k (off + Z.of_nat (length l))); try done. lia. }
    destruct (Z.eqb_spec (slot (v_blk v) A (k / 512)) 0) as [|Hk0]; [done|].
    rewrite lookup_insert_ne; [done|]. intros E. apply (fo_inj _ _ _ _ Hf) in E; [lia|lia|lia|done].
Qed.

(** Blocks that a write of [n] bytes at [off] goes to, and what it costs in
    the log apart from the indirect block and the inode: each of those blocks,
    and a block of the bitmap for each one that is new. *)
Definition touched (off n : Z) : Z := if n <=? 0 then 0 else nblocks (off + n) - off / BSIZE.
Definition write_cost (e off n : Z) : Z := touched off n + (nblocks (Z.max e (off + n)) - nblocks e).

Lemma nblocks_bounds n : n ≤ 512 * nblocks n < n + 512.
Proof.
  unfold nblocks, BSIZE. pose proof (Z.div_mod (n + (512 - 1)) 512 ltac:(lia)).
  pose proof (Z.mod_pos_bound (n + (512 - 1)) 512 eq_refl). lia.
Qed.

Lemma round_len_bounds off n : 0 ≤ off → 0 < n →
  0 < round_len off n ≤ n ∧ off mod BSIZE + round_len off n ≤ BSIZE ∧
  (round_len off n = n ∨ off + round_len off n = BSIZE * (off / BSIZE + 1)).
Proof.
  intros Ho Hn. unfold BSIZE. pose proof (Z.div_mod off 512 ltac:(lia)). pose proof (Z.mod_pos_bound off 512 eq_refl). lia.
Qed.

Lemma write_cost_step e off n :
  0 ≤ off ≤ e → 0 < n → let m := round_len off n in
  write_cost e off n = 1 + (nblocks (Z.max e (off + m)) - nblocks e) + write_cost (Z.max e (off + m)) (off + m) (n - m).
Proof.
  intros Ho Hn m. destruct (round_len_bounds off n ltac:(lia) Hn) as (Hm1 & Hm2 & Hm3). fold m in Hm1, Hm2, Hm3.
  unfold write_cost, touched. rewrite (proj2 (Z.leb_gt n 0)) by lia.
  replace (Z.max (Z.max e (off + m)) (off + m + (n - m))) with (Z.max e (off + n)) by lia.
  replace (off + m + (n - m)) with (off + n) by lia.
  pose proof (nblocks_bounds (off + n)). unfold BSIZE in *.
  pose proof (Z.div_mod off 512 ltac:(lia)). pose proof (Z.mod_pos_bound off 512 eq_refl).
  destruct (Z.leb_spec (n - m) 0).
  - assert (m = n) by lia. replace (off + m) with (off + n) by lia. lia.
  - assert ((off + m) / 512 = off / 512 + 1) as ->; [|lia]. destruct Hm3 as [|E]; [lia|].
    rewrite E, Z.mul_comm, Z.div_mul; lia.
Qed.

(** A block that is not there is the next one of the file. *)
Lemma nblocks_new e off n :
  0 ≤ off ≤ e → 0 < n → nblocks e ≤ off / BSIZE →
  e = off ∧ nblocks e = off / BSIZE ∧ nblocks (Z.max e (off + round_len off n)) = off / BSIZE + 1.
Proof.
  intros Ho Hn Hnew. destruct (round_len_bounds off n ltac:(lia) Hn) as (Hm1 & Hm2 & _). set (m := round_len off n) in *.
  pose proof (nblocks_bounds e). pose proof (nblocks_bounds (Z.max e (off + m))). unfold BSIZE in *.
  pose proof (Z.div_mod off 512 ltac:(lia)). pose proof (Z.mod_pos_bound off 512 eq_refl). lia.
Qed.

Lemma nblocks_mono e e' : e ≤ e' → nblocks e ≤ nblocks e'.
Proof. pose proof (nblocks_bounds e). pose proof (nblocks_bounds e'). lia. Qed.

Lemma nblocks_all_mono e e' : e ≤ e' → nblocks_all e ≤ nblocks_all e'.
Proof.
  intros He%nblocks_mono. unfold nblocks_all. destruct (Z.ltb_spec NDIRECT (nblocks e)), (Z.ltb_spec NDIRECT (nblocks e')); lia.
Qed.

(** What writing [src] at [off] does to a file with blocks for [e] bytes. *)
Record wrote (sb : superblock) (v : view) (A : list Z) (v' : view) (A' : list Z) (e off : Z) (src : list Z) : Prop := {
  wr_grows : grows sb v A v' A';
  wr_bytes : bytes_written v A v' A' off src;
  wr_file : file_ok sb v' A' (Z.max e (off + Z.of_nat (length src)));
  wr_same : off + Z.of_nat (length src) ≤ e → A' = A;
  wr_nfree : Z.of_nat (nfree v sb) ≤
    Z.of_nat (nfree v' sb) + (nblocks_all (Z.max e (off + Z.of_nat (length src))) - nblocks_all e);
  wr_room : Z.of_nat (v_room v + indirect_cost v' A') ≤
    Z.of_nat (v_room v' + indirect_cost v A) + write_cost e off (Z.of_nat (length src));
}.

Lemma wrote_trans sb v A v1 A1 v2 A2 e off l1 l2 :
  0 ≤ off ≤ e → wrote sb v A v1 A1 e off l1 →
  wrote sb v1 A1 v2 A2 (Z.max e (off + Z.of_nat (length l1))) (off + Z.of_nat (length l1)) l2 →
  write_cost e off (Z.of_nat (length l1)) +
    write_cost (Z.max e (off + Z.of_nat (length l1))) (off + Z.of_nat (length l1)) (Z.of_nat (length l2)) =
  write_cost e off (Z.of_nat (length (l1 ++ l2))) →
  wrote sb v A v2 A2 e off (l1 ++ l2).
Proof.
  intros Ho [W1 W2 W3 W4 W5 W6] [X1 X2 X3 X4 X5 X6] Hc. set (e1 := Z.max e (off + Z.of_nat (length l1))) in *.
  assert (Z.max e (off + Z.of_nat (length (l1 ++ l2))) = Z.max e1 (off + Z.of_nat (length l1) + Z.of_nat (length l2))) as He
    by (rewrite length_app; lia).
  split.
  - by apply (file_grows_trans sb v A v1 A1).
  - apply (bytes_written_trans v A v1 A1); [lia|done|done].
  - by rewrite He.
  - rewrite length_app. intros Hle. rewrite X4, W4; [done|lia|unfold e1; lia].
  - rewrite He. lia.
  - lia.
Qed.

(** With blocks for more bytes. *)
Lemma file_ok_more sb v A e off n :
  file_ok sb v A e → 0 ≤ off ≤ e → 0 < n → off + n ≤ MAXFILE * BSIZE →
  slot (v_blk v) A (off / BSIZE) ≠ 0 → file_ok sb v A (Z.max e (off + round_len off n)).
Proof.
  intros [F1 F2 F3 F4 F5] Ho Hn Hmax Hs. destruct (round_len_bounds off n ltac:(lia) Hn) as (Hm1 & Hm2 & Hm3).
  split; try done; [lia|]. intros k Hk. destruct (decide (k < nblocks e)) as [|Hge]; [apply F5; lia|].
  assert (k = off / BSIZE) as ->; [|done]. pose proof (nblocks_lt k e). pose proof (nblocks_lt k (Z.max e (off + round_len off n))) as Hlt.
  unfold BSIZE in *. pose proof (Z.div_mod off 512 ltac:(lia)). pose proof (Z.mod_pos_bound off 512 eq_refl). lia.
Qed.

(** The blocks a write needs are there to be taken. *)
Lemma step_needs sb v A e off n :
  file_ok sb v A e → 0 ≤ off ≤ e → 0 < n → off / BSIZE < MAXFILE → slot (v_blk v) A (off / BSIZE) = 0 →
  nblocks (Z.max e (off + round_len off n)) = nblocks e + 1 ∧
  1 + Z.of_nat (indirect_missing A (off / BSIZE)) ≤ nblocks_all (Z.max e (off + round_len off n)) - nblocks_all e.
Proof.
  intros Hf Ho Hn Hmax H0. assert (0 ≤ off / BSIZE) by (apply Z.div_pos; [lia|done]).
  assert (nblocks e ≤ off / BSIZE) as Hnew.
  { destruct (decide (nblocks e ≤ off / BSIZE)); [done|]. destruct (fo_full _ _ _ _ Hf (off / BSIZE)); [lia|done]. }
  destruct (nblocks_new e off n Ho Hn Hnew) as (E1 & E2 & E3). split; [lia|].
  unfold nblocks_all. rewrite E3, E2. unfold indirect_missing.
  destruct (Z.leb_spec NDIRECT (off / BSIZE)), (Z.eqb_spec (indirect A) 0) as [Hi|Hi]; cbn [andb];
    destruct (Z.ltb_spec NDIRECT (off / BSIZE + 1)), (Z.ltb_spec NDIRECT (off / BSIZE)); try lia.
  destruct (slot_needs_indirect (v_blk v) A NDIRECT); [done| |done]. apply (fo_full _ _ _ _ Hf). unfold NDIRECT in *. lia.
Qed.

(** One round of the loop of [writei], in terms of [bmap] and the write. *)
Lemma wrote_round sb v A v1 A1 e off n d src :
  file_ok sb v A e → 0 ≤ off ≤ e → 0 < n → off + n ≤ MAXFILE * BSIZE → off / BSIZE < MAXFILE →
  bmapped sb v A v1 A1 (off / BSIZE) → file_ok sb v1 A1 e →
  v_blk v1 !! slot (v_blk v1) A1 (off / BSIZE) = Some d → length d = Z.to_nat BSIZE →
  Z.of_nat (length src) = round_len off n → (slot (v_blk v) A (off / BSIZE) ≠ 0 → (1 ≤ v_room v)%nat) →
  wrote sb v A (v_put (slot (v_blk v1) A1 (off / BSIZE)) (splice (Z.to_nat (off mod BSIZE)) src d) v1) A1 e off src.
Proof.
  intros Hf Ho Hn Hmax Hbn Hm Hf1 Hb Hld Hl Hr1. destruct (round_len_bounds off n ltac:(lia) Hn) as (Hm1 & Hm2 & Hm3).
  pose proof (g_disk _ _ _ _ _ (bm_grows _ _ _ _ _ _ Hm)) as Hd1. assert (0 ≤ off / BSIZE) by (apply Z.div_pos; [lia|done]).
  pose proof (bm_slot _ _ _ _ _ _ Hm) as Hs1. set (b := slot (v_blk v1) A1 (off / BSIZE)) in *.
  set (d' := splice (Z.to_nat (off mod BSIZE)) src d).
  destruct (put_data sb v1 A1 e (off / BSIZE) d' Hd1 Hf1 ltac:(lia) Hs1) as (Hs & Hg & Hf2 & Hnf). fold b in Hs, Hg, Hf2, Hnf.
  pose proof (put_data_bytes sb v1 A1 e off src d Hd1 Hf1 ltac:(lia) Hbn Hs1 Hb Hld ltac:(lia)) as Hw. fold b d' in Hw.
  pose proof (indirect_cost_mono v1 (v_put b d' v1) A1 (g_logged _ _ _ _ _ Hg)) as Hc.
  assert (write_cost e off (Z.of_nat (length src)) = 1 + (nblocks (Z.max e (off + round_len off n)) - nblocks e)) as Hwc.
  { rewrite Hl. rewrite write_cost_step by lia. replace (round_len off (round_len off n)) with (round_len off n) by lia.
    unfold write_cost, touched. rewrite (proj2 (Z.leb_le _ 0)) by lia.
    replace (Z.max (Z.max e (off + round_len off n)) (off + round_len off n + (round_len off n - round_len off n)))
      with (Z.max e (off + round_len off n)) by lia. lia. }
  assert (nblocks_all e ≤ nblocks_all (Z.max e (off + round_len off n)) ∧ nblocks e ≤ nblocks (Z.max e (off + round_len off n))) as [Ha Hn1].
  { split; [apply nblocks_all_mono|apply nblocks_mono]; lia. }
  split; rewrite ?Hl.
  - by apply (file_grows_trans sb v A v1 A1); [apply Hm|].
  - intros k Hk. rewrite Hw by done. case_match; [done|]. by apply (bm_bytes _ _ _ _ _ _ Hm).
  - apply file_ok_more; try done. by rewrite Hs.
  - intros Hle. destruct (bm_same _ _ _ _ _ _ Hm) as [_ ->]; [|done]. apply (fo_full _ _ _ _ Hf). split; [done|].
    apply nblocks_lt. unfold BSIZE in *. pose proof (Z.div_mod off 512 ltac:(lia)). pose proof (Z.mod_pos_bound off 512 eq_refl). lia.
  - rewrite Hnf. destruct (decide (slot (v_blk v) A (off / BSIZE) = 0)) as [E|E].
    + destruct (step_needs sb v A e off n Hf Ho Hn Hbn E). pose proof (bm_nfree _ _ _ _ _ _ Hm). lia.
    + destruct (bm_same _ _ _ _ _ _ Hm E) as [-> ->]. lia.
  - rewrite <-Hl, Hwc. destruct (decide (slot (v_blk v) A (off / BSIZE) = 0)) as [E|E].
    + destruct (step_needs sb v A e off n Hf Ho Hn Hbn E). pose proof (bm_room _ _ _ _ _ _ Hm). pose proof (bm_new _ _ _ _ _ _ Hm E) as Hin.
      fold b in Hin. assert (v_room (v_put b d' v1) = v_room v1) as -> by (unfold v_log; by rewrite decide_True). lia.
    + destruct (bm_same _ _ _ _ _ _ Hm E) as [-> ->]. specialize (Hr1 E).
      assert (v_room v ≤ v_room (v_put b d' v) + 1)%nat by (unfold v_log; case_decide; cbn; lia). lia.
Qed.

Lemma wrote_nil sb v A e off : disk_ok sb v → file_ok sb v A e → off ≤ e → wrote sb v A v A e off [].
Proof.
  intros Hd Hf Ho. assert (Z.max e (off + Z.of_nat (length (@nil Z))) = e) as He by (cbn; lia). split; rewrite ?He; try done.
  - by apply (file_grows_refl _ _ _ e).
  - intros k Hk. cbn [length]. destruct (Z.leb_spec off k), (Z.ltb_spec k (off + Z.of_nat 0)); try done. lia.
  - lia.
  - unfold write_cost, touched. rewrite He. cbn [length]. rewrite Z.leb_refl. lia.
Qed.

Lemma with_ino_with_ino t t' ip i i' s : with_ino t' ip i' (with_ino t ip i s) = with_ino t' ip i' s.
Proof. unfold with_ino. cbn. by rewrite list_insert_insert_eq. Qed.

Lemma readable_quiet v b d : v_held v = ∅ → v_blk v !! b = Some d → readable v b d.
Proof. intros Hh Hb. unfold readable. rewrite Hh, lookup_empty, map_size_empty. split_and!; [done..|vm_compute; lia]. Qed.

Lemma write_cost_nonneg e off n : 0 ≤ write_cost e off n.
Proof.
  unfold write_cost, touched. pose proof (nblocks_mono e (Z.max e (off + n)) ltac:(lia)).
  destruct (Z.leb_spec n 0); [lia|]. pose proof (nblocks_bounds (off + n)).
  pose proof (Z.div_mod off BSIZE ltac:(done)). pose proof (Z.mod_pos_bound off BSIZE eq_refl). unfold BSIZE in *. lia.
Qed.

(** A write that stays in one block. *)
Lemma write_cost_round e off n :
  0 ≤ off ≤ e → 0 < n → let m := round_len off n in
  write_cost e off m = 1 + (nblocks (Z.max e (off + m)) - nblocks e) ∧
  write_cost e off n = write_cost e off m + write_cost (Z.max e (off + m)) (off + m) (n - m).
Proof.
  intros Ho Hn m. destruct (round_len_bounds off n ltac:(lia) Hn) as (Hm1 & _). fold m in Hm1.
  assert (write_cost e off m = 1 + (nblocks (Z.max e (off + m)) - nblocks e)) as Hwc.
  { rewrite write_cost_step by lia. replace (round_len off m) with m by lia. rewrite Z.sub_diag.
    unfold write_cost, touched. rewrite Z.leb_refl, Z.add_0_r.
    replace (Z.max (Z.max e (off + m)) (off + m)) with (Z.max e (off + m)) by lia. lia. }
  split; [done|]. rewrite Hwc. by apply write_cost_step.
Qed.

(** One round of the loop: [src] is what goes to the block at [off]. *)
Lemma writei_round_ok {B} s v ip i e src off n (k : M (fst_ T) B) Q E :
  TR (fb s) v → disk_ok (sb s) v → v_held v = ∅ → inodes s !! ip = Some i → i_dev i = ROOTDEV →
  file_ok (sb s) v (addrs i) e → 0 ≤ off ≤ e → 0 < n → off + n ≤ MAXFILE * BSIZE →
  Z.of_nat (length src) = round_len off n →
  nblocks_all (Z.max e (off + round_len off n)) - nblocks_all e ≤ Z.of_nat (nfree v (sb s)) →
  write_cost e off (round_len off n) + Z.of_nat (indirect_cost v (addrs i)) ≤ Z.of_nat (v_room v) →
  (∀ t v' A', TR t v' → wrote (sb s) v (addrs i) v' A' e off src → wpe k Q E (with_ino t ip (set_addrs A' i) s)) →
  wpe (addr <- bmap ip (off / BSIZE);; bp <- blocks (b_read ROOTDEV addr);;
       blocks (b_edit bp (splice (Z.to_nat (off mod BSIZE)) src));; blocks (b_log bp);; blocks (b_rel bp);; k) Q E s.
Proof.
  intros HR Hd Hh Hi Hdv Hf Ho Hn Hmax Hl Hnf Hroom HQ. destruct (round_len_bounds off n ltac:(lia) Hn) as (Hm1 & Hm2 & _).
  assert (0 ≤ off / BSIZE < MAXFILE) as Hbn.
  { split; [apply Z.div_pos; [lia|done]|]. apply Z.div_lt_upper_bound; [done|]. unfold BSIZE in *. lia. }
  destruct (write_cost_round e off n Ho Hn) as [Hwc _]. set (m := round_len off n) in *.
  pose proof (nblocks_mono e (Z.max e (off + m)) ltac:(lia)) as Hmono.
  apply wpe_bind. eapply (bmap_ok s v ip i e); try done.
  { intros H0. destruct (step_needs _ _ _ _ _ n Hf Ho Hn (proj2 Hbn) H0) as [N1 N2]. fold m in N1, N2. lia. }
  intros t v1 A1 HR1 Hm Hf1. set (b := slot (v_blk v1) A1 (off / BSIZE)).
  pose proof (bm_slot _ _ _ _ _ _ Hm) as Hs1. destruct (fo_own _ _ _ _ Hf1 (off / BSIZE) ltac:(lia) Hs1) as (Hb1 & _ & Hbw & _).
  destruct (do_blk _ _ (g_disk _ _ _ _ _ (bm_grows _ _ _ _ _ _ Hm)) b) as [d Hbd]; [unfold b; lia|].
  pose proof (bs_len _ _ _ _ HR1 Hbd) as Hld.
  assert (readable v1 b d) as Hrd.
  { apply readable_quiet; [|done]. by rewrite (g_held _ _ _ _ _ (bm_grows _ _ _ _ _ _ Hm)). }
  assert (slot (v_blk v) (addrs i) (off / BSIZE) ≠ 0 → (1 ≤ v_room v)%nat) as Hr1 by lia.
  apply wpe_bind. eapply wp_b_read; [exact HR1|exact Hrd|]. intros h t1 HR2 _.
  eapply (wp_b_write_then _ v1 b h d); cbn [with_fb with_ino fb]; [exact HR2|done|done| | |].
  - destruct (decide (slot (v_blk v) (addrs i) (off / BSIZE) = 0)) as [E0|E0].
    + left. by apply (bm_new _ _ _ _ _ _ Hm).
    + right. destruct (bm_same _ _ _ _ _ _ Hm E0) as [-> _]. by apply Hr1.
  - rewrite length_splice; [done|]. rewrite Hld. unfold BSIZE in *. pose proof (Z.mod_pos_bound off 512 eq_refl). lia.
  - intros t2 HR3. eapply HQ; [exact HR3|]. apply (wrote_round _ _ _ _ _ _ _ n); try done. apply Hbn.
Qed.

Lemma writei_loop_ok fuel : ∀ s v ip i e src off Q E,
  TR (fb s) v → disk_ok (sb s) v → v_held v = ∅ → inodes s !! ip = Some i → i_dev i = ROOTDEV →
  file_ok (sb s) v (addrs i) e → 0 ≤ off ≤ e → off + Z.of_nat (length src) ≤ MAXFILE * BSIZE → (length src < fuel)%nat →
  nblocks_all (Z.max e (off + Z.of_nat (length src))) - nblocks_all e ≤ Z.of_nat (nfree v (sb s)) →
  write_cost e off (Z.of_nat (length src)) + Z.of_nat (indirect_cost v (addrs i)) ≤ Z.of_nat (v_room v) →
  (∀ t v' A', TR t v' → wrote (sb s) v (addrs i) v' A' e off src →
    Q (off + Z.of_nat (length src)) (with_ino t ip (set_addrs A' i) s)) →
  wpe (writei_loop fuel ip src off (Z.of_nat (length src))) Q E s.
Proof.
  induction fuel as [|fuel IH]; intros s v ip i e src off Q E HR Hd Hh Hi Hdv Hf Ho Hmax Hfuel Hnf Hroom HQ; [lia|].
  cbn [writei_loop]. destruct (Z.leb_spec (Z.of_nat (length src)) 0) as [Hle|Hpos].
  { destruct src; [|cbn in Hle; lia]. apply wpe_ret. assert (s = with_fb (fb s) s) as Hs by by destruct s.
    rewrite Hs, (with_ino_addrs _ ip i) by done. cbn [length] in HQ. rewrite Z.add_0_r in HQ.
    apply (HQ (fb s) v (addrs i)); [done|]. apply wrote_nil; [done..|lia]. }
  set (n := Z.of_nat (length src)) in *. destruct (round_len_bounds off n ltac:(lia) Hpos) as (Hm1 & _).
  destruct (write_cost_round e off n Ho Hpos) as [_ Hwc]. set (m := round_len off n) in *.
  pose proof (write_cost_nonneg (Z.max e (off + m)) (off + m) (n - m)).
  pose proof (nblocks_all_mono (Z.max e (off + m)) (Z.max e (off + n)) ltac:(lia)).
  assert (Z.of_nat (length (take (Z.to_nat m) src)) = m) as Hlt by (rewrite length_take; lia).
  assert (n - m = Z.of_nat (length (drop (Z.to_nat m) src))) as Hldr by (rewrite length_drop; lia).
  apply wpe_bind. unfold ino at 1. apply wpe_gets. rewrite (list_lookup_total_correct _ _ _ Hi), Hdv.
  eapply (writei_round_ok s v ip i e (take (Z.to_nat m) src) off n); try done; [fold m; lia|fold m; lia|].
  intros t v1 A1 HR1 [W1 W2 W3 W4 W5 W6]. rewrite u32_small by (unfold BSIZE in *; rewrite maxfile_eq in Hmax; lia).
  rewrite Hldr. eapply (IH _ v1 ip (set_addrs A1 i) (Z.max e (off + m))); cbn [with_ino fb sb inodes addrs set_addrs i_dev].
  - done.
  - apply W1.
  - by rewrite (g_held _ _ _ _ _ W1).
  - apply list_lookup_insert_eq. by eapply lookup_lt_Some.
  - done.
  - by rewrite Hlt in W3.
  - lia.
  - rewrite <-Hldr. lia.
  - lia.
  - rewrite <-Hldr. replace (Z.max (Z.max e (off + m)) (off + m + (n - m))) with (Z.max e (off + n)) by lia. rewrite Hlt in W5. lia.
  - rewrite <-Hldr. rewrite Hlt in W6. lia.
  - intros t2 v2 A2 HR2 Hw2. rewrite <-Hldr. replace (off + m + (n - m)) with (off + n) by lia. rewrite with_ino_with_ino.
    apply (HQ t2 v2 A2); [done|]. rewrite <-(take_drop (Z.to_nat m) src). rewrite <-Hlt in Hw2 at 1.
    apply (wrote_trans _ _ _ v1 A1); [done|done|by rewrite Hlt in *|]. rewrite take_drop. fold n. rewrite Hlt, <-Hldr. lia.
Qed.

(** ** The rest of the disk *)

Definition disjoint_files (v : view) (A A2 : list Z) : Prop := ∀ b, owns (v_blk v) A2 b → ¬ owns (v_blk v) A b.

(** A file whose blocks did not change. *)
Lemma file_ok_frame sb v v' A e :
  file_ok sb v A e → (∀ b, owns (v_blk v) A b → v_blk v' !! b = v_blk v !! b) →
  (∀ b, owns (v_blk v) A b → in_use v' sb b = true) →
  (∀ k, 0 ≤ k ≤ MAXFILE → slot (v_blk v') A k = slot (v_blk v) A k) ∧ file_ok sb v' A e ∧ same_bytes v A v' A.
Proof.
  intros [F1 F2 F3 F4 F5] Hblk Hu. pose proof (nblocks_max e (proj2 F2)) as Hnb.
  assert (∀ k, 0 ≤ k ≤ MAXFILE → slot (v_blk v') A k = slot (v_blk v) A k) as Hs.
  { intros k Hk. destruct (decide (indirect A = 0)) as [E|E].
    - unfold slot. by rewrite E.
    - apply slot_ext, Hblk. split; [done|]. by exists MAXFILE. }
  split; [done|]. split.
  - split; try done.
    + intros k Hk. rewrite Hs by done. intros Hn. destruct (F3 k Hk Hn) as (G1 & G2 & G3). split; [done|]. split; [apply Hu; split; [done|by exists k]|done].
    + intros k k' Hk Hk'. rewrite !Hs by done. auto.
    + intros k Hk. rewrite Hs by lia. auto.
  - intros k Hk. unfold fbyte.
    assert (0 ≤ k / BSIZE < MAXFILE) by (split; [apply Z.div_pos|apply Z.div_lt_upper_bound]; unfold BSIZE in *; lia).
    rewrite Hs by lia. destruct (Z.eqb_spec (slot (v_blk v) A (k / BSIZE)) 0) as [|Hn]; [done|].
    rewrite Hblk; [done|]. split; [done|]. exists (k / BSIZE). split; [lia|done].
Qed.

(** Other files do not notice. *)
Lemma grows_other sb v A v' A' A2 e2 :
  grows sb v A v' A' → file_ok sb v A2 e2 → disjoint_files v A A2 →
  file_ok sb v' A2 e2 ∧ same_bytes v A2 v' A2 ∧ disjoint_files v' A' A2 ∧
  (∀ k, 0 ≤ k ≤ MAXFILE → slot (v_blk v') A2 k = slot (v_blk v) A2 k).
Proof.
  intros Hg Hf Hdis. destruct (file_ok_frame sb v v' A2 e2 Hf) as (Hs & Hf' & Hby).
  - intros b Hb. pose proof (Hdis b Hb) as Hno. destruct Hb as (H0 & k & Hk & <-).
    destruct (fo_own _ _ _ _ Hf k Hk H0) as (H1 & H2 & _ & H3 & _). apply (g_frame _ _ _ _ _ Hg); [lia|done..].
  - intros b (H0 & k & Hk & <-). destruct (fo_own _ _ _ _ Hf k Hk H0) as (H1 & H2 & _). apply (g_use _ _ _ _ _ Hg); [lia|by left].
  - split; [done|]. split; [done|]. split; [|done]. intros b (H0 & k & Hk & <-) (_ & k' & Hk' & E). rewrite Hs in * by done.
    destruct (fo_own _ _ _ _ Hf k Hk H0) as (_ & H2 & _). destruct (decide (slot (v_blk v) A k' = 0)) as [E0|E0].
    + destruct (g_fresh _ _ _ _ _ Hg k' Hk' E0) as [_ Hu]; congruence.
    + rewrite (g_keep _ _ _ _ _ Hg k' Hk' E0) in E. apply (Hdis (slot (v_blk v) A2 k)); (split; [done|]); [by exists k|by exists k'].
Qed.

(** Nor do the inodes on disk. *)
Lemma grows_inodes sb v A v' A' e n j :
  grows sb v A v' A' → disk_ok sb v → file_ok sb v A e → 0 ≤ n < sb_ninodes sb → disk_inode v' sb n j = disk_inode v sb n j.
Proof.
  intros Hg Hd Hf Hn. assert (inode_block sb (IBLOCK n sb)) as Hib by by exists n. unfold disk_inode.
  destruct (do_meta _ _ Hd (IBLOCK n sb)) as (H1 & H2 & _); [by right|].
  rewrite (g_frame _ _ _ _ _ Hg); [done|done|done| |].
  - intros (H0 & k & Hk & E). rewrite <-E in H0. destruct (fo_own _ _ _ _ Hf k Hk H0) as (_ & _ & _ & _ & Hno). by rewrite E in Hno.
  - intros Hb. by apply (do_apart _ _ Hd (IBLOCK n sb)).
Qed.

(** Writing an inode. *)
Lemma put_inode_block sb v b d :
  disk_ok sb v → inode_block sb b → let v' := v_put b d v in
  disk_ok sb v' ∧ (∀ c, 0 ≤ c < sb_size sb → in_use v' sb c = in_use v sb c) ∧
  (∀ A e, file_ok sb v A e → (∀ k, 0 ≤ k ≤ MAXFILE → slot (v_blk v') A k = slot (v_blk v) A k) ∧
     file_ok sb v' A e ∧ same_bytes v A v' A).
Proof.
  intros Hd Hib v'. assert (¬ bitmap_block sb b) as Hnb by (intros Hb; by apply (do_apart _ _ Hd b)).
  split; [by apply disk_ok_put|]. split; [intros c Hc; by apply in_use_put|]. intros A e Hf. apply file_ok_frame; [done| |].
  - intros c (H0 & k & Hk & <-). destruct (fo_own _ _ _ _ Hf k Hk H0) as (_ & _ & _ & _ & Hni).
    unfold v'. rewrite v_put_blk, lookup_insert_ne; [done|]. by intros ->.
  - intros c (H0 & k & Hk & <-). destruct (fo_own _ _ _ _ Hf k Hk H0) as (H1 & H2 & _). unfold v'. rewrite in_use_put; [done|done|lia].
Qed.

(** ** Files in the inode cache *)

(** Inode [ip] of the cache is file [i] of the disk [v], and up to date there. *)
Record file_at s (v : view) (ip : nat) (i : inode) : Prop := {
  fa_blocks : TR (fb s) v;
  fa_held : v_held v = ∅;
  fa_disk : disk_ok (sb s) v;
  fa_ino : inodes s !! ip = Some i;
  fa_dev : i_dev i = ROOTDEV;
  fa_type : i_type i ≠ T_DEV;
  fa_inum : 0 ≤ inum i < sb_ninodes (sb s);
  fa_dinode : dinode_ok i;
  fa_file : file_ok (sb s) v (addrs i) (i_size i);
  fa_sync j : disk_inode v (sb s) (inum i) j =
    mk_inode (i_dev j) (inum j) (ref j) (i_lock j) (valid j) (i_type i) (major i) (minor i) (nlink i) (i_size i) (addrs i);
}.

Definition file_contents (v : view) (i : inode) : list Z := contents (v_blk v) (addrs i) (i_size i).

(** [src] written over [b] from [off] on. *)
Definition overwrite (b : list Z) (off : Z) (src : list Z) : list Z :=
  take (Z.to_nat off) b ++ src ++ drop (Z.to_nat off + length src) b.

Lemma lookup_total_contents blk A sz k : 0 ≤ k < sz → contents blk A sz !! Z.to_nat k = Some (fbyte blk A k).
Proof.
  intros Hk. unfold contents. rewrite list_lookup_fmap, lookup_seqZ_lt by lia. cbn. do 2 f_equal. lia.
Qed.

Lemma length_contents blk A sz : length (contents blk A sz) = Z.to_nat sz.
Proof. unfold contents. by rewrite length_fmap, length_seqZ. Qed.

Lemma contents_written v A v' A' sz off src :
  bytes_written v A v' A' off src → 0 ≤ off ≤ sz → Z.max sz (off + Z.of_nat (length src)) ≤ MAXFILE * BSIZE →
  contents (v_blk v') A' (Z.max sz (off + Z.of_nat (length src))) = overwrite (contents (v_blk v) A sz) off src.
Proof.
  intros Hw Ho Hmax. apply list_eq. intros k. unfold overwrite.
  destruct (decide (Z.of_nat k < Z.max sz (off + Z.of_nat (length src)))) as [Hk|Hk].
  2: { rewrite !lookup_ge_None_2; [done|rewrite !length_app, length_take, length_drop, length_contents; lia|rewrite length_contents; lia]. }
  rewrite <-(Nat2Z.id k) at 1. rewrite lookup_total_contents, Hw by lia.
  destruct (Z.leb_spec off (Z.of_nat k)) as [H1|H1]; cbn [andb].
  - rewrite lookup_app_r by (rewrite length_take, length_contents; lia). rewrite length_take, length_contents, Nat.min_l by lia.
    destruct (Z.ltb_spec (Z.of_nat k) (off + Z.of_nat (length src))) as [H2|H2].
    + rewrite lookup_app_l by lia. rewrite list_lookup_lookup_total_lt by lia. do 2 f_equal. lia.
    + rewrite lookup_app_r, lookup_drop by lia.
      rewrite <-lookup_total_contents with (sz := sz) by lia. f_equal. lia.
  - rewrite lookup_app_l, lookup_take_lt by (rewrite ?length_take, ?length_contents; lia).
    rewrite <-lookup_total_contents with (sz := sz) by lia. f_equal. lia.
Qed.

(** What a successful [writei] leaves: the file with [src] in place, in memory
    and on disk; nothing in use that was not or does not belong to the file;
    every other file and every other inode as it was. *)
Record writei_done s (v : view) (ip : nat) (i : inode) (off : Z) (src : list Z) s' (v' : view) (i' : inode) : Prop := {
  wd_at : file_at s' v' ip i';
  wd_rest : sb s' = sb s ∧ ic_lock s' = ic_lock s ∧ inodes s' = <[ip := i']> (inodes s);
  wd_inode : i' = set_isize (Z.max (i_size i) (off + Z.of_nat (length src))) (set_addrs (addrs i') i);
  wd_contents : file_contents v' i' = overwrite (file_contents v i) off src;
  wd_use b : 0 ≤ b < sb_size (sb s) →
    in_use v' (sb s) b = true ↔ in_use v (sb s) b = true ∨ owns (v_blk v') (addrs i') b;
  wd_files A2 e2 : file_ok (sb s) v A2 e2 → disjoint_files v (addrs i) A2 →
    file_ok (sb s) v' A2 e2 ∧ contents (v_blk v') A2 e2 = contents (v_blk v) A2 e2 ∧ disjoint_files v' (addrs i') A2;
  wd_inodes n j : 0 ≤ n < sb_ninodes (sb s) → n ≠ inum i → disk_inode v' (sb s) n j = disk_inode v (sb s) n j;
}.

Lemma same_bytes_contents v A v' A' sz :
  same_bytes v A v' A' → sz ≤ MAXFILE * BSIZE → contents (v_blk v') A' sz = contents (v_blk v) A sz.
Proof. intros Hby Hsz. unfold contents. apply list_fmap_ext. intros k x Hx%list_elem_of_lookup_2%elem_of_seqZ. apply Hby. lia. Qed.

Lemma dinode_ok_new sb v i A sz :
  dinode_ok i → disk_ok sb v → file_ok sb v A sz → dinode_ok (set_isize sz (set_addrs A i)).
Proof.
  intros (H1 & _) Hd Hf. split; [done|]. cbn. pose proof (fo_max _ _ _ _ Hf) as Hm. rewrite maxfile_eq in Hm. unfold BSIZE in Hm.
  split; [lia|]. split; [apply Hf|]. apply Forall_lookup. intros k x Hx. pose proof (lookup_lt_Some _ _ _ Hx) as Hk.
  rewrite (fo_len _ _ _ _ Hf) in Hk. destruct (decide (x = 0)) as [->|Hx0]; [lia|].
  assert (slot (v_blk v) A (addr_slot (Z.of_nat k)) = x) as E.
  { apply list_lookup_total_correct in Hx. unfold addr_slot, slot, NDIRECT. rewrite maxfile_eq. destruct (Z.eqb_spec (Z.of_nat k) 12).
    - replace k with 12%nat in Hx by lia. done.
    - rewrite (proj2 (Z.ltb_lt _ 12)) by lia. by rewrite Nat2Z.id. }
  destruct (fo_own _ _ _ _ Hf (addr_slot (Z.of_nat k))) as (Hr & _).
  - unfold addr_slot, NDIRECT. rewrite maxfile_eq. destruct (Z.of_nat k =? 12); lia.
  - by rewrite E.
  - rewrite E in Hr. pose proof (do_size _ _ Hd). lia.
Qed.

(** When the file has not grown, its inode is not written. *)
Lemma writei_done_same s v ip i off src t v' A' :
  file_at s v ip i → TR t v' → wrote (sb s) v (addrs i) v' A' (i_size i) off src → 0 ≤ off →
  off + Z.of_nat (length src) ≤ i_size i →
  writei_done s v ip i off src (with_ino t ip (set_addrs A' i) s) v' i.
Proof.
  intros [F1 F2 F3 F4 F5 F6 F7 F8 F9 F10] HR Hw Ho Hle. pose proof (wr_same _ _ _ _ _ _ _ _ Hw Hle) as ->.
  assert (set_addrs (addrs i) i = i) as -> by by destruct i. destruct Hw as [W1 W2 W3 _ _ _].
  assert (Z.max (i_size i) (off + Z.of_nat (length src)) = i_size i) as Hmx by lia. rewrite Hmx in W3.
  pose proof (fo_max _ _ _ _ F9) as Hmax. split; try done.
  - split; try done; cbn [with_ino fb sb inodes].
    + by rewrite (g_held _ _ _ _ _ W1).
    + apply W1.
    + apply list_lookup_insert_eq. by eapply lookup_lt_Some.
    + intros j. by rewrite (grows_inodes _ _ _ _ _ _ _ _ W1 F3 F9).
  - rewrite Hmx. by destruct i.
  - unfold file_contents. rewrite <-Hmx at 1. apply contents_written; [done|lia|lia].
  - intros b Hb. by apply (g_use _ _ _ _ _ W1).
  - intros A2 e2 H1 H2. destruct (grows_other _ _ _ _ _ _ _ W1 H1 H2) as (G1 & G2 & G3 & _). split; [done|]. split; [|done].
    apply same_bytes_contents; [done|]. apply (fo_max _ _ _ _ H1).
  - intros n j Hn _. by apply (grows_inodes _ _ _ _ _ _ _ _ W1 F3 F9).
Qed.

(** When it has, it is. *)
Lemma writei_done_grown s v ip i off src t v' A' d :
  file_at s v ip i → wrote (sb s) v (addrs i) v' A' (i_size i) off src → 0 ≤ off ≤ i_size i →
  i_size i ≤ off + Z.of_nat (length src) →
  let i' := set_isize (off + Z.of_nat (length src)) (set_addrs A' i) in let b := IBLOCK (inum i) (sb s) in
  let v2 := v_put b (put_dinode (dinode_off (inum i)) i' d) v' in
  TR t v2 → v_blk v' !! b = Some d → length d = Z.to_nat BSIZE → writei_done s v ip i off src (with_ino t ip i' s) v2 i'.
Proof.
  intros [F1 F2 F3 F4 F5 F6 F7 F8 F9 F10] [W1 W2 W3 _ _ _] Ho Hle i' b v2 HR Hbd Hld.
  assert (Z.max (i_size i) (off + Z.of_nat (length src)) = off + Z.of_nat (length src)) as Hmx by lia. rewrite Hmx in W3.
  pose proof (g_disk _ _ _ _ _ W1) as Hd'. assert (inode_block (sb s) b) as Hib by by exists (inum i).
  destruct (put_inode_block (sb s) v' b (put_dinode (dinode_off (inum i)) i' d) Hd' Hib) as (P1 & P2 & P3). fold v2 in P1, P2, P3.
  destruct (P3 A' (off + Z.of_nat (length src)) W3) as (P4 & P5 & P6). pose proof (fo_max _ _ _ _ W3) as Hmax.
  assert (dinode_ok i') as Hok by (by apply (dinode_ok_new (sb s) v')).
  assert (∀ n j, 0 ≤ n < sb_ninodes (sb s) → disk_inode v2 (sb s) n j = if decide (n = inum i) then
    mk_inode (i_dev j) (inum j) (ref j) (i_lock j) (valid j) (i_type i') (major i') (minor i') (nlink i') (i_size i') (addrs i')
    else disk_inode v' (sb s) n j) as Hino.
  { intros n j Hn. apply (disk_inode_update v' (sb s) i' d n j Hok); try done; by apply (do_inodes _ _ F3). }
  split; try done.
  - split; try done; cbn [with_ino fb sb inodes].
    + unfold v2. by rewrite v_put_held, (g_held _ _ _ _ _ W1).
    + apply list_lookup_insert_eq. by eapply lookup_lt_Some.
    + intros j. change (inum i') with (inum i). by rewrite Hino, decide_True by done.
  - by rewrite Hmx.
  - unfold file_contents. change (addrs i') with A'. change (i_size i') with (off + Z.of_nat (length src)).
    rewrite (same_bytes_contents v' A') by (try done; lia). rewrite <-Hmx. apply contents_written; [done|lia|lia].
  - intros c Hc. rewrite P2, (g_use _ _ _ _ _ W1) by done. unfold owns. split; (intros [?|(H0 & k & Hk & <-)]; [by left|]; right; split;
      [|exists k; split; [done|]]); rewrite ?P4 in * by done; done.
  - intros A2 e2 H1 H2. destruct (grows_other _ _ _ _ _ _ _ W1 H1 H2) as (G1 & G2 & G3 & _). destruct (P3 A2 e2 G1) as (P7 & P8 & P9).
    pose proof (proj2 (fo_max _ _ _ _ H1)). split; [done|]. split; [by rewrite !(same_bytes_contents _ A2 _ A2 e2 P9), (same_bytes_contents _ A2 _ A2 e2 G2)|].
    intros c (H0 & k & Hk & <-) (_ & k' & Hk' & E). change (addrs i') with A' in E. rewrite P4, P7 in E by done. rewrite P7 in H0 by done.
    apply (G3 (slot (v_blk v') A2 k)); (split; [done|]); [by exists k|by exists k'].
  - intros n j Hn Hne. rewrite Hino, decide_False by done. by apply (grows_inodes _ _ _ _ _ _ _ _ W1 F3 F9).
Qed.

(** Room in the log for a write: what it costs, the indirect block and the inode. *)
Definition writei_cost (v : view) (i : inode) (off n : Z) : Z :=
  write_cost (i_size i) off n + Z.of_nat (indirect_cost v (addrs i)) + 1.

Lemma writei_ok dw s v ip i src off Q E :
  file_at s v ip i → 0 ≤ off ≤ i_size i → off + Z.of_nat (length src) ≤ MAXFILE * BSIZE →
  nblocks_all (Z.max (i_size i) (off + Z.of_nat (length src))) - nblocks_all (i_size i) ≤ Z.of_nat (nfree v (sb s)) →
  writei_cost v i off (Z.of_nat (length src)) ≤ Z.of_nat (v_room v) →
  (∀ s' v' i', writei_done s v ip i off src s' v' i' → Q (Z.of_nat (length src)) s') →
  wpe (writei dw ip src off) Q E s.
Proof.
  intros Hat Ho Hmax Hnf Hroom HQ. pose proof (fa_ino _ _ _ _ Hat) as Hi. pose proof (fa_disk _ _ _ _ Hat) as Hd.
  set (n := Z.of_nat (length src)) in *. unfold writei_cost in Hroom.
  unfold writei. fold n. apply wpe_bind. unfold ino at 1. apply wpe_gets. rewrite (list_lookup_total_correct _ _ _ Hi).
  rewrite (proj2 (Z.eqb_neq _ _) (fa_type _ _ _ _ Hat)). pose proof maxfile_eq as Hmf. unfold BSIZE in Hmax.
  rewrite u32_small by lia. rewrite !(proj2 (Z.ltb_ge _ _)) by (unfold BSIZE; lia). cbn [orb].
  apply wpe_bind. eapply (writei_loop_ok _ s v ip i (i_size i)); try done; try apply Hat; [unfold n; lia|fold n; lia|].
  fold n. intros t v' A' HR Hw. apply wpe_bind. unfold ino at 1. apply wpe_gets. cbn [with_ino inodes].
  rewrite list_lookup_total_insert_eq by (by eapply lookup_lt_Some). cbn [set_addrs i_size].
  destruct (Z.ltb_spec (i_size i) (off + n)) as [Hg|Hg].
  2: { rewrite andb_false_r. cbn [when]. apply wpe_bind, wpe_ret, wpe_ret. eapply HQ.
       apply writei_done_same; try done; lia. }
  rewrite (proj2 (Z.ltb_lt 0 n)) by lia. cbn [andb when]. apply wpe_bind, wpe_bind, wpe_modify. cbn [with_ino inodes fb sb ic_lock].
  rewrite list_lookup_total_insert_eq by (by eapply lookup_lt_Some). rewrite list_insert_insert_eq.
  set (i' := set_isize (off + n) (set_addrs A' i)). pose proof (wr_grows _ _ _ _ _ _ _ _ Hw) as Hgr.
  pose proof (wr_file _ _ _ _ _ _ _ _ Hw) as Hf'. fold n in Hf'. rewrite Z.max_r in Hf' by lia.
  pose proof (wr_room _ _ _ _ _ _ _ _ Hw) as Hr. fold n in Hr. pose proof (g_disk _ _ _ _ _ Hgr) as Hd'.
  assert (inode_block (sb s) (IBLOCK (inum i) (sb s))) as Hib by (exists (inum i); split; [apply Hat|done]).
  destruct (do_meta _ _ Hd' _ (or_intror Hib)) as (Hr1 & _ & Hw1). destruct (do_blk _ _ Hd' _ Hr1) as [d Hbd].
  eapply (iupdate_ok _ v' ip i' d); cbn [fb sb inodes]; try done.
  - rewrite list_lookup_total_insert_eq by (by eapply lookup_lt_Some). done.
  - apply Hat.
  - apply (dinode_ok_new (sb s) v'); [apply Hat|done|done].
  - apply (fa_inum _ _ _ _ Hat).
  - apply readable_quiet; [|done]. rewrite (g_held _ _ _ _ _ Hgr). apply Hat.
  - right. lia.
  - intros t' HR'. apply wpe_ret. eapply HQ. apply (writei_done_grown s v ip i off src t' v' A' d); try done; [lia|].
    by apply (bs_len _ _ _ _ HR Hbd).
Qed.

Lemma writei_refused dw s v ip i src off :
  file_at s v ip i → 0 ≤ off < 2 ^ 32 → Z.of_nat (length src) < 2 ^ 32 →
  i_size i < off ∨ MAXFILE * BSIZE < off + Z.of_nat (length src) → writei dw ip src off s = Done (-1, s).
Proof.
  intros Hat Ho Hn Hbad. set (n := Z.of_nat (length src)) in *. unfold writei. fold n.
  rewrite (bind_run _ _ s (inodes s !!! ip) s) by done. rewrite (list_lookup_total_correct _ _ _ (fa_ino _ _ _ _ Hat)).
  rewrite (proj2 (Z.eqb_neq _ _) (fa_type _ _ _ _ Hat)).
  destruct (Z.ltb_spec (i_size i) off); [done|]. cbn [orb]. destruct (Z.ltb_spec (u32 (off + n)) off) as [|Hnw]; [done|].
  rewrite (proj2 (Z.ltb_lt _ _)); [done|]. destruct (decide (off + n < 2 ^ 32)); [rewrite u32_small by lia; lia|].
  unfold u32 in Hnw. replace (off + n) with (off + n - 2 ^ 32 + 1 * 2 ^ 32) in Hnw by lia.
  rewrite Z.mod_add, Z.mod_small in Hnw by lia. lia.
Qed.

(** ** readi *)

Lemma bytes_round blk A off m d :
  0 ≤ off → 0 ≤ m → off mod BSIZE + m ≤ BSIZE → slot blk A (off / BSIZE) ≠ 0 → blk !! slot blk A (off / BSIZE) = Some d →
  length d = Z.to_nat BSIZE → take (Z.to_nat m) (drop (Z.to_nat (off mod BSIZE)) d) = fbyte blk A <$> seqZ off m.
Proof.
  intros Ho Hm Hle Hs Hb Hl. unfold BSIZE in *. pose proof (Z.div_mod off 512 ltac:(lia)). pose proof (Z.mod_pos_bound off 512 eq_refl).
  apply list_eq. intros k. destruct (decide (Z.of_nat k < m)) as [Hk|Hk].
  - rewrite lookup_take_lt, lookup_drop by lia. rewrite list_lookup_fmap, lookup_seqZ_lt by lia. cbn [fmap option_fmap option_map].
    assert ((off + Z.of_nat k) / 512 = off / 512 ∧ (off + Z.of_nat k) mod 512 = off mod 512 + Z.of_nat k) as [E1 E2].
    { assert (off + Z.of_nat k = off mod 512 + Z.of_nat k + (off / 512) * 512) as -> by lia.
      rewrite Z.div_add, Z.mod_add, Z.div_small, Z.mod_small by lia. lia. }
    unfold fbyte, BSIZE. rewrite E1, E2, (proj2 (Z.eqb_neq _ _) Hs), Hb. cbn [default id].
    rewrite list_lookup_lookup_total_lt by lia. do 2 f_equal. lia.
  - rewrite lookup_take_ge by lia. symmetry. apply lookup_ge_None. rewrite length_fmap, length_seqZ. lia.
Qed.

Lemma seqZ_split a m n : 0 ≤ m ≤ n → seqZ a n = seqZ a m ++ seqZ (a + m) (n - m).
Proof. intros Hm. rewrite <-seqZ_app by lia. f_equal. lia. Qed.

Lemma readi_loop_ok fuel : ∀ s v ip i e off n Q E,
  TR (fb s) v → disk_ok (sb s) v → v_held v = ∅ → inodes s !! ip = Some i → i_dev i = ROOTDEV →
  file_ok (sb s) v (addrs i) e → 0 ≤ off → 0 ≤ n → off + n ≤ e → n < Z.of_nat fuel →
  (∀ t, TR t v → Q (fbyte (v_blk v) (addrs i) <$> seqZ off n) (with_fb t s)) → wpe (readi_loop fuel ip off n) Q E s.
Proof.
  induction fuel as [|fuel IH]; intros s v ip i e off n Q E HR Hd Hh Hi Hdv Hf Ho Hn Hle Hfuel HQ; [lia|].
  cbn [readi_loop]. destruct (Z.leb_spec n 0) as [H0|Hpos].
  { assert (n = 0) as -> by lia. apply wpe_ret. assert (s = with_fb (fb s) s) as -> by by destruct s. by apply (HQ (fb s)). }
  destruct (round_len_bounds off n Ho Hpos) as (Hm1 & Hm2 & _). set (m := round_len off n) in *.
  pose proof (fo_max _ _ _ _ Hf) as Hmax. rewrite maxfile_eq in Hmax. unfold BSIZE in Hmax.
  assert (0 ≤ off / BSIZE < nblocks e) as Hbn.
  { split; [by apply Z.div_pos|]. apply nblocks_lt. unfold BSIZE. pose proof (Z.div_mod off 512 ltac:(lia)).
    pose proof (Z.mod_pos_bound off 512 eq_refl). lia. }
  pose proof (nblocks_max e (proj2 (fo_max _ _ _ _ Hf))). pose proof (fo_full _ _ _ _ Hf _ Hbn) as Hs.
  apply wpe_bind. unfold ino at 1. apply wpe_gets. rewrite (list_lookup_total_correct _ _ _ Hi), Hdv.
  apply wpe_bind. eapply (bmap_ok s v ip i e); try done; [lia|]. intros t v1 A1 HR1 Hm _.
  destruct (bm_same _ _ _ _ _ _ Hm Hs) as [-> ->]. rewrite <-(with_ino_addrs s ip i) by done.
  destruct (fo_own _ _ _ _ Hf (off / BSIZE) ltac:(lia) Hs) as (Hr & _). destruct (do_blk _ _ Hd (slot (v_blk v) (addrs i) (off / BSIZE))) as [d Hbd]; [lia|].
  pose proof (bs_len _ _ _ _ HR Hbd) as Hld. pose proof (readable_quiet v _ d Hh Hbd) as Hrd.
  apply wpe_bind. eapply wp_b_read; [exact HR1|exact Hrd|]. intros h t1 HR2 Hdat. apply wpe_bind, wp_block_data. cbn [with_fb fb].
  rewrite Hdat. apply wpe_bind. eapply (wp_b_rel _ _ (slot (v_blk v) (addrs i) (off / BSIZE))); [exact HR2|cbn; by rewrite lookup_insert_eq|].
  intros t2 HR3. rewrite v_peek in HR3 by apply Hrd. rewrite u32_small by lia. cbn [with_fb sb ic_lock inodes].
  apply wpe_bind. eapply (IH _ v ip i e (off + m) (n - m)); cbn [with_fb fb sb inodes]; try done; try lia.
  intros t3 HR4. apply wpe_ret. rewrite (bytes_round (v_blk v) (addrs i) off m d) by (done || lia).
  rewrite <-fmap_app, <-seqZ_split by lia. by apply HQ.
Qed.

(** What [readi] returns of a file with contents [b]. *)
Definition read_result (b : list Z) (off n : Z) : Z * list Z :=
  if (Z.of_nat (length b) <? off) || (2 ^ 32 <=? off + n) then (-1, [])
  else let l := take (Z.to_nat n) (drop (Z.to_nat off) b) in (Z.of_nat (length l), l).

Lemma contents_slice blk A sz off n :
  0 ≤ off → 0 ≤ n → off + n ≤ sz → take (Z.to_nat n) (drop (Z.to_nat off) (contents blk A sz)) = fbyte blk A <$> seqZ off n.
Proof.
  intros Ho Hn Hle. unfold contents. rewrite (seqZ_split 0 off sz), (seqZ_split (0 + off) n (sz - off)), !fmap_app by lia.
  rewrite drop_app_length' by (rewrite length_fmap, length_seqZ; lia).
  by rewrite take_app_length' by (rewrite length_fmap, length_seqZ; lia).
Qed.

Lemma readi_ok dr s v ip i off n Q E :
  file_at s v ip i → 0 ≤ off < 2 ^ 32 → 0 ≤ n < 2 ^ 32 →
  (∀ t, TR t v → Q (read_result (file_contents v i) off n) (with_fb t s)) → wpe (readi dr ip off n) Q E s.
Proof.
  intros Hat Ho Hn HQ. pose proof (fo_max _ _ _ _ (fa_file _ _ _ _ Hat)) as Hmax. rewrite maxfile_eq in Hmax. unfold BSIZE in Hmax.
  assert (s = with_fb (fb s) s) as Hs by by destruct s. unfold read_result in HQ.
  assert (Z.of_nat (length (file_contents v i)) = i_size i) as Hlen by (unfold file_contents; rewrite length_contents; lia).
  rewrite Hlen in HQ. unfold readi. apply wpe_bind. unfold ino at 1. apply wpe_gets.
  rewrite (list_lookup_total_correct _ _ _ (fa_ino _ _ _ _ Hat)), (proj2 (Z.eqb_neq _ _) (fa_type _ _ _ _ Hat)).
  destruct (Z.ltb_spec (i_size i) off) as [|Hoff]; cbn [orb] in *.
  { apply wpe_ret. rewrite Hs. apply HQ, Hat. }
  destruct (Z.leb_spec (2 ^ 32) (off + n)) as [Hov|Hov].
  { assert (u32 (off + n) < off) as Hlt.
    { unfold u32. replace (off + n) with (off + n - 2 ^ 32 + 1 * 2 ^ 32) by lia. rewrite Z.mod_add, Z.mod_small by lia. lia. }
    rewrite (proj2 (Z.ltb_lt _ _) Hlt). apply wpe_ret. rewrite Hs. apply HQ, Hat. }
  rewrite u32_small by lia. rewrite (proj2 (Z.ltb_ge (off + n) off)) by lia.
  set (n' := if i_size i <? off + n then i_size i - off else n).
  assert (n' = Z.min n (i_size i - off)) as Hn' by (unfold n'; destruct (Z.ltb_spec (i_size i) (off + n)); lia).
  apply wpe_bind. eapply (readi_loop_ok _ s v ip i (i_size i)); try lia; try apply Hat.
  intros t HR. apply wpe_ret. cbv zeta in HQ.
  assert (take (Z.to_nat n) (drop (Z.to_nat off) (file_contents v i)) = fbyte (v_blk v) (addrs i) <$> seqZ off n') as Htk.
  { rewrite <-(contents_slice _ _ (i_size i)) by lia. fold (file_contents v i). destruct (decide (n ≤ i_size i - off)); [f_equal; lia|].
    rewrite !take_ge; [done|rewrite length_drop; lia..]. }
  rewrite Htk, length_fmap, length_seqZ in HQ. specialize (HQ t HR). by rewrite Z2Nat.id in HQ by lia.
Qed.

(** C17: [writei] of a regular file either refuses, with -1 and nothing
    changed, when the file would get a hole or more than [MAXFILE] blocks, or,
    given enough free blocks and room in the log, writes all of [src]: the
    contents are the old ones with [src] written over them from [off] on, the
    inode in memory and on disk agree, the blocks in use are those that were
    and those of the file, and every other file and every other inode on disk
    is as it was. *)
Theorem writei_correct dw s v ip i src off :
  file_at s v ip i → 0 ≤ off < 2 ^ 32 → Z.of_nat (length src) < 2 ^ 32 →
  (i_size i < off ∨ MAXFILE * BSIZE < off + Z.of_nat (length src) → writei dw ip src off s = Done (-1, s)) ∧
  (off ≤ i_size i → off + Z.of_nat (length src) ≤ MAXFILE * BSIZE →
   nblocks_all (Z.max (i_size i) (off + Z.of_nat (length src))) - nblocks_all (i_size i) ≤ Z.of_nat (nfree v (sb s)) →
   writei_cost v i off (Z.of_nat (length src)) ≤ Z.of_nat (v_room v) →
   wp (writei dw ip src off)
     (λ r s', r = Z.of_nat (length src) ∧ ∃ v' i', writei_done s v ip i off src s' v' i') s).
Proof.
  intros Hat Ho Hn. split; [by apply (writei_refused dw s v)|]. intros H1 H2 H3 H4.
  eapply writei_ok; try done; [lia|]. intros s' v' i' Hd. eauto.
Qed.

(** C33: what [writei] wrote is what [readi] reads: after a write, a read of
    any range returns that range of the old contents with [src] written over
    them, shortened at the end of the file, and -1 behind it; reading changes
    neither the blocks nor the inodes. *)
Theorem writei_readi dr dw s v ip i src off off' n' :
  file_at s v ip i → 0 ≤ off ≤ i_size i → off + Z.of_nat (length src) ≤ MAXFILE * BSIZE →
  nblocks_all (Z.max (i_size i) (off + Z.of_nat (length src))) - nblocks_all (i_size i) ≤ Z.of_nat (nfree v (sb s)) →
  writei_cost v i off (Z.of_nat (length src)) ≤ Z.of_nat (v_room v) → 0 ≤ off' < 2 ^ 32 → 0 ≤ n' < 2 ^ 32 →
  wp (writei dw ip src off) (λ _ s1, ∃ v1 i1, file_at s1 v1 ip i1 ∧
    wp (readi dr ip off' n')
      (λ r s2, r = read_result (overwrite (file_contents v i) off src) off' n' ∧
        file_at s2 v1 ip i1 ∧ inodes s2 = inodes s1) s1) s.
Proof.
  intros Hat H1 H2 H3 H4 H5 H6. eapply writei_ok; try done. intros s1 v1 i1 Hd. exists v1, i1.
  pose proof (wd_at _ _ _ _ _ _ _ _ _ Hd) as Hat1. split; [done|].
  eapply readi_ok; try done. intros t HR. rewrite (wd_contents _ _ _ _ _ _ _ _ _ Hd). split; [done|]. split; [|done].
  by destruct Hat1.
Qed.

(** The limit the comment in [filewrite] argues for, with [MAXOPBLOCKS]
    for the size of a transaction, is right: a write of that many bytes needs
    no more blocks in the log than [begin_op] reserves, wherever it starts,
    also when it has to take every block and the indirect block. *)
Theorem writei_fits_op dw s v ip i src off :
  file_at s v ip i → 0 ≤ off ≤ i_size i → off + Z.of_nat (length src) ≤ MAXFILE * BSIZE →
  Z.of_nat (length src) ≤ (MAXOPBLOCKS - 1 - 1 - 2) / 2 * BSIZE → MAXOPBLOCKS ≤ Z.of_nat (v_room v) →
  nblocks_all (Z.max (i_size i) (off + Z.of_nat (length src))) - nblocks_all (i_size i) ≤ Z.of_nat (nfree v (sb s)) →
  wp (writei dw ip src off)
    (λ r s', r = Z.of_nat (length src) ∧ ∃ v' i', writei_done s v ip i off src s' v' i') s.
Proof.
  intros Hat Ho Hmax Hle Hroom Hnf. eapply writei_ok; try done; [|eauto].
  set (n := Z.of_nat (length src)) in *. unfold writei_cost.
  assert (indirect_cost v (addrs i) ≤ 2)%nat by (unfold indirect_cost; repeat case_match; lia).
  enough (write_cost (i_size i) off n ≤ 7) by (unfold MAXOPBLOCKS in *; lia).
  change ((MAXOPBLOCKS - 1 - 1 - 2) / 2 * BSIZE) with 1536 in Hle. unfold write_cost, touched.
  pose proof (nblocks_bounds (i_size i)). pose proof (nblocks_bounds (off + n)). pose proof (nblocks_bounds (Z.max (i_size i) (off + n))).
  unfold BSIZE. pose proof (Z.div_mod off 512 ltac:(lia)). pose proof (Z.mod_pos_bound off 512 eq_refl).
  destruct (Z.leb_spec n 0); [assert (n = 0) by (unfold n in *; lia); replace (Z.max (i_size i) (off + n)) with (i_size i) by lia; lia|].
  destruct (Z.max_spec (i_size i) (off + n)) as [[Hlt Hm]|[Hlt Hm]]; rewrite Hm in *; lia.
Qed.
End on_blocks.

(** ** An example

    A disk of ten blocks with the superblock in block 1, the inodes in block 2,
    the bitmap in block 3 and a file of 300 bytes in block 4, which is open
    and has no links. *)

Module DataDemo.
Definition demo_sb : superblock := mk_superblock 10 5 8 0 0 2 3.
Definition demo_file : inode := mk_inode ROOTDEV 3 1 (sl_free "inode") 1 T_FILE 0 0 0 300 (4 :: replicate 12 0).
Definition demo_blocks : Mem.mem :=
  <[1 := concat (le_bytes 4 <$> [10; 5; 8; 0; 0; 2; 3]) ++ replicate 484 0]>
  (<[2 := put_dinode (dinode_off 3) demo_file (replicate 512 0)]>
  (<[3 := 31 :: replicate 511 0]> (<[4 := replicate 512 7]> Mem.demo_disk))).
Definition demo_view : view := mk_view demo_blocks ∅ ∅ 10.
Definition fs : fst_ Mem.mem := mk_fst demo_blocks demo_sb (initlock "icache") [demo_file].

Lemma in_use_blocks b : 0 ≤ b < 10 → in_use demo_view demo_sb b = (b <? 5).
Proof. revert b. apply (Mem.demo_all (λ b, in_use demo_view demo_sb b = (b <? 5))). by vm_compute. Qed.

Lemma bitmap_at b : bitmap_block demo_sb b → b = 3.
Proof. intros (c & Hc & <-). revert c Hc. apply (Mem.demo_all (λ c, BBLOCK c demo_sb = 3)). by vm_compute. Qed.

Lemma inodes_at b : inode_block demo_sb b → b = 2.
Proof. intros (c & Hc & <-). revert c Hc. apply (Mem.demo_all (λ c, IBLOCK c demo_sb = 2)). by vm_compute. Qed.

Lemma demo_disk_ok : disk_ok (writable := Mem.any) demo_sb demo_view.
Proof.
  split; try done.
  - intros n Hn. cbn in Hn. split; [lia|]. split; [done|]. cbn. change IPB with 8. pose proof (Z.div_lt_upper_bound n 8 1). lia.
  - apply (Mem.demo_all (λ b, is_Some (demo_blocks !! b))). by vm_compute.
  - intros b [->%bitmap_at| ->%inodes_at]; by vm_compute.
  - intros b ->%bitmap_at Hi%inodes_at. done.
  - intros b Hb. rewrite in_use_blocks by done. intros H%Z.ltb_ge. split; [lia|done].
Qed.

Lemma slots k : 0 ≤ k < 141 → slot demo_blocks (addrs demo_file) k = if k =? 0 then 4 else 0.
Proof. revert k. apply (Mem.demo_all (λ k, slot demo_blocks (addrs demo_file) k = if k =? 0 then 4 else 0)). by vm_compute. Qed.

Lemma demo_file_ok : file_ok (writable := Mem.any) demo_sb demo_view (addrs demo_file) 300.
Proof.
  pose proof maxfile_eq as Hmf. split; cbn [v_blk demo_view]; try done.
  - intros k Hk. rewrite slots by lia. destruct (k =? 0); [intros _|done].
    split; [done|]. split; [by vm_compute|]. split; [done|]. split; [by intros ?%bitmap_at|by intros ?%inodes_at].
  - intros k k' Hk Hk'. rewrite !slots by lia. destruct (Z.eqb_spec k 0), (Z.eqb_spec k' 0); lia.
  - intros k Hk. change (nblocks 300) with 1 in Hk. rewrite slots by lia. by replace k with 0 by lia.
Qed.

Lemma demo_file_at : file_at (TR := Mem.mem_R) (writable := Mem.any) fs demo_view 0 demo_file.
Proof.
  split; try done.
  - split; [done|]. split; [|apply map_Forall_empty]. apply (bool_decide_eq_true_1 _). by vm_compute.
  - apply demo_disk_ok.
  - split; [|split; [done|split; [done|apply (bool_decide_eq_true_1 _); by vm_compute]]].
    apply (Forall_forall (λ x, - 2 ^ 15 ≤ x < 2 ^ 15)). apply (bool_decide_eq_true_1 _). by vm_compute.
  - apply demo_file_ok.
Qed.

Lemma demo_nfree : nfree demo_view demo_sb = 5%nat.
Proof. by vm_compute. Qed.

Definition src : list Z := replicate 600 9.
End DataDemo.
#[local] Existing Instances Mem.mem_layer Mem.mem_spec.

Lemma writei_correct_witness :
  match writei (λ _, None) 0 DataDemo.src 200 DataDemo.fs with Done (r, _) => r = 600 | Fail _ => False end.
Proof.
  destruct (writei_correct (TR := Mem.mem_R) (writable := Mem.any) (λ _, None) DataDemo.fs DataDemo.demo_view 0 DataDemo.demo_file
    DataDemo.src 200 DataDemo.demo_file_at) as [_ H]; [lia|by vm_compute|].
  revert H. unfold wpe. destruct (writei _ _ _ _ _) as [[r s']|e]; intros H; apply H; solve [by vm_compute].
Defined.

Lemma writei_readi_witness :
  match writei (λ _, None) 0 DataDemo.src 200 DataDemo.fs with
  | Done (_, s1) => match readi (λ _, None) 0 100 4000 s1 with
                    | Done (r, _) => r = (700, replicate 100 7 ++ replicate 600 9) | Fail _ => False end
  | Fail _ => False
  end.
Proof.
  pose proof (writei_readi (TR := Mem.mem_R) (writable := Mem.any) (λ _, None) (λ _, None) DataDemo.fs DataDemo.demo_view 0
    DataDemo.demo_file DataDemo.src 200 100 4000 DataDemo.demo_file_at) as H.
  revert H. unfold wpe at 1. destruct (writei _ _ _ _ _) as [[r s1]|e]; intros H; [|apply H; solve [by vm_compute]].
  destruct H as (v1 & i1 & _ & H); [solve [by vm_compute]..|]. revert H. unfold wpe.
  destruct (readi _ _ _ _ s1) as [[r' s2]|e]; [|done]. intros [-> _]. by vm_compute.
Defined.

Lemma writei_fits_op_witness :
  match writei (λ _, None) 0 DataDemo.src 200 DataDemo.fs with Done (r, _) => r = 600 | Fail _ => False end.
Proof.
  pose proof (writei_fits_op (TR := Mem.mem_R) (writable := Mem.any) (λ _, None) DataDemo.fs DataDemo.demo_view 0
    DataDemo.demo_file DataDemo.src 200 DataDemo.demo_file_at) as H.
  revert H. unfold wpe. destruct (writei _ _ _ _ _) as [[r s1]|e]; intros H; apply H; solve [by vm_compute].
Defined.
