(* ===== verification/FsTrunc.v ===== *)
(** * Freeing files

    [bfree], [itrunc] and [iput]: the blocks of a file go back to the bitmap,
    all of them and no others, when the last reference to an inode without
    links goes away. *)

From S2P Require Import Prelude Spinlock Buf Log Tx Fs FsSpec FsData.

(** ** Clearing a bit *)

Lemma bit_set_clear_bit d bi bj :
  0 ≤ bi < 8 * Z.of_nat (length d) → 0 ≤ bj → bit_set (clear_bit bi d) bj = negb (bi =? bj) && bit_set d bj.
Proof.
  intros Hi Hj. rewrite !bit_set_testbit by done. unfold clear_bit.
  pose proof (Z.mod_pos_bound bi 8 eq_refl). pose proof (Z.mod_pos_bound bj 8 eq_refl).
  pose proof (Z.div_mod bi 8 ltac:(lia)). pose proof (Z.div_mod bj 8 ltac:(lia)).
  pose proof (Z.div_pos bi 8 ltac:(lia) ltac:(lia)). pose proof (Z.div_pos bj 8 ltac:(lia) ltac:(lia)).
  destruct (decide (bi / 8 = bj / 8)) as [Heq|Hne].
  - rewrite <-Heq, list_lookup_total_insert_eq by lia. rewrite u8_testbit, Z.land_spec by done.
    rewrite andb_comm. f_equal. rewrite Z.lnot_spec, Z.shiftl_1_l, Z.pow2_bits_eqb by lia. f_equal.
    destruct (Z.eqb_spec (bi mod 8) (bj mod 8)), (Z.eqb_spec bi bj); lia.
  - rewrite list_lookup_total_insert_ne by lia. destruct (Z.eqb_spec bi bj); [|done]. by subst.
Qed.

Section on_blocks.
Context {T : Type} `{!BlockLayer T} {TR : T → view → Prop} {writable : Z → Prop} `{!BlockLayerSpec T TR writable}.
Implicit Types s : fst_ T.
Abbreviation disk_ok := (disk_ok (writable := writable)).
Abbreviation file_ok := (file_ok (writable := writable)).
Abbreviation file_at := (file_at (TR := TR) (writable := writable)).

(** The bit of a block is its own. *)
Lemma bitmap_bit_inj sb v b c :
  disk_ok sb v → 0 ≤ b < sb_size sb → 0 ≤ c < sb_size sb → BBLOCK b sb = BBLOCK c sb → b mod BPB = c mod BPB → b = c.
Proof.
  intros Hd Hb Hc E1 E2. destruct (do_start _ _ Hd) as [H1 H2].
  assert (∀ x, 0 ≤ x < sb_size sb → 0 ≤ x / BPB ∧ x / BPB + sb_bmapstart sb < 2 ^ 32) as Hq.
  { intros x Hx. split; [apply Z.div_pos; [lia|done]|].
    assert (x / BPB ≤ sb_size sb / BPB) by (apply Z.div_le_mono; [done|lia]). lia. }
  pose proof (Hq b Hb). pose proof (Hq c Hc). unfold BBLOCK in E1. rewrite !u32_small in E1 by lia.
  pose proof (Z.div_mod b BPB ltac:(done)). pose proof (Z.div_mod c BPB ltac:(done)).
  assert (b / BPB = c / BPB) by lia. congruence.
Qed.

Lemma in_use_clear sb v b c d :
  disk_ok sb v → 0 ≤ b < sb_size sb → 0 ≤ c < sb_size sb → v_blk v !! BBLOCK b sb = Some d → length d = Z.to_nat BSIZE →
  in_use (v_log (BBLOCK b sb) (v_write (BBLOCK b sb) (clear_bit (b mod BPB) d) v)) sb c = in_use v sb c && negb (c =? b).
Proof.
  intros Hd Hb Hc Hbd Hl. unfold in_use. rewrite v_put_blk. pose proof (Z.mod_pos_bound b BPB eq_refl). pose proof (Z.mod_pos_bound c BPB eq_refl).
  destruct (decide (BBLOCK c sb = BBLOCK b sb)) as [E|Hne].
  - rewrite E, lookup_insert_eq, Hbd. cbn [default id]. rewrite bit_set_clear_bit by (unfold BPB, BSIZE in *; lia).
    rewrite andb_comm. do 2 f_equal. destruct (Z.eqb_spec (b mod BPB) (c mod BPB)) as [Em|Em], (Z.eqb_spec c b) as [->|Ecb]; try done.
    destruct Ecb. by apply (bitmap_bit_inj sb v).
  - rewrite lookup_insert_ne by done. destruct (Z.eqb_spec c b) as [->|]; [done|]. by rewrite andb_true_r.
Qed.

(** ** Freeing blocks *)

(** The superblock is on the disk, where [bfree] reads it again. *)
Definition super_ok (sb : superblock) (v : view) : Prop :=
  ¬ bitmap_block sb 1 ∧ ¬ inode_block sb 1 ∧ ∃ d, v_blk v !! 1 = Some d ∧ decode_sb d = sb.

(** Blocks of the bitmap that are not in the log yet. *)
Definition bitmap_set (sb : superblock) : gset Z := list_to_set ((λ c, BBLOCK c sb) <$> seqZ 0 (sb_size sb)).
Definition map_left (sb : superblock) (v : view) : nat := size (bitmap_set sb ∖ v_logged v).

Lemma elem_of_bitmap_set sb b : b ∈ bitmap_set sb ↔ bitmap_block sb b.
Proof.
  unfold bitmap_set. rewrite elem_of_list_to_set, list_elem_of_fmap. split.
  - intros (c & -> & Hc%elem_of_seqZ). exists c. split; [lia|done].
  - intros (c & Hc & <-). exists c. split; [done|]. apply elem_of_seqZ. lia.
Qed.

(** What freeing the blocks in [F] does. *)
Record freed (sb : superblock) (v v' : view) (F : gset Z) : Prop := {
  fr_held : v_held v' = v_held v;
  fr_disk : disk_ok sb v';
  fr_blk b : ¬ bitmap_block sb b → v_blk v' !! b = v_blk v !! b;
  fr_use b : 0 ≤ b < sb_size sb → in_use v' sb b = in_use v sb b && negb (bool_decide (b ∈ F));
  fr_room : (v_room v + map_left sb v' ≤ v_room v' + map_left sb v)%nat;
}.

Lemma freed_none sb v : disk_ok sb v → freed sb v v ∅.
Proof. intros Hd. split; try done. intros b Hb. rewrite bool_decide_eq_false_2 by set_solver. by rewrite andb_true_r. Qed.

Lemma freed_trans sb v v1 v2 F1 F2 : freed sb v v1 F1 → freed sb v1 v2 F2 → freed sb v v2 (F1 ∪ F2).
Proof.
  intros [A1 A2 A3 A4 A5] [B1 B2 B3 B4 B5]. split; try done; [congruence|by intros b Hb; rewrite B3, A3| |lia].
  intros b Hb. rewrite B4, A4 by done. rewrite <-andb_assoc, <-negb_orb. do 2 f_equal.
  destruct (bool_decide_reflect (b ∈ F1)), (bool_decide_reflect (b ∈ F2)), (bool_decide_reflect (b ∈ F1 ∪ F2)); set_solver.
Qed.

Lemma super_ok_freed sb v v' F : super_ok sb v → freed sb v v' F → super_ok sb v'.
Proof. intros (H1 & H2 & d & Hd & E) Hf. split; [done|]. split; [done|]. exists d. by rewrite (fr_blk _ _ _ _ Hf). Qed.

(** Blocks that may be freed. *)
Definition freeable (sb : superblock) (v : view) (b : Z) : Prop :=
  0 < b < sb_size sb ∧ in_use v sb b = true ∧ writable b ∧ ¬ bitmap_block sb b ∧ ¬ inode_block sb b.

Lemma map_left_log sb v b d :
  bitmap_block sb b → (map_left sb v ≤ v_room v)%nat →
  v_can_log b v ∧ (v_room v + map_left sb (v_log b (v_write b d v)) ≤ v_room (v_log b (v_write b d v)) + map_left sb v)%nat.
Proof.
  intros Hb Hr. apply elem_of_bitmap_set in Hb. unfold v_can_log, map_left in *. rewrite v_log_logged. unfold v_log.
  cbn [v_write v_logged v_room]. destruct (decide (b ∈ v_logged v)) as [Hin|Hin]; cbn [v_write v_room].
  - split; [by left|]. assert (size (bitmap_set sb ∖ ({[b]} ∪ v_logged v)) ≤ size (bitmap_set sb ∖ v_logged v))%nat by (apply subseteq_size; set_solver). lia.
  - assert (size (bitmap_set sb ∖ v_logged v) = S (size (bitmap_set sb ∖ ({[b]} ∪ v_logged v)))) as E.
    { replace (bitmap_set sb ∖ v_logged v) with ({[b]} ∪ bitmap_set sb ∖ ({[b]} ∪ v_logged v)).
      - rewrite size_union, size_singleton by set_solver. done.
      - apply set_eq. intros x. destruct (decide (x = b)); set_solver. }
    split; [right|]; lia.
Qed.

(** The state of the disk in which blocks can be freed: the superblock and the
    bitmap can be read, and the log takes the rest of the bitmap. *)
Record can_free s (v : view) : Prop := {
  cf_blocks : TR (fb s) v;
  cf_disk : disk_ok (sb s) v;
  cf_super : super_ok (sb s) v;
  cf_held : (size (v_held v) < MAXHELD)%nat ∧ v_held v !! 1 = None ∧ ∀ b, bitmap_block (sb s) b → v_held v !! b = None;
  cf_room : (map_left (sb s) v ≤ v_room v)%nat;
}.

Lemma bfree_ok s v b Q E :
  can_free s v → freeable (sb s) v b →
  (∀ t v', TR t v' → freed (sb s) v v' {[b]} → Q tt (with_fb t s)) → wpe (bfree ROOTDEV b) Q E s.
Proof.
  intros [HR Hd (Hs1 & Hs2 & d1 & Hbd1 & Hdec) (Hh & Hh1 & Hhb) Hroom] (Hb & Hu & Hw & Hnb & Hni) HQ.
  assert (bitmap_block (sb s) (BBLOCK b (sb s))) as Hm by (exists b; split; [lia|done]).
  destruct (do_meta _ _ Hd _ (or_introl Hm)) as (Hr & _ & Hwm). destruct (do_blk _ _ Hd _ Hr) as [d Hbd]. pose proof (bs_len _ _ _ _ HR Hbd) as Hl.
  assert (readable v 1 d1) as Hr1 by (by split_and!).
  assert (readable v (BBLOCK b (sb s)) d) as Hr2 by (split_and!; [done|by apply Hhb|done]).
  unfold bfree, fs_readsb. apply wpe_bind, wpe_bind. eapply wp_b_read; [done..|]. intros h1 t1 HR1 Hd1. apply wpe_bind, wp_block_data.
  cbn [with_fb fb]. rewrite Hd1, Hdec. apply wpe_bind, wpe_modify. cbn [with_fb fb sb ic_lock inodes].
  eapply (wp_b_rel _ _ 1); [exact HR1|cbn; by rewrite lookup_insert_eq|]. intros t2 HR2. rewrite v_peek in HR2 by done.
  unfold get_sb. apply wpe_bind, wpe_gets. cbn [with_fb sb]. apply wpe_bind. eapply wp_b_read; [exact HR2|exact Hr2|]. intros h2 t3 HR3 Hd3.
  apply wpe_bind, wp_block_data. cbn [with_fb fb]. rewrite Hd3.
  assert (bit_set d (b mod BPB) = true) as Hbit by (unfold in_use in Hu; by rewrite Hbd in Hu). rewrite Hbit. cbn [negb].
  destruct (map_left_log (sb s) v _ (clear_bit (b mod BPB) d) Hm Hroom) as [Hcan Hrm].
  eapply (wp_b_write _ v); [exact HR3|exact Hr2|done|done| |].
  { unfold clear_bit. by rewrite length_insert. }
  intros t4 HR4. eapply HQ; [exact HR4|].
  assert (∀ c, 0 ≤ c < sb_size (sb s) → in_use (v_log (BBLOCK b (sb s)) (v_write (BBLOCK b (sb s)) (clear_bit (b mod BPB) d) v)) (sb s) c =
    in_use v (sb s) c && negb (c =? b)) as Hiu by (intros c Hc; apply in_use_clear; [done|lia|done..]).
  split; [by rewrite v_put_held| | | |done].
  - destruct Hd as [D1 D2 D3 D4 D5 D6 D7]. split; try done.
    + intros c Hc. rewrite v_put_blk, lookup_insert_is_Some'. right. by apply D4.
    + intros c Hmc. destruct (D5 c Hmc) as (E1 & E2 & E3). split; [done|]. split; [|done]. rewrite Hiu, E2 by done.
      destruct (Z.eqb_spec c b) as [->|]; [|done]. destruct Hmc; done.
    + intros c Hc Hf. rewrite Hiu in Hf by done. destruct (Z.eqb_spec c b) as [->|]; [split; [lia|done]|].
      rewrite andb_true_r in Hf. by apply D7.
  - intros c Hnc. rewrite v_put_blk, lookup_insert_ne; [done|]. by intros <-.
  - intros c Hc. rewrite Hiu by done. do 2 f_equal.
    destruct (bool_decide_reflect (c ∈ ({[b]} : gset Z))), (Z.eqb_spec c b); set_solver.
Qed.

(** Block numbers without the empty ones. *)
Definition nz (l : list Z) : list Z := filter (λ a, a ≠ 0) l.

Definition all_freeable (sb : superblock) (v : view) (l : list Z) : Prop := NoDup l ∧ Forall (freeable sb v) l.

Lemma all_freeable_app sb v l1 l2 :
  all_freeable sb v (l1 ++ l2) →
  all_freeable sb v l1 ∧ (∀ v', freed sb v v' (list_to_set l1) → all_freeable sb v' l2).
Proof.
  intros [(N1 & N2 & N3)%NoDup_app [F1 F2]%Forall_app]. split; [done|]. intros v' Hf. split; [done|].
  rewrite Forall_forall in F2 |- *. intros b Hb. destruct (F2 b Hb) as (H1 & H2 & H3). split; [done|]. split; [|done].
  rewrite (fr_use _ _ _ _ Hf), H2 by lia. rewrite bool_decide_eq_false_2; [done|]. rewrite elem_of_list_to_set. intros Hb1. by apply (N2 b).
Qed.

Lemma freed_nil sb v : disk_ok sb v → freed sb v v (list_to_set []).
Proof. apply freed_none. Qed.

Lemma freed_app sb v v1 v2 l1 l2 :
  freed sb v v1 (list_to_set l1) → freed sb v1 v2 (list_to_set l2) → freed sb v v2 (list_to_set (l1 ++ l2)).
Proof. intros H1 H2. rewrite list_to_set_app_L. by apply (freed_trans _ _ v1). Qed.

Lemma can_free_freed s s' v v' F :
  can_free s v → freed (sb s) v v' F → TR (fb s') v' → sb s' = sb s → can_free s' v'.
Proof.
  intros [C1 C2 C3 C4 C5] Hf HR Hsb. split; rewrite ?Hsb, ?(fr_held _ _ _ _ Hf); try done.
  - apply Hf.
  - by apply (super_ok_freed _ v v' F).
  - pose proof (fr_room _ _ _ _ Hf). lia.
Qed.

(** The direct blocks. *)
Lemma itrunc_direct_ok n : ∀ k s v ip i Q E,
  can_free s v → inodes s !! ip = Some i → i_dev i = ROOTDEV → (k + n ≤ length (addrs i))%nat →
  all_freeable (sb s) v (nz (slice k n (addrs i))) →
  (∀ t v', TR t v' → freed (sb s) v v' (list_to_set (nz (slice k n (addrs i)))) →
    Q tt (with_ino t ip (set_addrs (splice k (replicate n 0) (addrs i)) i) s)) →
  wpe (itrunc_direct n k ip) Q E s.
Proof.
  induction n as [|n IH]; intros k s v ip i Q E Hc Hi Hdv Hk Hfr HQ; cbn [itrunc_direct].
  { apply wpe_ret. assert (s = with_fb (fb s) s) as Hs by by destruct s. rewrite Hs, (with_ino_addrs _ ip i) by done.
    specialize (HQ (fb s) v (cf_blocks _ _ Hc) (freed_nil _ _ (cf_disk _ _ Hc))). unfold splice in HQ. cbn [replicate length app] in HQ.
    by rewrite Nat.add_0_r, take_drop in HQ. }
  destruct (lookup_lt_is_Some_2 (addrs i) k) as [a Ha]; [lia|].
  assert (slice k (S n) (addrs i) = a :: slice (S k) n (addrs i)) as Hsl by (unfold slice; by rewrite (drop_S _ _ _ Ha)).
  apply wpe_bind. unfold ino at 1. apply wpe_gets. rewrite (list_lookup_total_correct _ _ _ Hi), Hdv, (list_lookup_total_correct _ _ _ Ha).
  rewrite Hsl in *. apply wpe_bind. unfold nz in *. rewrite filter_cons in *. destruct (Z.eqb_spec a 0) as [->|Hn]; cbn [negb when].
  - rewrite decide_False in * by (intros HH; by apply HH). apply wpe_ret. eapply (IH (S k)); try done; [lia|].
    intros t v' HR' Hf'. specialize (HQ t v' HR' Hf'). cbn [replicate] in HQ.
    rewrite <-(Nat.add_1_r k). rewrite <-splice_insert in HQ by lia. by rewrite list_insert_id in HQ.
  - rewrite decide_True in * by done. destruct (all_freeable_app (sb s) v [a] _ Hfr) as [[_ F1] F2]. rewrite Forall_singleton in F1.
    apply wpe_bind. eapply bfree_ok; [done..|]. intros t v1 HR1 Hf1. unfold upd_ino. apply wpe_modify. cbn [with_fb fb sb ic_lock inodes].
    rewrite (list_lookup_total_correct _ _ _ Hi). pose proof (lookup_lt_Some _ _ _ Hi).
    assert (freed (sb s) v v1 (list_to_set [a])) as Hf1' by (by rewrite list_to_set_singleton_L).
    eapply (IH (S k) _ v1 ip (set_addrs (<[k:=0]> (addrs i)) i)); cbn [sb inodes addrs set_addrs i_dev].
    + by apply (can_free_freed s _ v v1 {[a]}).
    + by apply list_lookup_insert_eq.
    + done.
    + rewrite length_insert. lia.
    + unfold slice. rewrite drop_insert_lt by lia. by apply F2.
    + intros t' v' HR' Hf'. unfold slice in Hf'. rewrite drop_insert_lt in Hf' by lia.
      specialize (HQ t' v' HR' (freed_app _ _ _ _ [a] _ Hf1' Hf')). cbn [replicate] in HQ. rewrite <-splice_insert in HQ by lia.
      rewrite Nat.add_1_r in HQ. unfold with_ino in *. cbn. by rewrite list_insert_insert_eq.
Qed.

(** The blocks the indirect block names. *)
Lemma itrunc_indirect_ok n : ∀ j s v b h d Q E,
  can_free s v → v_held v !! b = Some (h, false) → v_blk v !! b = Some d → ¬ bitmap_block (sb s) b →
  all_freeable (sb s) v (nz ((λ q, get_uint (4 * q) d) <$> seqZ j (Z.of_nat n))) →
  (∀ t v', TR t v' → freed (sb s) v v' (list_to_set (nz ((λ q, get_uint (4 * q) d) <$> seqZ j (Z.of_nat n)))) → Q tt (with_fb t s)) →
  wpe (itrunc_indirect n j ROOTDEV h) Q E s.
Proof.
  induction n as [|n IH]; intros j s v b h d Q E Hc Hh Hb Hnb Hfr HQ; cbn [itrunc_indirect].
  { apply wpe_ret. assert (s = with_fb (fb s) s) as -> by by destruct s. apply (HQ (fb s) v); [apply Hc|apply freed_nil, Hc]. }
  rewrite seqZ_cons in * by lia. replace (Z.pred (Z.of_nat (S n))) with (Z.of_nat n) in * by lia. cbn [fmap list_fmap] in *.
  replace (Z.succ j) with (j + 1) in * by lia. set (a := get_uint (4 * j) d) in *.
  apply wpe_bind, wp_block_data. rewrite (bs_data _ _ b h false d (cf_blocks _ _ Hc) Hh Hb). fold a.
  apply wpe_bind. unfold nz in *. rewrite filter_cons in *. destruct (Z.eqb_spec a 0) as [E0|Hn]; cbn [negb when].
  - rewrite decide_False in * by (intros HH; by apply HH). apply wpe_ret. by eapply (IH (j + 1)).
  - rewrite decide_True in * by done. destruct (all_freeable_app (sb s) v [a] _ Hfr) as [[_ F1] F2]. rewrite Forall_singleton in F1.
    eapply bfree_ok; [done..|]. intros t v1 HR1 Hf1.
    assert (freed (sb s) v v1 (list_to_set [a])) as Hf1' by (by rewrite list_to_set_singleton_L).
    eapply (IH (j + 1) _ v1 b); cbn [with_fb sb]; try done.
    + by apply (can_free_freed s _ v v1 {[a]}).
    + by rewrite (fr_held _ _ _ _ Hf1).
    + by rewrite (fr_blk _ _ _ _ Hf1).
    + by apply F2.
    + intros t' v' HR' Hf'. apply (HQ t' v' HR'). by apply (freed_app _ _ v1 _ [a]).
Qed.

(** ** itrunc *)

Definition file_blocks (blk : gmap Z (list Z)) (A : list Z) : list Z := nz (slot blk A <$> seqZ 0 (MAXFILE + 1)).

Lemma elem_of_file_blocks blk A b : b ∈ file_blocks blk A ↔ owns blk A b.
Proof.
  unfold file_blocks, nz, owns. rewrite list_elem_of_filter, list_elem_of_fmap. split.
  - intros [H0 (k & -> & Hk%elem_of_seqZ)]. split; [done|]. exists k. split; [lia|done].
  - intros (H0 & k & Hk & <-). split; [done|]. exists k. split; [done|]. apply elem_of_seqZ. lia.
Qed.

Lemma NoDup_nz_fmap (f : Z → Z) l :
  NoDup l → (∀ x y, x ∈ l → y ∈ l → f x ≠ 0 → f x = f y → x = y) → NoDup (nz (f <$> l)).
Proof.
  unfold nz. induction l as [|x l IH]; intros Hnd Hinj; [apply NoDup_nil_2|]. apply NoDup_cons in Hnd as [Hx Hnd].
  cbn [fmap list_fmap]. rewrite filter_cons. assert (NoDup (filter (λ a, a ≠ 0) (f <$> l))) as HN by (apply IH; set_solver).
  case_decide as H0; [|done]. apply NoDup_cons. split; [|done].
  intros [_ (y & E & Hy)%list_elem_of_fmap]%list_elem_of_filter. apply Hx. rewrite (Hinj x y); set_solver.
Qed.

Lemma file_blocks_freeable sb v A e : file_ok sb v A e → all_freeable sb v (file_blocks (v_blk v) A).
Proof.
  intros Hf. split.
  - apply NoDup_nz_fmap; [apply NoDup_seqZ|]. intros x y Hx%elem_of_seqZ Hy%elem_of_seqZ. apply (fo_inj _ _ _ _ Hf); lia.
  - apply Forall_forall. intros b (H0 & k & Hk & <-)%elem_of_file_blocks. by apply (fo_own _ _ _ _ Hf).
Qed.

(** The entries of an indirect block. *)
Definition entries (d : list Z) : list Z := (λ q, get_uint (4 * q) d) <$> seqZ 0 NINDIRECT.

Lemma nz_app l1 l2 : nz (l1 ++ l2) = nz l1 ++ nz l2.
Proof. apply filter_app. Qed.

(** The order in which [itrunc] frees the blocks. *)
Lemma file_blocks_split blk A :
  length A = 13%nat →
  file_blocks blk A = nz (slice 0 (Z.to_nat NDIRECT) A) ++
    (if indirect A =? 0 then [] else nz (entries (default [] (blk !! indirect A))) ++ [indirect A]).
Proof.
  intros Hl. unfold file_blocks. rewrite (seqZ_split 0 NDIRECT), (seqZ_split (0 + NDIRECT) NINDIRECT), !fmap_app, !nz_app by done.
  f_equal.
  - f_equal. apply list_eq. intros k. rewrite list_lookup_fmap. unfold slice. rewrite drop_0.
    destruct (decide (k < 12)%nat) as [Hk|Hk].
    + rewrite lookup_seqZ_lt, lookup_take_lt by (unfold NDIRECT; lia). cbn [fmap option_fmap option_map].
      rewrite list_lookup_lookup_total_lt by lia. unfold slot. rewrite (proj2 (Z.ltb_lt _ _)) by (unfold NDIRECT; lia). do 2 f_equal. lia.
    + rewrite lookup_seqZ_ge, lookup_take_ge by (unfold NDIRECT; lia). done.
  - assert (slot blk A <$> seqZ (0 + NDIRECT) NINDIRECT = if indirect A =? 0 then replicate 128 0 else entries (default [] (blk !! indirect A))) as ->.
    { apply list_eq. intros k. rewrite list_lookup_fmap. destruct (decide (k < 128)%nat) as [Hk|Hk].
      - rewrite lookup_seqZ_lt by (change NINDIRECT with 128; lia). cbn [fmap option_fmap option_map].
        rewrite slot_through by (rewrite maxfile_eq; unfold NDIRECT; lia). destruct (indirect A =? 0).
        + symmetry. by apply lookup_replicate_2.
        + unfold entries. rewrite list_lookup_fmap, lookup_seqZ_lt by (change NINDIRECT with 128; lia). cbn [fmap option_fmap option_map].
          do 2 f_equal. lia.
      - rewrite lookup_seqZ_ge by (change NINDIRECT with 128; lia). symmetry. apply lookup_ge_None_2.
        destruct (indirect A =? 0); [rewrite length_replicate; lia|]. unfold entries. rewrite length_fmap, length_seqZ. change NINDIRECT with 128. lia. }
    change (slot blk A <$> seqZ (0 + NDIRECT + NINDIRECT) (MAXFILE + 1 - NDIRECT - NINDIRECT)) with [indirect A].
    destruct (Z.eqb_spec (indirect A) 0) as [->|Hn]; [done|]. f_equal. unfold nz. rewrite filter_cons, decide_True by done. done.
Qed.

(** Freeing blocks while a buffer is held. *)
Lemma freed_under sb v v' b h F :
  freed sb (v_hold b h false v) v' F → v_held v !! b = None →
  freed sb v (v_drop b v') F ∧ v_held v' !! b = Some (h, false).
Proof.
  intros [H1 H2 H3 H4 H5] Hn. cbn in H1. split; [|by rewrite H1, lookup_insert_eq].
  split; try done; [cbn; by rewrite H1, delete_insert_id|by apply (disk_ok_view sb v')].
Qed.

Lemma can_free_hold s v b h t :
  can_free s v → v_held v = ∅ → ¬ bitmap_block (sb s) b → b ≠ 1 → TR t (v_hold b h false v) →
  can_free (with_fb t s) (v_hold b h false v).
Proof.
  intros [C1 C2 C3 C4 C5] Hh Hnb H1 HR. split; try done; [by apply (disk_ok_view _ v)|]. cbn. rewrite Hh.
  split; [rewrite map_size_insert_None, map_size_empty by apply lookup_empty; vm_compute; lia|].
  split; [by rewrite lookup_insert_ne, lookup_empty by done|]. intros c Hc. by rewrite lookup_insert_ne, lookup_empty by (by intros <-).
Qed.

(** The indirect block and what it names. *)
Definition itrunc_rest (ip : nat) : M (fst_ T) unit :=
  i <- ino ip;;
  let a := indirect (addrs i) in
  when (negb (a =? 0)) (
    bp <- blocks (b_read (i_dev i) a);;
    itrunc_indirect (Z.to_nat NINDIRECT) 0 (i_dev i) bp;;
    blocks (b_rel bp);;
    bfree (i_dev i) a;;
    upd_ino ip (λ i, set_addrs (<[Z.to_nat NDIRECT := 0]> (addrs i)) i)).

Lemma itrunc_rest_ok s v ip i Q E :
  can_free s v → v_held v = ∅ → inodes s !! ip = Some i → i_dev i = ROOTDEV → length (addrs i) = 13%nat → indirect (addrs i) ≠ 1 →
  let l := if indirect (addrs i) =? 0 then [] else nz (entries (default [] (v_blk v !! indirect (addrs i)))) ++ [indirect (addrs i)] in
  all_freeable (sb s) v l →
  (∀ t v', TR t v' → freed (sb s) v v' (list_to_set l) →
    Q tt (with_ino t ip (set_addrs (<[Z.to_nat NDIRECT := 0]> (addrs i)) i) s)) →
  wpe (itrunc_rest ip) Q E s.
Proof.
  intros Hc Hh Hi Hdv Hl Hn1 l Hfr HQ. unfold itrunc_rest. apply wpe_bind. unfold ino at 1. apply wpe_gets.
  rewrite (list_lookup_total_correct _ _ _ Hi), Hdv. set (A := addrs i) in *. unfold l in *. clear l.
  destruct (lookup_lt_is_Some_2 A (Z.to_nat NDIRECT)) as [x Hx]; [rewrite Hl; unfold NDIRECT; lia|].
  destruct (Z.eqb_spec (indirect A) 0) as [H0|Hn]; cbn [negb when].
  { apply wpe_ret. rewrite (list_lookup_total_correct _ _ _ Hx) in H0. subst x. rewrite list_insert_id in HQ by done.
    assert (s = with_fb (fb s) s) as Hs by by destruct s. rewrite Hs, (with_ino_addrs _ ip i) by done.
    apply (HQ (fb s) v); [apply Hc|apply freed_nil, Hc]. }
  clear x Hx. set (a := indirect A) in *. set (d := default [] (v_blk v !! a)) in *.
  destruct (all_freeable_app _ _ _ _ Hfr) as [F1 F2].
  assert (freeable (sb s) v a) as (Ha & Hu & Hw & Hnb & Hni).
  { destruct Hfr as [_ [_ Hfa]%Forall_app]. by rewrite Forall_singleton in Hfa. }
  destruct (do_blk _ _ (cf_disk _ _ Hc) a) as [d0 Hbd]; [lia|]. assert (d0 = d) as -> by (unfold d; by rewrite Hbd).
  apply wpe_bind. eapply wp_b_read; [apply Hc|by apply readable_quiet|]. intros h t1 HR1 _.
  assert (v_held v !! a = None) as Hha by (by rewrite Hh, lookup_empty).
  apply wpe_bind. eapply (itrunc_indirect_ok _ _ _ (v_hold a h false v) a h d); cbn [with_fb sb]; try done.
  - by apply can_free_hold.
  - cbn. by rewrite lookup_insert_eq.
  - intros t2 v2 HR2 Hf2. destruct (freed_under _ _ _ _ _ _ Hf2 Hha) as [Hf2' Hh2]. apply wpe_bind.
    eapply (wp_b_rel _ _ a); [exact HR2|done|]. intros t3 HR3. apply wpe_bind. eapply (bfree_ok _ (v_drop a v2)); cbn [with_fb sb].
    + by apply (can_free_freed s _ v _ _ Hc Hf2').
    + destruct (F2 _ Hf2') as [_ Hfa]. by rewrite Forall_singleton in Hfa.
    + intros t4 v4 HR4 Hf4. unfold upd_ino. apply wpe_modify. cbn [with_fb fb sb ic_lock inodes].
      rewrite (list_lookup_total_correct _ _ _ Hi). apply (HQ t4 v4); [done|]. apply (freed_app _ _ (v_drop a v2)); [done|].
      by rewrite list_to_set_singleton_L.
Qed.

(** What [itrunc] leaves: an empty file, in memory and on disk, with its
    blocks, and only those, free; other files and inodes are as they were. *)
Record itrunc_done s (v : view) (ip : nat) (i : inode) s' (v' : view) : Prop := {
  td_at : file_at s' v' ip (set_isize 0 (set_addrs (replicate 13 0) i));
  td_rest : s' = with_ino (fb s') ip (set_isize 0 (set_addrs (replicate 13 0) i)) s;
  td_use b : 0 ≤ b < sb_size (sb s) → in_use v' (sb s) b = true ↔ in_use v (sb s) b = true ∧ ¬ owns (v_blk v) (addrs i) b;
  td_files A2 e2 : file_ok (sb s) v A2 e2 → disjoint_files v (addrs i) A2 →
    file_ok (sb s) v' A2 e2 ∧ contents (v_blk v') A2 e2 = contents (v_blk v) A2 e2;
  td_inodes n j : 0 ≤ n < sb_ninodes (sb s) → n ≠ inum i → disk_inode v' (sb s) n j = disk_inode v (sb s) n j;
  td_logged : IBLOCK (inum i) (sb s) ∈ v_logged v';
}.

Lemma slot_empty blk k : 0 ≤ k → slot blk (replicate 13 0) k = 0.
Proof.
  intros Hk. unfold slot. destruct (Z.ltb_spec k NDIRECT); [|by destruct (k <? MAXFILE)].
  apply lookup_total_replicate_2. unfold NDIRECT in *. lia.
Qed.

Lemma file_ok_empty sb v : file_ok sb v (replicate 13 0) 0.
Proof.
  split; try done.
  - intros k Hk. by rewrite slot_empty by lia.
  - intros k k' Hk _. by rewrite slot_empty by lia.
  - intros k Hk. change (nblocks 0) with 0 in Hk. lia.
Qed.

(** Other files and the inodes when blocks are freed. *)
Lemma freed_other sb v v' A A2 e2 :
  freed sb v v' (list_to_set (file_blocks (v_blk v) A)) → file_ok sb v A2 e2 → disjoint_files v A A2 →
  file_ok sb v' A2 e2 ∧ same_bytes v A2 v' A2.
Proof.
  intros Hf H2 Hdis. apply (file_ok_frame sb v v' A2 e2); [done|..].
  - intros b (H0 & k & Hk & <-). apply (fr_blk _ _ _ _ Hf). by apply (fo_own _ _ _ _ H2).
  - intros b Hb. pose proof (Hdis b Hb) as Hno. destruct Hb as (H0 & k & Hk & <-). destruct (fo_own _ _ _ _ H2 k Hk H0) as (H3 & H4 & _).
    rewrite (fr_use _ _ _ _ Hf), H4, bool_decide_eq_false_2; [done| |lia]. by rewrite elem_of_list_to_set, elem_of_file_blocks.
Qed.

Lemma freed_inodes sb v v' F n j :
  freed sb v v' F → disk_ok sb v → 0 ≤ n < sb_ninodes sb → disk_inode v' sb n j = disk_inode v sb n j.
Proof.
  intros Hf Hd Hn. unfold disk_inode. rewrite (fr_blk _ _ _ _ Hf); [done|]. intros Hb.
  apply (do_apart _ _ Hd (IBLOCK n sb)); [done|by exists n].
Qed.

Lemma itrunc_done_ok s v ip i t v' d :
  file_at s v ip i → freed (sb s) v v' (list_to_set (file_blocks (v_blk v) (addrs i))) →
  let i' := set_isize 0 (set_addrs (replicate 13 0) i) in let b := IBLOCK (inum i) (sb s) in
  let v2 := v_log b (v_write b (put_dinode (dinode_off (inum i)) i' d) v') in
  TR t v2 → v_blk v' !! b = Some d → length d = Z.to_nat BSIZE → dinode_ok i' → itrunc_done s v ip i (with_ino t ip i' s) v2.
Proof.
  intros [F1 F2 F3 F4 F5 F6 F7 F8 F9 F10] Hf i' b v2 HR Hbd Hld Hok.
  pose proof (fr_disk _ _ _ _ Hf) as Hd'. assert (inode_block (sb s) b) as Hib by by exists (inum i).
  destruct (put_inode_block (sb s) v' b (put_dinode (dinode_off (inum i)) i' d) Hd' Hib) as (P1 & P2 & P3). fold v2 in P1, P2, P3.
  assert (∀ n j, 0 ≤ n < sb_ninodes (sb s) → disk_inode v2 (sb s) n j = if decide (n = inum i) then
    mk_inode (i_dev j) (inum j) (ref j) (i_lock j) (valid j) (i_type i') (major i') (minor i') (nlink i') (i_size i') (addrs i')
    else disk_inode v' (sb s) n j) as Hino.
  { intros n j Hn. apply (disk_inode_update v' (sb s) i' d n j Hok); try done; by apply (do_inodes _ _ F3). }
  split.
  - split; try done; cbn [with_ino fb sb inodes].
    + unfold v2. by rewrite v_put_held, (fr_held _ _ _ _ Hf).
    + apply list_lookup_insert_eq. by eapply lookup_lt_Some.
    + apply file_ok_empty.
    + intros j. fold i'. change (inum i') with (inum i). by rewrite Hino, decide_True by done.
  - done.
  - intros c Hc. rewrite P2, (fr_use _ _ _ _ Hf) by done. rewrite andb_true_iff, negb_true_iff, bool_decide_eq_false.
    by rewrite elem_of_list_to_set, elem_of_file_blocks.
  - intros A2 e2 H1 H2. destruct (freed_other _ _ _ _ _ _ Hf H1 H2) as [G1 G2]. destruct (P3 A2 e2 G1) as (_ & P8 & P9).
    pose proof (proj2 (fo_max _ _ _ _ H1)). split; [done|]. by rewrite (same_bytes_contents _ A2 _ A2 e2 P9), (same_bytes_contents _ A2 _ A2 e2 G2).
  - intros n j Hn Hne. rewrite Hino, decide_False by done. by apply (freed_inodes _ v v' _ _ _ Hf).
  - unfold v2. rewrite v_log_logged. by apply elem_of_union_l, elem_of_singleton.
Qed.

Lemma wpe_assoc {A B C} (m : M (fst_ T) A) (f : A → M (fst_ T) B) (g : B → M (fst_ T) C) Q E s :
  wpe (bind (bind m f) g) Q E s → wpe (bind m (λ a, bind (f a) g)) Q E s.
Proof. unfold wpe, bind. by destruct (m s) as [[a s']|e]. Qed.

Lemma splice_direct A : length A = 13%nat → splice 0 (replicate (Z.to_nat NDIRECT) 0) A = replicate 12 0 ++ [indirect A].
Proof. intros Hl. do 13 (destruct A as [|? A]; [done|]). by destruct A. Qed.

(** The end of [itrunc]: the inode goes to the disk. *)
Lemma itrunc_finish s v ip i t v' Q E :
  file_at s v ip i → freed (sb s) v v' (list_to_set (file_blocks (v_blk v) (addrs i))) → TR t v' → (0 < v_room v')%nat →
  (∀ s' v', itrunc_done s v ip i s' v' → Q tt s') →
  wpe (upd_ino ip (set_isize 0);; iupdate ip) Q E (with_ino t ip (set_addrs (replicate 13 0) i) s).
Proof.
  intros Hat Hf HR Hroom HQ. pose proof (lookup_lt_Some _ _ _ (fa_ino _ _ _ _ Hat)) as Hip. pose proof (fr_disk _ _ _ _ Hf) as Hd'.
  apply wpe_bind, wpe_modify. cbn [with_ino fb sb ic_lock inodes]. rewrite list_lookup_total_insert_eq, list_insert_insert_eq by done.
  set (i' := set_isize 0 (set_addrs (replicate 13 0) i)).
  assert (dinode_ok i') as Hok by (apply (dinode_ok_new (writable := writable) (sb s) v'); [apply Hat|done|apply file_ok_empty]).
  assert (inode_block (sb s) (IBLOCK (inum i) (sb s))) as Hib by (exists (inum i); split; [apply Hat|done]).
  destruct (do_meta _ _ Hd' _ (or_intror Hib)) as (Hr1 & _ & Hw1). destruct (do_blk _ _ Hd' _ Hr1) as [d Hbd].
  eapply (iupdate_ok _ v' ip i' d); cbn [fb sb inodes]; try done.
  - by rewrite list_lookup_total_insert_eq by done.
  - apply Hat.
  - apply (fa_inum _ _ _ _ Hat).
  - apply readable_quiet; [|done]. rewrite (fr_held _ _ _ _ Hf). apply Hat.
  - by right.
  - intros t' HR'. eapply HQ. apply (itrunc_done_ok s v ip i t' v' d); try done. by apply (bs_len _ _ _ _ HR Hbd).
Qed.

Lemma itrunc_ok s v ip i Q E :
  file_at s v ip i → super_ok (sb s) v → ¬ owns (v_blk v) (addrs i) 1 → (map_left (sb s) v < v_room v)%nat →
  (∀ s' v', itrunc_done s v ip i s' v' → Q tt s') → wpe (itrunc ip) Q E s.
Proof.
  intros Hat Hsup Hn1 Hroom HQ. destruct (Hat) as [F1 F2 F3 F4 F5 F6 F7 F8 F9 F10].
  pose proof (fo_len _ _ _ _ F9) as Hl. pose proof (lookup_lt_Some _ _ _ F4) as Hip.
  pose proof (file_blocks_freeable _ _ _ _ F9) as Hfr. rewrite file_blocks_split in Hfr by done.
  destruct (all_freeable_app _ _ _ _ Hfr) as [Hfr1 Hfr2].
  assert (can_free s v) as Hcf.
  { split; try done; [|lia]. rewrite F2, map_size_empty, lookup_empty. split; [vm_compute; lia|]. split; [done|]. intros c _. apply lookup_empty. }
  unfold itrunc. apply wpe_bind. eapply (itrunc_direct_ok _ 0 s v ip i); try done; [rewrite Hl; unfold NDIRECT; lia|].
  intros t1 v1 HR1 Hf1. set (A1 := splice 0 (replicate (Z.to_nat NDIRECT) 0) (addrs i)).
  assert (A1 = replicate 12 0 ++ [indirect (addrs i)]) as HA1 by (by apply splice_direct).
  assert (indirect A1 = indirect (addrs i)) as Hind by (by rewrite HA1).
  assert (v_blk v1 !! indirect (addrs i) = v_blk v !! indirect (addrs i) ∨ indirect (addrs i) = 0) as Hblk.
  { destruct (decide (indirect (addrs i) = 0)) as [|Hn]; [by right|left]. apply (fr_blk _ _ _ _ Hf1).
    by apply (fo_own _ _ _ _ F9 MAXFILE). }
  apply (wpe_assoc (ino ip) (λ i, when (negb (indirect (addrs i) =? 0)) _)). apply wpe_bind.
  eapply (itrunc_rest_ok _ v1 ip (set_addrs A1 i)); cbn [with_ino fb sb inodes addrs set_addrs i_dev]; rewrite ?Hind.
  - by apply (can_free_freed s _ v v1 _ Hcf Hf1).
  - by rewrite (fr_held _ _ _ _ Hf1).
  - by apply list_lookup_insert_eq.
  - done.
  - by rewrite HA1.
  - intros E1. apply Hn1. split; [done|]. exists MAXFILE. split; [done|]. by rewrite slot_indirect.
  - destruct (Z.eqb_spec (indirect (addrs i)) 0) as [E0|E0]; [by apply Hfr2|]. destruct Hblk as [->|?]; [|done]. by apply Hfr2.
  - intros t2 v2 HR2 Hf2.
    assert (freed (sb s) v v2 (list_to_set (file_blocks (v_blk v) (addrs i)))) as Hf.
    { rewrite file_blocks_split by done. apply (freed_app _ _ v1); [done|].
      destruct (Z.eqb_spec (indirect (addrs i)) 0) as [E0|E0]; [done|]. by destruct Hblk as [<-|?]. }
    assert (<[Z.to_nat NDIRECT := 0]> A1 = replicate 13 0) as HA2 by (by rewrite HA1). rewrite HA2, with_ino_with_ino. cbn [set_addrs].
    eapply (itrunc_finish s v ip i t2 v2); try done. pose proof (fr_room _ _ _ _ Hf). lia.
Qed.

(** ** iput *)

Lemma wp_on_ilock {A} s ip i (m : M sleeplock A) a l Q E :
  inodes s !! ip = Some i → m (i_lock i) = Done (a, l) → Q a (with_ino (fb s) ip (set_i_lock l i) s) → wpe (on_ilock ip m) Q E s.
Proof.
  intros Hi Hm HQ. unfold on_ilock, wpe, zoom. by rewrite (list_lookup_total_correct _ _ _ Hi), Hm.
Qed.

Lemma wp_ic_peek {B} s ip i me (k : inode → M (fst_ T) B) Q E :
  inodes s !! ip = Some i → lock_free (ic_lock s) → wpe (k i) Q E s →
  wpe (on_ic_lock (acquire me);; i <- ino ip;; on_ic_lock (release me);; k i) Q E s.
Proof.
  intros Hi Hl HQ. unfold on_ic_lock. apply wpe_bind, wpe_zoom. unfold wpe at 1. rewrite acquire_free by done.
  apply wpe_bind. unfold ino at 1. apply wpe_gets. cbn [inodes]. rewrite (list_lookup_total_correct _ _ _ Hi).
  apply wpe_bind, wpe_zoom. unfold wpe at 1. cbn [ic_lock]. rewrite release_held. cbn [fb sb inodes].
  rewrite <-(lock_free_eq _ Hl). by destruct s.
Qed.

Lemma wp_ic_update s ip i me f Q E :
  inodes s !! ip = Some i → lock_free (ic_lock s) → Q tt (with_ino (fb s) ip (f i) s) →
  wpe (on_ic_lock (acquire me);; upd_ino ip f;; on_ic_lock (release me)) Q E s.
Proof.
  intros Hi Hl HQ. unfold on_ic_lock. apply wpe_bind, wpe_zoom. unfold wpe at 1. rewrite acquire_free by done.
  apply wpe_bind. unfold upd_ino. apply wpe_modify. cbn [inodes fb sb ic_lock]. rewrite (list_lookup_total_correct _ _ _ Hi).
  apply wpe_zoom. unfold wpe at 1. cbn [ic_lock]. rewrite release_held. cbn [fb sb inodes].
  rewrite <-(lock_free_eq _ Hl). done.
Qed.

(** A change of the inode that the disk does not see. *)
Lemma file_at_cached s v ip i i' :
  file_at s v ip i → i_dev i' = i_dev i → inum i' = inum i → i_type i' = i_type i → major i' = major i → minor i' = minor i →
  nlink i' = nlink i → i_size i' = i_size i → addrs i' = addrs i → file_at (with_ino (fb s) ip i' s) v ip i'.
Proof.
  intros [F1 F2 F3 F4 F5 F6 F7 F8 F9 F10] E1 E2 E3 E4 E5 E6 E7 E8.
  split; cbn [with_ino fb sb inodes]; unfold dinode_ok in *; rewrite ?E1, ?E2, ?E3, ?E4, ?E5, ?E6, ?E7, ?E8; try done.
  apply list_lookup_insert_eq. by eapply lookup_lt_Some.
Qed.

(** What is left when the file goes away: the entry of the cache is free and
    not valid, the inode on disk has no type, the blocks of the file are free. *)
Record iput_freed s (v : view) (ip : nat) (i : inode) s' (v' : view) : Prop := {
  pf_cache : s' = with_ino (fb s') ip
    (mk_inode ROOTDEV (inum i) 0 (i_lock i) 0 0 (major i) (minor i) 0 0 (replicate 13 0)) s;
  pf_blocks : TR (fb s') v' ∧ v_held v' = ∅ ∧ disk_ok (sb s) v';
  pf_use b : 0 ≤ b < sb_size (sb s) → in_use v' (sb s) b = true ↔ in_use v (sb s) b = true ∧ ¬ owns (v_blk v) (addrs i) b;
  pf_files A2 e2 : file_ok (sb s) v A2 e2 → disjoint_files v (addrs i) A2 →
    file_ok (sb s) v' A2 e2 ∧ contents (v_blk v') A2 e2 = contents (v_blk v) A2 e2;
  pf_inode j : i_type (disk_inode v' (sb s) (inum i) j) = 0;
  pf_inodes n j : 0 ≤ n < sb_ninodes (sb s) → n ≠ inum i → disk_inode v' (sb s) n j = disk_inode v (sb s) n j;
}.

(** The part of [iput] that frees the inode. *)
Lemma ifree_ok s v ip i Q E :
  file_at s v ip i → super_ok (sb s) v → ¬ owns (v_blk v) (addrs i) 1 → (map_left (sb s) v < v_room v)%nat →
  (∀ t s1 v1 d, itrunc_done s v ip i s1 v1 →
    let i2 := set_type 0 (set_isize 0 (set_addrs (replicate 13 0) i)) in let b := IBLOCK (inum i) (sb s) in
    let v2 := v_log b (v_write b (put_dinode (dinode_off (inum i)) i2 d) v1) in
    v_blk v1 !! b = Some d → length d = Z.to_nat BSIZE → dinode_ok i2 → TR t v2 → Q tt (with_ino t ip (set_valid 0 i2) s)) →
  wpe (itrunc ip;; upd_ino ip (set_type 0);; iupdate ip;; upd_ino ip (set_valid 0)) Q E s.
Proof.
  intros Hat Hsup Hn1 Hroom HQ. pose proof (lookup_lt_Some _ _ _ (fa_ino _ _ _ _ Hat)) as Hip.
  apply wpe_bind. eapply itrunc_ok; try done. intros s1 v1 Hd. pose proof (td_at _ _ _ _ _ _ Hd) as Hat1.
  pose proof (td_rest _ _ _ _ _ _ Hd) as Hs1. rewrite Hs1. set (i1 := set_isize 0 (set_addrs (replicate 13 0) i)) in *.
  assert (sb s1 = sb s) as Hsb by (by rewrite Hs1). apply wpe_bind, wpe_modify. cbn [with_ino fb sb ic_lock inodes].
  rewrite list_lookup_total_insert_eq, list_insert_insert_eq by done. set (i2 := set_type 0 i1).
  assert (dinode_ok i2) as Hok.
  { destruct (fa_dinode _ _ _ _ Hat1) as (H1 & H2). split; [|done]. intros x [->|Hx]%elem_of_cons; [done|]. apply H1. by apply list_elem_of_further. }
  pose proof (fa_disk _ _ _ _ Hat1) as Hd1. rewrite Hsb in Hd1. pose proof (fa_blocks _ _ _ _ Hat1) as HR1.
  assert (inode_block (sb s) (IBLOCK (inum i) (sb s))) as Hib by (exists (inum i); split; [apply Hat|done]).
  destruct (do_meta _ _ Hd1 _ (or_intror Hib)) as (Hr1 & _ & Hw1). destruct (do_blk _ _ Hd1 _ Hr1) as [d Hbd].
  apply wpe_bind. eapply (iupdate_ok _ v1 ip i2 d); cbn [fb sb inodes]; try done.
  - by rewrite list_lookup_total_insert_eq by done.
  - apply Hat.
  - apply (fa_inum _ _ _ _ Hat).
  - apply readable_quiet; [apply Hat1|done].
  - left. apply (td_logged _ _ _ _ _ _ Hd).
  - intros t HR. unfold upd_ino. apply wpe_modify. cbn [with_fb fb sb ic_lock inodes].
    rewrite list_lookup_total_insert_eq, list_insert_insert_eq by done. apply (HQ t s1 v1 d); try done. by apply (bs_len _ _ _ _ HR1 Hbd).
Qed.

Lemma iput_freed_ok s v ip i s1 v1 d t :
  file_at s v ip i → nlink i = 0 → itrunc_done s v ip i s1 v1 →
  let i2 := set_type 0 (set_isize 0 (set_addrs (replicate 13 0) i)) in let b := IBLOCK (inum i) (sb s) in
  let v2 := v_log b (v_write b (put_dinode (dinode_off (inum i)) i2 d) v1) in
  v_blk v1 !! b = Some d → length d = Z.to_nat BSIZE → dinode_ok i2 → TR t v2 →
  iput_freed s v ip i (with_ino t ip (mk_inode ROOTDEV (inum i) 0 (i_lock i) 0 0 (major i) (minor i) 0 0 (replicate 13 0)) s) v2.
Proof.
  intros Hat Hnl [D1 D2 D3 D4 D5 D6] i2 b v2 Hbd Hld Hok HR. assert (sb s1 = sb s) as Hsb by (by rewrite D2).
  pose proof (fa_disk _ _ _ _ D1) as Hd1. rewrite Hsb in Hd1.
  assert (inode_block (sb s) b) as Hib by (exists (inum i); split; [apply Hat|done]).
  destruct (put_inode_block (sb s) v1 b (put_dinode (dinode_off (inum i)) i2 d) Hd1 Hib) as (P1 & P2 & P3). fold v2 in P1, P2, P3.
  assert (∀ n j, 0 ≤ n < sb_ninodes (sb s) → disk_inode v2 (sb s) n j = if decide (n = inum i) then
    mk_inode (i_dev j) (inum j) (ref j) (i_lock j) (valid j) (i_type i2) (major i2) (minor i2) (nlink i2) (i_size i2) (addrs i2)
    else disk_inode v1 (sb s) n j) as Hino.
  { intros n j Hn. apply (disk_inode_update v1 (sb s) i2 d n j Hok); try done; apply (do_inodes _ _ Hd1); [apply Hat|done]. }
  split; try done; cbn [with_ino fb].
  - split; [done|]. split; [|done]. unfold v2. rewrite v_put_held. apply D1.
  - intros c Hc. rewrite P2 by done. by apply D3.
  - intros A2 e2 H1 H2. destruct (D4 A2 e2 H1 H2) as [G1 G2]. destruct (P3 A2 e2 G1) as (_ & P8 & P9). split; [done|].
    rewrite <-G2. apply same_bytes_contents; [done|]. apply (fo_max _ _ _ _ H1).
  - intros j. rewrite Hino, decide_True; [done|done|apply Hat].
  - intros n j Hn Hne. rewrite Hino, decide_False by done. by apply D5.
Qed.

Lemma iput_tail me s ip i name pid Q E :
  inodes s !! ip = Some i → i_lock i = sl_held name pid → lock_free (ic_lock s) →
  Q tt (with_ino (fb s) ip (set_ref (s32 (ref i - 1)) (set_i_lock (sl_free name) i)) s) →
  wpe (on_ilock ip (releasesleep me);; on_ic_lock (acquire me);; upd_ino ip (λ i, set_ref (s32 (ref i - 1)) i);; on_ic_lock (release me)) Q E s.
Proof.
  intros Hi Hlk Hl HQ. pose proof (lookup_lt_Some _ _ _ Hi) as Hip. apply wpe_bind.
  eapply (wp_on_ilock s ip i); [done|rewrite Hlk; apply releasesleep_held|].
  eapply wp_ic_update; [by apply list_lookup_insert_eq|done|]. by rewrite with_ino_with_ino.
Qed.

(** The part of [iput] under the sleep lock. *)
Definition iput_body (me : nat) (ip : nat) (i : inode) : M (fst_ T) unit :=
  when (negb (valid i =? 0) && (nlink i =? 0)) (
    on_ic_lock (acquire me);;
    i <- ino ip;;
    on_ic_lock (release me);;
    when (ref i =? 1) (itrunc ip;; upd_ino ip (set_type 0);; iupdate ip;; upd_ino ip (set_valid 0))).

Lemma iput_start me pid s ip i name Q E :
  inodes s !! ip = Some i → i_lock i = sl_free name → let ia := set_i_lock (sl_held name pid) i in
  wpe (iput_body me ip ia) (λ _ s1, wpe (on_ilock ip (releasesleep me);; on_ic_lock (acquire me);;
    upd_ino ip (λ i, set_ref (s32 (ref i - 1)) i);; on_ic_lock (release me)) Q E s1) E (with_ino (fb s) ip ia s) →
  wpe (iput me pid ip) Q E s.
Proof.
  intros Hi Hlk ia H. unfold iput. apply wpe_bind. eapply (wp_on_ilock s ip i); [done|rewrite Hlk; apply acquiresleep_free|].
  apply wpe_bind. unfold ino at 1. apply wpe_gets. cbn [with_ino inodes].
  rewrite list_lookup_total_insert_eq by (by eapply lookup_lt_Some). by apply wpe_bind.
Qed.

(** References remain, or links do: the count goes down. *)
Lemma iput_keep me pid s ip i name :
  inodes s !! ip = Some i → i_lock i = sl_free name → lock_free (ic_lock s) →
  negb (valid i =? 0) && (nlink i =? 0) && (ref i =? 1) = false →
  iput me pid ip s = Done (tt, with_ino (fb s) ip (set_ref (s32 (ref i - 1)) i) s).
Proof.
  intros Hi Hlk Hl Hc. pose proof (lookup_lt_Some _ _ _ Hi) as Hip. set (ia := set_i_lock (sl_held name pid) i).
  assert (inodes (with_ino (fb s) ip ia s) !! ip = Some ia) as Hia by by apply list_lookup_insert_eq.
  assert (wp (iput me pid ip) (λ _ s1, s1 = with_ino (fb s) ip (set_ref (s32 (ref i - 1)) i) s) s) as H.
  2: { unfold wpe, no_err in H. by destruct (iput me pid ip s) as [[[] ?]|]; subst. }
  eapply iput_start; [done..|]. fold ia.
  assert (wp (on_ilock ip (releasesleep me);; on_ic_lock (acquire me);; upd_ino ip (λ i, set_ref (s32 (ref i - 1)) i);; on_ic_lock (release me))
    (λ _ s1, s1 = with_ino (fb s) ip (set_ref (s32 (ref i - 1)) i) s) (with_ino (fb s) ip ia s)) as Hend.
  { eapply (iput_tail _ _ _ ia); [done..|]. rewrite with_ino_with_ino.
    by replace (set_i_lock (sl_free name) ia) with i by (destruct i; cbn in *; by subst). }
  unfold iput_body. change (valid ia) with (valid i). change (nlink ia) with (nlink i).
  destruct (negb (valid i =? 0) && (nlink i =? 0)); cbn [andb when] in *; [|by apply wpe_ret].
  eapply wp_ic_peek; [done|done|]. change (ref ia) with (ref i). rewrite Hc. by apply wpe_ret.
Qed.

(** The last reference to an inode without links. *)
Lemma iput_last me pid s v ip i name Q E :
  file_at s v ip i → i_lock i = sl_free name → lock_free (ic_lock s) →
  super_ok (sb s) v → ¬ owns (v_blk v) (addrs i) 1 → (map_left (sb s) v < v_room v)%nat →
  valid i ≠ 0 → nlink i = 0 → ref i = 1 →
  (∀ s' v', iput_freed s v ip i s' v' → Q tt s') → wpe (iput me pid ip) Q E s.
Proof.
  intros Hat Hlk Hl Hsup Hn1 Hroom Hv Hnl Hr HQ. pose proof (fa_ino _ _ _ _ Hat) as Hi. pose proof (lookup_lt_Some _ _ _ Hi) as Hip.
  eapply iput_start; [done..|]. set (ia := set_i_lock (sl_held name pid) i). set (sa := with_ino (fb s) ip ia s).
  assert (file_at sa v ip ia) as Hata by by apply (file_at_cached s v ip i).
  unfold iput_body. change (valid ia) with (valid i). change (nlink ia) with (nlink i).
  rewrite (proj2 (Z.eqb_neq _ _) Hv), Hnl. cbn [negb andb Z.eqb when].
  eapply wp_ic_peek; [apply Hata|done|]. change (ref ia) with (ref i). rewrite Hr. cbn [Z.eqb Pos.eqb when].
  eapply (ifree_ok sa v ip ia); try done. intros t s1 v1 d Hd i2 b v2 Hbd Hld Hok HR.
  pose proof (iput_freed_ok sa v ip ia s1 v1 d t Hata Hnl Hd Hbd Hld Hok HR) as [P1 P2 P3 P4 P5 P6].
  eapply (iput_tail _ _ _ (set_valid 0 i2)).
  { apply list_lookup_insert_eq. unfold sa, with_ino. cbn [inodes]. by rewrite length_insert. }
  { done. }
  { done. }
  apply (HQ _ v2). split; try done. unfold sa. rewrite !with_ino_with_ino. cbn [with_ino fb]. f_equal.
  unfold i2, ia, set_ref, set_i_lock, set_valid, set_type, set_isize, set_addrs. cbn [i_dev inum ref i_lock valid i_type major minor nlink i_size addrs].
  by rewrite (fa_dev _ _ _ _ Hat), Hr, Hnl, Hlk.
Qed.

(** C18: [iput] of the last reference to a loaded inode without links frees
    the file: its blocks, direct and indirect and the indirect block itself,
    and no others, are free in the bitmap, the inode on disk has no type, and
    every other file and inode is as it was.  In every other case it only
    drops the reference. *)
Theorem iput_correct me pid s v ip i name :
  file_at s v ip i → i_lock i = sl_free name → lock_free (ic_lock s) →
  super_ok (sb s) v → ¬ owns (v_blk v) (addrs i) 1 → (map_left (sb s) v < v_room v)%nat →
  if negb (valid i =? 0) && (nlink i =? 0) && (ref i =? 1)
  then wp (iput me pid ip) (λ _ s', ∃ v', iput_freed s v ip i s' v') s
  else iput me pid ip s = Done (tt, with_ino (fb s) ip (set_ref (s32 (ref i - 1)) i) s).
Proof.
  intros Hat Hlk Hl Hsup Hn1 Hroom. destruct (negb (valid i =? 0) && (nlink i =? 0) && (ref i =? 1)) eqn:Ec.
  - apply andb_true_iff in Ec as [[Hv%negb_true_iff%Z.eqb_neq Hnl%Z.eqb_eq]%andb_true_iff Hr%Z.eqb_eq].
    eapply (iput_last me pid s v ip i name); eauto.
  - apply (iput_keep me pid s ip i name); [apply Hat|done..].
Qed.
End on_blocks.

Lemma demo_super : super_ok DataDemo.demo_sb DataDemo.demo_view.
Proof.
  split; [by intros ?%DataDemo.bitmap_at|]. split; [by intros ?%DataDemo.inodes_at|].
  eexists. split; [by apply lookup_insert_eq|]. by vm_compute.
Qed.

Lemma demo_not_super : ¬ owns (v_blk DataDemo.demo_view) (addrs DataDemo.demo_file) 1.
Proof.
  intros (_ & k & Hk & E). change (slot DataDemo.demo_blocks (addrs DataDemo.demo_file) k = 1) in E. rewrite maxfile_eq in Hk.
  rewrite DataDemo.slots in E by lia. by destruct (k =? 0).
Qed.
#[local] Existing Instances Mem.mem_layer Mem.mem_spec.

Lemma iput_correct_witness :
  match iput 0 7 0 DataDemo.fs with
  | Done (_, s') => (i_type <$> inodes s', ref <$> inodes s') = ([0], [0])
  | Fail _ => False
  end.
Proof.
  pose proof (iput_correct (TR := Mem.mem_R) (writable := Mem.any) 0 7 DataDemo.fs DataDemo.demo_view 0 DataDemo.demo_file "inode"
    DataDemo.demo_file_at eq_refl) as H.
  change (negb (valid DataDemo.demo_file =? 0) && (nlink DataDemo.demo_file =? 0) && (ref DataDemo.demo_file =? 1)) with true in H.
  cbv iota in H. revert H. unfold wpe. destruct (iput _ _ _ _) as [[[] s']|e]; intros H.
  - destruct H as (v' & Hf); [done|apply demo_super|apply demo_not_super|by vm_compute; lia|].
    rewrite (pf_cache _ _ _ _ _ _ Hf). done.
  - apply H; [done|apply demo_super|apply demo_not_super|by vm_compute; lia].
Defined.
