(* ===== verification/Mkfs.v ===== *)
(** * mkfs.c: building the disk image

    The program that makes the file system image on the host.  Its state is
    the image, sector by sector, and the two counters.  Reads and writes of
    the image succeed on sectors that exist; a file to be copied is the list
    of pieces in which [read] returns it.  [struct dinode] is an [inode] of
    fs.c of which only the fields on disk matter.  A failed assertion, and an
    exit after [perror], is a [panic]. *)

From S2P Require Import Prelude Spinlock Buf Log Tx Fs.

Module Mkfs.
Definition NINODES : Z := 200.

Definition nbitmap : Z := FSSIZE / (BSIZE * 8) + 1.
Definition ninodeblocks : Z := NINODES / IPB + 1.
Definition nlog : Z := LOGSIZE.
Definition nmeta : Z := 2 + nlog + ninodeblocks + nbitmap.
Definition n_data_blocks : Z := FSSIZE - nmeta.

(** [sb], as [main] fills it. *)
Definition msb : superblock :=
  mk_superblock FSSIZE n_data_blocks NINODES nlog 2 (2 + nlog) (2 + nlog + ninodeblocks).

Record mst := mk_mst { image : gmap Z (list Z); freeinode : Z; freeblock : Z }.

Definition zeroes : list Z := replicate (Z.to_nat BSIZE) 0.

Definition wsect (sec : Z) (buf : list Z) : M mst unit :=
  modify (λ s, mk_mst (<[sec := buf]> (image s)) (freeinode s) (freeblock s)).

Definition rsect (sec : Z) : M mst (list Z) :=
  s <- get;;
  match image s !! sec with Some buf => ret buf | None => panic "read" end.

Definition winode (inum : Z) (ip : inode) : M mst unit :=
  let bn := IBLOCK inum msb in
  buf <- rsect bn;;
  wsect bn (put_dinode (dinode_off inum) ip buf).

Definition rinode (inum : Z) : M mst inode :=
  let bn := IBLOCK inum msb in
  buf <- rsect bn;;
  ret (load_dinode (dinode_off inum) buf zero_inode).

(** The dinode zeroed by [bzero], with its type and one link. *)
Definition fresh_dinode (type : Z) : inode := set_isize 0 (set_nlink 1 (set_type type zero_inode)).

Definition ialloc (type : Z) : M mst Z :=
  inum <- gets freeinode;;
  modify (λ s, mk_mst (image s) (u32 (freeinode s + 1)) (freeblock s));;
  winode inum (fresh_dinode type);;
  ret inum.

(** [for(i = 0; i < used; i++)] *)
Fixpoint set_bits (n : nat) (i : Z) (buf : list Z) : list Z :=
  match n with
  | O => buf
  | S n' => set_bits n' (i + 1) (set_bit i buf)
  end.

Definition balloc (used : Z) : M mst unit :=
  if negb (used <? BSIZE * 8) then panic "assert"
  else wsect (sb_bmapstart msb) (set_bits (Z.to_nat used) 0 zeroes).

(** [freeblock++] *)
Definition next_block : M mst Z :=
  b <- gets freeblock;;
  modify (λ s, mk_mst (image s) (freeinode s) (u32 (freeblock s + 1)));;
  ret b.

(** The block for byte [off] of the file, [fbn = off / BSIZE]: the changed
    dinode and the number of the block. *)
Definition find_block (din : inode) (fbn : Z) : M mst (inode * Z) :=
  if fbn <? NDIRECT then
    if addrs din !!! Z.to_nat fbn =? 0 then
      b <- next_block;;
      ret (set_addrs (<[Z.to_nat fbn := b]> (addrs din)) din, b)
    else ret (din, addrs din !!! Z.to_nat fbn)
  else
    din <- (if addrs din !!! Z.to_nat NDIRECT =? 0 then
              b <- next_block;;
              ret (set_addrs (<[Z.to_nat NDIRECT := b]> (addrs din)) din)
            else ret din);;
    ind <- rsect (addrs din !!! Z.to_nat NDIRECT);;
    let x := get_uint (4 * (fbn - NDIRECT)) ind in
    if x =? 0 then
      b <- next_block;;
      wsect (addrs din !!! Z.to_nat NDIRECT) (put_int (4 * (fbn - NDIRECT)) b ind);;
      ret (din, b)
    else ret (din, x).

(** [while(n > 0)]; [p] is what is left to append. *)
Fixpoint iappend_loop (fuel : nat) (din : inode) (off : Z) (p : list Z) : M mst (inode * Z) :=
  match fuel with
  | O => fail EFuel
  | S fuel' =>
      let n := Z.of_nat (length p) in
      if n <=? 0 then ret (din, off)
      else
        let fbn := off / BSIZE in
        if negb (fbn <? MAXFILE) then panic "assert"
        else
          r <- find_block din fbn;;
          let n1 := Z.min n ((fbn + 1) * BSIZE - off) in
          buf <- rsect (snd r);;
          wsect (snd r) (splice (Z.to_nat (off - fbn * BSIZE)) (take (Z.to_nat n1) p) buf);;
          iappend_loop fuel' (fst r) (off + n1) (drop (Z.to_nat n1) p)
  end.

Definition iappend (inum : Z) (p : list Z) : M mst unit :=
  din <- rinode inum;;
  r <- iappend_loop (S (length p)) din (i_size din) p;;
  winode inum (set_isize (snd r) (fst r)).

Definition UNDERSCORE : Z := 95.

(** A file of the command line: its name, and what reading it returns, if it
    can be opened. *)
Definition arg : Type := list Z * option (list (list Z)).

Definition fs_name (name : list Z) : list Z :=
  match name with c :: r => if c =? UNDERSCORE then r else name | [] => [] end.

Fixpoint copy_in (inum : Z) (pieces : list (list Z)) : M mst unit :=
  match pieces with
  | [] => ret tt
  | p :: pieces' => iappend inum p;; copy_in inum pieces'
  end.

Definition add_file (rootino : Z) (a : arg) : M mst unit :=
  if bool_decide (SLASH ∈ fst a) then panic "assert"
  else match snd a with
       | None => panic "open"
       | Some pieces =>
           inum <- ialloc T_FILE;;
           iappend rootino (encode_dirent inum (fs_name (fst a)));;
           copy_in inum pieces
       end.

Fixpoint add_files (rootino : Z) (l : list arg) : M mst unit :=
  match l with
  | [] => ret tt
  | a :: l' => add_file rootino a;; add_files rootino l'
  end.

(** The superblock as [main] writes it to block 1. *)
Definition sb_bytes (sb : superblock) : list Z :=
  concat (le_bytes 4 <$>
    [sb_size sb; sb_nblocks sb; sb_ninodes sb; sb_nlog sb; sb_logstart sb; sb_inodestart sb; sb_bmapstart sb]).

Definition DOT : list Z := [46].
Definition DOTDOT : list Z := [46; 46].

(** [main], from where the image has been opened and truncated. *)
Definition main (files : list arg) : M mst unit :=
  modify (λ s, mk_mst ∅ (freeinode s) nmeta);;
  for_ (Z.to_nat FSSIZE) 0 (λ i, wsect i zeroes);;
  wsect 1 (splice 0 (sb_bytes msb) zeroes);;
  rootino <- ialloc T_DIR;;
  (if negb (rootino =? ROOTINO) then panic "assert" else ret tt);;
  iappend rootino (encode_dirent rootino DOT);;
  iappend rootino (encode_dirent rootino DOTDOT);;
  add_files rootino files;;
  din <- rinode rootino;;
  winode rootino (set_isize ((i_size din / BSIZE + 1) * BSIZE) din);;
  b <- gets freeblock;;
  balloc b.

(** The counters before [main]. *)
Definition start : mst := mk_mst ∅ 1 0.
End Mkfs.
