(* ===== verification/MkfsSpec.v ===== *)
(** * The image mkfs makes

    While mkfs runs, the image together with the bitmap it is going to write
    is a disk as fs.c sees it ([gview]): every block that mkfs takes is an
    allocation there.  So the files it builds are files for fs.c, and what
    [readi] returns of them are the bytes that were copied in. *)

From S2P Require Import Prelude Spinlock Buf Log Tx Fs FsSpec FsData FsTrunc Mkfs.
Import Mkfs.

(** ** The image as a disk *)

(** Blocks outside the log. *)
Definition outside_log (b : Z) : Prop := ¬ (2 ≤ b < 2 + nlog).

Abbreviation bmapstart := (sb_bmapstart msb).
Abbreviation disk_ok := (disk_ok (writable := outside_log)).
Abbreviation file_ok := (file_ok (writable := outside_log)).
Abbreviation allocated := (allocated (writable := outside_log)).
Abbreviation bmapped := (bmapped (writable := outside_log)).
Abbreviation wrote := (wrote (writable := outside_log)).
Abbreviation grows := (grows (writable := outside_log)).

(** The bitmap with the first [n] blocks in use. *)
Definition bitmap (n : Z) : list Z := set_bits (Z.to_nat n) 0 zeroes.

Definition all_blocks : gset Z := list_to_set (seqZ 0 FSSIZE).

Definition gview (s : mst) : view := mk_view (<[bmapstart := bitmap (freeblock s)]> (image s)) ∅ all_blocks 10.

Lemma length_set_bits n : ∀ i d, length (set_bits n i d) = length d.
Proof. induction n as [|n IH]; intros i d; cbn [set_bits]; [done|]. rewrite IH. unfold set_bit. by rewrite length_insert. Qed.

Lemma bit_set_set_bits n : ∀ i d j, 0 ≤ i → 0 ≤ j → i + Z.of_nat n ≤ 8 * Z.of_nat (length d) →
  bit_set (set_bits n i d) j = ((i <=? j) && (j <? i + Z.of_nat n)) || bit_set d j.
Proof.
  induction n as [|n IH]; intros i d j Hi Hj Hn; cbn [set_bits].
  { destruct (Z.leb_spec i j), (Z.ltb_spec j (i + Z.of_nat 0)); try done. lia. }
  rewrite IH by (try lia; unfold set_bit; rewrite length_insert; lia). rewrite bit_set_set_bit by lia.
  destruct (Z.leb_spec i j), (Z.leb_spec (i + 1) j), (Z.eqb_spec i j), (Z.ltb_spec j (i + 1 + Z.of_nat n)), (Z.ltb_spec j (i + Z.of_nat (S n)));
    try lia; by cbn.
Qed.

Lemma bit_set_bitmap n j : 0 ≤ n ≤ BPB → 0 ≤ j < BPB → bit_set (bitmap n) j = (j <? n).
Proof.
  intros Hn Hj. unfold bitmap. assert (length zeroes = 512%nat) as Hl by done. rewrite bit_set_set_bits by (rewrite ?Hl; unfold BPB, BSIZE in *; lia).
  rewrite (proj2 (Z.leb_le 0 j)) by lia. rewrite Z.add_0_l, Z2Nat.id by lia. cbn [andb].
  assert (bit_set zeroes j = false) as ->; [|by rewrite orb_false_r]. rewrite bit_set_testbit by lia.
  unfold zeroes. rewrite lookup_total_replicate_2; [apply Z.bits_0|].
  assert (j / 8 < 512) by (apply Z.div_lt_upper_bound; unfold BPB, BSIZE in *; lia). pose proof (Z.div_pos j 8 ltac:(lia) ltac:(lia)).
  change (Z.to_nat BSIZE) with 512%nat. lia.
Qed.

Lemma bblock_bmapstart b : 0 ≤ b < FSSIZE → BBLOCK b msb = bmapstart ∧ b mod BPB = b.
Proof.
  intros Hb. unfold BBLOCK. unfold FSSIZE in Hb. rewrite Z.div_small, Z.mod_small by (unfold BPB, BSIZE; lia). done.
Qed.

Lemma bitmap_block_iff b : bitmap_block msb b ↔ b = bmapstart.
Proof.
  split; [intros (c & Hc & <-); by apply bblock_bmapstart|intros ->]. exists 0. split; [done|by apply bblock_bmapstart].
Qed.

Lemma inode_block_range b : inode_block msb b → 2 + nlog ≤ b < bmapstart.
Proof.
  intros (n & Hn & <-). unfold IBLOCK. change (sb_ninodes msb) with 200 in Hn. change IPB with 8. change (sb_inodestart msb) with 32.
  pose proof (Z.div_pos n 8 ltac:(lia) ltac:(lia)). assert (n / 8 < 25) by (apply Z.div_lt_upper_bound; lia).
  rewrite u32_small by lia. change (2 + nlog) with 32. change bmapstart with 58. lia.
Qed.

(** The counters stay within the image; blocks that are not taken are zero. *)
Record base_ok (s : mst) : Prop := {
  bo_dom b : 0 ≤ b < FSSIZE → ∃ d, image s !! b = Some d ∧ length d = Z.to_nat BSIZE;
  bo_free : nmeta ≤ freeblock s ≤ FSSIZE;
  bo_zero b : freeblock s ≤ b < FSSIZE → image s !! b = Some zeroes;
  bo_super : image s !! 1 = Some (splice 0 (sb_bytes msb) zeroes);
}.

Lemma nmeta_eq : nmeta = 59.
Proof. done. Qed.
Lemma fssize_eq : FSSIZE = 1000.
Proof. done. Qed.

Lemma in_use_gview s b : base_ok s → 0 ≤ b < FSSIZE → in_use (gview s) msb b = (b <? freeblock s).
Proof.
  intros Hs Hb. pose proof (bo_free _ Hs) as Hf. rewrite nmeta_eq, fssize_eq in Hf. rewrite fssize_eq in Hb.
  unfold in_use, gview. cbn [v_blk]. destruct (bblock_bmapstart b) as [E1 E2]; [rewrite fssize_eq; lia|]. rewrite E1, E2, lookup_insert_eq.
  cbn [default id]. apply bit_set_bitmap; unfold BPB, BSIZE; lia.
Qed.

Lemma gview_blk s b : b ≠ bmapstart → v_blk (gview s) !! b = image s !! b.
Proof. intros Hb. cbn. by rewrite lookup_insert_ne. Qed.

Lemma length_gview s b d : base_ok s → 0 ≤ b < FSSIZE → v_blk (gview s) !! b = Some d → length d = Z.to_nat BSIZE.
Proof.
  intros Hs Hb. destruct (decide (b = bmapstart)) as [->|Hne].
  - cbn [gview v_blk]. rewrite lookup_insert_eq. intros [= <-]. unfold bitmap. by rewrite length_set_bits.
  - rewrite gview_blk by done. destruct (bo_dom _ Hs b Hb) as (d' & E & Hl). congruence.
Qed.

Lemma base_disk_ok s : base_ok s → disk_ok msb (gview s).
Proof.
  intros Hs. pose proof (bo_free _ Hs) as Hf. rewrite nmeta_eq, fssize_eq in Hf. split; try done.
  - intros n Hn. change (sb_ninodes msb) with 200 in Hn. split; [lia|]. split; [done|]. change IPB with 8. change (sb_inodestart msb) with 32.
    assert (n / 8 < 25) by (apply Z.div_lt_upper_bound; lia). lia.
  - intros b Hb. cbn. rewrite lookup_insert_is_Some'. right. destruct (bo_dom _ Hs b Hb) as (d & E & _). by exists d.
  - intros b Hm. assert (32 ≤ b ≤ 58) as Hr.
    { destruct Hm as [->%bitmap_block_iff|Hi%inode_block_range]; [done|]. change (2 + nlog) with 32 in Hi. change bmapstart with 58 in Hi. lia. }
    change (sb_size msb) with 1000. split; [lia|]. rewrite in_use_gview by (done || rewrite fssize_eq; lia). split; [apply Z.ltb_lt; lia|].
    unfold outside_log. change (2 + nlog) with 32. lia.
  - intros b ->%bitmap_block_iff Hi%inode_block_range. lia.
  - intros b Hb. rewrite in_use_gview by done. intros Hu%Z.ltb_ge. split; [lia|]. unfold outside_log. change (2 + nlog) with 32. lia.
Qed.

(** [freeblock++] is an allocation. *)
Definition bump (s : mst) : mst := mk_mst (image s) (freeinode s) (freeblock s + 1).

Lemma bump_ok s : base_ok s → freeblock s < FSSIZE → base_ok (bump s).
Proof. intros [B1 B2 B3 B4] Hlt. split; try done; cbn; [lia|]. intros b Hb. apply B3. lia. Qed.

Lemma bump_allocated s : base_ok s → freeblock s < FSSIZE → allocated msb (gview s) (gview (bump s)) (freeblock s).
Proof.
  intros Hs Hlt. pose proof (bump_ok s Hs Hlt) as Hs'. pose proof (bo_free _ Hs) as Hf. rewrite nmeta_eq in Hf. rewrite fssize_eq in *.
  assert (∀ b, 0 ≤ b < 1000 → in_use (gview (bump s)) msb b = (b =? freeblock s) || in_use (gview s) msb b) as Hu.
  { intros b Hb. rewrite !in_use_gview by done. cbn [bump freeblock].
    destruct (Z.ltb_spec b (freeblock s + 1)), (Z.eqb_spec b (freeblock s)), (Z.ltb_spec b (freeblock s)); try lia; done. }
  split; [|done|by apply base_disk_ok| | |exact Hu| | |].
  - change (sb_size msb) with 1000. split; [lia|]. rewrite in_use_gview by (done || rewrite fssize_eq; lia). split; [apply Z.ltb_irrefl|].
    unfold outside_log. change (2 + nlog) with 32. lia.
  - rewrite gview_blk by (change bmapstart with 58; lia). apply (bo_zero _ Hs). rewrite fssize_eq. lia.
  - intros b Hne Hnb. rewrite bitmap_block_iff in Hnb. by rewrite !gview_blk by done.
  - cbn. lia.
  - split; [done|]. cbn. unfold all_blocks. apply elem_of_list_to_set, elem_of_seqZ. rewrite fssize_eq. lia.
  - unfold nfree, free_list. apply (length_filter_flip _ _ (freeblock s)); [apply NoDup_seqZ|apply elem_of_seqZ; change (sb_size msb) with 1000; lia| |].
    + rewrite in_use_gview by (done || rewrite fssize_eq; lia). apply Z.ltb_irrefl.
    + intros b Hb%elem_of_seqZ. change (sb_size msb) with 1000 in Hb. apply Hu. lia.
Qed.

Lemma filter_by_bool (f : Z → bool) (c : bool) l :
  (∀ b, b ∈ l → f b = c) → filter (λ b, f b = false) l = if c then [] else l.
Proof.
  induction l as [|b l IH]; intros Hf; [by destruct c|]. rewrite filter_cons, IH by set_solver. rewrite (Hf b) by set_solver.
  by destruct c.
Qed.

Lemma nfree_gview s : base_ok s → Z.of_nat (nfree (gview s) msb) = FSSIZE - freeblock s.
Proof.
  intros Hs. pose proof (bo_free _ Hs) as Hf. rewrite nmeta_eq in Hf. unfold nfree, free_list. change (sb_size msb) with FSSIZE.
  rewrite (seqZ_split 0 (freeblock s)), filter_app, length_app, Z.add_0_l by lia.
  rewrite (filter_by_bool _ true), (filter_by_bool _ false); [cbn [length]; rewrite length_seqZ; lia|..].
  - intros b Hb%elem_of_seqZ. rewrite in_use_gview by (done || lia). apply Z.ltb_ge. lia.
  - intros b Hb%elem_of_seqZ. rewrite in_use_gview by (done || lia). apply Z.ltb_lt. lia.
Qed.

(** Writing a sector that has been taken is writing the block. *)
Definition put_sect (b : Z) (d : list Z) (s : mst) : mst := mk_mst (<[b := d]> (image s)) (freeinode s) (freeblock s).

Lemma put_sect_ok b d s :
  base_ok s → 1 < b < freeblock s → length d = Z.to_nat BSIZE → base_ok (put_sect b d s).
Proof.
  intros [B1 B2 B3 B4] Hb Hl. split; cbn [put_sect image freeblock]; try done.
  - intros c Hc. destruct (decide (c = b)) as [->|Hne]; [rewrite lookup_insert_eq; eauto|]. rewrite lookup_insert_ne by done. by apply B1.
  - intros c Hc. rewrite lookup_insert_ne by lia. by apply B3.
  - by rewrite lookup_insert_ne by lia.
Qed.

Lemma gview_put b d s :
  base_ok s → 0 ≤ b < freeblock s → b ≠ bmapstart → gview (put_sect b d s) = v_log b (v_write b d (gview s)).
Proof.
  intros Hs Hb Hne. pose proof (bo_free _ Hs) as Hf. unfold v_log. rewrite decide_True.
  - unfold gview, v_write. cbn. f_equal. by rewrite insert_insert_ne.
  - cbn. unfold all_blocks. apply elem_of_list_to_set, elem_of_seqZ. lia.
Qed.

(** ** Finding the block of a byte *)

Lemma wp_rsect s b d Q E : image s !! b = Some d → Q d s → wpe (rsect b) Q E s.
Proof. intros Hb HQ. unfold rsect, wpe, bind, get. by rewrite Hb. Qed.

Lemma wp_wsect s b d Q E : Q tt (put_sect b d s) → wpe (wsect b d) Q E s.
Proof. done. Qed.

Lemma wp_take s Q E : base_ok s → freeblock s < FSSIZE → Q (freeblock s) (bump s) → wpe next_block Q E s.
Proof.
  intros Hs Hlt HQ. pose proof (bo_free _ Hs) as Hf. rewrite nmeta_eq in Hf. rewrite fssize_eq in *.
  unfold next_block, wpe, bind, gets, modify, ret. by rewrite u32_small by lia.
Qed.

(** The blocks of a file are data blocks. *)
Definition in_data (s : mst) (A : list Z) : Prop := ∀ b, owns (v_blk (gview s)) A b → nmeta ≤ b.

Lemma grows_in_data s A s' A' :
  base_ok s → grows msb (gview s) A (gview s') A' → in_data s A → in_data s' A'.
Proof.
  intros Hs Hg Hin b (H0 & k & Hk & <-). destruct (decide (slot (v_blk (gview s)) A k = 0)) as [E|E].
  - destruct (g_fresh _ _ _ _ _ Hg k Hk E H0) as [Hr Hu]. change (sb_size msb) with FSSIZE in Hr.
    rewrite in_use_gview in Hu by (done || lia). apply Z.ltb_ge in Hu. pose proof (bo_free _ Hs). lia.
  - rewrite (g_keep _ _ _ _ _ Hg k Hk E). apply Hin. split; [done|]. by exists k.
Qed.

Lemma slot_in_use s A e k :
  base_ok s → file_ok msb (gview s) A e → in_data s A → 0 ≤ k ≤ MAXFILE → slot (v_blk (gview s)) A k ≠ 0 →
  let b := slot (v_blk (gview s)) A k in 1 < b < freeblock s ∧ b ≠ bmapstart ∧ ∃ d, image s !! b = Some d ∧ length d = Z.to_nat BSIZE.
Proof.
  intros Hs Hf Hin Hk Hn b. destruct (fo_own _ _ _ _ Hf k Hk Hn) as (H1 & H2 & _). fold b in H1, H2.
  assert (nmeta ≤ b) as H3 by (apply Hin; split; [done|by exists k]). rewrite nmeta_eq in H3.
  change (sb_size msb) with FSSIZE in H1. rewrite in_use_gview in H2 by (done || lia). apply Z.ltb_lt in H2.
  split; [lia|]. split; [change bmapstart with 58; lia|]. apply (bo_dom _ Hs). lia.
Qed.

(** The entry in the indirect block. *)
Definition find_entry (din : inode) (fbn : Z) : M mst (inode * Z) :=
  ind <- rsect (addrs din !!! Z.to_nat NDIRECT);;
  let x := get_uint (4 * (fbn - NDIRECT)) ind in
  if x =? 0 then
    b <- next_block;;
    wsect (addrs din !!! Z.to_nat NDIRECT) (put_int (4 * (fbn - NDIRECT)) b ind);;
    ret (din, b)
  else ret (din, x).

Lemma find_entry_ok s din e fbn Q E :
  base_ok s → file_ok msb (gview s) (addrs din) e → in_data s (addrs din) → NDIRECT ≤ fbn < MAXFILE → indirect (addrs din) ≠ 0 →
  (slot (v_blk (gview s)) (addrs din) fbn = 0 → freeblock s < FSSIZE) →
  (∀ s', base_ok s' → freeinode s' = freeinode s → bmapped msb (gview s) (addrs din) (gview s') (addrs din) fbn →
    file_ok msb (gview s') (addrs din) e → Q (din, slot (v_blk (gview s')) (addrs din) fbn) s') →
  wpe (find_entry din fbn) Q E s.
Proof.
  intros Hs Hf Hin Hk Hi Hfree HQ. set (A := addrs din) in *. pose proof (base_disk_ok s Hs) as Hd.
  destruct (slot_in_use s A e MAXFILE Hs Hf Hin ltac:(done) Hi) as (Hr & Hne & d & Hbd & Hl). rewrite slot_indirect in Hr, Hne, Hbd.
  assert (v_blk (gview s) !! indirect A = Some d) as Hbd' by (by rewrite gview_blk).
  assert (slot (v_blk (gview s)) A fbn = get_uint (4 * (fbn - NDIRECT)) d) as Hs0.
  { by rewrite slot_through, (proj2 (Z.eqb_neq _ _) Hi), Hbd' by done. }
  unfold find_entry. apply wpe_bind. eapply wp_rsect; [done|]. fold A. rewrite <-Hs0.
  destruct (Z.eqb_spec (slot (v_blk (gview s)) A fbn) 0) as [E0|En].
  - specialize (Hfree E0). pose proof (bump_allocated s Hs Hfree) as Ha. pose proof (bump_ok s Hs Hfree) as Hb.
    destruct (grow_indirect_mapped msb _ _ _ A e d fbn Ha Hd Hf Hk Hi E0 Hbd' Hl) as (Hm & Hf' & Hs').
    { unfold indirect_cost. repeat case_match; cbn; lia. }
    rewrite <-gview_put in Hm, Hf', Hs' by (try done; cbn [bump freeblock]; lia).
    apply wpe_bind. apply wp_take; [done|done|]. apply wpe_bind, wp_wsect, wpe_ret. rewrite <-Hs' at 1. apply HQ; [|done|done|done].
    apply put_sect_ok; [done|cbn [bump freeblock]; lia|]. rewrite length_put_int; [done|unfold NDIRECT in *; lia|].
    rewrite Hl. unfold NDIRECT in *. rewrite maxfile_eq in Hk. unfold BSIZE. lia.
  - apply wpe_ret. apply HQ; [done|done|by apply (bmapped_present _ _ _ e)|done].
Qed.

Lemma find_block_ok s din e fbn Q E :
  base_ok s → file_ok msb (gview s) (addrs din) e → in_data s (addrs din) → 0 ≤ fbn < MAXFILE →
  (slot (v_blk (gview s)) (addrs din) fbn = 0 → freeblock s + 1 + Z.of_nat (indirect_missing (addrs din) fbn) ≤ FSSIZE) →
  (∀ s' A', base_ok s' → freeinode s' = freeinode s → bmapped msb (gview s) (addrs din) (gview s') A' fbn →
    file_ok msb (gview s') A' e → in_data s' A' → Q (set_addrs A' din, slot (v_blk (gview s')) A' fbn) s') →
  wpe (find_block din fbn) Q E s.
Proof.
  intros Hs Hf Hin Hk Hfree HQ. pose proof (base_disk_ok s Hs) as Hd. set (A := addrs din) in *.
  assert (set_addrs A din = din) as Hid by by destruct din. unfold find_block. destruct (Z.ltb_spec fbn NDIRECT) as [Hlt|Hge].
  - assert (∀ blk, slot blk A fbn = A !!! Z.to_nat fbn) as Hslot by (intros blk; unfold slot; by rewrite (proj2 (Z.ltb_lt fbn NDIRECT)) by lia).
    fold A. rewrite <-(Hslot (v_blk (gview s))). destruct (Z.eqb_spec (slot (v_blk (gview s)) A fbn) 0) as [E0|En].
    + specialize (Hfree E0). assert (freeblock s < FSSIZE) as Hb by lia.
      destruct (grow_addr_mapped msb _ _ _ A e fbn (bump_allocated s Hs Hb) Hd Hf) as (Hm & Hf' & Hs'); [lia|by rewrite <-(Hslot (v_blk (gview s)))|].
      apply wpe_bind. apply wp_take; [done|done|]. apply wpe_ret. rewrite <-Hs' at 2. apply HQ; [by apply bump_ok|done|done|done|].
      by apply (grows_in_data s A); [|apply Hm|].
    + apply wpe_ret. rewrite <-Hid at 1. apply HQ; [done|done|by apply (bmapped_present _ _ _ e)|done|done].
  - fold A. change (wpe (din <- (if indirect A =? 0 then b <- next_block;; ret (set_addrs (<[Z.to_nat NDIRECT := b]> A) din) else ret din);;
      find_entry din fbn) Q E s).
    destruct (Z.eqb_spec (indirect A) 0) as [H0|Hn].
    + assert (slot (v_blk (gview s)) A fbn = 0) as Hs0 by (rewrite slot_through, H0 by lia; done). specialize (Hfree Hs0).
      unfold indirect_missing in Hfree. rewrite H0, (proj2 (Z.leb_le NDIRECT fbn)) in Hfree by lia. cbn in Hfree.
      assert (freeblock s < FSSIZE) as Hb by lia. pose proof (bump_allocated s Hs Hb) as Ha. pose proof (bump_ok s Hs Hb) as Hs1.
      destruct (grow_addr_file msb _ _ _ A e NDIRECT Ha Hd Hf ltac:(done) H0) as (Hg & _ & Hf1).
      pose proof (gb_slot _ _ _ _ _ _ _ (grow_addr _ _ _ _ _ _ NDIRECT Ha Hf ltac:(done) H0) fbn) as Hs1'. rewrite Hs0 in Hs1'.
      specialize (Hs1' ltac:(lia) ltac:(cbn; unfold NDIRECT, MAXFILE in *; lia)).
      pose proof (grows_in_data _ _ _ _ Hs Hg Hin) as Hin1. set (A1 := <[_ := freeblock s]> A) in *.
      assert (indirect A1 = freeblock s) as Hi1 by (apply list_lookup_total_insert_eq; rewrite (fo_len _ _ _ _ Hf); unfold NDIRECT; lia).
      pose proof (bo_free _ Hs) as Hbf. rewrite nmeta_eq in Hbf.
      apply wpe_bind, wpe_bind. apply wp_take; [done|done|]. apply wpe_ret. fold A1.
      eapply (find_entry_ok (bump s) (set_addrs A1 din) e); cbn [addrs set_addrs]; [done|done|done|lia|lia|cbn; lia|].
      intros s' Hs' Hfi Hm Hf'. apply (HQ s' A1); [done|done| |done|by apply (grows_in_data (bump s) A1); [|apply Hm|]].
      by apply (bmapped_after msb _ _ _ A e fbn _ _ Ha Hd Hf H0 ltac:(lia) Hm).
    + apply wpe_bind, wpe_ret. eapply (find_entry_ok s din e); [done|done|done|lia|done|intros E0; specialize (Hfree E0); lia|].
      intros s' Hs' Hfi Hm Hf'. fold A in Hm, Hf' |- *. rewrite <-Hid at 1. apply HQ; [done..|]. by apply (grows_in_data s A); [|apply Hm|].
Qed.

(** ** Appending *)

Lemma round_len_mkfs off n :
  Z.min n ((off / BSIZE + 1) * BSIZE - off) = round_len off n ∧ off - off / BSIZE * BSIZE = off mod BSIZE.
Proof. unfold BSIZE. pose proof (Z.div_mod off 512 ltac:(lia)). lia. Qed.

(** One round of the loop. *)
Lemma iappend_round_ok {B} s din e off n p (k : inode → M mst B) Q E :
  base_ok s → file_ok msb (gview s) (addrs din) e → in_data s (addrs din) → 0 ≤ off ≤ e → 0 < n → off + n ≤ MAXFILE * BSIZE →
  Z.of_nat (length p) = round_len off n →
  freeblock s + (nblocks_all (Z.max e (off + round_len off n)) - nblocks_all e) ≤ FSSIZE →
  (∀ s' A', base_ok s' → freeinode s' = freeinode s → wrote msb (gview s) (addrs din) (gview s') A' e off p → in_data s' A' →
    wpe (k (set_addrs A' din)) Q E s') →
  wpe (r <- find_block din (off / BSIZE);; buf <- rsect (snd r);;
       wsect (snd r) (splice (Z.to_nat (off mod BSIZE)) p buf);; k (fst r)) Q E s.
Proof.
  intros Hs Hf Hin Ho Hn Hmax Hl Hfree HQ. destruct (round_len_bounds off n ltac:(lia) Hn) as (Hm1 & Hm2 & _).
  assert (0 ≤ off / BSIZE < MAXFILE) as Hbn.
  { split; [apply Z.div_pos; [lia|done]|]. apply Z.div_lt_upper_bound; [done|]. unfold BSIZE in *. lia. }
  apply wpe_bind. eapply (find_block_ok s din e); [done|done|done|done| |].
  { intros H0. destruct (step_needs _ _ _ _ _ n Hf Ho Hn (proj2 Hbn) H0) as [_ N2]. lia. }
  intros s1 A1 Hs1 Hfi Hm Hf1 Hin1. cbn [fst snd]. pose proof (bm_slot _ _ _ _ _ _ Hm) as Hn1.
  destruct (slot_in_use s1 A1 e (off / BSIZE) Hs1 Hf1 Hin1 ltac:(lia) Hn1) as (Hr & Hne & d & Hbd & Hld).
  set (b := slot (v_blk (gview s1)) A1 (off / BSIZE)) in *.
  apply wpe_bind. eapply wp_rsect; [done|]. apply wpe_bind, wp_wsect.
  assert (length (splice (Z.to_nat (off mod BSIZE)) p d) = Z.to_nat BSIZE) as Hls.
  { rewrite length_splice; [done|]. rewrite Hld. unfold BSIZE in *. pose proof (Z.mod_pos_bound off 512 eq_refl). lia. }
  assert (v_blk (gview s1) !! b = Some d) as Hbd' by (by rewrite gview_blk).
  assert (slot (v_blk (gview s)) (addrs din) (off / BSIZE) ≠ 0 → (1 ≤ v_room (gview s))%nat) as Hroom by (cbn; lia).
  pose proof (wrote_round msb _ _ _ _ _ _ _ _ p Hf Ho Hn Hmax (proj2 Hbn) Hm Hf1 Hbd' Hld Hl Hroom) as Hw. fold b in Hw.
  rewrite <-gview_put in Hw by (done || lia). apply HQ; [by apply put_sect_ok|done|done|].
  apply (grows_in_data s (addrs din)); [done|apply Hw|done].
Qed.

Lemma iappend_loop_ok fuel : ∀ s din e off p Q E,
  base_ok s → file_ok msb (gview s) (addrs din) e → in_data s (addrs din) → 0 ≤ off ≤ e →
  off + Z.of_nat (length p) ≤ MAXFILE * BSIZE → (length p < fuel)%nat →
  freeblock s + (nblocks_all (Z.max e (off + Z.of_nat (length p))) - nblocks_all e) ≤ FSSIZE →
  (∀ s' A', base_ok s' → freeinode s' = freeinode s → wrote msb (gview s) (addrs din) (gview s') A' e off p → in_data s' A' →
    Q (set_addrs A' din, off + Z.of_nat (length p)) s') →
  wpe (iappend_loop fuel din off p) Q E s.
Proof.
  induction fuel as [|fuel IH]; intros s din e off p Q E Hs Hf Hin Ho Hmax Hfuel Hfree HQ; [lia|].
  cbn [iappend_loop]. destruct (Z.leb_spec (Z.of_nat (length p)) 0) as [Hle|Hpos].
  { destruct p; [|cbn in Hle; lia]. apply wpe_ret. cbn [length] in HQ. rewrite Z.add_0_r in HQ.
    assert (set_addrs (addrs din) din = din) as Hid by by destruct din. rewrite <-Hid at 1. apply HQ; [done|done| |done].
    apply wrote_nil; [by apply base_disk_ok|done|lia]. }
  set (n := Z.of_nat (length p)) in *. destruct (round_len_bounds off n ltac:(lia) Hpos) as (Hm1 & _).
  destruct (write_cost_round e off n Ho Hpos) as [_ Hwc]. destruct (round_len_mkfs off n) as [-> ->].
  set (m := round_len off n) in *. pose proof (nblocks_all_mono (Z.max e (off + m)) (Z.max e (off + n)) ltac:(lia)).
  assert (Z.of_nat (length (take (Z.to_nat m) p)) = m) as Hlt by (rewrite length_take; lia).
  assert (n - m = Z.of_nat (length (drop (Z.to_nat m) p))) as Hldr by (rewrite length_drop; lia).
  assert (off / BSIZE < MAXFILE) as Hbn by (apply Z.div_lt_upper_bound; [done|]; unfold BSIZE in *; lia).
  rewrite (proj2 (Z.ltb_lt _ _) Hbn). cbn [negb].
  apply (iappend_round_ok s din e off n (take (Z.to_nat m) p) (λ din', iappend_loop fuel din' (off + m) (drop (Z.to_nat m) p)));
    [done|done|done|done|done|done|done|fold m; lia|].
  intros s1 A1 Hs1 Hfi Hw Hin1. pose proof (nfree_gview s Hs) as Hnf. pose proof (nfree_gview s1 Hs1) as Hnf1.
  pose proof (wr_nfree _ _ _ _ _ _ _ _ Hw) as Hwn. rewrite Hlt in Hwn.
  pose proof (wr_file _ _ _ _ _ _ _ _ Hw) as Hf1. rewrite Hlt in Hf1.
  eapply (IH s1 (set_addrs A1 din) (Z.max e (off + m))); cbn [addrs set_addrs]; [done|done|done|lia|lia|lia| |].
  - rewrite <-Hldr. replace (Z.max (Z.max e (off + m)) (off + m + (n - m))) with (Z.max e (off + n)) by lia. lia.
  - intros s2 A2 Hs2 Hfi2 Hw2 Hin2. rewrite <-Hldr. replace (off + m + (n - m)) with (off + n) by lia.
    apply (HQ s2 A2); [done|by rewrite Hfi2| |done]. rewrite <-(take_drop (Z.to_nat m) p). rewrite <-Hlt in Hw2 at 1.
    apply (wrote_trans _ _ _ (gview s1) A1); [done|done|by rewrite Hlt in *|]. rewrite take_drop. fold n. rewrite Hlt, <-Hldr. lia.
Qed.

(** ** Files in the image

    Inode [k + 1] of the image is the [k]-th file of a list of types and
    contents. *)

Definition dino (s : mst) (n : Z) : inode := disk_inode (gview s) msb n zero_inode.
Abbreviation inum_of k := (1 + Z.of_nat k).

Definition total (fl : list (Z * list Z)) : Z := foldr (λ f, Z.add (nblocks_all (Z.of_nat (length (snd f))))) 0 fl.

Record mfile (s : mst) (n : Z) (f : Z * list Z) : Prop := {
  mf_dinode : dinode_ok (dino s n);
  mf_type : i_type (dino s n) = fst f;
  mf_nlink : nlink (dino s n) = 1;
  mf_size : i_size (dino s n) = Z.of_nat (length (snd f));
  mf_file : file_ok msb (gview s) (addrs (dino s n)) (i_size (dino s n));
  mf_data : in_data s (addrs (dino s n));
  mf_bytes : contents (v_blk (gview s)) (addrs (dino s n)) (i_size (dino s n)) = snd f;
  mf_tail q : i_size (dino s n) ≤ q < MAXFILE * BSIZE → fbyte (v_blk (gview s)) (addrs (dino s n)) q = 0;
}.

Definition mowns (s : mst) (k : nat) (b : Z) : Prop := owns (v_blk (gview s)) (addrs (dino s (inum_of k))) b.

Record built (s : mst) (fl : list (Z * list Z)) : Prop := {
  bl_base : base_ok s;
  bl_next : freeinode s = inum_of (length fl) ∧ inum_of (length fl) ≤ NINODES;
  bl_file k f : fl !! k = Some f → mfile s (inum_of k) f;
  bl_apart k k' b : (k < length fl)%nat → (k' < length fl)%nat → mowns s k b → mowns s k' b → k = k';
  bl_all b : nmeta ≤ b < freeblock s → ∃ k, (k < length fl)%nat ∧ mowns s k b;
  bl_count : freeblock s ≤ nmeta + total fl;
}.

Lemma disjoint_files_sym v A A2 : disjoint_files v A A2 → disjoint_files v A2 A.
Proof. intros H b H1 H2. by apply (H b). Qed.

(** The block of an inode. *)
Lemma iblock_sect s n :
  base_ok s → 0 ≤ n < NINODES →
  let b := IBLOCK n msb in 1 < b < freeblock s ∧ b ≠ bmapstart ∧ inode_block msb b ∧ inum_ok msb n ∧
  ∃ d, image s !! b = Some d ∧ v_blk (gview s) !! b = Some d ∧ length d = Z.to_nat BSIZE ∧
       dino s n = load_dinode (dinode_off n) d zero_inode.
Proof.
  intros Hs Hn b. assert (inode_block msb b) as Hi by by exists n. pose proof (inode_block_range _ Hi) as Hr.
  change (2 + nlog) with 32 in Hr. change bmapstart with 58 in Hr |- *. pose proof (bo_free _ Hs) as Hf. rewrite nmeta_eq, fssize_eq in Hf.
  split; [lia|]. split; [lia|]. split; [done|]. split; [by apply (do_inodes _ _ (base_disk_ok s Hs))|].
  destruct (bo_dom _ Hs b) as (d & Hd & Hl); [rewrite fssize_eq; lia|]. exists d. split; [done|].
  assert (v_blk (gview s) !! b = Some d) as Hv by (rewrite gview_blk; [done|change bmapstart with 58; lia]).
  split; [done|]. split; [done|]. unfold dino, disk_inode. fold b. by rewrite Hv.
Qed.

(** Writing an inode of the image. *)
Lemma put_inode s n i d :
  base_ok s → 0 ≤ n < NINODES → dinode_ok i → v_blk (gview s) !! IBLOCK n msb = Some d → length d = Z.to_nat BSIZE →
  let s' := put_sect (IBLOCK n msb) (put_dinode (dinode_off n) i d) s in
  base_ok s' ∧
  (∀ A e, file_ok msb (gview s) A e → (∀ k, 0 ≤ k ≤ MAXFILE → slot (v_blk (gview s')) A k = slot (v_blk (gview s)) A k) ∧
     file_ok msb (gview s') A e ∧ same_bytes (gview s) A (gview s') A) ∧
  (∀ m, 0 ≤ m < NINODES → dino s' m = if decide (m = n)
     then mk_inode 0 0 0 zero_lock 0 (i_type i) (major i) (minor i) (nlink i) (i_size i) (addrs i) else dino s m).
Proof.
  intros Hs Hn Hok Hbd Hl s'. destruct (iblock_sect s n Hs Hn) as (H1 & H2 & H3 & H4 & _).
  pose proof (dinode_off_bounds n (proj1 H4)). unfold BSIZE in *.
  assert (base_ok s') as Hs'.
  { apply put_sect_ok; [done..|]. rewrite length_put_dinode; [done|done|lia|]. rewrite Hl. lia. }
  split; [done|]. unfold dino. assert (gview s' = v_log (IBLOCK n msb) (v_write (IBLOCK n msb) (put_dinode (dinode_off n) i d) (gview s))) as ->
    by (apply gview_put; [done|lia|done]).
  destruct (put_inode_block msb (gview s) (IBLOCK n msb) (put_dinode (dinode_off n) i d) (base_disk_ok s Hs) H3) as (_ & _ & P3).
  split; [exact P3|]. intros m Hm.
  set (i' := mk_inode 0 n 0 zero_lock 0 (i_type i) (major i) (minor i) (nlink i) (i_size i) (addrs i)).
  change (put_dinode (dinode_off n) i d) with (put_dinode (dinode_off (inum i')) i' d). change n with (inum i').
  rewrite (disk_inode_update (gview s) msb i' d m zero_inode); try done. by apply (do_inodes _ _ (base_disk_ok s Hs)).
Qed.

Lemma owns_slots blk blk' A b :
  (∀ k, 0 ≤ k ≤ MAXFILE → slot blk' A k = slot blk A k) → owns blk' A b ↔ owns blk A b.
Proof. intros Hs. unfold owns. split; intros (H0 & k & Hk & <-); (split; [done|]); exists k; (split; [done|]); by rewrite Hs. Qed.

(** A file that is as it was. *)
Lemma mfile_same s s' n f :
  mfile s n f → dino s' n = dino s n → file_ok msb (gview s') (addrs (dino s n)) (i_size (dino s n)) →
  same_bytes (gview s) (addrs (dino s n)) (gview s') (addrs (dino s n)) → in_data s' (addrs (dino s n)) → mfile s' n f.
Proof.
  intros [F1 F2 F3 F4 F5 F6 F7 F8] E Hf Hb Hin. split; rewrite ?E; try done.
  - rewrite (same_bytes_contents _ _ _ _ _ Hb); [done|]. apply (fo_max _ _ _ _ F5).
  - intros q Hq. rewrite Hb; [by apply F8|]. pose proof (fo_max _ _ _ _ F5). lia.
Qed.

Lemma wp_rinode s n Q E : base_ok s → 0 ≤ n < NINODES → Q (dino s n) s → wpe (rinode n) Q E s.
Proof.
  intros Hs Hn HQ. destruct (iblock_sect s n Hs Hn) as (_ & _ & _ & _ & d & Hd & _ & _ & Hld).
  unfold rinode. apply wpe_bind. eapply wp_rsect; [done|]. apply wpe_ret. by rewrite <-Hld.
Qed.

Lemma wp_winode s n i Q E :
  base_ok s → 0 ≤ n < NINODES →
  (∀ d, v_blk (gview s) !! IBLOCK n msb = Some d → length d = Z.to_nat BSIZE →
    Q tt (put_sect (IBLOCK n msb) (put_dinode (dinode_off n) i d) s)) → wpe (winode n i) Q E s.
Proof.
  intros Hs Hn HQ. destruct (iblock_sect s n Hs Hn) as (_ & _ & _ & _ & d & Hd & Hv & Hl & _).
  unfold winode. apply wpe_bind. eapply wp_rsect; [done|]. apply wp_wsect. by apply HQ.
Qed.

Lemma inum_range k (l : nat) : (k < l)%nat → inum_of l ≤ NINODES → 0 ≤ inum_of k < NINODES.
Proof. lia. Qed.

Lemma total_app fl f : total (fl ++ [f]) = total fl + nblocks_all (Z.of_nat (length (snd f))).
Proof. induction fl as [|g fl IH]; cbn; [lia|]. unfold total in IH. rewrite IH. lia. Qed.

Lemma fresh_dinode_ok t : 0 ≤ t < 2 ^ 15 → dinode_ok (fresh_dinode t).
Proof.
  intros Ht. split; [|split; [done|split; [done|by apply Forall_replicate]]].
  intros x Hx. cbn in Hx. repeat (apply elem_of_cons in Hx as [->|Hx]; [lia|]). by apply elem_of_nil in Hx.
Qed.


Lemma ialloc_ok s fl t Q E :
  built s fl → inum_of (S (length fl)) ≤ NINODES → 0 ≤ t < 2 ^ 15 →
  (∀ s', built s' (fl ++ [(t, [])]) → Q (inum_of (length fl)) s') → wpe (ialloc t) Q E s.
Proof.
  intros [B1 [B2 B3] B4 B5 B6 B7] Hn Ht HQ. unfold NINODES in *. unfold ialloc. apply wpe_bind, wpe_gets, wpe_bind, wpe_modify. rewrite B2.
  rewrite u32_small by lia. set (s1 := mk_mst _ _ _). set (n := inum_of (length fl)) in *.
  assert (base_ok s1) as Hs1 by by destruct B1. assert (0 ≤ n < NINODES) as Hnr by (unfold NINODES; lia).
  apply wpe_bind. apply wp_winode; [done|done|]. intros d Hd Hl. apply wpe_ret.
  destruct (put_inode s1 n (fresh_dinode t) d Hs1 Hnr (fresh_dinode_ok t Ht) Hd Hl) as (P1 & P2 & P3). set (s2 := put_sect _ _ s1) in *.
  assert (dino s2 n = fresh_dinode t) as Hnew by (rewrite P3, decide_True by done; done).
  assert (∀ k f, fl !! k = Some f → (∀ b, mowns s2 k b ↔ mowns s k b) ∧ mfile s2 (inum_of k) f) as Hfile.
  { intros k f Hf. pose proof (B4 k f Hf) as Hm. destruct (P2 _ _ (mf_file _ _ _ Hm)) as (Q1 & Q2 & Q3). apply lookup_lt_Some in Hf.
    assert (dino s2 (inum_of k) = dino s (inum_of k)) as Ed by (rewrite P3, decide_False by (unfold NINODES, n; lia); done).
    assert (∀ b, mowns s2 k b ↔ mowns s k b) as Hown by (intros b; unfold mowns; rewrite Ed; by apply owns_slots).
    split; [done|]. apply (mfile_same s); [done|done|done|done|]. intros b Hb. apply (mf_data _ _ _ Hm), Hown. unfold mowns. by rewrite Ed. }
  assert (∀ k b, (k < S (length fl))%nat → mowns s2 k b → (k < length fl)%nat ∧ mowns s k b) as Hown.
  { intros k b Hk Ho. destruct (decide (k < length fl)%nat) as [Hlt|Hge].
    - destruct (lookup_lt_is_Some_2 fl k Hlt) as [f Hf]. split; [done|]. by apply (Hfile k f Hf).
    - unfold mowns in Ho. replace k with (length fl) in Ho by lia. fold n in Ho. rewrite Hnew in Ho. destruct Ho as (H0 & j & Hj & <-).
      by rewrite slot_empty in H0 by lia. }
  apply HQ. split; rewrite ?length_app, ?Nat.add_1_r; cbn [length].
  - done.
  - rewrite ?Nat.add_1_r. cbn [put_sect s2 s1 freeinode]. split; [cbn; unfold n; lia|unfold NINODES; lia].
  - intros k f [Hk|[-> Hf]]%lookup_snoc_Some; [apply (proj2 (Hfile k f (proj2 Hk)))|]. subst f. unfold n in Hnew. split; rewrite Hnew; try done.
    + by apply fresh_dinode_ok.
    + apply file_ok_empty.
    + intros b (H0 & j & Hj & <-). by rewrite slot_empty in H0 by lia.
    + intros q Hq. cbn in Hq. unfold fbyte. cbn [fresh_dinode addrs set_isize set_nlink set_type]. change (addrs zero_inode) with (replicate 13 0).
      rewrite slot_empty; [done|]. apply Z.div_pos; [lia|done].
  - rewrite ?Nat.add_1_r. intros k k' b Hk Hk' [H1 H2]%Hown [H3 H4]%Hown; [|done|done]. by apply (B5 k k' b).
  - rewrite ?Nat.add_1_r. intros b Hb. destruct (B6 b Hb) as (k & Hk & Ho). exists k. split; [lia|].
    destruct (lookup_lt_is_Some_2 fl k Hk) as [f Hf]. by apply (Hfile k f Hf).
  - rewrite total_app. cbn. change (nblocks_all (Z.of_nat 0)) with 0. lia.
Qed.

Lemma total_insert k fl f g :
  fl !! k = Some f → total (<[k := g]> fl) = total fl - nblocks_all (Z.of_nat (length (snd f))) + nblocks_all (Z.of_nat (length (snd g))).
Proof.
  revert k. induction fl as [|h fl IH]; intros [|k] Hk; try done; cbn in Hk |- *; [simplify_eq; lia|].
  specialize (IH k Hk). unfold total in IH. etransitivity; [apply f_equal2; [reflexivity|exact IH]|lia].
Qed.

(** The other files while file [k] grows: [s1] has its new blocks, [s2] its inode too. *)
Lemma append_other s fl k n s1 s2 A1 j f :
  built s fl → (k < length fl)%nat → file_ok msb (gview s) (addrs (dino s (inum_of k))) n →
  grows msb (gview s) (addrs (dino s (inum_of k))) (gview s1) A1 →
  (∀ A e, file_ok msb (gview s1) A e → (∀ k, 0 ≤ k ≤ MAXFILE → slot (v_blk (gview s2)) A k = slot (v_blk (gview s1)) A k) ∧
     file_ok msb (gview s2) A e ∧ same_bytes (gview s1) A (gview s2) A) →
  (∀ m, 0 ≤ m < NINODES → m ≠ inum_of k → dino s2 m = dino s1 m) →
  (∀ b, mowns s2 k b ↔ owns (v_blk (gview s1)) A1 b) → j ≠ k → fl !! j = Some f →
  (∀ b, mowns s2 j b ↔ mowns s j b) ∧ mfile s2 (inum_of j) f ∧ (∀ b, mowns s2 j b → mowns s2 k b → False).
Proof.
  intros [B1 [B2 B3] B4 B5 B6 B7] Hlt F5 W1 P2 P3 Hown Hne Hj.
  pose proof (B4 j f Hj) as Hm. pose proof (lookup_lt_Some _ _ _ Hj) as Hjl. pose proof (inum_range _ _ Hjl B3) as Hjr.
  assert (dino s2 (inum_of j) = dino s (inum_of j)) as Ej.
  { rewrite P3 by (done || lia). by apply (grows_inodes msb _ _ _ _ _ _ _ W1 (base_disk_ok s B1) F5). }
  destruct (grows_other _ _ _ _ _ _ _ W1 (mf_file _ _ _ Hm)) as (G1 & G2 & G3 & G4).
  { intros b Hb Hb'. apply Hne. by apply (B5 j k b). }
  destruct (P2 _ _ G1) as (R1 & R2 & R3).
  assert (∀ b, mowns s2 j b ↔ owns (v_blk (gview s1)) (addrs (dino s (inum_of j))) b) as Hj1
    by (intros b; unfold mowns; rewrite Ej; by apply owns_slots).
  assert (∀ b, mowns s2 j b ↔ mowns s j b) as Hj2 by (intros b; rewrite Hj1; by apply owns_slots).
  split; [done|]. split; [|intros b Hb1%Hj1 Hb2%Hown; by apply (G3 b)].
  apply (mfile_same s); [done|done|done|intros q Hq; by rewrite R3, G2|].
  intros b Hb. apply (mf_data _ _ _ Hm), Hj2. unfold mowns. by rewrite Ej.
Qed.

(** Putting the inode of a file that grew where it belongs. *)
Lemma append_built s fl k t c p s1 A1 d :
  built s fl → fl !! k = Some (t, c) →
  base_ok s1 → freeinode s1 = freeinode s → in_data s1 A1 →
  wrote msb (gview s) (addrs (dino s (inum_of k))) (gview s1) A1 (Z.of_nat (length c)) (Z.of_nat (length c)) p →
  v_blk (gview s1) !! IBLOCK (inum_of k) msb = Some d → length d = Z.to_nat BSIZE →
  let i := set_isize (Z.of_nat (length c) + Z.of_nat (length p)) (set_addrs A1 (dino s (inum_of k))) in
  built (put_sect (IBLOCK (inum_of k) msb) (put_dinode (dinode_off (inum_of k)) i d) s1) (<[k := (t, c ++ p)]> fl).
Proof.
  intros Hbt Hk Hs1 Hfi Hin1 [W1 W2 W3 _ W5 _] Hd Hl i. destruct (Hbt) as [B1 [B2 B3] B4 B5 B6 B7]. pose proof (lookup_lt_Some _ _ _ Hk) as Hlt.
  set (n := Z.of_nat (length c)) in *. pose proof (B4 k _ Hk) as [F1 F2 F3 F4 F5 F6 F7 F8]. cbn [fst snd] in F2, F4, F7. fold n in F4. rewrite F4 in F5, F7, F8.
  set (A := addrs (dino s (inum_of k))) in *. rewrite Z.max_r in W3, W5 by lia.
  assert (dinode_ok i) as Hok by (by apply (dinode_ok_new (writable := outside_log) msb (gview s1)); [|apply base_disk_ok|]).
  destruct (put_inode s1 (inum_of k) i d Hs1 (inum_range _ _ Hlt B3) Hok Hd Hl) as (P1 & P2 & P3). set (s2 := put_sect _ _ s1) in *.
  destruct (P2 A1 _ W3) as (Q1 & Q2 & Q3).
  assert (dino s2 (inum_of k) = mk_inode 0 0 0 zero_lock 0 (i_type i) (major i) (minor i) (nlink i) (i_size i) A1) as Ek
    by (rewrite P3, decide_True by (done || by eapply inum_range); done).
  assert (∀ b, mowns s2 k b ↔ owns (v_blk (gview s1)) A1 b) as Hown by (intros b; unfold mowns; rewrite Ek; by apply owns_slots).
  assert (∀ j f, j ≠ k → fl !! j = Some f → (∀ b, mowns s2 j b ↔ mowns s j b) ∧ mfile s2 (inum_of j) f ∧
    (∀ b, mowns s2 j b → mowns s2 k b → False)) as Hother.
  { intros j f. apply (append_other s fl k n s1 s2 A1); [done|done|done|done|exact P2| |exact Hown].
    intros m Hm Hne. by rewrite P3, decide_False. }
  pose proof (fo_max _ _ _ _ W3) as Hmax.
  split; rewrite ?length_insert.
  - done.
  - cbn. by rewrite Hfi.
  - intros j f Hj. destruct (decide (j = k)) as [->|Hne]; [|rewrite list_lookup_insert_ne in Hj by done; by apply (Hother j f)].
    rewrite list_lookup_insert_eq in Hj by done. injection Hj as <-. split; rewrite ?Ek; cbn [fst snd i_type nlink i_size addrs]; try done.
    + cbn. rewrite length_app. lia.
    + intros b Hb. apply Hin1, Hown. unfold mowns. by rewrite Ek.
    + cbn. rewrite (same_bytes_contents _ _ _ _ _ Q3) by lia. rewrite <-(Z.max_r n (n + Z.of_nat (length p))) by lia.
      rewrite (contents_written (gview s) A) by (done || lia). rewrite F7. unfold overwrite, n.
      rewrite Nat2Z.id, take_ge, drop_ge, app_nil_r by lia. done.
    + intros q Hq. change (n + Z.of_nat (length p) ≤ q < MAXFILE * BSIZE) in Hq. rewrite Q3, W2 by lia.
      rewrite (proj2 (Z.ltb_ge q _)), andb_false_r by lia. apply F8. lia.
  - intros j j' b Hj Hj' Ho Ho'. destruct (lookup_lt_is_Some_2 fl j Hj) as [f Hf]. destruct (lookup_lt_is_Some_2 fl j' Hj') as [f' Hf'].
    destruct (decide (j = k)) as [->|Hne], (decide (j' = k)) as [->|Hne']; [done|..].
    + by destruct (proj2 (proj2 (Hother j' f' Hne' Hf')) b).
    + by destruct (proj2 (proj2 (Hother j f Hne Hf)) b).
    + apply (B5 j j' b); [done|done|by apply (Hother j f Hne Hf)|by apply (Hother j' f' Hne' Hf')].
  - intros b Hb. change (freeblock s2) with (freeblock s1) in Hb. pose proof (bo_free _ Hs1) as Hfb. pose proof (bo_free _ B1) as Hfb0. rewrite nmeta_eq in Hb.
    assert (in_use (gview s1) msb b = true) as Hu by (rewrite in_use_gview by (done || lia); apply Z.ltb_lt; lia).
    apply (g_use _ _ _ _ _ W1) in Hu as [Hu|Hu]; [|exists k; split; [done|by apply Hown]|change (sb_size msb) with FSSIZE; lia].
    rewrite in_use_gview in Hu by (done || lia). apply Z.ltb_lt in Hu. destruct (B6 b) as (j & Hj & Ho); [rewrite nmeta_eq; lia|].
    destruct (lookup_lt_is_Some_2 fl j Hj) as [f Hf]. exists j. split; [done|].
    destruct (decide (j = k)) as [->|Hne]; [|by apply (Hother j f Hne Hf)]. apply Hown. destruct Ho as (H0 & q & Hq & <-). split; [done|].
    exists q. split; [done|]. by apply (g_keep _ _ _ _ _ W1).
  - rewrite (total_insert k fl (t, c)) by done. cbn [snd]. rewrite length_app. fold n.
    pose proof (nfree_gview s B1). pose proof (nfree_gview s1 Hs1). change (freeblock s2) with (freeblock s1).
    replace (Z.of_nat (length c + length p)) with (n + Z.of_nat (length p)) by lia. lia.
Qed.

(** [iappend] appends to the file and changes no other. *)
Lemma iappend_ok s fl k t c p Q E :
  built s fl → fl !! k = Some (t, c) → Z.of_nat (length (c ++ p)) ≤ MAXFILE * BSIZE →
  nmeta + total (<[k := (t, c ++ p)]> fl) ≤ FSSIZE →
  (∀ s', built s' (<[k := (t, c ++ p)]> fl) → Q tt s') → wpe (iappend (inum_of k) p) Q E s.
Proof.
  intros Hb Hk Hmax Htot HQ. pose proof (lookup_lt_Some _ _ _ Hk) as Hlt. pose proof (bl_base _ _ Hb) as Hs.
  pose proof (inum_range _ _ Hlt (proj2 (bl_next _ _ Hb))) as Hn. pose proof (bl_file _ _ Hb k _ Hk) as [F1 F2 F3 F4 F5 F6 F7 _]. cbn [snd] in F4.
  rewrite F4 in F5. rewrite length_app in Hmax. rewrite (total_insert k fl (t, c)) in Htot by done. cbn [snd] in Htot. rewrite length_app in Htot.
  pose proof (bl_count _ _ Hb) as Hc. replace (Z.of_nat (length c + length p)) with (Z.of_nat (length c) + Z.of_nat (length p)) in * by lia.
  unfold iappend. apply wpe_bind. apply wp_rinode; [done|done|]. rewrite F4. apply wpe_bind.
  eapply (iappend_loop_ok _ s (dino s (inum_of k)) (Z.of_nat (length c))); [done|done|done|lia|lia|lia|rewrite Z.max_r by lia; lia|].
  intros s1 A1 Hs1 Hfi Hw Hin1. cbn [fst snd]. apply wp_winode; [done|done|]. intros d Hd Hl. apply HQ.
  by apply append_built.
Qed.

(** ** The files of the command line *)

(** The list of files after one more has been copied in. *)
Definition add_entry (fl : list (Z * list Z)) (name data : list Z) : list (Z * list Z) :=
  (<[0%nat := (T_DIR, snd (fl !!! 0%nat) ++ encode_dirent (inum_of (length fl)) name)]> fl) ++ [(T_FILE, data)].

Definition file_data (a : arg) : list Z := concat (default [] (snd a)).

Fixpoint layout (fl : list (Z * list Z)) (l : list arg) : list (Z * list Z) :=
  match l with
  | [] => fl
  | a :: l' => layout (add_entry fl (fs_name (fst a)) (file_data a)) l'
  end.

(** A file mkfs can take. *)
Definition arg_ok (a : arg) : Prop :=
  (SLASH ∉ fst a) ∧ is_Some (snd a) ∧ Z.of_nat (length (file_data a)) ≤ MAXFILE * BSIZE.

Lemma total_nonneg fl : 0 ≤ total fl.
Proof.
  induction fl as [|f fl IH]; cbn; [done|]. pose proof (nblocks_all_mono 0 (Z.of_nat (length (snd f))) ltac:(lia)) as H.
  change (nblocks_all 0) with 0 in H. unfold total in IH. lia.
Qed.

Lemma copy_in_ok pieces : ∀ s fl k t c Q E,
  built s fl → fl !! k = Some (t, c) → Z.of_nat (length (c ++ concat pieces)) ≤ MAXFILE * BSIZE →
  nmeta + total (<[k := (t, c ++ concat pieces)]> fl) ≤ FSSIZE →
  (∀ s', built s' (<[k := (t, c ++ concat pieces)]> fl) → Q tt s') → wpe (copy_in (inum_of k) pieces) Q E s.
Proof.
  induction pieces as [|p pieces IH]; intros s fl k t c Q E Hb Hk Hmax Htot HQ; cbn [copy_in concat] in *.
  { apply wpe_ret. apply HQ. rewrite app_nil_r. by rewrite list_insert_id. }
  pose proof (lookup_lt_Some _ _ _ Hk) as Hlt. rewrite app_assoc in *.
  assert (<[k := (t, (c ++ p) ++ concat pieces)]> (<[k := (t, c ++ p)]> fl) = <[k := (t, (c ++ p) ++ concat pieces)]> fl) as Hii
    by apply list_insert_insert_eq.
  apply wpe_bind. eapply (iappend_ok s fl k t c p); [done|done| | |].
  - rewrite length_app in Hmax. lia.
  - rewrite (total_insert k fl (t, c)) in * by done. cbn [snd] in *.
    pose proof (nblocks_all_mono (Z.of_nat (length (c ++ p))) (Z.of_nat (length ((c ++ p) ++ concat pieces))) ltac:(rewrite (length_app (c ++ p)); lia)). lia.
  - intros s1 Hb1. eapply (IH s1 (<[k := (t, c ++ p)]> fl) k t (c ++ p)); rewrite ?Hii; try done. by apply list_lookup_insert_eq.
Qed.

Lemma length_encode_dirent n name : length (encode_dirent n name) = 16%nat.
Proof.
  unfold encode_dirent. rewrite length_app, length_le_bytes. generalize name. unfold DIRSIZ. generalize 14%nat.
  assert (∀ m t, length (strncpy_l m t) = m) as H.
  { induction m as [|m IH]; intros t; cbn [strncpy_l]; [done|]. destruct (hd 0 t =? 0); [by rewrite length_replicate|]. cbn [length]. by rewrite IH. }
  intros m t. by rewrite H.
Qed.

Lemma add_file_ok s fl a D Q E :
  built s fl → fl !! 0%nat = Some (T_DIR, D) → arg_ok a → inum_of (S (length fl)) ≤ NINODES →
  Z.of_nat (length D) ≤ 16 * NINODES → nmeta + total (add_entry fl (fs_name (fst a)) (file_data a)) ≤ FSSIZE →
  (∀ s', built s' (add_entry fl (fs_name (fst a)) (file_data a)) → Q tt s') → wpe (add_file ROOTINO a) Q E s.
Proof.
  intros Hb HD (Hsl & [pieces Hp] & Hlen) Hn HDl Htot HQ. unfold add_file. rewrite bool_decide_eq_false_2 by done. rewrite Hp.
  pose proof (lookup_lt_Some _ _ _ HD) as Hl0. unfold file_data in *. rewrite Hp in *. cbn [default id] in *.
  set (de := encode_dirent (inum_of (length fl)) (fs_name (fst a))).
  assert (add_entry fl (fs_name (fst a)) (concat pieces) = (<[0%nat := (T_DIR, D ++ de)]> fl) ++ [(T_FILE, concat pieces)]) as Hadd.
  { unfold add_entry. by rewrite (list_lookup_total_correct _ _ _ HD). }
  rewrite Hadd in *. apply wpe_bind. eapply (ialloc_ok s fl T_FILE); [done|done|done|]. intros s1 Hb1. apply wpe_bind.
  assert (Z.of_nat (length de) = 16) as Hde by (unfold de; by rewrite length_encode_dirent).
  pose proof (nblocks_all_mono 0 (Z.of_nat (length (concat pieces))) ltac:(lia)) as Hpos. change (nblocks_all 0) with 0 in Hpos.
  rewrite total_app in Htot. cbn [snd] in Htot.
  change ROOTINO with (inum_of 0). eapply (iappend_ok s1 _ 0 T_DIR D).
  - done.
  - by rewrite lookup_app_l.
  - rewrite length_app. fold de. rewrite maxfile_eq. unfold NINODES, BSIZE in *. lia.
  - rewrite insert_app_l by done. rewrite total_app. cbn [snd length]. change (nblocks_all (Z.of_nat 0)) with 0. fold de. lia.
  - intros s2. rewrite insert_app_l by done. intros Hb2. fold de in Hb2.
    eapply (copy_in_ok pieces s2 _ (length fl) T_FILE []); [exact Hb2| |done| |].
    + by rewrite lookup_app_r, length_insert, Nat.sub_diag by (rewrite length_insert; lia).
    + rewrite insert_app_r_alt by (rewrite length_insert; lia). rewrite length_insert, Nat.sub_diag. cbn [list_insert].
      rewrite app_nil_l. change (<[0%nat := (T_FILE, concat pieces)]> [(T_FILE, [])]) with [(T_FILE, concat pieces)]. rewrite total_app. cbn [snd]. lia.
    + intros s3 Hb3. apply HQ. rewrite insert_app_r_alt in Hb3 by (rewrite length_insert; lia). by rewrite length_insert, Nat.sub_diag in Hb3.
Qed.

Definition root_ok (fl : list (Z * list Z)) : Prop :=
  ∃ D, fl !! 0%nat = Some (T_DIR, D) ∧ length D = (16 * S (length fl))%nat.

Lemma add_entry_root fl name data : root_ok fl → root_ok (add_entry fl name data) ∧ total fl ≤ total (add_entry fl name data).
Proof.
  intros (D & HD & Hl). pose proof (lookup_lt_Some _ _ _ HD) as H0. unfold add_entry. rewrite (list_lookup_total_correct _ _ _ HD). cbn [snd]. split.
  - exists (D ++ encode_dirent (inum_of (length fl)) name).
    split; [by rewrite lookup_app_l, list_lookup_insert_eq by (rewrite ?length_insert; done)|].
    rewrite !length_app, length_insert, length_encode_dirent, Hl. cbn [length]. lia.
  - rewrite total_app, (total_insert 0 fl (T_DIR, D)) by done. cbn [snd].
    pose proof (nblocks_all_mono (Z.of_nat (length D)) (Z.of_nat (length (D ++ encode_dirent (inum_of (length fl)) name))) ltac:(rewrite length_app; lia)).
    pose proof (nblocks_all_mono 0 (Z.of_nat (length data)) ltac:(lia)) as Hd. change (nblocks_all 0) with 0 in Hd. lia.
Qed.

Lemma length_add_entry fl name data : length (add_entry fl name data) = S (length fl).
Proof. unfold add_entry. rewrite length_app, length_insert. cbn [length]. lia. Qed.

Lemma layout_facts l : ∀ fl, root_ok fl → root_ok (layout fl l) ∧ total fl ≤ total (layout fl l) ∧ length (layout fl l) = (length fl + length l)%nat.
Proof.
  induction l as [|a l IH]; intros fl Hr; cbn [layout length]; [split; [done|split; [done|lia]]|].
  destruct (add_entry_root fl (fs_name (fst a)) (file_data a) Hr) as [H1 H2]. destruct (IH _ H1) as (H3 & H4 & H5).
  split; [done|]. split; [lia|]. rewrite H5, length_add_entry. lia.
Qed.

Lemma add_files_ok l : ∀ s fl Q E,
  built s fl → root_ok fl → Forall arg_ok l → inum_of (length fl + length l) ≤ NINODES → nmeta + total (layout fl l) ≤ FSSIZE →
  (∀ s', built s' (layout fl l) → Q tt s') → wpe (add_files ROOTINO l) Q E s.
Proof.
  induction l as [|a l IH]; intros s fl Q E Hb Hr Hok Hn Htot HQ; cbn [add_files layout length] in *; [by apply wpe_ret, HQ|].
  apply Forall_cons in Hok as [Ha Hok]. destruct (add_entry_root fl (fs_name (fst a)) (file_data a) Hr) as [Hr1 _].
  destruct (layout_facts l _ Hr1) as (_ & Hmono & _). destruct (Hr) as (D & HD & HDl).
  apply wpe_bind. eapply (add_file_ok s fl a D); [done|done|done|lia|rewrite HDl; unfold NINODES in *; lia|lia|].
  intros s1 Hb1. eapply (IH s1); [done|done|done|rewrite length_add_entry; lia|done|done].
Qed.

(** ** The whole program *)

(** The image with nothing but the superblock. *)
Lemma start_built fi img :
  fi = 1 → (∀ b, 0 ≤ b < FSSIZE → img !! b = Some zeroes) →
  built (mk_mst (<[1 := splice 0 (sb_bytes msb) zeroes]> img) fi nmeta) [].
Proof.
  intros -> Hz. rewrite nmeta_eq. split; [|done|done|intros k k' b Hk; cbn in Hk; lia|intros b Hb; rewrite nmeta_eq in Hb; cbn [freeblock] in Hb; lia|done].
  split; cbn [image freeblock]; rewrite ?fssize_eq, ?nmeta_eq in *; [|lia| |by rewrite lookup_insert_eq].
  - intros b Hb. destruct (decide (b = 1)) as [->|Hne]; [rewrite lookup_insert_eq; eexists; split; [done|by vm_compute]|].
    rewrite lookup_insert_ne, Hz by done. by eexists.
  - intros b Hb. rewrite lookup_insert_ne by lia. apply Hz. lia.
Qed.

Lemma zero_image_ok s Q E :
  (∀ img, (∀ b, 0 ≤ b < FSSIZE → img !! b = Some zeroes) → Q tt (mk_mst img (freeinode s) (freeblock s))) →
  wpe (for_ (Z.to_nat FSSIZE) 0 (λ i, wsect i zeroes)) Q E s.
Proof.
  intros HQ. apply (wpe_loop FSSIZE _ (λ j s', (∀ b, 0 ≤ b < j → image s' !! b = Some zeroes) ∧ freeinode s' = freeinode s ∧ freeblock s' = freeblock s)).
  - done.
  - split; [lia|done].
  - intros j s' Hj (H1 & H2 & H3). apply wp_wsect. split; [|done]. intros b Hb. cbn [put_sect image].
    destruct (decide (b = j)) as [->|Hne]; [by rewrite lookup_insert_eq|]. rewrite lookup_insert_ne by done. apply H1. lia.
  - intros [img fi fbk] (H1 & H2 & H3). cbn in H1, H2, H3. subst. by apply HQ.
Qed.

(** The root directory before the files, and the list of all files. *)
Definition root_dir : list (Z * list Z) := [(T_DIR, encode_dirent ROOTINO DOT ++ encode_dirent ROOTINO DOTDOT)].
Definition all_files (files : list arg) : list (Z * list Z) := layout root_dir files.

Lemma root_dir_ok : root_ok root_dir.
Proof. eexists. split; [done|]. by rewrite length_app, !length_encode_dirent. Qed.

(** The size [main] gives the root directory in the end. *)
Definition round_up (n : Z) : Z := (n / BSIZE + 1) * BSIZE.

(** [main] up to the last two lines. *)
Definition main_files (files : list arg) : M mst unit :=
  rootino <- ialloc T_DIR;;
  (if negb (rootino =? ROOTINO) then panic "assert" else ret tt);;
  iappend rootino (encode_dirent rootino DOT);;
  iappend rootino (encode_dirent rootino DOTDOT);;
  add_files rootino files.

Lemma main_files_ok s files Q E :
  built s [] → Forall arg_ok files → inum_of (S (length files)) ≤ NINODES → nmeta + total (all_files files) ≤ FSSIZE →
  (∀ s', built s' (all_files files) → Q tt s') → wpe (main_files files) Q E s.
Proof.
  intros Hb Hok Hn Htot HQ. destruct (layout_facts files root_dir root_dir_ok) as (_ & Hmono & _). fold (all_files files) in Hmono.
  assert (total root_dir = 1) as H1 by by vm_compute. unfold NINODES in Hn.
  unfold main_files. apply wpe_bind. eapply (ialloc_ok s [] T_DIR); [done|done|done|]. intros s1 Hb1. change (inum_of (length (@nil (Z * list Z)))) with (inum_of 0).
  apply wpe_bind, wpe_ret, wpe_bind. eapply (iappend_ok s1 _ 0 T_DIR []); [exact Hb1|done|by vm_compute| |].
  { change (nmeta + 1 ≤ FSSIZE). lia. }
  intros s2 Hb2. apply wpe_bind. eapply (iappend_ok s2 _ 0 T_DIR (encode_dirent ROOTINO DOT)); [exact Hb2|done|by vm_compute| |].
  { change (nmeta + 1 ≤ FSSIZE). lia. }
  intros s3 Hb3. eapply (add_files_ok files s3 root_dir); [exact Hb3|apply root_dir_ok|done|cbn; unfold NINODES; lia|done|done].
Qed.

(** ** The image *)

Definition disk_view (img : gmap Z (list Z)) : view := mk_view img ∅ ∅ 0.
Definition img_inode (img : gmap Z (list Z)) (n : Z) : inode := disk_inode (disk_view img) msb n zero_inode.

(** Inode [n] of the image is a file of type [t] that says it has [size]
    bytes; its contents are [c] and zeros. *)
Record stored (img : gmap Z (list Z)) (n t size : Z) (c : list Z) : Prop := {
  st_dinode : dinode_ok (img_inode img n);
  st_type : i_type (img_inode img n) = t;
  st_nlink : nlink (img_inode img n) = 1;
  st_size : i_size (img_inode img n) = size;
  st_file : file_ok msb (disk_view img) (addrs (img_inode img n)) (Z.of_nat (length c));
  st_bytes : contents img (addrs (img_inode img n)) (Z.of_nat (length c)) = c;
  st_tail q : Z.of_nat (length c) ≤ q < MAXFILE * BSIZE → fbyte img (addrs (img_inode img n)) q = 0;
}.

(** The image is a file system with the files [fl] and nothing else: a block
    is in use when it is one of the first [nmeta] or belongs to a file, and
    it belongs to one file only. *)
Record image_ok (img : gmap Z (list Z)) (fl : list (Z * list Z)) : Prop := {
  im_super : super_ok msb (disk_view img);
  im_disk : disk_ok msb (disk_view img);
  im_len b d : 0 ≤ b < FSSIZE → img !! b = Some d → length d = Z.to_nat BSIZE;
  im_file k f : fl !! k = Some f →
    let n := Z.of_nat (length (snd f)) in stored img (inum_of k) (fst f) (if decide (k = 0)%nat then round_up n else n) (snd f);
  im_apart k k' b : (k < length fl)%nat → (k' < length fl)%nat →
    owns img (addrs (img_inode img (inum_of k))) b → owns img (addrs (img_inode img (inum_of k'))) b → k = k';
  im_use b : 0 ≤ b < FSSIZE → in_use (disk_view img) msb b = true ↔
    b < nmeta ∨ ∃ k, (k < length fl)%nat ∧ owns img (addrs (img_inode img (inum_of k))) b;
}.

Lemma file_ok_view sb v v' A e : v_blk v' = v_blk v → file_ok sb v A e → file_ok sb v' A e.
Proof.
  intros Hb [F1 F2 F3 F4 F5]. assert (∀ b, in_use v' sb b = in_use v sb b) as Hu by (intros b; unfold in_use; by rewrite Hb).
  split; rewrite ?Hb; try done. intros k Hk Hn. rewrite Hu. by apply F3.
Qed.

(** What the last lines of [main] do. *)
Lemma final_image s fl t c d :
  built s fl → fl !! 0%nat = Some (t, c) → Z.of_nat (length c) ≤ 16 * NINODES →
  v_blk (gview s) !! IBLOCK ROOTINO msb = Some d → length d = Z.to_nat BSIZE →
  let i := set_isize (round_up (i_size (dino s ROOTINO))) (dino s ROOTINO) in
  let s1 := put_sect (IBLOCK ROOTINO msb) (put_dinode (dinode_off ROOTINO) i d) s in
  image_ok (v_blk (gview s1)) fl.
Proof.
  intros [B1 [B2 B3] B4 B5 B6 B7] H0 Hc Hd Hl i s1. pose proof (lookup_lt_Some _ _ _ H0) as Hlt. pose proof (B4 0%nat _ H0) as M0. change (inum_of 0) with ROOTINO in M0.
  assert (dinode_ok i) as Hok.
  { destruct (mf_dinode _ _ _ M0) as (D1 & D2 & D3). split; [done|]. split; [|done]. unfold i. cbn [set_isize i_size]. rewrite (mf_size _ _ _ M0). cbn [snd].
    unfold round_up, BSIZE, NINODES in *. pose proof (Z.div_mod (Z.of_nat (length c)) 512 ltac:(lia)).
    pose proof (Z.mod_pos_bound (Z.of_nat (length c)) 512 eq_refl). pose proof (Z.div_pos (Z.of_nat (length c)) 512 ltac:(lia) ltac:(lia)). lia. }
  destruct (put_inode s ROOTINO i d B1 ltac:(done) Hok Hd Hl) as (P1 & P2 & P3). fold s1 in P1, P2, P3.
  set (img := v_blk (gview s1)). assert (∀ n, img_inode img n = dino s1 n) as Hino by done.
  assert (∀ k, (k < length fl)%nat → addrs (dino s1 (inum_of k)) = addrs (dino s (inum_of k))) as Hadd.
  { intros k Hk. rewrite P3 by (unfold NINODES in *; lia). destruct (decide (inum_of k = ROOTINO)) as [->|]; done. }
  assert (∀ k b, (k < length fl)%nat → owns img (addrs (dino s1 (inum_of k))) b ↔ mowns s k b) as Hown.
  { intros k b Hk. rewrite Hadd by done. destruct (lookup_lt_is_Some_2 fl k Hk) as [f Hf].
    destruct (P2 _ _ (mf_file _ _ _ (B4 k f Hf))) as (Q1 & _). by apply owns_slots. }
  split.
  - split; [by rewrite bitmap_block_iff|]. split; [intros Hi%inode_block_range; change (2 + nlog) with 32 in Hi; lia|].
    exists (splice 0 (sb_bytes msb) zeroes). split; [|by vm_compute]. cbn [disk_view v_blk]. unfold img. rewrite gview_blk by done. apply (bo_super _ P1).
  - by apply (disk_ok_view msb (gview s1)), base_disk_ok.
  - intros b x Hb Hx. by apply (length_gview s1 b).
  - intros k f Hf n. pose proof (lookup_lt_Some _ _ _ Hf) as Hk. pose proof (B4 k f Hf) as [F1 F2 F3 F4 F5 F6 F7 F8].
    destruct (P2 _ _ F5) as (_ & Q2 & Q3). rewrite F4 in Q2, F7, F8. fold n in Q2, F7, F8. pose proof (fo_max _ _ _ _ Q2) as Hmax.
    assert (dinode_ok (dino s1 (inum_of k)) ∧ i_type (dino s1 (inum_of k)) = fst f ∧ nlink (dino s1 (inum_of k)) = 1 ∧
      i_size (dino s1 (inum_of k)) = if decide (k = 0)%nat then round_up n else n) as (G1 & G2 & G3 & G4).
    { rewrite P3 by (unfold NINODES in *; lia). destruct (decide (k = 0)%nat) as [->|Hne].
      - change (inum_of 0) with ROOTINO in *. rewrite decide_True by done. split; [done|]. split; [done|]. split; [done|].
        change (round_up (i_size (dino s ROOTINO)) = round_up n). by rewrite F4.
      - rewrite decide_False by (unfold ROOTINO; lia). done. }
    split; rewrite ?Hino; [done|done|done|done|..]; rewrite Hadd by done.
    + by apply (file_ok_view msb (gview s1)).
    + unfold img. by rewrite (same_bytes_contents _ _ _ _ _ Q3) by lia.
    + intros q Hq. unfold img. rewrite Q3 by lia. by apply F8.
  - intros k k' b Hk Hk'. rewrite !Hino, !Hown by done. by apply B5.
  - intros b Hb. change (in_use (disk_view img) msb b) with (in_use (gview s1) msb b). rewrite in_use_gview, Z.ltb_lt by done.
    change (freeblock s1) with (freeblock s). pose proof (bo_free _ B1) as Hfb. split.
    + intros Hu. destruct (decide (b < nmeta)) as [|Hge]; [by left|]. right. destruct (B6 b ltac:(lia)) as (k & Hk & Ho).
      exists k. split; [done|]. rewrite Hino. by apply Hown.
    + intros [?|(k & Hk & Ho)]; [lia|]. rewrite Hino in Ho. apply Hown in Ho as (Hn0 & q & Hq & <-); [|done].
      destruct (lookup_lt_is_Some_2 fl k Hk) as [f Hf]. destruct (fo_own _ _ _ _ (mf_file _ _ _ (B4 k f Hf)) q Hq Hn0) as (_ & Hu & _).
      rewrite in_use_gview, Z.ltb_lt in Hu by done. done.
Qed.

(** A file mkfs can be given, and enough room: what [main] needs. *)
Record mkfs_fits (files : list arg) : Prop := {
  ft_args : Forall arg_ok files;
  ft_inodes : Z.of_nat (length files) + 2 ≤ NINODES;
  ft_blocks : nmeta + total (all_files files) ≤ FSSIZE;
}.

Lemma main_files_then files (k : Z → M mst unit) Q E s :
  wpe (main_files files) (λ _ s', wpe (k ROOTINO) Q E s') E s →
  wpe (rootino <- ialloc T_DIR;; (if negb (rootino =? ROOTINO) then panic "assert" else ret tt);;
    iappend rootino (encode_dirent rootino DOT);; iappend rootino (encode_dirent rootino DOTDOT);; add_files rootino files;;
    k rootino) Q E s.
Proof.
  unfold main_files, wpe, bind. destruct (ialloc T_DIR s) as [[r s1]|]; [|done]. destruct (Z.eqb_spec r ROOTINO) as [->|]; cbn [negb]; [|done].
  unfold ret. destruct (iappend ROOTINO (encode_dirent ROOTINO DOT) s1) as [[[] s2]|]; [|done].
  destruct (iappend ROOTINO (encode_dirent ROOTINO DOTDOT) s2) as [[[] s3]|]; [|done].
  by destruct (add_files ROOTINO files s3) as [[[] s4]|].
Qed.

Lemma main_ok files Q E :
  mkfs_fits files → (∀ s', image_ok (image s') (all_files files) → Q tt s') → wpe (main files) Q E start.
Proof.
  intros [H1 H2 H3] HQ. destruct (layout_facts files root_dir root_dir_ok) as ((D & HD & HDl) & _ & Hlen). fold (all_files files) in HD, HDl, Hlen.
  unfold main. apply wpe_bind, wpe_modify, wpe_bind. apply zero_image_ok. intros img Hz. apply wpe_bind, wp_wsect. cbn [start freeinode freeblock put_sect image].
  apply (main_files_then files (λ rootino, din <- rinode rootino;; winode rootino (set_isize ((i_size din / BSIZE + 1) * BSIZE) din);;
    b <- gets freeblock;; balloc b)). eapply main_files_ok; [by apply start_built|done|unfold NINODES in *; lia|done|]. intros s Hb.
  pose proof (bl_base _ _ Hb) as Hs. pose proof (bo_free _ Hs) as Hfb. rewrite nmeta_eq, fssize_eq in Hfb.
  apply wpe_bind. apply wp_rinode; [done|done|]. apply wpe_bind. apply wp_winode; [done|done|]. intros d Hd Hl.
  apply wpe_bind, wpe_gets. cbn [put_sect freeblock]. unfold balloc. rewrite (proj2 (Z.ltb_lt _ _)) by (unfold BSIZE; lia). cbn [negb].
  apply wp_wsect. apply HQ. apply (final_image s (all_files files) T_DIR D d); try done. rewrite HDl, Hlen. cbn [root_dir length]. unfold NINODES in *. lia.
Qed.

(** The files of the image in full: the root directory with its entries, and
    the files of the command line in their order. *)
Definition root_entries (files : list arg) : list Z :=
  encode_dirent ROOTINO DOT ++ encode_dirent ROOTINO DOTDOT ++
  concat (imap (λ k a, encode_dirent (inum_of (S k)) (fs_name (fst a))) files).

Definition mkfs_files (files : list arg) : list (Z * list Z) :=
  (T_DIR, root_entries files) :: ((λ a, (T_FILE, file_data a)) <$> files).

Lemma layout_eq l : ∀ D fs,
  layout ((T_DIR, D) :: fs) l =
  (T_DIR, D ++ concat (imap (λ k a, encode_dirent (inum_of (S (length fs) + k)) (fs_name (fst a))) l)) ::
  (fs ++ ((λ a, (T_FILE, file_data a)) <$> l)).
Proof.
  induction l as [|a l IH]; intros D fs; cbn [layout imap concat fmap list_fmap]; [by rewrite !app_nil_r|].
  unfold add_entry at 1. cbn [lookup_total list_lookup_total snd list_insert app length insert].
  change ((<[0%nat := (T_DIR, D ++ encode_dirent (inum_of (S (length fs))) (fs_name (fst a)))]> ((T_DIR, D) :: fs)) ++ [(T_FILE, file_data a)])
    with ((T_DIR, D ++ encode_dirent (inum_of (S (length fs))) (fs_name (fst a))) :: (fs ++ [(T_FILE, file_data a)])).
  rewrite IH, length_app. cbn [length]. rewrite <-!app_assoc. do 4 f_equal.
  - by rewrite Nat.add_0_r.
  - f_equal. apply imap_ext. intros k x _. unfold compose.
    by replace (S (length fs + 1) + k)%nat with (S (length fs) + S k)%nat by lia.
Qed.

Lemma all_files_eq files : all_files files = mkfs_files files.
Proof. unfold all_files, root_dir, mkfs_files. rewrite layout_eq. unfold root_entries. by rewrite <-app_assoc. Qed.

(** ** The kernel on the image *)

Section kernel.
Context {T : Type} `{!BlockLayer T} {TR : T → view → Prop} `{!BlockLayerSpec T TR outside_log}.
Implicit Types s : fst_ T.

(** The inode cache entry that is to hold inode [n]. *)
Definition cold (s : fst_ T) (ip : nat) (n : Z) (name : string) : Prop :=
  ∃ j, inodes s !! ip = Some j ∧ i_dev j = ROOTDEV ∧ inum j = n ∧ 1 ≤ ref j ∧ valid j = 0 ∧ i_lock j = sl_free name.

Lemma ilock_image me pid s v img fl k t c ip name Q E :
  image_ok img fl → fl !! k = Some (t, c) → k ≠ 0%nat → t ≠ T_DEV → t ≠ 0 → inum_of (length fl) ≤ NINODES →
  TR (fb s) v → v_blk v = img → v_held v = ∅ → sb s = msb → cold s ip (inum_of k) name →
  (∀ s' i, file_at (TR := TR) (writable := outside_log) s' v ip i → file_contents v i = c → Q tt s') →
  wpe (ilock me pid (Some ip)) Q E s.
Proof.
  intros Him Hk Hk0 Ht Ht0 Hn HR Hv Hh Hsb (j & Hj & Hdv & Hin & Href & Hval & Hlk) HQ. pose proof (lookup_lt_Some _ _ _ Hk) as Hlt.
  pose proof (im_file _ _ Him k _ Hk) as [S1 S2 S3 S4 S5 S6 S7]. cbn [fst snd] in S2, S4, S5, S6. rewrite decide_False in S4 by done.
  pose proof (list_lookup_total_correct _ _ _ Hj) as Hjt. pose proof (inum_range _ _ Hlt Hn) as Hnr.
  assert (disk_ok msb v) as Hd by (apply (disk_ok_view msb (disk_view img)); [done|apply Him]).
  assert (inode_block msb (IBLOCK (inum_of k) msb)) as Hib by by exists (inum_of k).
  destruct (do_meta _ _ Hd _ (or_intror Hib)) as (Hr & _). destruct (do_blk _ _ Hd _ Hr) as [d Hbd].
  assert (img_inode img (inum_of k) = load_dinode (dinode_off (inum_of k)) d zero_inode) as Hino.
  { unfold img_inode, disk_inode. cbn [disk_view v_blk]. by rewrite <-Hv, Hbd. }
  rewrite Hino in *. cbn [load_dinode i_type nlink i_size addrs] in S2, S3, S4, S5, S6.
  eapply (ilock_load me pid s v ip d name); rewrite ?Hjt, ?Hsb, ?Hin; try done; [by eapply lookup_lt_Some|by apply readable_quiet|by rewrite S2|].
  intros t' HR'. set (i := set_valid 1 _). eapply (HQ _ i).
  - split; cbn [fb sb inodes]; try done.
    + by apply list_lookup_insert_eq; eapply lookup_lt_Some.
    + cbn. by rewrite S2.
    + cbn. by rewrite Hin.
    + change (addrs i) with (get_addrs (dinode_off (inum_of k) + 12) d). change (i_size i) with (get_uint (dinode_off (inum_of k) + 8) d).
      rewrite S4. by apply (file_ok_view msb (disk_view img)).
    + intros j'. cbn [i set_valid set_i_lock load_dinode inum]. rewrite Hin. unfold disk_inode. by rewrite Hbd.
  - unfold file_contents. change (addrs i) with (get_addrs (dinode_off (inum_of k) + 12) d).
    change (i_size i) with (get_uint (dinode_off (inum_of k) + 8) d). by rewrite S4, Hv.
Qed.
End kernel.

(** C19: mkfs makes a file system: given files it can take and that fit, it
    ends without a failed assertion, and the image has a superblock, a bitmap
    and inodes as fs.c expects them, the root directory with [.], [..] and an
    entry for each file, and each file with its contents; the blocks in use
    are those of the layout and those of the files, and no two files share
    one. *)
Theorem mkfs_image_ok files :
  mkfs_fits files → wp (main files) (λ _ s', image_ok (image s') (mkfs_files files)) start.
Proof. intros Hf. apply main_ok; [done|]. intros s' H. by rewrite <-all_files_eq. Qed.

(** C21: what mkfs puts into the image is what the kernel reads from it: on
    any block layer that shows the image, [ilock] of an inode that is not in
    memory followed by [readi] returns the bytes of the file that was copied
    in, whatever the range. *)
Theorem mkfs_kernel_reads {T : Type} `{!BlockLayer T} {TR : T → view → Prop} `{!BlockLayerSpec T TR outside_log}
  me pid dr files k a (s : fst_ T) v ip name off n :
  mkfs_fits files → files !! k = Some a → 0 ≤ off < 2 ^ 32 → 0 ≤ n < 2 ^ 32 →
  wp (main files) (λ _ m,
    TR (fb s) v → v_blk v = image m → v_held v = ∅ → sb s = msb → cold s ip (inum_of (S k)) name →
    wp (ilock me pid (Some ip);; readi dr ip off n) (λ r _, r = read_result (file_data a) off n) s) start.
Proof.
  intros Hf Ha Ho Hn. apply main_ok; [done|]. intros m Him HR Hv Hh Hsb Hcold. rewrite all_files_eq in Him.
  apply wpe_bind. eapply (ilock_image me pid s v _ _ (S k) T_FILE (file_data a) ip name).
  - exact Him.
  - change (((λ a, (T_FILE, file_data a)) <$> files) !! k = Some (T_FILE, file_data a)). by rewrite list_lookup_fmap, Ha.
  - done.
  - done.
  - done.
  - unfold mkfs_files. cbn [length]. rewrite length_fmap. pose proof (ft_inodes _ Hf). lia.
  - exact HR.
  - done.
  - done.
  - done.
  - done.
  - intros s' i Hat Hc. eapply readi_ok; [exact Hat|done|done|]. intros t _. by rewrite Hc.
Qed.

(** When the entries of the root directory fill their blocks exactly, [main]
    gives the directory a size that goes one block beyond its last one: thirty
    files make 32 entries in one block, and a size of two blocks. *)
Lemma mkfs_root_hole :
  let files : list arg := (λ k, ([97 + Z.of_nat k], Some [])) <$> seq 0 30 in
  match main files start with
  | Done (_, s') => (i_size (img_inode (image s') ROOTINO), take 2 (addrs (img_inode (image s') ROOTINO))) = (1024, [59; 0])
  | Fail _ => False
  end.
Proof. by vm_compute. Qed.

(** An image with one small file. *)
Module MkfsDemo.
Definition demo_files : list arg := [([95; 97], Some [[1; 2; 3]; [4; 5]])].

Lemma demo_fits : mkfs_fits demo_files.
Proof.
  split; [|done|by vm_compute]. apply Forall_singleton. split; [|split; [by eexists|by vm_compute]].
  cbn. rewrite !not_elem_of_cons. split; [done|]. split; [done|]. apply not_elem_of_nil.
Qed.

Definition demo_image : gmap Z (list Z) := match main demo_files start with Done (_, s) => image s | Fail _ => ∅ end.
Definition demo_view : view := mk_view demo_image ∅ ∅ 10.
Definition demo_fs : fst_ Mem.mem :=
  mk_fst demo_image msb (initlock "icache") [mk_inode ROOTDEV 2 1 (sl_free "inode") 0 0 0 0 0 0 (replicate 13 0)].
End MkfsDemo.

Lemma mkfs_image_ok_witness :
  match main MkfsDemo.demo_files start with
  | Done (_, s') => image_ok (image s') (mkfs_files MkfsDemo.demo_files)
  | Fail _ => False
  end.
Proof.
  pose proof (mkfs_image_ok MkfsDemo.demo_files MkfsDemo.demo_fits) as H. revert H. unfold wpe.
  destruct (main MkfsDemo.demo_files start) as [[[] s']|e]; intros H; exact H.
Defined.

#[local] Existing Instance Mem.mem_layer.
#[local] Instance mem_outside_log : BlockLayerSpec Mem.mem Mem.mem_R outside_log.
Proof. destruct Mem.mem_spec as [B1 B2 B3 B4 B5 B6]. split; try done. intros t v b h x HR Hh _ Hc. by apply (B5 t v b h x). Qed.

Lemma demo_blocks_ok : Mem.mem_R MkfsDemo.demo_image MkfsDemo.demo_view.
Proof.
  split; [done|]. split; [|apply map_Forall_empty]. apply (bool_decide_eq_true_1 _). by vm_compute.
Qed.

Lemma mkfs_kernel_reads_witness :
  match main MkfsDemo.demo_files start with
  | Done (_, m) => match (ilock 0 7 (Some 0%nat);; readi (λ _, None) 0 1 100) MkfsDemo.demo_fs with
                   | Done (r, _) => r = (4, [2; 3; 4; 5]) | Fail _ => False end
  | Fail _ => False
  end.
Proof.
  pose proof (mkfs_kernel_reads (TR := Mem.mem_R) 0 7 (λ _, None) MkfsDemo.demo_files 0 ([95; 97], Some [[1; 2; 3]; [4; 5]]) MkfsDemo.demo_fs
    MkfsDemo.demo_view 0 "inode" 1 100 MkfsDemo.demo_fits eq_refl ltac:(done) ltac:(done)) as H. revert H.
  pose proof demo_blocks_ok as HR. assert (MkfsDemo.demo_image = match main MkfsDemo.demo_files start with Done (_, s) => image s | Fail _ => ∅ end) as Hi
    by reflexivity. revert Hi. unfold wpe at 1. destruct (main MkfsDemo.demo_files start) as [[[] m]|e]; intros Hi H; [|done].
  revert H. unfold wpe. destruct ((ilock 0 7 (Some 0%nat);; readi (λ _, None) 0 1 100) MkfsDemo.demo_fs) as [[r s']|e]; intros H.
  - rewrite H; [by vm_compute|exact HR|exact Hi|done|done|]. eexists. split; [reflexivity|]. repeat split; done.
  - apply H; [exact HR|exact Hi|done|done|]. eexists. split; [reflexivity|]. repeat split; done.
Defined.
