(* ===== verification/File.v ===== *)
(** * file.c: the file table

    Open files are entries of a table of [NFILE], counted by reference; a
    [struct file *] is an index into it.  What file.c uses of pipes, inodes and
    the log is the interface [IoEnv].  The second half shows that the reference
    counts are the numbers of pointers their holders have. *)

From S2P Require Import Prelude Spinlock Buf.

Definition NFILE : nat := 100.

Inductive fdtype := FD_NONE | FD_PIPE | FD_INODE.
#[export] Instance fdtype_eq_dec : EqDecision fdtype.
Proof. solve_decision. Defined.

(** [f_pipe] and [f_ip] name the pipe and the inode; [None] is null. *)
Record file := mk_file {
  f_type : fdtype;
  f_ref : Z;
  readable : Z;
  writable : Z;
  f_pipe : option nat;
  f_ip : option nat;
  f_off : Z;
}.
Definition zero_file : file := mk_file FD_NONE 0 0 0 None None 0.
#[export] Instance file_inhabited : Inhabited file := populate zero_file.

Definition set_fref v f := mk_file (f_type f) v (readable f) (writable f) (f_pipe f) (f_ip f) (f_off f).
Definition set_ftype v f := mk_file v (f_ref f) (readable f) (writable f) (f_pipe f) (f_ip f) (f_off f).
Definition set_off v f := mk_file (f_type f) (f_ref f) (readable f) (writable f) (f_pipe f) (f_ip f) v.

Record ftab (W : Type) := mk_ftab { ft_lock : spinlock; files : list file; fworld : W }.
Arguments mk_ftab {W}.
Arguments ft_lock {W}.
Arguments files {W}.
Arguments fworld {W}.

(** pipe.c, fs.c and log.c, as file.c calls them.  Addresses are user memory. *)
Class IoEnv (W : Type) := {
  io_pipeclose : nat → Z → M W unit;
  io_piperead : nat → Z → Z → M W Z;
  io_pipewrite : nat → Z → Z → M W Z;
  io_begin_op : M W unit;
  io_end_op : M W unit;
  io_iput : nat → M W unit;
  io_ilock : nat → M W unit;
  io_iunlock : nat → M W unit;
  io_stati : nat → Z → M W unit;
  io_readi : nat → Z → Z → Z → M W Z;
  io_writei : nat → Z → Z → Z → M W Z;
}.

Section file.
Context {W : Type} `{!IoEnv W} (me : nat).
Abbreviation T := (M (ftab W)).

Definition io {A} (m : M W A) : T A := zoom fworld (λ w s, mk_ftab (ft_lock s) (files s) w) m.
Definition on_ft_lock (m : M spinlock unit) : T unit := zoom ft_lock (λ l s, mk_ftab l (files s) (fworld s)) m.
Definition file_at (f : nat) : T file := gets (λ s, files s !!! f).
Definition set_files (l : list file) (s : ftab W) : ftab W := mk_ftab (ft_lock s) l (fworld s).
Definition updf (f : nat) (g : file → file) : T unit := modify (λ s, set_files (<[f := g (files s !!! f)]> (files s)) s).
(** A pointer that is followed. *)
Definition deref {A} (p : option A) : T A := match p with Some x => ret x | None => fail (EOob "null") end.

Definition fileinit : T unit := on_ft_lock (λ _, Done (tt, initlock "ftable")).

Fixpoint find_unref (l : list file) (i : nat) : option nat :=
  match l with
  | [] => None
  | f :: l' => if f_ref f =? 0 then Some i else find_unref l' (S i)
  end.

Definition filealloc : T (option nat) :=
  on_ft_lock (acquire me);;
  l <- gets files;;
  match find_unref l 0 with
  | Some f =>
      updf f (set_fref 1);;
      on_ft_lock (release me);;
      ret (Some f)
  | None => on_ft_lock (release me);; ret None
  end.

Definition filedup (f : nat) : T nat :=
  on_ft_lock (acquire me);;
  x <- file_at f;;
  if f_ref x <? 1 then panic "filedup"
  else
    updf f (λ x, set_fref (s32 (f_ref x + 1)) x);;
    on_ft_lock (release me);;
    ret f.

(** The end of [fileclose]: the pipe or inode of the last pointer. *)
Definition close_object (ff : file) : T unit :=
  match f_type ff with
  | FD_PIPE => p <- deref (f_pipe ff);; io (io_pipeclose p (writable ff))
  | FD_INODE =>
      io io_begin_op;;
      ip <- deref (f_ip ff);;
      io (io_iput ip);;
      io io_end_op
  | FD_NONE => ret tt
  end.

Definition fileclose (f : nat) : T unit :=
  on_ft_lock (acquire me);;
  x <- file_at f;;
  if f_ref x <? 1 then panic "fileclose"
  else
    updf f (λ x, set_fref (s32 (f_ref x - 1)) x);;
    x <- file_at f;;
    if 0 <? f_ref x then on_ft_lock (release me)
    else
      ff <- file_at f;;
      updf f (set_fref 0);;
      updf f (set_ftype FD_NONE);;
      on_ft_lock (release me);;
      close_object ff.

Definition filestat (f : nat) (st : Z) : T Z :=
  x <- file_at f;;
  match f_type x with
  | FD_INODE =>
      ip <- deref (f_ip x);;
      io (io_ilock ip);;
      io (io_stati ip st);;
      io (io_iunlock ip);;
      ret 0
  | _ => ret (-1)
  end.

Definition fileread (f : nat) (addr n : Z) : T Z :=
  x <- file_at f;;
  if readable x =? 0 then ret (-1)
  else match f_type x with
  | FD_PIPE => p <- deref (f_pipe x);; io (io_piperead p addr n)
  | FD_INODE =>
      ip <- deref (f_ip x);;
      io (io_ilock ip);;
      y <- file_at f;;
      r <- io (io_readi ip addr (f_off y) n);;
      when (0 <? r) (updf f (λ x, set_off (u32 (f_off x + r)) x));;
      io (io_iunlock ip);;
      ret r
  | FD_NONE => panic "fileread"
  end.

(** The bytes one transaction of [filewrite] writes at most. *)
Definition write_max : Z := ((LOGSIZE - 1 - 1 - 2) / 2) * 512.

(** One transaction of [filewrite] after its [begin_op], which may sleep: the
    result of [writei]. *)
Definition filewrite_chunk (f ip : nat) (addr n1 : Z) : T Z :=
  io (io_ilock ip);;
  y <- file_at f;;
  r <- io (io_writei ip addr (f_off y) n1);;
  when (0 <? r) (updf f (λ x, set_off (u32 (f_off x + r)) x));;
  io (io_iunlock ip);;
  io io_end_op;;
  ret r.

(** [while(i < n)]: every round but a failing one writes a byte at least. *)
Fixpoint filewrite_loop (fuel : nat) (f ip : nat) (addr i n : Z) : T Z :=
  match fuel with
  | O => fail EFuel
  | S fuel' =>
      if i <? n then
        let n1 := n - i in
        let n1 := if write_max <? n1 then write_max else n1 in
        io io_begin_op;;
        r <- filewrite_chunk f ip (addr + i) n1;;
        if r <? 0 then ret i
        else if negb (r =? n1) then panic "short filewrite"
        else filewrite_loop fuel' f ip addr (i + r) n
      else ret i
  end.

Definition filewrite (f : nat) (addr n : Z) : T Z :=
  x <- file_at f;;
  if writable x =? 0 then ret (-1)
  else match f_type x with
  | FD_PIPE => p <- deref (f_pipe x);; io (io_pipewrite p addr n)
  | FD_INODE =>
      ip <- deref (f_ip x);;
      i <- filewrite_loop (S (Z.to_nat n)) f ip addr 0 n;;
      ret (if i =? n then n else -1)
  | FD_NONE => panic "filewrite"
  end.

(** ** Pointers and reference counts *)

(** The table with entry [f] replaced. *)
Definition with_file (f : nat) (x : file) (s : ftab W) : ftab W := set_files (<[f := x]> (files s)) s.

(** The table and the pointers to its entries that processes and the kernel
    hold.  A holder may set every field of an entry but the reference count.
    The pointers are those of the processes' tables and of running calls, far
    fewer than an [int] can count. *)
Inductive freach : ftab W → list nat → Prop :=
  | fr_boot w : freach (mk_ftab (initlock "ftable") (replicate NFILE zero_file) w) []
  | fr_alloc s hs f s' : freach s hs → Z.of_nat (length hs) < 2 ^ 31 - 1 → filealloc s = Done (Some f, s') → freach s' (f :: hs)
  | fr_none s hs s' : freach s hs → filealloc s = Done (None, s') → freach s' hs
  | fr_set s hs f x w : freach s hs → f ∈ hs → f_ref x = f_ref (files s !!! f) →
      freach (mk_ftab (ft_lock s) (<[f := x]> (files s)) w) hs
  | fr_dup s hs f s' : freach s hs → f ∈ hs → Z.of_nat (length hs) < 2 ^ 31 - 1 → filedup f s = Done (f, s') → freach s' (f :: hs)
  | fr_close s hs1 f hs2 s' : freach s (hs1 ++ f :: hs2) → fileclose f s = Done (tt, s') → freach s' (hs1 ++ hs2).

Definition count (f : nat) (hs : list nat) : nat := length (filter (.= f) hs).

Record finv (s : ftab W) (hs : list nat) : Prop := {
  fi_len : length (files s) = NFILE;
  fi_lock : lock_free (ft_lock s);
  fi_ref f : f_ref (files s !!! f) = Z.of_nat (count f hs);
  fi_small : Z.of_nat (length hs) < 2 ^ 31;
}.

Lemma count_app f hs1 hs2 : count f (hs1 ++ hs2) = (count f hs1 + count f hs2)%nat.
Proof. unfold count. by rewrite filter_app, length_app. Qed.

Lemma count_cons f g hs : count f (g :: hs) = ((if decide (g = f) then 1 else 0) + count f hs)%nat.
Proof. unfold count. rewrite filter_cons. by destruct (decide (g = f)). Qed.

Lemma count_pos f hs : f ∈ hs ↔ (0 < count f hs)%nat.
Proof.
  induction hs as [|g hs IH]; [rewrite elem_of_nil; cbn; split; [done|lia]|].
  rewrite elem_of_cons, count_cons, IH. destruct (decide (g = f)); naive_solver lia.
Qed.

Lemma count_length f hs : (count f hs ≤ length hs)%nat.
Proof. apply length_filter. Qed.

Lemma find_unref_Some l i f : find_unref l i = Some f → (i ≤ f < i + length l)%nat ∧ f_ref (l !!! (f - i)%nat) = 0.
Proof.
  revert i. induction l as [|x l IH]; intros i H; cbn in H; [done|]. destruct (Z.eqb_spec (f_ref x) 0) as [E|E].
  - injection H as <-. rewrite Nat.sub_diag. cbn. split; [lia|done].
  - destruct (IH _ H) as [H1 H2]. cbn [length]. split; [lia|]. by replace (f - i)%nat with (S (f - S i)) by lia.
Qed.

Lemma find_unref_None l i : find_unref l i = None → ∀ f, (f < length l)%nat → f_ref (l !!! f) ≠ 0.
Proof.
  revert i. induction l as [|x l IH]; intros i H f Hf; cbn in *; [lia|]. destruct (Z.eqb_spec (f_ref x) 0) as [E|E]; [done|].
  destruct f as [|f]; [done|]. apply (IH _ H). lia.
Qed.

Lemma ref_insert f x (l : list file) g : (f < length l)%nat → f_ref (<[f := x]> l !!! g) = if decide (f = g) then f_ref x else f_ref (l !!! g).
Proof.
  intros Hf. destruct (decide (f = g)) as [->|]; [by rewrite list_lookup_total_insert_eq|by rewrite list_lookup_total_insert_ne].
Qed.

Lemma held_bound s hs f : finv s hs → f ∈ hs → (f < length (files s))%nat ∧ 1 ≤ f_ref (files s !!! f) < 2 ^ 31.
Proof.
  intros [H1 H2 H3 H4] Hf. specialize (H3 f). apply count_pos in Hf as Hc. pose proof (count_length f hs).
  split; [|lia]. destruct (decide (f < length (files s))%nat); [done|].
  rewrite list_lookup_total_alt, lookup_ge_None_2 in H3 by lia. cbn in H3. lia.
Qed.

(** What the three operations do, as equations. *)
Lemma filealloc_eq s hs :
  finv s hs →
  (∃ f, filealloc s = Done (Some f, with_file f (set_fref 1 (files s !!! f)) s) ∧ (f < NFILE)%nat ∧ f ∉ hs) ∨
  (filealloc s = Done (None, s) ∧ ∀ f, (f < NFILE)%nat → f ∈ hs).
Proof.
  destruct s as [lk l w]. intros [H1 H2 H3 H4]. cbn [ft_lock files fworld] in *. rewrite (lock_free_eq lk H2) in *.
  unfold filealloc, bind at 1, on_ft_lock at 1, zoom. cbn [ft_lock]. rewrite acquire_free by done. cbn.
  destruct (find_unref l 0) as [f|] eqn:E.
  - apply find_unref_Some in E as [Hf Hr]. rewrite Nat.sub_0_r, H3 in Hr. left. exists f.
    unfold bind, updf, modify, on_ft_lock, zoom. cbn. rewrite release_held. split; [done|]. split; [lia|]. rewrite count_pos. lia.
  - right. unfold bind, on_ft_lock, zoom. cbn. rewrite release_held. split; [done|]. intros f Hf. apply count_pos.
    pose proof (find_unref_None l 0 E f ltac:(lia)). rewrite H3 in *. lia.
Qed.

Lemma filedup_eq s hs f :
  finv s hs → f ∈ hs → f_ref (files s !!! f) + 1 < 2 ^ 31 →
  filedup f s = Done (f, with_file f (set_fref (f_ref (files s !!! f) + 1) (files s !!! f)) s).
Proof.
  intros Hi Hf Hs. destruct (held_bound s hs f Hi Hf) as [Hl Hr]. destruct Hi as [H1 H2 H3 H4]. destruct s as [lk l w].
  cbn [ft_lock files fworld] in *. rewrite (lock_free_eq lk H2).
  unfold filedup, bind at 1, on_ft_lock at 1, zoom. cbn [ft_lock]. rewrite acquire_free by done.
  unfold bind, file_at, gets. cbn [files ft_lock fworld]. destruct (Z.ltb_spec (f_ref (l !!! f)) 1); [lia|].
  unfold updf, modify, on_ft_lock, zoom. cbn. rewrite release_held. rewrite s32_small by lia. done.
Qed.

(** [fileclose] gives up one of several pointers, or the last one. *)
Lemma fileclose_eq s hs f :
  finv s hs → f ∈ hs →
  let x := files s !!! f in
  fileclose f s =
    if decide (1 < f_ref x) then Done (tt, with_file f (set_fref (f_ref x - 1) x) s)
    else close_object (set_fref 0 x) (with_file f (set_ftype FD_NONE (set_fref 0 x)) s).
Proof.
  intros Hi Hf x. destruct (held_bound s hs f Hi Hf) as [Hl Hr]. destruct Hi as [H1 H2 H3 H4]. destruct s as [lk l w].
  cbn [ft_lock files fworld] in *. rewrite (lock_free_eq lk H2). subst x.
  unfold fileclose, bind at 1, on_ft_lock at 1, zoom. cbn [ft_lock]. rewrite acquire_free by done.
  unfold bind, file_at, gets, updf, modify. cbn [files ft_lock fworld set_files]. destruct (Z.ltb_spec (f_ref (l !!! f)) 1); [lia|].
  rewrite list_lookup_total_insert_eq by done. cbn [files ft_lock fworld set_files f_ref set_fref]. rewrite s32_small by lia.
  destruct (Z.ltb_spec 0 (f_ref (l !!! f) - 1)) as [Hp|Hp]; [rewrite decide_True by lia|rewrite decide_False by lia];
    unfold on_ft_lock, zoom; cbn; rewrite release_held; [done|].
  rewrite !list_insert_insert_eq. rewrite !list_lookup_total_insert_eq by done.
  replace (f_ref (l !!! f) - 1) with 0 by lia. reflexivity.
Qed.

(** *** The invariant *)

Lemma finv_set s hs f x hs' :
  finv s hs → (f < length (files s))%nat → f_ref x = Z.of_nat (count f hs') → (∀ g, g ≠ f → count g hs' = count g hs) →
  Z.of_nat (length hs') < 2 ^ 31 → finv (with_file f x s) hs'.
Proof.
  intros [H1 H2 H3 H4] Hf Hx Hc Hl. split; cbn; [by rewrite length_insert|done| |done].
  intros g. rewrite ref_insert by done. destruct (decide (f = g)) as [->|Hne]; [done|]. rewrite Hc by done. apply H3.
Qed.

Lemma close_object_table ff s s' : close_object ff s = Done (tt, s') → files s' = files s ∧ ft_lock s' = ft_lock s.
Proof.
  assert (∀ {A} (m : M W A) a (u u' : ftab W), io m u = Done (a, u') → files u' = files u ∧ ft_lock u' = ft_lock u) as Hio.
  { intros A m a u u'. unfold io, zoom. destruct (m (fworld u)) as [[? ?]|]; [|done]. by intros [= <- <-]. }
  unfold close_object, bind, deref. destruct (f_type ff); [by intros [= <-]|destruct (f_pipe ff); [apply Hio|done]|].
  destruct (io io_begin_op s) as [[[] s1]|] eqn:E1; [|done]. destruct (f_ip ff) as [ip|]; [|done]. cbn.
  destruct (io (io_iput ip) s1) as [[[] s2]|] eqn:E2; [|done]. intros E3.
  apply Hio in E3 as [-> ->], E2 as [-> ->], E1 as [-> ->]. done.
Qed.

Lemma finv_boot w : finv (mk_ftab (initlock "ftable") (replicate NFILE zero_file) w) [].
Proof.
  split; cbn [files ft_lock]; [by rewrite length_replicate|done| |done]. intros f. rewrite list_lookup_total_alt.
  destruct (replicate NFILE zero_file !! f) as [x|] eqn:Ex; [|done]. by apply lookup_replicate in Ex as [-> _].
Qed.

Lemma finv_close s hs1 f hs2 s' : finv s (hs1 ++ f :: hs2) → fileclose f s = Done (tt, s') → finv s' (hs1 ++ hs2).
Proof.
  intros IH E. assert (f ∈ hs1 ++ f :: hs2) as Hf by (rewrite elem_of_app, elem_of_cons; auto).
  pose proof (fi_ref _ _ IH f) as Hr. pose proof (fi_small _ _ IH) as Hs. rewrite length_app in Hs. cbn [length] in Hs.
  destruct (held_bound _ _ _ IH Hf) as [Hb _].
  assert (∀ g, g ≠ f → count g (hs1 ++ hs2) = count g (hs1 ++ f :: hs2)) as Hg.
  { intros g Hg. rewrite !count_app, count_cons, decide_False by done. lia. }
  rewrite count_app, count_cons, decide_True in Hr by done.
  rewrite (fileclose_eq _ _ _ IH Hf) in E. destruct (decide _) as [H1|H1].
  - injection E as <-. apply (finv_set _ _ _ _ _ IH Hb); [cbn [f_ref set_fref]; rewrite count_app; lia|done|rewrite length_app; lia].
  - apply close_object_table in E as [E1 E2].
    destruct (finv_set s _ f (set_ftype FD_NONE (set_fref 0 (files s !!! f))) (hs1 ++ hs2) IH Hb) as [A1 A2 A3 A4].
    + cbn. rewrite count_app. lia.
    + done.
    + rewrite length_app. lia.
    + split; [by rewrite E1|by rewrite E2|intros g; rewrite E1; apply A3|done].
Qed.

Lemma freach_finv s hs : freach s hs → finv s hs.
Proof.
  induction 1 as [w|s hs f s' _ IH Hl E|s hs s' _ IH E|s hs f x w _ IH Hf Hx|s hs f s' _ IH Hf Hl E|s hs1 f hs2 s' _ IH E].
  - apply finv_boot.
  - destruct (filealloc_eq s hs IH) as [(f' & E' & Hf & Hn)|[E' _]]; rewrite E' in E; [|done]. injection E as <- <-.
    assert (count f' hs = 0)%nat as H0 by (rewrite count_pos in Hn; lia).
    apply (finv_set s hs); [done|by rewrite (fi_len _ _ IH)|cbn [f_ref set_fref]; rewrite count_cons, decide_True by done; lia| |cbn [length]; lia].
    intros g Hg. by rewrite count_cons, decide_False by done.
  - destruct (filealloc_eq s hs IH) as [(f' & E' & _)|[E' _]]; rewrite E' in E; [done|]. by injection E as <-.
  - destruct (held_bound s hs f IH Hf) as [Hl _]. pose proof (finv_set s hs f x hs IH Hl) as H. destruct IH as [H1 H2 H3 H4].
    apply H in H4; [|by rewrite Hx|done]. destruct H4. by split.
  - destruct (held_bound s hs f IH Hf) as [Hb Hr]. pose proof (count_length f hs). pose proof (fi_ref _ _ IH f).
    rewrite (filedup_eq s hs) in E; [|done|done|lia]. injection E as <-.
    apply (finv_set s hs); [done|done|cbn [f_ref set_fref]; rewrite count_cons, decide_True by done; lia| |cbn [length]; lia].
    intros g Hg. by rewrite count_cons, decide_False by done.
  - by eapply finv_close.
Qed.

(** C30: reference counts are exact.  Whatever the holders of file pointers do,
    the count of every entry of the table is the number of pointers to it.
    So [filealloc] returns an entry nobody points to, and fails only when all
    are in use; [filedup] and [fileclose] on a pointer that is held do not
    panic; and the pipe or inode behind the entry is closed by the
    [fileclose] of the last pointer, and by no other. *)
Theorem file_refcounts_exact s hs f :
  freach s hs → f ∈ hs →
  (∀ g, f_ref (files s !!! g) = Z.of_nat (count g hs)) ∧
  (∀ g s', filealloc s = Done (Some g, s') → g ∉ hs) ∧
  (∀ s', filealloc s = Done (None, s') → ∀ g, (g < NFILE)%nat → g ∈ hs) ∧
  (Z.of_nat (length hs) < 2 ^ 31 - 1 → ∃ s', filedup f s = Done (f, s')) ∧
  (if decide (count f hs = 1%nat)
   then fileclose f s = close_object (set_fref 0 (files s !!! f)) (with_file f (set_ftype FD_NONE (set_fref 0 (files s !!! f))) s)
   else ∃ s', fileclose f s = Done (tt, s') ∧ fworld s' = fworld s).
Proof.
  intros Hi%freach_finv Hf. pose proof (fi_ref _ _ Hi) as Hr. pose proof (count_length f hs). split; [done|]. split; [|split; [|split]].
  - intros g s' E. destruct (filealloc_eq s hs Hi) as [(f' & E' & _ & Hn)|[E' _]]; rewrite E' in E; [|done]. by injection E as <-.
  - intros s' E. destruct (filealloc_eq s hs Hi) as [(f' & E' & _)|[_ H']]; [by rewrite E' in E|done].
  - intros Hl. rewrite (filedup_eq s hs) by (done || rewrite Hr; lia). by eexists.
  - apply count_pos in Hf as Hc. rewrite (fileclose_eq s hs f Hi Hf), Hr.
    destruct (decide (count f hs = 1%nat)) as [->|Hne]; [done|]. rewrite decide_True by lia. by eexists.
Qed.

(** A [filewrite] of at least [write_max] bytes to an inode: first a transaction
    for [write_max] bytes, whatever comes after it. *)
Lemma filewrite_first f ip addr n (s : ftab W) :
  writable (files s !!! f) ≠ 0 → f_type (files s !!! f) = FD_INODE → f_ip (files s !!! f) = Some ip → write_max ≤ n →
  ∃ k : Z → T Z, filewrite f addr n s = (io io_begin_op;; r <- filewrite_chunk f ip addr write_max;; k r) s.
Proof.
  intros Hw Ht Hi Hn.
  exists (λ r, i <- (if r <? 0 then ret 0 else if negb (r =? write_max) then panic "short filewrite"
                     else filewrite_loop (Z.to_nat n) f ip addr (0 + r) n);; ret (if i =? n then n else -1)).
  unfold filewrite, file_at. unfold bind at 1, gets. rewrite (proj2 (Z.eqb_neq _ _) Hw), Ht, Hi. cbn [deref].
  unfold bind at 1, ret at 1. cbn [filewrite_loop]. change write_max with 6656 in *. rewrite (proj2 (Z.ltb_lt 0 n)) by lia. rewrite Z.sub_0_r, Z.add_0_r.
  replace (if 6656 <? n then 6656 else n) with 6656 by (destruct (Z.ltb_spec 6656 n); lia).
  unfold bind. destruct (io io_begin_op s) as [[[] s1]|]; [|done]. by destruct (filewrite_chunk f ip addr 6656 s1) as [[r s2]|].
Qed.
End file.

(** ** A table with one file, held twice *)

Module FileDemo.
#[local] Instance no_io : IoEnv unit := {
  io_pipeclose _ _ := ret tt; io_piperead _ _ _ := ret 0; io_pipewrite _ _ _ := ret 0; io_begin_op := ret tt; io_end_op := ret tt;
  io_iput _ := ret tt; io_ilock _ := ret tt; io_iunlock _ := ret tt; io_stati _ _ := ret tt; io_readi _ _ _ _ := ret 0;
  io_writei _ _ _ n := ret n;
}.
Definition s0 : ftab unit := mk_ftab (initlock "ftable") (replicate NFILE zero_file) tt.
Definition s1 : ftab unit := with_file 0 (set_fref 1 zero_file) s0.
Definition s2 : ftab unit := with_file 0 (set_fref 2 zero_file) s1.

Lemma s2_reach : freach 0 s2 [0; 0]%nat.
Proof.
  apply (fr_dup 0 s1); [|by left|done|by vm_compute]. apply (fr_alloc 0 s0); [apply fr_boot|done|by vm_compute].
Qed.
End FileDemo.

Lemma file_refcounts_exact_witness : ∃ s', fileclose (IoEnv0 := FileDemo.no_io) 0 0 FileDemo.s2 = Done (tt, s').
Proof.
  destruct (file_refcounts_exact (IoEnv0 := FileDemo.no_io) 0 FileDemo.s2 [0; 0]%nat 0 FileDemo.s2_reach ltac:(by left))
    as (_ & _ & _ & _ & s' & E & _).
  by exists s'.
Defined.
