(* ===== verification/FileFs.v ===== *)
(** * file.c on fs.c, log.c, bio.c and memide.c

    The calls of file.c that use inodes, on the file system itself: [fs_io]
    instantiates the interface of File.v with the models of the components
    below, down to the disk in memory.  On it runs the one thing about these
    components that no contract of one of them shows: what three writers at a
    time do to the log. *)

From S2P Require Import Prelude CString Spinlock Buf Bio Log Tx Fs Mkfs File.

Module FileFs.
#[local] Existing Instance Memide.memide_dev.

(** The file system with everything below it, and the memory the calls read
    from and write to. *)
Record kernel := mk_kernel { kfs : fst_ (lst (bst Memide.disk)); umem : mem }.

Definition on_fs {A} (m : M (fst_ (lst (bst Memide.disk))) A) : M kernel A := zoom kfs (λ f k, mk_kernel f (umem k)) m.
Definition on_log {A} (m : M (lst (bst Memide.disk)) A) : M kernel A :=
  on_fs (zoom fb (λ t s, mk_fst t (sb s) (ic_lock s) (inodes s)) m).
Definition to_user (addr : Z) (l : list Z) : M kernel unit := modify (λ k, mk_kernel (kfs k) (write_bytes addr l (umem k))).

(** No device has a driver, and there are no pipes. *)
Definition no_driver {A} (major : Z) : option A := None.

(** struct stat: short, int, uint, short, uint, aligned. *)
Definition stat_bytes (st : stat_info) : list Z :=
  let '(dv, ino, type, nlink, size) := st in
  le_bytes 2 type ++ [0; 0] ++ le_bytes 4 dv ++ le_bytes 4 ino ++ le_bytes 2 nlink ++ [0; 0] ++ le_bytes 4 size.

Definition fs_io (me : nat) (pid : Z) : IoEnv kernel :=
  let layer := log_layer (BufLayer0 := bio_layer me pid) me in {|
  io_pipeclose _ _ := fail (EOob "pipe");
  io_piperead _ _ _ := fail (EOob "pipe");
  io_pipewrite _ _ _ := fail (EOob "pipe");
  io_begin_op := on_log (begin_op me);
  io_end_op := on_log (end_op (BufLayer0 := bio_layer me pid) me);
  io_iput ip := on_fs (iput (BlockLayer0 := layer) me pid ip);
  io_ilock ip := on_fs (ilock (BlockLayer0 := layer) me pid (Some ip));
  io_iunlock ip := on_fs (iunlock me (Some ip));
  io_stati ip st := i <- on_fs (stati ip);; to_user st (stat_bytes i);
  io_readi ip addr off n :=
    r <- on_fs (readi (BlockLayer0 := layer) no_driver ip off n);; to_user addr (snd r);; ret (fst r);
  io_writei ip addr off n :=
    src <- gets (λ k, read_bytes (umem k) addr (Z.to_nat n));; on_fs (writei (BlockLayer0 := layer) no_driver ip src off);
|}.

(** ** A machine with three files *)

(** The state a computation leaves. *)
Definition after {S A} (m : M S A) (s : S) : S := match m s with Done (_, s') => s' | Fail _ => s end.

(** The image that mkfs makes of three files of 14 blocks, as the disk, up to
    the last block that is in use. *)
Definition content : list (list Z) := replicate 14 (replicate 512 97).
Definition args : list Mkfs.arg := [([97], Some content); ([98], Some content); ([99], Some content)].
Definition image : list Z :=
  let s := after (Mkfs.main args) Mkfs.start in
  concat ((λ b, default [] (Mkfs.image s !! b)) <$> seqZ 0 (Mkfs.freeblock s)).

(** The kernel's start as far as it concerns files: the cache, the inode
    table, the log, and the inodes of the three files. *)
Definition boot : M (fst_ (lst (bst Memide.disk))) unit :=
  let buffers := bio_layer 0 1 in
  let layer := log_layer (BufLayer0 := buffers) 0 in
  zoom fb (λ t s, mk_fst t (sb s) (ic_lock s) (inodes s)) (zoom lbuf (λ b s, mk_lst b (lg s)) binit);;
  iinit (BlockLayer0 := layer) ROOTDEV;;
  zoom fb (λ t s, mk_fst t (sb s) (ic_lock s) (inodes s)) (initlog (BufLayer0 := buffers) ROOTDEV);;
  _ <- iget 0 ROOTDEV 2;;
  _ <- iget 0 ROOTDEV 3;;
  _ <- iget 0 ROOTDEV 4;;
  ret tt.

Definition power_on : fst_ (lst (bst Memide.disk)) :=
  mk_fst (mk_lst (bcache0 (Memide.ideinit image)) log0) (mk_superblock 0 0 0 0 0 0 0) (initlock "icache") (replicate NINODE zero_inode).

(** Three files open for writing, at byte 256. *)
Definition open_file (ip : nat) : file := mk_file FD_INODE 1 0 1 None (Some ip) 256.
Definition opened : ftab kernel :=
  mk_ftab (initlock "ftable") [open_file 0; open_file 1; open_file 2]
    (mk_kernel (after boot power_on) (λ _, 98)).

(** ** Three writers *)

(** What process [pid] does first in a [filewrite] of file [f], up to its next
    [begin_op]. *)
Definition start_write (pid : Z) : M (ftab kernel) unit := io (io_begin_op (IoEnv := fs_io 0 pid)).
Definition first_chunk (pid : Z) (f : nat) : M (ftab kernel) Z := filewrite_chunk (IoEnv0 := fs_io 0 pid) f f 0 write_max.

(** C40: [filewrite] overflows the log.  Three processes call [filewrite], each
    with 6656 bytes or more for a file of its own, from the middle of a block
    on.  [begin_op] lets all three of them start; each of them then writes 14
    blocks in its first transaction, although 10 have been reserved for it, and
    in the third one [log_write] panics, on the kernel and the disk as they
    are after the start from an image made by mkfs. *)
Theorem filewrite_overflows_log n :
  write_max ≤ n →
  (∀ pid f s, (f < 3)%nat → files s = files opened →
     ∃ k, filewrite (IoEnv0 := fs_io 0 pid) f 0 n s = (start_write pid;; r <- first_chunk pid f;; k r) s) ∧
  (start_write 1;; start_write 2;; start_write 3;;
   r1 <- first_chunk 1 0;; r2 <- first_chunk 2 1;; first_chunk 3 2) opened = Fail (EPanic "too big a transaction").
Proof.
  intros Hn. split; [|by vm_compute]. intros pid f s Hf Hs.
  assert (files s !!! f = open_file f) as E by (rewrite Hs; by destruct f as [|[|[|f]]]; try lia).
  unfold start_write, first_chunk. apply (filewrite_first (IoEnv0 := fs_io 0 pid)); [rewrite E; discriminate|rewrite E; reflexivity|rewrite E; reflexivity|exact Hn].
Qed.

Lemma filewrite_overflows_log_witness :
  (∃ k, filewrite (IoEnv0 := fs_io 0 2) 1 0 8000 opened = (start_write 2;; r <- first_chunk 2 1;; k r) opened) ∧
  (start_write 1;; start_write 2;; start_write 3;;
   r1 <- first_chunk 1 0;; r2 <- first_chunk 2 1;; first_chunk 3 2) opened = Fail (EPanic "too big a transaction").
Proof.
  destruct (filewrite_overflows_log 8000) as [H1 H2]; [by vm_compute|].
  split; [apply (H1 2 1%nat opened); [lia|reflexivity]|exact H2].
Defined.
End FileFs.
