(* ===== verification/Sysfile.v ===== *)
(** * sysfile.c: the system calls on files

    The state is the process table over the file table of [File]; the kernel
    below them, with its memory, inodes and log, is the interface
    [KernelCalls].  [p] is the process that makes the call.  A result is the
    [int] the call returns. *)

From S2P Require Import Prelude Spinlock Mmu Segment Proc Buf File Fs.

Definition O_RDONLY : Z := 0x000.
Definition O_WRONLY : Z := 0x001.
Definition O_RDWR : Z := 0x002.
Definition O_CREATE : Z := 0x200.
Definition sizeof_stat : Z := 20.

(** What sysfile.c and pipe.c use: the arguments of the call (syscall.c), exec.c,
    inodes and directories (fs.c), and a page for a pipe (kalloc.c).  [None]
    is a failed fetch of an argument, or a null pointer.  Paths are the bytes
    of the string, without its NUL. *)
Class KernelCalls (W : Type) := {
  kc_argint : nat → Z → M (pst (ftab W)) (option Z);
  kc_argptr : nat → Z → Z → M (pst (ftab W)) (option Z);
  kc_argstr : nat → Z → M (pst (ftab W)) (option (list Z));
  kc_fetchint : nat → Z → M (pst (ftab W)) (option Z);
  kc_fetchstr : nat → Z → M (pst (ftab W)) (option (list Z));
  kc_exec : nat → list Z → list (list Z) → M (pst (ftab W)) Z;
  kc_store_int : Z → Z → M W unit;
  kc_namei : option nat → list Z → M W (option nat);
  kc_nameiparent : option nat → list Z → M W (option (nat * list Z));
  kc_dirlookup : nat → list Z → M W (option (nat * Z));
  kc_dirlink : nat → list Z → Z → M W Z;
  kc_ialloc : Z → Z → M W nat;
  kc_iupdate : nat → M W unit;
  kc_iunlockput : nat → M W unit;
  kc_inode : nat → M W inode;
  kc_set_inode : nat → (inode → inode) → M W unit;
  kc_readi : nat → Z → Z → M W (Z * list Z);
  kc_writei : nat → list Z → Z → M W Z;
  kc_kalloc : M W (option nat);
  kc_kfree : nat → M W unit;
  kc_init_pipe : nat → M W unit;
}.

Section sysfile.
Context {W : Type} `{!IoEnv W, !KernelCalls W} (me : nat).
Abbreviation P := (M (pst (ftab W))).

(** The file table, and what is below it. *)
Definition tab {A} (m : M (ftab W) A) : P A := env m.
Definition below {A} (m : M W A) : P A := env (io m).

(** ** File descriptors *)

Definition argfd (p : nat) (n : Z) : P (option (nat * nat)) :=
  r <- kc_argint p n;;
  match r with
  | None => ret None
  | Some fd =>
      q <- proc_at p;;
      if (fd <? 0) || (Z.of_nat NOFILE <=? fd) then ret None
      else match ofile q !!! Z.to_nat fd with
        | None => ret None
        | Some f => ret (Some (Z.to_nat fd, f))
        end
  end.

Fixpoint free_fd {A} (l : list (option A)) (fd : nat) : option nat :=
  match l with
  | [] => None
  | None :: _ => Some fd
  | Some _ :: l' => free_fd l' (S fd)
  end.

Definition set_fd (fd : nat) (v : option nat) (q : proc) : proc := set_ofile (<[fd := v]> (ofile q)) q.

Definition fdalloc (p f : nat) : P (option nat) :=
  q <- proc_at p;;
  match free_fd (ofile q) 0 with
  | Some fd => upd p (set_fd fd (Some f));; ret (Some fd)
  | None => ret None
  end.

Definition sys_dup (p : nat) : P Z :=
  r <- argfd p 0;;
  match r with
  | None => ret (-1)
  | Some (_, f) =>
      r <- fdalloc p f;;
      match r with
      | None => ret (-1)
      | Some fd => tab (filedup me f);; ret (Z.of_nat fd)
      end
  end.

(** The arguments of [sys_read] and [sys_write]. *)
Definition arg_transfer (p : nat) (k : nat → Z → Z → P Z) : P Z :=
  r <- argfd p 0;;
  match r with
  | None => ret (-1)
  | Some (_, f) =>
      n <- kc_argint p 2;;
      match n with
      | None => ret (-1)
      | Some n =>
          a <- kc_argptr p 1 n;;
          match a with None => ret (-1) | Some a => k f a n end
      end
  end.
Definition sys_read (p : nat) : P Z := arg_transfer p (λ f a n, tab (fileread f a n)).
Definition sys_write (p : nat) : P Z := arg_transfer p (λ f a n, tab (filewrite f a n)).

Definition sys_close (p : nat) : P Z :=
  r <- argfd p 0;;
  match r with
  | None => ret (-1)
  | Some (fd, f) =>
      upd p (set_fd fd None);;
      tab (fileclose me f);;
      ret 0
  end.

Definition sys_fstat (p : nat) : P Z :=
  r <- argfd p 0;;
  match r with
  | None => ret (-1)
  | Some (_, f) =>
      st <- kc_argptr p 1 sizeof_stat;;
      match st with None => ret (-1) | Some st => tab (filestat f st) end
  end.

(** ** Links *)

Definition fail_op : P Z := below io_end_op;; ret (-1).
Definition set_nlink_by (d : Z) (ip : nat) : P unit :=
  below (kc_set_inode ip (λ i, set_nlink (s16 (nlink i + d)) i));;
  below (kc_iupdate ip).

(** The label [bad] of [sys_link]. *)
Definition link_bad (ip : nat) : P Z :=
  below (io_ilock ip);;
  set_nlink_by (-1) ip;;
  below (kc_iunlockput ip);;
  fail_op.

Definition sys_link (p : nat) : P Z :=
  old <- kc_argstr p 0;;
  match old with
  | None => ret (-1)
  | Some old =>
  new <- kc_argstr p 1;;
  match new with
  | None => ret (-1)
  | Some new =>
      q <- proc_at p;;
      below io_begin_op;;
      ip <- below (kc_namei (cwd q) old);;
      match ip with
      | None => fail_op
      | Some ip =>
          below (io_ilock ip);;
          i <- below (kc_inode ip);;
          if i_type i =? T_DIR then below (kc_iunlockput ip);; fail_op
          else
            set_nlink_by 1 ip;;
            below (io_iunlock ip);;
            dp <- below (kc_nameiparent (cwd q) new);;
            match dp with
            | None => link_bad ip
            | Some (dp, name) =>
                below (io_ilock dp);;
                d <- below (kc_inode dp);;
                i <- below (kc_inode ip);;
                r <- (if negb (i_dev d =? i_dev i) then ret (-1) else below (kc_dirlink dp name (inum i)));;
                if r <? 0 then below (kc_iunlockput dp);; link_bad ip
                else
                  below (kc_iunlockput dp);;
                  below (io_iput ip);;
                  below io_end_op;;
                  ret 0
            end
      end
  end
  end.

(** [for(off=2*sizeof(de); off<dp->size; off+=sizeof(de))]; the comparison is
    one of unsigned values. *)
Fixpoint isdirempty_loop (fuel : nat) (dp : nat) (off : Z) : P bool :=
  match fuel with
  | O => fail EFuel
  | S fuel' =>
      i <- below (kc_inode dp);;
      if off <? i_size i then
        r <- below (kc_readi dp off sizeof_dirent);;
        if negb (r.1 =? sizeof_dirent) then panic "isdirempty: readi"
        else if negb (de_inum r.2 =? 0) then ret false
        else isdirempty_loop fuel' dp (off + sizeof_dirent)
      else ret true
  end.
Definition isdirempty (dp : nat) : P bool :=
  i <- below (kc_inode dp);;
  isdirempty_loop (S (Z.to_nat (i_size i))) dp (2 * sizeof_dirent).

(** The label [bad] of [sys_unlink]. *)
Definition unlink_bad (dp : nat) : P Z := below (kc_iunlockput dp);; fail_op.

(** [sys_unlink] from the lookup of the entry on. *)
Definition unlink_entry (dp : nat) (name : list Z) : P Z :=
  r <- below (kc_dirlookup dp name);;
  match r with
  | None => unlink_bad dp
  | Some (ip, off) =>
      below (io_ilock ip);;
      i <- below (kc_inode ip);;
      if nlink i <? 1 then panic "unlink: nlink < 1"
      else
        e <- (if i_type i =? T_DIR then isdirempty ip else ret true);;
        if negb e then below (kc_iunlockput ip);; unlink_bad dp
        else
          r <- below (kc_writei dp (replicate (Z.to_nat sizeof_dirent) 0) off);;
          if negb (r =? sizeof_dirent) then panic "unlink: writei"
          else
            i <- below (kc_inode ip);;
            when (i_type i =? T_DIR) (set_nlink_by (-1) dp);;
            below (kc_iunlockput dp);;
            set_nlink_by (-1) ip;;
            below (kc_iunlockput ip);;
            below io_end_op;;
            ret 0
  end.

Definition sys_unlink (p : nat) : P Z :=
  path <- kc_argstr p 0;;
  match path with
  | None => ret (-1)
  | Some path =>
      q <- proc_at p;;
      below io_begin_op;;
      r <- below (kc_nameiparent (cwd q) path);;
      match r with
      | None => fail_op
      | Some (dp, name) =>
          below (io_ilock dp);;
          if (namecmp name (chars ".") =? 0) || (namecmp name (chars "..") =? 0) then unlink_bad dp
          else unlink_entry dp name
      end
  end.

(** ** Creating and opening *)

(** [create] when the name is free. *)
Definition create_new (dp : nat) (name : list Z) (type maj min : Z) : P (option nat) :=
  d <- below (kc_inode dp);;
  ip <- below (kc_ialloc (i_dev d) type);;
  below (io_ilock ip);;
  below (kc_set_inode ip (set_major_minor maj min));;
  below (kc_set_inode ip (set_nlink 1));;
  below (kc_iupdate ip);;
  i <- below (kc_inode ip);;
  d <- below (kc_inode dp);;
  (if type =? T_DIR then
    set_nlink_by 1 dp;;
    r <- below (kc_dirlink ip (chars ".") (inum i));;
    if r <? 0 then panic "create dots"
    else
      r <- below (kc_dirlink ip (chars "..") (inum d));;
      if r <? 0 then panic "create dots" else ret tt
  else ret tt);;
  r <- below (kc_dirlink dp name (inum i));;
  if r <? 0 then panic "create: dirlink"
  else
    below (kc_iunlockput dp);;
    ret (Some ip).

Definition create (p : nat) (path : list Z) (type maj min : Z) : P (option nat) :=
  q <- proc_at p;;
  r <- below (kc_nameiparent (cwd q) path);;
  match r with
  | None => ret None
  | Some (dp, name) =>
      below (io_ilock dp);;
      r <- below (kc_dirlookup dp name);;
      match r with
      | Some (ip, _) =>
          below (kc_iunlockput dp);;
          below (io_ilock ip);;
          i <- below (kc_inode ip);;
          if (type =? T_FILE) && (i_type i =? T_FILE) then ret (Some ip)
          else below (kc_iunlockput ip);; ret None
      | None => create_new dp name type maj min
      end
  end.

(** The inode [sys_open] opens, locked; [None] after a failure. *)
Definition open_inode (p : nat) (path : list Z) (omode : Z) : P (option nat) :=
  if negb (Z.land omode O_CREATE =? 0) then create p path T_FILE 0 0
  else
    q <- proc_at p;;
    ip <- below (kc_namei (cwd q) path);;
    match ip with
    | None => ret None
    | Some ip =>
        below (io_ilock ip);;
        i <- below (kc_inode ip);;
        if (i_type i =? T_DIR) && negb (omode =? O_RDONLY) then below (kc_iunlockput ip);; ret None
        else ret (Some ip)
    end.

Definition bool_int (b : bool) : Z := if b then 1 else 0.

(** The fields of a file opened with mode [omode]. *)
Definition open_fields (ip : nat) (omode : Z) (f : file) : file :=
  mk_file FD_INODE (f_ref f)
    (bool_int (Z.land omode O_WRONLY =? 0))
    (bool_int (negb (Z.land omode O_WRONLY =? 0) || negb (Z.land omode O_RDWR =? 0)))
    (f_pipe f) (Some ip) 0.

Definition open_fail (ip : nat) : P Z := below (kc_iunlockput ip);; fail_op.

Definition sys_open (p : nat) : P Z :=
  path <- kc_argstr p 0;;
  match path with
  | None => ret (-1)
  | Some path =>
  omode <- kc_argint p 1;;
  match omode with
  | None => ret (-1)
  | Some omode =>
      below io_begin_op;;
      ip <- open_inode p path omode;;
      match ip with
      | None => fail_op
      | Some ip =>
          f <- tab (filealloc me);;
          match f with
          | None => open_fail ip
          | Some f =>
              fd <- fdalloc p f;;
              match fd with
              | None => tab (fileclose me f);; open_fail ip
              | Some fd =>
                  below (io_iunlock ip);;
                  below io_end_op;;
                  tab (updf f (open_fields ip omode));;
                  ret (Z.of_nat fd)
              end
          end
      end
  end
  end.

(** [sys_mkdir] and [sys_mknod] after the arguments. *)
Definition make_node (p : nat) (path : list Z) (type maj min : Z) : P Z :=
  ip <- create p path type maj min;;
  match ip with
  | None => fail_op
  | Some ip =>
      below (kc_iunlockput ip);;
      below io_end_op;;
      ret 0
  end.

Definition sys_mkdir (p : nat) : P Z :=
  below io_begin_op;;
  path <- kc_argstr p 0;;
  match path with
  | None => fail_op
  | Some path => make_node p path T_DIR 0 0
  end.

(** [major] and [minor] become [short]s. *)
Definition sys_mknod (p : nat) : P Z :=
  below io_begin_op;;
  path <- kc_argstr p 0;;
  match path with
  | None => fail_op
  | Some path =>
  major <- kc_argint p 1;;
  match major with
  | None => fail_op
  | Some major =>
  minor <- kc_argint p 2;;
  match minor with
  | None => fail_op
  | Some minor => make_node p path T_DEV (s16 major) (s16 minor)
  end
  end
  end.

Definition sys_chdir (p : nat) : P Z :=
  below io_begin_op;;
  path <- kc_argstr p 0;;
  match path with
  | None => fail_op
  | Some path =>
      q <- proc_at p;;
      ip <- below (kc_namei (cwd q) path);;
      match ip with
      | None => fail_op
      | Some ip =>
          below (io_ilock ip);;
          i <- below (kc_inode ip);;
          if negb (i_type i =? T_DIR) then below (kc_iunlockput ip);; fail_op
          else
            below (io_iunlock ip);;
            c <- tab (deref (cwd q));;
            below (io_iput c);;
            below io_end_op;;
            upd p (set_cwd (Some ip));;
            ret 0
      end
  end.

(** The loop of [sys_exec] over the user's [argv], from entry [i] on; [None]
    is the result -1. *)
Fixpoint exec_args (n : nat) (p : nat) (uargv i : Z) (argv : list (list Z)) : P (option (list (list Z))) :=
  match n with
  | O => ret None
  | S n' =>
      u <- kc_fetchint p (u32 (uargv + 4 * i));;
      match u with
      | None => ret None
      | Some uarg =>
          if u32 uarg =? 0 then ret (Some argv)
          else
            s <- kc_fetchstr p (u32 uarg);;
            match s with
            | None => ret None
            | Some s => exec_args n' p uargv (i + 1) (argv ++ [s])
            end
      end
  end.

Definition sys_exec (p : nat) : P Z :=
  path <- kc_argstr p 0;;
  match path with
  | None => ret (-1)
  | Some path =>
  uargv <- kc_argint p 1;;
  match uargv with
  | None => ret (-1)
  | Some uargv =>
      argv <- exec_args MAXARG p (u32 uargv) 0 [];;
      match argv with
      | None => ret (-1)
      | Some argv => kc_exec p path argv
      end
  end
  end.

(** ** Pipes *)

Definition pipe_end (r w : Z) (pi : nat) (f : file) : file := mk_file FD_PIPE (f_ref f) r w (Some pi) (f_ip f) (f_off f).

(** pipe.c's [pipealloc]: the read end and the write end. *)
Definition pipealloc : P (option (nat * nat)) :=
  f0 <- tab (filealloc me);;
  match f0 with
  | None => ret None
  | Some f0 =>
  f1 <- tab (filealloc me);;
  match f1 with
  | None => tab (fileclose me f0);; ret None
  | Some f1 =>
  pi <- below kc_kalloc;;
  match pi with
  | None =>
      tab (fileclose me f0);;
      tab (fileclose me f1);;
      ret None
  | Some pi =>
      below (kc_init_pipe pi);;
      tab (updf f0 (pipe_end 1 0 pi));;
      tab (updf f1 (pipe_end 0 1 pi));;
      ret (Some (f0, f1))
  end
  end
  end.

Definition sys_pipe (p : nat) : P Z :=
  a <- kc_argptr p 0 8;;
  match a with
  | None => ret (-1)
  | Some a =>
      r <- pipealloc;;
      match r with
      | None => ret (-1)
      | Some (rf, wf) =>
          fd0 <- fdalloc p rf;;
          match fd0 with
          | None =>
              tab (fileclose me rf);;
              tab (fileclose me wf);;
              ret (-1)
          | Some fd0 =>
              fd1 <- fdalloc p wf;;
              match fd1 with
              | None =>
                  upd p (set_fd fd0 None);;
                  tab (fileclose me rf);;
                  tab (fileclose me wf);;
                  ret (-1)
              | Some fd1 =>
                  below (kc_store_int a (Z.of_nat fd0));;
                  below (kc_store_int (a + 4) (Z.of_nat fd1));;
                  ret 0
              end
          end
      end
  end.
End sysfile.
