(* ===== verification/SysfileSpec.v ===== *)
(** * Descriptors and the file table

    The system calls of sysfile.c, and [fork], [exit] and [wait] of proc.c, run
    one after another by any processes, keep the reference count of every
    open file equal to the number of descriptors that refer to it. *)

From S2P Require Import Prelude Spinlock Mmu Segment Proc Buf File Fs Sysfile.

(** ** Lists of descriptors *)

(** The files of the descriptor tables. *)
Definition held (l : list (option nat)) : list nat := omap id l.
Definition handles_of (ts : list (list (option nat))) : list nat := concat (held <$> ts).

Lemma held_put l fd f : l !! fd = Some None → held (<[fd := Some f]> l) ≡ₚ f :: held l.
Proof.
  intros H. unfold held. rewrite <-(take_drop_middle l fd None H) at 2.
  rewrite insert_take_drop by (by eapply lookup_lt_Some). rewrite !omap_app. cbn. by rewrite Permutation_middle.
Qed.

Lemma held_drop l fd f : l !! fd = Some (Some f) → held l ≡ₚ f :: held (<[fd := None]> l).
Proof.
  intros H. unfold held. rewrite <-(take_drop_middle l fd (Some f) H) at 1.
  rewrite insert_take_drop by (by eapply lookup_lt_Some). rewrite !omap_app. cbn. by rewrite Permutation_middle.
Qed.

Lemma held_replicate n : held (replicate n None) = [].
Proof. induction n; [done|]. cbn. done. Qed.

Lemma handles_insert ts p l l' : ts !! p = Some l → held l' ++ handles_of ts ≡ₚ held l ++ handles_of (<[p := l']> ts).
Proof.
  intros H. unfold handles_of. rewrite <-(take_drop_middle ts p l H) at 1.
  rewrite insert_take_drop by (by eapply lookup_lt_Some). rewrite !fmap_app, !concat_app, !fmap_cons. cbn.
  rewrite !app_assoc. apply Permutation_app_tail. rewrite <-!app_assoc, Permutation_app_comm, app_assoc. apply Permutation_app_tail, Permutation_app_comm.
Qed.

Lemma held_length l : (length (held l) ≤ length l)%nat.
Proof. unfold held. induction l as [|[f|] l IH]; cbn; lia. Qed.

Lemma handles_length ts n : Forall (λ l, length l = n) ts → (length (handles_of ts) ≤ n * length ts)%nat.
Proof.
  induction 1 as [|l ts Hl _ IH]; cbn; [lia|]. unfold handles_of in *. rewrite length_app. pose proof (held_length l). lia.
Qed.

Lemma held_elem l fd f : l !! fd = Some (Some f) → f ∈ held l.
Proof. intros H. rewrite (held_drop l fd f H). by left. Qed.

Lemma handles_elem ts p l f : ts !! p = Some l → f ∈ held l → f ∈ handles_of ts.
Proof.
  intros Hp Hf. unfold handles_of. rewrite <-(take_drop_middle ts p l Hp), fmap_app, concat_app, fmap_cons. cbn.
  rewrite !elem_of_app. auto.
Qed.

Lemma free_fd_Some (l : list (option nat)) k fd : free_fd l k = Some fd → (k ≤ fd)%nat ∧ l !! (fd - k)%nat = Some None.
Proof.
  revert k. induction l as [|[f|] l IH]; intros k H; cbn in H; [done| |].
  - destruct (IH _ H) as [H1 H2]. split; [lia|]. by replace (fd - k)%nat with (S (fd - S k)) by lia.
  - injection H as <-. split; [done|]. by rewrite Nat.sub_diag.
Qed.

(** ** The file table *)

Section table.
Context {W : Type} `{!IoEnv W} (me : nat).
Implicit Types s : ftab W.

#[export] Instance finv_perm s : Proper ((≡ₚ) ==> iff) (finv s).
Proof.
  assert (∀ hs hs', hs ≡ₚ hs' → finv s hs → finv s hs') as H.
  { intros hs hs' E [H1 H2 H3 H4]. split; [done|done| |by rewrite <-E]. intros f. rewrite H3. f_equal. unfold count. by rewrite E. }
  intros hs hs' E. split; apply H; [done|by symmetry].
Qed.

(** Partial correctness: what holds if the call returns. *)
Abbreviation wpt m Q s := (wpe m Q (λ _, True) s).

Lemma wpt_alloc s hs :
  finv s hs → Z.of_nat (length hs) < 2 ^ 31 - 1 →
  wpt (filealloc me) (λ r s', match r with Some f => finv s' (f :: hs) | None => finv s' hs end) s.
Proof.
  intros Hi Hl. destruct (filealloc_eq me s hs Hi) as [(f & E & Hf & Hn)|[E _]]; unfold wpe; rewrite E; [|done].
  assert (count f hs = 0)%nat as H0 by (rewrite count_pos in Hn; lia).
  apply (finv_set s hs); [done|by rewrite (fi_len _ _ Hi)|cbn [f_ref set_fref]; rewrite count_cons, decide_True by done; lia| |cbn [length]; lia].
  intros g Hg. by rewrite count_cons, decide_False by done.
Qed.

Lemma wpt_dup s hs f :
  finv s hs → f ∈ hs → Z.of_nat (length hs) < 2 ^ 31 - 1 → wpt (filedup me f) (λ r s', r = f ∧ finv s' (f :: hs)) s.
Proof.
  intros Hi Hf Hl. destruct (held_bound s hs f Hi Hf) as [Hb Hr]. pose proof (count_length f hs). pose proof (fi_ref _ _ Hi f).
  unfold wpe. rewrite (filedup_eq me s hs) by (done || lia). split; [done|].
  apply (finv_set s hs); [done|done|cbn [f_ref set_fref]; rewrite count_cons, decide_True by done; lia| |cbn [length]; lia].
  intros g Hg. by rewrite count_cons, decide_False by done.
Qed.

Lemma wpt_close s hs f : finv s (f :: hs) → wpt (fileclose me f) (λ _ s', finv s' hs) s.
Proof. intros Hi. unfold wpe. destruct (fileclose me f s) as [[[] s']|] eqn:E; [|done]. by apply (finv_close me s [] f hs). Qed.

Lemma finv_updf s hs f g : finv s hs → (∀ x, f_ref (g x) = f_ref x) → finv (set_files (<[f := g (files s !!! f)]> (files s)) s) hs.
Proof.
  intros [H1 H2 H3 H4] Hg. split; cbn; [by rewrite length_insert|done| |done]. intros h.
  destruct (decide (f < length (files s))%nat) as [Hf|Hf]; [|by rewrite list_insert_ge by lia].
  rewrite ref_insert by done. destruct (decide (f = h)) as [->|]; [|done]. by rewrite Hg.
Qed.

(** A call that leaves the counts alone. *)
Definition quiet {A} (m : M (ftab W) A) : Prop := ∀ s hs, finv s hs → wpt m (λ _ s', finv s' hs) s.

Lemma quiet_bind {A B} (m : M (ftab W) A) (f : A → M (ftab W) B) : quiet m → (∀ a, quiet (f a)) → quiet (bind m f).
Proof. intros Hm Hf s hs Hi. apply wpe_bind. eapply wpe_mono; [by apply Hm| |done]. intros a s' Hi'. by apply Hf. Qed.
Lemma quiet_ret {A} (a : A) : quiet (ret a).
Proof. by intros s hs Hi. Qed.
Lemma quiet_fail {A} e : quiet (fail (A := A) e).
Proof. by intros s hs Hi. Qed.
Lemma quiet_at f : quiet (file_at f).
Proof. by intros s hs Hi. Qed.
Lemma quiet_updf f g : (∀ x, f_ref (g x) = f_ref x) → quiet (updf f g).
Proof. intros Hg s hs Hi. apply wpe_modify. by apply finv_updf. Qed.
Lemma quiet_io {A} (m : M W A) : quiet (io m).
Proof. intros s hs [H1 H2 H3 H4]. unfold wpe, io, zoom. destruct (m (fworld s)) as [[a w]|]; [|done]. by split. Qed.
Lemma quiet_deref {A} (o : option A) : quiet (deref o).
Proof. destruct o; [apply quiet_ret|apply quiet_fail]. Qed.
Lemma quiet_when b m : quiet m → quiet (when b m).
Proof. destruct b; [done|]. intros _. apply quiet_ret. Qed.

Create HintDb quiet_db.
Hint Resolve quiet_bind quiet_ret quiet_fail quiet_at quiet_updf quiet_io quiet_deref quiet_when : quiet_db.
Ltac quiet := repeat first
  [ apply quiet_bind; [|intros ?] | apply quiet_ret | apply quiet_fail | apply quiet_at | by apply quiet_updf | apply quiet_io
  | apply quiet_deref | apply quiet_when | progress cbn beta | match goal with |- quiet (match ?x with _ => _ end) => destruct x end ].

Lemma quiet_stat f st : quiet (filestat f st).
Proof. unfold filestat. quiet. Qed.
Lemma quiet_read f a n : quiet (fileread f a n).
Proof. unfold fileread, panic. quiet. Qed.
Lemma quiet_write_loop fuel f ip a i n : quiet (filewrite_loop fuel f ip a i n).
Proof. revert i. induction fuel as [|fuel IH]; intros i; cbn [filewrite_loop]; [apply quiet_fail|]. unfold panic. quiet. apply IH. Qed.
Lemma quiet_write f a n : quiet (filewrite f a n).
Proof. unfold filewrite, panic. quiet. apply quiet_write_loop. Qed.
End table.

(** ** Processes *)

(** What the calls below do not do: fetching arguments changes nothing, and
    [exec] keeps descriptors and files. *)
Class KernelCallsSpec (W : Type) `{!KernelCalls W} := {
  argint_pure p n s r s' : kc_argint p n s = Done (r, s') → s' = s;
  argptr_pure p n z s r s' : kc_argptr p n z s = Done (r, s') → s' = s;
  argstr_pure p n s r s' : kc_argstr p n s = Done (r, s') → s' = s;
  fetchint_pure p a s r s' : kc_fetchint p a s = Done (r, s') → s' = s;
  fetchstr_pure p a s r s' : kc_fetchstr p a s = Done (r, s') → s' = s;
  exec_keeps p path argv s r s' : kc_exec p path argv s = Done (r, s') →
    ofile <$> procs s' = ofile <$> procs s ∧ state <$> procs s' = state <$> procs s ∧
    files (world s') = files (world s) ∧ ft_lock (world s') = ft_lock (world s);
}.

(** An entry without a process has no descriptors. *)
Definition no_process (x : procstate) : Prop := x = UNUSED ∨ x = ZOMBIE.
Definition no_files : list (option nat) := replicate NOFILE None.

Section calls.
Context {W : Type} `{!IoEnv W, !KernelCalls W, !KernelCallsSpec W, !ProcEnv W} (me : nat).
Implicit Types s : pst (ftab W).
Abbreviation P := (M (pst (ftab W))).
Abbreviation wpt m Q s := (wpe m Q (λ _, True) s).

(** The kernel below the process table, with the file table of file.c. *)
#[export] Instance files_env : ProcEnv (ftab W) := {
  pe_kalloc := io pe_kalloc; pe_kfree v := io (pe_kfree v); pe_store32 a v := io (pe_store32 a v);
  pe_setupkvm := io pe_setupkvm; pe_inituvm d := io (pe_inituvm d); pe_copyuvm d n := io (pe_copyuvm d n);
  pe_freevm d := io (pe_freevm d); pe_allocuvm d a b := io (pe_allocuvm d a b); pe_deallocuvm d a b := io (pe_deallocuvm d a b);
  pe_switchuvm k d := io (pe_switchuvm k d); pe_switchkvm := io pe_switchkvm;
  pe_filedup f := filedup me f; pe_fileclose f := fileclose me f;
  pe_idup i := io (pe_idup i); pe_iput i := io (pe_iput i); pe_begin_op := io pe_begin_op; pe_end_op := io pe_end_op;
  pe_namei_root := io pe_namei_root; pe_forkret_first := io pe_forkret_first;
  pe_acquire l := io (pe_acquire l); pe_release l := io (pe_release l);
}.

Definition tables s : list (list (option nat)) := ofile <$> procs s.
Definition handles s : list nat := handles_of (tables s).
Definition states s : list procstate := state <$> procs s.

(** [ex] are the file pointers the running call holds besides. *)
Record dinv (ex : list nat) s : Prop := {
  d_len : length (procs s) = NPROC;
  d_ofile : Forall (λ l, length l = NOFILE) (tables s);
  d_none : ∀ i, no_process (state (procs s !!! i)) → ofile (procs s !!! i) = no_files;
  d_refs : finv (world s) (ex ++ handles s);
}.

Lemma handles_small s : length (procs s) = NPROC → Forall (λ l, length l = NOFILE) (tables s) → (length (handles s) ≤ 1024)%nat.
Proof. intros H1 H2. unfold handles. pose proof (handles_length _ _ H2) as H. unfold tables in H at 2. rewrite length_fmap, H1 in H. exact H. Qed.

Lemma table_at s i : (i < length (procs s))%nat → tables s !! i = Some (ofile (procs s !!! i)).
Proof. intros H. unfold tables. by rewrite list_lookup_fmap, list_lookup_lookup_total_lt. Qed.

Lemma table_length ex s i : dinv ex s → length (ofile (procs s !!! i)) = NOFILE.
Proof.
  intros [H1 H2 _ _]. destruct (decide (i < length (procs s))%nat) as [Hi|Hi].
  - by apply (Forall_lookup_1 _ _ _ _ H2 (table_at s i Hi)).
  - by rewrite list_lookup_total_alt, lookup_ge_None_2 by lia.
Qed.

(** Changes that leave descriptors and files alone. *)
Lemma dinv_same ex s s' :
  dinv ex s → tables s' = tables s → (∀ i, no_process (state (procs s' !!! i)) → no_process (state (procs s !!! i))) →
  files (world s') = files (world s) → ft_lock (world s') = ft_lock (world s) → dinv ex s'.
Proof.
  intros [H1 H2 H3 H4] Ht Hs Hf Hl. assert (length (procs s') = length (procs s)) as El.
  { unfold tables in Ht. by rewrite <-(length_fmap ofile), Ht, length_fmap. }
  assert (∀ i, ofile (procs s' !!! i) = ofile (procs s !!! i)) as Ho.
  { intros i. destruct (decide (i < length (procs s))%nat) as [Hi|Hi].
    - pose proof (table_at s i Hi) as E. rewrite <-Ht, table_at in E by lia. by injection E.
    - by rewrite !list_lookup_total_alt, !lookup_ge_None_2 by lia. }
  split; [congruence|by rewrite Ht|intros i Hi; rewrite Ho; by apply H3, Hs|].
  unfold handles. rewrite Ht. destruct H4 as [A1 A2 A3 A4]. split; [by rewrite Hf|by rewrite Hl|intros f; by rewrite Hf|done].
Qed.

Lemma states_at s i : states s !! i = state <$> procs s !! i.
Proof. apply list_lookup_fmap. Qed.

Lemma states_eq s s' i : states s' = states s → state (procs s' !!! i) = state (procs s !!! i).
Proof.
  intros E. pose proof (states_at s i) as H1. pose proof (states_at s' i) as H2. rewrite E, H1 in H2. rewrite !list_lookup_total_alt.
  destruct (procs s !! i), (procs s' !! i); cbn in H2; try done. by injection H2.
Qed.

(** Calls that leave descriptors, states of processes and counts alone. *)
Definition still {A} (m : P A) : Prop :=
  ∀ ex s, dinv ex s → wpt m (λ _ s', dinv ex s' ∧ tables s' = tables s ∧ states s' = states s) s.

Lemma still_tab {A} (m : M (ftab W) A) : quiet m → still (tab m).
Proof.
  intros Hm ex s Hi. apply wpe_zoom. destruct Hi as [H1 H2 H3 H4]. eapply wpe_mono; [apply (Hm _ _ H4)| |done].
  cbn. intros a t Ht. split; [|done]. by split.
Qed.
Lemma still_below {A} (m : M W A) : still (below m).
Proof. apply still_tab, quiet_io. Qed.
Lemma still_bind {A B} (m : P A) (f : A → P B) : still m → (∀ a, still (f a)) → still (bind m f).
Proof.
  intros Hm Hf ex s Hi. apply wpe_bind. eapply wpe_mono; [by apply Hm| |done]. intros a s' (Hi' & E1 & E2).
  eapply wpe_mono; [by apply Hf| |done]. cbn. intros b s'' (Hi'' & ? & ?). split; [done|]. split; congruence.
Qed.
Lemma still_ret {A} (a : A) : still (ret a).
Proof. by intros ex s Hi. Qed.
Lemma still_fail {A} e : still (fail (A := A) e).
Proof. by intros ex s Hi. Qed.
Lemma still_proc_at p : still (proc_at p).
Proof. by intros ex s Hi. Qed.
Lemma still_when b m : still m → still (when b m).
Proof. destruct b; [done|]. intros _. apply still_ret. Qed.
Lemma still_pure {A} (m : P A) : (∀ s r s', m s = Done (r, s') → s' = s) → still m.
Proof. intros H ex s Hi. unfold wpe. destruct (m s) as [[r s']|] eqn:E; [|done]. by rewrite (H _ _ _ E). Qed.
Lemma still_argint p n : still (kc_argint p n).
Proof. apply still_pure. intros ???. apply argint_pure. Qed.
Lemma still_argptr p n z : still (kc_argptr p n z).
Proof. apply still_pure. intros ???. apply argptr_pure. Qed.
Lemma still_argstr p n : still (kc_argstr p n).
Proof. apply still_pure. intros ???. apply argstr_pure. Qed.
Lemma still_fetchint p n : still (kc_fetchint p n).
Proof. apply still_pure. intros ???. apply fetchint_pure. Qed.
Lemma still_fetchstr p n : still (kc_fetchstr p n).
Proof. apply still_pure. intros ???. apply fetchstr_pure. Qed.

Lemma still_gets {A} (f : pst (ftab W) → A) : still (gets f).
Proof. by intros ex s Hi. Qed.
Lemma still_nextpid f : still (modify (λ s : pst (ftab W), mk_pst (pt_lock s) (procs s) (initproc s) (f s) (world s))).
Proof. intros ex s [H1 H2 H3 H4]. apply wpe_modify. split; [by split|done]. Qed.
Lemma still_lock (m : M spinlock unit) : still (on_ptable_lock m).
Proof. intros ex s [H1 H2 H3 H4]. unfold wpe, on_ptable_lock, zoom. destruct (m (pt_lock s)) as [[a l]|]; [|done]. split; [by split|done]. Qed.

Lemma fmap_insert_same {A} (f : proc → A) g p (l : list proc) : (∀ q, f (g q) = f q) → f <$> <[p := g (l !!! p)]> l = f <$> l.
Proof.
  intros Hg. rewrite list_fmap_insert, Hg. destruct (decide (p < length l)%nat) as [Hp|Hp].
  - apply list_insert_id. by rewrite list_lookup_fmap, list_lookup_lookup_total_lt.
  - apply list_insert_ge. rewrite length_fmap. lia.
Qed.

Lemma still_upd p g : (∀ q, ofile (g q) = ofile q) → (∀ q, state (g q) = state q) → still (upd p g).
Proof.
  intros Ho Hs ex s Hi. apply wpe_modify.
  assert (tables (set_procs (<[p := g (procs s !!! p)]> (procs s)) s) = tables s) as E1 by (by apply fmap_insert_same).
  assert (states (set_procs (<[p := g (procs s !!! p)]> (procs s)) s) = states s) as E2 by (by apply fmap_insert_same).
  split; [|done]. eapply dinv_same; try done. intros i. by rewrite (states_eq _ _ i E2).
Qed.

Ltac still := repeat first
  [ apply still_bind; [|intros ?] | apply still_ret | apply still_fail | apply still_below | apply still_proc_at | apply still_argint
  | apply still_gets | apply still_lock | by apply still_upd | apply still_argptr | apply still_argstr | apply still_fetchint | apply still_fetchstr | apply still_when | progress cbn beta
  | match goal with |- still (match ?x with _ => _ end) => destruct x end ].

Lemma still_argfd p n : still (argfd p n).
Proof. unfold argfd. still. Qed.
Lemma still_fail_op : still fail_op.
Proof. unfold fail_op. still. Qed.
Lemma still_nlink d ip : still (set_nlink_by d ip).
Proof. unfold set_nlink_by. still. Qed.
Lemma still_link p : still (sys_link p).
Proof. unfold sys_link, link_bad, fail_op, set_nlink_by. still. Qed.
Lemma still_empty_loop fuel dp off : still (isdirempty_loop fuel dp off).
Proof. revert off. induction fuel as [|fuel IH]; intros off; cbn [isdirempty_loop]; [apply still_fail|]. unfold panic. still; apply IH. Qed.
Lemma still_unlink p : still (sys_unlink p).
Proof. unfold sys_unlink, unlink_entry, unlink_bad, fail_op, set_nlink_by, isdirempty, panic. still; apply still_empty_loop. Qed.
Lemma still_create p path type maj min : still (create p path type maj min).
Proof. unfold create, create_new, set_nlink_by, panic. still. Qed.
Lemma still_open_inode p path omode : still (open_inode p path omode).
Proof. unfold open_inode. still; apply still_create. Qed.
Lemma still_make_node p path type maj min : still (make_node p path type maj min).
Proof. unfold make_node, fail_op. still; apply still_create. Qed.
Lemma still_mkdir p : still (sys_mkdir p).
Proof. unfold sys_mkdir, fail_op. still; apply still_make_node. Qed.
Lemma still_mknod p : still (sys_mknod p).
Proof. unfold sys_mknod, fail_op. still; apply still_make_node. Qed.
Lemma still_transfer p k : (∀ f a n, still (k f a n)) → still (arg_transfer p k).
Proof. intros Hk. unfold arg_transfer. still. apply Hk. Qed.
Lemma still_read p : still (sys_read p).
Proof. apply still_transfer. intros f a n. apply still_tab, quiet_read. Qed.
Lemma still_write p : still (sys_write p).
Proof. apply still_transfer. intros f a n. apply still_tab, quiet_write. Qed.
Lemma still_fstat p : still (sys_fstat p).
Proof. unfold sys_fstat. still. apply still_tab, quiet_stat. Qed.
Lemma still_exec_args n p u i argv : still (exec_args n p u i argv).
Proof. revert i argv. induction n as [|n IH]; intros i argv; cbn [exec_args]; [apply still_ret|]. still; apply IH. Qed.
Lemma still_exec p : still (sys_exec p).
Proof.
  unfold sys_exec. still; try apply still_exec_args. intros ex s Hi. unfold wpe. destruct (kc_exec _ _ _ s) as [[r s']|] eqn:E; [|done].
  apply exec_keeps in E as (E1 & E2 & E3 & E4). split; [|done]. eapply dinv_same; try done. intros i.
  by rewrite (states_eq s s' i E2).
Qed.
Lemma still_chdir p : still (sys_chdir p).
Proof. unfold sys_chdir, fail_op. still. apply still_tab, quiet_deref. Qed.

(** *** Calls that move descriptors *)

(** A process that can run. *)
Definition live (p : nat) s : Prop := (p < NPROC)%nat ∧ ¬ no_process (state (procs s !!! p)).

Lemma live_eq p s s' : states s' = states s → live p s → live p s'.
Proof. intros E [H1 H2]. split; [done|]. by rewrite (states_eq s s' p E). Qed.

Lemma wpt_still {A} (m : P A) ex s (Q : A → pst (ftab W) → Prop) :
  still m → dinv ex s → (∀ a s', dinv ex s' → tables s' = tables s → states s' = states s → Q a s') → wpt m Q s.
Proof. intros Hm Hi HQ. eapply wpe_mono; [by apply Hm| |done]. intros a s' (H1 & H2 & H3). auto. Qed.

(** Entry [p] of the table becomes [q]. *)
Definition put_proc (p : nat) (q : proc) s : pst (ftab W) := set_procs (<[p := q]> (procs s)) s.

Lemma tables_put_proc p q s : tables (put_proc p q s) = <[p := ofile q]> (tables s).
Proof. apply list_fmap_insert. Qed.

Lemma handles_put p q s :
  (p < length (procs s))%nat → held (ofile q) ++ handles s ≡ₚ held (ofile (procs s !!! p)) ++ handles (put_proc p q s).
Proof. intros Hp. unfold handles. rewrite tables_put_proc. by apply handles_insert, table_at. Qed.

Lemma dinv_put ex ex' s p q :
  dinv ex s → (p < NPROC)%nat → length (ofile q) = NOFILE → (no_process (state q) → ofile q = no_files) →
  finv (world s) (ex' ++ handles (put_proc p q s)) → dinv ex' (put_proc p q s).
Proof.
  intros [H1 H2 H3 H4] Hp Hl Hn Hf. split; [cbn; by rewrite length_insert|rewrite tables_put_proc; by apply Forall_insert| |done].
  intros i. cbn. destruct (decide (i = p)) as [->|Hne].
  - rewrite list_lookup_total_insert_eq by lia. done.
  - rewrite list_lookup_total_insert_ne by done. apply H3.
Qed.

Lemma fdalloc_run p f s :
  wpt (fdalloc p f) (λ r s', match r with
    | Some fd => ofile (procs s !!! p) !! fd = Some None ∧ s' = put_proc p (set_fd fd (Some f) (procs s !!! p)) s
    | None => s' = s end) s.
Proof.
  unfold fdalloc. apply wpe_bind, wpe_gets. destruct (free_fd _ 0) as [fd|] eqn:E; [|by apply wpe_ret].
  apply free_fd_Some in E as [_ E]. rewrite Nat.sub_0_r in E. apply wpe_bind, wpe_modify, wpe_ret. done.
Qed.

(** A descriptor for a pointer the call holds, and one taken back. *)
Lemma dinv_give ex s p fd f :
  dinv (f :: ex) s → live p s → ofile (procs s !!! p) !! fd = Some None → dinv ex (put_proc p (set_fd fd (Some f) (procs s !!! p)) s).
Proof.
  intros Hi [Hp Hs] Hfd. pose proof (handles_put p (set_fd fd (Some f) (procs s !!! p)) s ltac:(rewrite (d_len _ _ Hi); lia)) as Hh.
  cbn in Hh. rewrite (held_put _ _ _ Hfd) in Hh. rewrite <-app_comm_cons, Permutation_middle in Hh. apply Permutation_app_inv_l in Hh.
  eapply dinv_put; [done|done|cbn; by rewrite length_insert, (table_length _ _ _ Hi)|done|]. rewrite <-Hh, <-Permutation_middle.
  apply (d_refs _ _ Hi).
Qed.

Lemma dinv_take ex s p fd f :
  dinv ex s → live p s → ofile (procs s !!! p) !! fd = Some (Some f) → dinv (f :: ex) (put_proc p (set_fd fd None (procs s !!! p)) s).
Proof.
  intros Hi [Hp Hs] Hfd. pose proof (handles_put p (set_fd fd None (procs s !!! p)) s ltac:(rewrite (d_len _ _ Hi); lia)) as Hh.
  cbn in Hh. rewrite (held_drop _ _ _ Hfd), <-app_comm_cons, Permutation_middle in Hh. apply Permutation_app_inv_l in Hh.
  eapply dinv_put; [done|done|cbn; by rewrite length_insert, (table_length _ _ _ Hi)|done|]. cbn [app].
  rewrite Permutation_middle, <-Hh. apply (d_refs _ _ Hi).
Qed.

Lemma wpt_tab {A} (m : M (ftab W) A) ex s (Q : A → ftab W → Prop) :
  dinv ex s → wpt m Q (world s) → wpt (tab m) (λ a s', procs s' = procs s ∧ Q a (world s')) s.
Proof. intros Hi Hm. apply wpe_zoom. eapply wpe_mono; [exact Hm| |done]. done. Qed.

Lemma dinv_world ex ex' s s' : dinv ex s → procs s' = procs s → finv (world s') (ex' ++ handles s) → dinv ex' s'.
Proof. intros [H1 H2 H3 H4] E Hf. split; unfold handles, tables; rewrite E; done. Qed.

Lemma ex_small ex s : dinv ex s → (length ex ≤ 1000)%nat → Z.of_nat (length (ex ++ handles s)) < 2 ^ 31 - 1.
Proof. intros [H1 H2 _ _] He. rewrite length_app. pose proof (handles_small s H1 H2). lia. Qed.

Lemma wpt_tab_alloc ex s :
  dinv ex s → (length ex ≤ 1000)%nat →
  wpt (tab (filealloc me)) (λ r s', procs s' = procs s ∧ match r with Some f => dinv (f :: ex) s' | None => dinv ex s' end) s.
Proof.
  intros Hi He. eapply wpe_mono; [eapply wpt_tab; [done|apply wpt_alloc; [apply Hi|by apply ex_small]]| |done].
  cbn. intros [f|] s' [E Hf]; (split; [done|]); by eapply dinv_world.
Qed.

Lemma wpt_tab_close ex s f :
  dinv (f :: ex) s → wpt (tab (fileclose me f)) (λ _ s', procs s' = procs s ∧ dinv ex s') s.
Proof.
  intros Hi. eapply wpe_mono; [eapply wpt_tab; [done|apply (wpt_close me _ (ex ++ handles s)), Hi]| |done].
  cbn. intros _ s' [E Hf]. split; [done|]. by eapply dinv_world.
Qed.

(** What a call run by a live process preserves. *)
Definition keeps (p : nat) {A} (m : P A) : Prop := ∀ s, dinv [] s → live p s → wpt m (λ _ s', dinv [] s') s.

Lemma keeps_still p {A} (m : P A) : still m → keeps p m.
Proof. intros Hm s Hi _. eapply wpt_still; done. Qed.

Lemma argfd_run p n s : dinv [] s →
  wpt (argfd p n) (λ r s', s' = s ∧ match r with Some (fd, f) => ofile (procs s !!! p) !! fd = Some (Some f) | None => True end) s.
Proof.
  intros Hi. unfold argfd. apply wpe_bind. unfold wpe at 1. destruct (kc_argint p n s) as [[r s']|] eqn:E; [|done].
  apply argint_pure in E as ->. destruct r as [fd|]; [|done]. apply wpe_bind, wpe_gets. destruct (_ || _) eqn:Eb; [done|].
  apply orb_false_iff in Eb as [E1 E2]. apply Z.ltb_ge in E1. apply Z.leb_gt in E2.
  destruct (ofile (procs s !!! p) !!! Z.to_nat fd) as [f|] eqn:Ef; [|done]. apply wpe_ret. split; [done|].
  rewrite <-Ef. apply list_lookup_lookup_total_lt. rewrite (table_length _ _ _ Hi). lia.
Qed.

Lemma keeps_close p : keeps p (sys_close me p).
Proof.
  intros s Hi Hp. unfold sys_close. apply wpe_bind. eapply wpe_mono; [by apply argfd_run| |done].
  intros [[fd f]|] s' [-> Hfd]; [|done]. apply wpe_bind, wpe_modify, wpe_bind.
  eapply wpe_mono; [apply (wpt_tab_close [] _ f), (dinv_take [] s p fd f); done| |done]. cbn. by intros _ s' [_ Hi'].
Qed.

Lemma keeps_dup p : keeps p (sys_dup me p).
Proof.
  intros s Hi Hp. unfold sys_dup. apply wpe_bind. eapply wpe_mono; [by apply argfd_run| |done].
  intros [[fd f]|] s' [-> Hfd]; [|done]. apply wpe_bind. eapply wpe_mono; [apply fdalloc_run| |done].
  cbn. intros [fd'|] s' H; [|by subst]. destruct H as [Hn ->]. apply wpe_bind.
  assert (f ∈ handles s) as Hf.
  { destruct Hp as [Hp _]. eapply handles_elem; [apply table_at; rewrite (d_len _ _ Hi); exact Hp|by eapply held_elem]. }
  pose proof (ex_small [] s Hi ltac:(cbn; lia)) as Hs.
  pose proof (wpt_dup me (world s) (handles s) f (d_refs _ _ Hi) Hf Hs) as Hd.
  unfold wpe in *. cbn. unfold tab, env, zoom. cbn. destruct (filedup me f (world s)) as [[r w]|]; [|done]. cbn. destruct Hd as [_ Hd].
  set (s1 := mk_pst (pt_lock s) (procs s) (initproc s) (nextpid s) w).
  apply (dinv_give [] s1 p fd' f); [|done|done]. by eapply (dinv_world [] [f] s).
Qed.

Lemma wpt_bind_still {A B} (m : P A) (f : A → P B) ex s Q :
  still m → dinv ex s → (∀ a s', dinv ex s' → tables s' = tables s → states s' = states s → wpt (f a) Q s') → wpt (bind m f) Q s.
Proof. intros Hm Hi HQ. apply wpe_bind. by eapply wpt_still. Qed.

Lemma wpt_then_still {A B} (m : P A) (f : A → P B) s (Q : A → pst (ftab W) → Prop) :
  wpt m Q s → (∀ a s', Q a s' → dinv [] s') → (∀ a, still (f a)) → wpt (bind m f) (λ _ s', dinv [] s') s.
Proof.
  intros Hm HQ Hf. apply wpe_bind. eapply wpe_mono; [exact Hm| |done]. intros a s' H. eapply wpt_still; [apply Hf|by eapply HQ|done].
Qed.

Lemma states_put p fd v s : states (put_proc p (set_fd fd v (procs s !!! p)) s) = states s.
Proof. by apply (fmap_insert_same state (set_fd fd v)). Qed.

Lemma keeps_open p : keeps p (sys_open me p).
Proof.
  intros s Hi Hp. unfold sys_open. eapply wpt_bind_still; [apply still_argstr|done|]. intros [path|] s1 H1 _ E1; [|done].
  eapply wpt_bind_still; [apply still_argint|done|]. intros [omode|] s2 H2 _ E2; [|done].
  eapply wpt_bind_still; [apply still_below|done|]. intros _ s3 H3 _ E3.
  eapply wpt_bind_still; [apply still_open_inode|done|]. intros [ip|] s4 H4 _ E4; [|by eapply wpt_still; [apply still_fail_op| |]].
  assert (live p s4) as Hp4 by (eapply live_eq; [|exact Hp]; congruence).
  assert (still (open_fail ip)) as Hof by (unfold open_fail, fail_op; still).
  apply wpe_bind. eapply wpe_mono; [apply (wpt_tab_alloc [] s4); [done|cbn; lia]| |done].
  intros [f|] s5 [E5 H5]; [|by eapply wpt_still].
  assert (live p s5) as Hp5 by (unfold live; by rewrite E5).
  apply wpe_bind. eapply wpe_mono; [apply fdalloc_run| |done]. intros [fd|] s6 H6.
  - destruct H6 as [Hfd ->]. pose proof (dinv_give [] s5 p fd f H5 Hp5 Hfd) as H6. eapply wpt_still; [|exact H6|done].
    still. by apply still_tab, quiet_updf.
  - subst s6. eapply wpt_then_still; [by apply (wpt_tab_close [] s5 f)|by intros _ s6 [_ ?]|done].
Qed.

Lemma dinv_perm ex ex' s : ex ≡ₚ ex' → dinv ex s → dinv ex' s.
Proof. intros E [H1 H2 H3 H4]. split; [done..|]. by rewrite <-E. Qed.

Lemma still_updf f g : (∀ x, f_ref (g x) = f_ref x) → still (tab (updf f g)).
Proof. intros Hg. by apply still_tab, quiet_updf. Qed.

Lemma pipealloc_run s : dinv [] s →
  wpt (pipealloc me) (λ r s', states s' = states s ∧ match r with Some (rf, wf) => dinv [rf; wf] s' | None => dinv [] s' end) s.
Proof.
  intros Hi. assert (∀ s s', procs s' = procs s → states s' = states s) as Hst by (intros ??; unfold states; by intros ->).
  unfold pipealloc. apply wpe_bind. eapply wpe_mono; [apply (wpt_tab_alloc [] s); [done|cbn; lia]| |done].
  intros [f0|] s1 [E1 H1]; [|split; [by apply Hst|done]].
  apply wpe_bind. eapply wpe_mono; [apply (wpt_tab_alloc [f0] s1); [done|cbn; lia]| |done]. intros [f1|] s2 [E2 H2].
  - assert (dinv [f0; f1] s2) as H2' by (eapply dinv_perm; [apply Permutation_swap|done]).
    eapply wpt_bind_still; [apply still_below|exact H2'|]. intros [pi|] s3 H3 _ E3.
    + eapply wpt_bind_still; [apply still_below|exact H3|]. intros _ s4 H4 _ E4.
      eapply wpt_bind_still; [by apply still_updf|exact H4|]. intros _ s5 H5 _ E5.
      eapply wpt_bind_still; [by apply still_updf|exact H5|]. intros _ s6 H6 _ E6. apply wpe_ret.
      split; [|done]. rewrite E6, E5, E4, E3, (Hst _ _ E2). by apply Hst.
    + apply wpe_bind. eapply wpe_mono; [apply (wpt_tab_close [f1] s3 f0 H3)| |done]. intros _ s4 [E4 H4].
      apply wpe_bind. eapply wpe_mono; [apply (wpt_tab_close [] s4 f1 H4)| |done]. intros _ s5 [E5 H5]. apply wpe_ret.
      split; [|done]. rewrite (Hst _ _ E5), (Hst _ _ E4), E3, (Hst _ _ E2). by apply Hst.
  - apply wpe_bind. eapply wpe_mono; [apply (wpt_tab_close [] s2 f0 H2)| |done]. intros _ s3 [E3 H3]. apply wpe_ret.
    split; [|done]. rewrite (Hst _ _ E3), (Hst _ _ E2). by apply Hst.
Qed.

Lemma keeps_pipe p : keeps p (sys_pipe me p).
Proof.
  intros s Hi Hp. unfold sys_pipe. eapply wpt_bind_still; [apply still_argptr|done|]. intros [a|] s1 H1 _ E1; [|done].
  apply wpe_bind. eapply wpe_mono; [by apply pipealloc_run| |done]. intros [[rf wf]|] s2 [E2 H2]; [|done].
  assert (live p s2) as Hp2 by (eapply live_eq; [|exact Hp]; congruence).
  apply wpe_bind. eapply wpe_mono; [apply fdalloc_run| |done]. intros [fd0|] s3 H3.
  2: { subst s3. apply wpe_bind. eapply wpe_mono; [apply (wpt_tab_close [wf] s2 rf H2)| |done]. intros _ s4 [_ H4].
       eapply wpt_then_still; [by apply (wpt_tab_close [] s4 wf)|by intros _ s5 [_ ?]|intros; apply still_ret]. }
  destruct H3 as [Hfd0 ->]. pose proof (dinv_give [wf] s2 p fd0 rf H2 Hp2 Hfd0) as H3.
  set (s3 := put_proc p (set_fd fd0 (Some rf) (procs s2 !!! p)) s2) in *.
  assert (live p s3) as Hp3 by (eapply live_eq; [apply states_put|exact Hp2]).
  apply wpe_bind. eapply wpe_mono; [apply fdalloc_run| |done]. intros [fd1|] s4 H4.
  - destruct H4 as [Hfd1 ->]. eapply wpt_still; [|exact (dinv_give [] s3 p fd1 wf H3 Hp3 Hfd1)|done]. still.
  - subst s4. apply wpe_bind, wpe_modify. change (set_procs _ s3) with (put_proc p (set_fd fd0 None (procs s3 !!! p)) s3).
    assert (ofile (procs s3 !!! p) !! fd0 = Some (Some rf)) as Hq.
    { cbn. rewrite list_lookup_total_insert_eq by (rewrite (d_len _ _ H2); apply Hp2). cbn.
      apply list_lookup_insert_eq. by eapply lookup_lt_Some. }
    apply wpe_bind. eapply wpe_mono; [apply (wpt_tab_close [wf] _ rf), (dinv_take [wf] s3 p fd0 rf H3 Hp3 Hq)| |done]. intros _ s4 [_ H4].
    eapply wpt_then_still; [by apply (wpt_tab_close [] s4 wf)|by intros _ s5 [_ ?]|intros; apply still_ret].
Qed.

(** *** fork, exit and wait *)

(** Calls that may change states too, but end no process. *)
Definition calm {A} (m : P A) : Prop :=
  ∀ ex s, dinv ex s → wpt m (λ _ s', dinv ex s' ∧ tables s' = tables s ∧
    ∀ i, no_process (state (procs s' !!! i)) → no_process (state (procs s !!! i))) s.

Lemma calm_still {A} (m : P A) : still m → calm m.
Proof. intros Hm ex s Hi. eapply wpt_still; [done..|]. intros a s' H1 H2 H3. split_and!; [done..|]. intros i. by rewrite (states_eq s s' i H3). Qed.
Lemma calm_bind {A B} (m : P A) (f : A → P B) : calm m → (∀ a, calm (f a)) → calm (bind m f).
Proof.
  intros Hm Hf ex s Hi. apply wpe_bind. eapply wpe_mono; [by apply Hm| |done]. intros a s' (Hi' & E1 & E2).
  eapply wpe_mono; [by apply Hf| |done]. cbn. intros b s'' (Hi'' & F1 & F2). split; [done|]. split; [congruence|]. eauto.
Qed.

Lemma calm_procs ex s l :
  dinv ex s → length l = length (procs s) → (∀ i, ofile (l !!! i) = ofile (procs s !!! i)) →
  (∀ i, no_process (state (l !!! i)) → no_process (state (procs s !!! i))) →
  dinv ex (set_procs l s) ∧ tables (set_procs l s) = tables s.
Proof.
  intros Hi Hl Ho Hs. assert (tables (set_procs l s) = tables s) as E; [|split; [by eapply dinv_same|done]].
  unfold tables. cbn. apply list_eq. intros i. rewrite !list_lookup_fmap. specialize (Ho i). rewrite !list_lookup_total_alt in Ho.
  destruct (l !! i) as [q|] eqn:E1, (procs s !! i) as [q'|] eqn:E2; cbn in *; [by rewrite Ho| | |done].
  - apply lookup_lt_Some in E1. apply lookup_ge_None in E2. lia.
  - apply lookup_ge_None in E1. apply lookup_lt_Some in E2. lia.
Qed.

Lemma calm_upd p g : (∀ q, ofile (g q) = ofile q) → (∀ q, no_process (state (g q)) → no_process (state q)) → calm (upd p g).
Proof.
  intros Ho Hs ex s Hi. apply wpe_modify.
  assert (∀ i, ∃ q, <[p := g (procs s !!! p)]> (procs s) !!! i = q ∧ (q = procs s !!! i ∨ q = g (procs s !!! i))) as H.
  { intros i. eexists. split; [done|]. destruct (decide (i = p)) as [->|]; [|left; by apply list_lookup_total_insert_ne].
    destruct (decide (p < length (procs s))%nat); [right; by apply list_lookup_total_insert_eq|left; by rewrite list_insert_ge by lia]. }
  destruct (calm_procs ex s (<[p := g (procs s !!! p)]> (procs s)) Hi) as [H1 H2].
  - by rewrite length_insert.
  - intros i. destruct (H i) as (q & -> & [->| ->]); auto.
  - intros i. destruct (H i) as (q & -> & [->| ->]); auto.
  - split_and!; [done..|]. intros i. cbn. destruct (H i) as (q & -> & [->| ->]); auto.
Qed.

Lemma calm_wakeup1 ch : calm (wakeup1 ch).
Proof.
  intros ex s Hi. apply wpe_modify.
  assert (∀ q, ofile (wake_if ch q) = ofile q ∧ (no_process (state (wake_if ch q)) → no_process (state q))) as Hw.
  { intros q. unfold wake_if. destruct (_ && _); [|done]. split; [done|]. by intros [|]. }
  assert (∀ i, (wake_if ch <$> procs s) !!! i = wake_if ch (procs s !!! i)) as E.
  { intros i. rewrite !list_lookup_total_alt, list_lookup_fmap. by destruct (procs s !! i). }
  destruct (calm_procs ex s (wake_if ch <$> procs s) Hi) as [H1 H2].
  - by rewrite length_fmap.
  - intros i. rewrite E. apply Hw.
  - intros i. rewrite E. apply Hw.
  - split_and!; [done..|]. intros i. cbn. rewrite E. apply Hw.
Qed.

Lemma calm_state p x : ¬ no_process x → calm (upd p (set_state x)).
Proof. intros Hx. by apply calm_upd. Qed.

Lemma calm_when b m : calm m → calm (when b m).
Proof. destruct b; [done|]. intros _. apply calm_still, still_ret. Qed.

Ltac calm := repeat first
  [ apply calm_wakeup1 | apply calm_state; (by intros [|]) | solve [apply calm_still; still] | apply calm_when
  | apply calm_bind; [|intros ?] | match goal with |- calm (match ?x with _ => _ end) => destruct x end ].

Lemma calm_reparent n i p : calm (reparent n i p).
Proof.
  revert i. induction n as [|n IH]; intros i; cbn [reparent]; [apply calm_still, still_ret|]. calm. apply IH.
Qed.

Lemma still_env_io {A} (m : M W A) : still (env (io m)).
Proof. apply still_below. Qed.

Lemma wpt_bind_calm {A B} (m : P A) (f : A → P B) ex s Q :
  calm m → dinv ex s →
  (∀ a s', dinv ex s' → tables s' = tables s → (∀ i, no_process (state (procs s' !!! i)) → no_process (state (procs s !!! i))) →
     wpt (f a) Q s') → wpt (bind m f) Q s.
Proof. intros Hm Hi HQ. apply wpe_bind. eapply wpe_mono; [by apply Hm| |done]. intros a s' (H1 & H2 & H3). auto. Qed.

(** The state of a process without descriptors may become anything. *)
Lemma wpt_state ex s p x :
  dinv ex s → ofile (procs s !!! p) = no_files → wpt (upd p (set_state x)) (λ _ s', dinv ex s' ∧ tables s' = tables s) s.
Proof.
  intros Hi Ho. apply wpe_modify. assert (tables (set_procs (<[p := set_state x (procs s !!! p)]> (procs s)) s) = tables s) as E
    by (by apply fmap_insert_same).
  split; [|done]. destruct Hi as [H1 H2 H3 H4]. split; [cbn; by rewrite length_insert|by rewrite E| |by unfold handles; rewrite E].
  intros i. cbn. destruct (decide (i = p)) as [->|]; [|by rewrite list_lookup_total_insert_ne by done; apply H3].
  destruct (decide (p < length (procs s))%nat); [by rewrite list_lookup_total_insert_eq|by rewrite list_insert_ge by lia; apply H3].
Qed.

Lemma ofile_eq s s' i : tables s' = tables s → ofile (procs s' !!! i) = ofile (procs s !!! i).
Proof.
  intros E. unfold tables in E. assert ((ofile <$> procs s') !! i = (ofile <$> procs s) !! i) as H by (by rewrite E).
  rewrite !list_lookup_fmap in H. rewrite !list_lookup_total_alt. destruct (procs s' !! i), (procs s !! i); cbn in *; congruence.
Qed.

(** The slot [allocproc] takes. *)
Definition new_slot (s : pst (ftab W)) (np : nat) (s' : pst (ftab W)) : Prop :=
  (np < NPROC)%nat ∧ no_process (state (procs s !!! np)) ∧ state (procs s' !!! np) = EMBRYO ∧ tables s' = tables s ∧
  ∀ i, i ≠ np → state (procs s' !!! i) = state (procs s !!! i).

Lemma slot_taken s : dinv [] s →
  wpt (allocproc_slot me) (λ r s', dinv [] s' ∧ match r with Some np => new_slot s np s' | None => True end) s.
Proof.
  intros Hi. unfold allocproc_slot. eapply wpt_bind_still; [apply still_lock|done|]. intros _ s1 H1 T1 E1.
  apply wpe_bind, wpe_gets. destruct (scan is_unused (procs s1) 0) as [np|] eqn:Es.
  2: { eapply wpt_bind_still; [apply still_lock|exact H1|]. intros _ s2 H2 _ _. by apply wpe_ret. }
  apply scan_Some in Es as [Hnp Hu]. rewrite Nat.sub_0_r, (d_len _ _ H1) in *. apply bool_decide_eq_true in Hu.
  assert (state (procs s !!! np) = UNUSED) as Hu' by (by rewrite <-(states_eq s s1 np E1)).
  assert (¬ no_process EMBRYO) as Hx by (by intros [|]).
  destruct (calm_state np EMBRYO Hx [] s1 H1) as (H2 & T2 & _).
  apply wpe_bind, wpe_modify. set (s2 := set_procs _ s1) in *. apply wpe_bind, wpe_gets.
  eapply wpt_bind_still; [by apply still_upd|exact H2|]. intros _ s3 H3 T3 E3.
  eapply wpt_bind_still; [apply still_nextpid|exact H3|]. intros _ s4 H4 T4 E4.
  eapply wpt_bind_still; [apply still_lock|exact H4|]. intros _ s5 H5 T5 E5. apply wpe_ret. split; [done|].
  assert (∀ i, state (procs s5 !!! i) = state (procs s2 !!! i)) as Hs by (intros i; by apply states_eq; congruence).
  split; [lia|]. split; [by left|]. split; [|split; [congruence|]].
  - rewrite Hs. cbn. by rewrite list_lookup_total_insert_eq by (rewrite (d_len _ _ H1); lia).
  - intros i Hne. rewrite Hs. cbn. rewrite list_lookup_total_insert_ne by done. by apply states_eq.
Qed.

Lemma stack_made fa ta np s :
  dinv [] s → ofile (procs s !!! np) = no_files →
  wpt (allocproc_stack fa ta np) (λ r s', dinv [] s' ∧ tables s' = tables s ∧
    match r with Some x => x = np ∧ states s' = states s | None => True end) s.
Proof.
  intros Hi Ho. unfold allocproc_stack. eapply wpt_bind_still; [apply still_env_io|done|]. intros k s1 H1 T1 E1.
  eapply wpt_bind_still; [by apply still_upd|exact H1|]. intros _ s2 H2 T2 E2. destruct (k =? 0).
  - apply wpe_bind. eapply wpe_mono; [apply (wpt_state [] s2); [done|]| |done].
    + rewrite (ofile_eq s s2) by congruence. done.
    + intros _ s3 [H3 T3]. apply wpe_ret. split; [done|]. split; [congruence|done].
  - eapply wpt_bind_still; [by apply still_upd|exact H2|]. intros _ s3 H3 T3 E3.
    eapply wpt_bind_still; [apply still_env_io|exact H3|]. intros _ s4 H4 T4 E4.
    eapply wpt_bind_still; [by apply still_upd|exact H4|]. intros _ s5 H5 T5 E5.
    eapply wpt_bind_still; [by apply still_upd|exact H5|]. intros _ s6 H6 T6 E6. apply wpe_ret. split_and!; congruence || done.
Qed.

(** [p]'s descriptors from [i] on are copied to the free ones of [np]. *)
Lemma files_inherited n i p np s :
  dinv [] s → live p s → live np s → p ≠ np → (n + i = NOFILE)%nat →
  (∀ k, (i ≤ k < NOFILE)%nat → ofile (procs s !!! np) !! k = Some None) →
  wpt (fork_files n i p np) (λ _ s', dinv [] s' ∧ states s' = states s) s.
Proof.
  revert i s. induction n as [|n IH]; intros i s Hi Hp Hnp Hne Hn Hk; cbn [fork_files]; [done|].
  apply wpe_bind, wpe_gets. destruct (ofile (procs s !!! p) !!! i) as [f|] eqn:Ef.
  2: { apply wpe_bind, wpe_ret. apply IH; try done; [lia|]. intros k Hk'. apply Hk. lia. }
  apply wpe_bind, wpe_bind. assert (f ∈ handles s) as Hf.
  { eapply handles_elem; [apply table_at; rewrite (d_len _ _ Hi); apply Hp|]. eapply (held_elem _ i). rewrite <-Ef.
    apply list_lookup_lookup_total_lt. rewrite (table_length _ _ _ Hi). lia. }
  pose proof (wpt_dup me (world s) (handles s) f (d_refs _ _ Hi) Hf (ex_small [] s Hi ltac:(cbn; lia))) as Hd.
  eapply wpe_mono; [exact (wpt_tab (filedup me f) [] s _ Hi Hd)| |done]. clear Hd. cbn beta. intros f' s1 (E1 & -> & Hd). apply wpe_modify.
  change (set_procs _ s1) with (put_proc np (set_fd i (Some f) (procs s1 !!! np)) s1).
  assert (dinv [f] s1) as H1 by (by eapply (dinv_world [] [f] s)).
  assert (live np s1) as Hnp1 by (unfold live; by rewrite E1).
  assert (ofile (procs s1 !!! np) !! i = Some None) as Ho by (rewrite E1; apply Hk; lia).
  pose proof (dinv_give [] s1 np i f H1 Hnp1 Ho) as H2. set (s2 := put_proc np _ s1) in *.
  assert (states s2 = states s) as E2 by (unfold s2; rewrite states_put; unfold states; by rewrite E1).
  eapply wpe_mono; [apply (IH (S i) s2)| |done]; try done; try (by eapply live_eq); [lia| |].
  - intros k Hk'. cbn. rewrite list_lookup_total_insert_eq by (rewrite (d_len _ _ H1); apply Hnp). cbn.
    rewrite list_lookup_insert_ne by lia. rewrite E1. apply Hk. lia.
  - cbn beta. intros _ s3 [H3 E3]. split; [done|congruence].
Qed.

Lemma wpt_calm {A} (m : P A) ex s : calm m → dinv ex s → wpt m (λ _ s', dinv ex s') s.
Proof. intros Hm Hi. eapply wpe_mono; [by apply Hm| |done]. by intros a s' [? _]. Qed.

Lemma child_made p np s :
  dinv [] s → live p s → live np s → p ≠ np → ofile (procs s !!! np) = no_files →
  wpt (fork_rest me p np) (λ _ s', dinv [] s') s.
Proof.
  intros Hi Hp Hnp Hne Ho. unfold fork_rest. apply wpe_bind, wpe_gets.
  eapply wpt_bind_still; [apply still_env_io|done|]. intros d s1 H1 T1 E1.
  eapply wpt_bind_still; [by apply still_upd|exact H1|]. intros _ s2 H2 T2 E2. destruct (d =? 0).
  { eapply wpt_bind_still; [apply still_proc_at|exact H2|]. intros q s3 H3 T3 E3.
    eapply wpt_bind_still; [apply still_env_io|exact H3|]. intros _ s4 H4 T4 E4.
    eapply wpt_bind_still; [by apply still_upd|exact H4|]. intros _ s5 H5 T5 E5.
    eapply wpt_then_still; [apply (wpt_state [] s5 np UNUSED H5)|by intros _ s6 [? _]|intros; apply still_ret].
    rewrite (ofile_eq s s5) by congruence. done. }
  eapply wpt_bind_still; [by apply still_upd|exact H2|]. intros _ s3 H3 T3 E3.
  eapply wpt_bind_still; [by apply still_upd|exact H3|]. intros _ s4 H4 T4 E4.
  eapply wpt_bind_still; [by apply still_upd|exact H4|]. intros _ s5 H5 T5 E5.
  eapply wpt_bind_still; [by apply still_upd|exact H5|]. intros _ s6 H6 T6 E6.
  assert (states s6 = states s) as Es by congruence. assert (tables s6 = tables s) as Et by congruence.
  apply wpe_bind. eapply wpe_mono; [apply (files_inherited NOFILE 0 p np s6); try done; try (by eapply live_eq)| |done].
  - intros k Hk. rewrite (ofile_eq s s6 np Et), Ho. apply lookup_replicate. split; [done|lia].
  - intros _ s7 [H7 E7]. apply wpt_calm; [calm|done].
Qed.

Lemma keeps_fork fa ta p : keeps p (fork me fa ta p).
Proof.
  intros s Hi Hp. unfold fork, allocproc. apply wpe_bind, wpe_bind. eapply wpe_mono; [by apply slot_taken| |done].
  intros [np|] s1 [H1 Hs]; [|done]. destruct Hs as (Hlt & Hu & Hem & T1 & Hst).
  assert (p ≠ np) as Hne by (intros ->; by apply Hp). assert (ofile (procs s1 !!! np) = no_files) as Ho.
  { rewrite (ofile_eq s s1 np T1). by apply (d_none _ _ Hi). }
  eapply wpe_mono; [by apply stack_made| |done]. intros [x|] s2 (H2 & T2 & Hx); [|done]. destruct Hx as [-> E2].
  apply child_made; try done.
  - destruct Hp as [Hp Hn]. split; [done|]. rewrite (states_eq s1 s2 p E2), Hst by done. done.
  - split; [done|]. rewrite (states_eq s1 s2 np E2), Hem. by intros [|].
  - by rewrite (ofile_eq s1 s2 np T2).
Qed.

(** *** exit and wait *)

Lemma exit_files_run n fd p s :
  dinv [] s → live p s → (n + fd = NOFILE)%nat → (∀ k, (k < fd)%nat → ofile (procs s !!! p) !! k = Some None) →
  wpt (exit_files n fd p) (λ _ s', dinv [] s' ∧ states s' = states s ∧ ofile (procs s' !!! p) = no_files) s.
Proof.
  revert fd s. induction n as [|n IH]; intros fd s Hi Hp Hn Hk; cbn [exit_files].
  { apply wpe_ret. split; [done|]. split; [done|]. apply list_eq. intros k. unfold no_files.
    destruct (decide (k < NOFILE)%nat); [rewrite Hk by lia; symmetry; by apply lookup_replicate|].
    rewrite !lookup_ge_None_2; [done|rewrite length_replicate; lia|rewrite (table_length _ _ _ Hi); lia]. }
  apply wpe_bind, wpe_gets. destruct (ofile (procs s !!! p) !!! fd) as [f|] eqn:Ef.
  2: { apply wpe_bind, wpe_ret. apply IH; try done; [lia|]. intros k Hk'. destruct (decide (k = fd)) as [->|]; [|apply Hk; lia].
       rewrite <-Ef. apply list_lookup_lookup_total_lt. rewrite (table_length _ _ _ Hi). lia. }
  assert (ofile (procs s !!! p) !! fd = Some (Some f)) as Hfd.
  { rewrite <-Ef. apply list_lookup_lookup_total_lt. rewrite (table_length _ _ _ Hi). lia. }
  pose proof (dinv_take [] s p fd f Hi Hp Hfd) as Ht. set (q := set_fd fd None (procs s !!! p)) in *.
  apply wpe_bind, wpe_bind. pose proof (wpt_close me (world s) (handles (put_proc p q s)) f (d_refs _ _ Ht)) as Hd.
  eapply wpe_mono; [exact (wpt_tab (fileclose me f) [] s _ Hi Hd)| |done]. clear Hd. cbn beta. intros _ s1 (E1 & Hd). apply wpe_modify.
  assert (set_procs (<[p := set_ofile (<[fd := None]> (ofile (procs s1 !!! p))) (procs s1 !!! p)]> (procs s1)) s1 = put_proc p q s1) as ->
    by (unfold put_proc, q, set_fd; by rewrite E1).
  assert (dinv [] (put_proc p q s1)) as H2.
  { eapply (dinv_world [f] [] (put_proc p q s)); [done|cbn; by rewrite E1|done]. }
  assert (states (put_proc p q s1) = states s) as E2 by (unfold states; cbn; rewrite E1; apply (states_put p fd None s)).
  assert (ofile (procs (put_proc p q s1) !!! p) = <[fd := None]> (ofile (procs s !!! p))) as Eo.
  { cbn. rewrite E1. rewrite list_lookup_total_insert_eq by (rewrite (d_len _ _ Hi); apply Hp). done. }
  eapply wpe_mono; [apply (IH (S fd) (put_proc p q s1)); try done; [by eapply live_eq|lia|]| |done].
  - intros k Hk'. rewrite Eo. destruct (decide (k = fd)) as [->|]; [apply list_lookup_insert_eq; by eapply lookup_lt_Some|].
    rewrite list_lookup_insert_ne by done. apply Hk. lia.
  - cbn beta. intros _ s3 (H3 & E3 & O3). split; [done|]. split; [congruence|done].
Qed.

Lemma calm_sched c p : calm (sched me c p).
Proof. unfold sched, panic. calm. Qed.

Lemma keeps_exit c p : keeps p (exit me c p).
Proof.
  intros s Hi Hp. unfold exit, panic. apply wpe_bind, wpe_gets. destruct (bool_decide _); [done|].
  apply wpe_bind. eapply wpe_mono; [apply (exit_files_run NOFILE 0 p s); try done; intros k Hk; lia| |done].
  intros _ s1 (H1 & E1 & O1). eapply wpt_bind_still; [apply still_env_io|done|]. intros _ s2 H2 T2 E2.
  eapply wpt_bind_still; [apply still_proc_at|done|]. intros q s3 H3 T3 E3.
  eapply wpt_bind_still; [destruct (cwd q); [apply still_env_io|apply still_fail]|done|]. intros _ s4 H4 T4 E4.
  eapply wpt_bind_still; [apply still_env_io|done|]. intros _ s5 H5 T5 E5.
  eapply wpt_bind_still; [by apply still_upd|done|]. intros _ s6 H6 T6 E6. unfold exit_table.
  eapply wpt_bind_still; [apply still_lock|done|]. intros _ s7 H7 T7 E7.
  eapply wpt_bind_still; [apply still_proc_at|done|]. intros q' s8 H8 T8 E8.
  eapply wpt_bind_calm; [apply calm_wakeup1|done|]. intros _ s9 H9 T9 _.
  eapply wpt_bind_calm; [apply calm_reparent|done|]. intros _ s10 H10 T10 _.
  apply wpe_bind. eapply wpe_mono; [apply (wpt_state [] s10 p ZOMBIE H10)| |done].
  - rewrite (ofile_eq s1 s10) by congruence. done.
  - intros _ s11 [H11 _]. eapply wpe_mono; [by apply calm_sched| |done]. by intros _ s12 [? _].
Qed.

Lemma wait_round_keeps c p s : dinv [] s → wpt (wait_round me c p) (λ _ s', dinv [] s') s.
Proof.
  intros Hi. unfold wait_round. apply wpe_bind, wpe_gets. destruct (scan _ (procs s) 0) as [z|] eqn:Es.
  - apply scan_Some in Es as [Hz Hf]. rewrite Nat.sub_0_r in Hf. apply andb_true_iff in Hf as [_ Hf]. apply bool_decide_eq_true in Hf.
    assert (ofile (procs s !!! z) = no_files) as Ho by (apply (d_none _ _ Hi); by right).
    apply wpe_bind. unfold reap. apply wpe_bind, wpe_gets.
    eapply wpt_bind_still; [apply still_env_io|done|]. intros _ s1 H1 T1 _.
    eapply wpt_bind_still; [by apply still_upd|done|]. intros _ s2 H2 T2 _.
    eapply wpt_bind_still; [apply still_env_io|done|]. intros _ s3 H3 T3 _.
    eapply wpt_bind_still; [by apply still_upd|done|]. intros _ s4 H4 T4 _.
    eapply wpt_bind_still; [by apply still_upd|done|]. intros _ s5 H5 T5 _.
    eapply wpt_bind_still; [by apply still_upd|done|]. intros _ s6 H6 T6 _.
    eapply wpt_bind_still; [by apply still_upd|done|]. intros _ s7 H7 T7 _.
    apply wpe_bind. eapply wpe_mono; [apply (wpt_state [] s7 z UNUSED H7); rewrite (ofile_eq s s7) by congruence; done| |done].
    intros _ s8 [H8 _]. apply wpe_ret. eapply wpt_still; [still|exact H8|done].
  - apply wpe_bind, wpe_gets, wpt_calm; [|done]. unfold sleep_ptable_enter. calm.
Qed.

Lemma userinit_keeps fa ta s : dinv [] s → wpt (userinit me fa ta) (λ _ s', dinv [] s') s.
Proof.
  intros Hi. unfold userinit, allocproc, panic. apply wpe_bind, wpe_bind. eapply wpe_mono; [by apply slot_taken| |done].
  intros [np|] s1 [H1 Hs].
  2: { apply wpe_ret, wpe_bind, wpe_modify. done. }
  destruct Hs as (Hlt & Hu & Hem & T1 & Hst).
  eapply wpe_mono; [apply stack_made; [done|rewrite (ofile_eq s s1 np T1); by apply (d_none _ _ Hi)]| |done].
  intros [x|] s2 (H2 & T2 & _).
  2: { apply wpe_bind, wpe_modify. done. }
  apply wpe_bind, wpe_modify. apply wpt_calm; [calm|]. destruct H2. by split.
Qed.

(** *** Runs of the kernel, call after call *)

Inductive fcall :=
  | FDup | FRead | FWrite | FClose | FFstat | FLink | FUnlink | FOpen | FMkdir | FMknod | FChdir | FExec | FPipe
  | FFork | FExit | FWait | FRewait | FKill (pid : Z) | FYield | FSleep (ch : chan) (lk : Z) | FWakeup (ch : option chan).

Definition run_call (fa ta : Z) (c : cpu) (p : nat) (x : fcall) : P unit :=
  match x with
  | FDup => sys_dup me p;; ret tt | FRead => sys_read p;; ret tt | FWrite => sys_write p;; ret tt
  | FClose => sys_close me p;; ret tt | FFstat => sys_fstat p;; ret tt | FLink => sys_link p;; ret tt
  | FUnlink => sys_unlink p;; ret tt | FOpen => sys_open me p;; ret tt | FMkdir => sys_mkdir p;; ret tt
  | FMknod => sys_mknod p;; ret tt | FChdir => sys_chdir p;; ret tt | FExec => sys_exec p;; ret tt
  | FPipe => sys_pipe me p;; ret tt | FFork => fork me fa ta p;; ret tt | FExit => exit me c p
  | FWait => wait_enter me c p;; ret tt | FRewait => wait_leave me c p;; ret tt | FKill pid => kill me pid;; ret tt
  | FYield => yield_enter me c p | FSleep ch lk => sleep_enter me c p ch lk | FWakeup ch => wakeup me ch
  end.

(** After [userinit], live processes make calls, and processes are scheduled. *)
Inductive kreach (fa ta : Z) : pst (ftab W) → Prop :=
  | k_boot lk ip n w r s :
      userinit me fa ta (mk_pst lk (replicate NPROC zero_proc) ip n (mk_ftab (initlock "ftable") (replicate NFILE zero_file) w)) = Done (r, s) →
      kreach fa ta s
  | k_call s c p x s' : kreach fa ta s → live p s → run_call fa ta c p x s = Done (tt, s') → kreach fa ta s'
  | k_sched s i b s' : kreach fa ta s → scheduler_try i s = Done (b, s') → kreach fa ta s'
  | k_lock s (m : M spinlock unit) s' : kreach fa ta s → on_ptable_lock m s = Done (tt, s') → kreach fa ta s'.

Lemma dinv_boot lk ip n w :
  dinv [] (mk_pst lk (replicate NPROC zero_proc) ip n (mk_ftab (initlock "ftable") (replicate NFILE zero_file) w)).
Proof.
  assert (∀ i, ofile (replicate NPROC zero_proc !!! i) = no_files) as Ho.
  { intros i. rewrite list_lookup_total_alt. destruct (replicate NPROC zero_proc !! i) as [q|] eqn:E; [|done].
    by apply lookup_replicate in E as [-> _]. }
  split; [by apply length_replicate| |intros i _; apply Ho|exact (finv_boot w)].
  apply Forall_forall. intros l Hl. unfold tables in Hl. apply list_elem_of_fmap in Hl as (q & -> & Hq).
  apply list_elem_of_lookup in Hq as [i Hq]. cbn [procs] in Hq. apply lookup_replicate in Hq as [-> _]. done.
Qed.

Lemma keeps_then_ret {A} p (m : P A) : keeps p m → keeps p (m;; ret tt).
Proof. intros Hm s Hi Hp. apply wpe_bind. eapply wpe_mono; [by apply Hm| |done]. done. Qed.

Lemma keeps_calm {A} p (m : P A) : calm m → keeps p m.
Proof. intros Hm s Hi _. by apply wpt_calm. Qed.

Lemma calm_kill pid : calm (kill me pid).
Proof.
  unfold kill. calm. apply calm_upd; intros q; destruct (bool_decide _); try done. by intros [|].
Qed.

Lemma keeps_call fa ta c p x : keeps p (run_call fa ta c p x).
Proof.
  destruct x; cbn [run_call]; try apply keeps_then_ret.
  all: try (apply keeps_still; first [apply still_read|apply still_write|apply still_fstat|apply still_link|apply still_unlink
    |apply still_mkdir|apply still_mknod|apply still_chdir|apply still_exec]).
  - apply keeps_dup.
  - apply keeps_close.
  - apply keeps_open.
  - apply keeps_pipe.
  - apply keeps_fork.
  - apply keeps_exit.
  - intros s Hi _. unfold wait_enter. eapply wpt_bind_still; [apply still_lock|done|]. intros _ s1 H1 _ _. by apply wait_round_keeps.
  - intros s Hi _. unfold wait_leave. eapply wpt_bind_still; [by apply still_upd|done|]. intros _ s1 H1 _ _. by apply wait_round_keeps.
  - apply keeps_calm, calm_kill.
  - apply keeps_calm. unfold yield_enter. calm. 
  - apply keeps_calm. unfold sleep_enter. calm.
  - apply keeps_calm. unfold wakeup. calm.
Qed.

Lemma kreach_dinv fa ta s : kreach fa ta s → dinv [] s.
Proof.
  induction 1 as [lk ip n w r s E|s c p x s' _ IH Hp E|s i b s' _ IH E|s m s' _ IH E].
  - pose proof (userinit_keeps fa ta _ (dinv_boot lk ip n w)) as H. unfold wpe in H. by rewrite E in H.
  - pose proof (keeps_call fa ta c p x s IH Hp) as H. unfold wpe in H. by rewrite E in H.
  - assert (calm (scheduler_try i)) as Hc by (unfold scheduler_try; calm). pose proof (Hc [] s IH) as H. unfold wpe in H.
    rewrite E in H. apply H.
  - pose proof (still_lock m [] s IH) as H. unfold wpe in H. rewrite E in H. apply H.
Qed.

(** C8: no system call leaks an open file or closes one too early.  However
    processes open, duplicate, inherit, close and lose descriptors, the
    reference count of every entry of the file table is the number of
    descriptors, over all processes, that refer to it, and an entry of the
    process table without a process has none. *)
Theorem refcounts_are_descriptors fa ta s :
  kreach fa ta s →
  (∀ f, f_ref (files (world s) !!! f) = Z.of_nat (count f (handles s))) ∧
  (∀ i, no_process (state (procs s !!! i)) → ofile (procs s !!! i) = no_files).
Proof. intros [_ _ H3 H4]%kreach_dinv. split; [apply H4|done]. Qed.
End calls.

(** A kernel whose file system holds one file, which [init] opens and dups. *)
Module CallDemo.
#[export] Instance io0 : IoEnv unit := {
  io_pipeclose _ _ := ret tt; io_piperead _ _ _ := ret 0; io_pipewrite _ _ _ := ret 0; io_begin_op := ret tt; io_end_op := ret tt;
  io_iput _ := ret tt; io_ilock _ := ret tt; io_iunlock _ := ret tt; io_stati _ _ := ret tt; io_readi _ _ _ _ := ret 0;
  io_writei _ _ _ n := ret n;
}.
#[export] Instance calls0 : KernelCalls unit := {
  kc_argint _ _ := ret (Some 0); kc_argptr _ _ _ := ret (Some 0); kc_argstr _ _ := ret (Some [97]);
  kc_fetchint _ _ := ret (Some 0); kc_fetchstr _ _ := ret (Some [97]); kc_exec _ _ _ := ret (-1); kc_store_int _ _ := ret tt;
  kc_namei _ _ := ret (Some 1%nat); kc_nameiparent _ _ := ret (Some (0%nat, [97])); kc_dirlookup _ _ := ret (Some (1%nat, 0));
  kc_dirlink _ _ _ := ret 0; kc_ialloc _ _ := ret 1%nat; kc_iupdate _ := ret tt; kc_iunlockput _ := ret tt;
  kc_inode _ := ret zero_inode; kc_set_inode _ _ := ret tt; kc_readi _ _ _ := ret (0, []); kc_writei _ _ _ := ret 0;
  kc_kalloc := ret None; kc_kfree _ := ret tt; kc_init_pipe _ := ret tt;
}.
#[export] Instance calls0_spec : KernelCallsSpec unit.
Proof. split; cbn; unfold ret; intros; by simplify_eq. Qed.
#[export] Instance env0 : ProcEnv unit := {
  pe_kalloc := ret 0x80400000; pe_kfree _ := ret tt; pe_store32 _ _ := ret tt;
  pe_setupkvm := ret 0x80401000; pe_inituvm _ := ret tt; pe_copyuvm _ _ := ret 0x80402000; pe_freevm _ := ret tt;
  pe_allocuvm _ _ n := ret n; pe_deallocuvm _ _ n := ret n; pe_switchuvm _ _ := ret tt; pe_switchkvm := ret tt;
  pe_filedup f := ret f; pe_fileclose _ := ret tt; pe_idup i := ret i; pe_iput _ := ret tt;
  pe_begin_op := ret tt; pe_end_op := ret tt; pe_namei_root := ret (Some 1%nat);
  pe_forkret_first := ret tt; pe_acquire _ := ret tt; pe_release _ := ret tt;
}.

Definition out {A} (r : result (A * pst (ftab unit))) (s : pst (ftab unit)) : pst (ftab unit) :=
  match r with Done (_, t) => t | Fail _ => s end.
Definition t0 : pst (ftab unit) :=
  mk_pst (initlock "ptable") (replicate NPROC zero_proc) None 1 (mk_ftab (initlock "ftable") (replicate NFILE zero_file) tt).
Definition t1 : pst (ftab unit) := out (userinit (ProcEnv0 := files_env 0) 0 1 2 t0) t0.
Definition cpu0 : cpu := mk_cpu 0 1 0.
Definition t2 : pst (ftab unit) := out (run_call 0 1 2 cpu0 0 FOpen t1) t1.
Definition t3 : pst (ftab unit) := out (run_call 0 1 2 cpu0 0 FDup t2) t2.

Lemma t3_reach : kreach 0 1 2 t3.
Proof.
  apply (k_call _ _ _ t2 cpu0 0 FDup); [|split; [vm_compute; lia|vm_compute; by intros [|]]|by vm_compute].
  apply (k_call _ _ _ t1 cpu0 0 FOpen); [|split; [vm_compute; lia|vm_compute; by intros [|]]|by vm_compute].
  apply (k_boot _ _ _ (initlock "ptable") None 1 tt tt). by vm_compute.
Qed.
End CallDemo.

(** Two descriptors of [init] refer to the file. *)
Lemma refcounts_are_descriptors_witness :
  f_ref (files (world CallDemo.t3) !!! 0%nat) = Z.of_nat (count 0 (handles CallDemo.t3)) ∧ count 0 (handles CallDemo.t3) = 2%nat.
Proof. destruct (refcounts_are_descriptors (KernelCallsSpec0 := CallDemo.calls0_spec) 0 1 2 CallDemo.t3 CallDemo.t3_reach) as [H _]. split; [apply H|by vm_compute]. Defined.
