(* ===== verification/Exec.v ===== *)
(** * exec.c, elf.h and [loaduvm]: running a program

    On the kernel's memory and the process table of ProcVm.v; what exec uses of
    fs.c is the interface [ExecEnv].  The path and the arguments are given by
    their bytes without the NUL, as [sys_exec] fetches them.  [goto bad] is the
    result [None] of the part that fails, followed by [exec_bad].  Messages
    printed with [cprintf] are not modelled. *)

From S2P Require Import Prelude CString Spinlock Mmu Kalloc Vm Segment Proc ProcVm.

(** ** elf.h *)

Definition ELF_MAGIC : Z := 0x464C457F.
Definition ELF_PROG_LOAD : Z := 1.

Record elfhdr := mk_elfhdr {
  magic : Z;
  elf_ident : list Z;
  elf_type : Z;
  machine : Z;
  version : Z;
  elf_entry : Z;
  phoff : Z;
  shoff : Z;
  elf_flags : Z;
  ehsize : Z;
  phentsize : Z;
  phnum : Z;
  shentsize : Z;
  shnum : Z;
  shstrndx : Z;
}.

Record proghdr := mk_proghdr {
  ph_type : Z;
  ph_off : Z;
  vaddr : Z;
  paddr : Z;
  filesz : Z;
  memsz : Z;
  ph_flags : Z;
  align : Z;
}.

Definition sizeof_elfhdr : Z := 52.
Definition sizeof_proghdr : Z := 32.

(** The structures as they are laid out in memory. *)
Definition field (off n : nat) (b : list Z) : Z := le_val (take n (drop off b)).

Definition elfhdr_of (b : list Z) : elfhdr :=
  mk_elfhdr (field 0 4 b) (take 12 (drop 4 b)) (field 16 2 b) (field 18 2 b) (field 20 4 b) (field 24 4 b) (field 28 4 b)
    (field 32 4 b) (field 36 4 b) (field 40 2 b) (field 42 2 b) (field 44 2 b) (field 46 2 b) (field 48 2 b) (field 50 2 b).

Definition proghdr_of (b : list Z) : proghdr :=
  mk_proghdr (field 0 4 b) (field 4 4 b) (field 8 4 b) (field 12 4 b) (field 16 4 b) (field 20 4 b) (field 24 4 b) (field 28 4 b).

(** What exec.c uses of fs.c.  [namei] starts at the directory given first for a
    relative path; [readi] returns its result and the bytes it stored. *)
Class ExecEnv (F : Type) := {
  xe_namei : option nat → list Z → M F (option nat);
  xe_ilock : nat → M F unit;
  xe_readi : nat → Z → Z → M F (Z * list Z);
  xe_iunlockput : nat → M F unit;
}.

Section exec.
Context {F : Type} `{!FileEnv F, !ExecEnv F}.
Context (me : nat) (kend data ts_addr : Z).
Abbreviation W := (kworld F).

(** ** vm.c *)

Fixpoint loaduvm_loop (fuel : nat) (pgdir addr : Z) (ip : nat) (offset sz i : Z) : M W Z :=
  match fuel with
  | O => fail EFuel
  | S fuel' =>
      if i <? sz then
        pte <- on_kmem (walkpgdir me pgdir (u32 (addr + i)) false);;
        if pte =? 0 then panic "loaduvm: address should exist"
        else
          e <- on_kmem (read32 pte);;
          let pa := PTE_ADDR e in
          let n := if sz - i <? PGSIZE then sz - i else PGSIZE in
          r <- on_files (xe_readi ip (u32 (offset + i)) n);;
          on_kmem (on_mem (write_bytes (P2V pa) (snd r)));;
          if negb (fst r =? n) then ret (-1)
          else loaduvm_loop fuel' pgdir addr ip offset sz (u32 (i + PGSIZE))
      else ret 0
  end.

(** One round per page of [sz]. *)
Definition loaduvm (pgdir addr : Z) (ip : nat) (offset sz : Z) : M W Z :=
  if negb (addr mod PGSIZE =? 0) then panic "loaduvm: addr must be page aligned"
  else loaduvm_loop (S (Z.to_nat (sz / PGSIZE + 1))) pgdir addr ip offset sz 0.

(** [copyout] of bytes that are not in the pages it writes to: those of an
    argument in the memory of the calling process, or of [ustack]. *)
Fixpoint copyout_bytes_loop (fuel : nat) (pgdir va : Z) (buf : list Z) : M kmem Z :=
  match fuel with
  | O => fail EFuel
  | S fuel' =>
      let len := Z.of_nat (length buf) in
      if 0 <? len then
        let va0 := PGROUNDDOWN va in
        pa0 <- uva2ka me pgdir va0;;
        if pa0 =? 0 then ret (-1)
        else
          let n := Z.min (PGSIZE - (va - va0)) len in
          on_mem (write_bytes (pa0 + (va - va0)) (take (Z.to_nat n) buf));;
          copyout_bytes_loop fuel' pgdir (u32 (va0 + PGSIZE)) (drop (Z.to_nat n) buf)
      else ret 0
  end.
Definition copyout_bytes (pgdir va : Z) (buf : list Z) : M kmem Z := copyout_bytes_loop (S (length buf)) pgdir va buf.

(** ** exec.c *)

(** The loop over the program headers; [n] are left, [off] is a signed [int]. *)
Fixpoint exec_load (n : nat) (ip : nat) (pgdir off sz : Z) : M W (option Z) :=
  match n with
  | O => ret (Some sz)
  | S n' =>
      r <- on_files (xe_readi ip (u32 off) sizeof_proghdr);;
      if negb (fst r =? sizeof_proghdr) then ret None
      else
        let ph := proghdr_of (snd r) in
        let next := s32 (off + sizeof_proghdr) in
        if negb (ph_type ph =? ELF_PROG_LOAD) then exec_load n' ip pgdir next sz
        else if memsz ph <? filesz ph then ret None
        else if u32 (vaddr ph + memsz ph) <? vaddr ph then ret None
        else
          sz <- on_kmem (allocuvm me kend pgdir sz (u32 (vaddr ph + memsz ph)));;
          if sz =? 0 then ret None
          else if negb (vaddr ph mod PGSIZE =? 0) then ret None
          else
            r <- loaduvm pgdir (vaddr ph) ip (ph_off ph) (filesz ph);;
            if r <? 0 then ret None else exec_load n' ip pgdir next sz
  end.

(** The argument strings; the result is [sp], [argc] and [ustack]. *)
Fixpoint push_args (pgdir : Z) (argv : list (list Z)) (argc : nat) (sp : Z) (ustack : list Z) : M kmem (option (Z * nat * list Z)) :=
  match argv with
  | [] => ret (Some (sp, argc, ustack))
  | s :: argv' =>
      if (MAXARG <=? argc)%nat then ret None
      else
        let sp := Z.land (u32 (sp - (Z.of_nat (length s) + 1))) (Z.lnot 3) in
        r <- copyout_bytes pgdir sp (s ++ [0]);;
        if r <? 0 then ret None
        else push_args pgdir argv' (S argc) sp (<[(3 + argc)%nat := sp]> ustack)
  end.

(** The user stack: two pages, the first inaccessible; the arguments.  The
    result is [sz] and [sp]. *)
Definition exec_stack (pgdir sz : Z) (argv : list (list Z)) : M kmem (option (Z * Z)) :=
  let sz := PGROUNDUP sz in
  sz <- allocuvm me kend pgdir sz (u32 (sz + 2 * PGSIZE));;
  if sz =? 0 then ret None
  else
    clearpteu me pgdir (u32 (sz - 2 * PGSIZE));;
    r <- push_args pgdir argv 0 sz (replicate (3 + MAXARG + 1) 0);;
    match r with
    | None => ret None
    | Some (sp, argc, ustack) =>
        let ustack := <[(3 + argc)%nat := 0]> ustack in
        let ustack := <[0%nat := 0xffffffff]> ustack in
        let ustack := <[1%nat := Z.of_nat argc]> ustack in
        let ustack := <[2%nat := u32 (sp - (Z.of_nat argc + 1) * 4)]> ustack in
        let sp := u32 (sp - (3 + Z.of_nat argc + 1) * 4) in
        r <- copyout_bytes pgdir sp (concat (le_bytes 4 <$> take (3 + argc + 1) ustack));;
        if r <? 0 then ret None else ret (Some (sz, sp))
    end.

(** What follows the last slash. *)
Fixpoint last_elem (s last : list Z) : list Z :=
  match s with
  | [] => last
  | c :: s' => last_elem s' (if c =? 47 then s' else last)
  end.

Definition set_eip_esp (ip sp : Z) (t : trapframe) : trapframe :=
  mk_trapframe (edi t) (esi t) (ebp t) (oesp t) (ebx t) (edx t) (ecx t) (eax t) (gs t) (fs t) (es t) (ds t) (trapno t)
    (tf_err t) ip (cs t) (tf_eflags t) sp (ss t).

(** The label [bad]. *)
Definition exec_bad (pgdir : Z) (ip : option nat) : M (pst W) Z :=
  when (negb (pgdir =? 0)) (env (on_kmem (freevm me kend pgdir)));;
  match ip with
  | Some ip => env (on_files (xe_iunlockput ip));; env (on_files fe_end_op)
  | None => ret tt
  end;;
  ret (-1).

(** Save the name and commit to the user image. *)
Definition exec_commit (p : nat) (path : list Z) (pgdir sz entry sp : Z) : M (pst W) Z :=
  upd p (λ q, set_name (copy_name (last_elem path path) (p_name q)) q);;
  q <- proc_at p;;
  let oldpgdir := p_pgdir q in
  upd p (set_pgdir pgdir);;
  upd p (set_sz sz);;
  upd p (λ q, set_tf (tf_ptr q) (set_eip_esp entry sp (tf q)) q);;
  q <- proc_at p;;
  env (on_cpu (switchuvm ts_addr (kstack q) (p_pgdir q)));;
  env (on_kmem (freevm me kend oldpgdir));;
  ret 0.

(** From the comment about the two pages on. *)
Definition exec_start (p : nat) (path : list Z) (argv : list (list Z)) (pgdir sz entry : Z) : M (pst W) Z :=
  r <- env (on_kmem (exec_stack pgdir sz argv));;
  match r with
  | None => exec_bad pgdir None
  | Some (sz, sp) => exec_commit p path pgdir sz entry sp
  end.

(** From the comment about loading on. *)
Definition exec_program (p : nat) (path : list Z) (argv : list (list Z)) (ip : nat) (pgdir : Z) (elf : elfhdr) : M (pst W) Z :=
  r <- env (exec_load (Z.to_nat (phnum elf)) ip pgdir (s32 (phoff elf)) 0);;
  match r with
  | None => exec_bad pgdir (Some ip)
  | Some sz =>
      env (on_files (xe_iunlockput ip));;
      env (on_files fe_end_op);;
      exec_start p path argv pgdir sz (elf_entry elf)
  end.

(** With the file locked. *)
Definition exec_file (p : nat) (path : list Z) (argv : list (list Z)) (ip : nat) : M (pst W) Z :=
  r <- env (on_files (xe_readi ip 0 sizeof_elfhdr));;
  if negb (fst r =? sizeof_elfhdr) then exec_bad 0 (Some ip)
  else
    let elf := elfhdr_of (snd r) in
    if negb (magic elf =? ELF_MAGIC) then exec_bad 0 (Some ip)
    else
      pgdir <- env (on_kmem (setupkvm me kend data));;
      if pgdir =? 0 then exec_bad 0 (Some ip) else exec_program p path argv ip pgdir elf.

Definition exec (p : nat) (path : list Z) (argv : list (list Z)) : M (pst W) Z :=
  env (on_files fe_begin_op);;
  q <- proc_at p;;
  r <- env (on_files (xe_namei (cwd q) path));;
  match r with
  | None => env (on_files fe_end_op);; ret (-1)
  | Some ip =>
      env (on_files (xe_ilock ip));;
      exec_file p path argv ip
  end.
End exec.
