(* ===== verification/ExecSpec.v ===== *)
(** * What exec does

    The program a file describes, as functions of the bytes of the file: the
    segments exec loads, the memory they make, and the stack with the
    arguments.  [exec] runs that program or leaves everything as it was. *)

From S2P Require Import Prelude CString Spinlock Mmu Kalloc Vm VmSpec VmLife Segment Proc ProcVm Exec.

(** ** Files *)

(** [readi] of a file with contents [b]: fewer bytes at the end of the file,
    and -1 behind it. *)
Definition file_read (b : list Z) (off n : Z) : Z * list Z :=
  if Z.of_nat (length b) <? off then (-1, [])
  else let l := take (Z.to_nat n) (drop (Z.to_nat off) b) in (Z.of_nat (length l), l).

(** The file system as exec uses it, when no call has to wait: outside a
    transaction ([x_idle]), inside one, with a reference to a file, and with
    the file locked; [x_file] is what a path names. *)
Class ExecEnvSpec (F : Type) `{!FileEnv F, !ExecEnv F} := {
  x_idle : F → Prop;
  x_op : F → Prop;
  x_ref : F → nat → list Z → Prop;
  x_locked : F → nat → list Z → Prop;
  x_file : F → option nat → list Z → option (list Z);
  x_contents f ip b : x_locked f ip b → bytes b ∧ Z.of_nat (length b) < 2 ^ 31;
  x_begin_op f : x_idle f → ∃ f', fe_begin_op f = Done (tt, f') ∧ x_op f' ∧ ∀ c path, x_file f' c path = x_file f c path;
  x_end_op f : x_op f → ∃ f', fe_end_op f = Done (tt, f') ∧ x_idle f';
  x_namei f c path : x_op f →
    match x_file f c path with
    | Some b => ∃ ip f', xe_namei c path f = Done (Some ip, f') ∧ x_ref f' ip b
    | None => ∃ f', xe_namei c path f = Done (None, f') ∧ x_op f'
    end;
  x_ilock f ip b : x_ref f ip b → ∃ f', xe_ilock ip f = Done (tt, f') ∧ x_locked f' ip b;
  x_readi f ip b off n : x_locked f ip b → 0 ≤ off < 2 ^ 32 → 0 ≤ n ≤ PGSIZE →
    ∃ f', xe_readi ip off n f = Done (file_read b off n, f') ∧ x_locked f' ip b;
  x_iunlockput f ip b : x_locked f ip b → ∃ f', xe_iunlockput ip f = Done (tt, f') ∧ x_op f';
}.

(** ** Programs *)

(** A segment that can be loaded into a process of size [sz]. *)
Definition seg_ok (b : list Z) (sz : Z) (ph : proghdr) : bool :=
  (filesz ph <=? memsz ph) && (vaddr ph + memsz ph <? KERNBASE) && (0 <? Z.max sz (vaddr ph + memsz ph)) &&
  (vaddr ph mod PGSIZE =? 0) && ((filesz ph =? 0) || (ph_off ph + filesz ph <=? Z.of_nat (length b))).

(** The segments to load from the [n] headers at [off], and the size. *)
Fixpoint plan (n : nat) (b : list Z) (off sz : Z) : option (list proghdr * Z) :=
  match n with
  | O => Some ([], sz)
  | S n' =>
      let h := file_read b off sizeof_proghdr in
      if negb (fst h =? sizeof_proghdr) then None
      else
        let ph := proghdr_of (snd h) in
        if negb (ph_type ph =? ELF_PROG_LOAD) then plan n' b (off + sizeof_proghdr) sz
        else if negb (seg_ok b sz ph) then None
        else match plan n' b (off + sizeof_proghdr) (Z.max sz (vaddr ph + memsz ph)) with
             | Some (phs, sz') => Some (ph :: phs, sz')
             | None => None
             end
  end.

Definition elf_plan (b : list Z) : option (elfhdr * list proghdr * Z) :=
  let h := file_read b 0 sizeof_elfhdr in
  if negb (fst h =? sizeof_elfhdr) then None
  else
    let elf := elfhdr_of (snd h) in
    if negb (magic elf =? ELF_MAGIC) then None
    else match plan (Z.to_nat (phnum elf)) b (phoff elf) 0 with
         | Some (phs, sz) => Some (elf, phs, sz)
         | None => None
         end.

(** The memory the segments make: bytes of the file, and zeros. *)
Definition seg_mem (b : list Z) (m : Z → Z) (ph : proghdr) : Z → Z :=
  λ x, if (vaddr ph <=? x) && (x <? vaddr ph + filesz ph) then b !!! Z.to_nat (ph_off ph + (x - vaddr ph)) else m x.
Definition image (b : list Z) (phs : list proghdr) : Z → Z := foldl (seg_mem b) (λ _, 0) phs.

(** Where the argument strings go, from [sp] down, and where they end. *)
Fixpoint lay_args (argv : list (list Z)) (sp : Z) : list Z * Z :=
  match argv with
  | [] => ([], sp)
  | s :: argv' =>
      let sp' := (sp - (Z.of_nat (length s) + 1)) / 4 * 4 in
      let r := lay_args argv' sp' in (sp' :: fst r, snd r)
  end.

Definition stack_top (sz : Z) : Z := PGROUNDUP sz + 2 * PGSIZE.

(** The stack page has room for the arguments. *)
Definition args_fit (argv : list (list Z)) (top : Z) : bool :=
  (length argv <=? MAXARG)%nat && (top - PGSIZE <=? snd (lay_args argv top) - 4 * (4 + Z.of_nat (length argv))).

Definition can_exec (b : list Z) (argv : list (list Z)) : bool :=
  match elf_plan b with
  | Some (_, _, sz) => (stack_top sz <? KERNBASE) && args_fit argv (stack_top sz)
  | None => false
  end.

(** The pages that are enough for a program of size [top]: the directory, all
    the tables, one that is in hand, and the program's own. *)
Definition pages_needed (top : Z) : Z := 1027 + (top + PGSIZE - 1) / PGSIZE.

Lemma pages_below (us : gmap Z (Z * Z)) b :
  0 ≤ b → (∀ va, is_Some (us !! va) → user_page va ∧ va < b) → Z.of_nat (size us) ≤ (b + PGSIZE - 1) / PGSIZE.
Proof.
  intros Hb H. set (n := (b + PGSIZE - 1) / PGSIZE). assert (0 ≤ n) by (apply Z.div_pos; unfold PGSIZE; lia).
  rewrite <-size_dom. assert (dom us ⊆ (list_to_set ((λ i, i * PGSIZE) <$> seqZ 0 n) : gset Z)) as Hs.
  { intros va Hva%elem_of_dom. destruct (H va Hva) as [[Ha Hr] Hlt]. rewrite elem_of_list_to_set, list_elem_of_fmap.
    exists (va / PGSIZE). pose proof (Z.div_mod va PGSIZE ltac:(done)) as E. unfold aligned in Ha. rewrite Ha in E. split; [lia|].
    rewrite elem_of_seqZ. unfold n. split; [apply Z.div_pos; [lia|done]|]. rewrite Z.add_0_l. apply Z.lt_le_trans with (va / PGSIZE + 1); [lia|].
    replace (va / PGSIZE + 1) with ((va + 1 * PGSIZE) / PGSIZE) by (by rewrite Z.div_add). apply Z.div_le_mono; [done|].
    assert (va / PGSIZE < (b + PGSIZE - 1) / PGSIZE ∨ (b + PGSIZE - 1) / PGSIZE ≤ va / PGSIZE) as [|] by lia; [|].
    all: unfold PGSIZE in *; pose proof (Z.div_mod (b + 4096 - 1) 4096 ltac:(lia)); pose proof (Z.mod_pos_bound (b + 4096 - 1) 4096); lia. }
  apply subseteq_size in Hs. pose proof (size_list_to_set_le ((λ i, i * PGSIZE) <$> seqZ 0 n)) as HL.
  rewrite length_fmap, length_seqZ in HL. lia.
Qed.

Section spec.
Context {F : Type} `{!FileEnv F, !ExecEnv F, !ExecEnvSpec F}.
Context (me : nat) (kend data ts_addr : Z) (Hkend : KERNBASE < kend).
(** The memory when the address space is begun, and its free pages. *)
Context (k0 : kmem) (l0 : list Z) (Hnodup : NoDup l0).
Context (pgdir : Z).

(** An address space made of free pages. *)
Record building (k : kmem) (l : list Z) (own : gmap Z role) (ts : gmap Z Z) (us : gmap Z (Z * Z)) : Prop := {
  bd_as : as_inv kend (kernel_entries data) k l own pgdir ts us;
  bd_dom : dom own = list_to_set l0;
  bd_leaves : leaves kend (free_pages l0) (kmem_mem k0) (kmem_mem k);
}.

Definition half_built (k : kmem) : Prop := ∃ l own ts us, building k l own ts us.

Lemma building_next k l own ts us k' l' own' ts' us' :
  building k l own ts us → as_inv kend (kernel_entries data) k' l' own' pgdir ts' us' → dom own' = dom own →
  leaves kend own (kmem_mem k) (kmem_mem k') → building k' l' own' ts' us'.
Proof.
  intros [H1 H2 H3] Hi Hd Hl. split; [done|congruence|]. eapply (leaves_trans kend _ own); [by rewrite free_pages_dom|done|done].
Qed.

Lemma building_size k l own ts us : building k l own ts us → size own = length l0.
Proof. intros [_ Hd _]. rewrite <-size_dom, Hd. by apply size_list_to_set. Qed.

(** The process has size [sz] and memory [img]. *)
Record loading (img : Z → Z) (sz : Z) (k : kmem) (l : list Z) (own : gmap Z role) (ts : gmap Z Z) (us : gmap Z (Z * Z)) : Prop := {
  ld_building : building k l own ts us;
  ld_sz : 0 ≤ sz < KERNBASE;
  ld_sized : sized us sz;
  ld_flags va f fl : us !! va = Some (f, fl) → fl = 7;
  ld_image x : 0 ≤ x < PGROUNDUP sz → ubyte (kmem_mem k) us x = Some (img x);
  ld_zero x : sz ≤ x → img x = 0;
}.
Definition loaded (img : Z → Z) (sz : Z) (k : kmem) : Prop := ∃ l own ts us, loading img sz k l own ts us.

Lemma loaded_half img sz k : loaded img sz k → half_built k.
Proof. intros (l & own & ts & us & Hl). exists l, own, ts, us. apply Hl. Qed.

(** Running out of memory while the program grows to [b]. *)
Lemma exhausted_needed own us a b sz k l ts :
  exhausted own us a b → building k l own ts us → sized us sz → sz ≤ b → 0 ≤ b ≤ KERNBASE → Z.of_nat (length l0) < pages_needed b.
Proof.
  intros (us' & H1 & H2) Hb Hs Hsz Hr. rewrite (building_size _ _ _ _ _ Hb) in H2.
  assert (Z.of_nat (size us') ≤ (b + PGSIZE - 1) / PGSIZE); [|unfold pages_needed; lia].
  apply pages_below; [lia|]. intros va Hva. destruct (H1 va Hva) as [Hu Ho]. split; [done|].
  destruct Ho as [Ho|Ho]; [|lia]. apply (Hs va Hu) in Ho. lia.
Qed.

Lemma page_of x b : 0 ≤ x < PGROUNDUP b → 0 ≤ b ≤ KERNBASE → user_page (PGROUNDDOWN x) ∧ PGROUNDDOWN x < b.
Proof.
  intros Hx Hb. destruct (PGROUNDUP_user b Hb) as (H1 & H2 & H3). destruct (PGROUNDDOWN_user x ltac:(lia)) as (Hu & E & Hm).
  split; [done|]. apply (PGROUNDUP_lt (PGROUNDDOWN x) b Hb (proj1 Hu)). lia.
Qed.

(** [allocuvm] while loading. *)
Lemma alloc_loading img sz newsz k l own ts us :
  loading img sz k l own ts us → 0 ≤ newsz < KERNBASE →
  ∃ r k', allocuvm me kend pgdir sz newsz k = Done (r, k') ∧
    ((r = Z.max sz newsz ∧ loaded img r k') ∨ (r = 0 ∧ half_built k' ∧ Z.of_nat (length l0) < pages_needed newsz)).
Proof.
  intros [Hb Hsz Hs Hf Hi Hz] Hn. destruct (decide (newsz < sz)) as [Hlt|Hge].
  { exists sz, k. split; [unfold allocuvm; destruct (Z.leb_spec KERNBASE newsz); [lia|]; destruct (Z.ltb_spec newsz sz); [done|lia]|].
    left. split; [lia|]. by exists l, own, ts, us. }
  destruct (allocuvm_ok me kend Hkend k l own pgdir ts us sz newsz (bd_as _ _ _ _ _ Hb)) as (r & k' & l' & own' & ts' & us' & E & Hi' & Hd & Hk & Hr);
    [lia|lia| |].
  { intros va Hva. destruct (us !! va) as [[f fl]|] eqn:Ev; [|done]. destruct (as_frames _ _ _ _ _ _ _ (bd_as _ _ _ _ _ Hb) _ _ _ Ev) as (_ & Hu & _).
    assert (va < sz) as Hlt by (apply (Hs va Hu); by eexists). apply (PGROUNDUP_lt va sz) in Hlt; [lia|lia|apply Hu]. }
  exists r, k'. split; [done|]. pose proof (building_next _ _ _ _ _ _ _ _ _ _ Hb Hi' Hd (leaves_keeps_us _ _ _ _ _ Hk)) as Hb'.
  destruct Hr as [[-> Hadd]|(-> & -> & Hex)]; [left|right].
  2: { split; [done|]. split; [by exists l', own', ts', us|]. eapply exhausted_needed; [exact Hex|exact Hb|exact Hs|lia|lia]. }
  split; [lia|]. exists l', own', ts', us'. split; [done|lia|eapply sized_added; [|lia|exact Hs|exact Hadd]; lia| | |].
  - intros va f fl Hu. destruct Hadd as [A1 A2]. destruct (A1 va) as [E'|[Hr _]]; [rewrite E' in Hu; by eapply Hf|].
    destruct (as_frames _ _ _ _ _ _ _ Hi' _ _ _ Hu) as (_ & Hup & _). destruct (A2 va Hup Hr) as (f' & E' & _). congruence.
  - intros x Hx. destruct (page_of x newsz Hx ltac:(lia)) as [Hup Hlt]. destruct Hadd as [A1 A2]. unfold ubyte.
    destruct (decide (PGROUNDDOWN x < PGROUNDUP sz)) as [Hold|Hnew].
    + destruct (A1 (PGROUNDDOWN x)) as [E'|[? _]]; [|lia]. pose proof (proj1 (PGROUNDUP_lt _ sz ltac:(lia) (proj1 Hup)) Hold) as Hin.
      assert (0 ≤ x < PGROUNDUP sz) as Hx'.
      { destruct (PGROUNDDOWN_user x) as (_ & Ex & Hm); [destruct (PGROUNDUP_user newsz ltac:(lia)); lia|].
        destruct (PGROUNDUP_user sz ltac:(lia)) as (R1 & _). pose proof (between_pages (PGROUNDDOWN x) (PGROUNDUP sz) (proj1 Hup) R1).
        unfold PGSIZE in *. lia. }
      rewrite <-(Hi x Hx'). unfold ubyte. rewrite E'. destruct (us !! PGROUNDDOWN x) as [[f fl]|] eqn:Eu; [|done]. f_equal.
      destruct (as_frames _ _ _ _ _ _ _ (bd_as _ _ _ _ _ Hb) _ _ _ Eu) as (Ho & _).
      apply (Hk f); [by eapply (as_pages _ _ _ _ _ _ _ (bd_as _ _ _ _ _ Hb))|right; by exists (PGROUNDDOWN x), fl|].
      pose proof (Z.mod_pos_bound x PGSIZE eq_refl). lia.
    + destruct (A2 (PGROUNDDOWN x) Hup ltac:(lia)) as (f & -> & _ & Hzero).
      rewrite Hzero by (pose proof (Z.mod_pos_bound x PGSIZE eq_refl); lia). rewrite Hz; [done|].
      destruct (PGROUNDUP_user sz ltac:(lia)) as (_ & R2 & _). destruct (PGROUNDDOWN_user x) as (_ & Ex & Hm); [destruct (PGROUNDUP_user newsz ltac:(lia)); lia|]. lia.
  - intros x Hx. apply Hz. lia.
Qed.

(** ** [loaduvm] *)

(** The kernel with other memory and other files. *)
Definition setw (k : kmem) (f : F) (w : kworld F) : kworld F := mk_kworld k (kw_cpu w) (kpgdir w) (first w) (kw_clock w) f.

Lemma on_kmem_run {A} (m : M kmem A) w a k' : m (kw_mem w) = Done (a, k') → on_kmem m w = Done (a, setw k' (kw_files w) w).
Proof. intros E. unfold on_kmem, zoom. by rewrite E. Qed.

Lemma on_files_run {A} (m : M F A) w a f' : m (kw_files w) = Done (a, f') → on_files m w = Done (a, setw (kw_mem w) f' w).
Proof. intros E. unfold on_files, zoom. by rewrite E. Qed.

Lemma file_read_full b off n :
  0 ≤ off → 0 ≤ n → (fst (file_read b off n) = n ↔ (off ≤ Z.of_nat (length b) ∧ off + n ≤ Z.of_nat (length b))).
Proof.
  intros Ho Hn. unfold file_read. destruct (Z.ltb_spec (Z.of_nat (length b)) off); cbn [fst]; [lia|].
  rewrite length_take, length_drop. lia.
Qed.

Lemma file_read_length b off n : 0 ≤ n → Z.of_nat (length (snd (file_read b off n))) ≤ n.
Proof. intros Hn. unfold file_read. destruct (_ <? _); cbn [snd length]; [lia|]. rewrite length_take. lia. Qed.

Lemma file_read_bytes b off n j :
  0 ≤ off → fst (file_read b off n) = n → 0 ≤ j < n →
  Z.of_nat (length (snd (file_read b off n))) = n ∧ snd (file_read b off n) !!! Z.to_nat j = b !!! Z.to_nat (off + j).
Proof.
  unfold file_read. destruct (Z.ltb_spec (Z.of_nat (length b)) off); cbn [fst snd]; [lia|]. intros Ho Hn Hj. split; [done|].
  rewrite list_lookup_total_alt, lookup_take, lookup_drop, list_lookup_total_alt. rewrite decide_True by lia. do 2 f_equal. lia.
Qed.

(** Writing at the start of a page of the process. *)
Lemma write_frame k l own ts us va f fl bs :
  building k l own ts us → us !! va = Some (f, fl) → Z.of_nat (length bs) ≤ PGSIZE →
  let k' := set_kmem_mem (write_bytes f bs (kmem_mem k)) k in
  building k' l own ts us ∧
  (∀ i, 0 ≤ i < Z.of_nat (length bs) → ubyte (kmem_mem k') us (va + i) = Some (bs !!! Z.to_nat i)) ∧
  (∀ y, 0 ≤ y < KERNBASE → ¬ (va ≤ y < va + Z.of_nat (length bs)) → ubyte (kmem_mem k') us y = ubyte (kmem_mem k) us y).
Proof.
  intros Hb Hu Hlen k'. pose proof (bd_as _ _ _ _ _ Hb) as Hi. destruct (as_frames _ _ _ _ _ _ _ Hi _ _ _ Hu) as (Ho & [Ha Hr] & _).
  pose proof (as_pages _ _ _ _ _ _ _ Hi _ _ Ho) as Hp. destruct (PGROUNDDOWN_in va 0 Ha ltac:(done)) as [E1 E2]. rewrite Z.add_0_r in E1, E2.
  destruct (write_page kend k l own pgdir ts us va (Z.of_nat (length bs)) f fl (λ i, bs !!! Z.to_nat i) (kmem_mem k') Hi Hr)
    as (H1 & H2 & H3 & H4); [by rewrite E1|lia|lia| |].
  { intros a. cbn. rewrite E2, Z.add_0_r. apply write_bytes_spec. }
  split; [|done]. eapply building_next; [exact Hb|exact H1|done|]. by apply (leaves_page kend own f); [|eexists|].
Qed.

(** The image with the first [i] bytes of a segment. *)
Definition part_mem (b : list Z) (m : Z → Z) (va off i : Z) : Z → Z :=
  λ x, if (va <=? x) && (x <? va + i) then b !!! Z.to_nat (off + (x - va)) else m x.

(** Where a load gives up and why; [c] says what holds then. *)
Definition load_failed (b : list Z) (ip : nat) (w w' : kworld F) (c : Prop) : Prop :=
  ∃ k f, w' = setw k f w ∧ half_built k ∧ x_locked f ip b ∧ c.

Definition load_done (b : list Z) (ip : nat) (img : Z → Z) (sz : Z) (w w' : kworld F) : Prop :=
  ∃ k f, w' = setw k f w ∧ loaded img sz k ∧ x_locked f ip b.

(** One page of [loaduvm]. *)
Lemma load_page b ip img sz va off i n w :
  loaded img sz (kw_mem w) → x_locked (kw_files w) ip b → aligned (va + i) → 0 ≤ va + i → 0 < n ≤ PGSIZE → va + i + n ≤ sz →
  0 ≤ off < 2 ^ 32 → 0 ≤ i → i = 0 ∨ off + i ≤ Z.of_nat (length b) →
  ∃ pte e w1 w', on_kmem (walkpgdir me pgdir (u32 (va + i)) false) w = Done (pte, w) ∧ pte ≠ 0 ∧ on_kmem (read32 pte) w = Done (e, w) ∧
    on_files (xe_readi ip (u32 (off + i)) n) w = Done (file_read b (off + i) n, w1) ∧
    on_kmem (on_mem (write_bytes (P2V (PTE_ADDR e)) (snd (file_read b (off + i) n)))) w1 = Done (tt, w') ∧
    (if fst (file_read b (off + i) n) =? n then load_done b ip (part_mem b img (va + i) (off + i) n) sz w w'
     else load_failed b ip w w' (Z.of_nat (length b) < off + i + n)).
Proof.
  intros (l & own & ts & us & Hl) Hf Ha H0 Hn Hsz Hoff Hi0 Hio. pose proof Hl as [Hb Hr Hs Hfl Himg Hz].
  pose proof (bd_as _ _ _ _ _ Hb) as Hi. destruct (x_contents _ _ _ Hf) as [_ Hlen].
  assert (user_page (va + i)) as Hu by (split; [done|lia]). destruct (proj2 (Hs _ Hu) ltac:(lia)) as [[f fl] Hus].
  pose proof (Hfl _ _ _ Hus) as ->. destruct (user_table _ Hkend _ _ _ _ _ _ _ _ Hi Hus) as [t Et].
  destruct (as_tables _ _ _ _ _ _ _ Hi _ _ Et) as [_ Hot]. pose proof (as_pages _ _ _ _ _ _ _ Hi _ _ Hot) as Hpt.
  destruct (as_frames _ _ _ _ _ _ _ Hi _ _ _ Hus) as (Hof & _ & Hfr). pose proof (as_pages _ _ _ _ _ _ _ Hi _ _ Hof) as Hpf.
  pose proof (as_pte _ _ _ _ _ _ _ Hi _ Hu) as He. rewrite Hus in He. unfold entry in He. rewrite Et in He.
  destruct (entry_present _ Hkend _ _ _ He Hpf Hfr) as (P1 & P2 & _).
  rewrite (u32_small (va + i)), (u32_small (off + i)) by (unfold KERNBASE in *; lia).
  destruct (x_readi _ _ _ (off + i) n Hf) as (f' & Er & Hf'); [lia|lia|].
  set (bs := snd (file_read b (off + i) n)). pose proof (file_read_length b (off + i) n ltac:(lia) : Z.of_nat (length bs) ≤ n) as Hbs.
  destruct (write_frame _ _ _ _ _ _ _ _ bs Hb Hus ltac:(lia)) as (Hb' & Hin & Hout).
  set (k' := set_kmem_mem (write_bytes f bs (kmem_mem (kw_mem w))) (kw_mem w)) in *.
  exists (t + 4 * PTX (va + i)), (load32 (kmem_mem (kw_mem w)) (t + 4 * PTX (va + i))), (setw (kw_mem w) f' w), (setw k' f' w). split_and!.
  - unfold on_kmem, zoom. rewrite (walkpgdir_find _ _ Hkend _ _ _ _ _ _ _ Hi), Et by eauto. by destruct w.
  - destruct Hpt. pose proof (PTX_range (va + i)). lia.
  - unfold on_kmem, zoom, read32, gets. by destruct w.
  - by apply on_files_run.
  - rewrite P2. apply (on_kmem_run _ (setw (kw_mem w) f' w)). done.
  - pose proof (file_read_full b (off + i) n ltac:(lia) ltac:(lia)) as Hfull. destruct (Z.eqb_spec (fst (file_read b (off + i) n)) n) as [E|E].
    + apply Hfull in E as Hle. exists k', f'. split_and!; [done| |done]. exists l, own, ts, us. split; try done.
      * intros x Hx. unfold part_mem. destruct (PGROUNDUP_user sz ltac:(lia)) as (_ & _ & R3).
        destruct (file_read_bytes b (off + i) n 0 ltac:(lia) E ltac:(lia)) as [Hlb _]. fold bs in Hlb.
        destruct (Z.leb_spec (va + i) x), (Z.ltb_spec x (va + i + n)); cbn [andb]; try (rewrite Hout by lia; by apply Himg).
        replace x with (va + i + (x - (va + i))) at 1 by lia. rewrite Hin by lia. f_equal.
        by apply (file_read_bytes b (off + i) n (x - (va + i))); [lia|done|lia].
      * intros x Hx. unfold part_mem. destruct (Z.ltb_spec x (va + i + n)); [lia|]. rewrite andb_false_r. by apply Hz.
    + exists k', f'. split_and!; [done|by exists l, own, ts, us|done|]. destruct Hio as [-> | Hio]; lia.
Qed.

Lemma loaded_ext img img' sz k : (∀ x, img' x = img x) → loaded img sz k → loaded img' sz k.
Proof.
  intros H (l & own & ts & us & [H1 H2 H3 H4 H5 H6]). exists l, own, ts, us. split; try done; intros x Hx; rewrite H; auto.
Qed.

Lemma part_mem_next b img va off i n x :
  0 ≤ i → 0 ≤ n → part_mem b img va off (i + n) x = part_mem b (part_mem b img va off i) (va + i) (off + i) n x.
Proof.
  intros Hi Hn. unfold part_mem.
  destruct (Z.leb_spec va x), (Z.ltb_spec x (va + (i + n))), (Z.leb_spec (va + i) x), (Z.ltb_spec x (va + i + n)), (Z.ltb_spec x (va + i));
    try lia; cbn [andb]; try done. do 2 f_equal. lia.
Qed.

Section segment.
Context (b : list Z) (ip : nat) (img : Z → Z) (sz va off fsz : Z).
Context (Hva : aligned va) (Hva0 : 0 ≤ va) (Hfsz : 0 ≤ fsz) (Hend : va + fsz ≤ sz) (Hsz : sz < KERNBASE) (Hoff : 0 ≤ off < 2 ^ 32).

Definition segment_loaded (w : kworld F) (r : result (Z * kworld F)) : Prop :=
  ∃ w', (r = Done (0, w') ∧ load_done b ip (part_mem b img va off fsz) sz w w' ∧ (fsz = 0 ∨ off + fsz ≤ Z.of_nat (length b))) ∨
    (r = Done (-1, w') ∧ load_failed b ip w w' (fsz ≠ 0 ∧ Z.of_nat (length b) < off + fsz)).

Lemma segment_loaded_later k f w r : segment_loaded (setw k f w) r → segment_loaded w r.
Proof. by intros H. Qed.

Lemma loaduvm_loop_ok fuel i w :
  loaded (part_mem b img va off (Z.min i fsz)) sz (kw_mem w) → x_locked (kw_files w) ip b → aligned i → 0 ≤ i →
  i = 0 ∨ off + Z.min i fsz ≤ Z.of_nat (length b) → (Z.to_nat ((fsz - i) / PGSIZE + 1) < fuel)%nat →
  segment_loaded w (loaduvm_loop me fuel pgdir va ip off fsz i w).
Proof.
  revert i w. induction fuel as [|fuel IH]; intros i w Hl Hf Hi Hi0 Hio Hfuel; [lia|].
  cbn [loaduvm_loop]. destruct (Z.ltb_spec i fsz) as [Hlt|Hge].
  2: { exists w. left. rewrite Z.min_r in Hl, Hio by lia. split; [done|]. split; [|lia].
       exists (kw_mem w), (kw_files w). split_and!; [by destruct w|done|done]. }
  rewrite Z.min_l in Hl, Hio by lia. replace (if fsz - i <? PGSIZE then fsz - i else PGSIZE) with (Z.min (fsz - i) PGSIZE)
    by (destruct (Z.ltb_spec (fsz - i) PGSIZE); lia). set (n := Z.min (fsz - i) PGSIZE).
  assert (0 < n ≤ PGSIZE ∧ i + n ≤ fsz) as [Hn Hin] by (unfold n, PGSIZE; lia).
  assert (aligned (va + i)) as Hai by (unfold aligned in *; by rewrite Z.add_mod, Hva, Hi).
  destruct (load_page b ip _ sz va off i n w Hl Hf Hai ltac:(lia) Hn ltac:(lia) Hoff Hi0 Hio)
    as (pte & e & w1 & w2 & E1 & Hpte & E2 & E3 & E4 & Hres).
  rewrite (bind_run _ _ _ _ _ E1), (proj2 (Z.eqb_neq _ 0) Hpte), (bind_run _ _ _ _ _ E2), (bind_run _ _ _ _ _ E3), (bind_run _ _ _ _ _ E4).
  destruct (Z.eqb_spec (fst (file_read b (off + i) n)) n) as [E|E]; cbn [negb].
  - destruct Hres as (k & f & -> & Hl' & Hf'). apply file_read_full in E as [Hr1 Hr2]; [|lia|lia].
    rewrite u32_small by (unfold KERNBASE, PGSIZE in *; lia). apply (segment_loaded_later k f), IH.
    + eapply loaded_ext; [|exact Hl']. intros x. rewrite <-part_mem_next by lia.
      replace (Z.min (i + PGSIZE) fsz) with (i + n) by (unfold n; lia). done.
    + done.
    + unfold aligned in *. rewrite Z.add_mod, Hi by done. done.
    + unfold PGSIZE. lia.
    + right. unfold n in *. lia.
    + pose proof (pages_left i (i + PGSIZE) fsz ltac:(lia) Hlt). lia.
  - destruct Hres as (k & f & -> & Hh & Hf' & Hc). exists (setw k f w). right. split; [done|]. exists k, f. split_and!; [done|done|done|lia|lia].
Qed.

Lemma loaduvm_ok w :
  loaded img sz (kw_mem w) → x_locked (kw_files w) ip b → segment_loaded w (loaduvm me pgdir va ip off fsz w).
Proof.
  intros Hl Hf. unfold loaduvm. unfold aligned in Hva. rewrite Hva. cbn [Z.eqb negb]. apply loaduvm_loop_ok; try done.
  - eapply loaded_ext; [|exact Hl]. intros x. unfold part_mem. rewrite Z.min_l by lia. rewrite Z.add_0_r.
    destruct (Z.leb_spec va x), (Z.ltb_spec x va); try lia; done.
  - by left.
  - rewrite Z.sub_0_r. lia.
Qed.
End segment.

(** ** The program headers *)

Lemma seg_ok_spec b sz ph :
  seg_ok b sz ph = true ↔
  filesz ph ≤ memsz ph ∧ vaddr ph + memsz ph < KERNBASE ∧ 0 < Z.max sz (vaddr ph + memsz ph) ∧ aligned (vaddr ph) ∧
  (filesz ph = 0 ∨ ph_off ph + filesz ph ≤ Z.of_nat (length b)).
Proof. unfold seg_ok. rewrite !andb_true_iff, orb_true_iff, !Z.leb_le, !Z.ltb_lt, !Z.eqb_eq. unfold aligned. tauto. Qed.

Lemma plan_grows n b : ∀ off sz phs sz', plan n b off sz = Some (phs, sz') → sz ≤ sz' ∧ (sz < KERNBASE → sz' < KERNBASE).
Proof.
  induction n as [|n IH]; intros off sz phs sz' H; cbn [plan] in H; [injection H as <- <-; lia|].
  destruct (negb _); [done|]. destruct (negb _); [by eapply IH|]. destruct (seg_ok b sz _) eqn:Eok; [|done]. cbn [negb] in H.
  destruct (plan n b _ _) as [[phs1 sz1]|] eqn:E; [|done]. injection H as <- <-. apply IH in E. apply seg_ok_spec in Eok. lia.
Qed.

Lemma pages_needed_mono a c : a ≤ c → pages_needed a ≤ pages_needed c.
Proof. intros H. unfold pages_needed. assert ((a + PGSIZE - 1) / PGSIZE ≤ (c + PGSIZE - 1) / PGSIZE) by (apply Z.div_le_mono; [done|lia]). lia. Qed.

Lemma field_range off n b : bytes b → 0 ≤ field off n b < 256 ^ Z.of_nat n.
Proof.
  intros Hb. unfold field. assert (bytes (take n (drop off b))) as Hb' by (by apply Forall_take, Forall_drop).
  pose proof (le_val_range _ Hb') as H. split; [lia|]. eapply Z.lt_le_trans; [apply H|]. apply Z.pow_le_mono_r; [lia|]. rewrite length_take. lia.
Qed.

Lemma file_read_is_bytes b off n : bytes b → bytes (snd (file_read b off n)).
Proof. intros Hb. unfold file_read. destruct (_ <? _); [constructor|]. by apply Forall_take, Forall_drop. Qed.

(** Why the headers at [off] cannot be loaded. *)
Definition load_reason (n : nat) (b : list Z) (off sz : Z) : Prop :=
  match plan n b off sz with Some (_, sz') => Z.of_nat (length l0) < pages_needed sz' | None => True end.

Definition headers_loaded (n : nat) (b : list Z) (ip : nat) (off sz : Z) (img : Z → Z) (w : kworld F) (r : result (option Z * kworld F)) : Prop :=
  ∃ x w', r = Done (x, w') ∧
    match x with
    | Some sz' => ∃ phs, plan n b off sz = Some (phs, sz') ∧ load_done b ip (foldl (seg_mem b) img phs) sz' w w'
    | None => load_failed b ip w w' (load_reason n b off sz)
    end.

(** A segment that is loaded, or for which something is missing. *)
Definition exec_segment (ip : nat) (sz : Z) (ph : proghdr) (next : Z → M (kworld F) (option Z)) : M (kworld F) (option Z) :=
  if memsz ph <? filesz ph then ret None
  else if u32 (vaddr ph + memsz ph) <? vaddr ph then ret None
  else
    sz <- on_kmem (allocuvm me kend pgdir sz (u32 (vaddr ph + memsz ph)));;
    if sz =? 0 then ret None
    else if negb (vaddr ph mod PGSIZE =? 0) then ret None
    else
      r <- loaduvm me pgdir (vaddr ph) ip (ph_off ph) (filesz ph);;
      if r <? 0 then ret None else next sz.

Definition ph_wf (ph : proghdr) : Prop :=
  (0 ≤ vaddr ph < 2 ^ 32) ∧ (0 ≤ memsz ph < 2 ^ 32) ∧ (0 ≤ filesz ph < 2 ^ 32) ∧ (0 ≤ ph_off ph < 2 ^ 32).

Lemma exec_segment_ok b ip sz img ph next w :
  loaded img sz (kw_mem w) → x_locked (kw_files w) ip b → ph_wf ph → 
  (∃ w', exec_segment ip sz ph next w = Done (None, w') ∧
     load_failed b ip w w' (seg_ok b sz ph = false ∨ Z.of_nat (length l0) < pages_needed (Z.max sz (vaddr ph + memsz ph)))) ∨
  ∃ w', exec_segment ip sz ph next w = next (Z.max sz (vaddr ph + memsz ph)) w' ∧ seg_ok b sz ph = true ∧
    load_done b ip (seg_mem b img ph) (Z.max sz (vaddr ph + memsz ph)) w w'.
Proof.
  intros Hl Hf (Hv & Hm & Hfs & Ho). set (newsz := vaddr ph + memsz ph).
  assert (∀ c, c → load_failed b ip w w c) as Hsame.
  { intros c Hc. exists (kw_mem w), (kw_files w). split_and!; [by destruct w|by eapply loaded_half|done|done]. }
  assert (¬ (filesz ph ≤ memsz ph ∧ newsz < KERNBASE ∧ 0 < Z.max sz newsz ∧ aligned (vaddr ph)) → seg_ok b sz ph = false) as Hbad.
  { intros H. apply not_true_is_false. rewrite seg_ok_spec. fold newsz. tauto. }
  unfold exec_segment. destruct (Z.ltb_spec (memsz ph) (filesz ph)); [left; exists w; split; [done|]; apply Hsame; left; apply Hbad; lia|].
  pose proof Hl as (l & own & ts & us & Hld). pose proof (ld_sz _ _ _ _ _ _ _ Hld) as Hsz. fold newsz.
  destruct (decide (newsz < 2 ^ 32)) as [Hwrap|Hwrap].
  2: { left. exists w. destruct (Z.ltb_spec (u32 newsz) (vaddr ph)) as [_|Hw].
       - split; [done|]. apply Hsame. left. apply Hbad. unfold KERNBASE. lia.
       - unfold u32 in Hw. rewrite <-(Z.mod_add newsz (-1)), Z.mod_small in Hw by lia. lia. }
  rewrite (u32_small newsz) by lia. destruct (Z.ltb_spec newsz (vaddr ph)); [lia|].
  destruct (decide (newsz < KERNBASE)) as [Hk|Hk].
  2: { left. exists w. unfold bind at 1. rewrite (on_kmem_run _ w 0 (kw_mem w)).
       - split; [by destruct w|]. apply Hsame. left. apply Hbad. lia.
       - unfold allocuvm. destruct (Z.leb_spec KERNBASE newsz); [done|lia]. }
  destruct (alloc_loading _ _ newsz _ _ _ _ _ Hld ltac:(lia)) as (r & k' & E & [[-> Hl']|(-> & Hh & Hex)]);
    rewrite (bind_run _ _ _ _ _ (on_kmem_run _ _ _ _ E)).
  2: { left. eexists. split; [done|]. exists k', (kw_files w). split_and!; [done|done|done|]. right.
       eapply Z.lt_le_trans; [exact Hex|]. apply pages_needed_mono. lia. }
  destruct (Z.eqb_spec (Z.max sz newsz) 0) as [E0|E0].
  { left. eexists. split; [done|]. exists k', (kw_files w). split_and!; [done|by eapply loaded_half|done|]. left. apply Hbad. lia. }
  destruct (Z.eqb_spec (vaddr ph mod PGSIZE) 0) as [Ea|Ea]; cbn [negb].
  2: { left. eexists. split; [done|]. exists k', (kw_files w). split_and!; [done|by eapply loaded_half|done|]. left. apply Hbad. unfold aligned. tauto. }
  destruct (loaduvm_ok b ip img (Z.max sz newsz) (vaddr ph) (ph_off ph) (filesz ph) Ea ltac:(lia) ltac:(lia) ltac:(lia) ltac:(lia) Ho (setw k' (kw_files w) w) Hl' Hf)
    as (w' & [(E' & Hd & Hc)|(E' & (k2 & f2 & -> & Hh & Hf2 & Hc))]); rewrite (bind_run _ _ _ _ _ E').
  - right. exists w'. cbn [Z.ltb Z.compare]. split; [done|]. split; [|done]. apply seg_ok_spec. fold newsz. split_and!; try done; lia.
  - left. eexists. split; [done|]. exists k2, f2. split_and!; [done|done|done|]. left. apply not_true_is_false. rewrite seg_ok_spec. lia.
Qed.

Lemma u32_s32 x : u32 (s32 x) = u32 x.
Proof. unfold u32, s32. rewrite Zminus_mod_idemp_l. f_equal. lia. Qed.

Lemma exec_load_ok b ip n :
  ∀ off sz img w, loaded img sz (kw_mem w) → x_locked (kw_files w) ip b →
  headers_loaded n b ip (u32 off) sz img w (exec_load me kend n ip pgdir off sz w).
Proof.
  induction n as [|n IH]; intros off sz img w Hl Hf.
  { exists (Some sz), w. split; [done|]. exists []. split; [done|]. exists (kw_mem w), (kw_files w). split_and!; [by destruct w|done|done]. }
  pose proof (u32_range off) as Ho. destruct (x_contents _ _ _ Hf) as [Hby Hlen].
  destruct (x_readi _ _ _ (u32 off) sizeof_proghdr Hf Ho) as (f1 & E1 & Hf1); [done|].
  cbn [exec_load]. rewrite (bind_run _ _ _ _ _ (on_files_run _ _ _ _ E1)). unfold headers_loaded, load_reason. cbn [plan].
  destruct (Z.eqb_spec (fst (file_read b (u32 off) sizeof_proghdr)) sizeof_proghdr) as [Er|Er]; cbn [negb].
  2: { exists None, (setw (kw_mem w) f1 w). split; [done|]. exists (kw_mem w), f1. split_and!; [done|by eapply loaded_half|done|done]. }
  apply file_read_full in Er as [_ Hr]; [|lia|done].
  assert (u32 (s32 (off + sizeof_proghdr)) = u32 off + sizeof_proghdr) as Enext.
  { rewrite u32_s32. unfold u32 at 1. rewrite <-Zplus_mod_idemp_l. apply Z.mod_small. unfold u32, sizeof_proghdr in *. lia. }
  set (ph := proghdr_of (snd (file_read b (u32 off) sizeof_proghdr))).
  destruct (negb (ph_type ph =? ELF_PROG_LOAD)).
  { destruct (IH (s32 (off + sizeof_proghdr)) sz img (setw (kw_mem w) f1 w) Hl Hf1) as (x & w' & E & Hx). rewrite Enext in Hx. by exists x, w'. }
  assert (ph_wf ph) as Hph.
  { pose proof (file_read_is_bytes b (u32 off) sizeof_proghdr Hby) as Hbs. unfold ph_wf, ph, proghdr_of.
    cbn [vaddr memsz filesz ph_off]. split_and!; apply field_range; done. }
  destruct (exec_segment_ok b ip sz img ph (λ sz, exec_load me kend n ip pgdir (s32 (off + sizeof_proghdr)) sz) (setw (kw_mem w) f1 w) Hl Hf1 Hph)
    as [(w' & E & (k & f & -> & Hh & Hf' & Hc))|(w' & E & Hok & (k & f & -> & Hl' & Hf'))].
  - exists None, (setw k f w). split; [exact E|]. exists k, f. split_and!; [done|done|done|].
    destruct (seg_ok b sz ph); [|done]. cbn [negb]. destruct Hc as [Hc|Hc]; [done|].
    destruct (plan n b _ _) as [[phs sz']|] eqn:Ep; [|done]. apply plan_grows in Ep as [Ep _]. eapply Z.lt_le_trans; [exact Hc|]. by apply pages_needed_mono.
  - destruct (IH (s32 (off + sizeof_proghdr)) _ _ (setw k f w) Hl' Hf') as (x & w2 & E2 & Hx). rewrite Enext in Hx.
    exists x, w2. split; [exact (eq_trans E E2)|]. rewrite Hok. cbn [negb]. unfold load_reason in Hx.
    destruct x as [sz'|].
    + destruct Hx as (phs & Ep & Hd). exists (ph :: phs). rewrite Ep. done.
    + destruct Hx as (k2 & f2 & -> & Hh & Hf2 & Hc). exists k2, f2. split_and!; [done|done|done|].
      destruct (plan n b _ _) as [[phs sz']|] eqn:Ep; done.
Qed.

(** ** The stack *)

Lemma clear_user x : x mod 8 = 0 → Z.land (x + 7) (Z.lnot PTE_U) = x + 3.
Proof.
  intros Hx. assert (∀ fl, 0 ≤ fl < 8 → Z.lor x fl = x + fl) as Hl.
  { intros fl Hfl. replace x with (Z.shiftl (x / 8) 3); [rewrite Z.lor_comm, (Z_lor_shiftl_add 3); [rewrite Z.shiftl_mul_pow2|..]; lia|].
    rewrite Z.shiftl_mul_pow2 by lia. pose proof (Z.div_mod x 8 ltac:(lia)). lia. }
  rewrite <-!Hl by lia. rewrite Z.land_lor_distr_l. change (Z.land 7 (Z.lnot PTE_U)) with 3. f_equal.
  apply Z.bits_inj'. intros i Hi. rewrite Z.land_spec, Z.lnot_spec by done. destruct (decide (i = 2)) as [->|Hne].
  - rewrite <-(Z.mod_pow2_bits_low x 3 2) by lia. change (2 ^ 3) with 8. by rewrite Hx.
  - replace (Z.testbit PTE_U i) with false; [by rewrite andb_true_r|]. symmetry. change PTE_U with (2 ^ 2). apply Z.pow2_bits_false. lia.
Qed.

(** [clearpteu] of a page of the process. *)
Lemma clearpteu_ok k l own ts us va f :
  building k l own ts us → us !! va = Some (f, 7) →
  ∃ k', clearpteu me pgdir va k = Done (tt, k') ∧ building k' l own ts (<[va := (f, 3)]> us) ∧
    ∀ x, ubyte (kmem_mem k') (<[va := (f, 3)]> us) x = ubyte (kmem_mem k) us x.
Proof.
  intros Hb Hu. pose proof (bd_as _ _ _ _ _ Hb) as Hi. destruct (as_frames _ _ _ _ _ _ _ Hi _ _ _ Hu) as (Hof & Hup & _).
  destruct (user_table _ Hkend _ _ _ _ _ _ _ _ Hi Hu) as [t Et]. destruct (as_tables _ _ _ _ _ _ _ Hi _ _ Et) as [_ Hot].
  pose proof (as_pages _ _ _ _ _ _ _ Hi _ _ Hot) as Hpt. pose proof (as_pages _ _ _ _ _ _ _ Hi _ _ Hof) as Hpf.
  destruct (page_ok_v2p _ Hkend f Hpf) as (V1 & V2 & _).
  pose proof (as_pte _ _ _ _ _ _ _ Hi va Hup) as He. rewrite Hu in He. unfold entry in He. rewrite Et in He. destruct He as [He _].
  assert (V2P f mod 8 = 0) as H8.
  { unfold aligned, PGSIZE in V1. pose proof (Z.div_mod (V2P f) 4096 ltac:(lia)) as Ed. rewrite V1 in Ed. rewrite Ed, Z.add_0_r.
    change 4096 with (512 * 8). by rewrite (Z.mul_comm (512 * 8)), Z.mul_assoc, Z.mod_mul. }
  unfold clearpteu, bind at 1. rewrite (walkpgdir_find _ _ Hkend _ _ _ _ _ _ _ Hi), Et by eauto.
  rewrite (proj2 (Z.eqb_neq _ 0)) by (destruct Hpt; pose proof (PTX_range va); lia).
  unfold bind, read32, gets, write32, modify. rewrite He, clear_user by done. eexists. split; [done|].
  destruct (as_reflag kend _ k l own pgdir ts us va t f 7 3 Hi Et Hu) as [Hi' Hop]; [done|done|done|].
  set (m' := store32 _ _ _) in *. split; [eapply building_next; [exact Hb|exact Hi'|done|by apply (leaves_page kend own t); [|eexists|]]|].
  intros x. cbn [kmem_mem set_kmem_mem]. unfold ubyte. pose proof (Z.mod_pos_bound x PGSIZE eq_refl) as Hm.
  assert (∀ v g fl, us !! v = Some (g, fl) → m' (g + x mod PGSIZE) = kmem_mem k (g + x mod PGSIZE)) as Hsame.
  { intros v g fl Hg. apply Hop. destruct (as_frames _ _ _ _ _ _ _ Hi _ _ _ Hg) as (Hog & _).
    destruct (page_ok_disjoint kend t g Hpt); [by eapply (as_pages _ _ _ _ _ _ _ Hi)|congruence|lia|lia]. }
  destruct (decide (PGROUNDDOWN x = va)) as [->|Hne].
  - rewrite lookup_insert_eq, Hu. by rewrite (Hsame va f 7).
  - rewrite lookup_insert_ne by done. destruct (us !! PGROUNDDOWN x) as [[g fl]|] eqn:Eg; [|done]. by rewrite (Hsame _ _ _ Eg).
Qed.

(** The process has the bytes [bs] at [a] and can read them. *)
Definition user_bytes (m : mem) (us : gmap Z (Z * Z)) (a : Z) (bs : list Z) : Prop :=
  ∀ i, 0 ≤ i < Z.of_nat (length bs) → user_accessible us (a + i) ∧ ubyte m us (a + i) = Some (bs !!! Z.to_nat i).

(** The first [n] of these bytes go into one page. *)
Lemma write_chunk k l own ts us va f fl n (buf : list Z) :
  building k l own ts us → 0 ≤ va < KERNBASE → us !! PGROUNDDOWN va = Some (f, fl) → 0 < n ≤ Z.of_nat (length buf) →
  va mod PGSIZE + n ≤ PGSIZE →
  let k' := set_kmem_mem (write_bytes (f + (va - PGROUNDDOWN va)) (take (Z.to_nat n) buf) (kmem_mem k)) k in
  building k' l own ts us ∧ (∀ i, 0 ≤ i < n → ubyte (kmem_mem k') us (va + i) = Some (buf !!! Z.to_nat i)) ∧
  (∀ y, 0 ≤ y < KERNBASE → ¬ (va ≤ y < va + n) → ubyte (kmem_mem k') us y = ubyte (kmem_mem k) us y).
Proof.
  intros Hb Hva Hu Hn Hnp k'. pose proof (bd_as _ _ _ _ _ Hb) as Hi. destruct (as_frames _ _ _ _ _ _ _ Hi _ _ _ Hu) as (Ho & _ & _).
  pose proof (as_pages _ _ _ _ _ _ _ Hi _ _ Ho) as Hpf. destruct (PGROUNDDOWN_user va Hva) as (_ & Ev & _).
  assert (Z.of_nat (length (take (Z.to_nat n) buf)) = n) as Hlt' by (rewrite length_take; lia).
  destruct (write_page kend k l own pgdir ts us va n f fl (λ i, buf !!! Z.to_nat i) (kmem_mem k') Hi ltac:(lia) Hu ltac:(lia) Hnp)
    as (Hi' & Hin & Hout & Hop).
  { intros a. cbn. rewrite write_bytes_spec, Hlt'. replace (va - PGROUNDDOWN va) with (va mod PGSIZE) by lia. case_decide; [|done].
    rewrite !list_lookup_total_alt, lookup_take. by rewrite decide_True by lia. }
  split; [|done]. eapply building_next; [exact Hb|exact Hi'|done|by apply (leaves_page kend own f); [|eexists|]].
Qed.

Lemma copyout_bytes_loop_ok l own ts us top :
  sized us top → top ≤ KERNBASE →
  ∀ fuel va buf k, building k l own ts us → (length buf < fuel)%nat → 0 ≤ va → (buf ≠ [] → va + Z.of_nat (length buf) ≤ top) →
  ∃ r k', copyout_bytes_loop me fuel pgdir va buf k = Done (r, k') ∧ building k' l own ts us ∧
    (∀ y, 0 ≤ y < KERNBASE → ¬ (va ≤ y < va + Z.of_nat (length buf)) → ubyte (kmem_mem k') us y = ubyte (kmem_mem k) us y) ∧
    ((r = 0 ∧ user_bytes (kmem_mem k') us va buf) ∨
     (r = -1 ∧ ∃ x, va ≤ x < va + Z.of_nat (length buf) ∧ ¬ user_accessible us x)).
Proof.
  intros Hs Htop fuel. induction fuel as [|fuel IH]; intros va buf k Hb Hfuel H0 Hend; [lia|].
  cbn [copyout_bytes_loop]. destruct (Z.ltb_spec 0 (Z.of_nat (length buf))) as [Hlt|Hge].
  2: { exists 0, k. split_and!; try done. left. split; [done|]. intros i Hi. lia. }
  specialize (Hend ltac:(by intros ->)). destruct (PGROUNDDOWN_user va ltac:(lia)) as (Hup & Ev & Hm). set (va0 := PGROUNDDOWN va) in *.
  destruct (proj2 (Hs va0 Hup) ltac:(lia)) as [[f fl] Hu]. pose proof (bd_as _ _ _ _ _ Hb) as Hi.
  rewrite (bind_run _ _ _ _ _ (uva2ka_ok me kend Hkend _ _ _ _ _ _ _ _ _ Hi Hu)). destruct (Z.eqb_spec (Z.land fl PTE_U) 0) as [HU|HU].
  { exists (-1), k. split_and!; try done. right. split; [done|]. exists va. split; [lia|]. intros (f' & fl' & Hu' & HU').
    fold va0 in Hu'. congruence. }
  destruct (as_frames _ _ _ _ _ _ _ Hi _ _ _ Hu) as (Ho & _ & _). pose proof (as_pages _ _ _ _ _ _ _ Hi _ _ Ho) as Hpf.
  rewrite (proj2 (Z.eqb_neq f 0)) by (destruct Hpf; lia).
  set (n := Z.min (PGSIZE - (va - va0)) (Z.of_nat (length buf))). assert (0 < n ≤ Z.of_nat (length buf) ∧ va mod PGSIZE + n ≤ PGSIZE) as [Hn Hnp] by lia.
  destruct (write_chunk k l own ts us va f fl n buf Hb ltac:(lia) Hu Hn Hnp) as (Hb1 & Hin & Hout). set (k1 := set_kmem_mem _ k) in *.
  rewrite (bind_run (on_mem _) _ _ tt k1 eq_refl), (proj1 (next_page _ Hup)).
  destruct (IH (va0 + PGSIZE) (drop (Z.to_nat n) buf) k1 Hb1) as (r & k2 & E & Hb2 & Hout2 & Hr).
  { rewrite length_drop. lia. }
  { destruct Hup. unfold PGSIZE. lia. }
  { intros Hne. rewrite length_drop. assert (drop (Z.to_nat n) buf = [] ∨ n < Z.of_nat (length buf)) as [?|?]; [|done|lia].
    destruct (decide (n < Z.of_nat (length buf))); [by right|left; apply drop_ge; lia]. }
  rewrite length_drop in Hout2, Hr. assert (n < Z.of_nat (length buf) → va0 + PGSIZE = va + n) as Hva1 by lia.
  exists r, k2. split_and!; [exact E|done| |].
  - intros y Hy Hny. rewrite Hout2, Hout; [done|done|lia|done|lia].
  - destruct Hr as [[-> Hin2]|[-> (x & Hx & Hna)]]; [left|right; split; [done|]; exists x; split; [lia|done]].
    split; [done|]. intros i Hii. destruct (decide (i < n)) as [Hsmall|Hbig].
    + split; [exists f, fl|rewrite Hout2, Hin; [done|lia|lia|lia]].
      destruct (PGROUNDDOWN_in va0 (va mod PGSIZE + i) (proj1 Hup) ltac:(lia)) as [Ep _]. rewrite Z.add_assoc, <-Ev in Ep. by rewrite Ep.
    + destruct (Hin2 (i - n)) as [Ha2 Hb2']; [rewrite length_drop; lia|]. rewrite Hva1 in Ha2, Hb2' by lia.
      replace (va + n + (i - n)) with (va + i) in Ha2, Hb2' by lia. split; [done|]. rewrite Hb2'. f_equal.
      rewrite !list_lookup_total_alt, lookup_drop. do 2 f_equal. lia.
Qed.

Lemma copyout_bytes_ok k l own ts us top va buf :
  building k l own ts us → sized us top → top ≤ KERNBASE → 0 ≤ va → va + Z.of_nat (length buf) ≤ top →
  ∃ r k', copyout_bytes me pgdir va buf k = Done (r, k') ∧ building k' l own ts us ∧
    (∀ y, 0 ≤ y < KERNBASE → ¬ (va ≤ y < va + Z.of_nat (length buf)) → ubyte (kmem_mem k') us y = ubyte (kmem_mem k) us y) ∧
    ((r = 0 ∧ user_bytes (kmem_mem k') us va buf) ∨
     (r = -1 ∧ ∃ x, va ≤ x < va + Z.of_nat (length buf) ∧ ¬ user_accessible us x)).
Proof. intros Hb Hs Htop H0 Hend. eapply copyout_bytes_loop_ok; [exact Hs|done|done|lia|done|done]. Qed.

(** An address that wrapped around is among the devices, which the user may
    not access. *)
Lemma uva2ka_device k l own ts us va :
  building k l own ts us → kernel_layout data → aligned va → DEVSPACE ≤ va < 2 ^ 32 → uva2ka me pgdir va k = Done (0, k).
Proof.
  intros Hb [_ Hlay] Ha Hr. pose proof (bd_as _ _ _ _ _ Hb) as Hi. change (P2V PHYSTOP) with 0x8E000000 in Hlay. change KERNLINK with 0x80100000 in Hlay.
  assert (entry (kmem_mem k) ts va = va + 3) as He.
  { apply (as_kern _ _ _ _ _ _ _ Hi va); [split; [done|unfold KERNBASE, DEVSPACE in *; lia]|]. unfold kernel_entries. f_equal.
    change (P2V PHYSTOP) with 0x8E000000. change KERNLINK with 0x80100000. unfold KERNBASE, DEVSPACE in *.
    repeat match goal with |- context [?a <=? ?b] => destruct (Z.leb_spec a b) | |- context [?a <? ?b] => destruct (Z.ltb_spec a b) end; cbn [andb]; lia. }
  unfold uva2ka, bind. rewrite (walkpgdir_find _ _ Hkend _ _ _ _ _ _ _ Hi) by eauto. unfold entry in He.
  destruct (ts !! PDX va) as [t|] eqn:Et; [|unfold DEVSPACE in *; lia]. destruct (as_tables _ _ _ _ _ _ _ Hi _ _ Et) as [_ Hot].
  pose proof (as_pages _ _ _ _ _ _ _ Hi _ _ Hot) as Hpt. unfold deref. rewrite (proj2 (Z.eqb_neq _ 0)) by (destruct Hpt; pose proof (PTX_range va); lia).
  unfold read32, gets. rewrite He. assert (Z.land (va + 3) (Z.ones 3) = 3) as E3 by (by rewrite land_low).
  assert (Z.land (va + 3) PTE_U = 0) as EU by (change PTE_U with (Z.land (Z.ones 3) PTE_U); by rewrite Z.land_assoc, E3).
  rewrite EU. by destruct (Z.land (va + 3) PTE_P =? 0).
Qed.

(** An argument so long that the stack pointer wraps around to an address
    without a page table makes [copyout] read through a null pointer. *)
Lemma long_argument_faults k l own ts us s argv argc sp ustack :
  building k l own ts us → (argc < MAXARG)%nat →
  ts !! PDX (PGROUNDDOWN (Z.land (u32 (sp - (Z.of_nat (length s) + 1))) (Z.lnot 3))) = None →
  push_args me pgdir (s :: argv) argc sp ustack k = Fail (EOob "null").
Proof.
  intros Hb Hargc Ht. cbn [push_args]. destruct (Nat.leb_spec MAXARG argc); [lia|]. unfold bind at 1, copyout_bytes. cbn [copyout_bytes_loop].
  destruct (Z.ltb_spec 0 (Z.of_nat (length (s ++ [0])))); [|rewrite length_app in *; cbn [length] in *; lia].
  unfold bind at 1. by rewrite (uva2ka_null me kend Hkend _ _ _ _ _ _ _ (bd_as _ _ _ _ _ Hb) Ht).
Qed.

Section stack.
Context (l : list Z) (own : gmap Z role) (ts : gmap Z Z) (us : gmap Z (Z * Z)) (top : Z).
Context (Hlay : kernel_layout data) (Hsized : sized us top) (Htop : 2 * PGSIZE ≤ top < KERNBASE).
Context (Hguard : ∀ x, top - 2 * PGSIZE ≤ x < top - PGSIZE → ¬ user_accessible us x).
Context (Hstack : ∀ x, top - PGSIZE ≤ x < top → user_accessible us x).

Lemma round4 x : Z.land x (Z.lnot 3) = x / 4 * 4 ∧ x - 3 ≤ x / 4 * 4 ≤ x.
Proof.
  change 3 with (Z.ones 2). rewrite land_lnot_ones by lia. change (2 ^ 2) with 4.
  pose proof (Z.div_mod x 4 ltac:(lia)). pose proof (Z.mod_pos_bound x 4 ltac:(lia)). change (Z.ones 2) with 3. lia.
Qed.

(** Copying to an address that wrapped around fails. *)
Lemma copyout_wrapped k va buf :
  building k l own ts us → DEVSPACE ≤ va < 2 ^ 32 → buf ≠ [] → copyout_bytes me pgdir va buf k = Done (-1, k).
Proof.
  intros Hb Hva Hne. unfold copyout_bytes. cbn [copyout_bytes_loop]. destruct buf as [|x buf]; [done|].
  destruct (Z.ltb_spec 0 (Z.of_nat (length (x :: buf)))); [|cbn [length] in *; lia].
  assert (aligned (PGROUNDDOWN va)) as Ha by (unfold aligned; rewrite PGROUNDDOWN_eq, Zminus_mod_idemp_r, Z.sub_diag; done).
  assert (DEVSPACE ≤ PGROUNDDOWN va < 2 ^ 32) as Hr.
  { rewrite PGROUNDDOWN_eq. pose proof (Z.mod_pos_bound va PGSIZE eq_refl). pose proof (Z.div_mod va PGSIZE ltac:(done)). unfold DEVSPACE, PGSIZE in *. lia. }
  by rewrite (bind_run _ _ _ _ _ (uva2ka_device k l own ts us (PGROUNDDOWN va) Hb Hlay Ha Hr)).
Qed.

(** Copying to the stack succeeds if it stays above the guard page. *)
Lemma copyout_stack k va buf :
  building k l own ts us → 0 ≤ va → buf ≠ [] → top - PGSIZE - 3 ≤ va + Z.of_nat (length buf) ≤ top →
  ∃ r k', copyout_bytes me pgdir va buf k = Done (r, k') ∧ building k' l own ts us ∧
    ((r = 0 ∧ top - PGSIZE ≤ va ∧ user_bytes (kmem_mem k') us va buf ∧
        ∀ y, 0 ≤ y < KERNBASE → ¬ (va ≤ y < va + Z.of_nat (length buf)) → ubyte (kmem_mem k') us y = ubyte (kmem_mem k) us y) ∨
     (r = -1 ∧ va < top - PGSIZE)).
Proof.
  intros Hb H0 Hne Hend. assert (0 < Z.of_nat (length buf)) by (destruct buf; [done|cbn [length]; lia]).
  destruct (copyout_bytes_ok k l own ts us top va buf Hb Hsized) as (r & k' & E & Hb' & Hout & Hr); [lia|lia|lia|].
  exists r, k'. split; [done|]. split; [done|]. destruct Hr as [[-> Hub]|[-> (x & Hx & Hna)]]; [left|right]; (split; [done|]).
  - split; [|done]. destruct (decide (top - PGSIZE ≤ va)) as [|Hlow]; [done|exfalso].
    set (x := Z.max va (top - 2 * PGSIZE)). apply (Hguard x); [unfold x, PGSIZE in *; lia|].
    replace x with (va + (x - va)) by lia. apply Hub. unfold x, PGSIZE in *. lia.
  - destruct (decide (top - PGSIZE ≤ va)) as [Hhigh|]; [exfalso|lia]. apply Hna, Hstack. lia.
Qed.

(** One argument: it is on the stack, or it does not fit. *)
Lemma push_one k s sp :
  building k l own ts us → top - PGSIZE ≤ sp ≤ top → Z.of_nat (length s) < 2 ^ 25 →
  let n := Z.of_nat (length s) + 1 in
  let sp' := (sp - n) / 4 * 4 in
  ∃ r k', copyout_bytes me pgdir (Z.land (u32 (sp - n)) (Z.lnot 3)) (s ++ [0]) k = Done (r, k') ∧ building k' l own ts us ∧
    ((r = 0 ∧ top - PGSIZE ≤ sp' ∧ sp' ≤ sp ∧ Z.land (u32 (sp - n)) (Z.lnot 3) = sp' ∧ user_bytes (kmem_mem k') us sp' (s ++ [0]) ∧
        ∀ y, 0 ≤ y < KERNBASE → y < sp' ∨ sp ≤ y → ubyte (kmem_mem k') us y = ubyte (kmem_mem k) us y) ∨
     (r = -1 ∧ sp' < top - PGSIZE)).
Proof.
  intros Hb Hsp Hlen n sp'. destruct (round4 (sp - n)) as [E4 R4]. fold sp' in R4. unfold KERNBASE in Htop.
  assert (Z.of_nat (length (s ++ [0])) = n) as Hn by (rewrite length_app; cbn; lia).
  destruct (decide (0 ≤ sp - n)) as [Hpos|Hneg].
  - rewrite u32_small by lia. rewrite E4. fold sp'. assert (0 ≤ sp') by (unfold sp'; apply Z.mul_nonneg_nonneg; [apply Z.div_pos|]; lia).
    destruct (copyout_stack k sp' (s ++ [0]) Hb ltac:(done) ltac:(by destruct s) ltac:(lia)) as (r & k' & E & Hb' & Hr).
    rewrite Hn in Hr. exists r, k'. split; [done|]. split; [done|]. destruct Hr as [(-> & Hlow & Hub & Hout)|Hr]; [left|by right].
    split_and!; try done; [lia|]. intros y Hy Hny. apply Hout; [done|lia].
  - assert (u32 (sp - n) = sp - n + 2 ^ 32) as Eu.
    { unfold u32. rewrite <-(Z.mod_add _ 1), Z.mod_small by (unfold PGSIZE in *; lia). lia. }
    rewrite Eu. destruct (round4 (sp - n + 2 ^ 32)) as [E4' R4']. rewrite E4'.
    rewrite copyout_wrapped; [|done|unfold DEVSPACE, PGSIZE in *; lia|by destruct s]. exists (-1), k. split; [done|]. split; [done|]. right.
    split; [done|]. unfold PGSIZE in *. lia.
Qed.

Lemma lay_args_le argv : ∀ sp, snd (lay_args argv sp) ≤ sp.
Proof.
  induction argv as [|s argv IH]; intros sp; cbn [lay_args snd]; [lia|].
  destruct (round4 (sp - (Z.of_nat (length s) + 1))) as [_ R]. etrans; [apply IH|lia].
Qed.

Lemma length_lay_args argv sp : length (fst (lay_args argv sp)) = length argv.
Proof. revert sp. induction argv as [|s argv IH]; intros sp; cbn [lay_args fst length]; [done|]. by rewrite IH. Qed.

Lemma user_bytes_same m m' a bs :
  user_bytes m us a bs → (∀ y, a ≤ y < a + Z.of_nat (length bs) → ubyte m' us y = ubyte m us y) → user_bytes m' us a bs.
Proof. intros H Hs i Hi. destruct (H i Hi) as [H1 H2]. split; [done|]. rewrite Hs by lia. done. Qed.

Definition args_pushed (argv : list (list Z)) (argc : nat) (sp : Z) (ustack : list Z) (k : kmem) (r : option (Z * nat * list Z)) (k' : kmem) : Prop :=
  match r with
  | Some (sp', argc', ustack') =>
      argc' = (argc + length argv)%nat ∧ ((argc' ≤ MAXARG)%nat ∨ argv = []) ∧ sp' = snd (lay_args argv sp) ∧ top - PGSIZE ≤ sp' ∧
      ustack' = splice (3 + argc) (fst (lay_args argv sp)) ustack ∧
      Forall2 (λ s p, user_bytes (kmem_mem k') us p (s ++ [0])) argv (fst (lay_args argv sp)) ∧
      ∀ y, 0 ≤ y < KERNBASE → y < top - PGSIZE ∨ sp ≤ y → ubyte (kmem_mem k') us y = ubyte (kmem_mem k) us y
  | None => (MAXARG < argc + length argv)%nat ∨ snd (lay_args argv sp) < top - PGSIZE
  end.

Lemma push_args_ok argv :
  ∀ argc sp ustack k, building k l own ts us → top - PGSIZE ≤ sp ≤ top → Forall (λ s, Z.of_nat (length s) < 2 ^ 25) argv →
  length ustack = (3 + MAXARG + 1)%nat →
  ∃ r k', push_args me pgdir argv argc sp ustack k = Done (r, k') ∧ building k' l own ts us ∧ args_pushed argv argc sp ustack k r k'.
Proof.
  induction argv as [|s argv IH]; intros argc sp ustack k Hb Hsp Hlen Hu.
  { exists (Some (sp, argc, ustack)), k. split; [done|]. split; [done|]. cbn. rewrite Nat.add_0_r. split_and!; try done; [by right|lia|].
    by rewrite take_drop. }
  apply Forall_cons in Hlen as [Hs Hlen]. cbn [push_args]. destruct (Nat.leb_spec MAXARG argc) as [Hmax|Hmax].
  { exists None, k. split; [done|]. split; [done|]. left. cbn [length]. lia. }
  destruct (push_one k s sp Hb Hsp Hs) as (r & k1 & E1 & Hb1 & Hr). rewrite (bind_run _ _ _ _ _ E1).
  set (sp' := (sp - (Z.of_nat (length s) + 1)) / 4 * 4) in *. destruct Hr as [(-> & Hlow & Hle & Esp & Hub & Hsame)|(-> & Hlow)].
  2: { exists None, k1. split; [done|]. split; [done|]. right. cbn [lay_args snd]. fold sp'. pose proof (lay_args_le argv sp'). lia. }
  cbn [Z.ltb Z.compare]. rewrite Esp.
  destruct (IH (S argc) sp' (<[(3 + argc)%nat := sp']> ustack) k1 Hb1) as (r & k2 & E2 & Hb2 & Hr); [lia|done|by rewrite length_insert|].
  exists r, k2. split; [done|]. split; [done|]. unfold args_pushed in *. cbn [lay_args fst snd length]. fold sp'.
  destruct r as [[[sp2 argc2] u2]|]; [|by destruct Hr; [left; lia|right]].
  destruct Hr as (Ec & Hm & Es & Hl2 & Eu & Hf & Hsame2). subst argc2. split_and!; try done.
  - lia.
  - left. destruct Hm as [Hm| ->]; cbn [length] in *; lia.
  - subst u2. replace (3 + S argc)%nat with (3 + argc + 1)%nat by lia. rewrite splice_insert; [done|]. unfold MAXARG in *. lia.
  - constructor; [|done]. eapply user_bytes_same; [exact Hub|]. intros y Hy. rewrite length_app in Hy. cbn [length] in Hy.
    destruct (round4 (sp - (Z.of_nat (length s) + 1))) as [_ R]. fold sp' in R. unfold PGSIZE in *. apply Hsame2; lia.
  - intros y Hy Hny. rewrite Hsame2, Hsame; [done|done| |done|]; lia.
Qed.

Lemma lay_args_ge argv : ∀ sp, Forall (λ p, snd (lay_args argv sp) ≤ p) (fst (lay_args argv sp)).
Proof. induction argv as [|s argv IH]; intros sp; cbn [lay_args fst snd]; [constructor|]. constructor; [apply lay_args_le|apply IH]. Qed.

Lemma ubyte_high k m y : building k l own ts us → KERNBASE ≤ y → ubyte m us y = None.
Proof.
  intros Hb Hy. unfold ubyte. destruct (us !! PGROUNDDOWN y) as [[f fl]|] eqn:E; [|done].
  destruct (as_frames _ _ _ _ _ _ _ (bd_as _ _ _ _ _ Hb) _ _ _ E) as (_ & [_ Hr] & _). rewrite PGROUNDDOWN_eq in Hr.
  pose proof (Z.div_mod y PGSIZE ltac:(done)). pose proof (Z.mod_pos_bound y PGSIZE eq_refl). unfold KERNBASE, PGSIZE in *. lia.
Qed.

(** Strings above [e] stay when nothing there changes. *)
Lemma args_kept m m' e argv ptrs :
  Forall2 (λ s p, user_bytes m us p (s ++ [0])) argv ptrs → Forall (λ p, e ≤ p) ptrs → (∀ y, e ≤ y → ubyte m' us y = ubyte m us y) →
  Forall2 (λ s p, user_bytes m' us p (s ++ [0])) argv ptrs.
Proof.
  intros Hf Hge Hs. induction Hf as [|s p argv ptrs Hp Hf IH]; constructor; apply Forall_cons in Hge as [Hep Hge]; [|by apply IH].
  eapply user_bytes_same; [exact Hp|]. intros y Hy. apply Hs. lia.
Qed.

(** The words below the strings. *)
Lemma ustack_words ptrs a b c :
  (length ptrs ≤ MAXARG)%nat →
  take (3 + length ptrs + 1) (<[2%nat := c]> (<[1%nat := b]> (<[0%nat := a]> (<[(3 + length ptrs)%nat := 0]>
    (splice 3 ptrs (replicate (3 + MAXARG + 1) 0)))))) = [a; b; c] ++ ptrs ++ [0].
Proof.
  intros Hl. assert (splice 3 ptrs (replicate (3 + MAXARG + 1) 0) = 0 :: 0 :: 0 :: ptrs ++ 0 :: replicate (MAXARG - length ptrs) 0) as E.
  { unfold splice. rewrite drop_replicate, take_replicate, Nat.min_l by (unfold MAXARG; lia). cbn [replicate app]. do 4 f_equal.
    replace (3 + MAXARG + 1 - (3 + length ptrs))%nat with (S (MAXARG - length ptrs)) by lia. done. }
  rewrite E, (list_insert_id _ (3 + length ptrs)).
  2: { cbn [Nat.add lookup list_lookup]. by apply list_lookup_middle. }
  cbn [insert list_insert Nat.add take app]. do 3 f_equal. rewrite take_app_ge by lia. f_equal.
  replace (length ptrs + 1 - length ptrs)%nat with 1%nat by lia. done.
Qed.

Lemma words_length (ws : list Z) : length (concat (le_bytes 4 <$> ws)) = (4 * length ws)%nat.
Proof. induction ws as [|w ws IH]; [done|]. rewrite fmap_cons. cbn [concat]. rewrite length_app, IH, length_le_bytes. cbn [length]. lia. Qed.

Definition stack_words (ptrs : list Z) (sp : Z) : list Z := [0xffffffff; Z.of_nat (length ptrs); sp + 12] ++ ptrs ++ [0].

(** What is on the stack when the program starts: the words at [sp] and the
    strings they point to. *)
Record stack_image (argv : list (list Z)) (m : mem) (sp : Z) : Prop := {
  si_fits : args_fit argv top = true;
  si_sp : sp = snd (lay_args argv top) - 4 * (4 + Z.of_nat (length argv));
  si_words : user_bytes m us sp (concat (le_bytes 4 <$> stack_words (fst (lay_args argv top)) sp));
  si_args : Forall2 (λ s p, user_bytes m us p (s ++ [0])) argv (fst (lay_args argv top));
}.

(** The rest of [exec_stack]. *)
Definition exec_ustack (argv : list (list Z)) : M kmem (option (Z * Z)) :=
  r <- push_args me pgdir argv 0 top (replicate (3 + MAXARG + 1) 0);;
  match r with
  | None => ret None
  | Some (sp, argc, ustack) =>
      let ustack := <[(3 + argc)%nat := 0]> ustack in
      let ustack := <[0%nat := 0xffffffff]> ustack in
      let ustack := <[1%nat := Z.of_nat argc]> ustack in
      let ustack := <[2%nat := u32 (sp - (Z.of_nat argc + 1) * 4)]> ustack in
      let sp := u32 (sp - (3 + Z.of_nat argc + 1) * 4) in
      r <- copyout_bytes me pgdir sp (concat (le_bytes 4 <$> take (3 + argc + 1) ustack));;
      if r <? 0 then ret None else ret (Some (top, sp))
  end.

Lemma exec_ustack_ok argv k :
  building k l own ts us → Forall (λ s, Z.of_nat (length s) < 2 ^ 25) argv →
  ∃ r k', exec_ustack argv k = Done (r, k') ∧ building k' l own ts us ∧
    match r with
    | Some (top', sp) => top' = top ∧ stack_image argv (kmem_mem k') sp ∧
        ∀ y, 0 ≤ y < top - PGSIZE → ubyte (kmem_mem k') us y = ubyte (kmem_mem k) us y
    | None => args_fit argv top = false
    end.
Proof.
  intros Hb Hlen. destruct (push_args_ok argv 0 top (replicate (3 + MAXARG + 1) 0) k Hb ltac:(unfold PGSIZE; lia) Hlen ltac:(by rewrite length_replicate))
    as (r & k1 & E1 & Hb1 & Hr). unfold exec_ustack. rewrite (bind_run _ _ _ _ _ E1). destruct r as [[[e argc] u]|].
  2: { exists None, k1. split; [done|]. split; [done|]. unfold args_fit. cbn [args_pushed] in Hr. rewrite Nat.add_0_l in Hr.
       destruct (Nat.leb_spec (length argv) MAXARG); [|done]. destruct (Z.leb_spec (top - PGSIZE) (snd (lay_args argv top) - 4 * (4 + Z.of_nat (length argv)))); [|done]. lia. }
  destruct Hr as (Ec & Hm & Ee & Hlow & Eu & Hf & Hsame). rewrite Nat.add_0_l in Ec. subst argc u.
  assert (length argv ≤ MAXARG)%nat as Hmax by (destruct Hm as [?| ->]; [done|cbn; lia]).
  set (ptrs := fst (lay_args argv top)) in *. assert (length ptrs = length argv) as Hpl by apply length_lay_args.
  pose proof (lay_args_le argv top) as Hle. rewrite <-Ee in Hle. unfold KERNBASE, MAXARG, PGSIZE in Htop, Hmax, Hlow.
  set (sp := e - 4 * (4 + Z.of_nat (length argv))).
  rewrite (u32_small (e - (Z.of_nat (length argv) + 1) * 4)), (u32_small (e - (3 + Z.of_nat (length argv) + 1) * 4)) by lia.
  replace (e - (3 + Z.of_nat (length argv) + 1) * 4) with sp by (unfold sp; lia).
  replace (e - (Z.of_nat (length argv) + 1) * 4) with (sp + 12) by (unfold sp; lia).
  rewrite <-Hpl. rewrite Nat.add_0_r, ustack_words by (unfold MAXARG; lia). fold (stack_words ptrs sp).
  set (ws := concat _). assert (Z.of_nat (length ws) = 4 * (4 + Z.of_nat (length argv))) as Hws.
  { unfold ws, stack_words. rewrite words_length, !length_app. cbn [length]. lia. }
  destruct (copyout_stack k1 sp ws Hb1 ltac:(unfold sp; lia)) as (r & k2 & E2 & Hb2 & Hr); [intros Hn; rewrite Hn in Hws; cbn in Hws; lia|unfold sp, PGSIZE; lia|].
  rewrite (bind_run _ _ _ _ _ E2). unfold args_fit. rewrite (proj2 (Nat.leb_le _ _)) by (unfold MAXARG; lia). rewrite <-Ee. fold sp.
  destruct Hr as [(-> & Hsp & Hub & Hout)|(-> & Hsp)].
  2: { exists None, k2. split; [done|]. split; [done|]. destruct (Z.leb_spec (top - PGSIZE) sp); [lia|done]. }
  exists (Some (top, sp)), k2. split; [done|]. split; [done|]. split; [done|]. split.
  - split; [|by rewrite <-Ee|done|].
    + unfold args_fit. rewrite (proj2 (Nat.leb_le _ _)) by (unfold MAXARG; lia). rewrite <-Ee. fold sp. by apply Z.leb_le.
    + apply (args_kept (kmem_mem k1) _ e); [done|rewrite Ee; apply lay_args_ge|]. intros y Hy. destruct (decide (y < KERNBASE)).
      * apply Hout; [lia|unfold sp; lia].
      * by rewrite !(ubyte_high k1) by (done || lia).
  - intros y Hy. rewrite Hout, Hsame; [done|unfold KERNBASE, PGSIZE in *; lia|by left; lia|unfold KERNBASE, PGSIZE in *; lia|unfold PGSIZE in *; lia].
Qed.
End stack.

(** The whole program in memory. *)
Record program (img : Z → Z) (sz : Z) (argv : list (list Z)) (m : mem) (us : gmap Z (Z * Z)) (top sp : Z) : Prop := {
  pg_top : top = stack_top sz;
  pg_bound : top < KERNBASE;
  pg_sized : sized us top;
  pg_image x : 0 ≤ x < PGROUNDUP sz → user_accessible us x ∧ ubyte m us x = Some (img x);
  pg_guard x : top - 2 * PGSIZE ≤ x < top - PGSIZE → ¬ user_accessible us x;
  pg_stack : stack_image us top argv m sp;
}.

Lemma loading_roundup img sz k l own ts us :
  loading img sz k l own ts us → PGROUNDUP sz < KERNBASE → loading img (PGROUNDUP sz) k l own ts us.
Proof.
  intros [H1 H2 H3 H4 H5 H6] Hlt. destruct (PGROUNDUP_user sz ltac:(lia)) as (R1 & R2 & R3). split; try done.
  - lia.
  - intros va Hva. rewrite (H3 va Hva). symmetry. apply PGROUNDUP_lt; [lia|apply Hva].
  - rewrite PGROUNDUP_aligned; [done|unfold KERNBASE, PGSIZE in *; lia|done].
  - intros x Hx. apply H6. lia.
Qed.

(** The guard page and the pages that stay accessible. *)
Lemma guard_page us top f :
  aligned top → 2 * PGSIZE ≤ top < KERNBASE → sized us top → (∀ va f fl, us !! va = Some (f, fl) → fl = 7) →
  let us' := <[top - 2 * PGSIZE := (f, 3)]> us in
  sized us' top ∧ (∀ x, top - 2 * PGSIZE ≤ x < top - PGSIZE → ¬ user_accessible us' x) ∧
  (∀ x, 0 ≤ x < top → ¬ (top - 2 * PGSIZE ≤ x < top - PGSIZE) → user_accessible us' x).
Proof.
  intros Ha Hr Hs Hf us'. assert (aligned (top - 2 * PGSIZE)) as Hag by (unfold aligned in *; by rewrite Zminus_mod, Ha).
  assert (∀ x, top - 2 * PGSIZE ≤ x < top - PGSIZE → PGROUNDDOWN x = top - 2 * PGSIZE) as Hin.
  { intros x Hx. replace x with (top - 2 * PGSIZE + (x - (top - 2 * PGSIZE))) by lia. apply (PGROUNDDOWN_in _ _ Hag). lia. }
  split_and!.
  - intros va Hva. rewrite <-(Hs va Hva). unfold us'. destruct (decide (va = top - 2 * PGSIZE)) as [->|]; [|by rewrite lookup_insert_ne].
    rewrite lookup_insert_eq, (Hs _ Hva). unfold PGSIZE. split; [lia|by eexists].
  - intros x Hx (f' & fl & Hu & HU). rewrite (Hin x Hx) in Hu. unfold us' in Hu. rewrite lookup_insert_eq in Hu. by injection Hu as <- <-.
  - intros x Hx Hnx. destruct (PGROUNDDOWN_user x ltac:(lia)) as (Hup & Ex & Hm). destruct (proj2 (Hs _ Hup) ltac:(lia)) as [[g fl] Hg].
    pose proof (Hf _ _ _ Hg) as ->. exists g, 7. split; [|done]. unfold us'. rewrite lookup_insert_ne; [done|]. intros E. lia.
Qed.

Lemma exec_stack_ok img sz argv k :
  loaded img sz k → kernel_layout data → Forall (λ s, Z.of_nat (length s) < 2 ^ 25) argv →
  ∃ r k', exec_stack me kend pgdir sz argv k = Done (r, k') ∧
    match r with
    | Some (top, sp) => ∃ l own ts us, building k' l own ts us ∧ program img sz argv (kmem_mem k') us top sp
    | None => half_built k' ∧ (KERNBASE ≤ stack_top sz ∨ args_fit argv (stack_top sz) = false ∨ Z.of_nat (length l0) < pages_needed (stack_top sz))
    end.
Proof.
  intros (l & own & ts & us & Hl) Hlay Hlen. pose proof (ld_sz _ _ _ _ _ _ _ Hl) as Hsz. destruct (PGROUNDUP_user sz ltac:(lia)) as (R1 & R2 & R3).
  unfold exec_stack. rewrite u32_small by (unfold KERNBASE, PGSIZE in *; lia). fold (stack_top sz). set (top := stack_top sz).
  destruct (decide (top < KERNBASE)) as [Htop|Htop].
  2: { exists None, k. rewrite (bind_run _ _ _ 0 k) by (unfold allocuvm; destruct (Z.leb_spec KERNBASE top); [done|lia]).
       split; [done|]. split; [by exists l, own, ts, us; apply Hl|left; lia]. }
  assert (2 * PGSIZE ≤ top) as Hlow by (unfold top, stack_top; lia).
  apply loading_roundup in Hl; [|unfold top, stack_top, PGSIZE in *; lia].
  destruct (alloc_loading _ _ top _ _ _ _ _ Hl ltac:(unfold PGSIZE in *; lia)) as (r & k1 & E1 & [[-> Hl1]|(-> & Hh & Hex)]); rewrite (bind_run _ _ _ _ _ E1).
  2: { exists None, k1. split; [done|]. split; [done|by right; right]. }
  rewrite Z.max_r in * by (unfold top, stack_top, PGSIZE in *; lia). destruct (Z.eqb_spec top 0); [unfold PGSIZE in *; lia|].
  destruct Hl1 as (l1 & own1 & ts1 & us1 & [Hb1 Hs1 Hd1 Hf1 Hi1 Hz1]).
  assert (aligned top) as Hat by (unfold aligned, top, stack_top in *; rewrite Z.add_mod, R1 by done; done).
  assert (user_page (top - 2 * PGSIZE)) as Hug by (split; [unfold aligned in *; by rewrite Zminus_mod, Hat|unfold PGSIZE in *; lia]).
  destruct (proj2 (Hd1 _ Hug) ltac:(unfold PGSIZE; lia)) as [[f fl] Hu]. pose proof (Hf1 _ _ _ Hu) as ->.
  rewrite (u32_small (top - 2 * PGSIZE)) by (unfold KERNBASE, PGSIZE in *; lia).
  destruct (clearpteu_ok k1 l1 own1 ts1 us1 (top - 2 * PGSIZE) f Hb1 Hu) as (k2 & E2 & Hb2 & Hu2). rewrite (bind_run _ _ _ _ _ E2).
  destruct (guard_page us1 top f Hat ltac:(lia) Hd1 Hf1) as (Hs2 & Hg2 & Ha2). set (us2 := <[_ := _]> us1) in *.
  destruct (exec_ustack_ok l1 own1 ts1 us2 top Hlay Hs2 ltac:(lia) Hg2 ltac:(intros x Hx; apply Ha2; unfold PGSIZE in *; lia) argv k2 Hb2 Hlen)
    as (r & k3 & E3 & Hb3 & Hr). exists r, k3. split; [exact E3|]. destruct r as [[top' sp]|].
  2: { split; [by exists l1, own1, ts1, us2|by right; left]. }
  destruct Hr as (-> & Hst & Hsame). exists l1, own1, ts1, us2. split; [done|]. split; try done.
  intros x Hx. assert (0 ≤ x < top - 2 * PGSIZE) as Hx' by (unfold top, stack_top; lia).
  split; [apply Ha2; unfold PGSIZE in *; lia|]. rewrite Hsame, Hu2 by (unfold PGSIZE in *; lia). apply Hi1.
  destruct (PGROUNDUP_user top ltac:(unfold PGSIZE in *; lia)). unfold PGSIZE in *. lia.
Qed.
End spec.

(** ** [exec] *)

Section run.
Context {F : Type} `{!FileEnv F, !ExecEnv F, !ExecEnvSpec F}.
Context (me : nat) (kend data ts_addr : Z) (Hkend : KERNBASE < kend) (Hlay : kernel_layout data).
Context (kern : Z → option Z).

(** The kernel with other memory and other files. *)
Definition sett (k : kmem) (f : F) (t : pst (kworld F)) : pst (kworld F) :=
  mk_pst (pt_lock t) (procs t) (initproc t) (nextpid t) (setw k f (world t)).

Lemma env_kmem_run {A} (m : M kmem A) k f t a k' : m k = Done (a, k') → env (on_kmem m) (sett k f t) = Done (a, sett k' f t).
Proof. intros E. unfold env, zoom. cbn [world sett]. by rewrite (on_kmem_run _ _ _ _ (E : m (kw_mem (setw k f (world t))) = _)). Qed.

Lemma env_files_run {A} (m : M F A) k f t a f' : m f = Done (a, f') → env (on_files m) (sett k f t) = Done (a, sett k f' t).
Proof. intros E. unfold env, zoom. cbn [world sett]. by rewrite (on_files_run _ _ _ _ (E : m (kw_files (setw k f (world t))) = _)). Qed.

Lemma env_world_run {A} (m : M (kworld F) A) k f t a k' f' :
  m (setw k f (world t)) = Done (a, setw k' f' (world t)) → env m (sett k f t) = Done (a, sett k' f' t).
Proof. intros E. unfold env, zoom. cbn [world sett]. by rewrite E. Qed.

Lemma sett_id t : sett (kw_mem (world t)) (kw_files (world t)) t = t.
Proof. by destruct t as [? ? ? ? []]. Qed.

(** Why a program is not run. *)
Definition exec_reason (b : list Z) (argv : list (list Z)) (l : list Z) : Prop :=
  match elf_plan b with
  | Some (_, _, sz) => can_exec b argv = false ∨ Z.of_nat (length l) < pages_needed (stack_top sz)
  | None => True
  end.

(** The process is as it was: the same pages, contents and free pages. *)
Record unchanged (t : pst (kworld F)) (p : nat) (l : list Z) (own : gmap Z role) (ts : gmap Z Z) (us : gmap Z (Z * Z)) (t' : pst (kworld F)) : Prop := {
  un_state : ∃ k' f', t' = sett k' f' t;
  un_mem : ∃ l', pmem kend kern t' p l' (reown l' own) ts us (p_sz (procs t !!! p)) ∧ ∀ q, q ∈ l' ↔ q ∈ l;
  un_bytes x : ubyte (kmem_mem (kw_mem (world t'))) us x = ubyte (kmem_mem (kw_mem (world t))) us x;
}.

(** The process runs the program in [b]. *)
Record replaced (t : pst (kworld F)) (p : nat) (path : list Z) (argv : list (list Z)) (own : gmap Z role) (b : list Z) (t' : pst (kworld F)) : Prop := {
  re_program : ∃ elf phs sz d top sp l' own' ts' us',
    elf_plan b = Some (elf, phs, sz) ∧
    let q := procs t !!! p in
    procs t' = <[p := set_tf (tf_ptr q) (set_eip_esp (elf_entry elf) sp (tf q)) (set_sz top (set_pgdir d
      (set_name (copy_name (last_elem path path) (p_name q)) q)))]> (procs t) ∧
    pmem kend (kernel_entries data) t' p l' own' ts' us' top ∧ dom own' = dom own ∧
    program (image b phs) sz argv (kmem_mem (kw_mem (world t'))) us' top sp ∧ cr3 (kw_cpu (world t')) = V2P d;
  re_others : pt_lock t' = pt_lock t ∧ initproc t' = initproc t ∧ nextpid t' = nextpid t ∧ kw_clock (world t') = kw_clock (world t);
}.

Lemma unchanged_sett t p l own ts us k' f' l' :
  pmem kend kern t p l own ts us (p_sz (procs t !!! p)) → as_inv kend kern k' l' (reown l' own) (p_pgdir (procs t !!! p)) ts us →
  (∀ q, q ∈ l' ↔ q ∈ l) → leaves kend (free_pages l) (kmem_mem (kw_mem (world t))) (kmem_mem k') → unchanged t p l own ts us (sett k' f' t).
Proof.
  intros [Hp Ha Hs Hz Hk Hc] Hi Hl Hle. split; [by exists k', f'|exists l'; split; [by split|done]|].
  intros x. cbn. unfold ubyte. destruct (us !! PGROUNDDOWN x) as [[f fl]|] eqn:Eu; [|done]. f_equal.
  destruct (as_frames _ _ _ _ _ _ _ Ha _ _ _ Eu) as (Ho & _). apply (Hle f); [by eapply (as_pages _ _ _ _ _ _ _ Ha)| |].
  - apply not_elem_of_dom. rewrite free_pages_dom, elem_of_list_to_set, (as_free _ _ _ _ _ _ _ Ha). congruence.
  - pose proof (Z.mod_pos_bound x PGSIZE eq_refl). lia.
Qed.

(** When nothing was allocated. *)
Lemma unchanged_files t p l own ts us f' :
  pmem kend kern t p l own ts us (p_sz (procs t !!! p)) → unchanged t p l own ts us (sett (kw_mem (world t)) f' t).
Proof.
  intros Hp. pose proof (pm_as _ _ _ _ _ _ _ _ _ Hp) as Ha. eapply (unchanged_sett _ _ l); [done| |done|done].
  apply (as_bystander _ _ _ _ _ _ _ _ _ _ Ha (as_kmem _ _ _ _ _ _ _ Ha)); [done|done].
Qed.

(** The label [bad], with the file still locked. *)
Lemma exec_bad_locked t p l own ts us k f d ip b :
  pmem kend kern t p l own ts us (p_sz (procs t !!! p)) → x_locked f ip b →
  (d = 0 ∧ (∃ l', as_inv kend kern k l' (reown l' own) (p_pgdir (procs t !!! p)) ts us ∧ (∀ q, q ∈ l' ↔ q ∈ l)) ∧
     leaves kend (free_pages l) (kmem_mem (kw_mem (world t))) (kmem_mem k)) ∨ (d ≠ 0 ∧ half_built kend data (kw_mem (world t)) l d k) →
  ∃ t', exec_bad me kend d (Some ip) (sett k f t) = Done (-1, t') ∧ x_idle (kw_files (world t')) ∧ unchanged t p l own ts us t'.
Proof.
  intros Hp Hf Hd. destruct (x_iunlockput _ _ _ Hf) as (f1 & E1 & H1). destruct (x_end_op _ H1) as (f2 & E2 & H2).
  assert (∃ k', when (negb (d =? 0)) (env (on_kmem (freevm me kend d))) (sett k f t) = Done (tt, sett k' f t) ∧ unchanged t p l own ts us (sett k' f2 t))
    as (k' & E & Hu).
  { destruct Hd as [(-> & (l' & Hi & Hl) & Hle)|(Hd & l1 & own1 & ts1 & us1 & [Hb1 Hb2 Hb3])].
    - exists k. split; [done|]. by eapply unchanged_sett.
    - destruct (drop_new me kend Hkend _ _ _ _ _ _ _ _ _ _ _ _ _ _ (pm_as _ _ _ _ _ _ _ _ _ Hp) Hb1 Hb2 Hb3) as (k2 & l2 & E & Hi & Hl & Hle).
      exists k2. rewrite (proj2 (Z.eqb_neq d 0) Hd). split; [by apply env_kmem_run|by eapply unchanged_sett]. }
  exists (sett k' f2 t). unfold exec_bad. rewrite (bind_run _ _ _ _ _ E).
  rewrite (bind_run _ _ _ tt (sett k' f2 t)); [done|]. rewrite (bind_run _ _ _ _ _ (env_files_run _ _ _ _ _ _ E1)). by apply env_files_run.
Qed.

Lemma exec_bad_unlocked t p l own ts us k f d :
  pmem kend kern t p l own ts us (p_sz (procs t !!! p)) → x_idle f → d ≠ 0 → half_built kend data (kw_mem (world t)) l d k →
  ∃ t', exec_bad me kend d None (sett k f t) = Done (-1, t') ∧ x_idle (kw_files (world t')) ∧ unchanged t p l own ts us t'.
Proof.
  intros Hp Hf Hd (l1 & own1 & ts1 & us1 & [Hb1 Hb2 Hb3]).
  destruct (drop_new me kend Hkend _ _ _ _ _ _ _ _ _ _ _ _ _ _ (pm_as _ _ _ _ _ _ _ _ _ Hp) Hb1 Hb2 Hb3) as (k2 & l2 & E & Hi & Hl & Hle).
  exists (sett k2 f t). unfold exec_bad. rewrite (proj2 (Z.eqb_neq d 0) Hd). cbn [negb when].
  rewrite (bind_run _ _ _ _ _ (env_kmem_run _ _ _ _ _ _ E)). split; [done|]. split; [done|]. by eapply unchanged_sett.
Qed.

Lemma program_same img sz argv m m' us top sp :
  (∀ x, ubyte m' us x = ubyte m us x) → program img sz argv m us top sp → program img sz argv m' us top sp.
Proof.
  intros H [H1 H2 H3 H4 H5 [S1 S2 S3 S4]]. split; try done; [intros x Hx; rewrite H; by apply H4|]. split; try done.
  - eapply user_bytes_same; [exact S3|]. by intros y _.
  - eapply Forall2_impl; [exact S4|]. intros s p Hs. eapply user_bytes_same; [exact Hs|]. by intros y _.
Qed.

Lemma exec_commit_ok t p path argv l own ts us b elf phs sz k f d top sp l1 own1 ts1 us1 :
  pmem kend kern t p l own ts us (p_sz (procs t !!! p)) → x_idle f → elf_plan b = Some (elf, phs, sz) →
  building kend data (kw_mem (world t)) l d k l1 own1 ts1 us1 → program (image b phs) sz argv (kmem_mem k) us1 top sp →
  ∃ t', exec_commit me kend ts_addr p path d top (elf_entry elf) sp (sett k f t) = Done (0, t') ∧ x_idle (kw_files (world t')) ∧
    replaced t p path argv own b t'.
Proof.
  intros [Hp Ha Hs Hz Hk Hc] Hf Hplan [Hb1 Hb2 Hb3] Hprog.
  assert (d ≠ 0) as Hd by (destruct (as_pages _ _ _ _ _ _ _ Hb1 _ _ (as_dir _ _ _ _ _ _ _ Hb1)); lia).
  destruct (switchuvm_ok ts_addr _ d (kw_cpu (world t)) Hk Hd Hc) as (c' & E & Hcr & _ & Hn).
  destruct (drop_old me kend Hkend _ _ _ _ _ _ _ _ _ _ _ _ _ _ Ha Hb1 Hb2 Hb3) as (k2 & l2 & own2 & E2 & Hi2 & Hd2 & Hu2).
  set (q := procs t !!! p) in *. set (q1 := set_name (copy_name (last_elem path path) (p_name q)) q).
  set (q2 := set_tf (tf_ptr q) (set_eip_esp (elf_entry elf) sp (tf q)) (set_sz top (set_pgdir d q1))).
  exists (mk_pst (pt_lock t) (<[p := q2]> (procs t)) (initproc t) (nextpid t) (mk_kworld k2 c' (kpgdir (world t)) (first (world t)) (kw_clock (world t)) f)).
  split; [|split; [done|]].
  - unfold exec_commit, bind, upd, modify, proc_at, gets, set_procs. cbn [procs pt_lock initproc nextpid world sett].
    rewrite !list_lookup_total_insert_eq, !list_insert_insert_eq by (rewrite ?length_insert; done). fold q q1.
    change (set_tf (tf_ptr (set_sz top (set_pgdir d q1))) (set_eip_esp (elf_entry elf) sp (tf (set_sz top (set_pgdir d q1))))
      (set_sz top (set_pgdir d q1))) with q2.
    unfold env, zoom. cbn [world]. unfold on_cpu, zoom. cbn [setw kw_cpu]. change (kstack q2) with (kstack q). change (p_pgdir q2) with d.
    change (p_pgdir q1) with (p_pgdir q). rewrite E. unfold on_kmem, zoom. cbn [kw_mem world setw]. rewrite E2. done.
  - split; [|done]. exists elf, phs, sz, d, top, sp, l2, own2, ts1, us1. split; [done|]. split; [done|].
    split; [|split; [done|]; split; [|done]; eapply program_same; [|exact Hprog]; done].
    assert (0 ≤ top < KERNBASE) as Ht.
    { destruct Hprog as [-> Hb _ _ _ _]. split; [|done]. unfold stack_top, PGROUNDUP.
      apply Z.add_nonneg_nonneg; [apply Z.land_nonneg; left; apply u32_range|done]. }
    split; cbn [procs world kw_mem kw_cpu]; rewrite ?length_insert, ?list_lookup_total_insert_eq by done; [done|done|apply Hprog|done|done|lia].
Qed.

(** The outcomes of [exec], for the file [b] the path names. *)
Definition exec_outcome (t : pst (kworld F)) (p : nat) (path : list Z) (argv : list (list Z)) (l : list Z) (own : gmap Z role)
    (ts : gmap Z Z) (us : gmap Z (Z * Z)) (b : list Z) (r : result (Z * pst (kworld F))) : Prop :=
  ∃ x t', r = Done (x, t') ∧ x_idle (kw_files (world t')) ∧
    ((x = -1 ∧ unchanged t p l own ts us t' ∧ exec_reason b argv l) ∨ (x = 0 ∧ replaced t p path argv own b t')).

Lemma stack_top_pos sz : 2 * PGSIZE ≤ stack_top sz.
Proof. unfold stack_top, PGROUNDUP. assert (0 ≤ Z.land (u32 (sz + PGSIZE - 1)) (Z.lnot (PGSIZE - 1))) by (apply Z.land_nonneg; left; apply u32_range). lia. Qed.

Lemma stack_top_above sz : 0 ≤ sz < KERNBASE → sz ≤ stack_top sz.
Proof. intros H. destruct (PGROUNDUP_user sz ltac:(lia)) as (_ & R & _). unfold stack_top, PGSIZE in *. lia. Qed.

Lemma exec_failed t p path argv l own ts us b (m : M (pst (kworld F)) Z) t0 :
  (∃ t', m t0 = Done (-1, t') ∧ x_idle (kw_files (world t')) ∧ unchanged t p l own ts us t') → exec_reason b argv l →
  exec_outcome t p path argv l own ts us b (m t0).
Proof. intros (t' & E & Hi & Hu) Hr. exists (-1), t'. split; [done|]. split; [done|]. left. done. Qed.

(** The loaded program gets its stack and is run. *)
Lemma exec_start_ok t p path argv l own ts us b elf phs sz d k f :
  pmem kend kern t p l own ts us (p_sz (procs t !!! p)) → x_idle f → elf_plan b = Some (elf, phs, sz) → d ≠ 0 →
  loaded kend data (kw_mem (world t)) l d (image b phs) sz k → Forall (λ s, Z.of_nat (length s) < 2 ^ 25) argv →
  exec_outcome t p path argv l own ts us b
    (exec_start me kend ts_addr p path argv d sz (elf_entry elf) (sett k f t)).
Proof.
  intros Hp Hf Hplan Hd Hl Hlen. pose proof (ki_nodup _ _ _ (as_kmem _ _ _ _ _ _ _ (pm_as _ _ _ _ _ _ _ _ _ Hp))) as Hnd.
  destruct (exec_stack_ok me kend data Hkend _ l Hnd d _ _ argv k Hl Hlay Hlen) as (r & k1 & E & Hr).
  unfold exec_start. rewrite (bind_run _ _ _ _ _ (env_kmem_run _ _ _ _ _ _ E)). destruct r as [[top sp]|].
  - destruct Hr as (l1 & own1 & ts1 & us1 & Hb & Hprog).
    destruct (exec_commit_ok t p path argv l own ts us b elf phs sz k1 f d top sp _ _ _ _ Hp Hf Hplan Hb Hprog) as (t' & E' & Hi & Hre).
    exists 0, t'. split; [done|]. split; [done|]. by right.
  - destruct Hr as [Hh Hr]. apply exec_failed; [by eapply exec_bad_unlocked|]. unfold exec_reason, can_exec. rewrite Hplan.
    destruct Hr as [Hr|[Hr|Hr]]; [left|left|by right].
    + destruct (Z.ltb_spec (stack_top sz) KERNBASE); [lia|done].
    + rewrite Hr. by rewrite andb_false_r.
Qed.

(** The headers are read and the program is loaded. *)
Lemma exec_program_ok t p path argv l own ts us b f ip elf d k1 l1 own1 ts1 :
  pmem kend kern t p l own ts us (p_sz (procs t !!! p)) → x_locked f ip b → Forall (λ s, Z.of_nat (length s) < 2 ^ 25) argv →
  elf_plan b = match plan (Z.to_nat (phnum elf)) b (phoff elf) 0 with Some (phs, sz) => Some (elf, phs, sz) | None => None end →
  0 ≤ phoff elf < 2 ^ 32 → d ≠ 0 → as_inv kend (kernel_entries data) k1 l1 own1 d ts1 ∅ → dom own1 = list_to_set l →
  leaves kend (free_pages l) (kmem_mem (kw_mem (world t))) (kmem_mem k1) →
  exec_outcome t p path argv l own ts us b (exec_program me kend ts_addr p path argv ip d elf (sett k1 f t)).
Proof.
  intros Hp Hf Hlen Hplan Hoff Hd Hi1 Hd1 Hl1. pose proof (ki_nodup _ _ _ (as_kmem _ _ _ _ _ _ _ (pm_as _ _ _ _ _ _ _ _ _ Hp))) as Hnd.
  assert (loaded kend data (kw_mem (world t)) l d (λ _, 0) 0 k1) as Hl.
  { exists l1, own1, ts1, ∅. split; try done; [|by change (PGROUNDUP 0) with 0; lia].
    intros va [_ Hva]. rewrite lookup_empty. split; [by intros [? ?]|lia]. }
  destruct (exec_load_ok me kend data Hkend _ l Hnd d b ip (Z.to_nat (phnum elf)) (s32 (phoff elf)) 0 _ (setw k1 f (world t)) Hl Hf) as (r & w' & E & Hr).
  rewrite u32_s32, u32_small in Hr by done. unfold exec_program. destruct r as [sz|].
  - destruct Hr as (phs & Ep & (k2 & f2 & -> & Hl2 & Hf2)). rewrite (bind_run _ _ _ _ _ (env_world_run _ _ _ _ _ k2 f2 E)).
    destruct (x_iunlockput _ _ _ Hf2) as (f3 & E3 & H3). destruct (x_end_op _ H3) as (f4 & E4 & H4).
    rewrite (bind_run _ _ _ _ _ (env_files_run _ _ _ _ _ _ E3)), (bind_run _ _ _ _ _ (env_files_run _ _ _ _ _ _ E4)).
    apply (exec_start_ok _ _ _ _ _ _ _ _ b elf phs); try done. by rewrite Hplan, Ep.
  - destruct Hr as (k2 & f2 & -> & Hh & Hf2 & Hreason). rewrite (bind_run _ _ _ _ _ (env_world_run _ _ _ _ _ k2 f2 E)).
    apply exec_failed; [eapply exec_bad_locked; [done|exact Hf2|by right]|]. unfold exec_reason, load_reason in *. rewrite Hplan.
    destruct (plan _ b (phoff elf) 0) as [[phs sz]|] eqn:Ep; [|done]. right. apply plan_grows in Ep as [Hz Hk].
    eapply Z.lt_le_trans; [exact Hreason|]. apply pages_needed_mono, stack_top_above. split; [done|by apply Hk].
Qed.

(** The file is locked. *)
Lemma exec_file_ok t p path argv l own ts us b f ip :
  pmem kend kern t p l own ts us (p_sz (procs t !!! p)) → x_locked f ip b → Forall (λ s, Z.of_nat (length s) < 2 ^ 25) argv →
  exec_outcome t p path argv l own ts us b (exec_file me kend data ts_addr p path argv ip (sett (kw_mem (world t)) f t)).
Proof.
  intros Hp Hf Hlen. destruct (x_contents _ _ _ Hf) as [Hby _]. destruct (x_readi _ _ _ 0 sizeof_elfhdr Hf) as (f1 & E1 & Hf1); [done|done|].
  unfold exec_file. rewrite (bind_run _ _ _ _ _ (env_files_run _ _ _ _ _ _ E1)). set (h := file_read b 0 sizeof_elfhdr) in *.
  pose proof (pm_as _ _ _ _ _ _ _ _ _ Hp) as Ha. pose proof (as_kmem _ _ _ _ _ _ _ Ha) as Hk.
  assert (∃ l', as_inv kend kern (kw_mem (world t)) l' (reown l' own) (p_pgdir (procs t !!! p)) ts us ∧ (∀ q, q ∈ l' ↔ q ∈ l)) as Hsame.
  { exists l. split; [|done]. by apply (as_bystander _ _ _ _ _ _ _ _ _ _ Ha Hk). }
  destruct (Z.eqb_spec (fst h) sizeof_elfhdr) as [Eh|Eh]; cbn [negb].
  2: { apply exec_failed; [eapply exec_bad_locked; [done|exact Hf1|by left]|]. unfold exec_reason, elf_plan. fold h. by rewrite (proj2 (Z.eqb_neq _ _) Eh). }
  set (elf := elfhdr_of (snd h)) in *. cbv zeta. destruct (negb (magic elf =? ELF_MAGIC)) eqn:Em.
  { apply exec_failed; [eapply exec_bad_locked; [done|exact Hf1|by left]|]. unfold exec_reason, elf_plan. fold h elf. by rewrite Eh, Z.eqb_refl, Em. }
  assert (elf_plan b = match plan (Z.to_nat (phnum elf)) b (phoff elf) 0 with Some (phs, sz) => Some (elf, phs, sz) | None => None end) as Hplan
    by (unfold elf_plan; fold h elf; by rewrite Eh, Z.eqb_refl, Em).
  destruct (setupkvm_ok me kend data Hkend _ l Hk Hlay) as (d & k1 & l1 & own1 & E2 & Hl1 & Hd1 & Hr). rewrite free_pages_dom in Hd1.
  rewrite (bind_run _ _ _ _ _ (env_kmem_run _ _ _ _ _ _ E2)). destruct Hr as [(-> & Hk1 & Hs1 & Hin)|(Hd & ts1 & Hi1)].
  - setoid_rewrite <-elem_of_dom in Hin. setoid_rewrite free_pages_dom in Hin. setoid_rewrite elem_of_list_to_set in Hin.
    rewrite <-size_dom, free_pages_dom, size_list_to_set in Hs1 by apply Hk. apply exec_failed.
    + eapply exec_bad_locked; [done|exact Hf1|left]. split; [done|]. split; [|done]. exists l1. split; [|done].
      apply (as_bystander _ _ _ _ _ _ _ _ _ _ Ha Hk1); [intros q; apply Hin|done].
    + unfold exec_reason. rewrite Hplan. destruct (plan _ b (phoff elf) 0) as [[phs sz]|] eqn:Ep; [|done]. right. apply plan_grows in Ep as [Hz _].
      pose proof (stack_top_pos sz). unfold pages_needed. assert (0 ≤ (stack_top sz + PGSIZE - 1) / PGSIZE) by (apply Z.div_pos; [unfold PGSIZE in *; lia|done]). lia.
  - rewrite (proj2 (Z.eqb_neq d 0) Hd). eapply exec_program_ok; try done.
    apply (field_range 28 4). by apply file_read_is_bytes.
Qed.

(** C6: [exec] either runs the program the file describes or changes nothing.
    It returns 0, and the process has the memory of the program's segments as
    the ELF headers describe it (bytes of the file, and zeros), an
    inaccessible page, and a stack page with the argument strings, the table
    of pointers to them and [argc], as [main] finds them; [eip], [esp], the
    size, the name and cr3 are set, the kernel is mapped, and the pages of the
    old program are free.  Or it returns -1, and the process, its memory and
    the set of free pages are what they were; and then there is no such file,
    the headers are not those of a loadable program, the arguments do not fit
    on the stack page, or fewer pages are free than the program and a
    thousand.  It never panics and never faults, whatever the file contains,
    if every argument is shorter than 32 MB.  The file system is assumed to
    behave as [ExecEnvSpec] says. *)
Theorem exec_all_or_nothing t p path argv l own ts us :
  pmem kend kern t p l own ts us (p_sz (procs t !!! p)) → x_idle (kw_files (world t)) → Forall (λ s, Z.of_nat (length s) < 2 ^ 25) argv →
  match x_file (kw_files (world t)) (cwd (procs t !!! p)) path with
  | Some b => exec_outcome t p path argv l own ts us b (exec me kend data ts_addr p path argv t)
  | None => ∃ t', exec me kend data ts_addr p path argv t = Done (-1, t') ∧ x_idle (kw_files (world t')) ∧ unchanged t p l own ts us t'
  end.
Proof.
  intros Hp Hf Hlen. destruct (x_begin_op _ Hf) as (f1 & E1 & H1 & Hsame). pose proof (x_namei _ (cwd (procs t !!! p)) path H1) as Hn. rewrite Hsame in Hn.
  assert (exec me kend data ts_addr p path argv t = exec me kend data ts_addr p path argv (sett (kw_mem (world t)) (kw_files (world t)) t))
    as -> by (by rewrite sett_id). unfold exec. rewrite (bind_run _ _ _ _ _ (env_files_run _ _ _ _ _ _ E1)).
  rewrite (bind_run (proc_at p) _ (sett (kw_mem (world t)) f1 t) (procs t !!! p) _ eq_refl).
  destruct (x_file _ _ _) as [b|].
  - destruct Hn as (ip & f2 & E2 & H2). rewrite (bind_run _ _ _ _ _ (env_files_run _ _ _ _ _ _ E2)).
    destruct (x_ilock _ _ _ H2) as (f3 & E3 & H3). rewrite (bind_run _ _ _ _ _ (env_files_run _ _ _ _ _ _ E3)). by apply exec_file_ok.
  - destruct Hn as (f2 & E2 & H2). rewrite (bind_run _ _ _ _ _ (env_files_run _ _ _ _ _ _ E2)).
    destruct (x_end_op _ H2) as (f3 & E3 & H3). rewrite (bind_run _ _ _ _ _ (env_files_run _ _ _ _ _ _ E3)).
    exists (sett (kw_mem (world t)) f3 t). split; [done|]. split; [done|]. by apply unchanged_files.
Qed.
End run.

(** ** A program of four bytes *)

Module ExecDemo.
(** An ELF header, one program header, and four bytes for address 0; the entry
    point is 2. *)
Definition demo_elf : list Z :=
  [0x7F; 69; 76; 70] ++ replicate 12 0 ++ [2; 0; 3; 0; 1; 0; 0; 0] ++ le_bytes 4 2 ++ le_bytes 4 52 ++ replicate 8 0 ++ [52; 0; 32; 0; 1; 0] ++ replicate 6 0 ++
  le_bytes 4 1 ++ le_bytes 4 84 ++ le_bytes 4 0 ++ le_bytes 4 0 ++ le_bytes 4 4 ++ le_bytes 4 100 ++ le_bytes 4 7 ++ le_bytes 4 4096 ++
  [0x90; 0x90; 0xCD; 0x40].

(** A file system with that one file, named [a]; its state is what exec holds. *)
Inductive hold := Idle | InOp | Ref | Locked.

#[global] Instance one_file : FileEnv hold := {
  fe_filedup f := ret f; fe_fileclose _ := ret tt; fe_idup i := ret i; fe_iput _ := ret tt;
  fe_begin_op _ := Done (tt, InOp); fe_end_op _ := Done (tt, Idle); fe_namei_root := ret None;
  fe_iinit := ret tt; fe_initlog := ret tt; fe_acquire _ := ret tt; fe_release _ := ret tt;
}.
#[global] Instance one_inode : ExecEnv hold := {
  xe_namei _ path _ := if decide (path = [97]) then Done (Some 0%nat, Ref) else Done (None, InOp);
  xe_ilock _ _ := Done (tt, Locked);
  xe_readi _ off n s := Done (file_read demo_elf off n, s);
  xe_iunlockput _ _ := Done (tt, InOp);
}.
#[global] Instance one_file_spec : ExecEnvSpec hold.
Proof.
  refine {| x_idle s := s = Idle; x_op s := s = InOp; x_ref s ip b := s = Ref ∧ b = demo_elf; x_locked s ip b := s = Locked ∧ b = demo_elf;
            x_file s c path := if decide (path = [97]) then Some demo_elf else None |}.
  - intros s ip b [_ ->]. split; [|done]. apply (bool_decide_unpack _). vm_compute. exact I.
  - intros s _. by exists InOp.
  - intros s _. by exists Idle.
  - intros s c path _. cbn. case_decide; [by exists 0%nat, Ref|by exists InOp].
  - intros s ip b [_ ->]. by exists Locked.
  - intros s ip b off n [-> ->] _ _. by exists Locked.
  - intros s ip b _. by exists InOp.
Defined.

(** Free memory beside the process of [demo_as]. *)
Lemma demo_free_pages n :
  (n ≤ 2000)%nat → ∃ k l own, as_inv demo_end demo_kern k l own demo_dir {[0 := demo_table]} {[0 := (demo_frame, 7)]} ∧ length l = n ∧
    ∀ p, is_Some (own !! p) → p < 0x80500000 + Z.of_nat n * PGSIZE.
Proof.
  induction n as [|n IH]; intros Hn.
  - exists demo_kmem2, [], demo_own. split; [apply demo_as|]. split; [done|]. intros p [r Hr]. unfold demo_own in Hr.
    apply lookup_insert_Some in Hr as [[<- _]|[_ [[<- _]|[_ [<- _]%lookup_singleton_Some]]%lookup_insert_Some]]; by vm_compute.
  - destruct (IH ltac:(lia)) as (k & l & own & Hi & Hl & Hb). set (p := 0x80500000 + Z.of_nat n * PGSIZE).
    assert (own !! p = None) as Ho by (apply eq_None_not_Some; intros ?%Hb; unfold p in *; lia).
    assert (page_ok demo_end p) as Hp.
    { unfold p, page_ok, demo_end, V2P, KERNBASE, PHYSTOP, PGSIZE. rewrite (u32_small (0x80500000 + Z.of_nat n * 4096)), u32_small by lia.
      rewrite Z.mod_add by done. split_and!; try done; lia. }
    destruct (as_kfree 0 demo_end _ _ _ _ _ _ _ Hi Ho Hp) as (k' & _ & _ & Hi'). exists k', (p :: l), (<[p := Free]> own).
    split; [done|]. split; [by cbn [length]; rewrite Hl|]. intros q [r [[<- _]|[_ Hr]]%lookup_insert_Some]; [unfold p, PGSIZE; lia|].
    assert (is_Some (own !! q)) as Hq by (by eexists). apply Hb in Hq. unfold PGSIZE in *. lia.
Qed.

Definition start (k : kmem) : pst (kworld hold) :=
  mk_pst (initlock "ptable") [PmDemo.q0] (Some 0%nat) 2 (mk_kworld k PmDemo.c0 demo_dir 1 (mk_clock (initlock "time") 0) Idle).

Lemma start_pmem k l own :
  as_inv demo_end demo_kern k l own demo_dir {[0 := demo_table]} {[0 := (demo_frame, 7)]} →
  pmem demo_end demo_kern (start k) 0 l own {[0 := demo_table]} {[0 := (demo_frame, 7)]} (p_sz (procs (start k) !!! 0%nat)).
Proof.
  intros Hi. split; cbn; try done; [lia|]. intros va [Ha Hv]. unfold is_Some. setoid_rewrite lookup_singleton_Some. unfold aligned, PGSIZE in Ha. split.
  - intros (e & <- & _). lia.
  - intros Hlt. exists (demo_frame, 7). split; [|done]. rewrite Z.mod_small in Ha by lia. done.
Qed.
End ExecDemo.

Lemma exec_all_or_nothing_witness :
  ∃ t t', exec 0 demo_end 0x80108000 0x80112000 0 [97] [[108; 115]] t = Done (0, t') ∧ eip (tf (procs t' !!! 0%nat)) = 2.
Proof.
  destruct (ExecDemo.demo_free_pages 2000 ltac:(lia)) as (k & l & own & Hi & Hl & _). exists (ExecDemo.start k).
  assert (kernel_layout 0x80108000) as Hlay by done.
  pose proof (exec_all_or_nothing 0 demo_end 0x80108000 0x80112000 ltac:(done) Hlay demo_kern (ExecDemo.start k) 0 [97] [[108; 115]] l own _ _
    (ExecDemo.start_pmem k l own Hi) eq_refl ltac:(repeat constructor)) as H.
  change (x_file (kw_files (world (ExecDemo.start k))) (cwd (procs (ExecDemo.start k) !!! 0%nat)) [97]) with (Some ExecDemo.demo_elf) in H.
  destruct H as (x & t' & E & _ & [(-> & _ & Hr)|(-> & Hre)]).
  - exfalso. unfold exec_reason in Hr. destruct (elf_plan ExecDemo.demo_elf) as [[[e phs] sz]|] eqn:Ep; [|by vm_compute in Ep].
    assert (sz = 100) as -> by (vm_compute in Ep; congruence). destruct Hr as [Hr|Hr]; [by vm_compute in Hr|]. rewrite Hl in Hr. by vm_compute in Hr.
  - exists t'. split; [done|]. destruct Hre as [(elf & phs & sz & d & top & sp & l' & own' & ts' & us' & Hp & Hprocs & _) _].
    rewrite Hprocs. cbn. vm_compute in Hp. injection Hp as <- _ _. done.
Defined.
