(* ===== verification/Grep.v ===== *)
(** * grep.c

    Strings are lists of characters without the terminating NUL: [[]] is a
    pointer to the terminator.  [match] is compared with the language of the
    pattern, [grep] with the lines of its input. *)

From S2P Require Import Prelude.

Definition NL : Z := 10.
Definition CARET : Z := 94.
Definition DOLLAR : Z := 36.
Definition DOT : Z := 46.
Definition STAR : Z := 42.

(** ** The matcher *)

(** The loop of [matchstar]; [here] is [matchhere] on the rest of the pattern. *)
Fixpoint star_loop (here : list Z → bool) (c : Z) (text : list Z) : bool :=
  if here text then true
  else match text with
       | [] => false
       | t :: text' => if (t =? c) || (c =? DOT) then star_loop here c text' else false
       end.

(** [re[1]] is the NUL when [re1] is empty. *)
Fixpoint matchhere (re text : list Z) : bool :=
  match re with
  | [] => true
  | c :: re1 =>
      let literal :=
        if (c =? DOLLAR) && (match re1 with [] => true | _ => false end)
        then (match text with [] => true | _ => false end)
        else match text with
             | t :: text' => if (c =? DOT) || (c =? t) then matchhere re1 text' else false
             | [] => false
             end in
      match re1 with
      | d :: re2 => if d =? STAR then star_loop (matchhere re2) c text else literal
      | [] => literal
      end
  end.

Definition matchstar (c : Z) (re text : list Z) : bool := star_loop (matchhere re) c text.

Fixpoint match_loop (re text : list Z) : bool :=
  if matchhere re text then true
  else match text with [] => false | _ :: text' => match_loop re text' end.

Definition match_ (re text : list Z) : bool :=
  match re with
  | c :: re' => if c =? CARET then matchhere re' text else match_loop re text
  | [] => match_loop re text
  end.

(** ** The input loop *)

(** [strchr(p, '\n')]: the characters before the newline, and those after it. *)
Fixpoint strchr_nl (p : list Z) : option (list Z * list Z) :=
  match p with
  | [] => None
  | c :: p' =>
      if c =? 0 then None
      else if c =? NL then Some ([], p')
      else match strchr_nl p' with Some (l, r) => Some (c :: l, r) | None => None end
  end.

(** The inner loop: what is written, and where [p] ends up. *)
Fixpoint grep_lines (fuel : nat) (pattern p : list Z) : list Z * list Z :=
  match fuel with
  | O => ([], p)
  | S fuel' =>
      match strchr_nl p with
      | None => ([], p)
      | Some (line, rest) =>
          let '(out, p') := grep_lines fuel' pattern rest in
          ((if match_ pattern line then line ++ [NL] else []) ++ out, p')
      end
  end.

Definition bufsize : nat := 1024.

(** What is left after a partial read. *)
Definition requeue (later : list Z) (more : list (list Z)) : list (list Z) :=
  match later with [] => more | _ => later :: more end.

(** [avail] is what the descriptor has to offer, in the pieces in which it
    becomes available: a [read] returns the first piece, or as much of it as
    fits.  [buf] are the first [m] characters of the buffer. *)
Fixpoint grep (fuel : nat) (pattern : list Z) (avail : list (list Z)) (buf : list Z) : result (list Z) :=
  match fuel with
  | O => Fail EFuel
  | S fuel' =>
      match avail with
      | [] => Done []
      | piece :: more =>
          let max := (bufsize - length buf - 1)%nat in
          let got := take max piece in
          let avail' := requeue (drop max piece) more in
          match got with
          | [] => Done []
          | _ =>
              let b := buf ++ got in
              let '(out, p) := grep_lines (length b) pattern b in
              let carry := if (length p =? length b)%nat then [] else p in
              match grep fuel' pattern avail' carry with
              | Done rest => Done (out ++ rest)
              | Fail e => Fail e
              end
          end
      end
  end.

(** ** The language of a pattern *)

Inductive item := One (c : Z) | Many (c : Z).

(** [.] stands for every character. *)
Definition atom (c t : Z) : Prop := c = DOT ∨ c = t.

Fixpoint lang (its : list item) (w : list Z) : Prop :=
  match its with
  | [] => w = []
  | One c :: its' => ∃ t w', w = t :: w' ∧ atom c t ∧ lang its' w'
  | Many c :: its' => ∃ w1 w2, w = w1 ++ w2 ∧ Forall (atom c) w1 ∧ lang its' w2
  end.

(** The items of a pattern, and whether it ends in [$]. *)
Fixpoint parse (re : list Z) : list item * bool :=
  match re with
  | [] => ([], false)
  | c :: re1 =>
      let literal :=
        if (c =? DOLLAR) && (match re1 with [] => true | _ => false end) then ([], true)
        else let '(its, e) := parse re1 in (One c :: its, e) in
      match re1 with
      | d :: re2 => if d =? STAR then let '(its, e) := parse re2 in (Many c :: its, e) else literal
      | [] => literal
      end
  end.

(** A match of the items at the start of [text], up to its end if anchored. *)
Definition prefix_match (p : list item * bool) (text : list Z) : Prop :=
  ∃ w rest, text = w ++ rest ∧ lang p.1 w ∧ (p.2 = true → rest = []).

Definition pattern_match (re text : list Z) : Prop :=
  match re with
  | c :: re' => if decide (c = CARET) then prefix_match (parse re') text
                else ∃ pre suf, text = pre ++ suf ∧ prefix_match (parse re) suf
  | [] => True
  end.

Lemma prefix_match_many c its e text :
  prefix_match (Many c :: its, e) text ↔
  prefix_match (its, e) text ∨ ∃ t text', text = t :: text' ∧ atom c t ∧ prefix_match (Many c :: its, e) text'.
Proof.
  split.
  - intros (w & rest & -> & (w1 & w2 & -> & Hw & Hl) & He). destruct w1 as [|t w1].
    + left. by exists w2, rest.
    + apply Forall_cons in Hw as [Ht Hw]. right. exists t, ((w1 ++ w2) ++ rest). split_and!; [done..|].
      exists (w1 ++ w2), rest. split_and!; [done|by exists w1, w2|done].
  - intros [(w & rest & -> & Hl & He)|(t & text' & -> & Ht & w & rest & -> & (w1 & w2 & -> & Hw & Hl) & He)].
    + exists w, rest. split_and!; [done|by exists [], w|done].
    + exists (t :: w1 ++ w2), rest. split_and!; [done|exists (t :: w1), w2; split_and!; [done|by constructor|done]|done].
Qed.

Lemma prefix_match_one c its e text :
  prefix_match (One c :: its, e) text ↔ ∃ t text', text = t :: text' ∧ atom c t ∧ prefix_match (its, e) text'.
Proof.
  split.
  - intros (w & rest & -> & (t & w' & -> & Ht & Hl) & He). exists t, (w' ++ rest). split_and!; [done..|]. by exists w', rest.
  - intros (t & text' & -> & Ht & w & rest & -> & Hl & He). exists (t :: w), rest. split_and!; [done|by exists t, w|done].
Qed.

Lemma star_loop_correct here c its e text :
  (∀ text, here text = true ↔ prefix_match (its, e) text) →
  star_loop here c text = true ↔ prefix_match (Many c :: its, e) text.
Proof.
  intros Hh. induction text as [|t text IH]; rewrite prefix_match_many; cbn [star_loop].
  - destruct (here []) eqn:E; [apply Hh in E; by split; [left|]|]. split; [done|].
    intros [H%Hh|(t & text' & ? & _)]; [congruence|done].
  - destruct (here (t :: text)) eqn:E; [apply Hh in E; by split; [left|]|].
    assert ((t =? c) || (c =? DOT) = true ↔ atom c t) as Ha.
    { unfold atom. rewrite orb_true_iff, !Z.eqb_eq. naive_solver. }
    split.
    + destruct ((t =? c) || (c =? DOT)); [|done]. intros H%IH. right. exists t, text. naive_solver.
    + intros [H%Hh|(t' & text' & [= <- <-] & Ht & H)]; [congruence|]. apply Ha in Ht. rewrite Ht. by apply IH.
Qed.

Lemma literal_correct c re1 text (here : list Z → bool) its e :
  (∀ text, here text = true ↔ prefix_match (its, e) text) →
  (if (c =? DOLLAR) && (match re1 with [] => true | _ => false end)
   then (match text with [] => true | _ => false end)
   else match text with t :: text' => if (c =? DOT) || (c =? t) then here text' else false | [] => false end) = true ↔
  prefix_match (if (c =? DOLLAR) && (match re1 : list Z with [] => true | _ => false end) then ([], true) else (One c :: its, e)) text.
Proof.
  intros Hh. destruct ((c =? DOLLAR) && _).
  - split; [destruct text; [|done]; intros _; by exists [], []|].
    intros (w & rest & -> & Hw & He). cbn in Hw. subst w. by rewrite He.
  - rewrite prefix_match_one. destruct text as [|t text]; [by split; [|intros (? & ? & ? & _)]|].
    assert ((c =? DOT) || (c =? t) = true ↔ atom c t) as Ha by (unfold atom; by rewrite orb_true_iff, !Z.eqb_eq).
    destruct ((c =? DOT) || (c =? t)).
    + rewrite Hh. split; [intros H; exists t, text; split_and!; [done|by apply Ha|done]|by intros (? & ? & [= <- <-] & _ & H)].
    + split; [done|]. intros (? & ? & [= <- <-] & Ht & _). by apply Ha in Ht.
Qed.

Lemma matchhere_correct re text : matchhere re text = true ↔ prefix_match (parse re) text.
Proof.
  revert text. remember (length re) as n eqn:En. assert (length re ≤ n)%nat as Hle by lia. clear En.
  revert re Hle. induction n as [|n IH]; intros [|c re1] Hle text; cbn [length] in Hle; [|lia| |].
  1,2: cbn; split; [intros _; by exists [], text|done].
  assert (∀ text, matchhere re1 text = true ↔ prefix_match (parse re1) text) as H1 by (intros; apply IH; lia).
  destruct (parse re1) as [its e] eqn:Ep.
  pose proof (literal_correct c re1 text (matchhere re1) its e H1) as Hlit.
  destruct re1 as [|d re2]; [injection Ep as <- <-; exact Hlit|].
  change (matchhere (c :: d :: re2) text) with
    (if d =? STAR then star_loop (matchhere re2) c text
     else if (c =? DOLLAR) && false then match text with [] => true | _ => false end
     else match text with t :: text' => if (c =? DOT) || (c =? t) then matchhere (d :: re2) text' else false | [] => false end).
  change (parse (c :: d :: re2)) with
    (if d =? STAR then let '(its, e) := parse re2 in (Many c :: its, e)
     else if (c =? DOLLAR) && false then ([], true) else let '(its, e) := parse (d :: re2) in (One c :: its, e)).
  rewrite Ep. destruct (d =? STAR); [|done].
  destruct (parse re2) as [its2 e2] eqn:Ep2. apply star_loop_correct. intros text'. rewrite <-Ep2. apply IH. cbn in Hle. lia.
Qed.

Lemma match_loop_correct re text :
  match_loop re text = true ↔ ∃ pre suf, text = pre ++ suf ∧ prefix_match (parse re) suf.
Proof.
  induction text as [|t text IH]; cbn [match_loop].
  - destruct (matchhere re []) eqn:E.
    + apply matchhere_correct in E. split; [|done]. intros _. by exists [], [].
    + split; [done|]. intros ([|] & suf & Et & H); [|done]. cbn in Et. subst suf. apply matchhere_correct in H. congruence.
  - destruct (matchhere re (t :: text)) eqn:E.
    + apply matchhere_correct in E. split; [|done]. intros _. by exists [], (t :: text).
    + rewrite IH. split; [intros (pre & suf & -> & H); by exists (t :: pre), suf|].
      intros ([|t' pre] & suf & Et & H).
      * cbn in Et. subst suf. apply matchhere_correct in H. congruence.
      * injection Et as <- ->. by exists pre, suf.
Qed.

(** C39: [match] decides the language of the pattern: it returns 1 exactly if
    the text has a substring in the language of the pattern's items, at the
    start of the text if the pattern begins with [^] and at its end if it ends
    with [$]. *)
Theorem match_correct re text : match_ re text = true ↔ pattern_match re text.
Proof.
  destruct re as [|c re]; cbn [match_ pattern_match].
  - split; [done|]. by destruct text.
  - destruct (Z.eqb_spec c CARET), (decide (c = CARET)); try done; [apply matchhere_correct|apply match_loop_correct].
Qed.

(** ** Lines *)

(** The lines of a text; what follows the last newline is not a line. *)
Fixpoint lines_from (cur l : list Z) : list (list Z) :=
  match l with
  | [] => []
  | c :: l' => if c =? NL then cur :: lines_from [] l' else lines_from (cur ++ [c]) l'
  end.
Definition lines (l : list Z) : list (list Z) := lines_from [] l.

Definition print_lines (ls : list (list Z)) : list Z := concat ((λ l, l ++ [NL]) <$> ls).
Definition grep_spec (pattern text : list Z) : list Z :=
  print_lines (filter (λ l, match_ pattern l = true) (lines text)).

Abbreviation text_ok l := (Forall (λ c, c ≠ 0) l).

Lemma lines_from_strchr cur l :
  text_ok l →
  lines_from cur l = match strchr_nl l with Some (x, r) => (cur ++ x) :: lines r | None => [] end.
Proof.
  revert cur. induction l as [|c l IH]; intros cur Hok; [done|]. apply Forall_cons in Hok as [Hc Hok]. cbn.
  destruct (Z.eqb_spec c 0); [done|]. destruct (c =? NL); [by rewrite app_nil_r|]. rewrite IH by done.
  destruct (strchr_nl l) as [[x r]|]; [|done]. by rewrite <-app_assoc.
Qed.

Lemma lines_strchr l :
  text_ok l → lines l = match strchr_nl l with Some (x, r) => x :: lines r | None => [] end.
Proof. apply lines_from_strchr. Qed.

Lemma strchr_nl_app l x r r' : strchr_nl l = Some (x, r) → strchr_nl (l ++ r') = Some (x, r ++ r').
Proof.
  revert x. induction l as [|c l IH]; intros x; [done|]. cbn. destruct (c =? 0); [done|].
  destruct (c =? NL); [by intros [= <- <-]|]. destruct (strchr_nl l) as [[y s]|]; [|done].
  intros [= <- <-]. by rewrite (IH y).
Qed.

Lemma strchr_nl_length l x r : strchr_nl l = Some (x, r) → length l = (length x + 1 + length r)%nat.
Proof.
  revert x. induction l as [|c l IH]; intros x; [done|]. cbn. destruct (c =? 0); [done|].
  destruct (c =? NL); [by intros [= <- <-]|]. destruct (strchr_nl l) as [[y s]|]; [|done].
  intros [= <- <-]. cbn. rewrite (IH y); done.
Qed.

Lemma strchr_nl_ok l x r : strchr_nl l = Some (x, r) → text_ok l → text_ok r.
Proof.
  revert x. induction l as [|c l IH]; intros x; [done|]. cbn. destruct (c =? 0); [done|].
  intros E Hok. apply Forall_cons in Hok as [_ Hok].
  destruct (c =? NL); [by injection E as <- <-|]. destruct (strchr_nl l) as [[y s]|]; [|done].
  injection E as <- <-. by apply (IH y).
Qed.

(** No newline in [l]: the first line of [l ++ r] is longer than [l]. *)
Lemma strchr_nl_None_app l r x s :
  text_ok l → strchr_nl l = None → strchr_nl (l ++ r) = Some (x, s) → (length l ≤ length x)%nat.
Proof.
  revert x. induction l as [|c l IH]; intros x Hok; cbn; [lia|]. apply Forall_cons in Hok as [Hc Hok].
  destruct (Z.eqb_spec c 0); [done|]. destruct (c =? NL); [done|].
  destruct (strchr_nl l) as [[y t]|]; [done|]. intros _.
  destruct (strchr_nl (l ++ r)) as [[y t]|]; [|done]. intros [= <- <-]. cbn. apply le_n_S. by apply IH.
Qed.

Lemma strchr_nl_None_suffix l r : text_ok l → strchr_nl (l ++ r) = None → strchr_nl r = None.
Proof.
  induction l as [|c l IH]; intros Hok; cbn; [done|]. apply Forall_cons in Hok as [Hc Hok].
  destruct (Z.eqb_spec c 0); [done|]. destruct (c =? NL); [done|].
  destruct (strchr_nl (l ++ r)) as [[y t]|]; [done|]. intros _. by apply IH.
Qed.

(** The inner loop prints the matching lines and leaves the rest. *)
Lemma grep_lines_correct fuel pattern p r out p' :
  text_ok p → text_ok r → (length p ≤ fuel)%nat → grep_lines fuel pattern p = (out, p') →
  grep_spec pattern (p ++ r) = out ++ grep_spec pattern (p' ++ r) ∧ text_ok p' ∧
  strchr_nl p' = None ∧ (∃ ls, lines (p ++ r) = ls ++ lines (p' ++ r)) ∧ (length p' ≤ length p)%nat ∧
  (length p' = length p → p' = p ∧ out = []).
Proof.
  revert p out p'. induction fuel as [|fuel IH]; intros p out p' Hp Hr Hf; cbn [grep_lines].
  { intros [= <- <-]. destruct p; [|cbn in Hf; lia]. split_and!; try done. by exists []. }
  destruct (strchr_nl p) as [[x s]|] eqn:E; last first.
  { intros [= <- <-]. split_and!; try done. by exists []. }
  pose proof (strchr_nl_length _ _ _ E) as Hlen. pose proof (strchr_nl_ok _ _ _ E Hp) as Hs.
  destruct (grep_lines fuel pattern s) as [out1 p1] eqn:E1. intros [= <- <-].
  destruct (IH s out1 p1) as (H1 & H2 & H3 & [ls Hls] & H5 & H6); [done|done|lia|done|].
  assert (lines (p ++ r) = x :: lines (s ++ r)) as Hl.
  { rewrite lines_strchr by (by apply Forall_app). by rewrite (strchr_nl_app _ _ _ _ E). }
  split_and!; [|done|done|exists (x :: ls); by rewrite Hl, Hls|lia|lia].
  unfold grep_spec in *. rewrite Hl, filter_cons. case_decide as Hm.
  - rewrite Hm, <-app_assoc, <-H1. done.
  - rewrite (not_true_is_false _ Hm). done.
Qed.

(** A buffer without a newline: there is none in the rest of the input either. *)
Lemma no_newline b rest :
  text_ok b → text_ok rest → strchr_nl b = None → rest = [] ∨ (1023 ≤ length b)%nat →
  Forall (λ l, (length l < 1023)%nat) (lines (b ++ rest)) → lines (b ++ rest) = [] ∧ lines rest = [].
Proof.
  intros Hb Hr Hno Hlen Hl. rewrite lines_strchr in * by (by apply Forall_app). rewrite (lines_strchr rest) by done.
  destruct (strchr_nl (b ++ rest)) as [[x s]|] eqn:E.
  - exfalso. destruct Hlen as [->|Hlen]; [by rewrite app_nil_r in E; congruence|].
    apply strchr_nl_None_app in E; [|done|done]. apply Forall_cons in Hl as [Hl _]. lia.
  - by rewrite (strchr_nl_None_suffix b rest).
Qed.

Lemma grep_file_from fuel pattern carry rest :
  text_ok carry → text_ok rest → (length carry < 1023)%nat → strchr_nl carry = None →
  Forall (λ l, (length l < 1023)%nat) (lines (carry ++ rest)) → (length rest < fuel)%nat →
  grep fuel pattern (requeue rest []) carry = Done (grep_spec pattern (carry ++ rest)).
Proof.
  revert carry rest. induction fuel as [|fuel IH]; intros carry rest Hc Hr Hcl Hno Hl Hf; [lia|].
  destruct rest as [|c rest].
  { cbn [grep]. unfold grep_spec. rewrite app_nil_r, lines_strchr by done. by rewrite Hno. }
  set (r := c :: rest) in *. change (requeue r []) with [r]. cbn [grep]. set (max := (bufsize - length carry - 1)%nat).
  assert (1 ≤ max ∧ length carry + max = 1023)%nat as [Hmax Hsum] by (unfold max, bufsize; lia).
  pose proof (take_drop max r) as Hsplit. set (got := take max r) in *. set (rest' := drop max r) in *.
  assert (text_ok got ∧ text_ok rest') as [Hg Hr'] by (rewrite <-Hsplit in Hr; by apply Forall_app).
  assert (length rest' = length r - max)%nat as Hlr by apply length_drop.
  assert (length got = max `min` length r)%nat as Hlg by apply length_take.
  assert (1 ≤ length r)%nat as Hpos by (cbn; lia).
  destruct got as [|g got'] eqn:Eg; [cbn in Hlg; lia|]. rewrite <-Eg in *. clear Eg g got'.
  set (b := carry ++ got). assert (text_ok b) as Hb by (by apply Forall_app).
  assert (length b = length carry + length got)%nat as Hlb by apply length_app.
  assert (carry ++ r = b ++ rest') as Er by (unfold b; by rewrite <-app_assoc, Hsplit). rewrite Er in *.
  destruct (grep_lines (length b) pattern b) as [out p'] eqn:E.
  destruct (grep_lines_correct (length b) pattern b rest' out p') as (H1 & H2 & H3 & [ls H4] & H5 & H6); [done..|].
  rewrite H1. destruct (Nat.eqb_spec (length p') (length b)) as [Heq|Hne].
  - destruct (H6 Heq) as [-> ->]. destruct (no_newline b rest') as [Hl1 Hl2]; [done..| |done|].
    { destruct (decide (length rest' = 0%nat)) as [E0|E0]; [left; by apply nil_length_inv|right; lia]. }
    rewrite (IH [] rest'); [|done|done|cbn; lia|done|rewrite app_nil_l, Hl2; constructor|lia].
    unfold grep_spec. by rewrite !app_nil_l, Hl1, Hl2.
  - rewrite (IH p' rest'); [done|done|done|lia|done| |lia]. rewrite H4 in Hl. by apply Forall_app in Hl as [_ Hl].
Qed.

(** On a file without NUL characters whose lines have at most 1022
    characters, [grep] terminates and prints exactly the lines that match, in
    order; characters after the last newline are never printed. *)
Theorem grep_prints_matching_lines pattern text :
  Forall (λ c, c ≠ 0) text → Forall (λ l, (length l ≤ 1022)%nat) (lines text) →
  grep (S (length text)) pattern [text] [] = Done (grep_spec pattern text).
Proof.
  intros Hok Hl. destruct text as [|c text]; [done|].
  apply (grep_file_from (S (length (c :: text))) pattern [] (c :: text)); [done|done|cbn; lia|done| |lia].
  eapply Forall_impl; [exact Hl|]. cbn. lia.
Qed.

Lemma grep_prints_matching_lines_witness :
  grep 13 (chars "b*c$") [chars "abbc" ++ [NL] ++ chars "bcd" ++ [NL] ++ chars "bbc"] []
  = Done (chars "abbc" ++ [NL]).
Proof.
  apply (grep_prints_matching_lines (chars "b*c$") (chars "abbc" ++ [NL] ++ chars "bcd" ++ [NL] ++ chars "bbc")).
  - repeat constructor; discriminate.
  - repeat constructor.
Defined.

(** The same line arriving in two pieces, as through a pipe, is lost: the
    buffer is dropped when it holds no newline. *)
Lemma grep_drops_split_lines :
  grep 10 (chars "abc") [chars "ab"; chars "c" ++ [NL]] [] = Done [] ∧
  grep 10 (chars "abc") [chars "abc" ++ [NL]] [] = Done (chars "abc" ++ [NL]).
Proof. split; reflexivity. Qed.
