(* ===== verification/Pipe.v ===== *)
(** * pipe.c: the pipe and its readers and writers

    [pipewrite] and [piperead] hold the pipe's lock except while they sleep,
    so the code from one sleep to the next is one atomic step.  [sys] is a
    pipe with any number of processes in its routines; [step] interleaves
    their steps with closing and killing. *)

From S2P Require Import Prelude Ring.

Definition PIPESIZE : Z := 512.

Record pipe := mk_pipe {
  data : list Z;
  nread : Z;
  nwrite : Z;
  readopen : Z;
  writeopen : Z;
}.

(** [pipealloc], the pipe itself: a page from [kalloc] with five fields set. *)
Definition pipe_init (d : list Z) : pipe := mk_pipe d 0 0 1 1.

Definition slot (i : Z) : nat := Z.to_nat (i mod PIPESIZE).

(** [p->data[p->nwrite++ % PIPESIZE] = c] *)
Definition put (c : Z) (p : pipe) : pipe :=
  mk_pipe (<[slot (nwrite p) := c]> (data p)) (nread p) (u32 (nwrite p + 1)) (readopen p) (writeopen p).

(** [addr[i] = p->data[p->nread++ % PIPESIZE]] *)
Definition take_byte (p : pipe) : Z * pipe :=
  (data p !!! slot (nread p), mk_pipe (data p) (u32 (nread p + 1)) (nwrite p) (readopen p) (writeopen p)).

Definition full (p : pipe) : bool := nwrite p =? u32 (nread p + PIPESIZE).
Definition empty (p : pipe) : bool := nread p =? nwrite p.

(** The loop of [pipewrite], up to the point where it sleeps or returns;
    [rest] are the bytes not yet copied. *)
Inductive wstatus := WSleep | WFail | WDone.

Fixpoint pipewrite_loop (killed : bool) (rest : list Z) (p : pipe) : wstatus * list Z * pipe :=
  match rest with
  | [] => (WDone, [], p)
  | c :: rest' =>
      if full p then
        if (readopen p =? 0) || killed then (WFail, rest, p) else (WSleep, rest, p)
      else pipewrite_loop killed rest' (put c p)
  end.

Fixpoint piperead_copy (n : nat) (p : pipe) : list Z * pipe :=
  match n with
  | O => ([], p)
  | S n' =>
      if empty p then ([], p)
      else let '(c, p) := take_byte p in
           let '(l, p) := piperead_copy n' p in (c :: l, p)
  end.

(** [None]: sleeps; [Some None]: returns -1; [Some (Some l)]: returns [l]. *)
Definition piperead_run (killed : bool) (n : Z) (p : pipe) : option (option (list Z)) * pipe :=
  if empty p && negb (writeopen p =? 0) then
    if killed then (Some None, p) else (None, p)
  else let '(l, p) := piperead_copy (Z.to_nat n) p in (Some (Some l), p).

(** Returns whether the pipe was freed. *)
Definition pipeclose (writable : bool) (p : pipe) : bool * pipe :=
  let p := if writable then mk_pipe (data p) (nread p) (nwrite p) (readopen p) 0
           else mk_pipe (data p) (nread p) (nwrite p) 0 (writeopen p) in
  ((readopen p =? 0) && (writeopen p =? 0), p).

(** ** Processes *)

Inductive thread :=
  | Writing (n : Z) (rest : list Z)
  | WriteSleep (n : Z) (rest : list Z)
  | WriteRet (r : Z)
  | Reading (n : Z)
  | ReadSleep (n : Z)
  | ReadRet (r : option (list Z)).

Definition wake_reader (t : thread) : thread := match t with ReadSleep n => Reading n | _ => t end.
Definition wake_writer (t : thread) : thread := match t with WriteSleep n r => Writing n r | _ => t end.

(** [accepted] and [delivered] record the bytes that [pipewrite] has copied in
    and [piperead] has copied out, in order. *)
Record sys := mk_sys {
  pp : pipe;
  freed : bool;
  threads : gmap nat thread;
  killed : gset nat;
  accepted : list Z;
  delivered : list Z;
}.

Definition writer_next (n : Z) (st : wstatus) (rest : list Z) : thread :=
  match st with WSleep => WriteSleep n rest | WFail => WriteRet (-1) | WDone => WriteRet n end.

(** [wakeup(&p->nread)]: before sleeping and at the end, not when failing. *)
Definition writer_wakes (st : wstatus) (ts : gmap nat thread) : gmap nat thread :=
  match st with WFail => ts | _ => wake_reader <$> ts end.

(** A process inside [piperead] or [pipewrite] has that end of the pipe open. *)
Definition uses_read (th : thread) : bool := match th with Reading _ | ReadSleep _ => true | _ => false end.
Definition uses_write (th : thread) : bool := match th with Writing _ _ | WriteSleep _ _ => true | _ => false end.

Inductive step : sys → sys → Prop :=
  | call_write s t n buf :
      writeopen (pp s) ≠ 0 → threads s !! t = None → length buf = Z.to_nat n →
      step s (mk_sys (pp s) (freed s) (<[t := Writing n buf]> (threads s)) (killed s) (accepted s) (delivered s))
  | call_read s t n :
      readopen (pp s) ≠ 0 → threads s !! t = None →
      step s (mk_sys (pp s) (freed s) (<[t := Reading n]> (threads s)) (killed s) (accepted s) (delivered s))
  | run_write s t n rest st rest' p :
      threads s !! t = Some (Writing n rest) →
      pipewrite_loop (bool_decide (t ∈ killed s)) rest (pp s) = (st, rest', p) →
      step s (mk_sys p (freed s) (<[t := writer_next n st rest']> (writer_wakes st (threads s))) (killed s)
        (accepted s ++ take (length rest - length rest') rest) (delivered s))
  | run_read s t n r p :
      threads s !! t = Some (Reading n) →
      piperead_run (bool_decide (t ∈ killed s)) n (pp s) = (r, p) →
      step s (match r with
              | None => mk_sys p (freed s) (<[t := ReadSleep n]> (threads s)) (killed s) (accepted s) (delivered s)
              | Some None => mk_sys p (freed s) (<[t := ReadRet None]> (threads s)) (killed s) (accepted s) (delivered s)
              | Some (Some l) => mk_sys p (freed s) (<[t := ReadRet (Some l)]> (wake_writer <$> threads s)) (killed s)
                                   (accepted s) (delivered s ++ l)
              end)
  | close_end s w b p :
      freed s = false → pipeclose w (pp s) = (b, p) →
      (∀ t th, threads s !! t = Some th → (if w then uses_write th else uses_read th) = false) →
      step s (mk_sys p b ((if w then wake_reader else wake_writer) <$> threads s) (killed s) (accepted s) (delivered s))
  | kill s t :
      step s (mk_sys (pp s) (freed s) (alter (wake_writer ∘ wake_reader) t (threads s)) ({[t]} ∪ killed s)
        (accepted s) (delivered s)).

(** ** The queue *)

(** The bytes in the pipe, oldest first. *)
Definition queue (p : pipe) : list Z :=
  window PIPESIZE (data p) (nread p) (Z.to_nat (dist (nread p) (nwrite p))).

Record pipe_ok (p : pipe) : Prop := {
  po_len : length (data p) = Z.to_nat PIPESIZE;
  po_nread : 0 ≤ nread p < 2 ^ 32;
  po_nwrite : 0 ≤ nwrite p < 2 ^ 32;
  po_size : dist (nread p) (nwrite p) ≤ PIPESIZE;
}.

Lemma pipesize_ring : 0 < PIPESIZE ∧ (PIPESIZE | 2 ^ 32).
Proof. split; [done|]. by exists (2 ^ 23). Qed.

Lemma queue_length p : Z.of_nat (length (queue p)) = dist (nread p) (nwrite p).
Proof. unfold queue. rewrite length_window. pose proof (dist_range (nread p) (nwrite p)). lia. Qed.

Lemma empty_queue p : pipe_ok p → empty p = true ↔ queue p = [].
Proof.
  intros Hp. pose proof (queue_length p) as Hq. unfold empty. rewrite Z.eqb_eq.
  rewrite <-(dist_zero (nread p) (nwrite p)) by apply Hp. rewrite <-Hq.
  destruct (queue p); cbn; split; (done || lia).
Qed.

Lemma full_queue p : pipe_ok p → full p = true ↔ Z.of_nat (length (queue p)) = PIPESIZE.
Proof.
  intros Hp. rewrite queue_length. unfold full. rewrite Z.eqb_eq. symmetry. apply dist_full; [apply Hp|done].
Qed.

Lemma put_queue c p :
  pipe_ok p → full p = false → pipe_ok (put c p) ∧ queue (put c p) = queue p ++ [c].
Proof.
  intros Hp Hf. pose proof Hp as [Hl Hr Hw Hs]. destruct pipesize_ring as [Hpos Hdiv]. pose proof (dist_range (nread p) (nwrite p)) as Hd.
  assert (dist (nread p) (nwrite p) < PIPESIZE) as Hlt.
  { assert (Z.of_nat (length (queue p)) ≠ PIPESIZE) as H by (intros E; apply full_queue in E; [congruence|done]).
    rewrite queue_length in H. lia. }
  assert (dist (nread p) (u32 (nwrite p + 1)) = dist (nread p) (nwrite p) + 1) as Ek by (apply dist_move; unfold PIPESIZE in *; lia).
  split; [split; cbn [data nread nwrite put]; [by rewrite length_insert|done|apply u32_range|lia]|].
  unfold queue. cbn [data nread nwrite put]. rewrite Ek. change slot with (cell PIPESIZE). rewrite (cell_dist PIPESIZE Hdiv (nread p) (nwrite p)).
  replace (Z.to_nat (_ + 1)) with (S (Z.to_nat (dist (nread p) (nwrite p)))) by lia.
  rewrite <-(Z2Nat.id (dist (nread p) (nwrite p))) at 1 by lia. apply window_snoc; [done|done|lia].
Qed.

Lemma take_queue p :
  pipe_ok p → empty p = false →
  pipe_ok (take_byte p).2 ∧ queue p = (take_byte p).1 :: queue (take_byte p).2.
Proof.
  intros Hp He. pose proof Hp as [Hl Hr Hw Hs]. destruct pipesize_ring as [Hpos Hdiv]. pose proof (dist_range (nread p) (nwrite p)) as Hd.
  assert (0 < dist (nread p) (nwrite p)) as Hlt.
  { destruct (decide (dist (nread p) (nwrite p) = 0)) as [E|]; [|lia]. apply (dist_zero (nread p) (nwrite p)) in E; [|done|done].
    unfold empty in He. rewrite E, Z.eqb_refl in He. done. }
  assert (dist (u32 (nread p + 1)) (nwrite p) = dist (nread p) (nwrite p) - 1) as Ek by (apply dist_skip; lia).
  split; [split; cbn [take_byte snd data nread nwrite]; [done|apply u32_range|done|lia]|].
  unfold queue. cbn [take_byte fst snd data nread nwrite]. rewrite Ek.
  replace (Z.to_nat (dist (nread p) (nwrite p))) with (S (Z.to_nat (dist (nread p) (nwrite p) - 1))) by lia.
  by apply window_cons.
Qed.

(** ** The routines *)

Lemma pipewrite_loop_correct k rest p st rest' p' :
  pipe_ok p → pipewrite_loop k rest p = (st, rest', p') →
  pipe_ok p' ∧ (∃ sent, rest = sent ++ rest' ∧ queue p' = queue p ++ sent) ∧
  readopen p' = readopen p ∧ writeopen p' = writeopen p ∧
  match st with
  | WSleep => rest' ≠ [] ∧ full p' = true ∧ readopen p' ≠ 0 ∧ k = false
  | WFail => full p' = true ∧ (readopen p' = 0 ∨ k = true)
  | WDone => rest' = []
  end.
Proof.
  revert p. induction rest as [|c rest IH]; intros p Hp; cbn [pipewrite_loop].
  { intros [= <- <- <-]. split_and!; try done. exists []. by rewrite !app_nil_r. }
  destruct (full p) eqn:Ef.
  - destruct (Z.eqb_spec (readopen p) 0) as [Er|Er]; cbn [orb].
    + intros [= <- <- <-]. split_and!; try done; [exists []; by rewrite ?app_nil_r|by left].
    + destruct k; intros [= <- <- <-]; split_and!; try done; [exists []; by rewrite ?app_nil_r|by right|exists []; by rewrite ?app_nil_r].
  - intros E. destruct (put_queue c p Hp Ef) as [Hp1 Hq1].
    destruct (IH _ Hp1 E) as (H1 & (sent & -> & Hq2) & H3 & H4 & H5). split_and!; try done.
    exists (c :: sent). split; [done|]. by rewrite Hq2, Hq1, <-app_assoc.
Qed.

Lemma piperead_copy_correct n p l p' :
  pipe_ok p → piperead_copy n p = (l, p') →
  pipe_ok p' ∧ queue p = l ++ queue p' ∧ readopen p' = readopen p ∧ writeopen p' = writeopen p ∧
  l = take n (queue p).
Proof.
  revert p l. induction n as [|n IH]; intros p l Hp; cbn [piperead_copy]; [by intros [= <- <-]|].
  destruct (empty p) eqn:Ee.
  - intros [= <- <-]. apply empty_queue in Ee; [|done]. by rewrite Ee.
  - destruct (take_queue p Hp Ee) as [Hp1 Hq1]. unfold take_byte in *. cbn [fst snd] in *.
    destruct (piperead_copy n _) as [l1 p1] eqn:E1. intros [= <- <-].
    destruct (IH _ _ Hp1 E1) as (H1 & H2 & H3 & H4 & H5). rewrite Hq1. split_and!; [done|by rewrite H2|done|done|].
    cbn. by rewrite <-H5.
Qed.

(** ** The invariant *)

(** While a process is in a routine its end of the pipe is open; while it
    sleeps, the condition it waits for does not hold.  The exception: a killed
    writer returns without waking the readers, whatever it has written. *)
Definition thread_ok (p : pipe) (k : gset nat) (t : nat) (th : thread) : Prop :=
  match th with
  | Writing _ _ => writeopen p ≠ 0
  | Reading _ => readopen p ≠ 0
  | WriteSleep _ _ => writeopen p ≠ 0 ∧ full p = true ∧ readopen p ≠ 0 ∧ t ∉ k
  | ReadSleep _ => readopen p ≠ 0 ∧ (empty p = true ∨ k ≠ ∅) ∧ writeopen p ≠ 0 ∧ t ∉ k
  | _ => True
  end.

Record inv (s : sys) : Prop := {
  iv_pipe : pipe_ok (pp s);
  iv_fifo : accepted s = delivered s ++ queue (pp s);
  iv_thread t th : threads s !! t = Some th → thread_ok (pp s) (killed s) t th;
}.

Definition same_ends (p p' : pipe) : Prop := readopen p' = readopen p ∧ writeopen p' = writeopen p.

(** The others, after a step that wakes the readers and adds to the pipe. *)
Lemma wake_reader_ok p p' k t th :
  thread_ok p k t th → (full p = true → full p' = true) → same_ends p p' → thread_ok p' k t (wake_reader th).
Proof. intros H Hf [E1 E2]. destruct th; cbn in *; rewrite ?E1, ?E2; naive_solver. Qed.

(** The same for waking the writers and taking from the pipe. *)
Lemma wake_writer_ok p p' k t th :
  thread_ok p k t th → (empty p = true → empty p' = true) → same_ends p p' → thread_ok p' k t (wake_writer th).
Proof. intros H Hf [E1 E2]. destruct th; cbn in *; rewrite ?E1, ?E2; naive_solver. Qed.

(** After a writer that failed: there are no readers, or it was killed. *)
Lemma failed_writer_ok p p' k t th :
  thread_ok p k t th → (full p = true → full p' = true) → same_ends p p' → readopen p' = 0 ∨ k ≠ ∅ →
  thread_ok p' k t th.
Proof. intros H Hf [E1 E2] Hc. destruct th; cbn in *; rewrite ?E1, ?E2 in *; naive_solver. Qed.

Lemma inv_run_write s t n rest st rest' p :
  inv s → threads s !! t = Some (Writing n rest) →
  pipewrite_loop (bool_decide (t ∈ killed s)) rest (pp s) = (st, rest', p) →
  inv (mk_sys p (freed s) (<[t := writer_next n st rest']> (writer_wakes st (threads s))) (killed s)
    (accepted s ++ take (length rest - length rest') rest) (delivered s)).
Proof.
  intros [Hp Hq Hs] Ht E. destruct (pipewrite_loop_correct _ _ _ _ _ _ Hp E) as (Hp' & (sent & Er & Hq') & Hr & Hw & Hst).
  assert (same_ends (pp s) p) as He by done.
  assert (full (pp s) = true → full p = true) as Hfull.
  { intros Hf. apply full_queue in Hf; [|done]. apply full_queue; [done|]. pose proof (po_size _ Hp') as Hmax.
    rewrite <-queue_length in Hmax by done. rewrite Hq', length_app in *. lia. }
  split; cbn [pp accepted delivered threads killed]; [done| |].
  - rewrite Er, Hq, Hq', length_app. replace (length sent + length rest' - length rest')%nat with (length sent) by lia.
    by rewrite take_app_length, app_assoc.
  - intros t' th. destruct (decide (t' = t)) as [->|Ht'].
    + rewrite lookup_insert_eq. intros [= <-]. specialize (Hs _ _ Ht). destruct st; cbn in *; [|done|done].
      destruct Hst as (_ & H1 & H2 & H3). rewrite Hw. by apply bool_decide_eq_false in H3.
    + rewrite lookup_insert_ne by done. unfold writer_wakes. destruct st.
      1,3: rewrite lookup_fmap; destruct (threads s !! t') as [th0|] eqn:E0; [|done]; intros [= <-];
        apply (wake_reader_ok (pp s)); [by apply Hs|done|done].
      intros H. apply (failed_writer_ok (pp s)); [by apply Hs|done|done|].
      destruct Hst as [_ [H0|Hk]]; [by left|right]. apply bool_decide_eq_true in Hk. set_solver.
Qed.

Lemma inv_run_read s t n r p :
  inv s → threads s !! t = Some (Reading n) →
  piperead_run (bool_decide (t ∈ killed s)) n (pp s) = (r, p) →
  inv (match r with
       | None => mk_sys p (freed s) (<[t := ReadSleep n]> (threads s)) (killed s) (accepted s) (delivered s)
       | Some None => mk_sys p (freed s) (<[t := ReadRet None]> (threads s)) (killed s) (accepted s) (delivered s)
       | Some (Some l) => mk_sys p (freed s) (<[t := ReadRet (Some l)]> (wake_writer <$> threads s)) (killed s)
                            (accepted s) (delivered s ++ l)
       end).
Proof.
  intros [Hp Hq Hs] Ht. unfold piperead_run. destruct (empty (pp s)) eqn:Ee; cbn [andb].
  1: destruct (Z.eqb_spec (writeopen (pp s)) 0) as [Ew|Ew]; cbn [negb].
  2: { case_bool_decide as Hk; intros [= <- <-]; (split; cbn [pp accepted delivered threads killed]; [done|done|]);
         intros t' th; (destruct (decide (t' = t)) as [->|Ht'];
           [rewrite lookup_insert_eq; intros [= <-]|rewrite lookup_insert_ne by done; apply Hs]); [done|].
       specialize (Hs _ _ Ht). cbn in *. auto. }
  all: destruct (piperead_copy _ (pp s)) as [l p1] eqn:E; intros [= <- <-];
    destruct (piperead_copy_correct _ _ _ _ Hp E) as (Hp' & Hq' & Hr & Hw & _).
  all: assert (empty (pp s) = true → empty p1 = true) as Hemp by
    (intros He; apply empty_queue in He; [|done]; rewrite He in Hq'; apply empty_queue; [done|]; by destruct l).
  all: split; cbn [pp accepted delivered threads killed]; [done|by rewrite Hq, Hq', app_assoc|].
  all: intros t' th; (destruct (decide (t' = t)) as [->|Ht']; [rewrite lookup_insert_eq; by intros [= <-]|]).
  all: rewrite lookup_insert_ne, lookup_fmap by done; destruct (threads s !! t') as [th0|] eqn:E0; [|done]; intros [= <-];
    apply (wake_writer_ok (pp s)); [by apply Hs|done|done].
Qed.

Lemma pipe_inv_step s s' : step s s' → inv s → inv s'.
Proof.
  destruct 1 as [s t n buf Hw Ht _|s t n Hr Ht|s t n rest st rest' p Ht E|s t n r p Ht E|s w b p _ E Hu|s t]; intros Hi.
  - destruct Hi as [Hp Hq Hs]. split; cbn; [done..|]. intros t' th [[<- <-]|[_ H]]%lookup_insert_Some; [done|by apply Hs].
  - destruct Hi as [Hp Hq Hs]. split; cbn; [done..|]. intros t' th [[<- <-]|[_ H]]%lookup_insert_Some; [done|by apply Hs].
  - by apply (inv_run_write s t n rest).
  - by apply (inv_run_read s t n).
  - destruct Hi as [Hp Hq Hs]. unfold pipeclose in E. injection E as <- <-.
    destruct w; (split; cbn; [by destruct Hp|done|]); intros t' th; rewrite lookup_fmap;
      destruct (threads s !! t') as [th0|] eqn:E0; try done; intros [= <-];
      specialize (Hs _ _ E0); specialize (Hu _ _ E0); destruct th0; cbn in *; naive_solver.
  - destruct Hi as [Hp Hq Hs]. split; cbn; [done..|]. intros t' th. destruct (decide (t' = t)) as [->|Ht'].
    + rewrite lookup_alter_eq. destruct (threads s !! t) as [th0|] eqn:E0; [|done]. intros [= <-].
      specialize (Hs _ _ E0). destruct th0; cbn in *; naive_solver.
    + rewrite lookup_alter_ne by done. intros H. specialize (Hs _ _ H). destruct th; cbn in *; set_solver.
Qed.

(** A pipe as [pipealloc] leaves it. *)
Definition sys0 (d : list Z) : sys := mk_sys (pipe_init d) false ∅ ∅ [] [].

Lemma pipe_inv_reachable d s : length d = Z.to_nat PIPESIZE → rtc step (sys0 d) s → inv s.
Proof.
  intros Hd Hr. assert (inv (sys0 d)) as H0.
  { split; cbn; [split; cbn; (done || unfold PIPESIZE; lia)|done|done]. }
  revert H0. induction Hr as [|x y z Hxy _ IH]; [done|]. intros Hx. by apply IH, (pipe_inv_step x).
Qed.

(** ** Properties *)

(** C29: in every reachable state, whatever the interleaving of readers,
    writers, closes and kills and across wrap-around of the counters, the
    bytes delivered to readers are the bytes accepted from writers, in order,
    with at most [PIPESIZE] bytes in between; and a read returns the oldest of
    these. *)
Theorem pipe_fifo d s :
  length d = Z.to_nat PIPESIZE → rtc step (sys0 d) s →
  accepted s = delivered s ++ queue (pp s) ∧ (length (queue (pp s)) ≤ Z.to_nat PIPESIZE)%nat ∧
  ∀ k n l p, piperead_run k n (pp s) = (Some (Some l), p) → l = take (Z.to_nat n) (queue (pp s)).
Proof.
  intros Hd Hr. destruct (pipe_inv_reachable d s Hd Hr) as [Hp Hq _]. split_and!; [done| |].
  - pose proof (queue_length (pp s)). pose proof (po_size _ Hp). lia.
  - intros k n l p. unfold piperead_run. destruct (empty (pp s) && _); [by destruct k|].
    destruct (piperead_copy _ _) as [l1 p1] eqn:E. intros [= <- <-]. by apply (piperead_copy_correct _ _ _ _ Hp E).
Qed.

(** C36: no wakeup is lost as long as no process is killed: a process that
    sleeps in [pipewrite] finds the pipe full and its read end open, one that
    sleeps in [piperead] finds it empty and its write end open; so there are
    never sleepers of both kinds. *)
Theorem pipe_no_lost_wakeup d s :
  length d = Z.to_nat PIPESIZE → rtc step (sys0 d) s → killed s = ∅ →
  (∀ t n rest, threads s !! t = Some (WriteSleep n rest) → full (pp s) = true ∧ readopen (pp s) ≠ 0) ∧
  (∀ t n, threads s !! t = Some (ReadSleep n) → empty (pp s) = true ∧ writeopen (pp s) ≠ 0) ∧
  ¬ (∃ t n rest t' n', threads s !! t = Some (WriteSleep n rest) ∧ threads s !! t' = Some (ReadSleep n')).
Proof.
  intros Hd Hr Hk. destruct (pipe_inv_reachable d s Hd Hr) as [Hp _ Hs]. rewrite Hk in Hs.
  assert (∀ t n rest, threads s !! t = Some (WriteSleep n rest) → full (pp s) = true ∧ readopen (pp s) ≠ 0) as H1.
  { intros t n rest H. destruct (Hs _ _ H) as (_ & ? & ? & _). done. }
  assert (∀ t n, threads s !! t = Some (ReadSleep n) → empty (pp s) = true ∧ writeopen (pp s) ≠ 0) as H2.
  { intros t n H. destruct (Hs _ _ H) as (_ & [?|?] & ? & _); done. }
  split_and!; [done..|]. intros (t & n & rest & t' & n' & Hw & Hr'). destruct (H1 _ _ _ Hw) as [Hf _]. destruct (H2 _ _ Hr') as [He _].
  apply full_queue in Hf; [|done]. apply empty_queue in He; [|done]. by rewrite He in Hf.
Qed.

(** A writer with 513 bytes fills the pipe and sleeps. *)
Definition demo_buf : list Z := replicate 513 7.
Definition demo_called : sys := mk_sys (pipe_init (replicate 512 0)) false {[ 1%nat := Writing 513 demo_buf ]} ∅ [] [].
Definition demo_full : pipe := mk_pipe (replicate 512 7) 0 512 1 1.
Definition demo_sleeping : sys :=
  mk_sys demo_full false {[ 1%nat := WriteSleep 513 [7] ]} ∅ (replicate 512 7) [].

Lemma demo_sleeping_reachable : rtc step (sys0 (replicate 512 0)) demo_sleeping.
Proof.
  apply rtc_l with demo_called; [by apply (call_write (sys0 _) 1 513 demo_buf)|].
  apply rtc_once. exact (run_write demo_called 1 513 demo_buf WSleep [7] demo_full eq_refl eq_refl).
Qed.

Lemma pipe_fifo_witness : accepted demo_sleeping = delivered demo_sleeping ++ queue (pp demo_sleeping).
Proof. exact (proj1 (pipe_fifo (replicate 512 0) demo_sleeping eq_refl demo_sleeping_reachable)). Defined.

Lemma pipe_no_lost_wakeup_witness : full (pp demo_sleeping) = true ∧ readopen (pp demo_sleeping) ≠ 0.
Proof.
  exact (proj1 (pipe_no_lost_wakeup (replicate 512 0) demo_sleeping eq_refl demo_sleeping_reachable eq_refl) 1%nat 513 [7] eq_refl).
Defined.

(** The exception: reader 0 sleeps on the empty pipe, writer 1 is killed and
    then writes 512 of its 513 bytes; it returns -1 without a wakeup, and the
    reader sleeps on although the pipe is full. *)
Lemma killed_writer_strands_reader :
  ∃ s, rtc step (sys0 (replicate 512 0)) s ∧ threads s !! 0%nat = Some (ReadSleep 1) ∧
       threads s !! 1%nat = Some (WriteRet (-1)) ∧ length (queue (pp s)) = 512%nat.
Proof.
  set (p0 := pipe_init (replicate 512 0)).
  set (s1 := mk_sys p0 false {[ 0%nat := Reading 1 ]} ∅ [] []).
  set (s2 := mk_sys p0 false {[ 0%nat := ReadSleep 1 ]} ∅ [] []).
  set (s3 := mk_sys p0 false {[ 0%nat := ReadSleep 1; 1%nat := Writing 513 demo_buf ]} ∅ [] []).
  set (s4 := mk_sys p0 false {[ 0%nat := ReadSleep 1; 1%nat := Writing 513 demo_buf ]} {[ 1%nat ]} [] []).
  exists (mk_sys demo_full false {[ 0%nat := ReadSleep 1; 1%nat := WriteRet (-1) ]} {[ 1%nat ]} (replicate 512 7) []).
  split; [|by vm_compute].
  apply rtc_l with s1; [by apply (call_read (sys0 _) 0 1)|].
  apply rtc_l with s2; [exact (run_read s1 0 1 None p0 eq_refl eq_refl)|].
  apply rtc_l with s3; [by apply (call_write s2 1 513 demo_buf)|].
  apply rtc_l with s4; [exact (kill s3 1)|].
  apply rtc_once. exact (run_write s4 1 513 demo_buf WFail [7] demo_full eq_refl eq_refl).
Qed.
