(* ===== verification/User.v ===== *)
(** * User programs

    A user program is a tree of system calls: what it does after a call
    depends on the answer.  This file has the calls of usys.S, the library
    routines of ulib.c and printf.c that make calls, and the small programs
    cat, wc, echo, ln, mkdir, rm, kill, ls, init, zombie, arptest, forktest
    and stressfs. *)

From S2P Require Import Prelude CString Fs Sysfile.

(** ** System calls *)

Record ustat := mk_ustat { us_type : Z; us_ino : Z; us_size : Z }.

Inductive sys :=
  | SysFork | SysWait | SysPipe
  | SysRead (fd n : Z) | SysWrite (fd : Z) (data : list Z) | SysClose (fd : Z) | SysFstat (fd : Z) | SysDup (fd : Z)
  | SysKill (pid : Z) | SysExec (path : list Z) (argv : list (list Z)) | SysOpen (path : list Z) (mode : Z)
  | SysMknod (path : list Z) (major minor : Z) | SysUnlink (path : list Z) | SysLink (old new : list Z)
  | SysMkdir (path : list Z) | SysChdir (path : list Z) | SysSleep (n : Z)
  | SysArp (interface ip : list Z) (size : Z).

(** The result of a call, with what it stores through its pointers. *)
Definition ans (c : sys) : Type :=
  match c with
  | SysPipe => Z * (Z * Z)
  | SysRead _ _ => Z * list Z
  | SysFstat _ => Z * ustat
  | SysArp _ _ _ => Z * list Z
  | _ => Z
  end.

(** [Exit]: the process has called [exit].  [Fault]: an access outside an
    array, or a loop that did not end within its fuel. *)
Inductive prog (A : Type) :=
  | Ret (a : A)
  | Exit
  | Fault (e : err)
  | Sys (c : sys) (k : ans c → prog A).
Arguments Ret {A} a.
Arguments Exit {A}.
Arguments Fault {A} e.
Arguments Sys {A} c k.

Fixpoint pbind {A B} (m : prog A) (f : A → prog B) : prog B :=
  match m with
  | Ret a => f a
  | Exit => Exit
  | Fault e => Fault e
  | Sys c k => Sys c (λ r, pbind (k r) f)
  end.

Definition call (c : sys) : prog (ans c) := Sys c Ret.

Declare Scope user_scope.
Notation "'let*' x := m 'in' k" := (pbind m (λ x, k)) (at level 10, x name, m at level 100, k at level 200) : user_scope.
Notation "m ';*' k" := (pbind m (λ _, k)) (at level 100, k at level 200, right associativity) : user_scope.
#[global] Open Scope user_scope.

(** The characters of a string constant, in which [\n] is a newline. *)
Fixpoint chars (s : string) : list Z :=
  match s with
  | EmptyString => []
  | String a s' =>
      match s' with
      | String b s'' =>
          if (Ascii.N_of_ascii a =? 92)%N && (Ascii.N_of_ascii b =? 110)%N then 10 :: chars s''
          else Z.of_N (Ascii.N_of_ascii a) :: chars s'
      | EmptyString => [Z.of_N (Ascii.N_of_ascii a)]
      end
  end.
Definition chr (s : string) : Z := default 0 (head (chars s)).
Abbreviation newline := 10.

(** The string in the bytes of an array. *)
Fixpoint c_str (l : list Z) : list Z :=
  match l with [] => [] | c :: l' => if c =? 0 then [] else c :: c_str l' end.

(** ** printf.c *)

Definition putc (fd c : Z) : prog unit := call (SysWrite fd [u8 c]);* Ret tt.

Fixpoint puts (fd : Z) (l : list Z) : prog unit :=
  match l with [] => Ret tt | c :: l' => putc fd c;* puts fd l' end.

Definition digits : list Z := chars "0123456789ABCDEF".

(** The loop that fills [buf]; [buf] is kept with its last byte first, and
    [n] bytes of it are left. *)
Fixpoint printint_loop (n : nat) (x base : Z) (buf : list Z) : option (list Z) :=
  match n with
  | O => None
  | S n' =>
      let buf := digits !!! Z.to_nat (x mod base) :: buf in
      let x := x / base in
      if x =? 0 then Some buf else printint_loop n' x base buf
  end.

Definition printint (fd xx base : Z) (sgn : bool) : prog unit :=
  let neg := sgn && (xx <? 0) in
  let x := if neg then u32 (- xx) else u32 xx in
  match printint_loop 16 x base [] with
  | None => Fault (EOob "buf")
  | Some buf =>
      if neg then
        if (16 <=? length buf)%nat then Fault (EOob "buf") else puts fd (chr "-" :: buf)
      else puts fd buf
  end.

(** The words above [fmt] on the stack: an integer or a string. *)
Inductive arg := AInt (v : Z) | AStr (s : option (list Z)).

Definition print_str (fd : Z) (s : option (list Z)) : prog unit :=
  puts fd (match s with Some l => l | None => chars "(null)" end).

(** One conversion; the arguments that are left. *)
Definition convert (fd c : Z) (ap : list arg) : prog (list arg) :=
  if c =? chr "d" then
    match ap with AInt v :: ap' => printint fd v 10 true;* Ret ap' | _ => Fault (EOob "ap") end
  else if (c =? chr "x") || (c =? chr "p") then
    match ap with AInt v :: ap' => printint fd v 16 false;* Ret ap' | _ => Fault (EOob "ap") end
  else if c =? chr "s" then
    match ap with AStr s :: ap' => print_str fd s;* Ret ap' | _ => Fault (EOob "ap") end
  else if c =? chr "c" then
    match ap with AInt v :: ap' => putc fd v;* Ret ap' | _ => Fault (EOob "ap") end
  else if c =? chr "%" then putc fd c;* Ret ap
  else putc fd (chr "%");* putc fd c;* Ret ap.

(** [for(i = 0; fmt[i]; i++)]; [state] is true after a [%]. *)
Fixpoint printf_loop (fd : Z) (fmt : list Z) (state : bool) (ap : list arg) : prog unit :=
  match fmt with
  | [] => Ret tt
  | c :: fmt' =>
      if state then let* ap := convert fd c ap in printf_loop fd fmt' false ap
      else if c =? chr "%" then printf_loop fd fmt' true ap
      else putc fd c;* printf_loop fd fmt' false ap
  end.

Definition printf (fd : Z) (fmt : string) (ap : list arg) : prog unit := printf_loop fd (chars fmt) false ap.

(** ** ulib.c *)

(** [for(i=0; i+1 < max; )] with [n] iterations left; [buf] is kept with its
    last byte first.  [buf] is uninitialised past the bytes written. *)
Fixpoint gets_loop (n : nat) (buf : list Z) : prog (list Z) :=
  match n with
  | O => Ret buf
  | S n' =>
      let* r := call (SysRead 0 1) in
      if fst r <? 1 then Ret buf
      else
        let c := default 0 (head (snd r)) in
        if (c =? newline) || (c =? 13) then Ret (c :: buf) else gets_loop n' (c :: buf)
  end.

(** The bytes before the final 0. *)
Definition ulib_gets (max : Z) : prog (list Z) :=
  let* buf := gets_loop (Z.to_nat (max - 1)) [] in Ret (rev buf).

Definition stat (n : list Z) : prog (Z * ustat) :=
  let* fd := call (SysOpen n O_RDONLY) in
  if fd <? 0 then Ret (-1, mk_ustat 0 0 0)
  else
    let* r := call (SysFstat fd) in
    call (SysClose fd);*
    Ret r.

(** ** cat.c *)
Module Cat.
Definition cat_bufsize : Z := 512.

Fixpoint cat (fuel : nat) (fd : Z) : prog unit :=
  match fuel with
  | O => Fault EFuel
  | S fuel =>
      let* r := call (SysRead fd cat_bufsize) in
      let n := fst r in
      if 0 <? n then
        let* w := call (SysWrite 1 (snd r)) in
        if negb (w =? n) then printf 1 "cat: write error\n" [];* Exit
        else cat fuel fd
      else if n <? 0 then printf 1 "cat: read error\n" [];* Exit
      else Ret tt
  end.

Fixpoint cat_files (fuel : nat) (argv : list (list Z)) : prog unit :=
  match argv with
  | [] => Exit
  | a :: argv' =>
      let* fd := call (SysOpen a 0) in
      if fd <? 0 then printf 1 "cat: cannot open %s\n" [AStr (Some a)];* Exit
      else
        cat fuel fd;*
        call (SysClose fd);*
        cat_files fuel argv'
  end.

(** [argv] without the name of the program. *)
Definition cat_main (fuel : nat) (argv : list (list Z)) : prog unit :=
  if (length argv =? 0)%nat then cat fuel 0;* Exit else cat_files fuel argv.
End Cat.

(** ** wc.c *)
Module Wc.
Definition wc_bufsize : Z := 512.
Definition spaces : list Z := [32; 13; 9; newline; 11].

(** Lines, words, characters and [inword]. *)
Record counts := mk_counts { wc_l : Z; wc_w : Z; wc_c : Z; inword : bool }.

Definition wc_count (b : Z) (s : counts) : counts :=
  let s := mk_counts (wc_l s) (wc_w s) (s32 (wc_c s + 1)) (inword s) in
  let s := if b =? newline then mk_counts (s32 (wc_l s + 1)) (wc_w s) (wc_c s) (inword s) else s in
  if bool_decide (b ∈ spaces) then mk_counts (wc_l s) (wc_w s) (wc_c s) false
  else if negb (inword s) then mk_counts (wc_l s) (s32 (wc_w s + 1)) (wc_c s) true
  else s.

Fixpoint count_all (l : list Z) (s : counts) : counts :=
  match l with [] => s | b :: l' => count_all l' (wc_count b s) end.

Fixpoint wc_loop (fuel : nat) (fd : Z) (s : counts) : prog (Z * counts) :=
  match fuel with
  | O => Fault EFuel
  | S fuel =>
      let* r := call (SysRead fd wc_bufsize) in
      if 0 <? fst r then wc_loop fuel fd (count_all (snd r) s) else Ret (fst r, s)
  end.

Definition wc (fuel : nat) (fd : Z) (name : list Z) : prog unit :=
  let* r := wc_loop fuel fd (mk_counts 0 0 0 false) in
  let s := snd r in
  if fst r <? 0 then printf 1 "wc: read error\n" [];* Exit
  else printf 1 "%d %d %d %s\n" [AInt (wc_l s); AInt (wc_w s); AInt (wc_c s); AStr (Some name)].

Fixpoint wc_files (fuel : nat) (argv : list (list Z)) : prog unit :=
  match argv with
  | [] => Exit
  | a :: argv' =>
      let* fd := call (SysOpen a 0) in
      if fd <? 0 then printf 1 "wc: cannot open %s\n" [AStr (Some a)];* Exit
      else
        wc fuel fd a;*
        call (SysClose fd);*
        wc_files fuel argv'
  end.

Definition wc_main (fuel : nat) (argv : list (list Z)) : prog unit :=
  if (length argv =? 0)%nat then wc fuel 0 [];* Exit else wc_files fuel argv.
End Wc.

(** ** The other programs *)

Module Echo.
Fixpoint echo_main (argv : list (list Z)) : prog unit :=
  match argv with
  | [] => Exit
  | a :: argv' => printf 1 "%s%s" [AStr (Some a); AStr (Some (chars (if (1 <? length argv)%nat then " " else "\n")))];* echo_main argv'
  end.
End Echo.

Module Ln.
Definition ln_main (argv : list (list Z)) : prog unit :=
  match argv with
  | [old; new] =>
      let* r := call (SysLink old new) in
      (if r <? 0 then printf 2 "link %s %s: failed\n" [AStr (Some old); AStr (Some new)] else Ret tt);*
      Exit
  | _ => printf 2 "Usage: ln old new\n" [];* Exit
  end.
End Ln.

Module Mkdir.
Fixpoint mkdir_each (argv : list (list Z)) : prog unit :=
  match argv with
  | [] => Ret tt
  | a :: argv' =>
      let* r := call (SysMkdir a) in
      if r <? 0 then printf 2 "mkdir: %s failed to create\n" [AStr (Some a)] else mkdir_each argv'
  end.
Definition mkdir_main (argv : list (list Z)) : prog unit :=
  if (length argv <? 1)%nat then printf 2 "Usage: mkdir files...\n" [];* Exit else mkdir_each argv;* Exit.
End Mkdir.

Module Rm.
Fixpoint rm_each (argv : list (list Z)) : prog unit :=
  match argv with
  | [] => Ret tt
  | a :: argv' =>
      let* r := call (SysUnlink a) in
      if r <? 0 then printf 2 "rm: %s failed to delete\n" [AStr (Some a)] else rm_each argv'
  end.
Definition rm_main (argv : list (list Z)) : prog unit :=
  if (length argv <? 1)%nat then printf 2 "Usage: rm files...\n" [];* Exit else rm_each argv;* Exit.
End Rm.

Module Kill.
Fixpoint kill_each (argv : list (list Z)) : prog unit :=
  match argv with
  | [] => Ret tt
  | a :: argv' => call (SysKill (atoi a));* kill_each argv'
  end.
Definition kill_main (argv : list (list Z)) : prog unit :=
  if (length argv <? 1)%nat then printf 2 "usage: kill pid...\n" [];* Exit else kill_each argv;* Exit.
End Kill.

Module Zombie.
Definition zombie_main : prog unit :=
  let* pid := call SysFork in
  (if 0 <? pid then call (SysSleep 5);* Ret tt else Ret tt);*
  Exit.
End Zombie.

(** The memory of [malloc] is used only for the answer. *)
Module Arptest.
Definition arptest_main : prog unit :=
  let ip := chars "192.168.2.1" in
  let* r := call (SysArp (chars "mynet0") ip 18) in
  (if fst r <? 0 then printf 1 "ARP for IP:%s Failed.\n" [AStr (Some ip)] else Ret tt);*
  Exit.
End Arptest.

Module Init.
Definition init_argv : list (list Z) := [chars "sh"].

(** [while((wpid=wait()) >= 0 && wpid != pid)] *)
Fixpoint wait_for (fuel : nat) (pid : Z) : prog unit :=
  match fuel with
  | O => Fault EFuel
  | S fuel =>
      let* wpid := call SysWait in
      if (0 <=? wpid) && negb (wpid =? pid) then printf 1 "zombie!\n" [];* wait_for fuel pid else Ret tt
  end.

(** [for(;;)], as often as [fuel] says. *)
Fixpoint init_loop (fuel waits : nat) : prog unit :=
  match fuel with
  | O => Fault EFuel
  | S fuel =>
      printf 1 "init: starting sh\n" [];*
      let* pid := call SysFork in
      if pid <? 0 then printf 1 "init: fork failed\n" [];* Exit
      else if pid =? 0 then
        call (SysExec (chars "sh") init_argv);*
        printf 1 "init: exec sh failed\n" [];*
        Exit
      else
        wait_for waits pid;*
        init_loop fuel waits
  end.

Definition init_main (fuel waits : nat) : prog unit :=
  let* fd := call (SysOpen (chars "console") O_RDWR) in
  (if fd <? 0 then call (SysMknod (chars "console") 1 1);* call (SysOpen (chars "console") O_RDWR);* Ret tt else Ret tt);*
  call (SysDup 0);*
  call (SysDup 0);*
  init_loop fuel waits.
End Init.

Module Forktest.
Definition forktest_N : nat := 1000.
Definition forktest_printf (fd : Z) (s : string) : prog unit := call (SysWrite fd (chars s));* Ret tt.

(** The number of children made. *)
Fixpoint forktest_forks (todo n : nat) : prog nat :=
  match todo with
  | O => Ret n
  | S todo =>
      let* pid := call SysFork in
      if pid <? 0 then Ret n else if pid =? 0 then Exit else forktest_forks todo (S n)
  end.

Fixpoint waits (n : nat) : prog unit :=
  match n with
  | O => Ret tt
  | S n =>
      let* r := call SysWait in
      if r <? 0 then forktest_printf 1 "wait stopped early\n";* Exit else waits n
  end.

Definition forktest : prog unit :=
  forktest_printf 1 "fork test\n";*
  let* n := forktest_forks forktest_N 0 in
  if (n =? forktest_N)%nat then forktest_printf 1 "fork claimed to work N times!\n";* Exit
  else
    waits n;*
    let* r := call SysWait in
    if negb (r =? -1) then forktest_printf 1 "wait got too many\n";* Exit
    else forktest_printf 1 "fork test OK\n".

Definition forktest_main : prog unit := forktest;* Exit.
End Forktest.

Module Stressfs.
Fixpoint stressfs_forks (n : nat) (i : Z) : prog Z :=
  match n with
  | O => Ret i
  | S n => let* pid := call SysFork in if 0 <? pid then Ret i else stressfs_forks n (i + 1)
  end.
Fixpoint repeat_call (n : nat) (c : sys) : prog unit :=
  match n with O => Ret tt | S n => call c;* repeat_call n c end.

Definition stressfs_main : prog unit :=
  printf 1 "stressfs starting\n" [];*
  let* i := stressfs_forks 4 0 in
  printf 1 "write %d\n" [AInt i];*
  let path := chars "stressfs" ++ [chr "0" + i] in
  let* fd := call (SysOpen path (Z.lor O_CREATE O_RDWR)) in
  repeat_call 20 (SysWrite fd (replicate 512 (chr "a")));*
  call (SysClose fd);*
  printf 1 "read\n" [];*
  let* fd := call (SysOpen path O_RDONLY) in
  repeat_call 20 (SysRead fd 512);*
  call (SysClose fd);*
  call SysWait;*
  Exit.
End Stressfs.

(** ** ls.c *)
Module Ls.
Definition ls_bufsize : Z := 512.

(** [for(p=path+strlen(path); p >= path && *p != '/'; p--); p++] *)
Fixpoint after_slash (path : list Z) (n : nat) : nat :=
  match n with
  | O => O
  | S n' => if path !!! n' =? chr "/" then n else after_slash path n'
  end.

Definition fmtname (path : list Z) : list Z :=
  let p := drop (after_slash path (length path)) path in
  if (DIRSIZ <=? length p)%nat then p
  else p ++ replicate (DIRSIZ - length p) (chr " ").

Definition show (name : list Z) (st : ustat) : prog unit :=
  printf 1 "%s %d %d %d\n" [AStr (Some name); AInt (us_type st); AInt (us_ino st); AInt (us_size st)].

(** The entries of the directory open at [fd]. *)
Fixpoint entries (fuel : nat) (fd : Z) (path : list Z) : prog unit :=
  match fuel with
  | O => Fault EFuel
  | S fuel =>
      let* r := call (SysRead fd sizeof_dirent) in
      if fst r =? sizeof_dirent then
        let de := snd r in
        if le_val (take 2 de) =? 0 then entries fuel fd path
        else
          let buf := path ++ [chr "/"] ++ c_str (take DIRSIZ (drop 2 de)) in
          let* r := stat buf in
          (if fst r <? 0 then printf 1 "ls: cannot stat %s\n" [AStr (Some buf)] else show (fmtname buf) (snd r));*
          entries fuel fd path
      else Ret tt
  end.

Definition ls (fuel : nat) (path : list Z) : prog unit :=
  let* fd := call (SysOpen path 0) in
  if fd <? 0 then printf 2 "ls: cannot open %s\n" [AStr (Some path)]
  else
    let* r := call (SysFstat fd) in
    let st := snd r in
    if fst r <? 0 then printf 2 "ls: cannot stat %s\n" [AStr (Some path)];* call (SysClose fd);* Ret tt
    else
      (if us_type st =? T_FILE then show (fmtname path) st
       else if us_type st =? T_DIR then
         if ls_bufsize <? Z.of_nat (length path + 1 + DIRSIZ + 1) then printf 1 "ls: path too long\n" []
         else entries fuel fd path
       else Ret tt);*
      call (SysClose fd);*
      Ret tt.

Fixpoint ls_each (fuel : nat) (argv : list (list Z)) : prog unit :=
  match argv with [] => Exit | a :: argv' => ls fuel a;* ls_each fuel argv' end.

Definition ls_main (fuel : nat) (argv : list (list Z)) : prog unit :=
  if (length argv <? 1)%nat then ls fuel (chars ".");* Exit else ls_each fuel argv.
End Ls.
