(* ===== verification/UserSpec.v ===== *)
(** * What the user programs do

    Numbers are printed so that they read back; cat copies and wc counts what
    they read, however the reads are cut into pieces. *)

From S2P Require Import Prelude CString Fs Sysfile User.

(** ** Numbers *)

Definition digit_val (c : Z) : Z := if c <=? 57 then c - 48 else c - 55.
Definition num_val (base : Z) (l : list Z) : Z := foldl (λ a c, a * base + digit_val c) 0 l.

Lemma digit_ok d : 0 ≤ d < 16 → digit_val (digits !!! Z.to_nat d) = d ∧ (digits !!! Z.to_nat d = 48 → d = 0).
Proof.
  intros Hd. assert (d ∈ seqZ 0 16) as H by (apply elem_of_seqZ; lia). clear Hd.
  revert d H. apply Forall_forall. by vm_compute; repeat constructor.
Qed.

Lemma num_val_snoc base l c : num_val base (l ++ [c]) = num_val base l * base + digit_val c.
Proof. unfold num_val. by rewrite foldl_app. Qed.

Definition is_digit (base c : Z) : Prop := ∃ d, 0 ≤ d < base ∧ c = digits !!! Z.to_nat d.

Lemma printint_loop_spec n x base buf :
  2 ≤ base ≤ 16 → 0 ≤ x < base ^ Z.of_nat (S n) →
  ∃ l, printint_loop (S n) x base buf = Some (l ++ buf) ∧ num_val base l = x ∧ (length l ≤ S n)%nat ∧
       Forall (is_digit base) l ∧ (head l = Some 48 → x = 0) ∧ l ≠ [].
Proof.
  intros Hb. revert x buf. induction n as [|n IH]; intros x buf Hx.
  all: pose proof (Z.mod_pos_bound x base ltac:(lia)) as Hm; pose proof (Z.div_mod x base ltac:(lia)) as Hd;
    destruct (digit_ok (x mod base) ltac:(lia)) as [Hv H0]; set (c := digits !!! Z.to_nat (x mod base)) in *;
    assert (is_digit base c) as Hc by (exists (x mod base); done);
    (assert (x / base = 0 → num_val base [c] = x ∧ (c = 48 → x = 0)) as Hone by (intros E; unfold num_val; cbn [foldl]; split; [|intros Ec; specialize (H0 Ec)]; nia)).
  - replace (Z.of_nat 1) with 1 in Hx by lia. rewrite Z.pow_1_r in Hx. cbn [printint_loop]. fold c.
    assert (x / base = 0) as E by (apply Z.div_small; lia). rewrite E. destruct (Hone E). exists [c]. split_and!; try done; [by constructor|].
    cbn. intros [= ->]. auto.
  - change (printint_loop (S (S n)) x base buf) with (if x / base =? 0 then Some (c :: buf) else printint_loop (S n) (x / base) base (c :: buf)).
    destruct (Z.eqb_spec (x / base) 0) as [E|E].
    { destruct (Hone E). exists [c]. split_and!; try done; [cbn; lia|by constructor|]. cbn. intros [= ->]. auto. }
    destruct (IH (x / base) (c :: buf)) as (l & -> & Hl & Hlen & Hf & Hh & Hne).
    { rewrite (Nat2Z.inj_succ (S n)), Z.pow_succ_r in Hx by lia. split; [apply Z.div_pos; lia|]. apply Z.div_lt_upper_bound; lia. }
    exists (l ++ [c]). split_and!.
    + by rewrite <-app_assoc.
    + rewrite num_val_snoc, Hl, Hv. lia.
    + rewrite length_app. cbn. lia.
    + apply Forall_app. split; [done|by constructor].
    + intros H. exfalso. apply E, Hh. by destruct l.
    + by destruct l.
Qed.

Lemma dec_digit c : is_digit 10 c → 48 ≤ c ≤ 57 ∧ digit_val c = c - 48.
Proof.
  intros (d & Hd & ->). assert (d ∈ seqZ 0 10) as H by (apply elem_of_seqZ; lia). clear Hd. revert d H. apply Forall_forall.
  vm_compute; repeat constructor; done.
Qed.

Lemma atoi_dec l n :
  Forall (is_digit 10) l → 0 ≤ n → foldl (λ a c, a * 10 + digit_val c) n l < 2 ^ 31 →
  atoi_loop l n = foldl (λ a c, a * 10 + digit_val c) n l ∧ n ≤ foldl (λ a c, a * 10 + digit_val c) n l.
Proof.
  intros H. revert n. induction H as [|c l Hc _ IH]; intros n Hn Hlt; cbn [atoi_loop foldl] in *; [lia|].
  destruct (dec_digit c Hc) as [Hr Hv]. destruct (IH (n * 10 + digit_val c) ltac:(lia) Hlt) as [E1 E2].
  assert ((48 <=? c) && (c <=? 57) = true) as -> by lia. rewrite s32_small by lia. replace (n * 10 + c - 48) with (n * 10 + digit_val c) by lia. split; [done|lia].
Qed.

(** The decimal digits of [x]. *)
Definition dec (x : Z) : list Z := default [] (printint_loop 16 x 10 []).

Lemma printint_loop_more n k x base buf l : printint_loop n x base buf = Some l → printint_loop (n + k) x base buf = Some l.
Proof.
  revert x buf. induction n as [|n IH]; intros x buf; cbn [printint_loop Nat.add]; [done|]. destruct (_ =? 0); [done|]. apply IH.
Qed.

Lemma dec_spec x : 0 ≤ x < 2 ^ 32 →
  printint_loop 16 x 10 [] = Some (dec x) ∧ num_val 10 (dec x) = x ∧ (length (dec x) ≤ 10)%nat ∧ Forall (is_digit 10) (dec x) ∧
  (head (dec x) = Some 48 → x = 0) ∧ dec x ≠ [].
Proof.
  intros Hx. destruct (printint_loop_spec 9 x 10 []) as (l & E & H1 & H2 & H3 & H4 & H5); [lia|split; [lia|]; etrans; [apply Hx|]; by vm_compute|].
  rewrite app_nil_r in E. apply (printint_loop_more 10 6) in E. change (10 + 6)%nat with 16%nat in E. unfold dec. by rewrite E.
Qed.

(** The numbers [printf] prints read back.  A non-negative number is
    printed as decimal digits without leading zeros, from which [atoi]
    computes it again; a negative one, the smallest included, as a minus sign
    and the digits of its absolute value; nothing is written past [buf]. *)
Theorem printint_roundtrip fd x :
  - 2 ^ 31 ≤ x < 2 ^ 31 →
  ∃ l, printint fd x 10 true = puts fd (if x <? 0 then chr "-" :: l else l) ∧
       Forall (λ c, 48 ≤ c ≤ 57) l ∧ (head l = Some 48 → x = 0) ∧ num_val 10 l = Z.abs x ∧ (0 ≤ x → atoi l = x).
Proof.
  intros Hx. exists (dec (Z.abs x)). destruct (dec_spec (Z.abs x)) as (E & H1 & H2 & H3 & H4 & H5); [lia|]. split_and!; try done.
  - unfold printint. cbn [andb]. destruct (Z.ltb_spec x 0).
    + rewrite u32_small by lia. replace (- x) with (Z.abs x) by lia. rewrite E.
      by destruct (Nat.leb_spec 16 (length (dec (Z.abs x)))); [lia|].
    + rewrite u32_small by lia. replace x with (Z.abs x) at 1 by lia. by rewrite E.
  - eapply Forall_impl; [exact H3|]. intros c Hc. by apply dec_digit.
  - intros Hh. specialize (H4 Hh). lia.
  - intros H0. unfold atoi. rewrite (proj1 (atoi_dec (dec (Z.abs x)) 0 H3 ltac:(lia) ltac:(change (num_val 10 (dec (Z.abs x)) < 2 ^ 31); lia))).
    change (num_val 10 (dec (Z.abs x)) = x). lia.
Qed.

Lemma printint_roundtrip_witness : ∃ l, printint 1 (- 2 ^ 31) 10 true = puts 1 (chr "-" :: l) ∧ num_val 10 l = 2 ^ 31.
Proof. destruct (printint_roundtrip 1 (- 2 ^ 31) ltac:(lia)) as (l & E & _ & _ & H & _). by exists l. Defined.

(** ** The kernel as a program sees it

    Files, the unread bytes of descriptors open for reading, and what has been
    written to descriptor 1.  Descriptors 0, 1 and 2 are open; a read returns
    any non-empty piece of what is left. *)

Record kview := mk_kview { content : list Z → option (list Z); unread : Z → option (list Z); out : list Z }.
Definition set_unread (fd : Z) (l : option (list Z)) (w : kview) : kview :=
  mk_kview (content w) (λ x, if x =? fd then l else unread w x) (out w).
Definition set_out (l : list Z) (w : kview) : kview := mk_kview (content w) (unread w) l.

Definition kstep (w : kview) (c : sys) : ans c → kview → Prop :=
  match c with
  | SysRead fd n => λ r w',
      match unread w fd with
      | None => fst r < 0 ∧ w' = w
      | Some [] => r = (0, []) ∧ w' = w
      | Some l => ∃ k, (0 < k ≤ length l)%nat ∧ Z.of_nat k ≤ n ∧ r = (Z.of_nat k, take k l) ∧ w' = set_unread fd (Some (drop k l)) w
      end
  | SysWrite fd d => λ r w', if fd =? 1 then r = Z.of_nat (length d) ∧ w' = set_out (out w ++ d) w else w' = w
  | SysOpen path mode => λ r w',
      match content w path with
      | None => r < 0 ∧ w' = w
      | Some l => 2 < r ∧ unread w r = None ∧ w' = set_unread r (Some l) w
      end
  | SysClose fd => λ _ w', w' = set_unread fd None w
  | _ => λ _ w', w' = w
  end.

(** Whatever the kernel answers, [m] returns with [Q] or exits with [E]. *)
Fixpoint uwp {A} (m : prog A) (Q : A → kview → Prop) (E : kview → Prop) (w : kview) : Prop :=
  match m with
  | Ret a => Q a w
  | Exit => E w
  | Fault _ => False
  | Sys c k => ∀ r w', kstep w c r w' → uwp (k r) Q E w'
  end.

Lemma uwp_bind {A B} (m : prog A) (f : A → prog B) Q E w :
  uwp m (λ a w', uwp (f a) Q E w') E w → uwp (pbind m f) Q E w.
Proof. revert w. induction m as [| | |c k IH]; intros w; cbn; try done. intros H r w' Hs. apply IH. by apply H. Qed.

Lemma uwp_mono {A} (m : prog A) (Q Q' : A → kview → Prop) (E E' : kview → Prop) w :
  uwp m Q E w → (∀ a w', Q a w' → Q' a w') → (∀ w', E w' → E' w') → uwp m Q' E' w.
Proof. revert w. induction m as [| | |c k IH]; intros w; cbn; eauto. Qed.

Lemma uwp_puts l E w (Q : unit → kview → Prop) : bytes l → Q tt (set_out (out w ++ l) w) → uwp (puts 1 l) Q E w.
Proof.
  intros Hl. revert w. induction Hl as [|c l Hc _ IH]; intros w HQ.
  - cbn. rewrite app_nil_r in HQ. by destruct w.
  - cbn. intros r w' [_ ->]. apply IH. cbn. rewrite u8_small by done. by rewrite <-app_assoc.
Qed.

Lemma dec_bytes x : 0 ≤ x < 2 ^ 32 → bytes (dec x).
Proof.
  intros Hx. destruct (dec_spec x Hx) as (_ & _ & _ & H & _). eapply Forall_impl; [exact H|]. intros c Hc. destruct (dec_digit c Hc). lia.
Qed.

Lemma uwp_printint x E w (Q : unit → kview → Prop) :
  0 ≤ x < 2 ^ 31 → Q tt (set_out (out w ++ dec x) w) → uwp (printint 1 x 10 true) Q E w.
Proof.
  intros Hx HQ. unfold printint. cbn [andb]. assert ((x <? 0) = false) as -> by lia. rewrite u32_small by lia.
  destruct (dec_spec x ltac:(lia)) as (-> & _). apply uwp_puts; [apply dec_bytes; lia|done].
Qed.

(** ** cat *)

Lemma uwp_cat fuel fd l w E (Q : unit → kview → Prop) :
  fd ≠ 1 → unread w fd = Some l → (length l < fuel)%nat →
  (∀ w', content w' = content w → (∀ x, x ≠ fd → unread w' x = unread w x) → unread w' fd = Some [] → out w' = out w ++ l → Q tt w') →
  uwp (Cat.cat fuel fd) Q E w.
Proof.
  intros Hfd. revert l w. induction fuel as [|fuel IH]; intros l w Hl Hlen HQ; [lia|]. cbn [Cat.cat pbind call uwp kstep]. intros r w' Hs.
  rewrite Hl in Hs. destruct l as [|c l].
  - destruct Hs as [-> ->]. cbn. apply HQ; try done. by rewrite app_nil_r.
  - destruct Hs as (k & Hk & Hn & -> & ->). cbn [fst snd]. assert ((0 <? Z.of_nat k) = true) as -> by lia. cbn [uwp kstep].
    intros r w' [-> ->]. rewrite length_take_le by lia. rewrite Z.eqb_refl. cbn [negb].
    apply (IH (drop k (c :: l))).
    + cbn. by rewrite Z.eqb_refl.
    + rewrite length_drop. cbn [length] in *. lia.
    + intros w' H1 H2 H3 H4. apply HQ; try done.
      * intros x Hx. rewrite H2 by done. cbn. by apply Z.eqb_neq in Hx as ->.
      * rewrite H4. cbn. by rewrite <-app_assoc, take_drop.
Qed.

Lemma uwp_cat_files fuel argv ls w (E : kview → Prop) :
  Forall2 (λ a l, content w a = Some l ∧ (length l < fuel)%nat) argv ls →
  (∀ w', out w' = out w ++ concat ls → E w') → uwp (Cat.cat_files fuel argv) (λ _ _, False) E w.
Proof.
  revert ls w. induction argv as [|a argv IH]; intros ls w H HE.
  - apply Forall2_nil_inv_l in H as ->. cbn. apply HE. by rewrite app_nil_r.
  - apply Forall2_cons_inv_l in H as (l & ls' & (Hc & Hl) & Hrest & ->). cbn [Cat.cat_files pbind call uwp kstep]. intros fd w' Hs.
    rewrite Hc in Hs. destruct Hs as (Hfd & Hu & ->). assert ((fd <? 0) = false) as -> by lia. apply uwp_bind.
    apply (uwp_cat fuel fd l); [lia|cbn; by rewrite Z.eqb_refl|done|]. intros w' H1 _ _ H4. cbn. intros _ w2 ->.
    apply (IH ls').
    + cbn. rewrite H1. done.
    + intros w3 H3. apply HE. rewrite H3. cbn. rewrite H4. cbn. by rewrite <-app_assoc.
Qed.

(** C37: cat copies.  Given files that exist, however the kernel cuts their
    bytes into pieces when they are read, cat terminates by [exit] and has
    written exactly the contents of the files, one after the other; without
    arguments it copies its standard input. *)
Theorem cat_copies fuel argv ls w stdin :
  Forall2 (λ a l, content w a = Some l ∧ (length l < fuel)%nat) argv ls →
  unread w 0 = Some stdin → (length stdin < fuel)%nat →
  uwp (Cat.cat_main fuel argv) (λ _ _, False) (λ w', out w' = out w ++ (if decide (argv = []) then stdin else concat ls)) w.
Proof.
  intros H Hin Hlen. unfold Cat.cat_main. destruct argv as [|a argv].
  - cbn [length Nat.eqb]. apply uwp_bind, (uwp_cat fuel 0 stdin); [done|done|done|]. intros w' _ _ _ Ho. cbn [uwp]. by rewrite decide_True, Ho.
  - cbn [length Nat.eqb]. rewrite decide_False by done. by eapply uwp_cat_files.
Qed.

Lemma cat_copies_witness :
  let w := mk_kview (λ a, if decide (a = chars "f") then Some [1; 2; 3] else None) (λ fd, if fd =? 0 then Some [] else None) [] in
  uwp (Cat.cat_main 4 [chars "f"; chars "f"]) (λ _ _, False) (λ w', out w' = [1; 2; 3; 1; 2; 3]) w.
Proof.
  intros w. eapply uwp_mono; [apply (cat_copies 4 [chars "f"; chars "f"] [[1; 2; 3]; [1; 2; 3]] w [])|done|done];
    [repeat constructor|done|cbn; lia]; cbn; try lia; done.
Defined.

(** ** wc *)

Definition is_space (c : Z) : bool := bool_decide (c ∈ Wc.spaces).
(** A word is counted at its first character. *)
Fixpoint words_from (inword : bool) (l : list Z) : Z :=
  match l with
  | [] => 0
  | c :: l' => (if negb (is_space c) && negb inword then 1 else 0) + words_from (negb (is_space c)) l'
  end.
Definition lines_of (l : list Z) : Z := Z.of_nat (length (filter (λ c, c = newline) l)).

Lemma words_from_range b l : 0 ≤ words_from b l ≤ Z.of_nat (length l).
Proof. revert b. induction l as [|c l IH]; intros b; cbn [words_from length]; [lia|]. specialize (IH (negb (is_space c))). case_match; lia. Qed.
Lemma lines_range l : 0 ≤ lines_of l ≤ Z.of_nat (length l).
Proof. unfold lines_of. pose proof (length_filter (λ c, c = newline) l). lia. Qed.

Lemma count_all_spec l s :
  0 ≤ Wc.wc_l s → 0 ≤ Wc.wc_w s → 0 ≤ Wc.wc_c s →
  Wc.wc_l s + Z.of_nat (length l) < 2 ^ 31 → Wc.wc_w s + Z.of_nat (length l) < 2 ^ 31 → Wc.wc_c s + Z.of_nat (length l) < 2 ^ 31 →
  Wc.wc_l (Wc.count_all l s) = Wc.wc_l s + lines_of l ∧ Wc.wc_w (Wc.count_all l s) = Wc.wc_w s + words_from (Wc.inword s) l ∧
  Wc.wc_c (Wc.count_all l s) = Wc.wc_c s + Z.of_nat (length l).
Proof.
  revert s. induction l as [|c l IH]; intros s H1 H2 H3 B1 B2 B3; cbn [Wc.count_all words_from length] in *; [change (lines_of []) with 0; lia|].
  assert (lines_of (c :: l) = (if c =? newline then 1 else 0) + lines_of l) as ->.
  { unfold lines_of. destruct (Z.eqb_spec c newline); [rewrite filter_cons_True by done; cbn; lia|by rewrite filter_cons_False]. }
  destruct s as [a b d iw]. unfold Wc.wc_count. cbn [Wc.wc_l Wc.wc_w Wc.wc_c Wc.inword] in *. rewrite (s32_small (d + 1)) by lia.
  change (bool_decide (c ∈ Wc.spaces)) with (is_space c).
  destruct (c =? newline), (is_space c), iw; cbn [Wc.wc_l Wc.wc_w Wc.wc_c Wc.inword negb andb]; rewrite ?s32_small by lia;
    (match goal with |- context [Wc.count_all l ?s] => destruct (IH s) as (E1 & E2 & E3) end);
    cbn [Wc.wc_l Wc.wc_w Wc.wc_c Wc.inword] in *; try lia; rewrite E1, E2, E3; lia.
Qed.

Lemma count_all_app l1 l2 s : Wc.count_all (l1 ++ l2) s = Wc.count_all l2 (Wc.count_all l1 s).
Proof. revert s. induction l1 as [|c l1 IH]; intros s; cbn; [done|]. apply IH. Qed.

Lemma uwp_wc_loop fuel fd l w s E (Q : Z * Wc.counts → kview → Prop) :
  unread w fd = Some l → (length l < fuel)%nat →
  (∀ w', out w' = out w → content w' = content w → Q (0, Wc.count_all l s) w') → uwp (Wc.wc_loop fuel fd s) Q E w.
Proof.
  revert l w s. induction fuel as [|fuel IH]; intros l w s Hl Hlen HQ; [lia|]. cbn [Wc.wc_loop pbind call uwp kstep]. intros r w' Hs.
  rewrite Hl in Hs. destruct l as [|c l].
  - destruct Hs as [-> ->]. cbn. by apply HQ.
  - destruct Hs as (k & Hk & Hn & -> & ->). cbn [fst snd]. assert ((0 <? Z.of_nat k) = true) as -> by lia.
    apply (IH (drop k (c :: l))).
    + cbn. by rewrite Z.eqb_refl.
    + rewrite length_drop. cbn [length] in *. lia.
    + intros w' H1 H2. rewrite <-count_all_app, take_drop. by apply HQ.
Qed.

Lemma uwp_putc c E w (Q : unit → kview → Prop) : is_byte c → Q tt (set_out (out w ++ [c]) w) → uwp (putc 1 c) Q E w.
Proof. intros Hc HQ. cbn. intros r w' [_ ->]. by rewrite u8_small. Qed.

(** wc prints the numbers of lines, words and characters of what it reads,
    however the reads are cut into pieces. *)
Theorem wc_counts fuel fd l name w :
  unread w fd = Some l → (length l < fuel)%nat → Z.of_nat (length l) < 2 ^ 31 → bytes name →
  uwp (Wc.wc fuel fd name)
    (λ _ w', out w' = out w ++ dec (lines_of l) ++ [32] ++ dec (words_from false l) ++ [32] ++ dec (Z.of_nat (length l)) ++ [32] ++ name ++ [newline])
    (λ _, False) w.
Proof.
  intros Hl Hf Hlen Hn. unfold Wc.wc. apply uwp_bind, (uwp_wc_loop fuel fd l); [done|done|]. intros w' Ho _. cbn [fst snd].
  change (0 <? 0) with false. cbn iota. pose proof (words_from_range false l). pose proof (lines_range l).
  destruct (count_all_spec l (Wc.mk_counts 0 0 0 false)) as (-> & -> & ->); cbn [Wc.wc_l Wc.wc_w Wc.wc_c Wc.inword]; try lia. rewrite !Z.add_0_l.
  change (uwp (printf_loop 1 [37; 100; 32; 37; 100; 32; 37; 100; 32; 37; 115; 10] false
    [AInt (lines_of l); AInt (words_from false l); AInt (Z.of_nat (length l)); AStr (Some name)])
    (λ _ w', out w' = out w ++ dec (lines_of l) ++ [32] ++ dec (words_from false l) ++ [32] ++ dec (Z.of_nat (length l)) ++ [32] ++ name ++ [newline])
    (λ _, False) w').
  do 3 (apply uwp_bind, uwp_bind, uwp_printint; [lia|]; cbn [uwp]; apply uwp_bind, uwp_putc; [lia|]).
  apply uwp_bind, uwp_bind, uwp_puts; [done|]. cbn [uwp]. apply uwp_bind, uwp_putc; [lia|].
  cbn [uwp printf_loop out set_out]. rewrite Ho. by rewrite <-!app_assoc.
Qed.
