(* ===== verification/Shell.v ===== *)
(** * sh.c: the shell

    The parser builds a heap of command nodes that point into the line buffer,
    then puts a NUL behind every word; [runcmd] is a user program (see [User])
    that walks the nodes.  Pointers to nodes are indices into the heap,
    pointers into the buffer are offsets.  [malloc] does not fail here (sh.c
    does not check it), so that a pointer to a node is never null. *)

From S2P Require Import Prelude CString Fs Sysfile User.

Definition MAXARGS : nat := 10.

(** ** Commands in memory *)

Inductive node :=
  | EXEC (argv eargv : list (option nat))
  | REDIR (cmd file efile : nat) (mode fd : Z)
  | PIPE (lhs rhs : nat)
  | LIST (lhs rhs : nat)
  | BACK (cmd : nat).

Record shst := mk_shst { heap : list node; sbuf : list Z; ps : nat }.
Abbreviation Sh := (M shst).

Definition set_heap h s := mk_shst h (sbuf s) (ps s).
Definition set_sbuf b s := mk_shst (heap s) b (ps s).
Definition set_ps i s := mk_shst (heap s) (sbuf s) i.

Definition new_node (n : node) : Sh nat :=
  p <- gets (λ s, length (heap s));;
  modify (λ s, set_heap (heap s ++ [n]) s);;
  ret p.

Definition execcmd : Sh nat := new_node (EXEC (replicate MAXARGS None) (replicate MAXARGS None)).
Definition redircmd (subcmd file efile : nat) (mode fd : Z) : Sh nat := new_node (REDIR subcmd file efile mode fd).
Definition pipecmd (lhs rhs : nat) : Sh nat := new_node (PIPE lhs rhs).
Definition listcmd (lhs rhs : nat) : Sh nat := new_node (LIST lhs rhs).
Definition backcmd (subcmd : nat) : Sh nat := new_node (BACK subcmd).

(** ** Tokens *)

Definition whitespace : list Z := [32; 9; 13; 10; 11].
Definition symbols : list Z := Eval compute in chars "<|>&;()".

(** [strchr(l, c) != 0] *)
Definition in_chars (l : list Z) (c : Z) : bool := match strchr l c with Some _ => true | None => false end.

(** [buf[i]] *)
Definition byte_at (i : nat) : Sh Z :=
  b <- gets sbuf;;
  match b !! i with Some c => ret c | None => fail (EOob "buf") end.

(** [while(s < es && p( *s)) s++], with [n] = [es - s]. *)
Fixpoint skip_while (p : Z → bool) (n s : nat) : Sh nat :=
  match n with
  | O => ret s
  | S n' => c <- byte_at s;; if p c then skip_while p n' (S s) else ret s
  end.

Definition word_char (c : Z) : bool := negb (in_chars whitespace c) && negb (in_chars symbols c).

Section parse.
(** The end of the line. *)
Context (es : nat).

(** The [switch]: the token that starts at [s] and its end. *)
Definition token (s : nat) : Sh (Z * nat) :=
  c <- byte_at s;;
  if c =? 0 then ret (c, s)
  else if in_chars (chars "|();&<") c then ret (c, S s)
  else if c =? chr ">" then
    c' <- byte_at (S s);;
    if c' =? chr ">" then ret (chr "+", S (S s)) else ret (c, S s)
  else
    s <- skip_while word_char (es - s) s;;
    ret (chr "a", s).

(** The token, [*q] and [*eq]. *)
Definition gettoken : Sh (Z * nat * nat) :=
  s <- gets ps;;
  q <- skip_while (in_chars whitespace) (es - s) s;;
  t <- token q;;
  s <- skip_while (in_chars whitespace) (es - snd t) (snd t);;
  modify (set_ps s);;
  ret (fst t, q, snd t).

Definition peek (toks : list Z) : Sh bool :=
  s <- gets ps;;
  s <- skip_while (in_chars whitespace) (es - s) s;;
  modify (set_ps s);;
  c <- byte_at s;;
  ret (negb (c =? 0) && in_chars toks c).

(** ** The parser *)

Fixpoint parseredirs (fuel : nat) (cmd : nat) : Sh nat :=
  match fuel with
  | O => fail EFuel
  | S fuel =>
      b <- peek (chars "<>");;
      if b then
        t <- gettoken;;
        w <- gettoken;;
        if negb (w.1.1 =? chr "a") then panic "missing file for redirection"
        else
          let tok := t.1.1 in
          cmd <- (if tok =? chr "<" then redircmd cmd w.1.2 w.2 O_RDONLY 0
                  else if tok =? chr ">" then redircmd cmd w.1.2 w.2 (Z.lor O_WRONLY O_CREATE) 1
                  else if tok =? chr "+" then redircmd cmd w.1.2 w.2 (Z.lor O_WRONLY O_CREATE) 1
                  else ret cmd);;
          parseredirs fuel cmd
      else ret cmd
  end.

(** [cmd->argv[i] = q; cmd->eargv[i] = eq] for the node [cmd]. *)
Definition set_arg (cmd i : nat) (q eq : option nat) : Sh unit :=
  h <- gets heap;;
  match h !! cmd with
  | Some (EXEC argv eargv) =>
      if (i <? MAXARGS)%nat then modify (set_heap (<[cmd := EXEC (<[i := q]> argv) (<[i := eq]> eargv)]> h))
      else fail (EOob "argv")
  | _ => fail (EOob "cmd")
  end.

(** The loop of [parseexec] and what follows it; [n] = [MAXARGS - argc]. *)
Fixpoint parseargs (n : nat) (cmd r argc : nat) : Sh nat :=
  b <- peek (chars "|)&;");;
  if b then set_arg cmd argc None None;; ret r
  else
    t <- gettoken;;
    if t.1.1 =? 0 then set_arg cmd argc None None;; ret r
    else if negb (t.1.1 =? chr "a") then panic "syntax"
    else
      set_arg cmd argc (Some t.1.2) (Some t.2);;
      match n with
      | S (S _ as n') =>
          r <- parseredirs (S es) r;;
          parseargs n' cmd r (S argc)
      | _ => panic "too many args"
      end.

(** [while(peek(ps, es, "&"))] *)
Fixpoint parsebacks (fuel : nat) (cmd : nat) : Sh nat :=
  match fuel with
  | O => fail EFuel
  | S fuel =>
      b <- peek (chars "&");;
      if b then
        gettoken;;
        cmd <- backcmd cmd;;
        parsebacks fuel cmd
      else ret cmd
  end.

Fixpoint parseline (fuel : nat) : Sh nat :=
  match fuel with
  | O => fail EFuel
  | S fuel =>
      cmd <- parsepipe fuel;;
      cmd <- parsebacks (S es) cmd;;
      b <- peek (chars ";");;
      if b then
        gettoken;;
        r <- parseline fuel;;
        listcmd cmd r
      else ret cmd
  end
with parsepipe (fuel : nat) : Sh nat :=
  match fuel with
  | O => fail EFuel
  | S fuel =>
      cmd <- parseexec fuel;;
      b <- peek (chars "|");;
      if b then
        gettoken;;
        r <- parsepipe fuel;;
        pipecmd cmd r
      else ret cmd
  end
with parseexec (fuel : nat) : Sh nat :=
  match fuel with
  | O => fail EFuel
  | S fuel =>
      b <- peek (chars "(");;
      if b then parseblock fuel
      else
        cmd <- execcmd;;
        r <- parseredirs (S es) cmd;;
        parseargs MAXARGS cmd r 0
  end
with parseblock (fuel : nat) : Sh nat :=
  match fuel with
  | O => fail EFuel
  | S fuel =>
      b <- peek (chars "(");;
      if negb b then panic "parseblock"
      else
        gettoken;;
        cmd <- parseline fuel;;
        b <- peek (chars ")");;
        if negb b then panic "syntax - missing )"
        else
          gettoken;;
          parseredirs (S es) cmd
  end.
End parse.

(** *[p] = 0 *)
Definition put_nul (p : nat) : Sh unit :=
  b <- gets sbuf;;
  if (p <? length b)%nat then modify (set_sbuf (<[p := 0]> b)) else fail (EOob "buf").

(** [for(i=0; ecmd->argv[i]; i++) *ecmd->eargv[i] = 0] *)
Fixpoint nulterminate_args (argv eargv : list (option nat)) : Sh unit :=
  match argv, eargv with
  | Some _ :: argv, Some e :: eargv => put_nul e;; nulterminate_args argv eargv
  | None :: _, _ => ret tt
  | _, _ => fail (EOob "argv")
  end.

Fixpoint nulterminate (fuel cmd : nat) : Sh unit :=
  match fuel with
  | O => fail EFuel
  | S fuel =>
      h <- gets heap;;
      match h !! cmd with
      | None => fail (EOob "cmd")
      | Some (EXEC argv eargv) => nulterminate_args argv eargv
      | Some (REDIR c _ efile _ _) => nulterminate fuel c;; put_nul efile
      | Some (PIPE l r) => nulterminate fuel l;; nulterminate fuel r
      | Some (LIST l r) => nulterminate fuel l;; nulterminate fuel r
      | Some (BACK c) => nulterminate fuel c
      end
  end.

(** The length of the string, if there is a NUL. *)
Fixpoint sh_strlen (b : list Z) : option nat :=
  match b with [] => None | c :: b' => if c =? 0 then Some O else S <$> sh_strlen b' end.

Definition parse_fuel (es : nat) : nat := (4 * es + 4)%nat.

(** The line starts at offset 0 of the buffer.  The message that shows the
    leftovers is left out. *)
Definition parsecmd : Sh nat :=
  b <- gets sbuf;;
  match sh_strlen b with
  | None => fail (EOob "buf")
  | Some es =>
      cmd <- parseline es (parse_fuel es);;
      peek es [];;
      s <- gets ps;;
      if negb (s =? es)%nat then panic "syntax"
      else
        n <- gets (λ s, length (heap s));;
        nulterminate (S n) cmd;;
        ret cmd
  end.

(** ** Running commands *)

(** The string at an offset of the buffer. *)
Definition str_at (b : list Z) (p : nat) : list Z := c_str (drop p b).

(** The strings of [argv], up to its null pointer. *)
Fixpoint arg_strs (b : list Z) (argv : list (option nat)) : list (list Z) :=
  match argv with Some p :: argv' => str_at b p :: arg_strs b argv' | _ => [] end.

Definition sh_panic {A} (s : string) : prog A := printf 2 "%s\n" [AStr (Some (chars s))];* Exit.

Definition fork1 : prog Z :=
  let* pid := call SysFork in
  if pid =? -1 then sh_panic "fork" else Ret pid.

Definition close (fd : Z) : prog unit := call (SysClose fd);* Ret tt.

Section runcmd.
Context (h : list node) (b : list Z).

Fixpoint runcmd (fuel cmd : nat) : prog unit :=
  match fuel with
  | O => Fault EFuel
  | S fuel =>
      match h !! cmd with
      | None => Fault (EOob "cmd")
      | Some (EXEC argv _) =>
          match argv !!! 0%nat with
          | None => Exit
          | Some a0 =>
              call (SysExec (str_at b a0) (arg_strs b argv));*
              printf 2 "exec %s failed\n" [AStr (Some (str_at b a0))]
          end
      | Some (REDIR c file _ mode fd) =>
          close fd;*
          let* r := call (SysOpen (str_at b file) mode) in
          if r <? 0 then printf 2 "open %s failed\n" [AStr (Some (str_at b file))];* Exit
          else runcmd fuel c
      | Some (LIST l r) =>
          let* pid := fork1 in
          (if pid =? 0 then runcmd fuel l else Ret tt);*
          call SysWait;*
          runcmd fuel r
      | Some (PIPE l r) =>
          let* p := call SysPipe in
          if fst p <? 0 then sh_panic "pipe"
          else
            let p0 := fst (snd p) in
            let p1 := snd (snd p) in
            let* pid := fork1 in
            (if pid =? 0 then close 1;* call (SysDup p1);* close p0;* close p1;* runcmd fuel l else Ret tt);*
            let* pid := fork1 in
            (if pid =? 0 then close 0;* call (SysDup p0);* close p0;* close p1;* runcmd fuel r else Ret tt);*
            close p0;*
            close p1;*
            call SysWait;*
            call SysWait;*
            Ret tt
      | Some (BACK c) =>
          let* pid := fork1 in
          if pid =? 0 then runcmd fuel c else Ret tt
      end;*
      Exit
  end.
End runcmd.

(** What a child of the shell does with a line. *)
Definition run_line (b : list Z) : prog unit :=
  match parsecmd (mk_shst [] b 0) with
  | Done (cmd, s) => runcmd (heap s) (sbuf s) (S (length (heap s))) cmd
  | Fail (EPanic msg) => sh_panic msg
  | Fail e => Fault e
  end.

Definition sh_bufsize : nat := 100.

(** The buffer, or [None] at the end of the input. *)
Definition getcmd : prog (option (list Z)) :=
  printf 2 "$ " [];*
  let* l := ulib_gets (Z.of_nat sh_bufsize) in
  let buf := l ++ replicate (sh_bufsize - length l) 0 in
  Ret (if buf !!! 0%nat =? 0 then None else Some buf).

Definition is_cd (buf : list Z) : bool :=
  (buf !!! 0%nat =? chr "c") && (buf !!! 1%nat =? chr "d") && (buf !!! 2%nat =? chr " ").

Definition sh_cd (buf : list Z) : prog unit :=
  let buf := <[(length (c_str buf) - 1)%nat := 0]> buf in
  let* r := call (SysChdir (str_at buf 3)) in
  if r <? 0 then printf 2 "cannot cd %s\n" [AStr (Some (str_at buf 3))] else Ret tt.

(** [while((fd = open("console", O_RDWR)) >= 0)] *)
Fixpoint open_console (fuel : nat) : prog unit :=
  match fuel with
  | O => Fault EFuel
  | S fuel =>
      let* fd := call (SysOpen (chars "console") O_RDWR) in
      if fd <? 0 then Ret tt
      else if 3 <=? fd then close fd
      else open_console fuel
  end.

Fixpoint sh_loop (fuel : nat) : prog unit :=
  match fuel with
  | O => Fault EFuel
  | S fuel =>
      let* buf := getcmd in
      match buf with
      | None => Exit
      | Some buf =>
          if is_cd buf then sh_cd buf;* sh_loop fuel
          else
            let* pid := fork1 in
            (if pid =? 0 then run_line buf else Ret tt);*
            call SysWait;*
            sh_loop fuel
      end
  end.

(** Four calls of [open] reach descriptor 3. *)
Definition sh_main (fuel : nat) : prog unit := open_console 4;* sh_loop fuel.
