(* ===== verification/ShellSpec.v ===== *)
(** * The shell parses its grammar

    A lexer and a grammar of command lines, and that [parsecmd] returns the
    command of the grammar for every line that has one, and stops with a
    message for every other line. *)

From S2P Require Import Prelude CString Fs Sysfile User Shell.

(** ** Tokens *)

(** A word is given by its bounds in the line; [>>] is the symbol [+]. *)
Inductive tok := Word (q e : nat) | Sym (c : Z).

Definition flush (w : option nat) (i : nat) : list tok := match w with Some q => [Word q i] | None => [] end.

(** [w]: the start of the word that the character at [i] may continue. *)
Fixpoint lex (i : nat) (w : option nat) (l : list Z) : list tok :=
  match l with
  | [] => flush w i
  | c :: l' =>
      if in_chars whitespace c then flush w i ++ lex (S i) None l'
      else if c =? chr ">" then
        flush w i ++
        match l' with
        | c' :: l'' => if c' =? chr ">" then Sym (chr "+") :: lex (S (S i)) None l'' else Sym c :: lex (S i) None l'
        | [] => [Sym c]
        end
      else if in_chars symbols c then flush w i ++ Sym c :: lex (S i) None l'
      else lex (S i) (Some (default i w)) l'
  end.

(** ** Commands and the grammar of lines *)

(** The command [runcmd] is to run; words are bounds in the line. *)
Inductive cmd :=
  | CExec (args : list (nat * nat))
  | CRedir (c : cmd) (q e : nat) (mode fd : Z)
  | CPipe (c d : cmd)
  | CList (c d : cmd)
  | CBack (c : cmd).

(** A redirection: its symbol and the bounds of the file name. *)
Definition redir : Type := Z * nat * nat.
Definition redir_syms : list Z := Eval compute in chars "<>+".
Definition redir_mode (r : redir) : Z := if r.1.1 =? chr "<" then O_RDONLY else Z.lor O_WRONLY O_CREATE.
Definition redir_fd (r : redir) : Z := if r.1.1 =? chr "<" then 0 else 1.
Definition wrap (c : cmd) (rs : list redir) : cmd := foldl (λ c r, CRedir c r.1.2 r.2 (redir_mode r) (redir_fd r)) c rs.

(** Redirections; arguments mixed with redirections. *)
Inductive redirs : list redir → list tok → Prop :=
  | redirs_nil : redirs [] []
  | redirs_cons c q e rs ts : c ∈ redir_syms → redirs rs ts → redirs ((c, q, e) :: rs) (Sym c :: Word q e :: ts).

Inductive simple : list (nat * nat) → list redir → list tok → Prop :=
  | simple_nil : simple [] [] []
  | simple_word q e args rs ts : simple args rs ts → simple ((q, e) :: args) rs (Word q e :: ts)
  | simple_redir c q e args rs ts : c ∈ redir_syms → simple args rs ts → simple args ((c, q, e) :: rs) (Sym c :: Word q e :: ts).

Inductive gline : cmd → list tok → Prop :=
  | gline_one c ts : gback c ts → gline c ts
  | gline_list c d ts us : gback c ts → gline d us → gline (CList c d) (ts ++ Sym (chr ";") :: us)
with gback : cmd → list tok → Prop :=
  | gback_one c ts : gpipe c ts → gback c ts
  | gback_back c ts : gback c ts → gback (CBack c) (ts ++ [Sym (chr "&")])
with gpipe : cmd → list tok → Prop :=
  | gpipe_one c ts : gexec c ts → gpipe c ts
  | gpipe_pipe c d ts us : gexec c ts → gpipe d us → gpipe (CPipe c d) (ts ++ Sym (chr "|") :: us)
with gexec : cmd → list tok → Prop :=
  | gexec_simple args rs ts : simple args rs ts → (length args < MAXARGS)%nat → gexec (wrap (CExec args) rs) ts
  | gexec_block c rs ts us : gline c ts → redirs rs us → gexec (wrap c rs) (Sym (chr "(") :: ts ++ Sym (chr ")") :: us).

(** ** A parser of tokens

    The recursive descent of sh.c without buffer and heap. *)

Fixpoint tp_redirs (ts : list tok) : result (list redir * list tok) :=
  match ts with
  | Sym c :: ts1 =>
      if in_chars redir_syms c then
        match ts1 with
        | Word q e :: ts2 => rbind (tp_redirs ts2) (λ r, Done ((c, q, e) :: r.1, r.2))
        | _ => Fail (EPanic "missing file for redirection")
        end
      else Done ([], ts)
  | _ => Done ([], ts)
  end.

Fixpoint tp_args (n : nat) (ts : list tok) : result (list (nat * nat) * list redir * list tok) :=
  match ts with
  | [] => Done ([], [], [])
  | Sym c :: _ => if in_chars (chars "|)&;") c then Done ([], [], ts) else Fail (EPanic "syntax")
  | Word q e :: ts1 =>
      match n with
      | S (S _ as n') =>
          rbind (tp_redirs ts1) (λ r, rbind (tp_args n' r.2) (λ a, Done ((q, e) :: a.1.1, r.1 ++ a.1.2, a.2)))
      | _ => Fail (EPanic "too many args")
      end
  end.

Fixpoint tp_backs (c : cmd) (ts : list tok) : cmd * list tok :=
  match ts with Sym a :: ts' => if a =? chr "&" then tp_backs (CBack c) ts' else (c, ts) | _ => (c, ts) end.

Definition next_is (a : string) (ts : list tok) : option (list tok) :=
  match ts with Sym c :: ts' => if c =? chr a then Some ts' else None | _ => None end.

Fixpoint tp_line (fuel : nat) (ts : list tok) : result (cmd * list tok) :=
  match fuel with
  | O => Fail EFuel
  | S fuel =>
      rbind (tp_pipe fuel ts) (λ r,
      let b := tp_backs r.1 r.2 in
      match next_is ";" b.2 with
      | Some ts' => rbind (tp_line fuel ts') (λ d, Done (CList b.1 d.1, d.2))
      | None => Done b
      end)
  end
with tp_pipe (fuel : nat) (ts : list tok) : result (cmd * list tok) :=
  match fuel with
  | O => Fail EFuel
  | S fuel =>
      rbind (tp_exec fuel ts) (λ r,
      match next_is "|" r.2 with
      | Some ts' => rbind (tp_pipe fuel ts') (λ d, Done (CPipe r.1 d.1, d.2))
      | None => Done r
      end)
  end
with tp_exec (fuel : nat) (ts : list tok) : result (cmd * list tok) :=
  match fuel with
  | O => Fail EFuel
  | S fuel =>
      match next_is "(" ts with
      | Some _ => tp_block fuel ts
      | None => rbind (tp_redirs ts) (λ r, rbind (tp_args MAXARGS r.2) (λ a, Done (wrap (CExec a.1.1) (r.1 ++ a.1.2), a.2)))
      end
  end
with tp_block (fuel : nat) (ts : list tok) : result (cmd * list tok) :=
  match fuel with
  | O => Fail EFuel
  | S fuel =>
      match next_is "(" ts with
      | None => Fail (EPanic "parseblock")
      | Some ts' =>
          rbind (tp_line fuel ts') (λ r,
          match next_is ")" r.2 with
          | None => Fail (EPanic "syntax - missing )")
          | Some ts' => rbind (tp_redirs ts') (λ d, Done (wrap r.1 d.1, d.2))
          end)
      end
  end.

(** ** Commands in the heap *)

Definition pad (l : list nat) : list (option nat) := (Some <$> l) ++ replicate (MAXARGS - length l) None.
Definition exec_node (args : list (nat * nat)) : node := EXEC (pad (fst <$> args)) (pad (snd <$> args)).

(** Node [p] is the command [c]; the nodes below it are older. *)
Fixpoint repr (h : list node) (p : nat) (c : cmd) : Prop :=
  match c with
  | CExec args => h !! p = Some (exec_node args)
  | CRedir d q e mode fd => ∃ r, h !! p = Some (REDIR r q e mode fd) ∧ (r < p)%nat ∧ repr h r d
  | CPipe a b => ∃ l r, h !! p = Some (PIPE l r) ∧ (l < p)%nat ∧ (r < p)%nat ∧ repr h l a ∧ repr h r b
  | CList a b => ∃ l r, h !! p = Some (LIST l r) ∧ (l < p)%nat ∧ (r < p)%nat ∧ repr h l a ∧ repr h r b
  | CBack d => ∃ r, h !! p = Some (BACK r) ∧ (r < p)%nat ∧ repr h r d
  end.

(** Node [p'] is node [p] with the redirections [rs]. *)
Fixpoint wraps (h : list node) (p p' : nat) (rs : list redir) : Prop :=
  match rs with
  | [] => p' = p
  | r :: rs => ∃ p1, h !! p1 = Some (REDIR p r.1.2 r.2 (redir_mode r) (redir_fd r)) ∧ (p < p1)%nat ∧ wraps h p1 p' rs
  end.

Definition ext (h h' : list node) : Prop := ∀ i x, h !! i = Some x → h' !! i = Some x.
#[export] Instance ext_preorder : PreOrder ext.
Proof. split; [by intros h i x|]. intros h1 h2 h3 H1 H2 i x Hi. by apply H2, H1. Qed.

Lemma ext_app h k : ext h (h ++ k).
Proof. intros i x Hi. rewrite lookup_app_l; [done|by eapply lookup_lt_Some]. Qed.

Lemma repr_ext h h' p c : ext h h' → repr h p c → repr h' p c.
Proof. intros He. revert p. induction c; intros p; cbn [repr]; [apply He|naive_solver..]. Qed.

Lemma wraps_snoc h p p' rs r p1 :
  wraps h p p' rs → h !! p1 = Some (REDIR p' r.1.2 r.2 (redir_mode r) (redir_fd r)) → (p' < p1)%nat → wraps h p p1 (rs ++ [r]).
Proof.
  revert p. induction rs as [|r' rs IH]; intros p; cbn [wraps app].
  - intros -> H1 H2. by exists p1.
  - intros (p2 & H1 & H2 & H3) H4 H5. exists p2. auto.
Qed.

Lemma wraps_app h p p1 p2 rs rs' : wraps h p p1 rs → wraps h p1 p2 rs' → wraps h p p2 (rs ++ rs').
Proof.
  revert p. induction rs as [|r rs IH]; intros p; cbn [wraps app]; [by intros ->|]. intros (p3 & H1 & H2 & H3) H4. exists p3. auto.
Qed.

Lemma wraps_ext h h' p p' rs :
  (∀ i c q e m f, h !! i = Some (REDIR c q e m f) → h' !! i = Some (REDIR c q e m f)) → wraps h p p' rs → wraps h' p p' rs.
Proof. intros He. revert p. induction rs as [|r rs IH]; intros p; cbn [wraps]; [done|]. naive_solver. Qed.

Lemma repr_wrap h p p' rs c : repr h p c → wraps h p p' rs → repr h p' (wrap c rs).
Proof.
  revert p c. induction rs as [|r rs IH]; intros p c Hr; cbn [wraps wrap foldl]; [by intros ->|].
  intros (p1 & H1 & H2 & H3). apply (IH p1); [|done]. cbn [repr]. eauto.
Qed.

(** ** The lexer of sh.c *)

Lemma lex_length n i w l : (length l ≤ n)%nat → (length (lex i w l) ≤ length l + length (flush w i))%nat.
Proof.
  revert i w l. induction n as [|n IH]; intros i w l Hl; destruct l as [|c l]; cbn [lex length] in *; try lia.
  destruct (in_chars whitespace c); [rewrite length_app; specialize (IH (S i) None l); cbn in IH; lia|].
  destruct (c =? chr ">").
  - rewrite length_app. destruct l as [|c' l]; [cbn; lia|]. cbn [length] in *. destruct (c' =? chr ">"); cbn [length].
    + specialize (IH (S (S i)) None l). cbn in IH. lia.
    + specialize (IH (S i) None (c' :: l)). cbn [length flush] in IH. lia.
  - destruct (in_chars symbols c).
    + rewrite length_app. cbn [length]. specialize (IH (S i) None l). cbn in IH. lia.
    + specialize (IH (S i) (Some (default i w)) l). cbn in IH. lia.
Qed.

(** The number of leading characters that satisfy [p]. *)
Fixpoint run (p : Z → bool) (l : list Z) : nat :=
  match l with [] => 0 | c :: l' => if p c then S (run p l') else 0 end.

Lemma in_chars_elem l c : in_chars l c = true ↔ c ∈ l.
Proof.
  unfold in_chars. induction l as [|x l IH]; cbn; [split; [done|by intros ?%elem_of_nil]|].
  rewrite elem_of_cons. destruct (Z.eqb_spec x c) as [->|Hn]; [naive_solver|].
  destruct (strchr l c); cbn; rewrite <-IH; naive_solver.
Qed.

Lemma run_le p l : (run p l ≤ length l)%nat.
Proof. induction l as [|c l IH]; cbn; [lia|]. destruct (p c); lia. Qed.

Lemma run_all p l i c : (i < run p l)%nat → l !! i = Some c → p c = true.
Proof.
  revert i. induction l as [|x l IH]; intros i Hi Hc; cbn in Hi; [lia|]. destruct (p x) eqn:E; [|lia].
  destruct i as [|i]; cbn in Hc; [by injection Hc as <-|]. apply (IH i); [lia|done].
Qed.

Lemma run_stop p l c : l !! run p l = Some c → p c = false.
Proof.
  induction l as [|x l IH]; cbn; [done|]. destruct (p x) eqn:E; [done|]. cbn. by intros [= <-].
Qed.

Section line.
Context (l rest : list Z).
Hypothesis no_nul : 0 ∉ l.
Abbreviation es := (length l).

Definition toks (i : nat) : list tok := lex i None (drop i l).
Definition past (p : Z → bool) (i : nat) : nat := i + run p (drop i l).

Record ready (s : shst) : Prop := { r_buf : sbuf s = l ++ 0 :: rest; r_ps : (ps s ≤ es)%nat }.

Lemma byte_in s i c : ready s → l !! i = Some c → byte_at i s = Done (c, s).
Proof.
  intros [Hb _] Hi. unfold byte_at, bind, Prelude.gets. rewrite Hb, lookup_app_l by (by eapply lookup_lt_Some). by rewrite Hi.
Qed.
Lemma byte_end s : ready s → byte_at es s = Done (0, s).
Proof. intros [Hb _]. unfold byte_at, bind, Prelude.gets. rewrite Hb, lookup_app_r, Nat.sub_diag by lia. done. Qed.

Lemma lookup_le i : (i < es)%nat → ∃ c, l !! i = Some c ∧ c ≠ 0.
Proof.
  intros Hi. destruct (lookup_lt_is_Some_2 l i Hi) as [c Hc]. exists c. split; [done|]. intros ->.
  apply no_nul. by eapply list_elem_of_lookup_2.
Qed.

Lemma skip_while_run p s i : ready s → (i ≤ es)%nat → skip_while p (es - i) i s = Done (past p i, s).
Proof.
  intros Hs Hi. remember (es - i)%nat as n eqn:En. revert i Hi En. induction n as [|n IH]; intros i Hi En; cbn [skip_while].
  - unfold past. rewrite drop_ge by lia. cbn. by rewrite Nat.add_0_r.
  - destruct (lookup_le i ltac:(lia)) as (c & Hc & _). unfold bind at 1. rewrite (byte_in s i c Hs Hc).
    unfold past. rewrite (drop_S l c i Hc). cbn [run]. destruct (p c); [|by rewrite Nat.add_0_r].
    rewrite IH by lia. unfold past. by rewrite Nat.add_succ_comm.
Qed.

Lemma past_le p i : (i ≤ es)%nat → (i ≤ past p i ≤ es)%nat.
Proof. intros Hi. unfold past. pose proof (run_le p (drop i l)) as H. rewrite length_drop in H. lia. Qed.

Lemma past_stop p i c : l !! past p i = Some c → p c = false.
Proof. unfold past. rewrite <-lookup_drop. apply run_stop. Qed.

(** White space between tokens does not matter. *)
Lemma toks_skip i : (i ≤ es)%nat → toks (past (in_chars whitespace) i) = toks i.
Proof.
  intros Hi. remember (es - i)%nat as n eqn:En. revert i Hi En. induction n as [|n IH]; intros i Hi En; unfold past.
  - rewrite drop_ge by lia. cbn. by rewrite Nat.add_0_r.
  - destruct (lookup_le i ltac:(lia)) as (c & Hc & _). rewrite (drop_S l c i Hc). cbn [run].
    destruct (in_chars whitespace c) eqn:E; [|by rewrite Nat.add_0_r].
    rewrite <-Nat.add_succ_comm. change (toks (past (in_chars whitespace) (S i)) = toks i). rewrite IH by lia.
    unfold toks at 2. rewrite (drop_S l c i Hc). cbn. by rewrite E.
Qed.

Lemma toks_end : toks es = [].
Proof. unfold toks. by rewrite drop_ge. Qed.

(** The characters of a word up to its end. *)
Lemma lex_word q i : (i ≤ es)%nat → lex i (Some q) (drop i l) = Word q (past word_char i) :: toks (past word_char i).
Proof.
  intros Hi. remember (es - i)%nat as n eqn:En. revert i Hi En. induction n as [|n IH]; intros i Hi En; unfold past, toks.
  - rewrite (drop_ge l i) by lia. cbn [run]. rewrite Nat.add_0_r, drop_ge by lia. done.
  - destruct (lookup_le i ltac:(lia)) as (c & Hc & _). rewrite (drop_S l c i Hc). cbn [run lex].
    destruct (word_char c) eqn:Ew; unfold word_char in Ew.
    + apply andb_true_iff in Ew as [->%negb_true_iff E2%negb_true_iff]. rewrite E2.
      assert ((c =? chr ">") = false) as -> by (apply Z.eqb_neq; intros ->; done).
      rewrite <-Nat.add_succ_comm. apply IH; lia.
    + rewrite Nat.add_0_r, (drop_S l c i Hc). cbn [lex]. destruct (in_chars whitespace c); [done|].
      destruct (c =? chr ">"); [done|]. destruct (in_chars symbols c); [done|]. done.
Qed.

Abbreviation ws := (in_chars whitespace).
Definition syms : list Z := Eval compute in chars "|();&<>+".

(** What [gettoken] makes of the first token. *)
Definition first_tok (ts : list tok) (t : Z) (q e : nat) (ts' : list tok) : Prop :=
  match ts with
  | [] => t = 0 ∧ ts' = []
  | Word q' e' :: ts1 => t = chr "a" ∧ q = q' ∧ e = e' ∧ ts' = ts1
  | Sym c :: ts1 => c ∈ syms ∧ t = c ∧ ts' = ts1
  end.

Lemma sym_cases c : in_chars symbols c = true → c ≠ chr ">" → in_chars (chars "|();&<") c = true ∧ c ∈ syms.
Proof.
  change (chars "|();&<") with [124; 40; 41; 59; 38; 60]. rewrite !in_chars_elem. unfold symbols, syms.
  change (chr ">") with 62. rewrite !elem_of_cons. naive_solver.
Qed.

Lemma sym_chars c : in_chars symbols c = false → in_chars (chars "|();&<") c = false ∧ (c =? chr ">") = false.
Proof.
  intros H. split.
  - destruct (in_chars (chars _) c) eqn:E; [|done]. apply in_chars_elem in E. rewrite <-H. symmetry. apply in_chars_elem.
    change (chars "|();&<") with [124; 40; 41; 59; 38; 60] in E. unfold symbols. rewrite !elem_of_cons in *. naive_solver.
  - apply Z.eqb_neq. intros ->. done.
Qed.

Lemma gt_sym : chr ">" ∈ syms.
Proof. by apply in_chars_elem. Qed.
Lemma plus_sym : chr "+" ∈ syms.
Proof. by apply in_chars_elem. Qed.

Lemma token_run s i :
  ready s → (i ≤ es)%nat → (∀ c, l !! i = Some c → ws c = false) →
  ∃ t e, token es i s = Done ((t, e), s) ∧ (i ≤ e ≤ es)%nat ∧ first_tok (toks i) t i e (toks e) ∧ (toks i ≠ [] → i < e)%nat.
Proof.
  intros Hs Hi Hw. destruct (decide (i = es)) as [->|Hn].
  { exists 0, es. unfold token, bind. rewrite byte_end by done. cbn. rewrite toks_end. repeat split; try done; lia. }
  destruct (lookup_le i ltac:(lia)) as (c & Hc & Hz). specialize (Hw c Hc). unfold token, bind at 1. rewrite (byte_in s i c Hs Hc).
  apply Z.eqb_neq in Hz. rewrite Hz. unfold toks at 1 3. rewrite (drop_S l c i Hc). cbn [lex]. rewrite Hw.
  destruct (Z.eqb_spec c (chr ">")) as [->|Hg].
  - change (in_chars (chars "|();&<") (chr ">")) with false. cbn iota. unfold bind.
    destruct (decide (S i = es)) as [Ee|Ee].
    + rewrite Ee, byte_end by done. rewrite drop_ge by lia. change (0 =? chr ">") with false. eexists _, _. split; [done|].
      rewrite toks_end. cbn [flush app first_tok]. repeat split; try done; try lia. apply gt_sym.
    + destruct (lookup_le (S i) ltac:(lia)) as (c' & Hc' & _). rewrite (byte_in s _ c' Hs Hc'), (drop_S l c' _ Hc').
      destruct (c' =? chr ">"); eexists _, _; (split; [done|]); cbn [first_tok flush app].
      * repeat split; try done; try lia. apply plus_sym.
      * rewrite <-(drop_S l c' _ Hc'). repeat split; try done; try lia. apply gt_sym.
  - destruct (in_chars symbols c) eqn:E.
    + destruct (sym_cases c E Hg) as [-> Hin]. eexists _, _. split; [done|]. cbn [flush app first_tok]. repeat split; try done; lia.
    + destruct (sym_chars c E) as [-> _]. unfold bind. rewrite skip_while_run by done. eexists _, _. split; [done|].
      cbn [default from_option]. rewrite lex_word by lia.
      assert (word_char c = true) as Ew by (unfold word_char; by rewrite Hw, E).
      assert (past word_char i = past word_char (S i)) as Ep.
      { unfold past. rewrite (drop_S l c i Hc). cbn [run]. rewrite Ew. lia. }
      pose proof (past_le word_char (S i) ltac:(lia)). rewrite Ep. cbn [first_tok]. repeat split; try done; lia.
Qed.

Lemma gettoken_run s : ready s → ∃ t q e i,
  gettoken es s = Done ((t, q, e), set_ps i s) ∧ ready (set_ps i s) ∧
  first_tok (toks (ps s)) t q e (toks i) ∧ (length (toks i) ≤ length (toks (ps s)))%nat.
Proof.
  intros Hs. pose proof (r_ps s Hs) as Hp. unfold gettoken, bind, Prelude.gets. rewrite skip_while_run by done.
  pose proof (past_le ws (ps s) Hp) as Hq. destruct (token_run s (past ws (ps s)) Hs) as (t & e & -> & He & Hf & _); [lia|apply past_stop|].
  cbn [fst snd]. rewrite skip_while_run by (done || lia). pose proof (past_le ws e ltac:(lia)).
  exists t, (past ws (ps s)), e, (past ws e). rewrite toks_skip in Hf by done. rewrite toks_skip by lia.
  repeat split; [apply Hs|cbn; lia|done|]. unfold first_tok in Hf.
  destruct (toks (ps s)) as [|[] ts]; [destruct Hf as [_ ->]|destruct Hf as (_ & _ & _ & ->)|destruct Hf as (_ & _ & ->)]; cbn; lia.
Qed.

(** Whether the next token starts with one of [tks]. *)
Definition sees (tks : list Z) (ts : list tok) : bool :=
  match ts with Sym c :: _ => in_chars tks (if c =? chr "+" then chr ">" else c) | _ => false end.

Lemma peek_run s tks : ready s → (∀ c, c ∈ tks → in_chars symbols c = true) → ∃ i,
  peek es tks s = Done (sees tks (toks (ps s)), set_ps i s) ∧ ready (set_ps i s) ∧ toks i = toks (ps s) ∧
  (toks i = [] → i = es).
Proof.
  intros Hs Ht. pose proof (r_ps s Hs) as Hp. unfold peek, bind, Prelude.gets, modify. rewrite skip_while_run by done.
  pose proof (past_le ws (ps s) Hp) as Hq. exists (past ws (ps s)). rewrite toks_skip by done. set (i := past ws (ps s)) in *.
  assert (ready (set_ps i s)) as Hs' by (split; [apply Hs|cbn; lia]).
  assert (toks (ps s) = toks i) as Et by (symmetry; by apply toks_skip). rewrite Et.
  destruct (decide (i = es)) as [E|Hn].
  { rewrite E, byte_end, toks_end by (rewrite <-E; done). cbn. rewrite <-E. done. }
  destruct (lookup_le i ltac:(lia)) as (c & Hc & Hz). rewrite (byte_in _ i c Hs' Hc). apply Z.eqb_neq in Hz. rewrite Hz.
  pose proof (past_stop ws (ps s) c Hc) as Hw. cbn [negb andb]. cbn in Hw.
  assert (sees tks (toks i) = in_chars tks c ∧ toks i ≠ []) as [-> Hne]; [|done].
  unfold toks. rewrite (drop_S l c i Hc). cbn [lex]. rewrite Hw. destruct (Z.eqb_spec c (chr ">")) as [->|Hg].
  - cbn [flush app]. destruct (drop (S i) l) as [|c' l']; [done|]. by destruct (c' =? chr ">").
  - destruct (in_chars symbols c) eqn:E.
    + cbn [flush app sees]. split; [|done]. destruct (Z.eqb_spec c (chr "+")) as [->|]; [done|done].
    + cbn [default from_option]. rewrite lex_word by lia. split; [|done]. cbn. symmetry. apply not_true_iff_false.
      intros H%in_chars_elem%Ht. congruence.
Qed.

(** ** sh.c follows the parser of tokens *)

Lemma bind_done {A B} (m : Sh A) (f : A → Sh B) s a s' : m s = Done (a, s') → bind m f s = f a s'.
Proof. unfold bind. by intros ->. Qed.

Lemma peek_then {B} tks (f : bool → Sh B) s :
  ready s → (∀ c, c ∈ tks → in_chars symbols c = true) → ∃ i,
  ready (set_ps i s) ∧ toks i = toks (ps s) ∧ bind (peek es tks) f s = f (sees tks (toks (ps s))) (set_ps i s).
Proof. intros Hs Ht. destruct (peek_run s tks Hs Ht) as (i & E & H1 & H2 & _). exists i. unfold bind. by rewrite E. Qed.

Lemma gettoken_then {B} (f : Z * nat * nat → Sh B) s :
  ready s → ∃ t q e i,
  ready (set_ps i s) ∧ first_tok (toks (ps s)) t q e (toks i) ∧ bind (gettoken es) f s = f (t, q, e) (set_ps i s).
Proof. intros Hs. destruct (gettoken_run s Hs) as (t & q & e & i & E & H1 & H2 & _). exists t, q, e, i. unfold bind. by rewrite E. Qed.

Lemma sees_one a ts :
  chars a = [chr a] → chr a ≠ chr "+" → chr a ≠ chr ">" → sees (chars a) ts = match next_is a ts with Some _ => true | None => false end.
Proof.
  intros -> H1 H2. destruct ts as [|[|c] ts]; [done..|]. cbn [sees next_is]. unfold in_chars. cbn [strchr].
  destruct (Z.eqb_spec c (chr "+")) as [->|Hc].
  - apply not_eq_sym in H1. apply Z.eqb_neq in H1, H2. by rewrite H1, H2.
  - rewrite Z.eqb_sym. by destruct (c =? chr a).
Qed.

Lemma peek_one {B} a (f : bool → Sh B) s :
  chars a = [chr a] → chr a ≠ chr "+" → chr a ≠ chr ">" → in_chars symbols (chr a) = true → ready s → ∃ i,
  ready (set_ps i s) ∧ toks i = toks (ps s) ∧
  bind (peek es (chars a)) f s = f (match next_is a (toks (ps s)) with Some _ => true | None => false end) (set_ps i s).
Proof.
  intros Ha H1 H2 H3 Hs. destruct (peek_then (chars a) f s Hs) as (i & Hi & Ht & E).
  - intros c. rewrite Ha, list_elem_of_singleton. by intros ->.
  - exists i. split; [done|]. split; [done|]. by rewrite E, sees_one.
Qed.

Lemma sees_redir ts : (∀ c ts', ts = Sym c :: ts' → c ∈ syms) → sees (chars "<>") ts = match ts with Sym c :: _ => in_chars redir_syms c | _ => false end.
Proof.
  intros H. destruct ts as [|[|c] ts]; [done..|]. specialize (H c ts eq_refl). unfold syms in H. rewrite !elem_of_cons in H.
  repeat destruct H as [->|H]; try by vm_compute. by apply elem_of_nil in H.
Qed.

Lemma new_node_run n s : new_node n s = Done (length (heap s), set_heap (heap s ++ [n]) s).
Proof. done. Qed.

(** What a parsing function does, given what the parser of tokens does. *)
Definition follows (m : Sh nat) (r : result (cmd * list tok)) (s : shst) : Prop :=
  match r with
  | Done (c, ts) => ∃ p s', m s = Done (p, s') ∧ ready s' ∧ toks (ps s') = ts ∧ ext (heap s) (heap s') ∧ repr (heap s') p c
  | Fail e => m s = Fail e
  end.

Lemma next_sym s c ts : ready s → toks (ps s) = Sym c :: ts → c ∈ syms.
Proof. intros Hs E. destruct (gettoken_run s Hs) as (t & q & e & i & _ & _ & Hf & _). rewrite E in Hf. apply Hf. Qed.

Lemma sym_not c : c ∈ syms → (c =? chr "a") = false ∧ (c =? 0) = false.
Proof. unfold syms. rewrite !elem_of_cons. intros H. repeat destruct H as [->|H]; try done. by apply elem_of_nil in H. Qed.

(** The file name of a redirection. *)
Definition word_of (ts : list tok) : option (nat * nat * list tok) := match ts with Word q e :: ts' => Some (q, e, ts') | _ => None end.

Lemma getword_then {B} (f : Z * nat * nat → Sh B) s : ready s → ∃ t q e i,
  ready (set_ps i s) ∧ bind (gettoken es) f s = f (t, q, e) (set_ps i s) ∧
  match word_of (toks (ps s)) with
  | Some (q', e', ts) => t = chr "a" ∧ q = q' ∧ e = e' ∧ toks i = ts
  | None => (t =? chr "a") = false
  end.
Proof.
  intros Hs. destruct (gettoken_then f s Hs) as (t & q & e & i & Hi & Hf & E). exists t, q, e, i. split; [done|]. split; [done|].
  destruct (toks (ps s)) as [|[q' e'|c] ts]; cbn in *; [by destruct Hf as [-> _]|done|]. destruct Hf as (Hc & -> & _).
  by destruct (sym_not c Hc).
Qed.

Lemma redircmd_run c q e p s : c ∈ redir_syms →
  (if c =? chr "<" then redircmd p q e O_RDONLY 0
   else if c =? chr ">" then redircmd p q e (Z.lor O_WRONLY O_CREATE) 1
   else if c =? chr "+" then redircmd p q e (Z.lor O_WRONLY O_CREATE) 1
   else ret p) s = Done (length (heap s), set_heap (heap s ++ [REDIR p q e (redir_mode (c, q, e)) (redir_fd (c, q, e))]) s).
Proof. unfold redir_syms. rewrite !elem_of_cons. intros H. repeat destruct H as [->|H]; try done. by apply elem_of_nil in H. Qed.

Ltac on_peek i Hi Ht :=
  match goal with |- context [bind (peek _ ?t) ?f ?s] => destruct (peek_then t f s) as (i & Hi & Ht & ->) end.
Ltac on_peek1 i Hi Ht :=
  match goal with |- context [bind (peek _ (chars ?a)) ?f ?s] =>
    destruct (peek_one a f s) as (i & Hi & Ht & ->); [done|done|done|done|done|] end.
Ltac on_gettoken t q e i Hi Hf :=
  match goal with |- context [bind (gettoken _) ?f ?s] => destruct (gettoken_then f s) as (t & q & e & i & Hi & Hf & ->); [done|] end.
Ltac on_getword t q e i Hi Hw :=
  match goal with |- context [bind (gettoken _) ?f ?s] => destruct (getword_then f s) as (t & q & e & i & Hi & -> & Hw); [done|] end.

Lemma parseredirs_run fuel p s :
  ready s → (length (toks (ps s)) < fuel)%nat → (p < length (heap s))%nat →
  match tp_redirs (toks (ps s)) with
  | Done (rs, ts) => ∃ p' s', parseredirs es fuel p s = Done (p', s') ∧ ready s' ∧ toks (ps s') = ts ∧
      ext (heap s) (heap s') ∧ wraps (heap s') p p' rs ∧ (p' < length (heap s'))%nat ∧ (length ts ≤ length (toks (ps s)))%nat
  | Fail e => parseredirs es fuel p s = Fail e
  end.
Proof.
  revert p s. induction fuel as [|fuel IH]; intros p s Hs Hl Hp; [lia|]. cbn [parseredirs].
  on_peek i Hi Ht; [done|..].
  { change (chars "<>") with [60; 62]. intros c. rewrite !elem_of_cons, elem_of_nil. intros [->|[->|[]]]; done. }
  rewrite sees_redir by (intros c ts; by apply next_sym).
  assert (tp_redirs (toks (ps s)) = Done ([], toks (ps s)) → ∃ p' s', ret p (set_ps i s) = Done (p', s') ∧ ready s' ∧
    toks (ps s') = toks (ps s) ∧ ext (heap s) (heap s') ∧ wraps (heap s') p p' [] ∧ (p' < length (heap s'))%nat ∧ (length (toks (ps s)) ≤ length (toks (ps s)))%nat) as Hnil.
  { intros _. eexists _, _. split_and!; done. }
  destruct (toks (ps s)) as [|[|c] ts1] eqn:Et; [by apply Hnil..|]. cbn [tp_redirs] in *.
  destruct (in_chars redir_syms c) eqn:Ec; [|by apply Hnil]. clear Hnil. apply in_chars_elem in Ec.
  on_gettoken t q0 e0 i1 Hi1 Hf. cbn [ps set_ps] in Hf. rewrite Ht in Hf. cbn [first_tok] in Hf. destruct Hf as (_ & -> & Ht1).
  on_getword w q e i2 Hi2 Hw. cbn [ps set_ps] in Hw. rewrite Ht1 in Hw. cbn [fst snd].
  destruct ts1 as [|[q' e'|] ts2]; cbn [word_of] in Hw; [by rewrite Hw| |by rewrite Hw].
  destruct Hw as (-> & -> & -> & Ht2). change (negb (chr "a" =? chr "a")) with false. cbn iota zeta.
  rewrite !(bind_done _ _ _ _ _ (redircmd_run c q' e' p _ Ec)). cbn [heap set_ps]. set (n := REDIR p _ _ _ _). set (s3 := set_heap _ _).
  assert (ready s3) as H3 by (split; apply Hi2). specialize (IH (length (heap s)) s3 H3). cbn [ps s3 set_heap set_ps] in IH.
  rewrite Ht2 in IH. cbn [length] in Hl. specialize (IH ltac:(lia) ltac:(cbn; rewrite length_app; cbn; lia)).
  destruct (tp_redirs ts2) as [[rs ts3]|err]; cbn [rbind]; [|done]. destruct IH as (p' & s' & E & R & T & X & Wr & L & Len).
  exists p', s'. split_and!; try done; cbn [length fst snd]; [by transitivity (heap s3); [apply ext_app|]| |lia].
  exists (length (heap s)). split; [|split; [done|done]]. apply X. cbn. by rewrite lookup_app_r, Nat.sub_diag by done.
Qed.

Lemma toks_length i : (length (toks i) ≤ es)%nat.
Proof. unfold toks. pose proof (lex_length _ i None (drop i l) (le_n _)) as H. rewrite length_drop in H. cbn in H. lia. Qed.

Lemma set_arg_put c0 args q e s :
  heap s !! c0 = Some (exec_node args) → (length args < MAXARGS)%nat →
  set_arg c0 (length args) (Some q) (Some e) s = Done (tt, set_heap (<[c0 := exec_node (args ++ [(q, e)])]> (heap s)) s).
Proof.
  intros H Hl. unfold set_arg, bind, Prelude.gets. rewrite H. apply Nat.ltb_lt in Hl as Hb. unfold exec_node at 1. rewrite Hb.
  unfold modify, exec_node. rewrite !fmap_app. cbn [fmap list_fmap fst snd].
  assert (∀ (k : list nat) x, length k = length args → <[length args := Some x]> (pad k) = pad (k ++ [x])) as Hp.
  { intros k x Hk. unfold pad. rewrite insert_app_r_alt by (rewrite length_fmap; lia). rewrite fmap_app, length_app, length_fmap, Hk, Nat.sub_diag.
    cbn [fmap list_fmap length]. rewrite <-app_assoc. f_equal.
    by replace (MAXARGS - length args)%nat with (S (MAXARGS - (length args + 1))) by lia. }
  rewrite !Hp by apply length_fmap. done.
Qed.

Lemma set_arg_end c0 args s :
  heap s !! c0 = Some (exec_node args) → (length args < MAXARGS)%nat → set_arg c0 (length args) None None s = Done (tt, s).
Proof.
  intros H Hl. unfold set_arg, bind, Prelude.gets. rewrite H. apply Nat.ltb_lt in Hl as Hb. unfold exec_node at 1. rewrite Hb.
  unfold modify. repeat f_equal. assert (∀ l : list nat, length l = length args → <[length args := None]> (pad l) = pad l) as Hp.
  { intros k Hk. apply list_insert_id. unfold pad. rewrite lookup_app_r by (rewrite length_fmap; lia).
    rewrite length_fmap, Hk, Nat.sub_diag. apply lookup_replicate_2. lia. }
  rewrite !Hp by apply length_fmap. fold (exec_node args). rewrite list_insert_id by done. by destruct s.
Qed.

Lemma sees_end ts : (∀ c ts', ts = Sym c :: ts' → c ∈ syms) →
  sees (chars "|)&;") ts = match ts with Sym c :: _ => in_chars (chars "|)&;") c | _ => false end.
Proof.
  intros H. destruct ts as [|[|c] ts]; [done..|]. specialize (H c ts eq_refl). cbn [sees].
  destruct (Z.eqb_spec c (chr "+")) as [->|]; done.
Qed.

(** The nodes other than [c0] stay as they are. *)
Definition ext_but (c0 : nat) (h h' : list node) : Prop := ∀ i x, i ≠ c0 → h !! i = Some x → h' !! i = Some x.

Lemma parseargs_run n c0 r args rs s :
  ready s → n = (MAXARGS - length args)%nat → (length args < MAXARGS)%nat →
  heap s !! c0 = Some (exec_node args) → wraps (heap s) c0 r rs → (r < length (heap s))%nat →
  match tp_args n (toks (ps s)) with
  | Done (args', rs', ts) => ∃ p s', parseargs es n c0 r (length args) s = Done (p, s') ∧ ready s' ∧ toks (ps s') = ts ∧
      ext_but c0 (heap s) (heap s') ∧ heap s' !! c0 = Some (exec_node (args ++ args')) ∧ wraps (heap s') c0 p (rs ++ rs')
  | Fail e => parseargs es n c0 r (length args) s = Fail e
  end.
Proof.
  revert r args rs s. induction n as [|n IH]; intros r args rs s Hs Hn Hl Hc Hw Hr; [lia|]. cbn [parseargs].
  on_peek i Hi Ht; [done|..].
  { change (chars "|)&;") with [124; 41; 38; 59]. intros c. rewrite !elem_of_cons, elem_of_nil. intros H. by repeat destruct H as [->|H]. }
  rewrite sees_end by (intros c ts; by apply next_sym).
  assert (∃ p s', bind (set_arg c0 (length args) None None) (λ _, ret r) (set_ps i s) = Done (p, s') ∧ ready s' ∧ toks (ps s') = toks (ps s) ∧
    ext_but c0 (heap s) (heap s') ∧ heap s' !! c0 = Some (exec_node (args ++ [])) ∧ wraps (heap s') c0 p (rs ++ [])) as Hend.
  { rewrite (bind_done _ _ _ _ _ (set_arg_end c0 args (set_ps i s) Hc Hl)), !app_nil_r. eexists _, _. split_and!; try done. by intros j x _. }
  destruct (toks (ps s)) as [|[q e|c] ts1] eqn:Et; cbn [tp_args].
  - on_gettoken t q e i1 Hi1 Hf. cbn [ps set_ps] in Hf. rewrite Ht in Hf. destruct Hf as [-> Hf]. cbn [fst snd Z.eqb].
    rewrite (bind_done _ _ _ _ _ (set_arg_end c0 args (set_ps i1 _) Hc Hl)), !app_nil_r. eexists _, _. split_and!; try done. by intros j x _.
  - on_gettoken t q1 e1 i1 Hi1 Hf. cbn [ps set_ps] in Hf. rewrite Ht in Hf. destruct Hf as (-> & -> & -> & Ht1). cbn [fst snd].
    change (chr "a" =? 0) with false. change (negb (chr "a" =? chr "a")) with false. cbn iota.
    rewrite !(bind_done _ _ _ _ _ (set_arg_put c0 args q e (set_ps i1 (set_ps i s)) Hc Hl)). destruct n as [|n]; [done|].
    set (s3 := set_heap _ _). assert (ready s3) as H3 by (split; apply Hi1). cbn [heap set_ps] in s3.
    assert (c0 < length (heap s))%nat as Hc0 by (by eapply lookup_lt_Some).
    pose proof (parseredirs_run (S es) r s3 H3) as HR. cbn [ps s3 set_heap set_ps heap] in HR. fold s3 in HR. rewrite Ht1 in HR.
    pose proof (toks_length i1) as Hlen. rewrite Ht1 in Hlen.
    specialize (HR ltac:(lia) ltac:(rewrite length_insert; lia)).
    destruct (tp_redirs ts1) as [[rs1 ts2]|err]; cbn [rbind]; [|unfold bind; by rewrite HR].
    destruct HR as (r1 & s4 & E4 & R4 & T4 & X4 & W4 & L4 & _). rewrite !(bind_done _ _ _ _ _ E4). cbn [fst snd].
    assert (heap s4 !! c0 = Some (exec_node (args ++ [(q, e)]))) as Hc4 by (apply X4; cbn; by apply list_lookup_insert_eq).
    assert (ext_but c0 (heap s) (heap s4)) as X0.
    { intros j x Hj Hx. apply X4. cbn. by rewrite list_lookup_insert_ne. }
    specialize (IH r1 (args ++ [(q, e)]) (rs ++ rs1) s4 R4). rewrite length_app in IH. cbn [length] in IH. rewrite T4 in IH.
    rewrite Nat.add_1_r in IH. specialize (IH ltac:(lia) ltac:(lia) Hc4). 
    assert (wraps (heap s4) c0 r1 (rs ++ rs1)) as Hw4.
    { apply (wraps_app _ _ r); [|done]. eapply wraps_ext; [|exact Hw]. intros j d q' e' m f Hj. apply X0; [|done]. intros ->.
      unfold exec_node in Hc. congruence. }
    specialize (IH Hw4 L4). destruct (tp_args (S n) ts2) as [[[args2 rs2] ts3]|err]; cbn [rbind fst snd]; [|done].
    destruct IH as (p & s' & E & R & T & X & C & W). exists p, s'. rewrite <-!app_assoc in *. split_and!; try done.
    intros j x Hj Hx. by apply X, X0.
  - destruct (in_chars (chars "|)&;") c) eqn:Ec; [exact Hend|]. on_gettoken t q1 e1 i1 Hi1 Hf. cbn [ps set_ps] in Hf.
    rewrite Ht in Hf. destruct Hf as (Hsym & -> & _). cbn [fst snd]. destruct (sym_not c Hsym) as [-> ->]. done.
Qed.

Lemma parsebacks_run fuel p c s :
  ready s → (length (toks (ps s)) < fuel)%nat → repr (heap s) p c →
  follows (parsebacks es fuel p) (Done (tp_backs c (toks (ps s)))) s.
Proof.
  revert p c s. induction fuel as [|fuel IH]; intros p c s Hs Hl Hp; [lia|]. unfold follows. cbn [parsebacks].
  on_peek1 i Hi Ht.
  assert (∃ p0 s', ret p (set_ps i s) = Done (p0, s') ∧ ready s' ∧ toks (ps s') = toks (ps s) ∧ ext (heap s) (heap s') ∧ repr (heap s') p0 c) as Hend.
  { eexists _, _. split_and!; done. }
  destruct (toks (ps s)) as [|[|a] ts] eqn:Et; [exact Hend..|]. cbn [next_is tp_backs]. destruct (a =? chr "&") eqn:Ea; [|exact Hend].
  on_gettoken t q e i1 Hi1 Hf. cbn [ps set_ps] in Hf. rewrite Ht in Hf. destruct Hf as (_ & _ & Ht1).
  unfold backcmd. rewrite (bind_done _ _ _ _ _ (new_node_run _ _)). set (s3 := set_heap _ _).
  assert (ready s3) as H3 by (split; apply Hi1). specialize (IH (length (heap s)) (CBack c) s3 H3). cbn [ps s3 set_heap set_ps] in IH.
  fold s3 in IH. rewrite Ht1 in IH. cbn [length] in Hl. specialize (IH ltac:(lia)). unfold follows in IH.
  assert (repr (heap s3) (length (heap s)) (CBack c)) as Hb.
  { cbn. exists p. rewrite lookup_app_r, Nat.sub_diag by done. split; [done|]. split; [|eapply repr_ext; [apply ext_app|done]].
    destruct c; cbn in Hp; destruct_and?; naive_solver eauto using lookup_lt_Some. }
  specialize (IH Hb). cbn [heap set_ps]. destruct (tp_backs (CBack c) ts) as [c' ts']. destruct IH as (p' & s' & E & R & T & X & W).
  exists p', s'. split_and!; try done. transitivity (heap s3); [apply ext_app|done].
Qed.

Lemma repr_lt h p c : repr h p c → (p < length h)%nat.
Proof. destruct c; cbn [repr]; intros H; destruct_and?; naive_solver eauto using lookup_lt_Some. Qed.

Lemma follows_eq m m' s s' r : m s = m' s' → heap s = heap s' → follows m' r s' → follows m r s.
Proof. unfold follows. intros -> ->. done. Qed.

Lemma follows_bind m (k : nat → Sh nat) r f s :
  follows m r s →
  (∀ p c s', ready s' → ext (heap s) (heap s') → repr (heap s') p c → follows (k p) (f (c, toks (ps s'))) s') →
  follows (bind m k) (rbind r f) s.
Proof.
  intros Hm Hk. destruct r as [[c ts]|e]; cbn [rbind]; unfold follows in Hm.
  - destruct Hm as (p & s' & E & R & <- & X & P). specialize (Hk p c s' R X P). unfold follows in *.
    destruct (f (c, toks (ps s'))) as [[d us]|e]; rewrite (bind_done _ _ _ _ _ E); [|done].
    destruct Hk as (p1 & s1 & E1 & R1 & T1 & X1 & P1). exists p1, s1. split_and!; try done. by transitivity (heap s').
  - unfold follows, bind. by rewrite Hm.
Qed.

(** A node for two commands that are in the heap. *)
Lemma follows_node n c s :
  ready s → (∀ h, ext (heap s) h → h !! length (heap s) = Some n → repr h (length (heap s)) c) → follows (new_node n) (Done (c, toks (ps s))) s.
Proof.
  intros Hs Hc. unfold follows. eexists _, _. split; [apply new_node_run|]. cbn [ps heap set_heap]. split_and!; try done.
  - split; apply Hs.
  - apply ext_app.
  - apply Hc; [apply ext_app|]. by rewrite lookup_app_r, Nat.sub_diag by done.
Qed.

Lemma next_token {B} a (f : Z * nat * nat → Sh B) s ts :
  ready s → next_is a (toks (ps s)) = Some ts → ∃ t i,
  ready (set_ps i s) ∧ toks i = ts ∧ bind (gettoken es) f s = f t (set_ps i s).
Proof.
  intros Hs Hn. destruct (gettoken_then f s Hs) as (t & q & e & i & Hi & Hf & E). exists (t, q, e), i.
  destruct (toks (ps s)) as [|[|c] us]; cbn in Hn; [done..|]. destruct (c =? chr a); [|done]. injection Hn as <-.
  split; [done|]. split; [|done]. apply Hf.
Qed.

Lemma follows_peek a f r s :
  chars a = [chr a] → chr a ≠ chr "+" → chr a ≠ chr ">" → in_chars symbols (chr a) = true → ready s →
  (∀ i, ready (set_ps i s) → toks i = toks (ps s) →
    follows (f (match next_is a (toks (ps s)) with Some _ => true | None => false end)) r (set_ps i s)) →
  follows (bind (peek es (chars a)) f) r s.
Proof.
  intros H1 H2 H3 H4 Hs Hf. destruct (peek_one a f s H1 H2 H3 H4 Hs) as (i & Hi & Ht & E). eapply follows_eq; [exact E|done|]. by apply Hf.
Qed.

Lemma follows_next a (k : Z * nat * nat → Sh nat) r s ts :
  ready s → next_is a (toks (ps s)) = Some ts →
  (∀ t i, ready (set_ps i s) → toks i = ts → follows (k t) r (set_ps i s)) → follows (bind (gettoken es) k) r s.
Proof.
  intros Hs Hn Hk. destruct (next_token a k s ts Hs Hn) as (t & i & Hi & Ht & E). eapply follows_eq; [exact E|done|]. by apply Hk.
Qed.

(** [if(peek(a)) { gettoken; d = again; n(c, d) } else c] *)
Lemma follows_more a (again : Sh nat) (mk : nat → nat → node) (MK : cmd → cmd → cmd) tp p c s :
  chars a = [chr a] → chr a ≠ chr "+" → chr a ≠ chr ">" → in_chars symbols (chr a) = true →
  ready s → repr (heap s) p c →
  (∀ s, ready s → follows again (tp (toks (ps s))) s) →
  (∀ h q l r x y, h !! q = Some (mk l r) → (l < q)%nat → (r < q)%nat → repr h l x → repr h r y → repr h q (MK x y)) →
  follows (b <- peek es (chars a);; if b then gettoken es;; r <- again;; new_node (mk p r) else ret p)
    (match next_is a (toks (ps s)) with Some ts => rbind (tp ts) (λ d, Done (MK c d.1, d.2)) | None => Done (c, toks (ps s)) end) s.
Proof.
  intros H1 H2 H3 H4 Hs Hp Hag Hmk. apply follows_peek; try done. intros i Hi Ht. destruct (next_is a (toks (ps s))) as [ts|] eqn:En.
  - rewrite <-Ht in En. apply (follows_next a _ _ _ ts Hi En). intros t j Hj <-.
    apply (follows_bind again _ (tp (toks j)) _ (set_ps j (set_ps i s))); [by apply (Hag (set_ps j (set_ps i s)))|].
    intros q d s' Hs' X Hd. cbn [fst snd]. apply follows_node; [done|]. intros h Hh Hq. eapply Hmk; [exact Hq|..].
    + pose proof (repr_lt _ _ _ (repr_ext _ _ _ _ X Hp)). done.
    + by eapply repr_lt.
    + by eapply repr_ext, repr_ext.
    + by eapply repr_ext.
  - exists p, (set_ps i s). split_and!; done.
Qed.

(** A simple command: its node is filled in while redirections are put around it. *)
Lemma parsesimple_run s :
  ready s →
  follows (cmd <- execcmd;; r <- parseredirs es (S es) cmd;; parseargs es MAXARGS cmd r 0)
    (rbind (tp_redirs (toks (ps s))) (λ r, rbind (tp_args MAXARGS r.2) (λ a, Done (wrap (CExec a.1.1) (r.1 ++ a.1.2), a.2)))) s.
Proof.
  intros Hs. set (s1 := set_heap (heap s ++ [exec_node []]) s). set (c0 := length (heap s)).
  assert (ready s1) as H1 by (split; apply Hs). assert (ext (heap s) (heap s1)) as X1 by apply ext_app.
  assert (heap s1 !! c0 = Some (exec_node [])) as Hc by (cbn; by rewrite lookup_app_r, Nat.sub_diag by done).
  assert (∀ {B} (k : nat → Sh B), bind execcmd k s = k c0 s1) as Ex by done.
  pose proof (parseredirs_run (S es) c0 s1 H1) as HR. cbn [ps s1 set_heap] in HR. fold s1 in HR.
  pose proof (toks_length (ps s)). specialize (HR ltac:(lia) (lookup_lt_Some _ _ _ Hc)). unfold follows. rewrite !Ex.
  destruct (tp_redirs (toks (ps s))) as [[rs ts]|e]; cbn [rbind fst snd]; [|unfold bind; by rewrite HR].
  destruct HR as (r & s2 & E2 & R2 & <- & X2 & W2 & L2 & _). rewrite !(bind_done _ _ _ _ _ E2).
  pose proof (parseargs_run MAXARGS c0 r [] rs s2 R2 eq_refl ltac:(vm_compute; lia) (X2 _ _ Hc) W2 L2) as HA.
  destruct (tp_args MAXARGS (toks (ps s2))) as [[[args rs'] ts']|e]; cbn [rbind fst snd]; [|exact HA].
  destruct HA as (p & s' & E & R & T & X & C & W). exists p, s'. split_and!; try done.
  - intros i x Hi. apply X; [|by apply X2, X1]. apply lookup_lt_Some in Hi. subst c0. lia.
  - by eapply repr_wrap.
Qed.

(** A command followed by redirections. *)
Lemma follows_redirs p c s :
  ready s → repr (heap s) p c →
  follows (parseredirs es (S es) p) (rbind (tp_redirs (toks (ps s))) (λ d, Done (wrap c d.1, d.2))) s.
Proof.
  intros Hs Hp. pose proof (parseredirs_run (S es) p s Hs ltac:(pose proof (toks_length (ps s)); lia) (repr_lt _ _ _ Hp)) as HR.
  destruct (tp_redirs (toks (ps s))) as [[rs ts]|e]; cbn [rbind fst snd]; [|exact HR].
  destruct HR as (p' & s' & E & R & T & X & W & _ & _). exists p', s'. split_and!; try done. eapply repr_wrap; [|exact W]. by eapply repr_ext.
Qed.

Lemma parse_run fuel :
  (∀ s, ready s → follows (parseline es fuel) (tp_line fuel (toks (ps s))) s) ∧
  (∀ s, ready s → follows (parsepipe es fuel) (tp_pipe fuel (toks (ps s))) s) ∧
  (∀ s, ready s → follows (parseexec es fuel) (tp_exec fuel (toks (ps s))) s) ∧
  (∀ s, ready s → follows (parseblock es fuel) (tp_block fuel (toks (ps s))) s).
Proof.
  induction fuel as [|fuel (IHl & IHp & IHe & IHb)]; [done|]. split_and!; intros s Hs; cbn [parseline parsepipe parseexec parseblock tp_line tp_pipe tp_exec tp_block].
  - apply follows_bind; [by apply IHp|]. intros p c s' Hs' _ Hp. cbn [fst snd].
    apply (follows_bind _ _ (Done (tp_backs c (toks (ps s'))))
      (λ b, match next_is ";" b.2 with Some ts => rbind (tp_line fuel ts) (λ d, Done (CList b.1 d.1, d.2)) | None => Done b end)).
    + apply parsebacks_run; [done|pose proof (toks_length (ps s')); lia|done].
    + intros p1 c1 s1 Hs1 _ Hp1. cbn [fst snd]. apply (follows_more ";" _ LIST CList (tp_line fuel)); try done.
      intros h q l0 r x y. cbn [repr]. eauto 10.
  - apply follows_bind; [by apply IHe|]. intros p c s' Hs' _ Hp. cbn [fst snd].
    apply (follows_more "|" _ PIPE CPipe (tp_pipe fuel)); try done. intros h q l0 r x y. cbn [repr]. eauto 10.
  - apply follows_peek; try done. intros i Hi Ht. rewrite <-Ht. destruct (next_is "(" (toks i)) as [ts|]; [by apply (IHb (set_ps i s))|].
    by apply (parsesimple_run (set_ps i s)).
  - apply follows_peek; try done. intros i Hi Ht. rewrite <-Ht. destruct (next_is "(" (toks i)) as [ts|] eqn:En; [|done].
    cbn [negb]. apply (follows_next "(" _ _ _ ts Hi En). intros t j Hj <-.
    apply (follows_bind (parseline es fuel) _ (tp_line fuel (toks j)) _ (set_ps j (set_ps i s))); [by apply (IHl (set_ps j (set_ps i s)))|].
    intros p c s' Hs' _ Hp. cbn [fst snd]. apply follows_peek; try done. intros k Hk Htk. rewrite <-Htk.
    destruct (next_is ")" (toks k)) as [us|] eqn:En'; [|done]. cbn [negb]. apply (follows_next ")" _ _ _ us Hk En').
    intros t' m Hm <-. by apply (follows_redirs p c (set_ps m (set_ps k s'))).
Qed.
End line.

(** ** The parser of tokens decides the grammar *)

Lemma redirs_simple rs us args rs' vs : redirs rs us → simple args rs' vs → simple args (rs ++ rs') (us ++ vs).
Proof. induction 1; intros; cbn; [done|]. apply simple_redir; auto. Qed.

Lemma tp_redirs_sound ts rs ts' : tp_redirs ts = Done (rs, ts') → ∃ us, ts = us ++ ts' ∧ redirs rs us.
Proof.
  remember (length ts) as n eqn:En. revert ts rs ts' En. induction n as [n IH] using lt_wf_ind. intros ts rs ts' -> H.
  destruct ts as [|[q e|c] ts]; cbn in H; [injection H as <- <-; by exists []; split; [|constructor]..|].
  destruct (in_chars redir_syms c) eqn:Ec; [|injection H as <- <-; by exists []; split; [|constructor]].
  destruct ts as [|[q e|] ts]; try done. destruct (tp_redirs ts) as [[rs1 ts1]|] eqn:E; [|done]. cbn in H. injection H as <- <-.
  destruct (IH (length ts) ltac:(cbn; lia) ts rs1 ts1 eq_refl E) as (us & -> & Hr). exists (Sym c :: Word q e :: us). split; [done|].
  constructor; [by apply in_chars_elem|done].
Qed.

Lemma tp_args_sound n ts args rs ts' :
  tp_args n ts = Done (args, rs, ts') → (0 < n)%nat → ∃ us, ts = us ++ ts' ∧ simple args rs us ∧ (length args < n)%nat.
Proof.
  revert ts args rs ts'. induction n as [|n IH]; intros ts args rs ts' H Hn; [lia|].
  destruct ts as [|[q e|c] ts]; cbn [tp_args] in H.
  - injection H as <- <- <-. exists []. split_and!; [done|constructor|done].
  - destruct n as [|n]; [done|]. destruct (tp_redirs ts) as [[rs1 ts1]|] eqn:E1; [|done]. cbn [rbind fst snd] in H.
    destruct (tp_args (S n) ts1) as [[[args2 rs2] ts2]|] eqn:E2; [|done]. cbn [rbind fst snd] in H. injection H as <- <- <-.
    apply tp_redirs_sound in E1 as (us1 & -> & R1). apply IH in E2 as (us2 & -> & R2 & L2); [|lia].
    exists (Word q e :: us1 ++ us2). split_and!; [by rewrite app_assoc|constructor; by apply redirs_simple|cbn; lia].
  - destruct (in_chars (chars "|)&;") c); [|done]. injection H as <- <- <-. exists []. split_and!; [done|constructor|cbn; lia].
Qed.

Lemma tp_backs_sound c ts us0 : gback c us0 → ∃ us, ts = us ++ (tp_backs c ts).2 ∧ gback (tp_backs c ts).1 (us0 ++ us).
Proof.
  revert c us0. induction ts as [|[q e|a] ts IH]; intros c us0 Hc; cbn [tp_backs]; [exists []; split; [done|by rewrite app_nil_r]..|].
  destruct (Z.eqb_spec a (chr "&")) as [->|]; [|exists []; split; [done|by rewrite app_nil_r]].
  destruct (IH (CBack c) (us0 ++ [Sym (chr "&")])) as (us & E & H); [by constructor|].
  exists (Sym (chr "&") :: us). split; [cbn [app]; by f_equal|]. by rewrite <-app_assoc in H.
Qed.

Lemma next_is_Some a ts ts' : next_is a ts = Some ts' → ts = Sym (chr a) :: ts'.
Proof. destruct ts as [|[|c] ts]; cbn; try done. destruct (Z.eqb_spec c (chr a)) as [->|]; [|done]. by intros [= ->]. Qed.

Lemma tp_sound n :
  (∀ ts c ts', tp_line n ts = Done (c, ts') → ∃ us, ts = us ++ ts' ∧ gline c us) ∧
  (∀ ts c ts', tp_pipe n ts = Done (c, ts') → ∃ us, ts = us ++ ts' ∧ gpipe c us) ∧
  (∀ ts c ts', tp_exec n ts = Done (c, ts') → ∃ us, ts = us ++ ts' ∧ gexec c us) ∧
  (∀ ts c ts', tp_block n ts = Done (c, ts') → ∃ us, ts = us ++ ts' ∧ gexec c us).
Proof.
  induction n as [|n (IHl & IHp & IHe & IHb)]; [done|]. split_and!; intros ts c ts' H; cbn [tp_line tp_pipe tp_exec tp_block] in H.
  - destruct (tp_pipe n ts) as [[c1 ts1]|] eqn:E1; [|done]. cbn [rbind fst snd] in H. apply IHp in E1 as (us1 & -> & G1).
    destruct (tp_backs_sound c1 ts1 us1 (gback_one _ _ G1)) as (us2 & E2 & G2).
    destruct (tp_backs c1 ts1) as [c2 ts2]. cbn [fst snd] in *. subst ts1. destruct (next_is ";" ts2) as [ts3|] eqn:En.
    + apply next_is_Some in En as ->. destruct (tp_line n ts3) as [[d ts4]|] eqn:E4; [|done]. cbn in H. injection H as <- <-.
      apply IHl in E4 as (us4 & -> & G4). exists ((us1 ++ us2) ++ Sym (chr ";") :: us4). split; [by rewrite <-!app_assoc|by constructor].
    + injection H as <- <-. exists (us1 ++ us2). split; [by rewrite app_assoc|by constructor].
  - destruct (tp_exec n ts) as [[c1 ts1]|] eqn:E1; [|done]. cbn [rbind fst snd] in H. apply IHe in E1 as (us1 & -> & G1).
    destruct (next_is "|" ts1) as [ts3|] eqn:En.
    + apply next_is_Some in En as ->. destruct (tp_pipe n ts3) as [[d ts4]|] eqn:E4; [|done]. cbn in H. injection H as <- <-.
      apply IHp in E4 as (us4 & -> & G4). exists (us1 ++ Sym (chr "|") :: us4). split; [by rewrite <-!app_assoc|by constructor].
    + injection H as <- <-. exists us1. split; [done|by constructor].
  - destruct (next_is "(" ts) as [ts1|]; [by apply IHb|]. destruct (tp_redirs ts) as [[rs1 ts1]|] eqn:E1; [|done]. cbn [rbind fst snd] in H.
    destruct (tp_args MAXARGS ts1) as [[[args rs2] ts2]|] eqn:E2; [|done]. cbn [rbind fst snd] in H. injection H as <- <-.
    apply tp_redirs_sound in E1 as (us1 & -> & R1). apply tp_args_sound in E2 as (us2 & -> & R2 & L2); [|vm_compute; lia].
    exists (us1 ++ us2). split; [by rewrite app_assoc|]. constructor; [by apply redirs_simple|done].
  - destruct (next_is "(" ts) as [ts1|] eqn:En; [|done]. apply next_is_Some in En as ->.
    destruct (tp_line n ts1) as [[c1 ts2]|] eqn:E1; [|done]. cbn [rbind fst snd] in H. apply IHl in E1 as (us1 & -> & G1).
    destruct (next_is ")" ts2) as [ts3|] eqn:En; [|done]. apply next_is_Some in En as ->.
    destruct (tp_redirs ts3) as [[rs ts4]|] eqn:E3; [|done]. cbn [rbind fst snd] in H. injection H as <- <-.
    apply tp_redirs_sound in E3 as (us3 & -> & R3). exists (Sym (chr "(") :: us1 ++ Sym (chr ")") :: us3).
    split; [cbn; by rewrite <-!app_assoc|by constructor].
Qed.

(** [ts] is at its end or starts with one of the symbols [l]. *)
Definition stops (l : list Z) (ts : list tok) : Prop := match ts with [] => True | Sym c :: _ => c ∈ l | Word _ _ :: _ => False end.
Definition after_exec : list Z := Eval compute in chars "|)&;".
Definition after_pipe : list Z := Eval compute in chars ")&;".
Definition after_line : list Z := Eval compute in chars ")".

Lemma stops_mono l l' ts : (∀ c, c ∈ l → c ∈ l') → stops l ts → stops l' ts.
Proof. destruct ts as [|[|c] ts]; cbn; auto. Qed.
Lemma stops_pipe ts : stops after_pipe ts → stops after_exec ts.
Proof. apply stops_mono. intros c. unfold after_pipe, after_exec. rewrite !elem_of_cons. naive_solver. Qed.
Lemma stops_line ts : stops after_line ts → stops after_pipe ts.
Proof. apply stops_mono. intros c. unfold after_line, after_pipe. rewrite !elem_of_cons. naive_solver. Qed.

Ltac stop_cases H := unfold stops, after_exec, after_pipe, after_line in H; rewrite ?elem_of_cons, ?elem_of_nil in H;
  repeat destruct H as [->|H]; try done.

Lemma tp_redirs_stop ts : stops after_exec ts → tp_redirs ts = Done ([], ts).
Proof. destruct ts as [|[|c] ts]; try done. intros H. stop_cases H. Qed.
Lemma tp_args_stop n ts : stops after_exec ts → tp_args n ts = Done ([], [], ts).
Proof. destruct n, ts as [|[|c] ts]; try done; intros H; stop_cases H. Qed.
Lemma next_is_stop a l ts : stops l ts → chr a ∉ l → next_is a ts = None.
Proof. destruct ts as [|[|c] ts]; try done. cbn. intros H Ha. destruct (Z.eqb_spec c (chr a)) as [->|]; done. Qed.

Lemma tp_redirs_complete rs us ts : redirs rs us → stops after_exec ts → tp_redirs (us ++ ts) = Done (rs, ts).
Proof.
  induction 1 as [|c q e rs us Hc _ IH]; intros Hs; [by apply tp_redirs_stop|]. cbn [app tp_redirs].
  apply in_chars_elem in Hc. rewrite Hc, IH by done. done.
Qed.

Definition tp_simple (n : nat) (ts : list tok) : result (list (nat * nat) * list redir * list tok) :=
  rbind (tp_redirs ts) (λ r, rbind (tp_args n r.2) (λ a, Done (a.1.1, r.1 ++ a.1.2, a.2))).

Lemma tp_args_word n q e ts : tp_args (S (S n)) (Word q e :: ts) =
  rbind (tp_redirs ts) (λ r, rbind (tp_args (S n) r.2) (λ a, Done ((q, e) :: a.1.1, r.1 ++ a.1.2, a.2))).
Proof. done. Qed.

Lemma tp_simple_complete args rs us ts n :
  simple args rs us → (length args < n)%nat → stops after_exec ts → tp_simple n (us ++ ts) = Done (args, rs, ts).
Proof.
  intros H. revert n. induction H as [|q e args rs us _ IH|c q e args rs us Hc _ IH]; intros n Hn Hs; unfold tp_simple.
  - cbn [app]. rewrite tp_redirs_stop by done. cbn [rbind fst snd]. by rewrite tp_args_stop.
  - cbn [app tp_redirs rbind fst snd]. destruct n as [|[|n]]; cbn [length] in Hn; [lia..|]. rewrite tp_args_word.
    specialize (IH (S n) ltac:(lia) Hs). unfold tp_simple in IH. destruct (tp_redirs (us ++ ts)) as [[r t]|]; [|done]. cbn [rbind fst snd] in *.
    destruct (tp_args (S n) t) as [[[a1 a2] a3]|]; [|done]. cbn [rbind fst snd] in *. by injection IH as -> -> ->.
  - specialize (IH n Hn Hs). unfold tp_simple in IH. cbn [app tp_redirs]. apply in_chars_elem in Hc. rewrite Hc.
    destruct (tp_redirs (us ++ ts)) as [[r t]|]; [|done]. cbn [rbind fst snd] in *.
    destruct (tp_args n t) as [[[a1 a2] a3]|]; [|done]. cbn [rbind fst snd app] in *. by injection IH as -> -> ->.
Qed.

Lemma simple_not_block args rs us ts : simple args rs us → stops after_exec ts → next_is "(" (us ++ ts) = None.
Proof.
  destruct 1 as [| |c q e args rs us Hc _]; intros Hs; cbn [app]; [|done|].
  - eapply next_is_stop; [done|]. intros H. by apply in_chars_elem in H.
  - cbn. unfold redir_syms in Hc. rewrite !elem_of_cons, elem_of_nil in Hc. by repeat destruct Hc as [->|Hc].
Qed.

Scheme gline_mut := Induction for gline Sort Prop
with gback_mut := Induction for gback Sort Prop
with gpipe_mut := Induction for gpipe Sort Prop
with gexec_mut := Induction for gexec Sort Prop.
Combined Scheme grammar_ind from gline_mut, gback_mut, gpipe_mut, gexec_mut.

Lemma tp_complete :
  (∀ c us, gline c us → ∀ n ts, (4 * length us + 3 ≤ n)%nat → stops after_line ts → tp_line n (us ++ ts) = Done (c, ts)) ∧
  (∀ c us, gback c us → ∀ n ts, (4 * length us + 2 ≤ n)%nat → stops after_pipe ts →
     rbind (tp_pipe n (us ++ ts)) (λ r, Done (tp_backs r.1 r.2)) = Done (tp_backs c ts)) ∧
  (∀ c us, gpipe c us → ∀ n ts, (4 * length us + 2 ≤ n)%nat → stops after_pipe ts → tp_pipe n (us ++ ts) = Done (c, ts)) ∧
  (∀ c us, gexec c us → ∀ n ts, (4 * length us + 1 ≤ n)%nat → stops after_exec ts → tp_exec n (us ++ ts) = Done (c, ts)).
Proof.
  apply grammar_ind.
  - intros c us _ IH [|n] ts Hn Hs; [lia|]. cbn [tp_line]. specialize (IH n ts ltac:(lia) (stops_line _ Hs)).
    destruct (tp_pipe n (us ++ ts)) as [[c1 ts1]|]; [|done]. cbn [rbind fst snd] in *. injection IH as ->.
    assert (tp_backs c ts = (c, ts)) as ->. { destruct ts as [|[|a] ts]; [done..|]. cbn [tp_backs]. stop_cases Hs. }
    cbn [fst snd]. rewrite (next_is_stop _ _ _ Hs); [done|]. intros H. by apply in_chars_elem in H.
  - intros c d us vs _ IHc _ IHd [|n] ts Hn Hs; [lia|]. rewrite length_app in Hn. cbn [length] in Hn. cbn [tp_line]. rewrite <-app_assoc. cbn [app].
    specialize (IHc n (Sym (chr ";") :: vs ++ ts) ltac:(lia) ltac:(by apply in_chars_elem)). specialize (IHd n ts ltac:(lia) Hs).
    destruct (tp_pipe n _) as [[c1 ts1]|]; cbn [rbind fst snd] in *; [|done]. injection IHc as ->.
    cbn [tp_backs fst snd]. change (chr ";" =? chr "&") with false. cbn [fst snd next_is]. rewrite Z.eqb_refl, IHd. done.
  - intros c us _ IH n ts Hn Hs. by rewrite IH.
  - intros c us _ IH n ts Hn Hs. rewrite length_app in Hn. cbn [length] in Hn. rewrite <-app_assoc. cbn [app].
    rewrite IH; [done|lia|]. by apply in_chars_elem.
  - intros c us _ IH [|n] ts Hn Hs; [lia|]. cbn [tp_pipe]. rewrite IH by (by apply stops_pipe || lia). cbn [rbind fst snd].
    rewrite (next_is_stop _ _ _ Hs); [done|]. intros H. by apply in_chars_elem in H.
  - intros c d us vs _ IHc _ IHd [|n] ts Hn Hs; [lia|]. rewrite length_app in Hn. cbn [length] in Hn. cbn [tp_pipe]. rewrite <-app_assoc. cbn [app].
    rewrite IHc by (by apply in_chars_elem || lia). cbn [rbind fst snd next_is]. rewrite Z.eqb_refl, IHd by (done || lia). done.
  - intros args rs us Hsim Hl [|n] ts Hn Hs; [lia|]. cbn [tp_exec]. rewrite (simple_not_block _ _ _ _ Hsim Hs).
    pose proof (tp_simple_complete _ _ _ _ MAXARGS Hsim Hl Hs) as E. unfold tp_simple in E.
    destruct (tp_redirs (us ++ ts)) as [[r t]|]; [|done]. cbn [rbind fst snd] in *.
    destruct (tp_args MAXARGS t) as [[[a1 a2] a3]|]; [|done]. cbn [rbind fst snd] in *. by injection E as -> -> ->.
  - intros c rs us vs _ IH Hr [|[|n]] ts Hn Hs; cbn [length] in Hn; [lia..|]. rewrite length_app in Hn. cbn [length] in Hn.
    cbn [tp_exec tp_block app next_is]. rewrite Z.eqb_refl, <-app_assoc. cbn [app].
    rewrite IH by (by apply in_chars_elem || lia). cbn [rbind fst snd next_is]. rewrite Z.eqb_refl, (tp_redirs_complete _ _ _ Hr Hs). done.
Qed.

(** The fuel is enough: only messages are left as failures. *)
Definition is_panic (e : err) : Prop := ∃ msg, e = EPanic msg.

Lemma tp_redirs_panic ts e : tp_redirs ts = Fail e → is_panic e.
Proof.
  remember (length ts) as n eqn:En. revert ts e En. induction n as [n IH] using lt_wf_ind. intros ts e -> H.
  destruct ts as [|[|c] ts]; try done. cbn [tp_redirs] in H. destruct (in_chars redir_syms c); [|done].
  destruct ts as [|[q e'|] ts]; [injection H as <-; by eexists| |injection H as <-; by eexists].
  destruct (tp_redirs ts) as [|e1] eqn:E; [done|]. cbn in H. injection H as <-. by eapply (IH (length ts)); [cbn; lia|done|].
Qed.

Lemma tp_args_panic n ts e : tp_args n ts = Fail e → is_panic e.
Proof.
  revert ts. induction n as [|n IH]; intros [|[q e'|c] ts] H; cbn [tp_args] in H; try done; try (injection H as <-; by eexists).
  - destruct (in_chars _ c); [done|]. injection H as <-. by eexists.
  - destruct n as [|n]; [injection H as <-; by eexists|]. destruct (tp_redirs ts) as [[rs ts1]|] eqn:E1; cbn [rbind fst snd] in H.
    + destruct (tp_args (S n) ts1) as [|e1] eqn:E2; [done|]. injection H as <-. by eapply IH.
    + injection H as <-. by eapply tp_redirs_panic.
  - destruct (in_chars _ c); [done|]. injection H as <-. by eexists.
Qed.

Lemma tp_backs_length c ts : (length (tp_backs c ts).2 ≤ length ts)%nat.
Proof. revert c. induction ts as [|[|a] ts IH]; intros c; cbn [tp_backs]; [done..|]. destruct (a =? chr "&"); [|done]. etrans; [apply IH|]. cbn. lia. Qed.

Lemma tp_panic n :
  (∀ ts e, tp_line n ts = Fail e → (4 * length ts + 3 ≤ n)%nat → is_panic e) ∧
  (∀ ts e, tp_pipe n ts = Fail e → (4 * length ts + 2 ≤ n)%nat → is_panic e) ∧
  (∀ ts e, tp_exec n ts = Fail e → (4 * length ts + 1 ≤ n)%nat → is_panic e) ∧
  (∀ ts e, tp_block n ts = Fail e → ts ≠ [] → (4 * length ts ≤ n)%nat → is_panic e).
Proof.
  induction n as [|n (IHl & IHp & IHe & IHb)].
  { split_and!; intros ts e _ H; try lia. destruct ts; [done|cbn; lia]. }
  split_and!; intros ts e H; cbn [tp_line tp_pipe tp_exec tp_block] in H.
  - intros Hn. destruct (tp_pipe n ts) as [[c1 ts1]|e1] eqn:E1; cbn [rbind fst snd] in H; [|injection H as <-; eapply IHp; [done|lia]].
    destruct (proj1 (proj2 (tp_sound n)) _ _ _ E1) as (us & -> & _). pose proof (tp_backs_length c1 ts1) as Hb. rewrite length_app in Hn.
    destruct (next_is ";" _) as [ts3|] eqn:En; [|done]. apply next_is_Some in En. rewrite En in Hb. cbn [length] in Hb.
    destruct (tp_line n ts3) as [|e3] eqn:E3; [done|]. injection H as <-. eapply IHl; [done|lia].
  - intros Hn. destruct (tp_exec n ts) as [[c1 ts1]|e1] eqn:E1; cbn [rbind fst snd] in H; [|injection H as <-; eapply IHe; [done|lia]].
    destruct (proj1 (proj2 (proj2 (tp_sound n))) _ _ _ E1) as (us & -> & _). rewrite length_app in Hn.
    destruct (next_is "|" _) as [ts3|] eqn:En; [|done]. apply next_is_Some in En as ->. cbn [length] in Hn.
    destruct (tp_pipe n ts3) as [|e3] eqn:E3; [done|]. injection H as <-. eapply IHp; [done|lia].
  - intros Hn. destruct (next_is "(" ts) as [ts1|] eqn:En.
    { eapply IHb; [done|by intros ->|lia]. }
    destruct (tp_redirs ts) as [[rs ts1]|] eqn:E1; cbn [rbind fst snd] in H; [|injection H as <-; by eapply tp_redirs_panic].
    destruct (tp_args MAXARGS ts1) as [|e2] eqn:E2; [done|]. injection H as <-. by eapply tp_args_panic.
  - intros _ Hn. destruct (next_is "(" ts) as [ts1|] eqn:En; [|injection H as <-; by eexists]. apply next_is_Some in En as ->. cbn [length] in Hn.
    destruct (tp_line n ts1) as [[c2 ts2]|] eqn:E2; cbn [rbind fst snd] in H; [|injection H as <-; eapply IHl; [done|lia]].
    destruct (next_is ")" ts2) as [ts3|]; [|injection H as <-; by eexists].
    destruct (tp_redirs ts3) as [|e3] eqn:E3; [done|]. injection H as <-. by eapply tp_redirs_panic.
Qed.

(** ** Words and their ends *)

Fixpoint words (c : cmd) : list (nat * nat) :=
  match c with
  | CExec args => args
  | CRedir d q e _ _ => words d ++ [(q, e)]
  | CPipe c d | CList c d => words c ++ words d
  | CBack d => words d
  end.

Fixpoint args_fit (c : cmd) : Prop :=
  match c with
  | CExec args => (length args < MAXARGS)%nat
  | CRedir d _ _ _ _ | CBack d => args_fit d
  | CPipe c d | CList c d => args_fit c ∧ args_fit d
  end.

Definition word_toks (ts : list tok) : list (nat * nat) := omap (λ t, match t with Word q e => Some (q, e) | Sym _ => None end) ts.

Lemma wrap_words c rs : words (wrap c rs) = words c ++ ((λ r : redir, (r.1.2, r.2)) <$> rs).
Proof. revert c. induction rs as [|r rs IH]; intros c; cbn [wrap foldl fmap list_fmap]; [by rewrite app_nil_r|].
  change (words (wrap (CRedir c r.1.2 r.2 (redir_mode r) (redir_fd r)) rs) = words c ++ (r.1.2, r.2) :: ((λ r : redir, (r.1.2, r.2)) <$> rs)).
  rewrite IH. cbn [words]. by rewrite <-app_assoc. Qed.
Lemma wrap_fit c rs : args_fit c → args_fit (wrap c rs).
Proof. revert c. induction rs as [|r rs IH]; intros c Hc; [done|]. by apply (IH (CRedir c r.1.2 r.2 (redir_mode r) (redir_fd r))). Qed.

Lemma redirs_words rs us : redirs rs us → word_toks us = (λ r : redir, (r.1.2, r.2)) <$> rs.
Proof. induction 1; [done|]. cbn. by f_equal. Qed.
Lemma simple_words args rs us : simple args rs us → word_toks us ≡ₚ args ++ ((λ r : redir, (r.1.2, r.2)) <$> rs).
Proof. induction 1 as [|q e args rs us _ IH|c q e args rs us _ _ IH]; cbn; [done|by rewrite IH|]. rewrite IH. by rewrite Permutation_middle. Qed.

Lemma grammar_words :
  (∀ c us, gline c us → words c ≡ₚ word_toks us ∧ args_fit c) ∧ (∀ c us, gback c us → words c ≡ₚ word_toks us ∧ args_fit c) ∧
  (∀ c us, gpipe c us → words c ≡ₚ word_toks us ∧ args_fit c) ∧ (∀ c us, gexec c us → words c ≡ₚ word_toks us ∧ args_fit c).
Proof.
  apply grammar_ind; try done.
  - intros c d us vs _ [H1 H2] _ [H3 H4]. unfold word_toks in *. rewrite omap_app. cbn. by rewrite H1, H3.
  - intros c us _ [H1 H2]. unfold word_toks in *. rewrite omap_app. cbn. by rewrite app_nil_r, H1.
  - intros c d us vs _ [H1 H2] _ [H3 H4]. unfold word_toks in *. rewrite omap_app. cbn. by rewrite H1, H3.
  - intros args rs us Hs Hl. split; [|by apply wrap_fit]. rewrite wrap_words, (simple_words _ _ _ Hs). done.
  - intros c rs us vs _ [H1 H2] Hr. split; [|by apply wrap_fit]. rewrite wrap_words, H1. unfold word_toks. cbn. rewrite omap_app. cbn.
    by rewrite <-(redirs_words _ _ Hr).
Qed.

(** Bounds of a word of the line: its characters are word characters, and the
    next one is not. *)
Definition word_at (l : list Z) (w : nat * nat) : Prop :=
  (w.1 < w.2 ≤ length l)%nat ∧ (∀ j, (w.1 ≤ j < w.2)%nat → ∃ c, l !! j = Some c ∧ word_char c = true) ∧
  (∀ c, l !! w.2 = Some c → word_char c = false).

Lemma lex_words l i w n :
  (length l - i ≤ n)%nat → (i ≤ length l)%nat →
  (∀ q, w = Some q → (q < i)%nat ∧ ∀ j, (q ≤ j < i)%nat → ∃ c, l !! j = Some c ∧ word_char c = true) →
  Forall (word_at l) (word_toks (lex i w (drop i l))).
Proof.
  revert i w. induction n as [|n IH]; intros i w Hn Hi Hw.
  all: assert ((∀ c, l !! i = Some c → word_char c = false) → Forall (word_at l) (word_toks (flush w i))) as Hfl
    by (intros Hc; destruct w as [q|]; [|constructor]; destruct (Hw q eq_refl); repeat constructor; cbn; [lia|lia|done|done]).
  { rewrite drop_ge by lia. apply Hfl. intros c Hc%lookup_lt_Some. lia. }
  destruct (decide (i = length l)) as [->|Hne]; [rewrite drop_ge by lia; apply Hfl; intros c Hc%lookup_lt_Some; lia|].
  destruct (lookup_lt_is_Some_2 l i ltac:(lia)) as [c Hc]. rewrite (drop_S l c i Hc). cbn [lex].
  assert (∀ i', (i < i' ≤ length l)%nat → Forall (word_at l) (word_toks (lex i' None (drop i' l)))) as IH' by (intros; apply IH; [lia|lia|done]).
  assert (word_char c = false → Forall (word_at l) (word_toks (flush w i))) as Hfl' by (intros H; apply Hfl; intros c' Hc'; congruence).
  unfold word_char in Hfl' at 1. destruct (in_chars whitespace c) eqn:E1.
  { unfold word_toks. rewrite omap_app. apply Forall_app. split; [by apply Hfl'|]. apply IH'. lia. }
  destruct (Z.eqb_spec c (chr ">")) as [->|Hg].
  - unfold word_toks. rewrite omap_app. apply Forall_app. split; [by apply Hfl'|]. destruct (drop (S i) l) as [|c' l'] eqn:Ed; [constructor|].
    assert (l !! S i = Some c') as Hc'. { rewrite <-(Nat.add_0_r (S i)), <-lookup_drop, Ed. done. }
    apply lookup_lt_Some in Hc' as Hlt. rewrite (drop_S l c' _ Hc') in Ed. injection Ed as <-.
    destruct (c' =? chr ">"); [apply (IH' (S (S i))); lia|].
    change (Forall (word_at l) (word_toks (lex (S i) None (c' :: drop (S (S i)) l)))). rewrite <-(drop_S l c' _ Hc'). apply IH'. lia.
  - destruct (in_chars symbols c) eqn:E2.
    + unfold word_toks. rewrite omap_app. apply Forall_app. split; [by apply Hfl'|]. apply (IH' (S i)). lia.
    + apply IH; [lia|lia|]. intros q [= <-]. assert (word_char c = true) as Hwc by (unfold word_char; by rewrite E1, E2).
      destruct w as [q|]; cbn [default from_option id].
      * destruct (Hw q eq_refl) as [H1 H2]. split; [lia|]. intros j Hj. destruct (decide (j = i)) as [->|]; [by exists c|]. apply H2. lia.
      * split; [lia|]. intros j Hj. replace j with i by lia. by exists c.
Qed.

(** ** NUL termination *)

Definition zero_all (ends : list nat) (b : list Z) : list Z := foldl (λ b e, <[e := 0]> b) b ends.

Lemma zero_all_length ends b : length (zero_all ends b) = length b.
Proof. revert b. induction ends as [|e ends IH]; intros b; cbn; [done|]. unfold zero_all in IH. by rewrite IH, length_insert. Qed.

Lemma zero_all_ne ends b j : j ∉ ends → zero_all ends b !! j = b !! j.
Proof.
  revert b. induction ends as [|e ends IH]; intros b Hj; [done|]. apply not_elem_of_cons in Hj as [H1 H2].
  change (zero_all ends (<[e := 0]> b) !! j = b !! j). rewrite IH by done. by apply list_lookup_insert_ne.
Qed.

Lemma zero_all_eq ends b j : j ∈ ends → (j < length b)%nat → zero_all ends b !! j = Some 0.
Proof.
  revert b. induction ends as [|e ends IH]; intros b Hj Hl; [by apply elem_of_nil in Hj|].
  change (zero_all ends (<[e := 0]> b) !! j = Some 0). destruct (decide (j ∈ ends)) as [|Hn]; [by apply IH; [|rewrite length_insert]|].
  apply elem_of_cons in Hj as [->|?]; [|done]. rewrite zero_all_ne by done. by apply list_lookup_insert_eq.
Qed.

Lemma zero_all_app e1 e2 b : zero_all (e1 ++ e2) b = zero_all e2 (zero_all e1 b).
Proof. apply foldl_app. Qed.

Lemma put_nul_run e s : (e < length (sbuf s))%nat → put_nul e s = Done (tt, set_sbuf (<[e := 0]> (sbuf s)) s).
Proof. intros H. unfold put_nul, bind, Prelude.gets. apply Nat.ltb_lt in H. by rewrite H. Qed.

Lemma set_sbuf_id s : set_sbuf (sbuf s) s = s.
Proof. by destruct s. Qed.

Lemma nulterminate_args_run args s k :
  (0 < k)%nat → Forall (λ w, (w.2 < length (sbuf s))%nat) args →
  nulterminate_args ((Some <$> args.*1) ++ replicate k None) ((Some <$> args.*2) ++ replicate k None) s =
  Done (tt, set_sbuf (zero_all args.*2 (sbuf s)) s).
Proof.
  intros Hk. revert s. induction args as [|[q e] args IH]; intros s H.
  - destruct k as [|k]; [lia|]. cbn. by rewrite set_sbuf_id.
  - apply Forall_cons in H as [H1 H2]. cbn [fmap list_fmap app nulterminate_args fst snd]. rewrite (bind_done _ _ _ _ _ (put_nul_run e s H1)).
    rewrite IH by (cbn; eapply Forall_impl; [done|]; intros w; by rewrite length_insert). done.
Qed.

Lemma nulterminate_run fuel p c s :
  repr (heap s) p c → (p < fuel)%nat → args_fit c → Forall (λ w, (w.2 < length (sbuf s))%nat) (words c) →
  nulterminate fuel p s = Done (tt, set_sbuf (zero_all (words c).*2 (sbuf s)) s).
Proof.
  revert fuel p s. induction c as [args|d IH q e mode fd|c1 IH1 c2 IH2|c1 IH1 c2 IH2|d IH]; intros [|fuel] p s Hp Hf Ha Hw; try lia;
    cbn [repr args_fit words nulterminate] in *; unfold bind at 1, Prelude.gets.
  - rewrite Hp. unfold exec_node. unfold pad. rewrite !length_fmap. apply nulterminate_args_run; [lia|done].
  - destruct Hp as (r & -> & Hr & Hd). apply Forall_app in Hw as [Hw1 Hw2]. apply Forall_cons in Hw2 as [Hw2 _].
    rewrite (bind_done _ _ _ _ _ (IH fuel r s Hd ltac:(lia) Ha Hw1)), put_nul_run by (cbn; by rewrite zero_all_length). cbn.
    by rewrite fmap_app, zero_all_app.
  - destruct Hp as (l & r & -> & Hl & Hr & H1 & H2). apply Forall_app in Hw as [Hw1 Hw2]. destruct Ha as [Ha1 Ha2].
    rewrite (bind_done _ _ _ _ _ (IH1 fuel l s H1 ltac:(lia) Ha1 Hw1)). rewrite IH2; [|done|lia|done|].
    + cbn. by rewrite fmap_app, zero_all_app.
    + cbn. by rewrite zero_all_length.
  - destruct Hp as (l & r & -> & Hl & Hr & H1 & H2). apply Forall_app in Hw as [Hw1 Hw2]. destruct Ha as [Ha1 Ha2].
    rewrite (bind_done _ _ _ _ _ (IH1 fuel l s H1 ltac:(lia) Ha1 Hw1)). rewrite IH2; [|done|lia|done|].
    + cbn. by rewrite fmap_app, zero_all_app.
    + cbn. by rewrite zero_all_length.
  - destruct Hp as (r & -> & Hr & Hd). by apply IH; [|lia|..].
Qed.

Lemma c_str_prefix w b : 0 ∉ w → c_str (w ++ 0 :: b) = w.
Proof.
  induction w as [|c w IH]; intros H; cbn; [done|]. apply not_elem_of_cons in H as [H1 H2].
  destruct (Z.eqb_spec c 0) as [->|]; [done|]. f_equal. by apply IH.
Qed.

(** The text of a word. *)
Definition word_text (l : list Z) (w : nat * nat) : list Z := take (w.2 - w.1) (drop w.1 l).

Lemma str_at_word l rest ws w :
  0 ∉ l → Forall (word_at l) ws → w ∈ ws → str_at (zero_all ws.*2 (l ++ 0 :: rest)) w.1 = word_text l w.
Proof.
  intros Hl Hws Hw. pose proof Hws as Hall. rewrite Forall_forall in Hws. destruct (Hws w Hw) as (H1 & H2 & _).
  set (b := zero_all _ _). assert (∀ j, (w.1 ≤ j < w.2)%nat → b !! j = l !! j) as Hin.
  { intros j Hj. subst b. rewrite zero_all_ne; [by rewrite lookup_app_l by lia|]. intros (w' & -> & Hw')%list_elem_of_fmap.
    destruct (Hws w' Hw') as (_ & _ & H3). destruct (H2 w'.2 Hj) as (c & Hc & Hc'). specialize (H3 c Hc). congruence. }
  assert (b !! w.2 = Some 0) as Hend.
  { apply zero_all_eq; [by apply list_elem_of_fmap_2|]. rewrite length_app. cbn. lia. }
  unfold str_at. rewrite <-(take_drop (w.2 - w.1) (drop w.1 b)), drop_drop.
  replace (w.1 + (w.2 - w.1))%nat with w.2 by lia. rewrite (drop_S b 0 w.2 Hend).
  assert (take (w.2 - w.1) (drop w.1 b) = word_text l w) as ->.
  { apply list_eq. intros j. unfold word_text. destruct (decide (j < w.2 - w.1)%nat) as [Hj|Hj].
    - rewrite !lookup_take_lt by done. rewrite !lookup_drop. apply Hin. lia.
    - rewrite !lookup_take_ge by lia. done. }
  apply c_str_prefix. unfold word_text. intros H. apply elem_of_take in H as (j & H & _). rewrite lookup_drop in H.
  apply Hl. by eapply list_elem_of_lookup_2.
Qed.

(** ** The parser is correct *)

Lemma sh_strlen_line l rest : 0 ∉ l → sh_strlen (l ++ 0 :: rest) = Some (length l).
Proof.
  induction l as [|c l IH]; intros H; cbn; [done|]. apply not_elem_of_cons in H as [H1 H2].
  destruct (Z.eqb_spec c 0) as [->|]; [done|]. by rewrite IH.
Qed.

(** The state after parsing a line with command [c]. *)
Definition parsed (l : list Z) (p : nat) (s : shst) (c : cmd) : Prop :=
  repr (heap s) p c ∧ args_fit c ∧ ∀ w, w ∈ words c → str_at (sbuf s) w.1 = word_text l w.

Lemma parsecmd_run l rest :
  0 ∉ l →
  match parsecmd (mk_shst [] (l ++ 0 :: rest) 0) with
  | Done (p, s) => ∃ c, gline c (lex 0 None l) ∧ parsed l p s c
  | Fail e => is_panic e ∧ ∀ c, ¬ gline c (lex 0 None l)
  end.
Proof.
  intros Hl. unfold parsecmd, bind at 1, Prelude.gets at 1. cbn [sbuf]. rewrite sh_strlen_line by done.
  set (s0 := mk_shst [] (l ++ 0 :: rest) 0). assert (ready l rest s0) as H0 by (split; [done|cbn; lia]).
  destruct (parse_run l rest Hl (parse_fuel (length l))) as [Hline _]. specialize (Hline s0 H0).
  change (toks l (ps s0)) with (lex 0 None l) in Hline. set (ts := lex 0 None l) in *.
  assert (length ts ≤ length l)%nat as Hts. { pose proof (lex_length _ 0 None l (le_n _)) as H. cbn in H. unfold ts. lia. }
  assert (∀ c, gline c ts → tp_line (parse_fuel (length l)) ts = Done (c, [])) as Hcomp.
  { intros c Hc. rewrite <-(app_nil_r ts) at 1. apply (proj1 tp_complete); [done|unfold parse_fuel; lia|done]. }
  destruct (tp_line (parse_fuel (length l)) ts) as [[c ts']|e] eqn:E; unfold follows in Hline.
  - destruct Hline as (p & s1 & E1 & R1 & T1 & _ & P1). rewrite (bind_done _ _ _ _ _ E1).
    destruct (peek_run l rest Hl s1 [] R1) as (i & E2 & R2 & T2 & Hend); [by intros x ?%elem_of_nil|].
    rewrite (bind_done _ _ _ _ _ E2). unfold bind at 1, Prelude.gets at 1. cbn [ps set_ps].
    destruct (proj1 (tp_sound _) _ _ _ E) as (us & Eus & G). rewrite T1 in T2.
    destruct ts' as [|t ts'].
    + rewrite (Hend T2), Nat.eqb_refl. cbn [negb]. unfold bind at 1, Prelude.gets at 1. rewrite app_nil_r in Eus. subst us.
      destruct (proj1 grammar_words _ _ G) as [Hw Hf].
      assert (Forall (word_at l) (words c)) as Hws.
      { rewrite Hw. apply (lex_words l 0 None (length l)); [lia|lia|done]. }
      rewrite (bind_done _ _ _ _ _ (nulterminate_run (S (length (heap s1))) p c (set_ps (length l) s1) P1 ltac:(apply repr_lt in P1; lia) Hf
        ltac:(eapply Forall_impl; [exact Hws|]; intros w (? & _); cbn; rewrite (r_buf _ _ _ R1), length_app; cbn; lia))).
      exists c. split; [done|]. split; [done|]. split; [done|]. intros w Hin. cbn [sbuf set_sbuf set_ps].
      rewrite (r_buf _ _ _ R1). by apply str_at_word.
    + destruct (Nat.eqb_spec i (length l)) as [->|Hne]; [by rewrite toks_end in T2|]. cbn. split; [by eexists|].
      intros c' Hc'. specialize (Hcomp c' Hc'). congruence.
  - unfold bind at 1. rewrite Hline. split.
    + eapply (proj1 (tp_panic _)); [exact E|]. unfold parse_fuel. lia.
    + intros c Hc. specialize (Hcomp c Hc). congruence.
Qed.

(** C27: the shell's parser decides the grammar of command lines.  For every
    line, [parsecmd] returns the command the grammar gives for it, with every
    word NUL-terminated in place and read back in full, or, exactly if the
    grammar has no command for the line, stops with one of its messages; it
    never reads or writes outside the buffer and always ends. *)
Theorem parsecmd_correct l rest :
  0 ∉ l →
  match parsecmd (mk_shst [] (l ++ 0 :: rest) 0) with
  | Done (p, s) => ∃ c, gline c (lex 0 None l) ∧ parsed l p s c
  | Fail e => is_panic e ∧ ∀ c, ¬ gline c (lex 0 None l)
  end.
Proof. apply parsecmd_run. Qed.

Lemma parsecmd_correct_witness : ∃ p s c,
  parsecmd (mk_shst [] (chars "cat<a|(wc;ls)>>b&" ++ 0 :: []) 0) = Done (p, s) ∧ parsed (chars "cat<a|(wc;ls)>>b&") p s c.
Proof.
  pose proof (parsecmd_correct (chars "cat<a|(wc;ls)>>b&") [] ltac:(intros H; by apply in_chars_elem in H)) as H.
  destruct (parsecmd _) as [[p s]|e] eqn:E; [|vm_compute in E; done]. destruct H as (c & _ & H). exists p, s, c. split; [reflexivity|exact H].
Defined.
