(* ===== verification/ShellRun.v ===== *)
(** * The processes the shell makes for a line

    What [runcmd] executes, and with which descriptors, for a line of the
    shell's grammar. *)

From S2P Require Import Prelude CString Fs Proc Sysfile User Shell ShellSpec.

(** ** Descriptors *)

(** What a descriptor refers to. *)
Inductive obj := Inherited (name : string) | PipeRead (n : nat) | PipeWrite (n : nat) | Opened (path : list Z) (mode : Z).
Definition fdtab : Type := list (option obj).

(** A program that is executed: its path, its arguments and its descriptors. *)
Definition event : Type := list Z * list (list Z) * fdtab.

Definition fd_put (t : fdtab) (o : obj) : option (nat * fdtab) :=
  match free_fd t 0 with Some fd => Some (fd, <[fd := Some o]> t) | None => None end.

Section run.
(** Which files can be opened; [fork] and [pipe] succeed. *)
Context (can_open : list Z → Z → bool).

(** The programs executed by a process with descriptors [t] and by its
    children; [n] is the number of the next pipe.  [exec] does not return. *)
Fixpoint run {A} (m : prog A) (t : fdtab) (n : nat) : list event * nat :=
  match m with
  | Ret _ | Exit | Fault _ => ([], n)
  | Sys c k =>
      match c return (ans c → prog A) → list event * nat with
      | SysFork => λ k,
          let r := run (k 0) t n in
          let r' := run (k 1) t r.2 in
          (r.1 ++ r'.1, r'.2)
      | SysExec path argv => λ _, ([(path, argv, t)], n)
      | SysPipe => λ k,
          match fd_put t (PipeRead n) with
          | None => run (k (-1, (0, 0))) t n
          | Some (r, t1) =>
              match fd_put t1 (PipeWrite n) with
              | None => run (k (-1, (0, 0))) t n
              | Some (w, t2) => run (k (0, (Z.of_nat r, Z.of_nat w))) t2 (S n)
              end
          end
      | SysClose fd => λ k, run (k 0) (<[Z.to_nat fd := None]> t) n
      | SysDup fd => λ k,
          match t !!! Z.to_nat fd with
          | None => run (k (-1)) t n
          | Some o => match fd_put t o with Some (d, t') => run (k (Z.of_nat d)) t' n | None => run (k (-1)) t n end
          end
      | SysOpen path mode => λ k,
          if can_open path mode then
            match fd_put t (Opened path mode) with Some (d, t') => run (k (Z.of_nat d)) t' n | None => run (k (-1)) t n end
          else run (k (-1)) t n
      | SysRead _ _ => λ k, run (k (0, [])) t n
      | SysFstat _ => λ k, run (k (-1, mk_ustat 0 0 0)) t n
      | SysArp _ _ _ => λ k, run (k (-1, [])) t n
      | SysWait => λ k, run (k 1) t n
      | SysWrite _ d => λ k, run (k (Z.of_nat (length d))) t n
      | SysKill _ => λ k, run (k 0) t n
      | SysMknod _ _ _ => λ k, run (k 0) t n
      | SysUnlink _ => λ k, run (k 0) t n
      | SysLink _ _ => λ k, run (k 0) t n
      | SysMkdir _ => λ k, run (k 0) t n
      | SysChdir _ => λ k, run (k 0) t n
      | SysSleep _ => λ k, run (k 0) t n
      end k
  end.

(** ** What a line means *)

(** A process has its three standard descriptors and no other. *)
Definition std (i o e : obj) : fdtab := [Some i; Some o; Some e] ++ replicate (NOFILE - 3) None.

Fixpoint wire (l : list Z) (c : cmd) (i o e : obj) (n : nat) : list event * nat :=
  match c with
  | CExec [] => ([], n)
  | CExec (w :: args) => ([(word_text l w, word_text l <$> (w :: args), std i o e)], n)
  | CRedir d q w mode fd =>
      let f := word_text l (q, w) in
      if can_open f mode then
        if fd =? 0 then wire l d (Opened f mode) o e n else wire l d i (Opened f mode) e n
      else ([], n)
  | CPipe c d =>
      let r := wire l c i (PipeWrite n) e (S n) in
      let r' := wire l d (PipeRead n) o e r.2 in
      (r.1 ++ r'.1, r'.2)
  | CList c d =>
      let r := wire l c i o e n in
      let r' := wire l d i o e r.2 in
      (r.1 ++ r'.1, r'.2)
  | CBack d => wire l d i o e n
  end.

(** ** Programs that end in [exit] *)

Fixpoint noret {A} (m : prog A) : Prop :=
  match m with Ret _ => False | Exit | Fault _ => True | Sys c k => ∀ r, noret (k r) end.

Lemma noret_exit {A B} (m : prog A) : noret (pbind m (λ _, Exit (A := B))).
Proof. induction m; cbn; auto. Qed.
Lemma noret_bind {A B} (m : prog A) (f : A → prog B) : noret m → noret (pbind m f).
Proof. induction m; cbn; try done. auto. Qed.
Lemma run_noret {A B} (m : prog A) (f : A → prog B) t n : noret m → run (pbind m f) t n = run m t n.
Proof.
  revert t n. induction m as [| | |c k IH]; intros t n Hm; cbn in Hm; try done.
  destruct c; cbn [pbind run]; try (by rewrite IH by apply Hm).
  - by rewrite !IH by apply Hm.
  - destruct (fd_put t _) as [[r t1]|]; [destruct (fd_put t1 _) as [[w t2]|]|]; by rewrite IH by apply Hm.
  - destruct (t !!! _); [|by rewrite IH by apply Hm]. destruct (fd_put t _) as [[d t']|]; by rewrite IH by apply Hm.
  - done.
  - destruct (can_open _ _); [destruct (fd_put t _) as [[d t']|]|]; by rewrite IH by apply Hm.
Qed.

Lemma run_noret2 {A B C} (m : prog A) (f : A → prog B) (g : B → prog C) t n : noret m → run (pbind (pbind m f) g) t n = run m t n.
Proof. intros H. by rewrite !run_noret by auto using noret_bind. Qed.

Lemma runcmd_noret h b fuel p : noret (runcmd h b fuel p).
Proof. destruct fuel; [done|]. apply noret_exit. Qed.

(** Programs that only write. *)
Fixpoint writes {A} (m : prog A) : Prop :=
  match m with Ret _ | Exit | Fault _ => True | Sys c k => (∃ fd d, c = SysWrite fd d) ∧ ∀ r, writes (k r) end.

Lemma writes_bind {A B} (m : prog A) (f : A → prog B) : writes m → (∀ a, writes (f a)) → writes (pbind m f).
Proof. induction m as [| | |c k IH]; cbn; intros; destruct_and?; auto. Qed.
Lemma run_writes {A} (m : prog A) t n : writes m → run m t n = ([], n).
Proof. induction m as [| | |c k IH]; try done. intros [(fd & d & ->) H]. cbn [run]. by apply IH. Qed.

Lemma writes_puts fd l : writes (puts fd l).
Proof. induction l as [|c l IH]; [done|]. cbn. split; [by eexists _, _|]. done. Qed.
Lemma writes_printint fd x base sgn : writes (printint fd x base sgn).
Proof. unfold printint. repeat case_match; try done; apply writes_puts. Qed.
Lemma writes_convert fd c ap : writes (convert fd c ap).
Proof.
  unfold convert. repeat case_match; try done; try (apply writes_bind; [|done]);
    try apply writes_printint; try apply writes_puts; cbn; eauto 10.
Qed.
Lemma writes_printf fd fmt ap : writes (printf fd fmt ap).
Proof.
  unfold printf. generalize false. revert ap. induction (chars fmt) as [|c l IH]; intros ap b; [done|]. cbn [printf_loop].
  destruct b; [apply writes_bind; [apply writes_convert|auto]|]. destruct (c =? chr "%"); [done|]. cbn. eauto.
Qed.

(** ** The shell connects the descriptors *)

Fixpoint redir_ok (c : cmd) : Prop :=
  match c with
  | CExec _ => True
  | CRedir d _ _ _ fd => (fd = 0 ∨ fd = 1) ∧ redir_ok d
  | CPipe c d | CList c d => redir_ok c ∧ redir_ok d
  | CBack d => redir_ok d
  end.

Lemma arg_strs_pad l b (args : list (nat * nat)) k :
  (∀ w, w ∈ args → str_at b w.1 = word_text l w) → arg_strs b ((Some <$> args.*1) ++ replicate k None) = word_text l <$> args.
Proof.
  induction args as [|w args IH]; intros H; cbn; [by destruct k|]. rewrite H by (by left). f_equal. apply IH. intros w' Hw'. apply H. by right.
Qed.

(** The descriptors after [pipe]. *)
Definition piped (i o e : obj) (n : nat) : fdtab :=
  [Some i; Some o; Some e; Some (PipeRead n); Some (PipeWrite n)] ++ replicate (NOFILE - 5) None.

Lemma run_left {A} (m : prog A) i o e n k :
  run (close 1;* call (SysDup 4);* close 3;* close 4;* m) (piped i o e n) k = run m (std i (PipeWrite n) e) k.
Proof. done. Qed.
Lemma run_right {A} (m : prog A) i o e n k :
  run (close 0;* call (SysDup 3);* close 3;* close 4;* m) (piped i o e n) k = run m (std (PipeRead n) o e) k.
Proof. done. Qed.

(** Both ends of a pipe go to the two commands and to nobody else. *)
Lemma run_pipe_case (m1 m2 : prog unit) i o e n :
  noret m1 → noret m2 →
  run (
    (let* p := call SysPipe in
     if fst p <? 0 then sh_panic "pipe"
     else
       let p0 := fst (snd p) in
       let p1 := snd (snd p) in
       let* pid := fork1 in
       (if pid =? 0 then close 1;* call (SysDup p1);* close p0;* close p1;* m1 else Ret tt);*
       let* pid := fork1 in
       (if pid =? 0 then close 0;* call (SysDup p0);* close p0;* close p1;* m2 else Ret tt);*
       close p0;* close p1;* call SysWait;* call SysWait;* Ret tt);* Exit (A := unit)) (std i o e) n =
  let r := run m1 (std i (PipeWrite n) e) (S n) in
  let r' := run m2 (std (PipeRead n) o e) r.2 in
  (r.1 ++ r'.1, r'.2).
Proof.
  intros H1 H2. set (L := close 1;* call (SysDup 4);* close 3;* close 4;* m1).
  set (R := close 0;* call (SysDup 3);* close 3;* close 4;* m2).
  set (T := close 3;* close 4;* call SysWait;* call SysWait;* Ret tt).
  set (K := let* pid := fork1 in (if pid =? 0 then R else Ret tt);* T).
  assert (noret L) as HL by (cbn; done). assert (noret R) as HR by (cbn; done).
  transitivity (let r := run (pbind (pbind L (λ _, K)) (λ _, Exit (A := unit))) (piped i o e n) (S n) in
    let r' := run (pbind K (λ _, Exit (A := unit))) (piped i o e n) r.2 in (r.1 ++ r'.1, r'.2)); [done|].
  rewrite (run_noret2 L) by done. unfold L. rewrite run_left. cbv zeta. set (r := run m1 _ _).
  assert (run (pbind K (λ _, Exit (A := unit))) (piped i o e n) r.2 =
    (let r1 := run (pbind (pbind R (λ _, T)) (λ _, Exit (A := unit))) (piped i o e n) r.2 in (r1.1 ++ [], r1.2))) as -> by done.
  cbv zeta. rewrite (run_noret2 R) by done. unfold R. rewrite run_right. cbn [fst snd]. by rewrite app_nil_r.
Qed.

Lemma runcmd_wire l h b c : ∀ p fuel i o e n,
  repr h p c → (p < fuel)%nat → args_fit c → redir_ok c → (∀ w, w ∈ words c → str_at b w.1 = word_text l w) →
  run (runcmd h b fuel p) (std i o e) n = wire l c i o e n.
Proof.
  induction c as [args|d IH q w mode fd|c1 IH1 c2 IH2|c1 IH1 c2 IH2|d IH]; intros p [|fuel] i o e n Hp Hf Ha Hr Hw; try lia;
    cbn [repr args_fit redir_ok words runcmd] in *.
  - rewrite Hp. unfold exec_node, pad. destruct args as [|w args]; [done|]. cbn [fmap list_fmap app lookup_total list_lookup_total].
    cbn [pbind call run wire]. rewrite Hw by (by left). do 3 f_equal.
    f_equal. exact (arg_strs_pad l b (w :: args) (MAXARGS - length (w :: args).*1) Hw).
  - destruct Hp as (r & -> & Hr' & Hd). destruct Hr as [Hfd Hr]. cbn [wire]. unfold close. cbn [pbind call run].
    pose proof (Hw (q, w) ltac:(apply elem_of_app; right; by left)) as E. cbn [fst] in E. rewrite E. set (f := word_text l (q, w)).
    assert (∀ w0, w0 ∈ words d → str_at b w0.1 = word_text l w0) as Hw' by (intros w0 H0; apply Hw, elem_of_app; by left).
    destruct (can_open f mode); [|cbn [Z.ltb Z.compare]; rewrite !run_noret by (apply noret_exit || done); apply run_writes, writes_bind; [apply writes_printf|done]].
    destruct Hfd as [-> | ->].
    + change (fd_put (<[Z.to_nat 0 := None]> (std i o e)) (Opened f mode)) with (Some (0%nat, std (Opened f mode) o e)).
      cbn [Z.of_nat Z.ltb Z.compare Z.eqb]. rewrite run_noret by apply runcmd_noret. by apply IH; [|lia|..].
    + change (fd_put (<[Z.to_nat 1 := None]> (std i o e)) (Opened f mode)) with (Some (1%nat, std i (Opened f mode) e)).
      change (Z.of_nat 1 <? 0) with false. cbn [Z.eqb]. rewrite run_noret by apply runcmd_noret. by apply IH; [|lia|..].
  - destruct Hp as (pl & pr & -> & Hl & Hr' & H1 & H2). destruct Ha as [Ha1 Ha2], Hr as [Hr1 Hr2]. cbn [wire].
    rewrite run_pipe_case by apply runcmd_noret. cbv zeta. rewrite (IH1 pl), (IH2 pr); try done; try lia; intros w0 H0; apply Hw, elem_of_app; auto.
  - destruct Hp as (pl & pr & -> & Hl & Hr' & H1 & H2). destruct Ha as [Ha1 Ha2], Hr as [Hr1 Hr2]. cbn [wire]. unfold fork1.
    cbn [pbind call run Z.eqb]. rewrite !run_noret by (try apply noret_bind; apply runcmd_noret).
    rewrite IH1, IH2; try done; try lia; intros w0 H0; apply Hw, elem_of_app; auto.
  - destruct Hp as (r & -> & Hr' & Hd). cbn [wire]. unfold fork1. cbn [pbind call run Z.eqb]. rewrite run_noret by apply runcmd_noret.
    rewrite IH; try done; [|lia]. cbn. rewrite app_nil_r. by destruct (wire l d i o e n).
Qed.

Lemma wrap_redir_ok c rs : redir_ok c → redir_ok (wrap c rs).
Proof.
  revert c. induction rs as [|r rs IH]; intros c Hc; [done|]. apply (IH (CRedir c r.1.2 r.2 (redir_mode r) (redir_fd r))).
  split; [|done]. unfold redir_fd. destruct (r.1.1 =? chr "<"); auto.
Qed.

Lemma grammar_redir_ok :
  (∀ c us, gline c us → redir_ok c) ∧ (∀ c us, gback c us → redir_ok c) ∧
  (∀ c us, gpipe c us → redir_ok c) ∧ (∀ c us, gexec c us → redir_ok c).
Proof. apply grammar_ind; cbn [redir_ok]; auto; intros; by apply wrap_redir_ok. Qed.

Lemma gline_unique c c' us : gline c us → gline c' us → c = c'.
Proof.
  intros H H'. pose proof (proj1 tp_complete _ _ H _ [] (le_n _) I) as E. pose proof (proj1 tp_complete _ _ H' _ [] (le_n _) I) as E'. congruence.
Qed.

(** C28: the shell does what a line says.  For a line of the grammar, the
    programs executed by the child of the shell and its children are those of
    the line, with the words of the line as arguments, and each of them has
    exactly its three standard descriptors, connected to the files and pipes
    of the line: no other process keeps an end of a pipe open.  For any other
    line nothing is executed. *)
Theorem shell_runs_line l rest i o e n :
  0 ∉ l →
  (∀ c, gline c (lex 0 None l) → run (run_line (l ++ 0 :: rest)) (std i o e) n = wire l c i o e n) ∧
  ((∀ c, ¬ gline c (lex 0 None l)) → run (run_line (l ++ 0 :: rest)) (std i o e) n = ([], n)).
Proof.
  intros Hl. pose proof (parsecmd_run l rest Hl) as H. unfold run_line. destruct (parsecmd _) as [[p s]|err].
  - destruct H as (c & G & Hr & Ha & Hw). split; [|intros Hn; by destruct (Hn c)]. intros c' G'.
    rewrite <-(gline_unique _ _ _ G G'). apply runcmd_wire; try done; [apply repr_lt in Hr; lia|]. by apply (proj1 grammar_redir_ok _ _ G).
  - destruct H as ((msg & ->) & Hn). split; [intros c G; by destruct (Hn c)|]. intros _. apply run_writes, writes_bind; [apply writes_printf|done].
Qed.
End run.

(** [cat < f | wc], with two processes and a pipe between them. *)
Lemma shell_runs_line_witness :
  run (λ _ _, true) (run_line (chars "cat<f|wc\n" ++ 0 :: [])) (std (Inherited "in") (Inherited "out") (Inherited "err")) 0 =
  ([(chars "cat", [chars "cat"], std (Opened (chars "f") O_RDONLY) (PipeWrite 0) (Inherited "err"));
    (chars "wc", [chars "wc"], std (PipeRead 0) (Inherited "out") (Inherited "err"))], 1%nat).
Proof.
  destruct (shell_runs_line (λ _ _, true) (chars "cat<f|wc\n") [] (Inherited "in") (Inherited "out") (Inherited "err") 0) as [H _].
  - intros H. by apply in_chars_elem in H.
  - rewrite (H (CPipe (CRedir (CExec [(0, 3)%nat]) 4 5 O_RDONLY 0) (CExec [(6, 8)%nat]))); [by vm_compute|].
    change (lex 0 None (chars "cat<f|wc\n")) with ([Word 0 3; Sym 60; Word 4 5] ++ Sym (chr "|") :: [Word 6 8]).
    apply gline_one, gback_one, gpipe_pipe; [|apply gpipe_one].
    + apply (gexec_simple [(0, 3)%nat] [(60, 4%nat, 5%nat)]); [|vm_compute; lia]. apply simple_word, simple_redir; [by left|constructor].
    + apply (gexec_simple [(6, 8)%nat] []); [|vm_compute; lia]. apply simple_word. constructor.
Defined.
