(* ===== verification/Umalloc.v ===== *)
(** * umalloc.c: malloc and free

    The allocator of user programs.  Memory is seen as headers: [hdr s a] are
    the fields [ptr] and [size] of the header at address [a].  [sbrk] grants
    the requests that [grants] says, as [growproc] would: a process may not
    grow to KERNBASE, and a negative request that would make the process larger
    changes nothing and succeeds. *)

From S2P Require Import Prelude Mmu.

Definition sizeof_Header : Z := 8.

Record um := mk_um { hdr : Z → Z * Z; freep : Z; brk : Z; grants : list bool }.

Definition set_hdr h s := mk_um h (freep s) (brk s) (grants s).
Definition set_freep p s := mk_um (hdr s) p (brk s) (grants s).

Definition ptr_of (p : Z) : M um Z := gets (λ s, fst (hdr s p)).
Definition size_of (p : Z) : M um Z := gets (λ s, snd (hdr s p)).
Definition put_hdr (h : Z → Z * Z) (p : Z) (v : Z * Z) : Z → Z * Z := λ a, if a =? p then v else h a.
Definition set_ptr (p v : Z) : M um unit := modify (λ s, set_hdr (put_hdr (hdr s) p (v, snd (hdr s p))) s).
Definition set_size (p v : Z) : M um unit := modify (λ s, set_hdr (put_hdr (hdr s) p (fst (hdr s p), v)) s).

(** [p + n] for a pointer to a header. *)
Definition unit_add (p n : Z) : Z := u32 (p + sizeof_Header * n).

(** [sbrk]: the old end of the process, or the pointer -1. *)
Definition minus_one : Z := 2 ^ 32 - 1.
Definition sbrk (n : Z) : M um Z := λ s,
  if 0 <? n then
    if default false (head (grants s)) && (brk s + n <? KERNBASE)
    then Done (brk s, mk_um (hdr s) (freep s) (brk s + n) (tail (grants s)))
    else Done (minus_one, mk_um (hdr s) (freep s) (brk s) (tail (grants s)))
  else
    let newsz := u32 (brk s + n) in
    if brk s <=? newsz then Done (brk s, s)
    else if newsz =? 0 then Done (minus_one, s)
    else Done (brk s, mk_um (hdr s) (freep s) newsz (grants s)).

Section umalloc.
(** The address of [base]. *)
Context (base : Z).

(** The search of [free] for the place of [bp]. *)
Fixpoint free_loop (fuel : nat) (bp p : Z) : M um Z :=
  match fuel with
  | O => fail EFuel
  | S fuel =>
      next <- ptr_of p;;
      if (p <? bp) && (bp <? next) then ret p
      else if (next <=? p) && ((p <? bp) || (bp <? next)) then ret p
      else free_loop fuel bp next
  end.

(** The block [bp] takes the successor of [p], or is joined with it. *)
Definition link_next (bp p : Z) : M um unit :=
  bsize <- size_of bp;;
  next <- ptr_of p;;
  if unit_add bp bsize =? next then
    nsize <- size_of next;;
    set_size bp (u32 (bsize + nsize));;
    nnext <- ptr_of next;;
    set_ptr bp nnext
  else set_ptr bp next.

(** The block [bp] becomes the successor of [p], or is joined with [p]. *)
Definition link_prev (bp p : Z) : M um unit :=
  psize <- size_of p;;
  if unit_add p psize =? bp then
    bsize <- size_of bp;;
    set_size p (u32 (psize + bsize));;
    bnext <- ptr_of bp;;
    set_ptr p bnext
  else set_ptr p bp.

Definition free (fuel : nat) (ap : Z) : M um unit :=
  let bp := u32 (ap - sizeof_Header) in
  p <- gets freep;;
  p <- free_loop fuel bp p;;
  link_next bp p;;
  link_prev bp p;;
  modify (set_freep p).

(** A null pointer is 0. *)
Definition morecore (fuel : nat) (nu : Z) : M um Z :=
  let nu := if nu <? 4096 then 4096 else nu in
  p <- sbrk (s32 (nu * sizeof_Header));;
  if p =? minus_one then ret 0
  else
    set_size p nu;;
    free fuel (u32 (p + sizeof_Header));;
    gets freep.

(** A block that is large enough: the whole of it, or its tail. *)
Definition take_block (prevp p nunits : Z) : M um Z :=
  size <- size_of p;;
  p <- (if size =? nunits then
          next <- ptr_of p;;
          set_ptr prevp next;;
          ret p
        else
          set_size p (u32 (size - nunits));;
          let q := unit_add p (u32 (size - nunits)) in
          set_size q nunits;;
          ret q);;
  modify (set_freep prevp);;
  ret (u32 (p + sizeof_Header)).

Fixpoint malloc_loop (fuel : nat) (nunits prevp p : Z) : M um Z :=
  match fuel with
  | O => fail EFuel
  | S fuel' =>
      size <- size_of p;;
      if nunits <=? size then take_block prevp p nunits
      else
        fp <- gets freep;;
        if p =? fp then
          p <- morecore fuel' nunits;;
          if p =? 0 then ret 0
          else
            next <- ptr_of p;;
            malloc_loop fuel' nunits p next
        else
          next <- ptr_of p;;
          malloc_loop fuel' nunits p next
  end.

Definition units (nbytes : Z) : Z := u32 (nbytes + sizeof_Header - 1) / sizeof_Header + 1.

Definition malloc (fuel : nat) (nbytes : Z) : M um Z :=
  let nunits := units nbytes in
  fp <- gets freep;;
  prevp <- (if fp =? 0 then
              modify (set_freep base);;
              set_ptr base base;;
              set_size base 0;;
              ret base
            else ret fp);;
  p <- ptr_of prevp;;
  malloc_loop fuel nunits prevp p.
End umalloc.
