(* ===== verification/UmallocSpec.v ===== *)
(** * malloc and free are safe

    The invariant of the allocator of umalloc.c: its free list is a ring of
    separate blocks in the order of their addresses, none of which touches a
    block that is in use. *)

From S2P Require Import Prelude Mmu Umalloc.

(** ** Lists of blocks *)

Abbreviation block := (Z * Z)%type.
Definition block_end (b : block) : Z := b.1 + sizeof_Header * b.2.

(** The address of the first block, or [e]. *)
Definition first (L : list block) (e : Z) : Z := match L with b :: _ => b.1 | [] => e end.

(** The headers of [L] lead from each block to the next, and at last to [e]. *)
Fixpoint chain (h : Z → Z * Z) (L : list block) (e : Z) : Prop :=
  match L with [] => True | b :: L' => h b.1 = (first L' e, b.2) ∧ chain h L' e end.

(** The blocks are in order and do not touch; the first one is above [lo]. *)
Fixpoint ascending (lo : Z) (L : list block) : Prop :=
  match L with [] => True | b :: L' => lo < b.1 ∧ 0 ≤ b.2 ∧ ascending (block_end b) L' end.
Fixpoint top (lo : Z) (L : list block) : Z := match L with [] => lo | b :: L' => top (block_end b) L' end.

Lemma first_app A B e : first (A ++ B) e = first A (first B e).
Proof. by destruct A. Qed.

Lemma chain_app h A B e : chain h (A ++ B) e ↔ chain h A (first B e) ∧ chain h B e.
Proof. induction A as [|b A IH]; cbn; [tauto|]. rewrite IH, first_app. tauto. Qed.

Lemma blocks_frame h h' L e : (∀ b, b ∈ L → h' b.1 = h b.1) → chain h L e → chain h' L e.
Proof.
  induction L as [|b L IH]; intros Hf Hc; cbn in *; [done|]. destruct Hc as [H1 H2]. rewrite Hf by (by left). split; [done|].
  apply IH; [|done]. intros b' Hb. apply Hf. by right.
Qed.

Lemma ascending_app lo A B : ascending lo (A ++ B) ↔ ascending lo A ∧ ascending (top lo A) B.
Proof. revert lo. induction A as [|b A IH]; intros lo; cbn; [tauto|]. rewrite IH. tauto. Qed.
Lemma top_app lo A B : top lo (A ++ B) = top (top lo A) B.
Proof. revert lo. induction A as [|b A IH]; intros lo; cbn; [done|]. apply IH. Qed.

Lemma ascending_mono lo lo' L : lo' ≤ lo → ascending lo L → ascending lo' L.
Proof. destruct L; cbn; [done|]. intros ? (? & ? & ?). split_and!; try done. lia. Qed.

Lemma ascending_elem lo L b : ascending lo L → b ∈ L → lo < b.1 ∧ block_end b ≤ top lo L ∧ 0 ≤ b.2.
Proof.
  revert lo. induction L as [|x L IH]; intros lo Ha Hb; [by apply elem_of_nil in Hb|]. cbn in Ha. destruct Ha as (H1 & H2 & H3).
  assert (∀ lo L, ascending lo L → lo ≤ top lo L) as Htop.
  { clear. intros lo L. revert lo. induction L as [|x L IH]; intros lo Ha; cbn in *; [lia|]. destruct Ha as (H1 & H2 & H3).
    specialize (IH _ H3). unfold block_end, sizeof_Header in *. lia. }
  apply elem_of_cons in Hb as [->|Hb]; cbn [top]; [specialize (Htop _ _ H3); done|]. destruct (IH _ H3 Hb) as (H4 & H5 & H6).
  split_and!; try done. unfold block_end, sizeof_Header in H4. lia.
Qed.

(** Blocks that do not overlap. *)
Definition apart (b c : block) : Prop := block_end b ≤ c.1 ∨ block_end c ≤ b.1.

Section spec.
Context (base : Z).

(** ** The search of free *)

Lemma free_loop_up s bp B p lo fuel :
  base < bp → chain (hdr s) (p :: B) base → ascending lo (p :: B) → p.1 < bp → bp ∉ B.*1 → (length B < fuel)%nat → base ≤ p.1 →
  ∃ C q D, p :: B = C ++ q :: D ∧ q.1 < bp ∧ (D = [] ∨ bp < first D base) ∧ free_loop fuel bp p.1 s = Done (q.1, s).
Proof.
  intros Hb. revert p lo fuel. induction B as [|b B IH]; intros p lo [|fuel] Hc Ha Hp Hn Hf Hbase; cbn [length] in Hf; try lia.
  - exists [], p, []. split; [done|]. split; [done|]. split; [by left|]. cbn [free_loop]. unfold bind, ptr_of, gets. cbn in Hc. destruct Hc as [-> _]. cbn [fst].
    assert ((p.1 <? bp) && (bp <? base) = false) as -> by lia. assert ((base <=? p.1) && ((p.1 <? bp) || (bp <? base)) = true) as -> by lia. done.
  - cbn [free_loop]. unfold bind, ptr_of, gets. pose proof Hc as Hc0. cbn in Hc. destruct Hc as [-> Hc]. cbn [fst].
    cbn in Ha. destruct Ha as (Ha1 & Ha2 & Ha3 & Ha4 & Ha5). unfold block_end, sizeof_Header in Ha3. cbn [fmap list_fmap] in Hn.
    apply not_elem_of_cons in Hn as [Hn1 Hn2]. destruct (decide (bp < b.1)) as [Hlt|Hge].
    + exists [], p, (b :: B). assert ((p.1 <? bp) && (bp <? b.1) = true) as -> by lia. split_and!; try done. by right.
    + assert ((p.1 <? bp) && (bp <? b.1) = false) as -> by lia. assert ((b.1 <=? p.1) && ((p.1 <? bp) || (bp <? b.1)) = false) as -> by lia.
      destruct (IH b (block_end p) fuel) as (C & q & D & E & H1 & H2 & H3); [done|done|lia|done|lia|lia|].
      exists (p :: C), q, D. split_and!; try done. by rewrite E.
Qed.

Lemma free_loop_wrap s bp B p lo fuel :
  base < bp → chain (hdr s) (p :: B) base → ascending lo (p :: B) → bp < p.1 → (length B < fuel)%nat →
  free_loop fuel bp p.1 s = free_loop (fuel - S (length B)) bp base s.
Proof.
  intros Hb. revert p lo fuel. induction B as [|b B IH]; intros p lo [|fuel] Hc Ha Hp Hf; cbn [length] in *; try lia; cbn [free_loop];
    unfold bind, ptr_of, gets; pose proof Hc as Hc0; cbn in Hc; destruct Hc as [-> Hc]; cbn [fst].
  - assert ((p.1 <? bp) && (bp <? base) = false) as -> by lia. assert ((base <=? p.1) && ((p.1 <? bp) || (bp <? base)) = false) as -> by lia.
    by replace (S fuel - 1)%nat with fuel by lia.
  - cbn in Ha. destruct Ha as (Ha1 & Ha2 & Ha3 & Ha4 & Ha5). unfold block_end, sizeof_Header in Ha3.
    assert ((p.1 <? bp) && (bp <? b.1) = false) as -> by lia. assert ((b.1 <=? p.1) && ((p.1 <? bp) || (bp <? b.1)) = false) as -> by lia.
    rewrite (IH b (block_end p)); [done|done|done|lia|lia].
Qed.

Lemma chain_suffix h A p B e : chain h (A ++ p :: B) e → chain h (p :: B) e.
Proof. rewrite chain_app. tauto. Qed.

Lemma free_find s F bp fuel :
  base < bp → bp ∉ F.*1 → chain (hdr s) ((base, 0) :: F) base → ascending (base - 1) ((base, 0) :: F) → freep s ∈ ((base, 0) :: F).*1 →
  (2 * length F + 2 ≤ fuel)%nat →
  ∃ C q D, (base, 0) :: F = C ++ q :: D ∧ q.1 < bp ∧ (D = [] ∨ bp < first D base) ∧ free_loop fuel bp (freep s) s = Done (q.1, s).
Proof.
  intros Hb Hn Hc Ha Hf Hfuel. apply list_elem_of_fmap in Hf as (p & Ep & Hp). apply list_elem_of_split in Hp as (A & B & E).
  assert (length F = (length A + length B)%nat) as El. { apply (f_equal length) in E. rewrite length_app in E. cbn in E. lia. }
  pose proof Hc as Hc'. pose proof Ha as Ha'. rewrite E in Hc', Ha'. apply chain_suffix in Hc'. apply ascending_app in Ha' as [_ Ha'].
  assert (bp ∉ ((base, 0) :: F).*1) as Hn' by (cbn; apply not_elem_of_cons; split; [lia|done]). rewrite E, fmap_app, not_elem_of_app in Hn'.
  destruct Hn' as [_ Hn']. cbn in Hn'. apply not_elem_of_cons in Hn' as [Hn1 Hn2].
  assert (base ≤ p.1) as Hbp. { destruct (ascending_elem (base - 1) ((base, 0) :: F) p Ha); [rewrite E; apply elem_of_app; right; by left|lia]. }
  rewrite Ep. destruct (decide (p.1 < bp)) as [Hlt|Hge].
  - destruct (free_loop_up s bp B p (top (base - 1) A) fuel) as (C & q & D & E1 & H1 & H2 & H3); [done|done|done|done|done|lia|done|].
    exists (A ++ C), q, D. split_and!; try done. by rewrite E, E1, <-app_assoc.
  - rewrite (free_loop_wrap s bp B p (top (base - 1) A)) by (done || lia).
    destruct (free_loop_up s bp F (base, 0) (base - 1) (fuel - S (length B))) as (C & q & D & E1 & H1 & H2 & H3); [done|done|done|cbn; lia|done|lia|cbn; lia|].
    by exists C, q, D.
Qed.

(** ** Putting a block into the ring *)

(** The blocks around a new block [bp] of [n] units: [q] before it, [D] after it. *)
Record place (C : list block) (q : block) (D : list block) (bp n : Z) : Prop := {
  pl_n : 1 ≤ n;
  pl_asc : ascending (base - 1) (C ++ q :: D);
  pl_before : block_end q ≤ bp ∧ q.1 < bp;
  pl_after : D = [] ∨ bp + sizeof_Header * n ≤ first D base;
}.

(** The new block with the next one, if they touch. *)
Definition joined (D : list block) (bp n : Z) : Z * list block :=
  match D with d :: D' => if bp + sizeof_Header * n =? d.1 then (n + d.2, D') else (n, D) | [] => (n, D) end.
(** The ring with the new block. *)
Definition inserted (C : list block) (q : block) (D : list block) (bp n : Z) : list block :=
  let j := joined D bp n in
  if block_end q =? bp then C ++ (q.1, q.2 + j.1) :: j.2 else C ++ q :: (bp, j.1) :: j.2.

Lemma apart_join x b c : apart x b → apart x c → block_end b = c.1 → 1 ≤ x.2 → apart x (b.1, b.2 + c.2).
Proof. unfold apart, block_end, sizeof_Header. cbn. lia. Qed.

Lemma joined_asc C q D bp n : place C q D bp n →
  let j := joined D bp n in
  n ≤ j.1 ∧ ascending (bp + sizeof_Header * j.1) j.2 ∧ (∀ d, d ∈ j.2 → d ∈ D) ∧
  (∀ x, 1 ≤ x.2 → apart x (bp, n) → (∀ d, d ∈ D → apart x d) → apart x (bp, j.1)).
Proof.
  intros [H1 H2 H3 H4]. apply ascending_app in H2 as [_ H2]. cbn in H2. destruct H2 as (_ & _ & H2). unfold joined.
  destruct D as [|d D]; cbn [fst snd]; cbv zeta; [by split_and!; try done; lia|]. destruct H4 as [|H4]; [done|]. cbn in H2, H4. destruct H2 as (H5 & H6 & H7).
  destruct (Z.eqb_spec (bp + sizeof_Header * n) d.1) as [E|E]; cbn [fst snd].
  - split_and!; [lia| |intros x; by right|].
    + unfold block_end, sizeof_Header in *. by replace (bp + 8 * (n + d.2)) with (d.1 + 8 * d.2) by lia.
    + intros x Hx Hb Hd. apply (apart_join x (bp, n) d); [done|apply Hd; by left|done|done].
  - split_and!; try done. cbn. split_and!; try done. lia.
Qed.

Lemma inserted_asc C q D bp n : place C q D bp n → ascending (base - 1) (inserted C q D bp n).
Proof.
  intros Hp. pose proof (joined_asc C q D bp n Hp) as Hj. destruct Hp as [H1 H2 H3 H4]. cbn zeta in Hj.
  destruct (joined D bp n) as [k D'] eqn:Ej. cbn [fst snd] in Hj. destruct Hj as (Hk & Hasc & _). unfold inserted. rewrite Ej. cbn [fst snd].
  apply ascending_app in H2 as [HC Hq]. cbn in Hq. destruct Hq as (Hq1 & Hq2 & _). unfold block_end, sizeof_Header in *.
  destruct (Z.eqb_spec (q.1 + 8 * q.2) bp) as [E|E]; apply ascending_app; (split; [done|]); cbn.
  - unfold block_end, sizeof_Header. cbn. split_and!; [done|lia|]. by replace (q.1 + 8 * (q.2 + k)) with (bp + 8 * k) by lia.
  - unfold block_end, sizeof_Header. cbn. split_and!; [done|done|lia|lia|done].
Qed.

Lemma inserted_elem C q D bp n b : place C q D bp n → b ∈ inserted C q D bp n →
  b ∈ C ∨ b = q ∨ b ∈ D ∨ b = (bp, (joined D bp n).1) ∨ (b = (q.1, q.2 + (joined D bp n).1) ∧ block_end q = bp).
Proof.
  intros Hp. destruct (joined_asc C q D bp n Hp) as (_ & _ & Hd & _). unfold inserted. cbv zeta in *.
  destruct (Z.eqb_spec (block_end q) bp) as [E|E]; rewrite elem_of_app, !elem_of_cons; naive_solver.
Qed.

Lemma inserted_apart C q D bp n x :
  place C q D bp n → 1 ≤ x.2 → apart x (bp, n) → (∀ b, b ∈ C ++ q :: D → apart x b) → ∀ b, b ∈ inserted C q D bp n → apart x b.
Proof.
  intros Hp Hx Hb HL b Hin. destruct (joined_asc C q D bp n Hp) as (_ & _ & _ & Hj). specialize (Hj x Hx Hb).
  assert (apart x (bp, (joined D bp n).1)) as Hj' by (apply Hj; intros d Hd; apply HL, elem_of_app; right; by right). clear Hj.
  apply (inserted_elem _ _ _ _ _ _ Hp) in Hin as [H|[->|[H|[->|[-> E]]]]].
  - apply HL, elem_of_app. by left.
  - apply HL, elem_of_app. right. by left.
  - apply HL, elem_of_app. right. by right.
  - done.
  - apply (apart_join x q (bp, (joined D bp n).1)); try done. apply HL, elem_of_app. right. by left.
Qed.

(** The headers [free] writes: those of the new block and of the one before it. *)
Definition inserted_hdr (h : Z → Z * Z) (q : block) (D : list block) (bp n : Z) : Z → Z * Z :=
  let j := joined D bp n in
  let h := put_hdr h bp (first j.2 base, j.1) in
  if block_end q =? bp then put_hdr h q.1 (first j.2 base, q.2 + j.1) else put_hdr h q.1 (bp, q.2).

Lemma put_hdr_ne h p v a : a ≠ p → put_hdr h p v a = h a.
Proof. intros H. unfold put_hdr. by destruct (Z.eqb_spec a p). Qed.
Lemma put_hdr_eq h p v : put_hdr h p v p = v.
Proof. unfold put_hdr. by rewrite Z.eqb_refl. Qed.

Lemma put_hdr_cong h h' p v a : (∀ a, h a = h' a) → put_hdr h p v a = put_hdr h' p v a.
Proof. intros H. unfold put_hdr. by destruct (a =? p). Qed.

Lemma inserted_hdr_ne h q D bp n a : a ≠ q.1 → a ≠ bp → inserted_hdr h q D bp n a = h a.
Proof. intros H1 H2. unfold inserted_hdr. cbv zeta. destruct (_ =? _); by rewrite !put_hdr_ne. Qed.

Lemma inserted_chain h C q D bp n :
  place C q D bp n → chain h (C ++ q :: D) base → chain (inserted_hdr h q D bp n) (inserted C q D bp n) base.
Proof.
  intros Hp Hc. pose proof (joined_asc C q D bp n Hp) as Hj. cbv zeta in Hj. destruct Hj as (Hk & Hasc & Hsub & _).
  pose proof Hp as [H1 H2 H3 H4]. apply chain_app in Hc as [HC HD]. apply ascending_app in H2 as [HaC HaD]. cbn in HaD. destruct HaD as (Hq1 & Hq2 & HaD).
  assert (∀ b, b ∈ C → b.1 ≠ q.1 ∧ b.1 ≠ bp) as HneC.
  { intros b Hb. destruct (ascending_elem _ _ _ HaC Hb) as (? & ? & ?). unfold block_end, sizeof_Header in *. lia. }
  assert (∀ b, b ∈ (joined D bp n).2 → b.1 ≠ q.1 ∧ b.1 ≠ bp) as HneD.
  { intros b Hb. destruct (ascending_elem _ _ _ Hasc Hb) as (? & ? & ?). unfold sizeof_Header in *. lia. }
  assert (chain (inserted_hdr h q D bp n) (joined D bp n).2 base) as HcD.
  { apply (blocks_frame h); [intros b Hb; destruct (HneD b Hb); by apply inserted_hdr_ne|]. cbn in HD. destruct HD as [_ HD]. unfold joined.
    destruct D as [|d D]; [done|]. destruct (_ =? _); [|done]. by destruct HD. }
  assert (chain (inserted_hdr h q D bp n) C q.1) as HcC.
  { apply (blocks_frame h); [intros b Hb; destruct (HneC b Hb); by apply inserted_hdr_ne|done]. }
  unfold inserted. cbv zeta. destruct (Z.eqb_spec (block_end q) bp) as [E|E]; apply chain_app; (split; [done|]); cbn [chain fst snd first].
  - split; [|done]. unfold inserted_hdr. cbv zeta. rewrite (proj2 (Z.eqb_eq _ _) E). apply put_hdr_eq.
  - split_and!; try done; unfold inserted_hdr; cbv zeta; rewrite (proj2 (Z.eqb_neq _ _) E); [by rewrite put_hdr_eq|].
    rewrite put_hdr_ne by lia. apply put_hdr_eq.
Qed.

(** ** free *)

(** [L] is the ring of free blocks, starting with [base]. *)
Record free_ring (s : um) (L : list block) : Prop := {
  r_base : 0 < base ∧ base + sizeof_Header ≤ brk s ∧ brk s < KERNBASE;
  r_head : ∃ F, L = (base, 0) :: F ∧ Forall (λ b, 1 ≤ b.2 ∧ base + sizeof_Header ≤ b.1 ∧ block_end b ≤ brk s) F;
  r_chain : chain (hdr s) L base;
  r_asc : ascending (base - 1) L;
  r_freep : freep s ∈ L.*1;
}.

Lemma ring_range s L b : free_ring s L → b ∈ L → 0 ≤ b.2 ∧ base ≤ b.1 ∧ block_end b ≤ brk s.
Proof.
  intros [H1 (F & -> & HF) _ _ _] Hb. apply elem_of_cons in Hb as [->|Hb]; unfold block_end, sizeof_Header in *; cbn; [lia|].
  rewrite Forall_forall in HF. specialize (HF b Hb). cbn in HF. lia.
Qed.

(** A block that is not in the ring. *)
Record loose (s : um) (L : list block) (bp n : Z) : Prop := {
  l_n : 1 ≤ n;
  l_range : base + sizeof_Header ≤ bp ∧ block_end (bp, n) ≤ brk s;
  l_hdr : snd (hdr s bp) = n;
  l_apart : ∀ b, b ∈ L → apart (bp, n) b;
}.

Lemma free_place s L bp n fuel :
  free_ring s L → loose s L bp n → (2 * length L ≤ fuel)%nat →
  ∃ C q D, L = C ++ q :: D ∧ place C q D bp n ∧ free_loop fuel bp (freep s) s = Done (q.1, s).
Proof.
  intros Hr [H1 H2 H3 H4] Hf. pose proof Hr as [R1 (F & -> & HF) R3 R4 R5]. cbn [length] in Hf. unfold block_end, sizeof_Header, KERNBASE in *.
  assert (bp ∉ F.*1) as Hn.
  { intros (b & -> & Hb)%list_elem_of_fmap. rewrite Forall_forall in HF. specialize (HF b Hb). cbn in HF.
    destruct (H4 b ltac:(by right)); unfold block_end, sizeof_Header in *; cbn in *; lia. }
  destruct (free_find s F bp fuel) as (C & q & D & E & Hq & HD & Hl); [lia|done|done|done|done|lia|].
  exists C, q, D. split; [done|]. split; [|done]. rewrite E in R4, H4. split; [done|done| |].
  - destruct (H4 q ltac:(apply elem_of_app; right; by left)); unfold block_end, sizeof_Header in *; cbn in *; lia.
  - destruct D as [|d D]; [by left|]. right. destruct HD as [|HD]; [done|]. cbn in *.
    assert (d ∈ C ++ q :: d :: D) as Hd by (apply elem_of_app; right; right; by left).
    destruct (H4 d Hd); unfold block_end, sizeof_Header in *; cbn in *; [lia|]. destruct (ascending_elem _ _ _ R4 Hd) as (_ & _ & ?). lia.
Qed.

(** Nothing but headers changes. *)
Definition same_rest (s s' : um) : Prop := freep s' = freep s ∧ brk s' = brk s ∧ grants s' = grants s.

Lemma link_next_run s C q D bp n :
  free_ring s (C ++ q :: D) → loose s (C ++ q :: D) bp n → place C q D bp n →
  ∃ s', link_next bp q.1 s = Done (tt, s') ∧ same_rest s s' ∧
    ∀ a, hdr s' a = put_hdr (hdr s) bp (first (joined D bp n).2 base, (joined D bp n).1) a.
Proof.
  intros Hr [L1 L2 L3 _] [P1 _ P3 P4]. pose proof Hr as [R1 _ R3 _ _]. apply chain_app in R3 as [_ R3]. cbn in R3. destruct R3 as [Hq HD].
  unfold block_end, sizeof_Header, KERNBASE in *. cbn [fst snd] in *.
  unfold link_next, bind, size_of, ptr_of, set_size, set_ptr, modify, gets. rewrite L3, Hq. cbn [fst snd hdr set_hdr].
  unfold unit_add, sizeof_Header. rewrite (u32_small (bp + 8 * n)) by lia. unfold joined, sizeof_Header. destruct D as [|d D]; cbn [first].
  - assert ((bp + 8 * n =? base) = false) as -> by lia. eexists. split; [done|]. split; [done|]. intros a. cbn. by rewrite L3.
  - pose proof (ring_range _ _ d Hr ltac:(apply elem_of_app; right; right; by left)) as Rd. unfold block_end, sizeof_Header in Rd.
    destruct (Z.eqb_spec (bp + 8 * n) d.1) as [E|E]; (eexists; split; [done|]; split; [done|]); intros a; cbn [hdr set_hdr fst snd first].
    + cbn in HD. destruct HD as [Hd _]. rewrite Hd. cbn [snd]. rewrite put_hdr_eq, (put_hdr_ne _ bp _ d.1), Hd by lia. cbn [fst snd].
      rewrite u32_small by lia. unfold put_hdr. by destruct (a =? bp).
    + by rewrite L3.
Qed.

Lemma link_prev_run s bp k (q : block) nx :
  hdr s bp = (nx, k) → snd (hdr s q.1) = q.2 → q.1 ≠ bp → 0 ≤ q.1 → 0 ≤ q.2 → 0 ≤ k → block_end q ≤ bp → bp + sizeof_Header * k < KERNBASE →
  ∃ s', link_prev bp q.1 s = Done (tt, s') ∧ same_rest s s' ∧
    ∀ a, hdr s' a = (if block_end q =? bp then put_hdr (hdr s) q.1 (nx, q.2 + k) else put_hdr (hdr s) q.1 (bp, q.2)) a.
Proof.
  intros Hb Hq Hne H0 H1 H2 H3 H4. unfold block_end, sizeof_Header, KERNBASE in *.
  unfold link_prev, bind, size_of, ptr_of, set_size, set_ptr, modify, gets. rewrite Hq. cbn [hdr set_hdr].
  unfold unit_add, sizeof_Header. rewrite (u32_small (q.1 + 8 * q.2)) by lia.
  destruct (Z.eqb_spec (q.1 + 8 * q.2) bp) as [E|E]; (eexists; split; [done|]; split; [done|]); intros a; cbn [hdr set_hdr fst snd].
  - rewrite put_hdr_eq, (put_hdr_ne _ q.1 _ bp), Hb by congruence. cbn [fst snd]. rewrite u32_small by lia. unfold put_hdr. by destruct (a =? q.1).
  - by rewrite Hq.
Qed.

Lemma joined_end s C q D bp n : free_ring s (C ++ q :: D) → loose s (C ++ q :: D) bp n → bp + sizeof_Header * (joined D bp n).1 ≤ brk s.
Proof.
  intros Hr [_ [_ L2] _ _]. unfold joined. destruct D as [|d D]; [done|]. destruct (Z.eqb_spec (bp + sizeof_Header * n) d.1) as [E|]; [|done].
  pose proof (ring_range _ _ d Hr ltac:(apply elem_of_app; right; right; by left)) as Rd. unfold block_end, sizeof_Header in *. cbn in *. lia.
Qed.

Lemma free_run s L bp n fuel :
  free_ring s L → loose s L bp n → (2 * length L ≤ fuel)%nat →
  ∃ C q D s', L = C ++ q :: D ∧ place C q D bp n ∧ free fuel (bp + sizeof_Header) s = Done (tt, s') ∧
    (∀ a, hdr s' a = inserted_hdr (hdr s) q D bp n a) ∧ freep s' = q.1 ∧ brk s' = brk s ∧ grants s' = grants s.
Proof.
  intros Hr Hl Hf. destruct (free_place s L bp n fuel Hr Hl Hf) as (C & q & D & -> & Hp & E).
  pose proof (ring_range _ _ q Hr ltac:(apply elem_of_app; right; by left)) as Rq.
  destruct (link_next_run s C q D bp n Hr Hl Hp) as (s1 & E1 & (F1 & B1 & G1) & H1).
  pose proof (joined_end s C q D bp n Hr Hl) as Hend. destruct (joined_asc C q D bp n Hp) as (Hk & _).
  pose proof Hr as [R1 _ R3 _ _]. pose proof Hl as [L1 L2 _ _]. pose proof Hp as [_ _ P3 _].
  apply chain_app in R3 as [_ R3]. cbn in R3. destruct R3 as [Hq _].
  destruct (link_prev_run s1 bp (joined D bp n).1 q (first (joined D bp n).2 base)) as (s2 & E2 & (F2 & B2 & G2) & H2);
    try (unfold sizeof_Header in *; lia).
  { rewrite H1. apply put_hdr_eq. }
  { rewrite H1, put_hdr_ne, Hq by lia. done. }
  exists C, q, D, (set_freep q.1 s2). split; [done|]. split; [done|]. split.
  { unfold free. replace (u32 (bp + sizeof_Header - sizeof_Header)) with bp.
    2: { unfold block_end, sizeof_Header, KERNBASE in *. cbn in *. replace (bp + 8 - 8) with bp by lia. rewrite u32_small; lia. }
    unfold bind, gets. rewrite E, E1, E2. done. }
  cbn. split_and!; try congruence. intros a. rewrite H2. unfold inserted_hdr. cbv zeta. destruct (_ =? _); by apply put_hdr_cong.
Qed.

Lemma inserted_ring s s' C q D bp n :
  free_ring s (C ++ q :: D) → loose s (C ++ q :: D) bp n → place C q D bp n →
  (∀ a, hdr s' a = inserted_hdr (hdr s) q D bp n a) → freep s' = q.1 → brk s' = brk s → free_ring s' (inserted C q D bp n).
Proof.
  intros Hr Hl Hp Hh Hf Hbrk. pose proof (joined_end s C q D bp n Hr Hl) as Hend. pose proof (joined_asc C q D bp n Hp) as Hj. cbv zeta in Hj.
  destruct Hj as (Hk & _ & Hsub & _). pose proof (inserted_elem C q D bp n) as Hel. pose proof Hr as [R1 (F & E & HF) R3 R4 R5].
  pose proof Hl as [L1 L2 _ _]. pose proof Hp as [_ _ P3 _]. split.
  - by rewrite Hbrk.
  - assert (∀ b, b ∈ inserted C q D bp n → b = (base, 0) ∨ (1 ≤ b.2 ∧ base + sizeof_Header ≤ b.1 ∧ block_end b ≤ brk s)) as Hall.
    { assert (∀ b, b ∈ C ++ q :: D → b = (base, 0) ∨ (1 ≤ b.2 ∧ base + sizeof_Header ≤ b.1 ∧ block_end b ≤ brk s)) as HL.
      { rewrite E. rewrite Forall_forall in HF. intros b [->|Hb]%elem_of_cons; [by left|]. right. by apply HF. }
      intros b Hb. destruct (Hel b Hp Hb) as [H|[->|[H|[->|[-> Eq]]]]]; try (apply HL, elem_of_app; rewrite ?elem_of_cons; tauto).
      - right. unfold block_end, sizeof_Header in *. cbn in *. lia.
      - right. destruct (HL q) as [->|Hq]; [apply elem_of_app; right; by left| |]; unfold block_end, sizeof_Header in *; cbn in *; lia. }
    assert (∃ F', inserted C q D bp n = (base, 0) :: F') as [F' E'].
    { unfold inserted. cbv zeta. destruct C as [|c C]; cbn in E; injection E as Eq _; [|subst c; destruct (_ =? bp); by eexists].
      subst q. destruct (Z.eqb_spec (block_end (base, 0)) bp) as [Eb|]; [|by eexists]. unfold block_end, sizeof_Header in *. cbn in *. lia. }
    exists F'. split; [done|]. apply Forall_forall. intros b Hb. pose proof (inserted_asc C q D bp n Hp) as Ha. rewrite E' in Ha, Hall.
    destruct (Hall b ltac:(by right)) as [->|H]; [|by rewrite Hbrk]. cbn in Ha. destruct Ha as (_ & _ & Ha).
    destruct (ascending_elem _ _ _ Ha Hb) as (? & _). unfold block_end, sizeof_Header in *. cbn in *. lia.
  - eapply blocks_frame; [|by apply (inserted_chain (hdr s))]. intros b _. apply Hh.
  - by apply inserted_asc.
  - rewrite Hf. apply list_elem_of_fmap. unfold inserted. cbv zeta. destruct (_ =? bp); eexists; (split; [|apply elem_of_app; right; by left]); done.
Qed.

(** ** Blocks in use *)

(** [al] maps the blocks in use to their sizes. *)
Record used (s : um) (L : list block) (al : gmap Z Z) : Prop := {
  u_used : ∀ a n, al !! a = Some n → 1 ≤ n ∧ base + sizeof_Header ≤ a ∧ block_end (a, n) ≤ brk s ∧ snd (hdr s a) = n;
  u_apart : ∀ a n b, al !! a = Some n → b ∈ L → apart (a, n) b;
  u_apart_used : ∀ a n c m, al !! a = Some n → al !! c = Some m → a ≠ c → apart (a, n) (c, m);
}.

(** The memory of the blocks in use, headers included, is the same. *)
Definition frame (al : gmap Z Z) (s s' : um) : Prop :=
  ∀ a n z, al !! a = Some n → a ≤ z < block_end (a, n) → hdr s' z = hdr s z.

(** A cell of a block in use is not the header of a free block. *)
Lemma used_cell s L al a n z b : free_ring s L → used s L al → al !! a = Some n → a ≤ z < block_end (a, n) → b ∈ L → z ≠ b.1.
Proof.
  intros [_ (F & -> & HF) _ _ _] [U1 U2 _] Ha Hz Hb ->. specialize (U2 _ _ _ Ha Hb). destruct (U1 _ _ Ha) as (H1 & H2 & _ & _).
  rewrite Forall_forall in HF. apply elem_of_cons in Hb as [->|Hb]; [|specialize (HF _ Hb)];
    unfold apart, block_end, sizeof_Header in *; cbn in *; lia.
Qed.

Lemma free_frame s L al al' bp n fuel :
  free_ring s L → used s L al → loose s L bp n → (2 * length L ≤ fuel)%nat →
  (∀ a m, al' !! a = Some m → al !! a = Some m ∧ apart (a, m) (bp, n)) →
  ∃ s' L', free fuel (bp + sizeof_Header) s = Done (tt, s') ∧ free_ring s' L' ∧ used s' L' al' ∧ frame al' s s' ∧
    (∃ b, b ∈ L' ∧ n ≤ b.2) ∧ (length L' ≤ S (length L))%nat ∧ brk s' = brk s.
Proof.
  intros Hr Hu Hl Hf Hal. destruct (free_run s L bp n fuel Hr Hl Hf) as (C & q & D & s' & -> & Hp & E & Hh & Hfp & Hbrk & _).
  exists s', (inserted C q D bp n). split; [done|]. pose proof (inserted_ring s s' C q D bp n Hr Hl Hp Hh Hfp Hbrk) as Hr'. split; [done|].
  assert (frame al' s s') as Hfr.
  { intros a m z Ha Hz. destruct (Hal a m Ha) as [Ha1 Ha2]. rewrite Hh. apply inserted_hdr_ne.
    - apply (used_cell s (C ++ q :: D) al a m); try done. apply elem_of_app. right. by left.
    - intros ->. destruct Hl. unfold apart, block_end, sizeof_Header in *. cbn in *. lia. }
  split_and!; [|done| | |done].
  - destruct Hu as [U1 U2 U3]. split.
    + intros a m Ha. destruct (Hal a m Ha) as [Ha1 Ha2]. destruct (U1 a m Ha1) as (H1 & H2 & H3 & H4). rewrite Hbrk. split_and!; try done.
      rewrite (Hfr a m a Ha); [done|]. unfold block_end, sizeof_Header. cbn. lia.
    + intros a m b Ha. destruct (Hal a m Ha) as [Ha1 Ha2]. apply inserted_apart; try done; [by destruct (U1 a m Ha1)|]. intros c Hc. by apply (U2 a m).
    + intros a m c k Ha Hc. destruct (Hal a m Ha), (Hal c k Hc). by apply U3.
  - pose proof (joined_asc C q D bp n Hp) as (Hk & _). unfold inserted. cbv zeta. pose proof (ring_range _ _ q Hr ltac:(apply elem_of_app; right; by left)) as Rq.
    destruct (_ =? bp); [exists (q.1, q.2 + (joined D bp n).1)|exists (bp, (joined D bp n).1)]; (split; [apply elem_of_app; right; set_solver|]); cbn; lia.
  - unfold inserted, joined. cbv zeta. destruct D as [|d D]; [|destruct (_ =? d.1)]; destruct (_ =? bp); rewrite !length_app; cbn; lia.
Qed.

(** ** Taking a block *)

(** What is left of block [p] after [n] units have been taken from its end. *)
Definition rest_of (p : block) (n : Z) : list block := if p.2 =? n then [] else [(p.1, p.2 - n)].
Definition taken (p : block) (n : Z) : Z := p.1 + sizeof_Header * (p.2 - n).

Lemma take_block_run s A x p B n :
  free_ring s (A ++ x :: p :: B) → 1 ≤ n ≤ p.2 →
  ∃ s', take_block x.1 p.1 n s = Done (taken p n + sizeof_Header, s') ∧ brk s' = brk s ∧ freep s' = x.1 ∧
    snd (hdr s' (taken p n)) = n ∧ chain (hdr s') (A ++ x :: rest_of p n ++ B) base ∧
    (∀ z, z ≠ x.1 → z ≠ p.1 → z ≠ taken p n → hdr s' z = hdr s z).
Proof.
  intros Hr Hn. pose proof (ring_range _ _ p Hr ltac:(apply elem_of_app; right; right; by left)) as Rp. pose proof Hr as [R1 _ R3 R4 _].
  apply chain_app in R3 as [RA R3]. cbn in R3. destruct R3 as (Hx & Hp & HB). apply ascending_app in R4 as [SA R4]. cbn in R4.
  destruct R4 as (S1 & S2 & S3 & S4 & S5). unfold block_end, sizeof_Header, KERNBASE in *.
  assert (∀ b, b ∈ A → b.1 < x.1) as HA. { intros b Hb. destruct (ascending_elem _ _ _ SA Hb) as (_ & H & H'). unfold block_end, sizeof_Header in H. lia. }
  assert (∀ b, b ∈ B → p.1 + 8 * p.2 < b.1) as HB'. { intros b Hb. destruct (ascending_elem _ _ _ S5 Hb) as (H & _). done. }
  unfold take_block, rest_of, taken, bind, size_of, ptr_of, set_size, set_ptr, modify, gets, ret, sizeof_Header. rewrite Hp. cbn [fst snd].
  destruct (Z.eqb_spec p.2 n) as [E|E].
  - replace (p.1 + 8 * (p.2 - n)) with p.1 by lia. cbn [hdr set_hdr set_freep]. rewrite (u32_small (p.1 + 8)) by lia.
    rewrite Hp. cbn [fst]. eexists. split; [done|]. cbn. split_and!; try done.
    + rewrite put_hdr_ne, Hp by lia. done.
    + apply chain_app. split; [eapply blocks_frame; [|exact RA]; intros b Hb; specialize (HA b Hb); apply put_hdr_ne; lia|]. cbn.
      rewrite put_hdr_eq, Hx. split; [done|]. eapply blocks_frame; [|exact HB]. intros b Hb. specialize (HB' b Hb). apply put_hdr_ne. lia.
    + intros z Hz _ _. by apply put_hdr_ne.
  - unfold unit_add, sizeof_Header. rewrite (u32_small (p.2 - n)), (u32_small (p.1 + 8 * (p.2 - n))) by lia. cbn [hdr set_hdr set_freep]. rewrite Hp. cbn [fst].
    set (q := p.1 + 8 * (p.2 - n)). rewrite (u32_small (q + 8)) by lia. eexists. split; [done|]. cbn. split_and!; try done.
    + by rewrite put_hdr_eq.
    + assert (∀ b : block, b.1 ≠ p.1 → b.1 ≠ q → put_hdr (put_hdr (hdr s) p.1 (first B base, p.2 - n)) q ((put_hdr (hdr s) p.1 (first B base, p.2 - n) q).1, n) b.1 = hdr s b.1) as Hne.
      { intros b H1 H2. by rewrite !put_hdr_ne. }
      apply chain_app. split; [eapply blocks_frame; [|exact RA]; intros b Hb; specialize (HA b Hb); apply Hne; lia|]. cbn.
      split_and!.
      * rewrite Hne by lia. by rewrite Hx.
      * rewrite put_hdr_ne, put_hdr_eq by lia. done.
      * eapply blocks_frame; [|exact HB]. intros b Hb. specialize (HB' b Hb). apply Hne; lia.
    + intros z _ H1 H2. by rewrite !put_hdr_ne.
Qed.

Lemma take_ring s s' A x p B n :
  free_ring s (A ++ x :: p :: B) → 1 ≤ n ≤ p.2 →
  brk s' = brk s → freep s' = x.1 → chain (hdr s') (A ++ x :: rest_of p n ++ B) base → free_ring s' (A ++ x :: rest_of p n ++ B).
Proof.
  intros [R1 (F & E & HF) R3 R4 R5] Hn Hbrk Hfp Hc. split; [by rewrite Hbrk| |done| |].
  - assert (∃ F1, A ++ [x] = (base, 0) :: F1 ∧ F = F1 ++ p :: B) as (F1 & E1 & ->).
    { destruct A as [|a A]; cbn in E; injection E as -> <-; [by exists []|]. exists (A ++ [x]). split; [done|]. by rewrite <-app_assoc. }
    exists (F1 ++ rest_of p n ++ B). change (x :: rest_of p n ++ B) with ([x] ++ (rest_of p n ++ B)). rewrite app_assoc, E1. split; [done|].
    rewrite Hbrk. apply Forall_app in HF as [HF1 HF2]. apply Forall_cons in HF2 as [HF2 HF3]. rewrite !Forall_app. split_and!; try done.
    unfold rest_of. destruct (Z.eqb_spec p.2 n); repeat constructor; unfold block_end, sizeof_Header in *; cbn in *; lia.
  - apply ascending_app in R4 as [SA R4]. apply ascending_app. split; [done|]. cbn in R4 |- *. destruct R4 as (S1 & S2 & S3 & S4 & S5). split_and!; try done.
    unfold rest_of. destruct (Z.eqb_spec p.2 n); cbn; unfold block_end, sizeof_Header in *; cbn.
    + eapply ascending_mono; [|done]. lia.
    + split_and!; [done|lia|]. eapply ascending_mono; [|done]. lia.
  - rewrite Hfp. apply list_elem_of_fmap. exists x. split; [done|]. apply elem_of_app. right. by left.
Qed.

Lemma take_used s s' A x p B n al :
  free_ring s (A ++ x :: p :: B) → used s (A ++ x :: p :: B) al → 1 ≤ n ≤ p.2 → brk s' = brk s → snd (hdr s' (taken p n)) = n →
  (∀ z, z ≠ x.1 → z ≠ p.1 → z ≠ taken p n → hdr s' z = hdr s z) →
  al !! taken p n = None ∧ used s' (A ++ x :: rest_of p n ++ B) (<[taken p n := n]> al) ∧ frame al s s'.
Proof.
  intros Hr Hu Hn Hbrk Hsz Hh. pose proof Hr as [R1 (F & E & HF) R3 R4 _]. apply ascending_app in R4 as [SA R4]. cbn in R4. destruct R4 as (S1 & S2 & S3 & S4 & S5).
  assert (x ∈ A ++ x :: p :: B) as Hx by (apply elem_of_app; right; by left).
  assert (p ∈ A ++ x :: p :: B) as Hp by (apply elem_of_app; right; right; by left).
  assert (1 ≤ p.2 ∧ base + sizeof_Header ≤ p.1 ∧ block_end p ≤ brk s) as Hpr.
  { rewrite Forall_forall in HF. apply HF. destruct A as [|a A]; cbn in E; injection E as _ <-; [by left|]. apply elem_of_app. right. right. by left. }
  pose proof Hu as [U1 U2 U3].
  assert (∀ a m, al !! a = Some m → apart (a, m) (taken p n, n)) as Hap.
  { intros a m Ha. specialize (U2 a m p Ha Hp). unfold taken, apart, block_end, sizeof_Header in *. cbn in *. lia. }
  assert (frame al s s') as Hfr.
  { intros a m z Ha Hz. apply Hh; [by apply (used_cell s (A ++ x :: p :: B) al a m)..|]. intros ->. specialize (Hap a m Ha).
    unfold apart, block_end, sizeof_Header in *. cbn in *. lia. }
  split; [|split; [|done]].
  { destruct (al !! taken p n) as [m|] eqn:Ea; [|done]. specialize (Hap _ _ Ea). destruct (U1 _ _ Ea). unfold apart, block_end, sizeof_Header in *. cbn in *. lia. }
  assert (∀ b, b ∈ A ++ x :: rest_of p n ++ B → apart (taken p n, n) b) as HL.
  { intros b Hb. unfold taken, rest_of, apart, block_end, sizeof_Header in *. cbn.
    rewrite elem_of_app, elem_of_cons, elem_of_app in Hb. destruct Hb as [Hb|[->|[Hb|Hb]]].
    - destruct (ascending_elem _ _ _ SA Hb) as (_ & H & _). unfold block_end, sizeof_Header in H. lia.
    - lia.
    - destruct (Z.eqb_spec p.2 n); [by apply elem_of_nil in Hb|]. apply list_elem_of_singleton in Hb as ->. cbn. lia.
    - destruct (ascending_elem _ _ _ S5 Hb) as (H & _). lia. }
  split.
  - intros a m [[<- <-]|[Hne Ha]]%lookup_insert_Some; rewrite Hbrk.
    + unfold taken, block_end, sizeof_Header in *. cbn in *. split_and!; try done; lia.
    + destruct (U1 a m Ha) as (H1 & H2 & H3 & H4). split_and!; try done. rewrite (Hfr a m a Ha); [done|]. unfold block_end, sizeof_Header. cbn. lia.
  - intros a m b [[<- <-]|[Hne Ha]]%lookup_insert_Some Hb; [by apply HL|].
    rewrite elem_of_app, elem_of_cons, elem_of_app in Hb. destruct Hb as [Hb|[->|[Hb|Hb]]]; try (apply (U2 a m); [done|rewrite elem_of_app, !elem_of_cons; tauto]).
    unfold rest_of in Hb. destruct (Z.eqb_spec p.2 n); [by apply elem_of_nil in Hb|]. apply list_elem_of_singleton in Hb as ->.
    specialize (U2 a m p Ha Hp). unfold apart, block_end, sizeof_Header in *. cbn in *. lia.
  - intros a m c k [[<- <-]|[Hne Ha]]%lookup_insert_Some [[<- <-]|[Hne' Hc]]%lookup_insert_Some Hac; try done.
    + specialize (Hap c k Hc). unfold apart in *. tauto.
    + by apply Hap.
    + by apply U3.
Qed.

(** ** The search of malloc *)

(** What [malloc_loop] does when it comes to [freep] in vain. *)
Definition more (fuel : nat) (n : Z) : M um Z :=
  p <- morecore fuel n;;
  if p =? 0 then ret 0 else next <- ptr_of p;; malloc_loop fuel n p next.

Lemma malloc_loop_eq fuel n prevp p s :
  malloc_loop (S fuel) n prevp p s =
  if n <=? snd (hdr s p) then take_block prevp p n s
  else if p =? freep s then more fuel n s else malloc_loop fuel n p (fst (hdr s p)) s.
Proof. cbn [malloc_loop]. unfold bind, size_of, gets at 1. destruct (n <=? _); [done|]. unfold gets. by destruct (p =? freep s). Qed.

(** From [x] along the blocks [T] to the block [freep]. *)
Lemma walk s n T f : f.1 = freep s → freep s ∉ T.*1 → ∀ x e fuel,
  chain (hdr s) (x :: T ++ [f]) e → (length T < fuel)%nat →
  (∃ P x' y Q, x :: T ++ [f] = P ++ x' :: y :: Q ∧ n ≤ y.2 ∧ malloc_loop fuel n x.1 (first (T ++ [f]) e) s = take_block x'.1 y.1 n s) ∨
  (∀ b, b ∈ T ++ [f] → b.2 < n) ∧ ∃ fuel', (fuel ≤ fuel' + length T + 1)%nat ∧ malloc_loop fuel n x.1 (first (T ++ [f]) e) s = more fuel' n s.
Proof.
  intros Hf. induction T as [|t T IH]; intros Hn x e [|fuel] Hc Hfu; cbn [length] in Hfu; try lia; cbn [app first]; rewrite malloc_loop_eq.
  - cbn in Hc. destruct Hc as (Hx & Hff & _). rewrite Hff. cbn [snd].
    destruct (Z.leb_spec n f.2); [left; by exists [], x, f, []|]. right. split; [intros b; rewrite list_elem_of_singleton; by intros ->|].
    exists fuel. split; [cbn; lia|]. by rewrite Hf, Z.eqb_refl.
  - cbn in Hc. destruct Hc as (Hx & Ht & HT). cbn in Hn. apply not_elem_of_cons in Hn as [Hn1 Hn2]. rewrite Ht. cbn [fst snd].
    destruct (Z.leb_spec n t.2); [left; by exists [], x, t, (T ++ [f])|]. assert ((t.1 =? freep s) = false) as -> by (apply Z.eqb_neq; congruence).
    destruct (IH Hn2 t e fuel) as [(P & x' & y & Q & E & H1 & H2)|(H1 & fuel' & H2 & H3)]; [by split|lia| |].
    + left. exists (x :: P), x', y, Q. split_and!; try done. by rewrite E.
    + right. split; [intros b [->|Hb]%elem_of_cons; [done|by apply H1]|]. exists fuel'. split; [cbn; lia|done].
Qed.

(** Two blocks that follow each other on the way around the ring follow each
    other in the list, unless the second one is [base]. *)
Lemma consecutive (A B P Q : list block) (f x y : block) :
  P ++ x :: y :: Q = f :: B ++ A ++ [f] → head (A ++ [f]) ≠ Some y → ∃ A' B', A ++ f :: B = A' ++ x :: y :: B'.
Proof.
  intros E Hy. change (f :: B ++ A ++ [f]) with ((f :: B) ++ (A ++ [f])) in E.
  assert (∀ k, A ++ [f] = k ++ x :: y :: Q → ∃ A' B', A ++ f :: B = A' ++ x :: y :: B') as Hin.
  { intros k Ek. exists k, (Q ++ B). change (f :: B) with ([f] ++ B). rewrite app_assoc, Ek, <-app_assoc. done. }
  apply app_eq_inv in E as [(k & E1 & E2)|(k & E1 & E2)].
  - by apply (Hin k).
  - destruct k as [|k1 [|k2 k]].
    + by apply (Hin []).
    + cbn in E2. injection E2 as -> E2. rewrite <-E2 in Hy. done.
    + cbn in E2. injection E2 as -> -> E2. exists (A ++ P), k. by rewrite E1, <-app_assoc.
Qed.

Lemma ascending_once lo A (f : block) B : ascending lo (A ++ f :: B) → f.1 ∉ (B ++ A).*1.
Proof.
  intros Ha (b & E & Hb)%list_elem_of_fmap. apply ascending_app in Ha as [HA HB]. cbn in HB. destruct HB as (H1 & H2 & HB).
  apply elem_of_app in Hb as [Hb|Hb].
  - destruct (ascending_elem _ _ _ HB Hb) as (H & _). unfold block_end, sizeof_Header in H. lia.
  - destruct (ascending_elem _ _ _ HA Hb) as (_ & H & H'). unfold block_end, sizeof_Header in H. lia.
Qed.

(** The ring as [malloc] walks it: from [freep] around to [freep]. *)
Lemma ring_around s L : free_ring s L → ∃ A f B e,
  L = A ++ f :: B ∧ f.1 = freep s ∧ freep s ∉ (B ++ A).*1 ∧ chain (hdr s) (f :: (B ++ A) ++ [f]) e ∧
  fst (hdr s (freep s)) = first ((B ++ A) ++ [f]) e ∧ head (A ++ [f]) = Some (base, 0).
Proof.
  intros [_ (F & E & _) R3 R4 R5]. apply list_elem_of_fmap in R5 as (f & Ef & Hf). apply list_elem_of_split in Hf as (A & B & ->).
  assert (head (A ++ [f]) = Some (base, 0)) as Hh by (destruct A; cbn in *; congruence).
  exists A, f, B, (fst (hdr s f.1)). split; [done|]. split; [done|]. apply chain_app in R3 as [RA [Rf RB]].
  split; [rewrite Ef; by apply (ascending_once (base - 1))|].
  assert (first (A ++ [f]) (fst (hdr s f.1)) = base) as Hb by (destruct A; cbn in *; injection Hh as ->; done).
  rewrite <-app_assoc. split_and!; [|by rewrite first_app, Hb, Ef, Rf|done].
  change (f :: B ++ A ++ [f]) with ((f :: B) ++ A ++ [f]). rewrite chain_app, Hb. split; [by split|]. apply chain_app. cbn. split_and!; try done.
  rewrite Rf. done.
Qed.

(** The heap: the ring of free blocks and the blocks in use. *)
Definition heap (s : um) (al : gmap Z Z) : Prop := ∃ L, free_ring s L ∧ used s L al.

(** [n] units in a block that was not in use; the blocks in use are as before. *)
Definition given (n : Z) (s : um) (al : gmap Z Z) (r : Z) (s' : um) : Prop :=
  ∃ a, r = a + sizeof_Header ∧ al !! a = None ∧ heap s' (<[a := n]> al) ∧ frame al s s'.

Lemma search s L al n fuel :
  free_ring s L → used s L al → 1 ≤ n → (length L ≤ fuel)%nat →
  (∃ r s', malloc_loop fuel n (freep s) (fst (hdr s (freep s))) s = Done (r, s') ∧ given n s al r s') ∨
  (∀ b, b ∈ L → b.2 < n) ∧ ∃ fuel', (fuel ≤ fuel' + length L)%nat ∧
    malloc_loop fuel n (freep s) (fst (hdr s (freep s))) s = more fuel' n s.
Proof.
  intros Hr Hu Hn Hfu. destruct (ring_around s L Hr) as (A & f & B & e & E & Hf & Hno & Hc & Hst & Hhd).
  assert (length L = S (length (B ++ A))) as El by (rewrite E, !length_app; cbn; lia).
  rewrite Hst, <-Hf. destruct (walk s n (B ++ A) f Hf Hno f e fuel Hc) as [(P & x & y & Q & E1 & Hy & ->)|(Hall & fuel' & Hf' & ->)]; [lia| |].
  - left. rewrite <-app_assoc in E1. destruct (consecutive A B P Q f x y) as (A' & B' & E2); [done|rewrite Hhd; intros [= <-]; cbn in Hy; lia|].
    subst L. rewrite E2 in Hr, Hu. destruct (take_block_run s A' x y B' n Hr) as (s' & Et & Hb & Hp & Hz & Hch & Hfr); [lia|].
    destruct (take_used s s' A' x y B' n al Hr Hu) as (H1 & H2 & H3); [lia|done|done|done|].
    exists (taken y n + sizeof_Header), s'. split; [done|]. exists (taken y n). split_and!; try done. eexists. split; [|exact H2].
    by apply (take_ring s).
  - right. split; [|exists fuel'; split; [lia|done]]. intros b Hb. apply Hall. subst L.
    apply elem_of_app in Hb as [Hb|[->|Hb]%elem_of_cons]; rewrite !elem_of_app; rewrite ?list_elem_of_singleton; tauto.
Qed.

(** ** More memory *)

Lemma grow_ring s s' L : free_ring s L → brk s ≤ brk s' < KERNBASE → freep s' = freep s → (∀ a, a < brk s → hdr s' a = hdr s a) → free_ring s' L.
Proof.
  intros Hr Hb Hf Hh. pose proof Hr as [R1 (F & -> & HF) R3 R4 R5]. split; [lia| | |done|by rewrite Hf].
  - exists F. split; [done|]. eapply Forall_impl; [exact HF|]. intros b (? & ? & ?). split_and!; try done. lia.
  - eapply blocks_frame; [|exact R3]. intros b Hin. apply Hh. destruct Hr. apply elem_of_cons in Hin as [->|Hin]; unfold sizeof_Header in *; cbn; [lia|].
    rewrite Forall_forall in HF. specialize (HF b Hin). unfold block_end, sizeof_Header in HF. cbn in HF. lia.
Qed.

Lemma grow_used s s' L al : used s L al → brk s ≤ brk s' → (∀ a, a < brk s → hdr s' a = hdr s a) → used s' L al ∧ frame al s s'.
Proof.
  intros [U1 U2 U3] Hb Hh. split.
  - split; [|done|done]. intros a n Ha. destruct (U1 a n Ha) as (H1 & H2 & H3 & H4). split_and!; try done; [lia|].
    rewrite Hh; [done|]. unfold block_end, sizeof_Header in *. cbn in *. lia.
  - intros a n z Ha Hz. apply Hh. destruct (U1 a n Ha) as (H1 & H2 & H3 & H4). lia.
Qed.

Lemma heap_frame_trans al s1 s2 s3 : frame al s1 s2 → frame al s2 s3 → frame al s1 s3.
Proof. intros H1 H2 a n z Ha Hz. by rewrite (H2 a n z Ha Hz), (H1 a n z Ha Hz). Qed.

Lemma morecore_run s L al n fuel :
  free_ring s L → used s L al → 1 ≤ n → sizeof_Header * n < 2 ^ 31 → (2 * length L ≤ fuel)%nat →
  ∃ r s', morecore fuel n s = Done (r, s') ∧ frame al s s' ∧
    (r = 0 ∧ heap s' al ∨
     r = freep s' ∧ r ≠ 0 ∧ ∃ L', free_ring s' L' ∧ used s' L' al ∧ (∃ b, b ∈ L' ∧ n ≤ b.2) ∧ (length L' ≤ S (length L))%nat).
Proof.
  intros Hr Hu Hn Hn' Hf. pose proof Hr as [R1 _ _ _ _]. unfold morecore. cbv zeta.
  set (nu := if n <? 4096 then 4096 else n). assert (n ≤ nu ∧ 4096 ≤ nu ∧ sizeof_Header * nu < 2 ^ 31) as Hnu by (unfold nu, sizeof_Header in *; destruct (Z.ltb_spec n 4096); lia).
  unfold sizeof_Header, KERNBASE in *. rewrite s32_small by lia.
  unfold sbrk. assert ((0 <? nu * 8) = true) as Hpos by lia. rewrite Hpos. destruct (default false (head (grants s)) && (brk s + nu * 8 <? KERNBASE)) eqn:Hg.
  - pose proof Hg as Hg0. apply andb_prop in Hg as [_ Hg]. apply Z.ltb_lt in Hg. unfold KERNBASE in Hg.
    set (s1 := mk_um (put_hdr (hdr s) (brk s) (fst (hdr s (brk s)), nu)) (freep s) (brk s + nu * 8) (tail (grants s))).
    assert (∀ a, a < brk s → hdr s1 a = hdr s a) as Hs1 by (intros a Ha; apply put_hdr_ne; lia).
    destruct (grow_used s s1 L al Hu) as [Hu1 Hf1]; [cbn; lia|done|].
    assert (free_ring s1 L) as Hr1 by (apply (grow_ring s); unfold KERNBASE; cbn; try done; lia).
    destruct (free_frame s1 L al al (brk s) nu fuel) as (s2 & L2 & E2 & Hr2 & Hu2 & Hf2 & (b & Hb & Hbn) & Hl2 & Hb2); try done.
    { split; [lia| | |].
      - unfold block_end, sizeof_Header. cbn. lia.
      - cbn. by rewrite put_hdr_eq.
      - intros b Hb. destruct (ring_range s L b Hr Hb) as (_ & _ & ?). right. done. }
    { intros a m Ha. split; [done|]. left. destruct Hu as [U1 _ _]. by destruct (U1 a m Ha) as (_ & _ & ? & _). }
    exists (freep s2), s2. split; [|split; [by apply (heap_frame_trans al s s1)|right; split; [done|split; [|exists L2; split_and!; try done; exists b; split; [done|lia]]]]].
    + unfold bind at 1. rewrite Hg0. assert ((brk s =? minus_one) = false) as -> by (unfold minus_one; lia).
      unfold bind at 1, set_size, modify. cbn [hdr set_hdr freep brk grants]. unfold set_hdr. cbn [hdr freep brk grants].
      fold s1. rewrite u32_small by lia. unfold bind. unfold sizeof_Header in E2. rewrite E2. done.
    + destruct Hr2 as [R2 (F & -> & HF) _ _ (b' & -> & Hb')%list_elem_of_fmap]. rewrite Forall_forall in HF. unfold sizeof_Header in *.
      apply elem_of_cons in Hb' as [->|Hb']; [cbn; lia|]. specialize (HF b' Hb'). cbn in HF. lia.
  - set (s1 := mk_um (hdr s) (freep s) (brk s) (tail (grants s))). exists 0, s1. split; [unfold bind; by rewrite Hg|].
    destruct (grow_used s s1 L al Hu) as [Hu1 Hf1]; [cbn; lia|done|]. split; [done|]. left. split; [done|]. exists L. split; [|done].
    apply (grow_ring s); unfold KERNBASE; cbn; try done; lia.
Qed.

(** [malloc] has no memory to give, or gives a block. *)
Definition answered (n : Z) (s : um) (al : gmap Z Z) (r : Z) (s' : um) : Prop :=
  (r = 0 ∧ heap s' al ∧ frame al s s') ∨ given n s al r s'.

Lemma search_or_grow s L al n fuel :
  free_ring s L → used s L al → 1 ≤ n → sizeof_Header * n < 2 ^ 31 → (3 * length L + 2 ≤ fuel)%nat →
  ∃ r s', malloc_loop fuel n (freep s) (fst (hdr s (freep s))) s = Done (r, s') ∧ answered n s al r s'.
Proof.
  intros Hr Hu Hn Hn' Hf. destruct (search s L al n fuel Hr Hu Hn) as [(r & s' & E & Hg)|(Hall & fuel' & Hf' & ->)]; [lia| |].
  { exists r, s'. split; [done|]. by right. }
  destruct (morecore_run s L al n fuel' Hr Hu Hn Hn') as (p & s1 & E1 & Hf1 & [[-> Hh]|(-> & Hp & L1 & Hr1 & Hu1 & (b & Hb & Hbn) & Hl1)]); [lia| |].
  { exists 0, s1. split; [|by left]. unfold more, bind. by rewrite E1. }
  destruct (search s1 L1 al n fuel' Hr1 Hu1 Hn) as [(r & s' & E & a & -> & Ha & Hh & Hfr)|(Hall1 & _)]; [lia| |specialize (Hall1 b Hb); lia].
  exists (a + sizeof_Header), s'. split.
  - unfold more, bind. rewrite E1. apply Z.eqb_neq in Hp. rewrite Hp. exact E.
  - right. exists a. split_and!; try done. by apply (heap_frame_trans al s s1).
Qed.

(** ** More fuel does not change a result *)

Lemma free_loop_mono f1 f2 bp p s r : (f1 ≤ f2)%nat → free_loop f1 bp p s = Done r → free_loop f2 bp p s = Done r.
Proof.
  revert f2 p. induction f1 as [|f1 IH]; intros [|f2] p Hf; try done; [lia|]. cbn [free_loop]. unfold bind, ptr_of, gets.
  destruct (_ && _); [done|]. destruct (_ && _); [done|]. apply IH. lia.
Qed.

Lemma free_mono f1 f2 ap s r : (f1 ≤ f2)%nat → free f1 ap s = Done r → free f2 ap s = Done r.
Proof.
  intros Hf. unfold free, bind, gets. destruct (free_loop f1 _ _ s) as [[p s1]|] eqn:E; [|done].
  by rewrite (free_loop_mono _ _ _ _ _ _ Hf E).
Qed.

Lemma morecore_mono f1 f2 n s r : (f1 ≤ f2)%nat → morecore f1 n s = Done r → morecore f2 n s = Done r.
Proof.
  intros Hf. unfold morecore, bind. cbv zeta. destruct (sbrk _ s) as [[p s1]|]; [|done]. destruct (p =? minus_one); [done|].
  destruct (set_size _ _ s1) as [[u s2]|]; [|done]. destruct (free f1 _ s2) as [[v s3]|] eqn:E; [|done]. by rewrite (free_mono _ _ _ _ _ Hf E).
Qed.

Lemma malloc_loop_mono f1 f2 n prevp p s r : (f1 ≤ f2)%nat → malloc_loop f1 n prevp p s = Done r → malloc_loop f2 n prevp p s = Done r.
Proof.
  revert f2 prevp p s. induction f1 as [|f1 IH]; intros [|f2] prevp p s Hf; try done; [lia|]. rewrite !malloc_loop_eq.
  destruct (_ <=? _); [done|]. destruct (_ =? _); [|apply IH; lia]. unfold more, bind.
  destruct (morecore f1 n s) as [[q s1]|] eqn:E; [|done]. rewrite (morecore_mono f1 f2 _ _ _ ltac:(lia) E).
  destruct (q =? 0); [done|]. unfold ptr_of, gets. apply IH. lia.
Qed.

(** [f] returns, whatever the fuel from some amount on. *)
Definition returns {A} (f : nat → M um A) (s : um) (r : A) (s' : um) : Prop := ∃ k, ∀ fuel, (k ≤ fuel)%nat → f fuel s = Done (r, s').

(** ** The life of the heap *)

(** Before the first [malloc]. *)
Definition untouched (s : um) : Prop := freep s = 0 ∧ 0 < base ∧ base + sizeof_Header ≤ brk s ∧ brk s < KERNBASE.

(** The requests whose size in bytes fits an [int]. *)
Definition sane (nbytes : Z) : Prop := 0 ≤ nbytes ≤ 2 ^ 31 - 16.

Lemma units_sane nbytes : sane nbytes → 1 ≤ units nbytes ∧ sizeof_Header * units nbytes < 2 ^ 31 ∧ nbytes ≤ sizeof_Header * (units nbytes - 1).
Proof.
  unfold sane, units, sizeof_Header. intros H. rewrite u32_small by lia. pose proof (Z.div_mod (nbytes + 8 - 1) 8 ltac:(lia)).
  pose proof (Z.mod_pos_bound (nbytes + 8 - 1) 8 ltac:(lia)). lia.
Qed.

Lemma ring_freep s L : free_ring s L → freep s ≠ 0.
Proof.
  intros Hr. pose proof Hr as [R1 _ _ _ (b & Eb & Hb)%list_elem_of_fmap]. pose proof (ring_range s L b Hr Hb). lia.
Qed.

Lemma malloc_heap s al nbytes : heap s al → sane nbytes → ∃ r s', returns (λ fuel, malloc base fuel nbytes) s r s' ∧ answered (units nbytes) s al r s'.
Proof.
  intros (L & Hr & Hu) Hs. destruct (units_sane nbytes Hs) as (H1 & H2 & _).
  destruct (search_or_grow s L al (units nbytes) (3 * length L + 2) Hr Hu H1 H2 ltac:(done)) as (r & s' & E & Ha). exists r, s'. split; [|done].
  exists (3 * length L + 2)%nat. intros fuel Hf. unfold malloc, bind, gets, ptr_of. cbv zeta. rewrite (proj2 (Z.eqb_neq _ _) (ring_freep s L Hr)).
  unfold ret, gets. by apply (malloc_loop_mono (3 * length L + 2)).
Qed.

(** The state in which the search of the first [malloc] starts. *)
Definition initialized (s : um) : um :=
  let h := put_hdr (hdr s) base (base, snd (hdr s base)) in mk_um (put_hdr h base (fst (h base), 0)) base (brk s) (grants s).

Lemma initialized_heap s : untouched s → heap (initialized s) ∅.
Proof.
  intros (Hf & H1 & H2 & H3). exists [(base, 0)]. split; [split|by split].
  - done.
  - by exists [].
  - cbn. by rewrite !put_hdr_eq.
  - cbn. unfold block_end. cbn. lia.
  - cbn. by left.
Qed.

Lemma malloc_first s nbytes fuel : untouched s → malloc base fuel nbytes s = malloc base fuel nbytes (initialized s).
Proof.
  intros (Hf & H1 & _). unfold malloc, bind, gets. cbv beta iota zeta. rewrite Hf.
  assert ((freep (initialized s) =? 0) = false) as -> by (cbn; lia). done.
Qed.

(** A block [a] of [n] units in use has its header at [a]; a program may write
    to the memory after it. *)
Inductive reach : um → gmap Z Z → Prop :=
  | R_start s : untouched s → reach s ∅
  | R_malloc s al nbytes r s' :
      reach s al → sane nbytes → returns (λ fuel, malloc base fuel nbytes) s r s' → r ≠ 0 →
      reach s' (<[r - sizeof_Header := units nbytes]> al)
  | R_malloc_null s al nbytes s' :
      reach s al → sane nbytes → returns (λ fuel, malloc base fuel nbytes) s 0 s' → reach s' al
  | R_free s al a n s' :
      reach s al → al !! a = Some n → returns (λ fuel, free fuel (a + sizeof_Header)) s tt s' → reach s' (delete a al)
  | R_write s al s' :
      reach s al → same_rest s s' → (∀ z, hdr s' z = hdr s z ∨ ∃ a n, al !! a = Some n ∧ a < z < block_end (a, n)) → reach s' al.

Lemma returns_det {A} (f : nat → M um A) s r s' r2 s2 : returns f s r s' → returns f s r2 s2 → r2 = r ∧ s2 = s'.
Proof. intros [k Hk] [k2 Hk2]. specialize (Hk (k + k2)%nat ltac:(lia)). rewrite (Hk2 (k + k2)%nat ltac:(lia)) in Hk. by simplify_eq. Qed.

Definition alive (s : um) (al : gmap Z Z) : Prop := (untouched s ∧ al = ∅) ∨ heap s al.

Lemma malloc_alive s al nbytes : alive s al → sane nbytes → ∃ r s', returns (λ fuel, malloc base fuel nbytes) s r s' ∧ answered (units nbytes) s al r s'.
Proof.
  intros [[Hs ->]|Hh] Hn; [|by apply malloc_heap]. destruct (malloc_heap _ _ nbytes (initialized_heap s Hs) Hn) as (r & s' & [k Hk] & Ha).
  exists r, s'. split; [exists k; intros fuel Hf; rewrite malloc_first by done; by apply Hk|].
  destruct Ha as [(-> & H1 & _)|(a & -> & H1 & H2 & _)]; [left|right; exists a]; split_and!; done.
Qed.

Lemma free_alive s al a n : alive s al → al !! a = Some n →
  ∃ s', returns (λ fuel, free fuel (a + sizeof_Header)) s tt s' ∧ heap s' (delete a al) ∧ frame (delete a al) s s' ∧ brk s' = brk s.
Proof.
  intros [[_ ->]|(L & Hr & Hu)] Ha; [done|]. pose proof Hu as [U1 U2 U3]. destruct (U1 a n Ha) as (H1 & H2 & H3 & H4).
  destruct (free_frame s L al (delete a al) a n (2 * length L)) as (s' & L' & E & Hr' & Hu' & Hf' & _ & _ & Hb); try done.
  { split; try done. intros b. by apply U2. }
  { intros c m [Hne Hc]%lookup_delete_Some. split; [done|]. by apply U3. }
  exists s'. split; [exists (2 * length L)%nat; intros fuel Hf; by apply (free_mono (2 * length L))|]. split; [by exists L'|done].
Qed.

Lemma write_heap s s' al : heap s al → same_rest s s' →
  (∀ z, hdr s' z = hdr s z ∨ ∃ a n, al !! a = Some n ∧ a < z < block_end (a, n)) → heap s' al.
Proof.
  intros (L & Hr & Hu) (Hf & Hb & _) Hw. exists L. pose proof Hr as [R1 R2 R3 R4 R5]. pose proof Hu as [U1 U2 U3]. split.
  - split; rewrite ?Hf, ?Hb; try done. eapply blocks_frame; [|exact R3]. intros b Hin.
    destruct (Hw b.1) as [|(a & n & Ha & Hz)]; [done|]. exfalso. eapply (used_cell s L al a n b.1 b Hr Hu Ha); [lia|done|done].
  - split; try done. intros a n Ha. destruct (U1 a n Ha) as (H1 & H2 & H3 & H4). rewrite Hb. split_and!; try done.
    destruct (Hw a) as [->|(c & m & Hc & Hz)]; [done|]. exfalso. assert (a ≠ c) as Hne by lia. destruct (U1 c m Hc) as (H5 & _).
    specialize (U3 a n c m Ha Hc Hne). unfold apart, block_end, sizeof_Header in *. cbn in *. lia.
Qed.

Lemma heap_base s al : heap s al → 0 < base.
Proof. by intros (L & [[H _] _ _ _ _] & _). Qed.

Lemma reach_alive s al : reach s al → alive s al.
Proof.
  induction 1 as [s Hs|s al nbytes r s' _ IH Hn Hm Hr|s al nbytes s' _ IH Hn Hm|s al a n s' _ IH Ha Hm|s al s' _ IH Hsr Hw].
  - by left.
  - destruct (malloc_alive s al nbytes IH Hn) as (r2 & s2 & Hm2 & Ha). destruct (returns_det _ _ _ _ _ _ Hm Hm2) as [-> ->].
    destruct Ha as [(-> & _)|(a & -> & Ha & Hh & _)]; [done|]. right. by replace (a + sizeof_Header - sizeof_Header) with a by lia.
  - destruct (malloc_alive s al nbytes IH Hn) as (r2 & s2 & Hm2 & Ha). destruct (returns_det _ _ _ _ _ _ Hm Hm2) as [-> ->].
    destruct Ha as [(_ & Hh & _)|(a & E & Ha & (L & Hr & [U1 _ _]) & _)]; [by right|]. exfalso.
    destruct (U1 a (units nbytes)) as (_ & H & _); [apply lookup_insert_eq|]. pose proof Hr as [[H0 _] _ _ _ _]. unfold sizeof_Header in *. lia.
  - destruct (free_alive s al a n IH Ha) as (s2 & Hm2 & Hh & _). destruct (returns_det _ _ _ _ _ _ Hm Hm2) as [_ ->]. by right.
  - destruct IH as [[(H1 & H2 & H3 & H4) ->]|Hh]; [left|right; by apply (write_heap s)]. split; [|done].
    destruct Hsr as (Hf & Hb & _). unfold untouched. rewrite Hf, Hb. done.
Qed.

(** C25: For a program that calls [malloc] (with sizes that fit an [int]) and
    [free] (with blocks it has) in any order and writes anywhere in the blocks it
    has, both always return.  [malloc] returns a null pointer or the address of
    at least [nbytes] bytes below the end of the process that overlap no block
    in use nor its header; [malloc] and [free] change nothing in the blocks in use. *)
Theorem malloc_free_safe s al : reach s al →
  (∀ nbytes, sane nbytes → ∃ r s', returns (λ fuel, malloc base fuel nbytes) s r s' ∧ frame al s s' ∧
     (r = 0 ∨ base + 2 * sizeof_Header ≤ r ∧ r + nbytes ≤ brk s' ∧ reach s' (<[r - sizeof_Header := units nbytes]> al) ∧
       ∀ a n, al !! a = Some n → r + nbytes ≤ a ∨ block_end (a, n) ≤ r - sizeof_Header)) ∧
  (∀ a n, al !! a = Some n → ∃ s', returns (λ fuel, free fuel (a + sizeof_Header)) s tt s' ∧
     frame (delete a al) s s' ∧ brk s' = brk s ∧ reach s' (delete a al)).
Proof.
  intros Hre. pose proof (reach_alive s al Hre) as Hal. split.
  - intros nbytes Hn. destruct (malloc_alive s al nbytes Hal Hn) as (r & s' & Hm & [(-> & _ & Hf)|(a & -> & Ha & (L & Hr & [U1 U2 U3]) & Hf)]);
      [exists 0, s'; split_and!; try done; by left|]. exists (a + sizeof_Header), s'. split_and!; try done. right.
    destruct (U1 a (units nbytes) (lookup_insert_eq _ _ _)) as (H1 & H2 & H3 & _). pose proof Hr as [[H0 _] _ _ _ _].
    destruct (units_sane nbytes Hn) as (_ & _ & Hnb). split_and!; [unfold sizeof_Header in *; lia|unfold block_end, sizeof_Header in *; cbn in *; lia| |].
    + apply (R_malloc s al nbytes); try done. unfold sizeof_Header in *. lia.
    + intros c m Hc. assert (a ≠ c) as Hne by congruence. specialize (U3 a (units nbytes) c m (lookup_insert_eq _ _ _) ltac:(by rewrite lookup_insert_ne) Hne).
      unfold apart, block_end, sizeof_Header in *. cbn in *. lia.
  - intros a n Ha. destruct (free_alive s al a n Hal Ha) as (s' & Hm & _ & Hf & Hb). exists s'. split_and!; try done. by apply (R_free s al a n).
Qed.
End spec.

Module MallocDemo.
(** A process with 8192 bytes, [base] at 6000, that the kernel lets grow once. *)
Definition s0 : um := mk_um (λ _, (0, 0)) 0 8192 [true].
Definition s1 : um := match malloc 6000 10 100 s0 with Done (_, s) => s | Fail _ => s0 end.

Lemma s1_reached : reach 6000 s1 (<[40848 := 14]> ∅).
Proof.
  apply (R_malloc 6000 s0 ∅ 100 40856 s1); [apply R_start; by vm_compute|by vm_compute| |done].
  exists 10%nat. intros fuel Hf. rewrite (malloc_first 6000 s0 100 fuel) by (by vm_compute). unfold malloc, bind. apply (malloc_loop_mono 10); [done|]. done.
Qed.
End MallocDemo.

(** A block is in use, and both [malloc] and [free] return. *)
Lemma malloc_free_safe_witness :
  (∃ r s', returns (λ fuel, malloc 6000 fuel 1000) MallocDemo.s1 r s' ∧ frame (<[40848 := 14]> ∅) MallocDemo.s1 s') ∧
  (∃ s', returns (λ fuel, free fuel 40856) MallocDemo.s1 tt s').
Proof.
  destruct (malloc_free_safe 6000 MallocDemo.s1 (<[40848 := 14]> ∅) MallocDemo.s1_reached) as [H1 H2]. split.
  - destruct (H1 1000) as (r & s' & Hr & Hf & _); [by vm_compute|]. by exists r, s'.
  - destruct (H2 40848 14 (lookup_insert_eq _ _ _)) as (s' & Hr & _). by exists s'.
Defined.
