(* ===== verification/Console.v ===== *)
(** * console.c, kbd.c and uart.c: the console

    The screen (CGA memory and the cursor registers), the serial port and the
    keyboard controller are hardware: the code reads and writes their byte
    ports ([BytePorts]) and the I/O APIC ([Mmio]).  [cons] holds the variables
    of the three files, and whether the caller of a read or write holds the
    sleep-lock of the console's inode.  The console's lock is a flag: code that holds it runs
    to its end, or to a [sleep] that releases it. *)

From S2P Require Import Prelude Irq.

(** ** kbd.h and the tables of kbd.c *)

Definition KBSTATP : Z := 0x64.
Definition KBS_DIB : Z := 0x01.
Definition KBDATAP : Z := 0x60.

Definition NO : Z := 0.
Definition SHIFT : Z := 1.
Definition CTL : Z := 2.
Definition ALT : Z := 4.
Definition CAPSLOCK : Z := 8.
Definition NUMLOCK : Z := 16.
Definition SCROLLLOCK : Z := 32.
Definition E0ESC : Z := 64.

(** [C('A')] is Control-A; kept in a [uchar]. *)
Definition C (x : Z) : Z := u8 (x - 64).

(** An initialised array of 256 bytes: the values of its first elements, and
    the elements named by their index. *)
Definition table256 (first : list Z) (named : list (Z * Z)) : list Z :=
  (λ i, match find (λ p, fst p =? Z.of_nat i) named with Some p => snd p | None => nth i first 0 end) <$> seq 0 256.

Definition shiftcode : list Z :=
  table256 [] [(0x1D, CTL); (0x2A, SHIFT); (0x36, SHIFT); (0x38, ALT); (0x9D, CTL); (0xB8, ALT)].
Definition togglecode : list Z := table256 [] [(0x3A, CAPSLOCK); (0x45, NUMLOCK); (0x46, SCROLLLOCK)].

(** The special keys, with the codes of [KEY_UP], [KEY_DN], ... *)
Definition special_keys : list (Z * Z) :=
  [(0xC8, 0xE2); (0xD0, 0xE3); (0xC9, 0xE6); (0xD1, 0xE7); (0xCB, 0xE4); (0xCD, 0xE5); (0x97, 0xE0); (0xCF, 0xE1);
   (0xD2, 0xE8); (0xD3, 0xE9)].

(** The keypad, codes 0x40 to 0x53. *)
Definition keypad : list Z := replicate 7 NO ++ chars "789-456+1230.".

Definition normalmap : list Z :=
  table256
    ([NO; 0x1B] ++ chars "1234567890-=" ++ [8; 9] ++ chars "qwertyuiop[]" ++ [10; NO] ++ chars "asdfghjkl;'`" ++ [NO] ++
     chars "\zxcvbnm,./" ++ [NO] ++ chars "*" ++ [NO] ++ chars " " ++ replicate 6 NO ++ keypad)
    ((0x9C, 10) :: (0xB5, 47) :: special_keys).

Definition shiftmap : list Z :=
  table256
    ([NO; 0x1B] ++ chars "!@#$%^&*()_+" ++ [8; 9] ++ chars "QWERTYUIOP{}" ++ [10; NO] ++ chars "ASDFGHJKL:" ++ [34; 126; NO] ++
     chars "|ZXCVBNM<>?" ++ [NO] ++ chars "*" ++ [NO] ++ chars " " ++ replicate 6 NO ++ keypad)
    ((0x9C, 10) :: (0xB5, 47) :: special_keys).

Definition ctlmap : list Z :=
  table256
    (replicate 16 NO ++ (C <$> chars "QWERTYUIOP") ++ [NO; NO; 13; NO] ++ (C <$> chars "ASDFGHJKL") ++ [NO; NO; NO; NO] ++
     (C <$> chars "\ZXCVBNM") ++ [NO; NO; C 47; NO; NO])
    ((0x9C, 13) :: (0xB5, C 47) :: special_keys).

Definition charcode (i : Z) : list Z := if i =? 0 then normalmap else if i =? 1 then shiftmap else ctlmap.

(** What [kbdgetc] makes of the code [data] in the state [shift]: the
    character (0 if there is none) and the new state. *)
Definition kbd_translate (shift data : Z) : Z * Z :=
  if data =? 0xE0 then (0, Z.lor shift E0ESC)
  else if negb (Z.land data 0x80 =? 0) then
    let data := if negb (Z.land shift E0ESC =? 0) then data else Z.land data 0x7F in
    (0, Z.land shift (Z.lnot (Z.lor (shiftcode !!! Z.to_nat data) E0ESC)))
  else
    let '(data, shift) :=
      if negb (Z.land shift E0ESC =? 0) then (Z.lor data 0x80, Z.land shift (Z.lnot E0ESC)) else (data, shift) in
    let shift := Z.lor shift (shiftcode !!! Z.to_nat data) in
    let shift := Z.lxor shift (togglecode !!! Z.to_nat data) in
    let c := charcode (Z.land shift (Z.lor CTL SHIFT)) !!! Z.to_nat data in
    (if negb (Z.land shift CAPSLOCK =? 0) then
       if (97 <=? c) && (c <=? 122) then c + (65 - 97)
       else if (65 <=? c) && (c <=? 90) then c + (97 - 65)
       else c
     else c, shift).

(** ** The state *)

Definition INPUT_BUF : Z := 128.

Record inbuf := mk_in { buf : list Z; in_r : Z; in_w : Z; in_e : Z }.

Record cons (D : Type) := mk_cons {
  input : inbuf;
  cons_lock : bool;
  locking : bool;
  panicked : bool;
  uart : bool;
  kbd_shift : Z;
  crt : list Z;
  ip_lock : bool;
  dev : D;
}.
Arguments mk_cons {D}.
Arguments input {D}. Arguments cons_lock {D}. Arguments locking {D}. Arguments panicked {D}.
Arguments uart {D}. Arguments kbd_shift {D}. Arguments crt {D}. Arguments ip_lock {D}. Arguments dev {D}.

Section console.
Context {D : Type} `{!BytePorts D} `{!Mmio D}.
Abbreviation cons := (cons D).

Definition set_input i (s : cons) := mk_cons i (cons_lock s) (locking s) (panicked s) (uart s) (kbd_shift s) (crt s) (ip_lock s) (dev s).
Definition set_lock b (s : cons) := mk_cons (input s) b (locking s) (panicked s) (uart s) (kbd_shift s) (crt s) (ip_lock s) (dev s).
Definition set_locking b (s : cons) := mk_cons (input s) (cons_lock s) b (panicked s) (uart s) (kbd_shift s) (crt s) (ip_lock s) (dev s).
Definition set_panicked b (s : cons) := mk_cons (input s) (cons_lock s) (locking s) b (uart s) (kbd_shift s) (crt s) (ip_lock s) (dev s).
Definition set_uart b (s : cons) := mk_cons (input s) (cons_lock s) (locking s) (panicked s) b (kbd_shift s) (crt s) (ip_lock s) (dev s).
Definition set_shift v (s : cons) := mk_cons (input s) (cons_lock s) (locking s) (panicked s) (uart s) v (crt s) (ip_lock s) (dev s).
Definition set_crt c (s : cons) := mk_cons (input s) (cons_lock s) (locking s) (panicked s) (uart s) (kbd_shift s) c (ip_lock s) (dev s).
Definition set_dev (d : D) (s : cons) := mk_cons (input s) (cons_lock s) (locking s) (panicked s) (uart s) (kbd_shift s) (crt s) (ip_lock s) d.
Definition set_ip b (s : cons) := mk_cons (input s) (cons_lock s) (locking s) (panicked s) (uart s) (kbd_shift s) (crt s) b (dev s).

Definition in_b (port : Z) : M cons Z := λ s, let '(v, d) := inb port (dev s) in Done (v, set_dev d s).
Definition out_b (port v : Z) : M cons unit := modify (λ s, set_dev (outb port (u8 v) (dev s)) s).

(** [acquire] panics when the CPU holds the lock already. *)
Definition acquire_cons : M cons unit :=
  held <- gets cons_lock;; if held then panic "acquire" else modify (set_lock true).
Definition release_cons : M cons unit :=
  held <- gets cons_lock;; if held then modify (set_lock false) else panic "release".

(** The lock of the inode: [iunlock] panics without it. *)
Definition iunlock_ip : M cons unit :=
  held <- gets ip_lock;; if held then modify (set_ip false) else panic "iunlock".
Definition ilock_ip : M cons unit := modify (set_ip true).

(** ** uart.c *)

Definition COM1 : Z := 0x3f8.

(** [for(i = 0; i < 128 && !(inb(COM1+5) & 0x20); i++) microdelay(10)]; [microdelay] does nothing. *)
Fixpoint uart_wait (n : nat) : M cons unit :=
  match n with
  | O => ret tt
  | S n => st <- in_b (COM1 + 5);; if Z.land st 0x20 =? 0 then uart_wait n else ret tt
  end.

Definition uartputc (c : Z) : M cons unit :=
  u <- gets uart;;
  if negb u then ret tt
  else
    uart_wait 128;;
    out_b (COM1 + 0) c.

Fixpoint uart_puts (l : list Z) : M cons unit :=
  match l with [] => ret tt | c :: l' => uartputc c;; uart_puts l' end.

Definition uartinit : M cons unit :=
  out_b (COM1 + 2) 0;;
  out_b (COM1 + 3) 0x80;;
  out_b (COM1 + 0) (115200 / 9600);;
  out_b (COM1 + 1) 0;;
  out_b (COM1 + 3) 0x03;;
  out_b (COM1 + 4) 0;;
  out_b (COM1 + 1) 0x01;;
  st <- in_b (COM1 + 5);;
  if st =? 0xFF then ret tt
  else
    modify (set_uart true);;
    _ <- in_b (COM1 + 2);;
    _ <- in_b (COM1 + 0);;
    zoom dev set_dev (ioapicenable IRQ_COM1 0);;
    uart_puts (chars "xv6..." ++ [10]).

Definition uartgetc : M cons Z :=
  u <- gets uart;;
  if negb u then ret (-1)
  else
    st <- in_b (COM1 + 5);;
    if Z.land st 0x01 =? 0 then ret (-1)
    else in_b (COM1 + 0).

(** ** kbd.c *)

Definition kbdgetc : M cons Z :=
  st <- in_b KBSTATP;;
  if Z.land st KBS_DIB =? 0 then ret (-1)
  else
    data <- in_b KBDATAP;;
    shift <- gets kbd_shift;;
    let '(c, shift) := kbd_translate shift data in
    modify (set_shift shift);;
    ret c.

(** ** console.c: output *)

Definition BACKSPACE : Z := 0x100.
Definition CRTPORT : Z := 0x3d4.

(** [crt[i] = v] *)
Definition crt_set (i v : Z) : M cons unit :=
  m <- gets crt;;
  if (0 <=? i) && (i <? Z.of_nat (length m)) then modify (set_crt (<[Z.to_nat i := v]> m)) else fail (EOob "crt").

(** Cursor position: col + 80*row. *)
Definition read_cursor : M cons Z :=
  out_b CRTPORT 14;;
  hi <- in_b (CRTPORT + 1);;
  out_b CRTPORT 15;;
  lo <- in_b (CRTPORT + 1);;
  ret (Z.lor (Z.shiftl hi 8) lo).

Definition write_cursor (pos : Z) : M cons unit :=
  out_b CRTPORT 14;;
  out_b (CRTPORT + 1) (Z.shiftr pos 8);;
  out_b CRTPORT 15;;
  out_b (CRTPORT + 1) pos.

Definition cga_char (c pos : Z) : M cons Z :=
  if c =? 10 then ret (pos + (80 - pos mod 80))
  else if c =? BACKSPACE then ret (if 0 <? pos then pos - 1 else pos)
  else crt_set pos (Z.lor (Z.land c 0xff) 0x0700);; ret (pos + 1).

(** The [memmove] and the [memset], in cells. *)
Definition cga_scroll (pos : Z) : M cons Z :=
  if 24 <=? pos / 80 then
    modify (λ s, set_crt (splice 0 (take (23 * 80) (drop 80 (crt s))) (crt s)) s);;
    let pos := pos - 80 in
    modify (λ s, set_crt (splice (Z.to_nat pos) (replicate (Z.to_nat (24 * 80 - pos)) 0) (crt s)) s);;
    ret pos
  else ret pos.

Definition cgaputc (c : Z) : M cons unit :=
  pos <- read_cursor;;
  pos <- cga_char c pos;;
  if (pos <? 0) || (25 * 80 <? pos) then panic "pos under/overflow"
  else
    pos <- cga_scroll pos;;
    write_cursor pos;;
    crt_set pos (Z.lor 32 0x0700).

(** A CPU that prints after a panic spins forever. *)
Definition consputc (c : Z) : M cons unit :=
  p <- gets panicked;;
  if (p : bool) then fail ESpin
  else
    (if c =? BACKSPACE then uartputc 8;; uartputc 32;; uartputc 8
     else uartputc c);;
    cgaputc c.

Fixpoint consputs (l : list Z) : M cons unit :=
  match l with [] => ret tt | c :: l' => consputc c;; consputs l' end.

Definition kdigits : list Z := chars "0123456789abcdef".

(** The digits, the most significant one first; [n] bytes of [buf] are left. *)
Fixpoint kprintint_loop (n : nat) (x base : Z) (buf : list Z) : option (list Z) :=
  match n with
  | O => None
  | S n' =>
      let buf := kdigits !!! Z.to_nat (x mod base) :: buf in
      let x := x / base in
      if x =? 0 then Some buf else kprintint_loop n' x base buf
  end.

Definition kprintint (xx base : Z) (sign : bool) : M cons unit :=
  let neg := sign && (s32 xx <? 0) in
  let x := if neg then u32 (- xx) else u32 xx in
  match kprintint_loop 16 x base [] with
  | None => fail (EOob "buf")
  | Some buf =>
      if neg then if (16 <=? length buf)%nat then fail (EOob "buf") else consputs (45 :: buf)
      else consputs buf
  end.

(** The words above [fmt] on the stack: an integer or a string. *)
Inductive karg := KInt (v : Z) | KStr (s : option (list Z)).

Fixpoint cprintf_loop (fmt : list Z) (argp : list karg) : M cons unit :=
  match fmt with
  | [] => ret tt
  | c :: fmt =>
      if negb (c =? 37) then consputc c;; cprintf_loop fmt argp
      else
        match fmt with
        | [] => ret tt
        | c :: fmt =>
            if c =? 100 then
              match argp with KInt v :: argp => kprintint v 10 true;; cprintf_loop fmt argp | _ => fail (EOob "argp") end
            else if (c =? 120) || (c =? 112) then
              match argp with KInt v :: argp => kprintint v 16 false;; cprintf_loop fmt argp | _ => fail (EOob "argp") end
            else if c =? 115 then
              match argp with
              | KStr s :: argp => consputs (match s with Some l => l | None => chars "(null)" end);; cprintf_loop fmt argp
              | _ => fail (EOob "argp")
              end
            else if c =? 37 then consputc 37;; cprintf_loop fmt argp
            else consputc 37;; consputc c;; cprintf_loop fmt argp
        end
  end.

Definition cprintf (fmt : list Z) (argp : list karg) : M cons unit :=
  lk <- gets locking;;
  when lk acquire_cons;;
  cprintf_loop fmt argp;;
  when lk release_cons.

Fixpoint print_pcs (pcs : list Z) : M cons unit :=
  match pcs with [] => ret tt | pc :: pcs => cprintf (chars " %p") [KInt pc];; print_pcs pcs end.

(** [panic], up to its endless loop; [pcs] is what [getcallerpcs] found. *)
Definition console_panic (lapicid : Z) (msg : list Z) (pcs : list Z) : M cons unit :=
  modify (set_locking false);;
  cprintf (chars "lapicid %d: panic: ") [KInt lapicid];;
  cprintf msg [];;
  cprintf [10] [];;
  print_pcs pcs;;
  modify (set_panicked true).

(** ** console.c: input *)

Definition in_cell (i : Z) : nat := Z.to_nat (i mod INPUT_BUF).

Definition set_e e (s : cons) := set_input (mk_in (buf (input s)) (in_r (input s)) (in_w (input s)) e) s.

(** [while(input.e != input.w && input.buf[(input.e-1) % INPUT_BUF] != '\n')] *)
Fixpoint kill_line (fuel : nat) : M cons unit :=
  match fuel with
  | O => fail EFuel
  | S fuel =>
      i <- gets input;;
      if negb (in_e i =? in_w i) && negb (s8 (buf i !!! in_cell (u32 (in_e i - 1))) =? 10) then
        modify (set_e (u32 (in_e i - 1)));;
        consputc BACKSPACE;;
        kill_line fuel
      else ret tt
  end.

(** One character; the answer is whether the readers are woken up. *)
Definition console_char (c : Z) : M cons bool :=
  if c =? C 85 then kill_line (S (Z.to_nat INPUT_BUF));; ret false
  else if (c =? C 72) || (c =? 127) then
    i <- gets input;;
    if negb (in_e i =? in_w i) then
      modify (set_e (u32 (in_e i - 1)));;
      consputc BACKSPACE;;
      ret false
    else ret false
  else
    i <- gets input;;
    if negb (c =? 0) && (u32 (in_e i - in_r i) <? INPUT_BUF) then
      let c := if c =? 13 then 10 else c in
      modify (set_input (mk_in (<[in_cell (in_e i) := u8 c]> (buf i)) (in_r i) (in_w i) (u32 (in_e i + 1))));;
      consputc c;;
      i <- gets input;;
      if (c =? 10) || (c =? C 68) || (in_e i =? u32 (in_r i + INPUT_BUF)) then
        modify (set_input (mk_in (buf i) (in_r i) (in_e i) (in_e i)));;
        ret true
      else ret false
    else ret false.

(** [while((c = getc()) >= 0)]; whether to call [procdump], and whether
    [wakeup(&input.r)] was called. *)
Fixpoint consoleintr_loop (fuel : nat) (getc : M cons Z) (doprocdump woken : bool) : M cons (bool * bool) :=
  match fuel with
  | O => fail EFuel
  | S fuel =>
      c <- getc;;
      if 0 <=? c then
        if c =? C 80 then consoleintr_loop fuel getc true woken
        else w <- console_char c;; consoleintr_loop fuel getc doprocdump (woken || w)
      else ret (doprocdump, woken)
  end.

Definition consoleintr (fuel : nat) (getc : M cons Z) : M cons (bool * bool) :=
  acquire_cons;;
  r <- consoleintr_loop fuel getc false false;;
  release_cons;;
  ret r.

Definition kbdintr (fuel : nat) : M cons (bool * bool) := consoleintr fuel kbdgetc.
Definition uartintr (fuel : nat) : M cons (bool * bool) := consoleintr fuel uartgetc.

(** How far [consoleread] gets: it sleeps on [input.r], the process has been
    killed, or it returns. *)
Inductive rstatus := RSleep | RKilled | RDone.

(** The loop with [n] bytes to go; [dst] is what has been copied, the last
    byte first. *)
Fixpoint consoleread_loop (killed : bool) (n : nat) (target : Z) (dst : list Z) : M cons (rstatus * nat * list Z) :=
  match n with
  | O => ret (RDone, O, dst)
  | S n' =>
      i <- gets input;;
      if in_r i =? in_w i then ret (if killed then RKilled else RSleep, n, dst)
      else
        let c := s8 (buf i !!! in_cell (in_r i)) in
        modify (set_input (mk_in (buf i) (u32 (in_r i + 1)) (in_w i) (in_e i)));;
        if c =? C 68 then
          when (Z.of_nat n <? target) (modify (set_input i));;
          ret (RDone, n, dst)
        else if c =? 10 then ret (RDone, n', u8 c :: dst)
        else consoleread_loop killed n' target (u8 c :: dst)
  end.

(** From the first [acquire], or from the return of [sleep], to the next sleep
    or to the end: [n] of the [target] bytes are still to be read. *)
Definition consoleread_run (killed : bool) (target : Z) (n : nat) (dst : list Z) : M cons (rstatus * nat * list Z) :=
  acquire_cons;;
  r <- consoleread_loop killed n target dst;;
  release_cons;;
  match r with (RSleep, _, _) => ret r | _ => ilock_ip;; ret r end.

Definition consoleread (killed : bool) (n : Z) : M cons (rstatus * nat * list Z) :=
  iunlock_ip;;
  consoleread_run killed n (Z.to_nat n) [].

(** The value [consoleread] returns; an argument below 0 is not counted down. *)
Definition consoleread_value (target : Z) (st : rstatus) (n : nat) : Z :=
  match st with RKilled => -1 | _ => target - Z.min target (Z.of_nat n) end.

Definition consolewrite (l : list Z) : M cons Z :=
  iunlock_ip;;
  acquire_cons;;
  consputs ((λ c, Z.land c 0xff) <$> l);;
  release_cons;;
  ilock_ip;;
  ret (Z.of_nat (length l)).

(** The console's entries of [devsw] are [consoleread] and [consolewrite]. *)
Definition consoleinit : M cons unit :=
  modify (set_lock false);;
  modify (set_locking true);;
  zoom dev set_dev (ioapicenable IRQ_KBD 0).
End console.
