(* ===== verification/ConsoleSpec.v ===== *)
(** * The console implements a screen and a line discipline

    The devices behind the console, as their manuals describe them
    ([ConsoleHw]); a screen of 24 rows of 80 cells, which [cgaputc] maintains
    in flat memory; and the line editor that [consoleintr] and [consoleread]
    implement in a ring buffer. *)

From S2P Require Import Prelude Ring Irq Console.

(** ** The devices *)

(** The CRT controller's index register and its cursor registers 14 and 15;
    the serial port's divisor latch bit, the bytes it has sent and the bytes
    it is going to receive; the codes the keyboard is going to deliver. *)
Record hwview := mk_view {
  v_sel : Z;
  v_hi : Z;
  v_lo : Z;
  v_dlab : bool;
  v_out : list Z;
  v_in : list Z;
  v_keys : list Z;
}.

Definition out_ports : list Z := [CRTPORT; CRTPORT + 1; COM1; COM1 + 1; COM1 + 2; COM1 + 3; COM1 + 4].
Definition in_ports : list Z := [CRTPORT + 1; COM1; COM1 + 2; COM1 + 5; KBSTATP; KBDATAP].

Definition view_out (p v : Z) (h : hwview) : hwview :=
  if p =? CRTPORT then mk_view v (v_hi h) (v_lo h) (v_dlab h) (v_out h) (v_in h) (v_keys h)
  else if p =? CRTPORT + 1 then
    mk_view (v_sel h) (if v_sel h =? 14 then v else v_hi h) (if v_sel h =? 15 then v else v_lo h) (v_dlab h) (v_out h) (v_in h) (v_keys h)
  else if p =? COM1 then
    if v_dlab h then h else mk_view (v_sel h) (v_hi h) (v_lo h) (v_dlab h) (v_out h ++ [v]) (v_in h) (v_keys h)
  else if p =? COM1 + 3 then mk_view (v_sel h) (v_hi h) (v_lo h) (Z.testbit v 7) (v_out h) (v_in h) (v_keys h)
  else h.

(** Reading a data port takes a byte, if there is one. *)
Definition view_in (p : Z) (kbd ser : bool) (h : hwview) : hwview :=
  if (p =? KBDATAP) && kbd then mk_view (v_sel h) (v_hi h) (v_lo h) (v_dlab h) (v_out h) (v_in h) (tail (v_keys h))
  else if (p =? COM1) && ser && negb (v_dlab h) then
    mk_view (v_sel h) (v_hi h) (v_lo h) (v_dlab h) (v_out h) (tail (v_in h)) (v_keys h)
  else h.

(** [kbd_ready] and [ser_ready]: a byte has arrived.  Bytes may arrive at any
    time; a byte that has been announced stays until it is read.  [thr_busy]
    is how often the line status has to be read until the serial port's
    transmit holding register is empty; bit 5 of the status says that it is.  A
    byte written to the register when it is empty is sent; about a byte
    written earlier nothing is known.  The port is one that takes the next
    byte before its status has been read 128 times ([hw_thr_fast]), which is
    as long as [uartputc] waits. *)
Class ConsoleHw (D : Type) `{!BytePorts D} := {
  view : D → hwview;
  kbd_ready : D → bool;
  ser_ready : D → bool;
  thr_busy : D → nat;
  hw_out p v d : p ∈ out_ports → is_byte v → (p = COM1 → v_dlab (view d) = true ∨ thr_busy d = O) →
    view (outb p v d) = view_out p v (view d);
  hw_thr d :
    thr_busy (snd (inb (COM1 + 5) d)) = pred (thr_busy d) ∧ (Z.land (fst (inb (COM1 + 5) d)) 0x20 = 0 ↔ thr_busy d ≠ O);
  hw_thr_fast d : (thr_busy d ≤ 128)%nat;
  hw_in p d : p ∈ in_ports → view (snd (inb p d)) = view_in p (kbd_ready d) (ser_ready d) (view d);
  hw_hi d : v_sel (view d) = 14 → fst (inb (CRTPORT + 1) d) = v_hi (view d);
  hw_lo d : v_sel (view d) = 15 → fst (inb (CRTPORT + 1) d) = v_lo (view d);
  hw_kbstat d : Z.land (fst (inb KBSTATP d)) KBS_DIB = Z.b2z (kbd_ready (snd (inb KBSTATP d)));
  hw_kbdata d : kbd_ready d = true → head (v_keys (view d)) = Some (fst (inb KBDATAP d));
  hw_serstat d : Z.land (fst (inb (COM1 + 5) d)) 1 = Z.b2z (ser_ready (snd (inb (COM1 + 5) d)));
  hw_serdata d : ser_ready d = true → v_dlab (view d) = false → head (v_in (view d)) = Some (fst (inb COM1 d));
  hw_bytes d : is_byte (v_hi (view d)) ∧ is_byte (v_lo (view d)) ∧ bytes (v_in (view d)) ∧ bytes (v_keys (view d));
}.

(** ** The screen *)

Record screen := mk_screen { rows : list (list Z); row : Z; col : Z }.

Definition put_cell (v : Z) (sc : screen) : screen :=
  mk_screen (alter (<[Z.to_nat (col sc) := v]>) (Z.to_nat (row sc)) (rows sc)) (row sc) (col sc).

(** The cursor goes to the next row when it leaves the last column. *)
Definition advance (sc : screen) : screen :=
  if col sc =? 79 then mk_screen (rows sc) (row sc + 1) 0 else mk_screen (rows sc) (row sc) (col sc + 1).

Definition step_back (sc : screen) : screen :=
  if 0 <? col sc then mk_screen (rows sc) (row sc) (col sc - 1)
  else if 0 <? row sc then mk_screen (rows sc) (row sc - 1) 79 else sc.

(** The top row is lost when the cursor leaves the last row. *)
Definition scroll (sc : screen) : screen :=
  if row sc =? 24 then mk_screen (tail (rows sc) ++ [replicate 80 0]) 23 (col sc) else sc.

Definition glyph (c : Z) : Z := Z.lor (Z.land c 0xff) 0x0700.

Definition screen_put (c : Z) (sc : screen) : screen :=
  put_cell (glyph 32)
    (scroll (if c =? 10 then mk_screen (rows sc) (row sc + 1) 0
             else if c =? BACKSPACE then step_back sc
             else advance (put_cell (glyph c) sc))).

Record screen_ok (sc : screen) : Prop := {
  so_rows : length (rows sc) = 24%nat;
  so_cols : Forall (λ r, length r = 80%nat) (rows sc);
  so_row : 0 ≤ row sc < 24;
  so_col : 0 ≤ col sc < 80;
}.

(** Rows of 80 cells one after the other. *)
Lemma concat_insert (rs : list (list Z)) r c v :
  Forall (λ r, length r = 80%nat) rs → (c < 80)%nat →
  <[(80 * r + c)%nat := v]> (concat rs) = concat (alter (<[c := v]>) r rs).
Proof.
  revert r. induction rs as [|x rs IH]; intros r Hf Hc; [done|]. inversion_clear Hf as [|? ? Hx Hf'].
  destruct r as [|r]; cbn [concat alter list_alter].
  - rewrite Nat.mul_0_r, Nat.add_0_l. rewrite insert_app_l by lia. done.
  - rewrite insert_app_r_alt by lia. rewrite <-(IH r Hf' Hc). do 2 f_equal. lia.
Qed.

Lemma length_concat80 (rs : list (list Z)) : Forall (λ r, length r = 80%nat) rs → length (concat rs) = (80 * length rs)%nat.
Proof. induction 1 as [|x rs Hx Hf IH]; [done|]. cbn [concat length]. rewrite length_app, IH. lia. Qed.

Lemma alter_cols r c v (rs : list (list Z)) :
  Forall (λ r, length r = 80%nat) rs → Forall (λ r, length r = 80%nat) (alter (<[c := v]>) r rs).
Proof.
  rewrite !Forall_lookup. intros H i x. destruct (decide (i = r)) as [->|Hne].
  - rewrite list_lookup_alter_eq. destruct (rs !! r) as [y|] eqn:E; cbn; intros [= <-]. rewrite length_insert. by apply (H r).
  - rewrite list_lookup_alter_ne by done. apply H.
Qed.

(** ** The line discipline *)

(** The bytes that may be read, and the line that is being edited. *)
Record tty := mk_tty { committed : list Z; editing : list Z }.

Definition room (t : tty) : Z := INPUT_BUF - Z.of_nat (length (committed t ++ editing t)).

(** The effect of a character, what is echoed, and whether there is
    something new to be read. *)
Definition type_char (c : Z) (t : tty) : tty * list Z * bool :=
  if c =? C 85 then (mk_tty (committed t) [], replicate (length (editing t)) BACKSPACE, false)
  else if (c =? C 72) || (c =? 127) then
    match editing t with [] => (t, [], false) | _ => (mk_tty (committed t) (removelast (editing t)), [BACKSPACE], false) end
  else if negb (c =? 0) && (0 <? room t) then
    let c := if c =? 13 then 10 else c in
    if (c =? 10) || (c =? C 68) || (room t =? 1) then (mk_tty (committed t ++ editing t ++ [c]) [], [c], true)
    else (mk_tty (committed t) (editing t ++ [c]), [c], false)
  else (t, [], false).

(** Control-P lists the processes. *)
Definition type_key (c : Z) (t : tty) : tty * list Z * bool * bool :=
  if c =? C 80 then (t, [], true, false) else let '(t, e, w) := type_char c t in (t, e, false, w).

(** The effect of characters, what is echoed, whether the processes are
    listed and whether there is something new to be read. *)
Fixpoint type_keys (cs : list Z) (t : tty) : tty * list Z * bool * bool :=
  match cs with
  | [] => (t, [], false, false)
  | c :: cs =>
      let '(t, e, d, w) := type_key c t in
      let '(t, e', d', w') := type_keys cs t in (t, e ++ e', d || d', w || w')
  end.

(** Reading takes at most a line; Control-D ends a read, and is kept for the
    next one if there is something before it. *)
Fixpoint tty_read (killed : bool) (n : nat) (target : Z) (dst : list Z) (t : tty) : (rstatus * nat * list Z) * tty :=
  match n with
  | O => ((RDone, O, dst), t)
  | S n' =>
      match committed t with
      | [] => ((if killed then RKilled else RSleep, n, dst), t)
      | c :: q =>
          if c =? C 68 then ((RDone, n, dst), if Z.of_nat n <? target then t else mk_tty q (editing t))
          else if c =? 10 then ((RDone, n', c :: dst), mk_tty q (editing t))
          else tty_read killed n' target (c :: dst) (mk_tty q (editing t))
      end
  end.

(** The ring buffer holds the two lists. *)
Definition tty_of (i : inbuf) : tty :=
  mk_tty (window INPUT_BUF (buf i) (in_r i) (Z.to_nat (dist (in_r i) (in_w i))))
         (window INPUT_BUF (buf i) (in_w i) (Z.to_nat (dist (in_w i) (in_e i)))).

Record input_shape (i : inbuf) : Prop := {
  io_len : length (buf i) = Z.to_nat INPUT_BUF;
  io_bytes : bytes (buf i);
  io_r : 0 ≤ in_r i < 2 ^ 32;
  io_w : 0 ≤ in_w i < 2 ^ 32;
  io_e : 0 ≤ in_e i < 2 ^ 32;
  io_size : dist (in_r i) (in_w i) + dist (in_w i) (in_e i) ≤ INPUT_BUF;
}.

(** A newline is never edited. *)
Definition input_ok (i : inbuf) : Prop := input_shape i ∧ Forall (λ c, c ≠ 10) (editing (tty_of i)).

Lemma input_ring : 0 < INPUT_BUF ∧ (INPUT_BUF | 2 ^ 32).
Proof. split; [done|]. by exists (2 ^ 25). Qed.

Lemma tty_whole i : input_ok i →
  committed (tty_of i) ++ editing (tty_of i) = window INPUT_BUF (buf i) (in_r i) (Z.to_nat (dist (in_r i) (in_e i))) ∧
  dist (in_r i) (in_e i) = dist (in_r i) (in_w i) + dist (in_w i) (in_e i).
Proof.
  intros [[_ _ _ Hw _ Hs] _]. pose proof (dist_range (in_r i) (in_w i)). pose proof (dist_range (in_w i) (in_e i)). destruct input_ring as [_ Hdiv].
  assert (dist (in_r i) (in_e i) = dist (in_r i) (in_w i) + dist (in_w i) (in_e i)) as E by (apply dist_add; unfold INPUT_BUF in *; lia).
  split; [|done]. rewrite E, Z2Nat.inj_add by lia. rewrite window_app by done. unfold tty_of. cbn [committed editing].
  rewrite Z2Nat.id, u32_dist by (done || lia). done.
Qed.

Lemma tty_lengths i : Z.of_nat (length (committed (tty_of i))) = dist (in_r i) (in_w i) ∧ Z.of_nat (length (editing (tty_of i))) = dist (in_w i) (in_e i).
Proof.
  unfold tty_of. cbn. rewrite !length_window. pose proof (dist_range (in_r i) (in_w i)). pose proof (dist_range (in_w i) (in_e i)). lia.
Qed.

Lemma tty_room i : input_ok i → room (tty_of i) = INPUT_BUF - dist (in_r i) (in_e i).
Proof.
  intros Hi. unfold room. rewrite length_app. destruct (tty_lengths i). destruct (tty_whole i Hi) as [_ E]. lia.
Qed.

Lemma buf_byte i k : input_ok i → is_byte (buf i !!! cell INPUT_BUF k).
Proof.
  intros [[Hl Hb _ _ _ _] _]. destruct input_ring as [Hpos _]. pose proof (cell_lt INPUT_BUF Hpos k) as Hk. rewrite <-Hl in Hk.
  apply lookup_lt_is_Some in Hk as [x Hx]. rewrite (list_lookup_total_correct _ _ _ Hx). rewrite Forall_lookup in Hb. by apply (Hb _ _ Hx).
Qed.

(** The three ways the input buffer changes, and reading. *)
Definition in_store (c : Z) (i : inbuf) : inbuf := mk_in (<[in_cell (in_e i) := c]> (buf i)) (in_r i) (in_w i) (u32 (in_e i + 1)).
Definition in_erase (i : inbuf) : inbuf := mk_in (buf i) (in_r i) (in_w i) (u32 (in_e i - 1)).
Definition in_commit (i : inbuf) : inbuf := mk_in (buf i) (in_r i) (in_e i) (in_e i).
Definition in_take (i : inbuf) : inbuf := mk_in (buf i) (u32 (in_r i + 1)) (in_w i) (in_e i).

Lemma in_store_ok c i : input_ok i → dist (in_r i) (in_e i) < INPUT_BUF → is_byte c →
  committed (tty_of (in_store c i)) = committed (tty_of i) ∧ editing (tty_of (in_store c i)) = editing (tty_of i) ++ [c] ∧
  input_shape (in_store c i) ∧ dist (in_r i) (in_e (in_store c i)) = dist (in_r i) (in_e i) + 1.
Proof.
  intros Hi Hlt Hc. pose proof Hi as [[Hl Hb Hr Hw He Hs] Hn]. destruct (tty_whole i Hi) as [Ewh Edist]. destruct input_ring as [Hpos Hdiv].
  pose proof (dist_range (in_r i) (in_w i)). pose proof (dist_range (in_w i) (in_e i)). unfold INPUT_BUF in Hs, Hlt.
  assert (dist (in_w i) (u32 (in_e i + 1)) = dist (in_w i) (in_e i) + 1) as E1 by (apply dist_move; lia).
  assert (dist (in_r i) (u32 (in_e i + 1)) = dist (in_r i) (in_e i) + 1) as E2 by (apply dist_move; lia).
  assert (committed (tty_of (in_store c i)) ++ editing (tty_of (in_store c i)) = (committed (tty_of i) ++ editing (tty_of i)) ++ [c]) as Eall.
  { rewrite Ewh. transitivity (window INPUT_BUF (buf (in_store c i)) (in_r i) (S (Z.to_nat (dist (in_r i) (in_e i))))).
    - unfold tty_of. cbn [committed editing in_store buf in_r in_w in_e]. rewrite E1.
      replace (S (Z.to_nat (dist (in_r i) (in_e i)))) with (Z.to_nat (dist (in_r i) (in_w i)) + Z.to_nat (dist (in_w i) (in_e i) + 1))%nat by lia.
      rewrite window_app by done. rewrite Z2Nat.id, u32_dist by (done || lia). done.
    - cbn [in_store buf]. change in_cell with (cell INPUT_BUF). rewrite (cell_dist INPUT_BUF Hdiv (in_r i) (in_e i)).
      rewrite <-(Z2Nat.id (dist (in_r i) (in_e i))) at 1 by lia. apply window_snoc; [done|done|unfold INPUT_BUF; lia]. }
  rewrite <-app_assoc in Eall. apply app_inj_1 in Eall as [Ec Ee]; [|unfold tty_of; cbn; by rewrite !length_window]. split_and!; try done.
  split; try done; cbn [in_store buf in_r in_w in_e]; unfold INPUT_BUF in *; try lia.
  - by rewrite length_insert.
  - by apply Forall_insert.
  - apply u32_range.
Qed.

Lemma in_erase_ok i : input_ok i → in_e i ≠ in_w i →
  committed (tty_of (in_erase i)) = committed (tty_of i) ∧ (∃ x, editing (tty_of i) = editing (tty_of (in_erase i)) ++ [x] ∧ x = buf i !!! in_cell (u32 (in_e i - 1))) ∧
  input_ok (in_erase i).
Proof.
  intros Hi Hne. pose proof Hi as [[Hl Hb Hr Hw He Hs] Hn]. destruct input_ring as [Hpos Hdiv]. pose proof (dist_range (in_w i) (in_e i)).
  assert (dist (in_w i) (in_e i) ≠ 0) as H0 by (intros E; apply (dist_zero (in_w i) (in_e i) Hw He) in E; congruence).
  assert (dist (in_w i) (u32 (in_e i - 1)) = dist (in_w i) (in_e i) - 1) as E1 by (apply (dist_move _ _ (-1)); lia).
  assert (editing (tty_of i) = editing (tty_of (in_erase i)) ++ [buf i !!! in_cell (u32 (in_e i - 1))]) as Ee.
  { unfold tty_of. cbn [editing in_erase buf in_w in_e]. rewrite E1.
    replace (Z.to_nat (dist (in_w i) (in_e i))) with (S (Z.to_nat (dist (in_w i) (in_e i) - 1))) by lia. rewrite window_last. do 2 f_equal.
    change in_cell with (cell INPUT_BUF). rewrite (cell_dist INPUT_BUF Hdiv (in_w i) (u32 (in_e i - 1))), E1. do 2 f_equal. lia. }
  split; [done|]. split; [by eexists|]. split; [split; try done; cbn [in_erase buf in_r in_w in_e]; [apply u32_range|lia]|].
  rewrite Ee in Hn. by apply Forall_app in Hn as [Hn _].
Qed.

Lemma in_commit_ok i : input_shape i →
  committed (tty_of (in_commit i)) = committed (tty_of i) ++ editing (tty_of i) ∧ editing (tty_of (in_commit i)) = [] ∧ input_ok (in_commit i).
Proof.
  intros [Hl Hb Hr Hw He Hs]. pose proof (dist_range (in_r i) (in_w i)). pose proof (dist_range (in_w i) (in_e i)). destruct input_ring as [Hpos Hdiv].
  assert (dist (in_r i) (in_e i) = dist (in_r i) (in_w i) + dist (in_w i) (in_e i)) as E by (apply dist_add; unfold INPUT_BUF in *; lia).
  assert (editing (tty_of (in_commit i)) = []) as Ee by (unfold tty_of; cbn; by rewrite dist_self).
  split_and!; try done.
  - unfold tty_of. cbn [committed editing in_commit buf in_r in_w in_e]. rewrite E, Z2Nat.inj_add by lia. rewrite window_app by done.
    rewrite Z2Nat.id, u32_dist by (done || lia). done.
  - split; [split; try done; cbn [in_commit buf in_r in_w in_e]; rewrite dist_self; lia|by rewrite Ee].
Qed.

Lemma in_take_ok i : input_ok i → in_r i ≠ in_w i →
  committed (tty_of i) = buf i !!! in_cell (in_r i) :: committed (tty_of (in_take i)) ∧ editing (tty_of (in_take i)) = editing (tty_of i) ∧ input_ok (in_take i).
Proof.
  intros Hi Hne. pose proof Hi as [[Hl Hb Hr Hw He Hs] Hn]. destruct input_ring as [Hpos Hdiv]. pose proof (dist_range (in_r i) (in_w i)).
  assert (dist (in_r i) (in_w i) ≠ 0) as H0 by (intros E; apply (dist_zero (in_r i) (in_w i) Hr Hw) in E; congruence).
  assert (dist (u32 (in_r i + 1)) (in_w i) = dist (in_r i) (in_w i) - 1) as E1 by (apply dist_skip; lia). split_and!; try done.
  - unfold tty_of. cbn [committed in_take buf in_r in_w]. rewrite E1.
    replace (Z.to_nat (dist (in_r i) (in_w i))) with (S (Z.to_nat (dist (in_r i) (in_w i) - 1))) by lia. by apply window_cons.
  - split; [split; try done; cbn [in_take buf in_r in_w in_e]; [apply u32_range|lia]|done].
Qed.

Lemma in_empty i : input_ok i → in_r i = in_w i ↔ committed (tty_of i) = [].
Proof.
  intros [[_ _ Hr Hw _ _] _]. rewrite <-dist_zero by done. destruct (tty_lengths i) as [<- _]. destruct (committed (tty_of i)); cbn; split; (done || lia).
Qed.

Lemma in_unedited i : input_ok i → in_e i = in_w i ↔ editing (tty_of i) = [].
Proof.
  intros [[_ _ _ Hw He _] _]. destruct (tty_lengths i) as [_ H]. destruct (dist_zero (in_w i) (in_e i) Hw He) as [D1 D2].
  destruct (editing (tty_of i)); cbn in H; split; try done; intros; [symmetry; apply D1; lia|]. exfalso. specialize (D2 ltac:(done)). lia.
Qed.

(** The characters the keyboard driver makes of codes, and its new state. *)
Fixpoint decode (shift : Z) (codes : list Z) : list Z * Z :=
  match codes with
  | [] => ([], shift)
  | data :: codes => let '(c, shift) := kbd_translate shift data in let '(cs, shift) := decode shift codes in (c :: cs, shift)
  end.

Lemma lookup_total_bytes (l : list Z) k : bytes l → is_byte (l !!! k).
Proof.
  intros Hl. rewrite list_lookup_total_alt. destruct (l !! k) as [x|] eqn:E; [|done]. rewrite Forall_lookup in Hl. apply (Hl _ _ E).
Qed.

Lemma charcode_bytes i : bytes (charcode i).
Proof.
  unfold charcode. destruct (i =? 0); [|destruct (i =? 1)]; apply (bool_decide_unpack _); vm_compute; exact I.
Qed.

Lemma kbd_translate_byte shift data : is_byte (fst (kbd_translate shift data)).
Proof.
  unfold kbd_translate. destruct (data =? 224); [done|]. destruct (negb _); [done|]. destruct (if negb _ then _ else _) as [data' shift'].
  cbn [fst]. set (sh := Z.lxor _ _). pose proof (lookup_total_bytes _ (Z.to_nat data') (charcode_bytes (Z.land sh (Z.lor CTL SHIFT)))) as H.
  set (c := charcode _ !!! _) in *. clearbody c. destruct (negb _); [|done].
  destruct ((97 <=? c) && (c <=? 122)) eqn:E1; [lia|]. destruct ((65 <=? c) && (c <=? 90)) eqn:E2; lia.
Qed.

(** ** Typing text *)

(** The position of a character in a table. *)
Definition key_of (c : Z) (table : list Z) : option Z := Z.of_nat <$> (fst <$> list_find (c =.) table).

(** The codes of typing a character: the key goes down and up, with the shift
    key held if need be. *)
Definition keystrokes (c : Z) : list Z :=
  match key_of c normalmap with
  | Some k => [k; k + 0x80]
  | None => match key_of c shiftmap with Some k => [0x2A; k; k + 0x80; 0xAA] | None => [] end
  end.

Definition enter : list Z := [0x1C; 0x9C].

(** No key is held and capitals are not locked. *)
Definition at_rest (shift : Z) : Prop := shift ∈ [0; NUMLOCK; SCROLLLOCK; Z.lor NUMLOCK SCROLLLOCK].

Abbreviation is_text c := (32 ≤ c < 127).

Definition heard (cs : list Z) : list Z := filter (λ c, c ≠ 0) cs.

Lemma keystrokes_decode c shift : is_text c → at_rest shift →
  heard (decode shift (keystrokes c)).1 = [c] ∧ (decode shift (keystrokes c)).2 = shift.
Proof.
  intros Hc Hs.
  assert (forallb (λ sh, forallb (λ k, let c := k + 32 in
    bool_decide (heard (decode sh (keystrokes c)).1 = [c]) && bool_decide ((decode sh (keystrokes c)).2 = sh)) (Z.of_nat <$> seq 0 95))
    [0; NUMLOCK; SCROLLLOCK; Z.lor NUMLOCK SCROLLLOCK] = true) as H by (vm_compute; done).
  rewrite forallb_forall in H. specialize (H shift (proj1 (list_elem_of_In _ _) Hs)). rewrite forallb_forall in H.
  specialize (H (c - 32)). cbv zeta in H. replace (c - 32 + 32) with c in H by lia.
  assert (In (c - 32) (Z.of_nat <$> seq 0 95)) as Hin.
  { apply list_elem_of_In, list_elem_of_fmap. exists (Z.to_nat (c - 32)). split; [lia|]. apply elem_of_seq. lia. }
  specialize (H Hin). apply andb_prop in H as [H1 H2]. by apply bool_decide_eq_true in H1, H2.
Qed.

Lemma enter_decode shift : at_rest shift → heard (decode shift enter).1 = [10] ∧ (decode shift enter).2 = shift.
Proof.
  intros Hs. unfold at_rest in Hs. rewrite !elem_of_cons in Hs. destruct Hs as [->|[->|[->|[->|Hs]]]]; try (split; vm_compute; done).
  by apply elem_of_nil in Hs.
Qed.

Lemma decode_app shift l l' :
  decode shift (l ++ l') = ((decode shift l).1 ++ (decode (decode shift l).2 l').1, (decode (decode shift l).2 l').2).
Proof.
  revert shift. induction l as [|data l IH]; intros shift; cbn [decode app fst snd]; [by destruct (decode shift l')|].
  destruct (kbd_translate shift data) as [c sh]. rewrite IH. destruct (decode sh l) as [cs sh']. cbn. by destruct (decode sh' l').
Qed.

Lemma text_decode text shift : Forall (λ c, is_text c) text → at_rest shift →
  heard (decode shift (flat_map keystrokes text ++ enter)).1 = text ++ [10].
Proof.
  intros Ht Hs. assert (heard (decode shift (flat_map keystrokes text)).1 = text ∧ (decode shift (flat_map keystrokes text)).2 = shift) as [H1 H2].
  { induction Ht as [|c text Hc _ [IH1 IH2]]; [done|]. cbn [flat_map]. rewrite decode_app. cbn [fst snd].
    destruct (keystrokes_decode c shift Hc Hs) as [E1 E2]. rewrite E2. split; [|done]. unfold heard in *. by rewrite filter_app, E1, IH1. }
  rewrite decode_app. cbn [fst]. rewrite H2. unfold heard in *. rewrite filter_app, H1. f_equal. by apply enter_decode.
Qed.

Lemma type_keys_heard cs t : type_keys cs t = type_keys (heard cs) t.
Proof.
  revert t. induction cs as [|c cs IH]; intros t; [done|]. unfold heard in *. rewrite filter_cons. destruct (decide (c ≠ 0)) as [Hc|Hc].
  - cbn [type_keys]. destruct (type_key c t) as [[[t' e] d] w]. by rewrite IH.
  - assert (c = 0) as -> by lia. cbn [type_keys]. change (type_key 0 t) with (t, @nil Z, false, false). cbn iota beta. rewrite IH.
    by destruct (type_keys _ t) as [[[t' e] d] w].
Qed.

Lemma type_keys_app l l' t :
  let '(t1, e1, d1, w1) := type_keys l t in let '(t2, e2, d2, w2) := type_keys l' t1 in
  type_keys (l ++ l') t = (t2, e1 ++ e2, d1 || d2, w1 || w2).
Proof.
  revert t. induction l as [|c l IH]; intros t; cbn [type_keys app]; [by destruct (type_keys l' t) as [[[t2 e2] d2] w2]|].
  destruct (type_key c t) as [[[t0 e0] d0] w0]. specialize (IH t0). destruct (type_keys l t0) as [[[t1 e1] d1] w1].
  destruct (type_keys l' t1) as [[[t2 e2] d2] w2]. rewrite IH. by rewrite app_assoc, !orb_assoc.
Qed.

(** Plain text is added to the line, a newline ends it. *)
Lemma type_text text l : Forall (λ c, is_text c) text → (length l + length text ≤ 127)%nat →
  type_keys (text ++ [10]) (mk_tty [] l) = (mk_tty (l ++ text ++ [10]) [], text ++ [10], false, true).
Proof.
  intros Ht. revert l. induction Ht as [|c text Hc _ IH]; intros l Hl; cbn [app type_keys].
  - unfold type_key, type_char, room. cbn [committed editing app length] in *.
    change (10 =? C 80) with false. change (10 =? C 85) with false. change (10 =? C 72) with false. cbn [orb negb].
    change (10 =? 127) with false. change (10 =? 0) with false. change (10 =? 13) with false. change (10 =? 10) with true. cbn [orb negb andb].
    unfold INPUT_BUF. assert ((0 <? 128 - Z.of_nat (length l)) = true) as -> by lia. done.
  - cbn [length] in Hl. assert (type_key c (mk_tty [] l) = (mk_tty [] (l ++ [c]), [c], false, false)) as ->.
    { unfold type_key, type_char, room, INPUT_BUF. cbn [committed editing app]. change (C 80) with 16. change (C 85) with 21. change (C 72) with 8. change (C 68) with 4.
      assert ((c =? 16) = false) as -> by lia. assert ((c =? 21) = false) as -> by lia. assert ((c =? 8) || (c =? 127) = false) as -> by lia.
      assert (negb (c =? 0) && (0 <? 128 - Z.of_nat (length l)) = true) as -> by lia. assert ((c =? 13) = false) as -> by lia.
      assert ((c =? 10) || (c =? 4) || (128 - Z.of_nat (length l) =? 1) = false) as -> by lia. done. }
    rewrite IH by (rewrite length_app; cbn; lia). cbn. by rewrite <-app_assoc.
Qed.

(** The line is read as it was typed. *)
Lemma read_text killed text target n dst t : Forall (λ c, is_text c) text → (length text < n)%nat → committed t = text ++ [10] →
  tty_read killed n target dst t = ((RDone, (n - length text - 1)%nat, rev (text ++ [10]) ++ dst), mk_tty [] (editing t)).
Proof.
  intros Ht. revert n dst t. induction Ht as [|c text Hc _ IH]; intros [|n] dst t Hn Hcm; cbn [length] in Hn; try lia; cbn [tty_read]; rewrite Hcm; cbn [app].
  - change (10 =? C 68) with false. change (10 =? 10) with true. cbn. by rewrite !Nat.sub_0_r.
  - change (C 68) with 4. assert ((c =? 4) = false) as -> by lia. assert ((c =? 10) = false) as -> by lia.
    rewrite IH by (done || lia). cbn [length rev editing]. rewrite <-!app_assoc. done.
Qed.

Section spec.
Context {D : Type} `{!BytePorts D} `{!Mmio D} `{!ConsoleHw D}.
Abbreviation cons := (cons D).

(** Only the devices move. *)
Definition moved (s s' : cons) (v : hwview) : Prop := ∃ d, s' = set_dev d s ∧ view d = v.

Lemma out_b_run p v s : p ∈ out_ports → (p = COM1 → v_dlab (view (dev s)) = true ∨ thr_busy (dev s) = O) →
  ∃ s', out_b p v s = Done (tt, s') ∧ moved s s' (view_out p (u8 v) (view (dev s))).
Proof. intros Hp Hc. eexists. split; [done|]. eexists. split; [done|]. apply hw_out; [done|apply u8_range|done]. Qed.

Lemma in_b_run p s : p ∈ in_ports →
  ∃ s', in_b p s = Done (fst (inb p (dev s)), s') ∧ dev s' = snd (inb p (dev s)) ∧
    moved s s' (view_in p (kbd_ready (dev s)) (ser_ready (dev s)) (view (dev s))).
Proof.
  intros Hp. unfold in_b. pose proof (hw_in p (dev s) Hp) as H. destruct (inb p (dev s)) as [v d]. eexists. split; [done|]. split; [done|].
  by exists d.
Qed.

Lemma moved_trans s1 s2 s3 v v' : moved s1 s2 v → moved s2 s3 v' → moved s1 s3 v'.
Proof. intros (d1 & -> & _) (d2 & -> & Hv). by exists d2. Qed.

Lemma moved_view s s' v : moved s s' v → view (dev s') = v.
Proof. by intros (d & -> & ?). Qed.

(** The cursor, as the registers have it. *)
Definition cursor (h : hwview) : Z := v_hi h * 256 + v_lo h.
Definition set_cursor (pos : Z) (h : hwview) : hwview :=
  mk_view 15 (u8 (Z.shiftr pos 8)) (u8 pos) (v_dlab h) (v_out h) (v_in h) (v_keys h).

Lemma view_in_crt k r h : view_in (CRTPORT + 1) k r h = h.
Proof. done. Qed.

Lemma read_cursor_run s : ∃ s' v, read_cursor s = Done (cursor (view (dev s)), s') ∧ moved s s' v ∧
  v = mk_view 15 (v_hi (view (dev s))) (v_lo (view (dev s))) (v_dlab (view (dev s))) (v_out (view (dev s))) (v_in (view (dev s))) (v_keys (view (dev s))).
Proof.
  destruct (hw_bytes (dev s)) as (Hhi & Hlo & _). unfold read_cursor.
  destruct (out_b_run CRTPORT 14 s) as (s1 & E1 & M1); [by vm_compute; set_solver|done|].
  destruct (in_b_run (CRTPORT + 1) s1) as (s2 & E2 & D2 & M2); [by vm_compute; set_solver|].
  destruct (out_b_run CRTPORT 15 s2) as (s3 & E3 & M3); [by vm_compute; set_solver|done|].
  destruct (in_b_run (CRTPORT + 1) s3) as (s4 & E4 & D4 & M4); [by vm_compute; set_solver|].
  pose proof (moved_view _ _ _ M1) as V1. pose proof (moved_view _ _ _ M2) as V2. pose proof (moved_view _ _ _ M3) as V3. pose proof (moved_view _ _ _ M4) as V4.
  rewrite view_in_crt in *. rewrite hw_hi in E2 by (by rewrite V1). rewrite hw_lo in E4 by (by rewrite V3). rewrite V3, V2, V1 in E4, M4. rewrite V1 in E2.
  exists s4. eexists. split; [|split; [|reflexivity]].
  - rewrite (bind_run _ _ _ _ _ E1), (bind_run _ _ _ _ _ E2), (bind_run _ _ _ _ _ E3), (bind_run _ _ _ _ _ E4). unfold ret, cursor. do 2 f_equal.
    cbn. rewrite Z.lor_comm, Z_lor_shiftl_add by lia. lia.
  - eapply moved_trans; [exact M1|]. eapply moved_trans; [exact M2|]. eapply moved_trans; [exact M3|exact M4].
Qed.

Lemma write_cursor_run pos s : ∃ s', write_cursor pos s = Done (tt, s') ∧ moved s s' (set_cursor pos (view (dev s))).
Proof.
  unfold write_cursor.
  destruct (out_b_run CRTPORT 14 s) as (s1 & E1 & M1); [by vm_compute; set_solver|done|].
  destruct (out_b_run (CRTPORT + 1) (Z.shiftr pos 8) s1) as (s2 & E2 & M2); [by vm_compute; set_solver|done|].
  destruct (out_b_run CRTPORT 15 s2) as (s3 & E3 & M3); [by vm_compute; set_solver|done|].
  destruct (out_b_run (CRTPORT + 1) pos s3) as (s4 & E4 & M4); [by vm_compute; set_solver|done|].
  pose proof (moved_view _ _ _ M1) as V1. pose proof (moved_view _ _ _ M2) as V2. pose proof (moved_view _ _ _ M3) as V3.
  exists s4. split; [unfold bind; by rewrite E1, E2, E3, E4|]. rewrite V3, V2, V1 in M4.
  eapply moved_trans; [exact M1|]. eapply moved_trans; [exact M2|]. eapply moved_trans; [exact M3|exact M4].
Qed.

(** ** cgaputc *)

Definition position (sc : screen) : Z := 80 * row sc + col sc.

(** The memory holds the rows, and something after them. *)
Definition flat (sc : screen) (m : list Z) : Prop :=
  length (rows sc) = 24%nat ∧ Forall (λ r, length r = 80%nat) (rows sc) ∧ ∃ rest, m = concat (rows sc) ++ rest.

Lemma flat_length sc m : flat sc m → (1920 ≤ length m)%nat.
Proof. intros (Hr & Hc & rest & ->). rewrite length_app, length_concat80, Hr by done. lia. Qed.

Lemma flat_put v sc m : flat sc m → 0 ≤ row sc < 24 → 0 ≤ col sc < 80 → flat (put_cell v sc) (<[Z.to_nat (position sc) := v]> m).
Proof.
  intros (Hr & Hc & rest & ->) Hrow Hcol. unfold put_cell, position. split_and!; cbn [rows].
  - by rewrite length_alter.
  - by apply alter_cols.
  - exists rest. replace (Z.to_nat (80 * row sc + col sc)) with (80 * Z.to_nat (row sc) + Z.to_nat (col sc))%nat by lia.
    rewrite insert_app_l by (rewrite length_concat80, Hr by done; lia). by rewrite concat_insert by (done || lia).
Qed.

Lemma flat_scroll sc m : flat sc m → row sc = 24 →
  flat (scroll sc) (let m1 := splice 0 (take (23 * 80) (drop 80 m)) m in splice 1840 (replicate 80 0) m1).
Proof.
  intros (Hr & Hc & rest & ->) Hrow. unfold scroll. rewrite Hrow. cbn [Z.eqb Pos.eqb]. destruct (rows sc) as [|r rs]; [done|]. cbn [tail].
  inversion_clear Hc as [|? ? Hr0 Hrs]. cbn in Hr. pose proof (length_concat80 rs Hrs) as Hl. unfold flat. cbn [rows]. split_and!.
  - rewrite length_app. cbn. lia.
  - apply Forall_app. split; [done|]. by constructor; [apply length_replicate|constructor].
  - exists rest. cbn [concat]. rewrite <-app_assoc, drop_app_length' by done. rewrite take_app_length' by lia. cbv zeta. unfold splice.
    rewrite Nat.add_0_l, take_0. cbn [app]. rewrite (take_app_length' (concat rs)) by lia.
    rewrite concat_app. cbn [concat]. rewrite app_nil_r, <-app_assoc, length_replicate. do 2 f_equal.
    rewrite Hl, drop_app, (drop_ge (concat rs)) by lia. cbn [app]. rewrite drop_drop, Hl.
    rewrite app_assoc, drop_app_length' by (rewrite length_app; lia). done.
Qed.

(** The part of the devices the screen does not use. *)
Definition same_io (v v' : hwview) : Prop :=
  v_dlab v' = v_dlab v ∧ v_out v' = v_out v ∧ v_in v' = v_in v ∧ v_keys v' = v_keys v.

Lemma set_crt_id (s : cons) : set_crt (crt s) s = s.
Proof. by destruct s. Qed.

Lemma cga_char_run c (s : cons) sc :
  flat sc (crt s) → 0 ≤ row sc < 24 → 0 ≤ col sc < 80 →
  ∃ m sc', cga_char c (position sc) s = Done (position sc', set_crt m s) ∧ flat sc' m ∧
    sc' = (if c =? 10 then mk_screen (rows sc) (row sc + 1) 0 else if c =? BACKSPACE then step_back sc else advance (put_cell (glyph c) sc)) ∧
    0 ≤ row sc' ≤ 24 ∧ 0 ≤ col sc' < 80 ∧ (row sc' = 24 → col sc' = 0).
Proof.
  intros Hf Hr Hc. unfold cga_char. destruct (Z.eqb_spec c 10) as [_|H10]; [|destruct (Z.eqb_spec c BACKSPACE) as [_|Hb]].
  - exists (crt s), (mk_screen (rows sc) (row sc + 1) 0). split_and!; cbn; try done; try lia.
    unfold ret, position. cbn [row col]. rewrite set_crt_id. do 2 f_equal.
    replace ((80 * row sc + col sc) mod 80) with (col sc); [lia|]. rewrite Z.add_comm, Z.mul_comm, Z.mod_add by lia. by rewrite Z.mod_small.
  - exists (crt s), (step_back sc). unfold ret. rewrite set_crt_id. unfold step_back, position. split; [|split; [|split; [done|]]].
    + do 2 f_equal. destruct (Z.ltb_spec 0 (80 * row sc + col sc)), (Z.ltb_spec 0 (col sc)), (Z.ltb_spec 0 (row sc)); cbn; lia.
    + by destruct (0 <? col sc), (0 <? row sc).
    + destruct (Z.ltb_spec 0 (col sc)), (Z.ltb_spec 0 (row sc)); cbn; lia.
  - exists (<[Z.to_nat (position sc) := glyph c]> (crt s)), (advance (put_cell (glyph c) sc)). split; [|split; [|split; [done|]]].
    + unfold crt_set, bind, gets, modify, ret. pose proof (flat_length _ _ Hf) as Hl.
      assert ((0 <=? position sc) && (position sc <? Z.of_nat (length (crt s))) = true) as -> by (unfold position; lia).
      do 2 f_equal. unfold advance, put_cell, position. cbn [col row]. destruct (Z.eqb_spec (col sc) 79) as [E|E]; cbn; lia.
    + unfold advance. destruct (_ =? 79); apply (flat_put _ _ _ Hf); done.
    + unfold advance, put_cell. cbn [col row]. destruct (Z.eqb_spec (col sc) 79) as [E|E]; cbn; lia.
Qed.

Lemma cga_scroll_run (s : cons) sc :
  flat sc (crt s) → 0 ≤ row sc ≤ 24 → 0 ≤ col sc < 80 → (row sc = 24 → col sc = 0) →
  ∃ m, cga_scroll (position sc) s = Done (position (scroll sc), set_crt m s) ∧ flat (scroll sc) m ∧ screen_ok (scroll sc).
Proof.
  intros Hf Hr Hc H24. pose proof Hf as (Hrows & Hcols & _). unfold cga_scroll.
  assert (position sc / 80 = row sc) as ->.
  { unfold position. rewrite Z.add_comm, Z.mul_comm, Z.div_add, Z.div_small by lia. lia. }
  destruct (Z.leb_spec 24 (row sc)) as [H|H].
  - assert (row sc = 24) as E by lia. pose proof (flat_scroll sc (crt s) Hf E) as Hs. specialize (H24 E). cbv zeta in Hs.
    eexists. split; [|split; [exact Hs|]].
    + assert (position sc = 1920) as -> by (unfold position; lia). unfold bind, modify, ret. cbn [crt set_crt].
      unfold scroll. rewrite E. cbn [Z.eqb Pos.eqb]. unfold position. cbn [row col]. rewrite H24. done.
    + destruct Hs as (Hs1 & Hs2 & _). split; try done; unfold scroll; rewrite E; cbn; lia.
  - exists (crt s). unfold scroll. assert ((row sc =? 24) = false) as -> by lia. rewrite set_crt_id. split; [done|]. split; [done|]. split; try done; lia.
Qed.

Definition shows (s : cons) (sc : screen) : Prop :=
  screen_ok sc ∧ flat sc (crt s) ∧ cursor (view (dev s)) = position sc.

Lemma cursor_set pos h : 0 ≤ pos < 65536 → cursor (set_cursor pos h) = pos.
Proof.
  intros H. unfold cursor, set_cursor, u8. cbn. rewrite Z.shiftr_div_pow2 by lia. change (2 ^ 8) with 256.
  pose proof (Z.div_mod pos 256 ltac:(lia)). rewrite (Z.mod_small (pos / 256)); [lia|].
  split; [apply Z.div_pos; lia|apply Z.div_lt_upper_bound; lia].
Qed.

Lemma cgaputc_run c (s : cons) sc : shows s sc →
  ∃ m d, cgaputc c s = Done (tt, set_crt m (set_dev d s)) ∧ shows (set_crt m (set_dev d s)) (screen_put c sc) ∧ same_io (view (dev s)) (view d).
Proof.
  intros ([Hr Hc Hrow Hcol] & Hf & Hcur). unfold cgaputc. destruct (read_cursor_run s) as (s1 & v1 & E1 & (d1 & -> & Ev1) & Hv1).
  rewrite (bind_run _ _ _ _ _ E1), Hcur.
  destruct (cga_char_run c (set_dev d1 s) sc) as (m2 & sc2 & E2 & Hf2 & Hsc2 & Hrow2 & Hcol2 & H24); [done|done|done|].
  rewrite (bind_run _ _ _ _ _ E2). assert ((position sc2 <? 0) || (25 * 80 <? position sc2) = false) as -> by (unfold position; lia).
  destruct (cga_scroll_run (set_crt m2 (set_dev d1 s)) sc2) as (m3 & E3 & Hf3 & Hok3); [done|done|done|done|].
  rewrite (bind_run _ _ _ _ _ E3). pose proof Hok3 as [_ _ Hrow3 Hcol3].
  destruct (write_cursor_run (position (scroll sc2)) (set_crt m3 (set_crt m2 (set_dev d1 s)))) as (s4 & E4 & (d4 & -> & Ev4)).
  rewrite (bind_run _ _ _ _ _ E4). unfold crt_set, bind, gets, modify. cbn [crt set_crt set_dev].
  pose proof (flat_length _ _ Hf3) as Hl. assert ((0 <=? position (scroll sc2)) && (position (scroll sc2) <? Z.of_nat (length m3)) = true) as -> by (unfold position; lia).
  exists (<[Z.to_nat (position (scroll sc2)) := Z.lor 32 1792]> m3), d4. split; [done|]. split.
  - unfold screen_put. rewrite <-Hsc2. pose proof (flat_put (glyph 32) _ _ Hf3 Hrow3 Hcol3) as Hf4. split; [|split; [done|]].
    + destruct Hf4 as (H1 & H2 & _). split; done.
    + cbn [dev set_crt set_dev]. rewrite Ev4, cursor_set; [done|]. unfold position. lia.
  - rewrite Ev4. cbn [dev set_crt set_dev]. rewrite Ev1, Hv1. done.
Qed.

(** ** The serial port *)

Definition add_out (l : list Z) (h : hwview) : hwview :=
  mk_view (v_sel h) (v_hi h) (v_lo h) (v_dlab h) (v_out h ++ l) (v_in h) (v_keys h).

Lemma uart_wait_run n (s : cons) : (thr_busy (dev s) ≤ n)%nat →
  ∃ s', uart_wait n s = Done (tt, s') ∧ moved s s' (view (dev s)) ∧ thr_busy (dev s') = O.
Proof.
  revert s. induction n as [|n IH]; intros s Hn; [exists s; split; [done|]; split; [by exists (dev s); destruct s|lia]|].
  cbn [uart_wait]. destruct (in_b_run (COM1 + 5) s) as (s1 & E1 & Ed & M1); [by vm_compute; set_solver|]. rewrite (bind_run _ _ _ _ _ E1).
  change (view_in (COM1 + 5) (kbd_ready (dev s)) (ser_ready (dev s)) (view (dev s))) with (view (dev s)) in M1.
  destruct (hw_thr (dev s)) as [T1 T2]. rewrite <-Ed in T1.
  destruct (Z.eqb_spec (Z.land (fst (inb (COM1 + 5) (dev s))) 32) 0) as [Ez|Ez].
  - destruct (IH s1) as (s2 & E2 & M2 & B2); [lia|]. rewrite (moved_view _ _ _ M1) in M2. exists s2. split; [done|].
    split; [by eapply moved_trans|done].
  - exists s1. split; [done|]. split; [done|]. destruct (decide (thr_busy (dev s) = O)) as [H0|H0]; [lia|by apply T2 in H0].
Qed.

Lemma uartputc_run c (s : cons) : v_dlab (view (dev s)) = false →
  ∃ s', uartputc c s = Done (tt, s') ∧ moved s s' (add_out (if uart s then [u8 c] else []) (view (dev s))).
Proof.
  intros Hd. unfold uartputc. unfold bind at 1, gets at 1. destruct (uart s) eqn:Hu; cbn [negb].
  - destruct (uart_wait_run 128 s (hw_thr_fast _)) as (s1 & E1 & M1 & B1). rewrite (bind_run _ _ _ _ _ E1).
    destruct (out_b_run (COM1 + 0) c s1) as (s2 & E2 & M2); [by vm_compute; set_solver|by right|]. exists s2. split; [done|].
    rewrite (moved_view _ _ _ M1) in M2. unfold view_out in M2. change (COM1 + 0 =? CRTPORT) with false in M2.
    change (COM1 + 0 =? CRTPORT + 1) with false in M2. change (COM1 + 0 =? COM1) with true in M2. cbn iota in M2. rewrite Hd in M2.
    eapply moved_trans; [exact M1|]. destruct M2 as (d & -> & Hv). exists d. split; [done|]. rewrite Hv. unfold add_out. by rewrite Hd.
  - exists s. split; [done|]. exists (dev s). split; [by destruct s|]. unfold add_out. rewrite app_nil_r. by destruct (view (dev s)).
Qed.

(** ** consputc *)

Definition serial_echo (c : Z) : list Z := if c =? BACKSPACE then [8; 32; 8] else [u8 c].

(** From [s] the characters [l] have been printed. *)
Definition output (s s' : cons) (l : list Z) : Prop :=
  ∃ m d, s' = set_crt m (set_dev d s) ∧ v_dlab (view d) = v_dlab (view (dev s)) ∧
    v_out (view d) = v_out (view (dev s)) ++ (if uart s then flat_map serial_echo l else []) ∧
    v_in (view d) = v_in (view (dev s)) ∧ v_keys (view d) = v_keys (view (dev s)).

(** The console can print. *)
Definition printable (s : cons) (sc : screen) : Prop := panicked s = false ∧ shows s sc ∧ v_dlab (view (dev s)) = false.

Lemma output_refl s : output s s [].
Proof.
  exists (crt s), (dev s). split; [by destruct s|]. split_and!; try done. cbn. destruct (uart s); by rewrite app_nil_r.
Qed.

Lemma output_trans s1 s2 s3 l l' : output s1 s2 l → output s2 s3 l' → output s1 s3 (l ++ l').
Proof.
  intros (m & d & -> & H1 & H2 & H3 & H4) (m' & d' & -> & H5 & H6 & H7 & H8). exists m', d'. split; [done|]. cbn in *.
  split_and!; try congruence. rewrite H6, H2. rewrite <-app_assoc. f_equal. destruct (uart s1); [|done]. by rewrite flat_map_app.
Qed.

Lemma consputc_run c (s : cons) sc : printable s sc →
  ∃ s', consputc c s = Done (tt, s') ∧ output s s' [c] ∧ printable s' (screen_put c sc).
Proof.
  intros (Hp & Hs & Hd). unfold consputc. unfold bind at 1, gets. rewrite Hp.
  enough (∃ s1, (if c =? BACKSPACE then uartputc 8;; uartputc 32;; uartputc 8 else uartputc c) s = Done (tt, s1) ∧
    moved s s1 (add_out (if uart s then serial_echo c else []) (view (dev s)))) as (s1 & E1 & (d1 & -> & Ev1)).
  { rewrite (bind_run _ _ _ _ _ E1). destruct (cgaputc_run c (set_dev d1 s) sc) as (m & d & E2 & Hs2 & I1 & I2 & I3 & I4).
    { destruct Hs as (H1 & H2 & H3). split; [done|]. split; [done|]. cbn [dev set_dev]. by rewrite Ev1. }
    exists (set_crt m (set_dev d s)). split; [done|]. cbn [dev set_dev] in *. rewrite Ev1 in *. cbn in I1, I2, I3, I4. split.
    - exists m, d. split_and!; try done. cbn. destruct (uart s); [|done]. by rewrite app_nil_r.
    - split; [done|]. split; [done|]. cbn. by rewrite I1. }
  unfold serial_echo. destruct (c =? BACKSPACE); [|by apply uartputc_run].
  destruct (uartputc_run 8 s Hd) as (s1 & E1 & (d1 & -> & Ev1)). rewrite (bind_run _ _ _ _ _ E1).
  destruct (uartputc_run 32 (set_dev d1 s)) as (s2 & E2 & (d2 & -> & Ev2)); [cbn; by rewrite Ev1|]. rewrite (bind_run _ _ _ _ _ E2).
  destruct (uartputc_run 8 (set_dev d2 (set_dev d1 s))) as (s3 & E3 & (d3 & -> & Ev3)); [cbn; by rewrite Ev2; cbn; rewrite Ev1|].
  eexists. split; [exact E3|]. exists d3. split; [done|]. rewrite Ev3. cbn [dev set_dev uart]. rewrite Ev2. cbn [dev set_dev uart]. rewrite Ev1.
  unfold add_out. cbn. rewrite <-!app_assoc. by destruct (uart s).
Qed.

Lemma consputs_run l (s : cons) sc : printable s sc →
  ∃ s', consputs l s = Done (tt, s') ∧ output s s' l ∧ printable s' (foldl (λ sc c, screen_put c sc) sc l).
Proof.
  revert s sc. induction l as [|c l IH]; intros s sc Hp; [exists s; by split_and!; [|apply output_refl|]|].
  destruct (consputc_run c s sc Hp) as (s1 & E1 & O1 & P1). destruct (IH s1 _ P1) as (s2 & E2 & O2 & P2). exists s2. split_and!; try done.
  - cbn [consputs]. by rewrite (bind_run _ _ _ _ _ E1).
  - by apply (output_trans _ _ _ [c] l O1 O2).
Qed.

(** ** The sources of characters *)

(** The state that printing and typing do not touch. *)
Definition same_flags (s s' : cons) : Prop :=
  cons_lock s' = cons_lock s ∧ locking s' = locking s ∧ uart s' = uart s ∧ ip_lock s' = ip_lock s.

(** [getc] takes a character from one of the devices, and prints nothing. *)
Definition quiet (s s' : cons) : Prop :=
  same_flags s s' ∧ panicked s' = panicked s ∧ input s' = input s ∧ crt s' = crt s ∧
  v_hi (view (dev s')) = v_hi (view (dev s)) ∧ v_lo (view (dev s')) = v_lo (view (dev s)) ∧
  v_dlab (view (dev s')) = v_dlab (view (dev s)) ∧ v_out (view (dev s')) = v_out (view (dev s)).

Definition keyboard (s : cons) : list Z * Z := (v_keys (view (dev s)), kbd_shift s).
Definition line_in (s : cons) : list Z := v_in (view (dev s)).

Lemma kbdgetc_run (s : cons) : ∃ c s', kbdgetc s = Done (c, s') ∧ quiet s s' ∧ line_in s' = line_in s ∧
  (c = -1 ∧ keyboard s' = keyboard s ∨
   ∃ data q shift, keyboard s = (data :: q, kbd_shift s) ∧ kbd_translate (kbd_shift s) data = (c, shift) ∧ keyboard s' = (q, shift)).
Proof.
  unfold kbdgetc. destruct (in_b_run KBSTATP s) as (s1 & E1 & D1 & (d1 & -> & V1)); [by vm_compute; set_solver|]. rewrite (bind_run _ _ _ _ _ E1).
  change (view_in KBSTATP (kbd_ready (dev s)) (ser_ready (dev s)) (view (dev s))) with (view (dev s)) in V1. cbn [dev set_dev] in D1.
  rewrite (hw_kbstat (dev s)), <-D1. destruct (kbd_ready d1) eqn:Hrdy; cbn [Z.b2z Z.eqb].
  2: { exists (-1), (set_dev d1 s). unfold quiet, same_flags, keyboard, line_in. cbn [dev set_dev]. rewrite V1. split_and!; try done. by left. }
  destruct (in_b_run KBDATAP (set_dev d1 s)) as (s2 & E2 & D2 & (d2 & -> & V2)); [by vm_compute; set_solver|]. rewrite (bind_run _ _ _ _ _ E2).
  cbn [dev set_dev] in *. pose proof (hw_kbdata d1 Hrdy) as Hh. rewrite Hrdy in V2. unfold view_in in V2. change ((KBDATAP =? KBDATAP) && true) with true in V2.
  cbn iota in V2. rewrite V1 in Hh, V2. set (data := fst (inb KBDATAP d1)) in *. unfold bind, gets. cbn [kbd_shift set_dev].
  destruct (kbd_translate (kbd_shift s) data) as [c shift] eqn:Et. exists c. eexists. split; [done|].
  unfold quiet, same_flags, keyboard, line_in. cbn. rewrite V2. cbn. split_and!; try done. right.
  destruct (v_keys (view (dev s))) as [|k q]; [done|]. cbn in Hh. injection Hh as ->. by exists data, q, shift.
Qed.

Lemma uartgetc_run (s : cons) : v_dlab (view (dev s)) = false →
  ∃ c s', uartgetc s = Done (c, s') ∧ quiet s s' ∧ keyboard s' = keyboard s ∧
  (c = -1 ∧ line_in s' = line_in s ∨ line_in s = c :: line_in s').
Proof.
  intros Hd. unfold uartgetc. unfold bind at 1, gets. destruct (uart s) eqn:Hu; cbn [negb].
  2: { exists (-1), s. unfold quiet, same_flags. rewrite Hu. split_and!; try done. by left. }
  destruct (in_b_run (COM1 + 5) s) as (s1 & E1 & D1 & (d1 & -> & V1)); [by vm_compute; set_solver|]. rewrite (bind_run _ _ _ _ _ E1).
  change (view_in (COM1 + 5) (kbd_ready (dev s)) (ser_ready (dev s)) (view (dev s))) with (view (dev s)) in V1. cbn [dev set_dev] in D1.
  rewrite (hw_serstat (dev s)), <-D1. destruct (ser_ready d1) eqn:Hrdy; cbn [Z.b2z Z.eqb].
  2: { exists (-1), (set_dev d1 s). unfold quiet, same_flags, keyboard, line_in. cbn [dev set_dev uart]. rewrite V1. split_and!; try done. by left. }
  destruct (in_b_run (COM1 + 0) (set_dev d1 s)) as (s2 & E2 & D2 & (d2 & -> & V2)); [by vm_compute; set_solver|]. rewrite E2.
  cbn [dev set_dev] in *. pose proof (hw_serdata d1 Hrdy) as Hh. rewrite Hrdy in V2. unfold view_in in V2. change (COM1 + 0 =? KBDATAP) with false in V2.
  change (COM1 + 0 =? COM1) with true in V2. cbn [andb] in V2. rewrite V1 in Hh, V2. rewrite Hd in V2. cbn [negb] in V2. specialize (Hh Hd).
  change (COM1 + 0) with COM1. eexists _, _. split; [done|]. unfold quiet, same_flags, keyboard, line_in. cbn. rewrite V2. cbn. rewrite Hd. split_and!; try done.
  right. destruct (v_in (view (dev s))) as [|k q]; [done|]. cbn in *. by injection Hh as ->.
Qed.

(** ** consoleintr *)

Lemma s8_eqb x k : is_byte x → 0 ≤ k < 128 → (s8 x =? k) = (x =? k).
Proof.
  intros Hx Hk. unfold s8. destruct (decide (x < 128)).
  - rewrite Z.mod_small by lia. f_equal. lia.
  - rewrite <-(Z.mod_add _ (-1)) by lia. rewrite Z.mod_small by lia. lia.
Qed.

(** From [s], with the input buffer changed, the characters [l] have been printed. *)
Definition typed (s s' : cons) (l : list Z) : Prop := output s (set_input (input s) s') l.

Lemma typed_trans s1 s2 s3 l l' : typed s1 s2 l → typed s2 s3 l' → typed s1 s3 (l ++ l').
Proof.
  intros (m & d & E & H1 & H2 & H3 & H4) (m' & d' & E' & H5 & H6 & H7 & H8). exists m', d'.
  destruct s1, s2, s3. unfold set_input, set_crt, set_dev in *. cbn in *. injection E as; injection E' as; subst.
  split_and!; try congruence. rewrite H6, H2. rewrite <-app_assoc. f_equal.
  match goal with |- context [if ?u then _ else _] => destruct u end; [|done]. by rewrite flat_map_app.
Qed.

Lemma typed_input s i : typed s (set_input i s) [].
Proof. unfold typed. replace (set_input _ (set_input i s)) with s by (by destruct s). apply output_refl. Qed.

Lemma typed_output s s' l : output s s' l → typed s s' l ∧ input s' = input s.
Proof. intros (m & d & -> & H). split; [|done]. exists m, d. by split; [destruct s|]. Qed.

Definition show_all (sc : screen) (l : list Z) : screen := foldl (λ sc c, screen_put c sc) sc l.

Lemma show_all_app sc l l' : show_all sc (l ++ l') = show_all (show_all sc l) l'.
Proof. apply foldl_app. Qed.

(** Erasing one character. *)
Lemma erase_run (s : cons) sc : printable s sc → input_ok (input s) → in_e (input s) ≠ in_w (input s) →
  ∃ s', (modify (set_e (u32 (in_e (input s) - 1)));; consputc BACKSPACE) s = Done (tt, s') ∧ input s' = in_erase (input s) ∧
    typed s s' [BACKSPACE] ∧ printable s' (screen_put BACKSPACE sc).
Proof.
  intros Hp Hi Hne. destruct (consputc_run BACKSPACE (set_e (u32 (in_e (input s) - 1)) s) sc Hp) as (s' & E & O & P).
  exists s'. apply typed_output in O as [T Ei]. split_and!; try done. by apply (typed_trans _ _ _ [] [BACKSPACE] (typed_input s _) T).
Qed.

Lemma kill_line_run fuel (s : cons) sc : printable s sc → input_ok (input s) → (length (editing (tty_of (input s))) < fuel)%nat →
  ∃ s', kill_line fuel s = Done (tt, s') ∧ let l := replicate (length (editing (tty_of (input s)))) BACKSPACE in
    typed s s' l ∧ printable s' (show_all sc l) ∧ input_ok (input s') ∧ tty_of (input s') = mk_tty (committed (tty_of (input s))) [].
Proof.
  revert s sc. induction fuel as [|fuel IH]; intros s sc Hp Hi Hf; [lia|]. cbn [kill_line]. unfold bind at 1, gets.
  pose proof (in_unedited _ Hi) as Hun. destruct (Z.eqb_spec (in_e (input s)) (in_w (input s))) as [E|E]; cbn [negb andb].
  - apply Hun in E. rewrite E. exists s. split; [done|]. split; [apply (typed_input s (input s))|by split_and!; [..|rewrite <-E; destruct (tty_of _)]].
  - destruct (in_erase_ok _ Hi E) as (Hc & (x & Ex & ->) & Hi'). pose proof (buf_byte _ (u32 (in_e (input s) - 1)) Hi) as Hx.
    change (cell INPUT_BUF) with in_cell in Hx. rewrite s8_eqb by (done || lia).
    assert (buf (input s) !!! in_cell (u32 (in_e (input s) - 1)) ≠ 10) as H10.
    { destruct Hi as [_ Hn]. rewrite Ex in Hn. apply Forall_app in Hn as [_ Hn]. by inversion Hn. }
    apply Z.eqb_neq in H10. rewrite H10. cbn [negb]. destruct (erase_run s sc Hp Hi E) as (s1 & E1 & Ei & T1 & P1).
    assert ((modify (set_e (u32 (in_e (input s) - 1)));; consputc BACKSPACE;; kill_line fuel) s = kill_line fuel s1) as ->.
    { unfold bind in E1 |- *. destruct (modify _ s) as [[[] s0]|]; [|done]. by rewrite E1. }
    rewrite <-Ei in Hi', Hc, Ex. rewrite Ex in Hf |- *. rewrite length_app in Hf |- *. cbn [length] in Hf |- *.
    destruct (IH s1 _ P1 Hi') as (s2 & E2 & T2 & P2 & I2 & Et); [lia|]. exists s2. split; [done|]. rewrite Nat.add_comm. cbn [Nat.add replicate].
    rewrite Hc in Et. split; [by apply (typed_trans _ _ _ [_] _ T1 T2)|done].
Qed.

(** [s'] is [s] after the effect [(t, echo)] of a typed character. *)
Definition after (s s' : cons) (sc : screen) (t : tty) (echo : list Z) : Prop :=
  typed s s' echo ∧ printable s' (show_all sc echo) ∧ input_ok (input s') ∧ tty_of (input s') = t.

Lemma after_nil s sc : printable s sc → input_ok (input s) → after s s sc (tty_of (input s)) [].
Proof. intros Hp Hi. split_and!; try done. apply (typed_input s (input s)). Qed.

Lemma erase_char_run (s : cons) sc c : printable s sc → input_ok (input s) → (c =? C 85) = false → (c =? C 72) || (c =? 127) = true →
  ∃ s', console_char c s = Done ((type_char c (tty_of (input s))).2, s') ∧
    after s s' sc (type_char c (tty_of (input s))).1.1 (type_char c (tty_of (input s))).1.2.
Proof.
  intros Hp Hi HU HH. unfold console_char, type_char. rewrite HU, HH. unfold bind at 1, gets. pose proof (in_unedited _ Hi) as Hun.
  destruct (Z.eqb_spec (in_e (input s)) (in_w (input s))) as [E|E]; cbn [negb].
  - apply Hun in E. rewrite E. exists s. split; [done|]. by apply after_nil.
  - destruct (in_erase_ok _ Hi E) as (Hc & (x & Ex & _) & Hi'). destruct (erase_run s sc Hp Hi E) as (s1 & E1 & Ei & T1 & P1).
    destruct (editing (tty_of (input s))) as [|y l] eqn:Ee; [by destruct (editing (tty_of (in_erase (input s))))|]. exists s1. split.
    + unfold bind in E1 |- *. destruct (modify _ s) as [[[] s0]|]; [|done]. rewrite E1. done.
    + split; [done|]. split; [done|]. rewrite Ei. split; [done|]. rewrite Ex, removelast_last, <-Hc. by destruct (tty_of (in_erase _)).
Qed.

Lemma tty_eq t a b : committed t = a → editing t = b → t = mk_tty a b.
Proof. by intros <- <-; destruct t. Qed.

Lemma store_char_run (s : cons) sc c :
  printable s sc → input_ok (input s) → is_byte c → (c =? C 85) = false → (c =? C 72) || (c =? 127) = false →
  negb (c =? 0) && (0 <? room (tty_of (input s))) = true →
  ∃ s', console_char c s = Done ((type_char c (tty_of (input s))).2, s') ∧
    after s s' sc (type_char c (tty_of (input s))).1.1 (type_char c (tty_of (input s))).1.2.
Proof.
  intros Hp Hi Hb HU HH Hroom. unfold console_char, type_char. rewrite HU, HH, Hroom. unfold bind at 1, gets.
  rewrite tty_room in Hroom |- * by done. change (u32 (in_e (input s) - in_r (input s))) with (dist (in_r (input s)) (in_e (input s))).
  assert (negb (c =? 0) && (dist (in_r (input s)) (in_e (input s)) <? INPUT_BUF) = true) as -> by lia.
  set (c' := if c =? 13 then 10 else c). assert (is_byte c') as Hb' by (unfold c'; destruct (c =? 13); lia).
  destruct (in_store_ok c' (input s) Hi) as (H1 & H2 & H3 & H4); [lia|done|]. rewrite u8_small by done.
  change (mk_in (<[in_cell (in_e (input s)):=c']> (buf (input s))) (in_r (input s)) (in_w (input s)) (u32 (in_e (input s) + 1))) with (in_store c' (input s)).
  unfold bind at 1, modify at 1. destruct (consputc_run c' (set_input (in_store c' (input s)) s) sc Hp) as (s1 & E1 & O1 & P1).
  rewrite (bind_run _ _ _ _ _ E1). unfold bind at 1, gets. apply typed_output in O1 as [T1 Ei]. cbn [input set_input] in Ei. rewrite Ei.
  pose proof (typed_trans _ _ _ [] [c'] (typed_input s _) T1) as T. cbn [app] in T.
  assert ((in_e (in_store c' (input s)) =? u32 (in_r (in_store c' (input s)) + INPUT_BUF)) = (INPUT_BUF - dist (in_r (input s)) (in_e (input s)) =? 1)) as ->.
  { pose proof (dist_full (in_r (input s)) (in_e (in_store c' (input s))) INPUT_BUF (io_e _ H3) ltac:(done)) as [F1 F2]. cbn [in_r in_store].
    rewrite H4 in F1, F2. apply Bool.eq_iff_eq_true. rewrite !Z.eqb_eq. split; intros Hx; [apply F2 in Hx; lia|apply F1; lia]. }
  destruct ((c' =? 10) || (c' =? C 68) || (INPUT_BUF - dist (in_r (input s)) (in_e (input s)) =? 1)) eqn:Hend.
  - destruct (in_commit_ok _ H3) as (G1 & G2 & G3). eexists. split; [done|]. split.
    + rewrite <-(app_nil_r [c']). apply (typed_trans _ s1 _ _ _ T), typed_input.
    + split; [done|]. split; [done|]. cbn [fst snd input set_input].
      apply tty_eq; [|exact G2]. etransitivity; [exact G1|]. by rewrite H1, H2.
  - exists s1. split; [done|]. split; [done|]. split; [done|]. rewrite Ei. split.
    + split; [done|]. rewrite H2. apply Forall_app. split; [apply Hi|]. constructor; [|done]. intros E10. rewrite E10 in Hend. done.
    + by apply tty_eq.
Qed.

Lemma console_char_run (s : cons) sc c : printable s sc → input_ok (input s) → is_byte c →
  ∃ s', console_char c s = Done ((type_char c (tty_of (input s))).2, s') ∧
    after s s' sc (type_char c (tty_of (input s))).1.1 (type_char c (tty_of (input s))).1.2.
Proof.
  intros Hp Hi Hb. destruct (c =? C 85) eqn:HU; [|destruct ((c =? C 72) || (c =? 127)) eqn:HH; [by apply erase_char_run|
    destruct (negb (c =? 0) && (0 <? room (tty_of (input s)))) eqn:Hroom; [by apply store_char_run|]]].
  - unfold console_char, type_char. rewrite HU. destruct (kill_line_run (S (Z.to_nat INPUT_BUF)) s sc Hp Hi) as (s' & E & T & P & I & Et).
    { destruct (tty_lengths (input s)) as [_ H]. destruct Hi as [[_ _ _ _ _ Hs] _]. pose proof (dist_range (in_r (input s)) (in_w (input s))). lia. }
    exists s'. rewrite (bind_run _ _ _ _ _ E). split; [done|]. by split_and!.
  - unfold console_char, type_char. rewrite HU, HH, Hroom. exists s. split; [|by apply after_nil]. unfold bind at 1, gets.
    rewrite tty_room in Hroom by done. change (u32 (in_e (input s) - in_r (input s))) with (dist (in_r (input s)) (in_e (input s))).
    assert (negb (c =? 0) && (dist (in_r (input s)) (in_e (input s)) <? INPUT_BUF) = false) as -> by lia. done.
Qed.

(** The lasting effect of an interrupt that prints [l]. *)
Definition effect (s s' : cons) (l : list Z) : Prop :=
  same_flags s s' ∧ v_out (view (dev s')) = v_out (view (dev s)) ++ (if uart s then flat_map serial_echo l else []).

Lemma effect_trans s1 s2 s3 l l' : effect s1 s2 l → effect s2 s3 l' → effect s1 s3 (l ++ l').
Proof.
  intros [(A1 & A2 & A3 & A4) H1] [(B1 & B2 & B3 & B4) H2]. split; [unfold same_flags; split_and!; congruence|].
  rewrite H2, H1, A3, <-app_assoc. f_equal. destruct (uart s1); [|done]. by rewrite flat_map_app.
Qed.

Lemma quiet_effect s s' sc : quiet s s' → printable s sc → effect s s' [] ∧ printable s' sc.
Proof.
  intros (F & Hp & _ & Hc & Hh & Hl & Hd & Ho) (P1 & (P2 & P3 & P4) & P5). split.
  - split; [done|]. rewrite Ho. destruct (uart s); by rewrite app_nil_r.
  - unfold printable, shows, cursor in *. rewrite Hp, Hc, Hh, Hl, Hd. done.
Qed.

Lemma typed_effect s s' l : typed s s' l → effect s s' l ∧ keyboard s' = keyboard s ∧ line_in s' = line_in s.
Proof.
  intros (m & d & E & H1 & H2 & H3 & H4). unfold effect, same_flags, keyboard, line_in. destruct s, s'. unfold set_input, set_crt, set_dev in E. cbn in *.
  injection E as; subst. rewrite H3, H4. done.
Qed.

Section source.
(** A source of characters: its state, and the next character. *)
Context {A : Type} (src : cons → A) (pull : A → option (Z * A)) (size : A → nat) (getc : M cons Z).

Inductive pulls : A → list Z → A → Prop :=
  | pulls_nil a : pulls a [] a
  | pulls_cons a c a' cs a'' : pull a = Some (c, a') → pulls a' cs a'' → pulls a (c :: cs) a''.

Context (getc_run : ∀ s, v_dlab (view (dev s)) = false → ∃ c s', getc s = Done (c, s') ∧ quiet s s' ∧
  (c = -1 ∧ src s' = src s ∨ pull (src s) = Some (c, src s') ∧ is_byte c)).
Context (pull_size : ∀ a c a', pull a = Some (c, a') → (size a' < size a)%nat).
Context (src_typed : ∀ s s' l, typed s s' l → src s' = src s).

Lemma type_key_run (s : cons) sc c dump woken :
  printable s sc → input_ok (input s) → is_byte c →
  let '(t, e, d, w) := type_key c (tty_of (input s)) in
  ∃ s', (∀ fuel, (if c =? C 80 then consoleintr_loop fuel getc true woken
                  else w <- console_char c;; consoleintr_loop fuel getc dump (woken || w)) s = consoleintr_loop fuel getc (dump || d) (woken || w) s') ∧
    after s s' sc t e.
Proof.
  intros Hp Hi Hc. unfold type_key. destruct (c =? C 80).
  - exists s. split; [|by apply after_nil]. intros fuel. by rewrite !orb_true_r, orb_false_r.
  - destruct (console_char_run s sc c Hp Hi Hc) as (s' & E & Ha). destruct (type_char c (tty_of (input s))) as [[t e] w]. cbn [fst snd] in *.
    exists s'. split; [|done]. intros fuel. by rewrite (bind_run _ _ _ _ _ E), orb_false_r.
Qed.

Lemma consoleintr_loop_run fuel (s : cons) sc dump woken :
  printable s sc → input_ok (input s) → (size (src s) < fuel)%nat →
  ∃ cs s', pulls (src s) cs (src s') ∧
    let '(t, e, d, w) := type_keys cs (tty_of (input s)) in
    consoleintr_loop fuel getc dump woken s = Done ((dump || d, woken || w), s') ∧
    effect s s' e ∧ printable s' (show_all sc e) ∧ input_ok (input s') ∧ tty_of (input s') = t.
Proof.
  revert s sc dump woken. induction fuel as [|fuel IH]; intros s sc dump woken Hp Hi Hf; [lia|]. cbn [consoleintr_loop].
  destruct (getc_run s) as (c & s1 & E1 & Hq & Hsrc); [apply Hp|]. rewrite (bind_run _ _ _ _ _ E1). destruct (quiet_effect s s1 sc Hq Hp) as [F1 P1].
  assert (input s1 = input s) as Ei by apply Hq. destruct Hsrc as [[-> Es]|[Hpull Hc]].
  - exists [], s1. rewrite Es. split; [constructor|]. cbn [type_keys]. rewrite !orb_false_r, Ei. done.
  - assert ((0 <=? c) = true) as -> by lia. pose proof (type_key_run s1 sc c dump woken P1) as Hk. rewrite Ei in Hk. specialize (Hk Hi Hc).
    destruct (type_key c (tty_of (input s))) as [[[t e] d] w] eqn:Ek. destruct Hk as (s2 & E2 & T2 & P2 & I2 & Et2).
    destruct (IH s2 _ (dump || d) (woken || w) P2 I2) as (cs & s3 & Hpulls & Hrest).
    { rewrite (src_typed _ _ _ T2). apply pull_size in Hpull. lia. }
    exists (c :: cs), s3. split; [econstructor; [exact Hpull|]; by rewrite <-(src_typed _ _ _ T2)|].
    cbn [type_keys]. rewrite Ek. rewrite Et2 in Hrest. destruct (type_keys cs t) as [[[t3 e3] d3] w3]. destruct Hrest as (E3 & F3 & P3 & I3 & Et3).
    rewrite E2, E3, <-!orb_assoc. split_and!; try done.
    + destruct (typed_effect _ _ _ T2) as [F2 _]. pose proof (effect_trans _ _ _ _ _ F1 F2) as F12. cbn [app] in F12. by apply (effect_trans _ _ _ _ _ F12 F3).
    + by rewrite show_all_app.
Qed.

Lemma consoleintr_run fuel (s : cons) sc :
  printable s sc → input_ok (input s) → cons_lock s = false → (size (src s) < fuel)%nat →
  (∀ b s, src (set_lock b s) = src s) →
  ∃ cs s', pulls (src s) cs (src s') ∧
    let '(t, e, d, w) := type_keys cs (tty_of (input s)) in
    consoleintr fuel getc s = Done ((d, w), s') ∧
    effect s s' e ∧ printable s' (show_all sc e) ∧ input_ok (input s') ∧ tty_of (input s') = t.
Proof.
  intros Hp Hi Hl Hf Hsl. destruct (consoleintr_loop_run fuel (set_lock true s) sc false false) as (cs & s1 & H1 & H2); [done|done|by rewrite Hsl|].
  exists cs, (set_lock false s1). rewrite !Hsl in *. split; [done|]. cbn [input set_lock] in H2. destruct (type_keys cs (tty_of (input s))) as [[[t e] d] w].
  destruct H2 as (E & ((F1 & F2 & F3 & F4) & F5) & P & I & Et). cbn [orb cons_lock locking uart ip_lock set_lock dev] in *. split_and!; try done.
  - unfold consoleintr, acquire_cons. unfold bind at 1, bind at 1, gets at 1. rewrite Hl. unfold modify at 1. rewrite (bind_run _ _ _ _ _ E).
    unfold release_cons, bind, gets. rewrite F1. done.
Qed.
End source.

Definition pull_key (a : list Z * Z) : option (Z * (list Z * Z)) :=
  match a with
  | (data :: q, shift) => let '(c, shift) := kbd_translate shift data in Some (c, (q, shift))
  | ([], _) => None
  end.
Definition pull_byte (q : list Z) : option (Z * list Z) := match q with c :: q => Some (c, q) | [] => None end.

Lemma pulls_keys a cs a' : pulls pull_key a cs a' → ∃ codes, fst a = codes ++ fst a' ∧ decode (snd a) codes = (cs, snd a').
Proof.
  induction 1 as [a|a c a' cs a'' Hp _ (codes & E & Ed)]; [by exists []|]. destruct a as [[|data q] shift]; [done|]. cbn in Hp.
  destruct (kbd_translate shift data) as [c' shift'] eqn:Et. injection Hp as -> <-. cbn in E, Ed. exists (data :: codes). cbn.
  split; [by rewrite E|]. by rewrite Et, Ed.
Qed.

Lemma pulls_bytes q cs q' : pulls pull_byte q cs q' → q = cs ++ q'.
Proof. induction 1 as [a|a c a' cs a'' Hp _ IH]; [done|]. destruct a as [|x q]; [done|]. injection Hp as <- <-. cbn. by rewrite IH. Qed.

(** The console between two calls. *)
Definition console_ok (s : cons) (sc : screen) : Prop := printable s sc ∧ input_ok (input s) ∧ cons_lock s = false.

Lemma kbdintr_run fuel (s : cons) sc : console_ok s sc → (length (v_keys (view (dev s))) < fuel)%nat →
  ∃ codes cs s', v_keys (view (dev s)) = codes ++ v_keys (view (dev s')) ∧ decode (kbd_shift s) codes = (cs, kbd_shift s') ∧
    let '(t, e, d, w) := type_keys cs (tty_of (input s)) in
    kbdintr fuel s = Done ((d, w), s') ∧ effect s s' e ∧ console_ok s' (show_all sc e) ∧ tty_of (input s') = t.
Proof.
  intros (Hp & Hi & Hl) Hf. destruct (consoleintr_run keyboard pull_key (λ a, length (fst a)) kbdgetc) with (fuel := fuel) (s := s) (sc := sc) as (cs & s' & Hpulls & Hrest); try done.
  - intros s0 _. destruct (kbdgetc_run s0) as (c & s1 & E1 & Hq & _ & Hc). exists c, s1. split_and!; try done.
    destruct Hc as [|(data & q & shift & E2 & E3 & E4)]; [by left|]. right. rewrite E2, E4. cbn. rewrite E3. split; [done|].
    pose proof (kbd_translate_byte (kbd_shift s0) data) as Hb. by rewrite E3 in Hb.
  - intros [[|data q] shift] c a' H; [done|]. cbn in H. destruct (kbd_translate shift data). injection H as <- <-. cbn. lia.
  - intros s0 s1 l T. by destruct (typed_effect _ _ _ T) as (_ & ? & _).
  - apply pulls_keys in Hpulls as (codes & E1 & E2). exists codes, cs, s'. cbn in E1, E2. split; [done|]. split; [done|].
    destruct (type_keys cs (tty_of (input s))) as [[[t e] d] w]. destruct Hrest as (H1 & H2 & H3 & H4 & H5). split_and!; try done.
    destruct H2 as ((H2 & _) & _). split_and!; try done. congruence.
Qed.

Lemma uartintr_run fuel (s : cons) sc : console_ok s sc → (length (v_in (view (dev s))) < fuel)%nat →
  ∃ cs s', v_in (view (dev s)) = cs ++ v_in (view (dev s')) ∧
    let '(t, e, d, w) := type_keys cs (tty_of (input s)) in
    uartintr fuel s = Done ((d, w), s') ∧ effect s s' e ∧ console_ok s' (show_all sc e) ∧ tty_of (input s') = t.
Proof.
  intros (Hp & Hi & Hl) Hf. destruct (consoleintr_run line_in pull_byte length uartgetc) with (fuel := fuel) (s := s) (sc := sc) as (cs & s' & Hpulls & Hrest); try done.
  - intros s0 Hd. destruct (uartgetc_run s0 Hd) as (c & s1 & E1 & Hq & _ & Hc). exists c, s1. split_and!; try done.
    destruct Hc as [|Hc]; [by left|]. right. rewrite Hc. split; [done|]. destruct (hw_bytes (dev s0)) as (_ & _ & Hb & _).
    unfold line_in in Hc. rewrite Hc in Hb. by inversion Hb.
  - intros [|x q] c a' H; [done|]. injection H as <- <-. cbn. lia.
  - intros s0 s1 l T. by destruct (typed_effect _ _ _ T) as (_ & _ & ?).
  - apply pulls_bytes in Hpulls. exists cs, s'. split; [done|].
    destruct (type_keys cs (tty_of (input s))) as [[[t e] d] w]. destruct Hrest as (H1 & H2 & H3 & H4 & H5). split_and!; try done.
    destruct H2 as ((H2 & _) & _). split_and!; try done. congruence.
Qed.

(** ** consoleread *)

Lemma u8_s8 x : is_byte x → u8 (s8 x) = x.
Proof.
  intros Hx. unfold u8, s8. rewrite Zminus_mod_idemp_l. replace (x + 2 ^ 7 - 2 ^ 7) with x by lia. by apply Z.mod_small.
Qed.

Lemma consoleread_loop_run killed n target dst (s : cons) : input_ok (input s) →
  ∃ i, consoleread_loop killed n target dst s = Done ((tty_read killed n target dst (tty_of (input s))).1, set_input i s) ∧
    input_ok i ∧ tty_of i = (tty_read killed n target dst (tty_of (input s))).2.
Proof.
  revert dst s. induction n as [|n IH]; intros dst s Hi; cbn [consoleread_loop tty_read]; [exists (input s); by split; [destruct s|]|].
  unfold bind at 1, gets. pose proof (in_empty _ Hi) as He. destruct (Z.eqb_spec (in_r (input s)) (in_w (input s))) as [E|E].
  { apply He in E. rewrite E. exists (input s). split; [by destruct s|]. done. }
  destruct (in_take_ok _ Hi E) as (H1 & H2 & H3). pose proof (buf_byte _ (in_r (input s)) Hi) as Hb. change (cell INPUT_BUF) with in_cell in Hb.
  rewrite H1. cbv zeta. set (c := buf (input s) !!! in_cell (in_r (input s))) in *. rewrite u8_s8 by done.
  assert (tty_of (in_take (input s)) = mk_tty (committed (tty_of (in_take (input s)))) (editing (tty_of (input s)))) as Et by (by apply tty_eq).
  change (mk_in (buf (input s)) (u32 (in_r (input s) + 1)) (in_w (input s)) (in_e (input s))) with (in_take (input s)).
  unfold bind at 1, modify at 1. rewrite !s8_eqb by done. destruct (c =? C 68).
  - destruct (Z.of_nat (S n) <? target); [exists (input s)|exists (in_take (input s))]; (split; [reflexivity|]); (split; [assumption|]); [reflexivity|exact Et].
  - destruct (c =? 10); [exists (in_take (input s)); split; [reflexivity|]; split; [assumption|exact Et]|].
    destruct (IH (c :: dst) (set_input (in_take (input s)) s) H3) as (i & E1 & I1 & T1). cbn [input set_input] in E1, T1. rewrite Et in E1, T1.
    exists i. split; [exact E1|]. split; [exact I1|exact T1].
Qed.

Lemma consoleread_run_run killed target n dst (s : cons) sc : console_ok s sc →
  ∃ s', consoleread_run killed target n dst s = Done ((tty_read killed n target dst (tty_of (input s))).1, s') ∧
    console_ok s' sc ∧ tty_of (input s') = (tty_read killed n target dst (tty_of (input s))).2 ∧
    dev s' = dev s ∧ ip_lock s' = match (tty_read killed n target dst (tty_of (input s))).1.1.1 with RSleep => ip_lock s | _ => true end.
Proof.
  intros (Hp & Hi & Hl). unfold consoleread_run, acquire_cons. unfold bind at 1, bind at 1, gets at 1. rewrite Hl. unfold modify at 1.
  destruct (consoleread_loop_run killed n target dst (set_lock true s) Hi) as (i & E & I & T). rewrite (bind_run _ _ _ _ _ E).
  cbn [input set_lock] in *. destruct (tty_read killed n target dst (tty_of (input s))) as [[[st n'] dst'] t]. cbn [fst snd] in *.
  unfold release_cons, bind, gets. cbn [cons_lock set_input set_lock].
  destruct st; eexists; (split; [done|]); split_and!; try done.
Qed.

(** ** The console *)

(** C22: [kbdintr], [uartintr] and [consoleread] implement the line discipline
    [tty]: an interrupt consumes codes (bytes) that have arrived, changes the
    pending input and echoes as [type_keys] says, and wakes the readers up
    exactly when there is something new to be read; a read, until it sleeps or
    ends, takes from the pending input what [tty_read] takes.  The indices of
    the ring buffer may wrap around. *)
Theorem console_line_discipline (s : cons) sc : console_ok s sc →
  (∀ fuel, (length (v_keys (view (dev s))) < fuel)%nat →
     ∃ codes cs s', v_keys (view (dev s)) = codes ++ v_keys (view (dev s')) ∧ decode (kbd_shift s) codes = (cs, kbd_shift s') ∧
       let '(t, e, d, w) := type_keys cs (tty_of (input s)) in
       kbdintr fuel s = Done ((d, w), s') ∧ effect s s' e ∧ console_ok s' (show_all sc e) ∧ tty_of (input s') = t) ∧
  (∀ fuel, (length (v_in (view (dev s))) < fuel)%nat →
     ∃ cs s', v_in (view (dev s)) = cs ++ v_in (view (dev s')) ∧
       let '(t, e, d, w) := type_keys cs (tty_of (input s)) in
       uartintr fuel s = Done ((d, w), s') ∧ effect s s' e ∧ console_ok s' (show_all sc e) ∧ tty_of (input s') = t) ∧
  (∀ killed target n dst, ∃ s', let '(r, t) := tty_read killed n target dst (tty_of (input s)) in
     consoleread_run killed target n dst s = Done (r, s') ∧ console_ok s' sc ∧ tty_of (input s') = t ∧
     ip_lock s' = match r.1.1 with RSleep => ip_lock s | _ => true end).
Proof.
  intros Hok. split; [intros fuel; by apply kbdintr_run|]. split; [intros fuel; by apply uartintr_run|]. intros killed target n dst.
  destruct (consoleread_run_run killed target n dst s sc Hok) as (s' & H). exists s'.
  destruct (tty_read killed n target dst (tty_of (input s))) as [r t]. cbn [fst snd] in H. tauto.
Qed.

(** A number of keyboard interrupts. *)
Fixpoint kbdintrs (k fuel : nat) : M cons unit :=
  match k with O => ret tt | S k => kbdintr fuel;; kbdintrs k fuel end.

Lemma kbdintrs_run k fuel (s s' : cons) sc : console_ok s sc → (length (v_keys (view (dev s))) < fuel)%nat → kbdintrs k fuel s = Done (tt, s') →
  ∃ codes, v_keys (view (dev s)) = codes ++ v_keys (view (dev s')) ∧ (decode (kbd_shift s) codes).2 = kbd_shift s' ∧
    let '(t, e, d, w) := type_keys (decode (kbd_shift s) codes).1 (tty_of (input s)) in
    effect s s' e ∧ console_ok s' (show_all sc e) ∧ tty_of (input s') = t.
Proof.
  revert s sc. induction k as [|k IH]; intros s sc Hok Hf; cbn [kbdintrs].
  { intros [= <-]. exists []. cbn. split_and!; try done. split; [done|]. cbn. destruct (uart s); by rewrite app_nil_r. }
  destruct (kbdintr_run fuel s sc Hok Hf) as (codes & cs & s1 & E1 & E2 & H1). pose proof (type_keys_app cs) as Happ.
  destruct (type_keys cs (tty_of (input s))) as [[[t e] d] w] eqn:Ek. destruct H1 as (Er & F1 & Hok1 & Et). rewrite (bind_run _ _ _ _ _ Er). intros Ek2.
  destruct (IH s1 _ Hok1 ltac:(rewrite E1, length_app in Hf; lia) Ek2) as (codes2 & E3 & E4 & H2).
  exists (codes ++ codes2). rewrite decode_app, E2. cbn [fst snd]. split; [by rewrite E1, E3, app_assoc|]. split; [done|].
  specialize (Happ (decode (kbd_shift s1) codes2).1 (tty_of (input s))). rewrite Ek in Happ. rewrite Et in H2.
  destruct (type_keys (decode (kbd_shift s1) codes2).1 t) as [[[t2 e2] d2] w2]. rewrite Happ. destruct H2 as (F2 & Hok2 & Et2).
  split; [by apply (effect_trans _ s1)|]. by rewrite show_all_app.
Qed.

(** A line of text typed at the keyboard (each key pressed and released,
    with the shift key where it is needed, then Enter) is what [consoleread]
    returns, and what appears on the screen and the serial line, however the
    codes are spread over keyboard interrupts. *)
Theorem typed_line_is_read (s s' : cons) sc k fuel text n :
  console_ok s sc → tty_of (input s) = mk_tty [] [] → at_rest (kbd_shift s) → ip_lock s = true →
  Forall (λ c, is_text c) text → (length text ≤ 127)%nat → Z.of_nat (length text) < n →
  v_keys (view (dev s)) = flat_map keystrokes text ++ enter → (length (v_keys (view (dev s))) < fuel)%nat →
  kbdintrs k fuel s = Done (tt, s') → v_keys (view (dev s')) = [] →
  effect s s' (text ++ [10]) ∧ console_ok s' (show_all sc (text ++ [10])) ∧
  ∃ s'', consoleread false n s' = Done ((RDone, (Z.to_nat n - length text - 1)%nat, rev (text ++ [10])), s'') ∧
    tty_of (input s'') = mk_tty [] [] ∧ ip_lock s'' = true.
Proof.
  intros Hok Ht Hs Hip Htext Hlen Hn Hk Hf Hrun Hempty. destruct (kbdintrs_run k fuel s s' sc Hok Hf Hrun) as (codes & E1 & _ & H).
  rewrite Hempty, app_nil_r, Hk in E1. subst codes. rewrite type_keys_heard, text_decode, Ht in H by done.
  rewrite (type_text text []) in H by (done || cbn; lia). destruct H as (F & Hok' & Et). split; [done|]. split; [done|].
  unfold consoleread, iunlock_ip. assert (ip_lock s' = true) as Hip' by (destruct F as ((_ & _ & _ & F) & _); congruence).
  unfold bind at 1, bind at 1, gets. rewrite Hip'. unfold modify.
  destruct (consoleread_run_run false n (Z.to_nat n) [] (set_ip false s') (show_all sc (text ++ [10])) Hok') as (s'' & Er & _ & Et' & _ & Hip'').
  cbn [input set_ip] in *. rewrite Et in *. rewrite (read_text false text) in Er, Et', Hip'' by (done || lia). rewrite app_nil_r in Er. by exists s''.
Qed.

(** C23: [consolewrite] prints its bytes one after the other: the screen, a
    flat array of cells with a cursor in device registers, shows them as a
    terminal of 24 rows would (with wrapping and scrolling, and a cursor that
    never leaves the screen), and the serial port sends them all, none being
    written before the port can take it, on a port that takes the next byte
    within the 128 tests of its status that [uartputc] makes; it returns the
    number of bytes and leaves both locks as they were. *)
Theorem consolewrite_shows (s : cons) sc l :
  console_ok s sc → ip_lock s = true → bytes l →
  ∃ s', consolewrite l s = Done (Z.of_nat (length l), s') ∧ effect s s' l ∧ console_ok s' (show_all sc l) ∧ input s' = input s.
Proof.
  intros (Hp & Hi & Hl) Hip Hb. assert ((λ c, Z.land c 255) <$> l = l) as El.
  { induction Hb as [|c l Hc _ IH]; [done|]. cbn. rewrite IH. f_equal. change 255 with (Z.ones 8). rewrite Z.land_ones by lia. by apply Z.mod_small. }
  destruct (consputs_run l (set_lock true (set_ip false s)) sc Hp) as (s1 & E1 & O1 & P1). pose proof O1 as (m & d & -> & O2 & O3 & O4 & O5).
  exists (set_ip true (set_lock false (set_crt m (set_dev d s)))). split.
  - unfold consolewrite, iunlock_ip, acquire_cons, release_cons, ilock_ip. rewrite El. unfold bind at 1, bind at 1, gets at 1. rewrite Hip. unfold modify at 1.
    unfold bind at 1, bind at 1, gets at 1. cbn [cons_lock set_ip]. rewrite Hl. unfold modify at 1. rewrite (bind_run _ _ _ _ _ E1). done.
  - split; [split; [unfold same_flags; cbn; by rewrite Hip, Hl|exact O3]|]. done.
Qed.
End spec.

(** ** A console to run *)
Module ConsoleDemo.
(** Devices that are exactly what the driver sees of them, and a serial port
    whose status has to be read three times after each byte; a byte written too
    early is lost. *)
Record devices := mk_devices { seen : hwview; busy_for : nat }.

Definition some_byte (l : list Z) : bool := match l with [] => false | _ => true end.

Definition norm (h : hwview) : hwview :=
  mk_view (v_sel h) (u8 (v_hi h)) (u8 (v_lo h)) (v_dlab h) (v_out h) (u8 <$> v_in h) (u8 <$> v_keys h).

Definition waits (d : devices) : nat := Nat.min (busy_for d) 128.

Definition demo_in (p : Z) (d : devices) : Z * devices :=
  let h := norm (seen d) in
  (if p =? CRTPORT + 1 then if v_sel h =? 14 then v_hi h else v_lo h
   else if p =? KBSTATP then Z.b2z (some_byte (v_keys h))
   else if p =? KBDATAP then default 0 (head (v_keys h))
   else if p =? COM1 + 5 then (match waits d with O => 0x20 | _ => 0 end) + Z.b2z (some_byte (v_in h))
   else if p =? COM1 then default 0 (head (v_in h))
   else 0,
   mk_devices (view_in p (some_byte (v_keys h)) (some_byte (v_in h)) h) (if p =? COM1 + 5 then pred (waits d) else waits d)).

Definition demo_out (p v : Z) (d : devices) : devices :=
  if (p =? COM1) && negb (v_dlab (seen d)) then
    match waits d with O => mk_devices (view_out p v (seen d)) 3 | _ => d end
  else mk_devices (view_out p v (seen d)) (waits d).

#[global] Instance demo_ports : BytePorts devices := {| inb := demo_in; outb := demo_out |}.
#[global] Instance demo_mmio : Mmio devices := {| mmio_read _ h := (0, h); mmio_write _ _ h := h |}.

Lemma u8_idemp x : u8 (u8 x) = u8 x.
Proof. apply u8_small, u8_range. Qed.
Lemma u8_bytes (l : list Z) : bytes (u8 <$> l).
Proof. apply Forall_forall. intros x (y & -> & _)%list_elem_of_fmap. apply u8_range. Qed.

Lemma norm_out p v h : is_byte v → norm (view_out p v h) = view_out p v (norm h).
Proof.
  intros Hv. unfold view_out. destruct (p =? CRTPORT); [done|]. destruct (p =? CRTPORT + 1).
  { unfold norm. cbn. destruct (v_sel h =? 14), (v_sel h =? 15); rewrite ?(u8_small v) by done; done. }
  destruct (p =? COM1); [unfold norm; cbn; destruct (v_dlab h) eqn:E; cbn; by rewrite ?E|]. by destruct (p =? COM1 + 3).
Qed.

Lemma u8_map_idemp (l : list Z) : u8 <$> (u8 <$> l) = u8 <$> l.
Proof. rewrite <-list_fmap_compose. apply list_fmap_ext. intros i x _. apply u8_idemp. Qed.
Lemma u8_map_tail (l : list Z) : u8 <$> tail (u8 <$> l) = tail (u8 <$> l).
Proof. destruct l as [|x l]; [done|]. apply u8_map_idemp. Qed.

Lemma norm_idemp h : norm (norm h) = norm h.
Proof.
  unfold norm. cbn. by rewrite !u8_idemp, !u8_map_idemp.
Qed.

Lemma norm_in p k r h : norm (view_in p k r (norm h)) = view_in p k r (norm h).
Proof.
  unfold view_in. destruct ((p =? KBDATAP) && k).
  { unfold norm. cbn. by rewrite !u8_idemp, u8_map_idemp, u8_map_tail. }
  destruct ((p =? COM1) && r && negb (v_dlab (norm h))); [|apply norm_idemp].
  unfold norm. cbn. by rewrite !u8_idemp, u8_map_idemp, u8_map_tail.
Qed.

#[global] Program Instance demo_hw : ConsoleHw devices :=
  {| view d := norm (seen d); kbd_ready d := some_byte (v_keys (norm (seen d))); ser_ready d := some_byte (v_in (norm (seen d))); thr_busy := waits |}.
Next Obligation.
  intros p v d _ Hv Hc. cbn. unfold demo_out. destruct (Z.eqb_spec p COM1) as [->|Hp]; cbn [andb]; [|by apply norm_out].
  destruct (v_dlab (seen d)) eqn:Ed; cbn [negb]; [by apply norm_out|]. destruct (Hc eq_refl) as [H|H]; [cbn in H; congruence|].
  rewrite H. by apply norm_out.
Qed.
Next Obligation.
  intros d. cbn. unfold demo_in. change (COM1 + 5 =? COM1 + 5) with true. change (COM1 + 5 =? CRTPORT + 1) with false. change (COM1 + 5 =? KBSTATP) with false.
  change (COM1 + 5 =? KBDATAP) with false. cbn. unfold waits. cbn. split; [lia|].
  destruct (busy_for d `min` 128)%nat, (some_byte _); cbn; done.
Qed.
Next Obligation. intros d. apply Nat.le_min_r. Qed.
Next Obligation. intros p d _. cbn. apply norm_in. Qed.
Next Obligation. intros d Hd. cbn in *. unfold demo_in. change (CRTPORT + 1 =? CRTPORT + 1) with true. cbn. by rewrite Hd. Qed.
Next Obligation. intros d Hd. cbn in *. unfold demo_in. change (CRTPORT + 1 =? CRTPORT + 1) with true. cbn. by rewrite Hd. Qed.
Next Obligation. intros [[sel hi lo dlab out l [|x ks]] n]; reflexivity. Qed.
Next Obligation. intros [[sel hi lo dlab out l [|x ks]] n] Hd; [discriminate Hd|reflexivity]. Qed.
Next Obligation.
  intros d. destruct d as [[sel hi lo dlab out [|x l] ks] n]; cbn; unfold waits; cbn [busy_for]; by destruct (n `min` 128)%nat.
Qed.
Next Obligation. intros [[sel hi lo dlab out [|x l] ks] n] Hd _; [discriminate Hd|reflexivity]. Qed.
Next Obligation. intros d. cbn. split_and!; try (apply u8_range); apply u8_bytes. Qed.

(** A blank screen with the cursor at the top; the keyboard is about to
    deliver the codes of [Hi] and Enter; the indices of the input buffer are
    about to wrap around. *)
Definition blank : screen := mk_screen (replicate 24 (replicate 80 0)) 0 0.
Definition hi : list Z := [72; 105].
Definition s0 : cons devices :=
  mk_cons (mk_in (replicate 128 0) (2 ^ 32 - 1) (2 ^ 32 - 1) (2 ^ 32 - 1)) false true false true 0 (concat (rows blank)) true
    (mk_devices (mk_view 15 0 0 false [] [] (flat_map keystrokes hi ++ enter)) 0).
Definition s1 : cons devices := match kbdintrs 1 100 s0 with Done (_, s) => s | Fail _ => s0 end.

Lemma s0_ok : console_ok s0 blank.
Proof.
  split; [|split; [|done]].
  - split; [done|]. split; [|done]. split; [|split; [|done]].
    + split; try done. apply Forall_replicate. by vm_compute.
    + split; [done|]. split; [apply Forall_replicate; by vm_compute|]. exists []. by rewrite app_nil_r.
  - split; [split; try done; apply Forall_replicate; done|]. constructor.
Qed.
End ConsoleDemo.

(** The codes typed, read and shown. *)
Lemma console_line_discipline_witness :
  ∃ codes cs s', flat_map keystrokes ConsoleDemo.hi ++ enter = codes ++ v_keys (view (dev s')) ∧
    decode 0 codes = (cs, kbd_shift (D := ConsoleDemo.devices) s').
Proof.
  destruct (console_line_discipline ConsoleDemo.s0 ConsoleDemo.blank ConsoleDemo.s0_ok) as (H & _ & _).
  destruct (H 100%nat) as (codes & cs & s' & E1 & E2 & _); [by vm_compute; lia|]. exists codes, cs, s'. split; [exact E1|exact E2].
Defined.

Lemma typed_line_is_read_witness :
  ∃ s'', consoleread false 100 ConsoleDemo.s1 = Done ((RDone, 97%nat, [10; 105; 72]), s'') ∧ tty_of (input s'') = mk_tty [] [].
Proof.
  destruct (typed_line_is_read ConsoleDemo.s0 ConsoleDemo.s1 ConsoleDemo.blank 1 100 ConsoleDemo.hi 100) as (_ & _ & s'' & E1 & E2 & _).
  - exact ConsoleDemo.s0_ok.
  - done.
  - by left.
  - done.
  - by repeat constructor.
  - cbn. lia.
  - done.
  - vm_compute. done.
  - vm_compute. lia.
  - vm_compute. done.
  - vm_compute. done.
  - exists s''. split; [exact E1|exact E2].
Defined.

Lemma consolewrite_shows_witness :
  ∃ s', consolewrite [104; 10] ConsoleDemo.s0 = Done (2, s') ∧ console_ok s' (show_all ConsoleDemo.blank [104; 10]) ∧
    v_out (view (dev s')) = [104; 10].
Proof.
  destruct (consolewrite_shows ConsoleDemo.s0 ConsoleDemo.blank [104; 10] ConsoleDemo.s0_ok) as (s' & E & F & H & _); [done|by repeat constructor|].
  exists s'. split; [exact E|]. split; [exact H|apply F].
Defined.
