(* ===== verification/Ide.v ===== *)
(** * ide.c: the IDE disk driver

    The disk is hardware behind byte ports ([BytePorts]) and one port for
    strings of words ([WordPorts]).  The buffers that processes hand to the
    driver form a linked list through [qnext]; the first one is the request
    the disk is working on.  [iderw] is split where it sleeps:
    [iderw_submit] up to its loop, [iderw_poll] for one test of the loop's
    condition. *)

From stdpp Require Import functions.
From S2P Require Import Prelude Irq Spinlock Buf.

Definition SECTOR_SIZE : Z := 512.
Definition IDE_BSY : Z := 0x80.
Definition IDE_DRDY : Z := 0x40.
Definition IDE_DF : Z := 0x20.
Definition IDE_ERR : Z := 0x01.
Definition IDE_CMD_READ : Z := 0x20.
Definition IDE_CMD_WRITE : Z := 0x30.
Definition IDE_CMD_RDMUL : Z := 0xc4.
Definition IDE_CMD_WRMUL : Z := 0xc5.

(** [insl] and [outsl]: a number of 4-byte words from and to a port, as bytes. *)
Class WordPorts (D : Type) := {
  insl : Z → nat → D → list Z * D;
  outsl : Z → list Z → D → D;
}.

(** Buffers are known by their addresses. *)
Record ide (D : Type) := mk_ide {
  ibuf : nat → buf;
  qnext : nat → option nat;
  idequeue : option nat;
  havedisk1 : bool;
  idelock : bool;
  disk : D;
}.
Arguments mk_ide {D}.
Arguments ibuf {D}. Arguments qnext {D}. Arguments idequeue {D}. Arguments havedisk1 {D}. Arguments idelock {D}. Arguments disk {D}.

Section ide.
Context {D : Type} `{!BytePorts D} `{!Mmio D} `{!WordPorts D}.
Abbreviation ide := (ide D).

Definition set_ibuf f (s : ide) := mk_ide f (qnext s) (idequeue s) (havedisk1 s) (idelock s) (disk s).
Definition set_qnext f (s : ide) := mk_ide (ibuf s) f (idequeue s) (havedisk1 s) (idelock s) (disk s).
Definition set_queue q (s : ide) := mk_ide (ibuf s) (qnext s) q (havedisk1 s) (idelock s) (disk s).
Definition set_havedisk1 v (s : ide) := mk_ide (ibuf s) (qnext s) (idequeue s) v (idelock s) (disk s).
Definition set_idelock v (s : ide) := mk_ide (ibuf s) (qnext s) (idequeue s) (havedisk1 s) v (disk s).
Definition set_disk (d : D) (s : ide) := mk_ide (ibuf s) (qnext s) (idequeue s) (havedisk1 s) (idelock s) d.

Definition ide_in (port : Z) : M ide Z := λ s, let '(v, d) := inb port (disk s) in Done (v, set_disk d s).
Definition ide_out (port v : Z) : M ide unit := modify (λ s, set_disk (outb port (u8 v) (disk s)) s).

Definition acquire_ide : M ide unit :=
  held <- gets idelock;; if (held : bool) then panic "acquire" else modify (set_idelock true).
Definition release_ide : M ide unit :=
  held <- gets idelock;; if (held : bool) then modify (set_idelock false) else panic "release".

Definition put_buf (b : nat) (f : buf → buf) : M ide unit := modify (λ s, set_ibuf (<[b := f (ibuf s b)]> (ibuf s)) s).

(** Wait for the disk to become ready. *)
Fixpoint idewait (fuel : nat) (checkerr : bool) : M ide Z :=
  match fuel with
  | O => fail EFuel
  | S fuel =>
      r <- ide_in 0x1f7;;
      if Z.land r (Z.lor IDE_BSY IDE_DRDY) =? IDE_DRDY then
        ret (if checkerr && negb (Z.land r (Z.lor IDE_DF IDE_ERR) =? 0) then -1 else 0)
      else idewait fuel checkerr
  end.

(** [for(i=0; i<1000; i++) if(inb(0x1f7) != 0) ...] *)
Fixpoint probe_disk1 (n : nat) : M ide unit :=
  match n with
  | O => ret tt
  | S n => r <- ide_in 0x1f7;; if negb (r =? 0) then modify (set_havedisk1 true) else probe_disk1 n
  end.

Definition ideinit (fuel : nat) (ncpu : Z) : M ide unit :=
  modify (set_idelock false);;
  zoom disk set_disk (ioapicenable IRQ_IDE (ncpu - 1));;
  _ <- idewait fuel false;;
  ide_out 0x1f6 (Z.lor 0xe0 (Z.shiftl 1 4));;
  probe_disk1 1000;;
  ide_out 0x1f6 (Z.lor 0xe0 (Z.shiftl 0 4)).

(** Start the request for [b]; a null pointer is [None]. *)
Definition idestart (fuel : nat) (b : option nat) : M ide unit :=
  match b with
  | None => panic "idestart"
  | Some b =>
      bf <- gets (λ s, ibuf s b);;
      if FSSIZE <=? blockno bf then panic "incorrect blockno"
      else
        let sector_per_block := BSIZE / SECTOR_SIZE in
        let sector := s32 (blockno bf * sector_per_block) in
        let read_cmd := if sector_per_block =? 1 then IDE_CMD_READ else IDE_CMD_RDMUL in
        let write_cmd := if sector_per_block =? 1 then IDE_CMD_WRITE else IDE_CMD_WRMUL in
        if 7 <? sector_per_block then panic "idestart"
        else
          _ <- idewait fuel false;;
          ide_out 0x3f6 0;;
          ide_out 0x1f2 sector_per_block;;
          ide_out 0x1f3 (Z.land sector 0xff);;
          ide_out 0x1f4 (Z.land (Z.shiftr sector 8) 0xff);;
          ide_out 0x1f5 (Z.land (Z.shiftr sector 16) 0xff);;
          ide_out 0x1f6 (Z.lor (Z.lor 0xe0 (Z.shiftl (Z.land (dev bf) 1) 4)) (Z.land (Z.shiftr sector 24) 0x0f));;
          if has B_DIRTY bf then
            ide_out 0x1f7 write_cmd;;
            modify (λ s, set_disk (outsl 0x1f0 (data bf) (disk s)) s)
          else ide_out 0x1f7 read_cmd
  end.

(** The interrupt handler; the buffer whose process is woken up. *)
Definition ideintr (fuel : nat) : M ide (option nat) :=
  acquire_ide;;
  q <- gets idequeue;;
  match q with
  | None => release_ide;; ret None
  | Some b =>
      modify (λ s, set_queue (qnext s b) s);;
      bf <- gets (λ s, ibuf s b);;
      (if negb (has B_DIRTY bf) then
         r <- idewait fuel true;;
         if 0 <=? r then
           λ s, let '(l, d) := insl 0x1f0 (Z.to_nat (BSIZE / 4)) (disk s) in (put_buf b (set_data l)) (set_disk d s)
         else ret tt
       else ret tt);;
      put_buf b (λ bf, set_flags (Z.lor (flags bf) B_VALID) bf);;
      put_buf b (λ bf, set_flags (Z.land (flags bf) (Z.lnot B_DIRTY)) bf);;
      q <- gets idequeue;;
      match q with Some _ => idestart fuel q | None => ret tt end;;
      release_ide;;
      ret (Some b)
  end.

(** [pp] points to [idequeue] ([None]) or to a [qnext]. *)
Definition deref (pp : option nat) : M ide (option nat) :=
  gets (λ s, match pp with None => idequeue s | Some a => qnext s a end).
Definition store (pp : option nat) (v : option nat) : M ide unit :=
  modify (λ s, match pp with None => set_queue v s | Some a => set_qnext (<[a := v]> (qnext s)) s end).

(** The loop that moves [pp] to the end of the queue. *)
Fixpoint find_tail (fuel : nat) (pp : option nat) : M ide (option nat) :=
  match fuel with
  | O => fail EFuel
  | S fuel => x <- deref pp;; match x with None => ret pp | Some a => find_tail fuel (Some a) end
  end.

(** [iderw] up to its loop, with the lock held at the end. *)
Definition iderw_submit (fuel : nat) (me : nat) (b : nat) : M ide unit :=
  h <- (λ s, match holdingsleep me (b_lock (ibuf s b)) with
             | Done (h, l) => Done (h, set_ibuf (<[b := set_b_lock l (ibuf s b)]> (ibuf s)) s)
             | Fail e => Fail e
             end);;
  if h =? 0 then panic "iderw: buf not locked"
  else
    bf <- gets (λ s, ibuf s b);;
    if Z.land (flags bf) (Z.lor B_VALID B_DIRTY) =? B_VALID then panic "iderw: nothing to do"
    else
      hd1 <- gets havedisk1;;
      if negb (dev bf =? 0) && negb hd1 then panic "iderw: ide disk 1 not present"
      else
        acquire_ide;;
        store (Some b) None;;
        pp <- find_tail fuel None;;
        store pp (Some b);;
        q <- gets idequeue;;
        if bool_decide (q = Some b) then idestart fuel (Some b) else ret tt.

(** The test of [while((b->flags & (B_VALID|B_DIRTY)) != B_VALID)] with the
    lock held: [sleep] releases the lock, as does the return. *)
Definition iderw_poll (b : nat) : M ide bool :=
  bf <- gets (λ s, ibuf s b);;
  release_ide;;
  ret (Z.land (flags bf) (Z.lor B_VALID B_DIRTY) =? B_VALID).

(** The return from [sleep]: the lock is taken again. *)
Definition iderw_wake (b : nat) : M ide bool := acquire_ide;; iderw_poll b.
End ide.
