(* ===== verification/IdeSpec.v ===== *)
(** * The disk driver serves its requests one after the other

    The disk as its manual describes it ([AtaDisk]), and the processes, their
    buffers and the disk's interrupts as a transition system.  Whatever the
    interleaving, every request gets the result it would get from a disk that
    serves the requests one at a time in the order of the calls of [iderw]. *)

From stdpp Require Import functions.
From S2P Require Import Prelude Irq Spinlock Buf Ide.

(** ** The disk *)

(** Nothing to do; data to be read; waiting for data to be written; data
    written; an error. *)
Inductive phase := PIdle | PRead (key : Z * Z) | PWant (key : Z * Z) | PDone | PErr.

(** The registers (sector count, four parts of the sector number, drive,
    interrupts enabled), what the disk is doing, whether it has raised its
    interrupt, and the sectors by drive and number. *)
Record ata := mk_ata {
  a_count : Z;
  a_lba : Z * Z * Z * Z;
  a_drive : Z;
  a_ien : bool;
  a_phase : phase;
  a_irq : bool;
  a_img : gmap (Z * Z) (list Z);
}.

Definition a_key (a : ata) : Z * Z :=
  let '(l0, l1, l2, l3) := a_lba a in (a_drive a, l0 + 2 ^ 8 * l1 + 2 ^ 16 * l2 + 2 ^ 24 * l3).

Definition set_phase (p : phase) (irq : bool) (a : ata) : ata :=
  mk_ata (a_count a) (a_lba a) (a_drive a) (a_ien a) p irq (a_img a).
Definition set_img (m : gmap (Z * Z) (list Z)) (a : ata) : ata :=
  mk_ata (a_count a) (a_lba a) (a_drive a) (a_ien a) (a_phase a) (a_irq a) m.

(** The registers the driver writes before a command. *)
Definition ata_write (p v : Z) (a : ata) : ata :=
  let '(l0, l1, l2, l3) := a_lba a in
  if p =? 0x3f6 then mk_ata (a_count a) (a_lba a) (a_drive a) (negb (Z.testbit v 1)) (a_phase a) (a_irq a) (a_img a)
  else if p =? 0x1f2 then mk_ata v (a_lba a) (a_drive a) (a_ien a) (a_phase a) (a_irq a) (a_img a)
  else if p =? 0x1f3 then mk_ata (a_count a) (v, l1, l2, l3) (a_drive a) (a_ien a) (a_phase a) (a_irq a) (a_img a)
  else if p =? 0x1f4 then mk_ata (a_count a) (l0, v, l2, l3) (a_drive a) (a_ien a) (a_phase a) (a_irq a) (a_img a)
  else if p =? 0x1f5 then mk_ata (a_count a) (l0, l1, v, l3) (a_drive a) (a_ien a) (a_phase a) (a_irq a) (a_img a)
  else if p =? 0x1f6 then
    mk_ata (a_count a) (l0, l1, l2, Z.land v 15) (Z.b2z (Z.testbit v 4)) (a_ien a) (a_phase a) (a_irq a) (a_img a)
  else a.

(** [busy d] is how often the status has to be read until the disk is ready.
    [ata_ack] is the delivery of the interrupt to a CPU.  The disk takes the
    data of a write right after the command, as the driver expects. *)
Class AtaDisk (D : Type) `{!BytePorts D} `{!WordPorts D} := {
  ata_of : D → ata;
  busy : D → nat;
  ata_ack : D → D;
  ata_poll d :
    ata_of (snd (inb 0x1f7 d)) = ata_of d ∧ busy (snd (inb 0x1f7 d)) = pred (busy d) ∧
    (Z.land (fst (inb 0x1f7 d)) (Z.lor IDE_BSY IDE_DRDY) = IDE_DRDY ↔ busy d = O) ∧
    (busy d = O → a_phase (ata_of d) ≠ PErr → Z.land (fst (inb 0x1f7 d)) (Z.lor IDE_DF IDE_ERR) = 0);
  ata_reg p v d :
    busy d = O → p ∈ [0x3f6; 0x1f2; 0x1f3; 0x1f4; 0x1f5; 0x1f6] → is_byte v →
    ata_of (outb p v d) = ata_write p v (ata_of d) ∧ busy (outb p v d) = O;
  ata_cmd_read d :
    busy d = O → a_count (ata_of d) = 1 → is_Some (a_img (ata_of d) !! a_key (ata_of d)) →
    ata_of (outb 0x1f7 IDE_CMD_READ d) = set_phase (PRead (a_key (ata_of d))) (a_ien (ata_of d)) (ata_of d);
  ata_cmd_write d :
    busy d = O → a_count (ata_of d) = 1 → is_Some (a_img (ata_of d) !! a_key (ata_of d)) →
    ata_of (outb 0x1f7 IDE_CMD_WRITE d) = set_phase (PWant (a_key (ata_of d))) (a_irq (ata_of d)) (ata_of d);
  ata_data_out l d key :
    a_phase (ata_of d) = PWant key → length l = Z.to_nat SECTOR_SIZE →
    ata_of (outsl 0x1f0 l d) = set_img (<[key := l]> (a_img (ata_of d))) (set_phase PDone (a_ien (ata_of d)) (ata_of d));
  ata_data_in d key l :
    busy d = O → a_phase (ata_of d) = PRead key → a_img (ata_of d) !! key = Some l →
    fst (insl 0x1f0 (Z.to_nat (SECTOR_SIZE / 4)) d) = l ∧
    ata_of (snd (insl 0x1f0 (Z.to_nat (SECTOR_SIZE / 4)) d)) = set_phase PIdle (a_irq (ata_of d)) (ata_of d);
  ata_ack_irq d : ata_of (ata_ack d) = set_phase (a_phase (ata_of d)) false (ata_of d);
}.

Section driver.
Context {D : Type} `{!BytePorts D} `{!Mmio D} `{!WordPorts D} `{!AtaDisk D}.
Abbreviation ide := (ide D).

Lemma idewait_run c (s : ide) : a_phase (ata_of (disk s)) ≠ PErr →
  ∃ d, settles (λ fuel, idewait fuel c) s 0 (set_disk d s) ∧ ata_of d = ata_of (disk s) ∧ busy d = O.
Proof.
  remember (busy (disk s)) as n eqn:Hn. revert s Hn. induction n as [|n IH]; intros s Hn Hp; destruct (ata_poll (disk s)) as (H1 & H2 & H3 & H4).
  - exists (snd (inb 503 (disk s))). split; [|rewrite H2, <-Hn; done]. exists 1%nat. intros [|fuel]; [done|]. cbn [idewait].
    unfold bind, ide_in. specialize (H4 (eq_sym Hn) Hp). destruct H3 as [_ H3]. specialize (H3 (eq_sym Hn)).
    destruct (inb 503 (disk s)) as [v d]. cbn in H3, H4 |- *. rewrite H3, H4. cbn. by rewrite andb_false_r.
  - destruct (IH (set_disk (snd (inb 503 (disk s))) s)) as (d & [N HN] & Ha & Hb); [cbn; rewrite H2, <-Hn; done|cbn; by rewrite H1|].
    exists d. cbn [disk set_disk] in Ha. rewrite H1 in Ha. split; [|done]. exists (S N). intros [|fuel]; [done|]. cbn [idewait]. unfold bind, ide_in.
    destruct (inb 503 (disk s)) as [v d'] eqn:Ed. cbn [fst snd] in *.
    assert ((Z.land v (Z.lor IDE_BSY IDE_DRDY) =? IDE_DRDY) = false) as -> by (apply Z.eqb_neq; intros E; apply H3 in E; congruence).
    rewrite HN. done.
Qed.

Lemma ide_out_run p v (s : ide) :
  busy (disk s) = O → p ∈ [0x3f6; 0x1f2; 0x1f3; 0x1f4; 0x1f5; 0x1f6] →
  ∃ d, ide_out p v s = Done (tt, set_disk d s) ∧ ata_of d = ata_write p (u8 v) (ata_of (disk s)) ∧ busy d = O.
Proof. intros Hb Hp. eexists. split; [done|]. apply ata_reg; [done|done|apply u8_range]. Qed.

(** A request the driver accepts. *)
Record proper (hd1 : bool) (bf : buf) : Prop := {
  pr_dev : dev bf = 0 ∨ dev bf = 1 ∧ hd1 = true;
  pr_block : 0 ≤ blockno bf < FSSIZE;
  pr_flags : flags bf = 0 ∨ flags bf = B_DIRTY ∨ flags bf = Z.lor B_VALID B_DIRTY;
  pr_data : length (data bf) = Z.to_nat BSIZE;
  pr_lock : ∃ name pid, b_lock bf = sl_held name pid;
}.

Definition b_key (bf : buf) : Z * Z := (dev bf, blockno bf).

(** The sector number, taken apart and put together again. *)
Lemma sector_bytes n : 0 ≤ n < FSSIZE →
  u8 (Z.land (s32 (n * 1)) 0xff) + 2 ^ 8 * u8 (Z.land (Z.shiftr (s32 (n * 1)) 8) 0xff) +
  2 ^ 16 * u8 (Z.land (Z.shiftr (s32 (n * 1)) 16) 0xff) = n ∧ Z.land (Z.shiftr (s32 (n * 1)) 24) 0x0f = 0.
Proof.
  intros Hn. unfold FSSIZE in Hn. rewrite Z.mul_1_r, s32_small by lia. rewrite !Z.shiftr_div_pow2 by lia. change 255 with (Z.ones 8). change 15 with (Z.ones 4).
  rewrite !Z.land_ones by lia. unfold u8. rewrite !Z.mod_mod by lia. rewrite (Z.div_small n (2 ^ 16)), (Z.div_small n (2 ^ 24)) by lia.
  rewrite (Z.mod_small (n / 2 ^ 8)) by (split; [apply Z.div_pos; lia|apply Z.div_lt_upper_bound; lia]).
  pose proof (Z.div_mod n (2 ^ 8) ltac:(lia)). split; [|done]. change (0 mod 2 ^ 8) with 0. lia.
Qed.

Lemma idestart_run (s : ide) b : proper (havedisk1 s) (ibuf s b) → a_phase (ata_of (disk s)) ≠ PErr → is_Some (a_img (ata_of (disk s)) !! b_key (ibuf s b)) →
  ∃ d, settles (λ fuel, idestart fuel (Some b)) s tt (set_disk d s) ∧ a_irq (ata_of d) = true ∧
    a_img (ata_of d) = (if has B_DIRTY (ibuf s b) then <[b_key (ibuf s b) := data (ibuf s b)]> (a_img (ata_of (disk s))) else a_img (ata_of (disk s))) ∧
    a_phase (ata_of d) = (if has B_DIRTY (ibuf s b) then PDone else PRead (b_key (ibuf s b))).
Proof.
  intros [Hd Hb Hfl Hl _] Hp Hsome. set (bf := ibuf s b) in *. destruct (idewait_run false s Hp) as (d0 & W0 & A0 & B0).
  destruct (ide_out_run 0x3f6 0 (set_disk d0 s) B0) as (d1 & E1 & A1 & B1); [set_solver|].
  destruct (ide_out_run 0x1f2 1 (set_disk d1 s) B1) as (d2 & E2 & A2 & B2); [set_solver|].
  destruct (ide_out_run 0x1f3 (Z.land (s32 (blockno bf * 1)) 0xff) (set_disk d2 s) B2) as (d3 & E3 & A3 & B3); [set_solver|].
  destruct (ide_out_run 0x1f4 (Z.land (Z.shiftr (s32 (blockno bf * 1)) 8) 0xff) (set_disk d3 s) B3) as (d4 & E4 & A4 & B4); [set_solver|].
  destruct (ide_out_run 0x1f5 (Z.land (Z.shiftr (s32 (blockno bf * 1)) 16) 0xff) (set_disk d4 s) B4) as (d5 & E5 & A5 & B5); [set_solver|].
  destruct (sector_bytes (blockno bf) Hb) as [Hs1 Hs2].
  destruct (ide_out_run 0x1f6 (Z.lor (Z.lor 0xe0 (Z.shiftl (Z.land (dev bf) 1) 4)) 0) (set_disk d5 s) B5) as (d6 & E6 & A6 & B6); [set_solver|].
  cbn [disk set_disk] in *. destruct (ata_of (disk s)) as [cnt [[[l0 l1] l2] l3] dr ien ph irq img].
  rewrite A0 in A1. rewrite A1 in A2. rewrite A2 in A3. rewrite A3 in A4. rewrite A4 in A5. rewrite A5 in A6. clear A0 A1 A2 A3 A4 A5.
  set (v3 := u8 (Z.land (s32 (blockno bf * 1)) 255)) in *. set (v4 := u8 (Z.land (Z.shiftr (s32 (blockno bf * 1)) 8) 255)) in *.
  set (v5 := u8 (Z.land (Z.shiftr (s32 (blockno bf * 1)) 16) 255)) in *. set (v6 := u8 (Z.lor _ 0)) in A6.
  change (ata_of d6 = mk_ata (u8 1) (v3, v4, v5, Z.land v6 15) (Z.b2z (Z.testbit v6 4)) true ph irq img) in A6.
  assert (a_count (ata_of d6) = 1 ∧ a_ien (ata_of d6) = true ∧ a_img (ata_of d6) = img ∧ a_key (ata_of d6) = b_key bf) as (Hc & Hien & Himg & Hkey).
  { rewrite A6. split; [done|]. split; [done|]. split; [done|]. unfold a_key, b_key. cbn [a_lba a_drive].
    assert (Z.land v6 15 = 0 ∧ Z.b2z (Z.testbit v6 4) = dev bf) as [-> ->] by (unfold v6; destruct Hd as [->|[-> _]]; done).
    f_equal. lia. }
  cbn [a_img a_phase] in Hsome, Hp.
  assert (∃ d, settles (λ fuel, if has B_DIRTY bf then ide_out 0x1f7 IDE_CMD_WRITE;; modify (λ s, set_disk (outsl 0x1f0 (data bf) (disk s)) s)
      else ide_out 0x1f7 IDE_CMD_READ) (set_disk d6 s) tt (set_disk d s) ∧ a_irq (ata_of d) = true ∧
      a_img (ata_of d) = (if has B_DIRTY bf then <[b_key bf := data bf]> img else img) ∧ a_phase (ata_of d) = (if has B_DIRTY bf then PDone else PRead (b_key bf)))
    as (d & Hset & Hpost).
  { destruct (has B_DIRTY bf).
    - pose proof (ata_cmd_write d6 B6 Hc) as Hw. rewrite Himg, Hkey in Hw. specialize (Hw Hsome).
      pose proof (ata_data_out (data bf) (outb 0x1f7 IDE_CMD_WRITE d6) (b_key bf)) as Ho. rewrite Hw in Ho. specialize (Ho eq_refl Hl).
      exists (outsl 0x1f0 (data bf) (outb 0x1f7 IDE_CMD_WRITE d6)). split; [by apply settles_done|]. rewrite Ho. cbn. by rewrite Himg, Hien.
    - pose proof (ata_cmd_read d6 B6 Hc) as Hw. rewrite Himg, Hkey in Hw. specialize (Hw Hsome).
      exists (outb 0x1f7 IDE_CMD_READ d6). split; [by apply settles_done|]. rewrite Hw. cbn. by rewrite Himg, Hien. }
  exists d. split; [|exact Hpost]. unfold idestart. eapply settles_step; [done|]. cbn beta. fold bf.
  assert ((FSSIZE <=? blockno bf) = false) as -> by lia. change (BSIZE / SECTOR_SIZE) with 1. cbn [Z.eqb Pos.eqb Z.ltb Z.compare Pos.compare Pos.compare_cont].
  eapply settles_bind; [exact W0|]. eapply settles_step; [exact E1|]. eapply settles_step; [exact E2|]. eapply settles_step; [exact E3|].
  eapply settles_step; [exact E4|]. eapply settles_step; [exact E5|]. rewrite Hs2. eapply settles_step; [exact E6|]. exact Hset.
Qed.

(** ** The queue *)

Fixpoint linked (qn : nat → option nat) (p : option nat) (l : list nat) : Prop :=
  match l with [] => p = None | b :: l' => p = Some b ∧ linked qn (qn b) l' end.

Lemma linked_frame qn qn' p l : (∀ b, b ∈ l → qn' b = qn b) → linked qn p l → linked qn' p l.
Proof.
  revert p. induction l as [|b l IH]; intros p Hf; cbn; [done|]. intros [-> H]. split; [done|]. rewrite Hf by (by left). apply IH; [|done].
  intros x Hx. apply Hf. by right.
Qed.

(** Where the loop of [iderw] ends. *)
Definition tail_of (pp : option nat) (l : list nat) : option nat := match last l with Some a => Some a | None => pp end.

Lemma tail_of_cons pp b l : tail_of (Some b) l = tail_of pp (b :: l).
Proof. unfold tail_of. destruct l as [|c l]; [done|]. change (last (b :: c :: l)) with (last (c :: l)). by destruct (last (c :: l)) eqn:E; [|apply last_None in E]. Qed.

Definition at_pp (s : ide) (pp : option nat) : option nat := match pp with None => idequeue s | Some a => qnext s a end.

Lemma find_tail_run (s : ide) pp l : linked (qnext s) (at_pp s pp) l → settles (λ fuel, find_tail fuel pp) s (tail_of pp l) s.
Proof.
  revert pp. induction l as [|b l IH]; intros pp Hl.
  - exists 1%nat. intros [|fuel]; [done|]. cbn [find_tail]. unfold bind, deref, gets. cbn in Hl. unfold at_pp in Hl. rewrite Hl. done.
  - destruct Hl as [Hp Hl]. destruct (IH (Some b) Hl) as [N HN]. exists (S N). intros [|fuel]; [done|]. cbn [find_tail]. unfold bind, deref, gets.
    unfold at_pp in Hp. rewrite Hp, HN, (tail_of_cons pp). done.
Qed.

(** Putting a buffer at the end. *)
Lemma linked_snoc qn q l b : NoDup l → b ∉ l → qn b = None → linked qn q l →
  linked (match tail_of None l with None => qn | Some a => <[a := Some b]> qn end)
         (match tail_of None l with None => Some b | Some _ => q end) (l ++ [b]).
Proof.
  intros Hnd Hb Hqb Hl. destruct l as [|c l] using rev_ind; [by cbn|]. clear IHl. unfold tail_of. rewrite last_snoc.
  apply NoDup_app in Hnd as (Hnd & Hdis & _). assert (c ∉ l) as Hcl by (intros H; apply (Hdis c H); by left).
  assert (b ≠ c) as Hbc by (intros ->; apply Hb, elem_of_app; right; by left).
  revert q Hl. induction l as [|x l IH]; intros q Hl.
  - cbn in *. destruct Hl as [-> _]. split; [done|]. rewrite fn_lookup_insert. split; [done|]. by rewrite fn_lookup_insert_ne.
  - cbn in Hl |- *. destruct Hl as [-> Hl]. split; [done|]. apply not_elem_of_cons in Hcl as [Hxc Hcl]. rewrite fn_lookup_insert_ne by done.
    apply IH; try done; [by apply NoDup_cons in Hnd as [_ Hnd]|intros y Hy; apply Hdis; by right|].
    intros H. apply Hb. by right.
Qed.

(** ** iderw and ideintr *)

Lemma proper_flags hd1 bf : proper hd1 bf →
  (Z.land (flags bf) (Z.lor B_VALID B_DIRTY) =? B_VALID) = false.
Proof. intros [_ _ [-> | [-> | ->]] _ _]; done. Qed.

Lemma set_b_lock_id bf : set_b_lock (b_lock bf) bf = bf.
Proof. by destruct bf. Qed.

Record submitted (s s' : ide) (l : list nat) (b : nat) : Prop := {
  sb_buf : ∀ x, ibuf s' x = ibuf s x;
  sb_queue : linked (qnext s') (idequeue s') (l ++ [b]);
  sb_have : havedisk1 s' = havedisk1 s;
  sb_lock : idelock s' = true;
}.

Lemma submit_queue (s : ide) me b l :
  proper (havedisk1 s) (ibuf s b) → idelock s = false → linked (qnext s) (idequeue s) l → NoDup l → b ∉ l →
  ∃ s1, submitted s s1 l b ∧ disk s1 = disk s ∧ (idequeue s1 = Some b ↔ l = []) ∧
    ∀ a s', settles (λ fuel, if bool_decide (idequeue s1 = Some b) then idestart fuel (Some b) else ret tt) s1 a s' →
            settles (λ fuel, iderw_submit fuel me b) s a s'.
Proof.
  intros Hp Hlk Hl Hnd Hb. pose proof Hp as [Hd _ _ _ (name & pid & Hlock)].
  set (s0 := set_ibuf (<[b := set_b_lock (sl_held name pid) (ibuf s b)]> (ibuf s)) s).
  assert (∀ x, ibuf s0 x = ibuf s x) as Hbuf.
  { intros x. cbn. destruct (decide (x = b)) as [->|Hne]; [|by rewrite fn_lookup_insert_ne]. by rewrite fn_lookup_insert, <-Hlock, set_b_lock_id. }
  set (s2 := set_qnext (<[b := None]> (qnext s0)) (set_idelock true s0)).
  assert (linked (qnext s2) (idequeue s2) l) as Hl2.
  { eapply linked_frame; [|exact Hl]. intros x Hx. cbn. rewrite fn_lookup_insert_ne; [done|]. by intros ->. }
  pose proof (find_tail_run s2 None l Hl2) as Hft. pose proof (linked_snoc (qnext s2) (idequeue s2) l b Hnd Hb) as Hsn.
  specialize (Hsn ltac:(cbn; by rewrite fn_lookup_insert) Hl2).
  exists (match tail_of None l with None => set_queue (Some b) s2 | Some a => set_qnext (<[a := Some b]> (qnext s2)) s2 end).
  split; [|split; [|split]].
  - destruct (tail_of None l); split; try done.
  - by destruct (tail_of None l).
  - destruct l as [|c l]; [done|]. cbn in Hl. destruct Hl as [Hq _]. split; [|done]. intros E. exfalso. apply Hb.
    assert (tail_of None (c :: l) ≠ None) as Ht by (unfold tail_of; destruct (last (c :: l)) eqn:El; [done|by apply last_None in El]).
    destruct (tail_of None (c :: l)); [|done]. cbn in E. rewrite Hq in E. injection E as ->. by left.
  - intros a s' Hs. unfold iderw_submit. eapply (settles_step _ _ _ 1 s0).
    { unfold s0. rewrite Hlock, holdingsleep_held. done. }
    cbn [Z.eqb]. eapply settles_step; [done|]. cbn beta. rewrite Hbuf, (proper_flags (havedisk1 s)) by done. eapply settles_step; [done|]. cbn beta.
    assert (negb (dev (ibuf s b) =? 0) && negb (havedisk1 s0) = false) as -> by (cbn; destruct Hd as [-> | [-> Hh]]; [done|]; rewrite Hh; done).
    eapply (settles_step _ _ _ tt (set_idelock true s0)); [unfold acquire_ide, bind, gets; cbn; by rewrite Hlk|].
    eapply (settles_step _ _ _ tt s2); [done|]. eapply settles_bind; [exact Hft|]. cbn beta. eapply settles_step; [done|]. eapply settles_step; [done|].
    cbn beta. destruct (tail_of None l); exact Hs.
Qed.

(** The image after the request in [bf] has been started. *)
Definition img_after (bf : buf) (m : gmap (Z * Z) (list Z)) : gmap (Z * Z) (list Z) :=
  if has B_DIRTY bf then <[b_key bf := data bf]> m else m.
Definition phase_of (bf : buf) : phase := if has B_DIRTY bf then PDone else PRead (b_key bf).

(** The buffer of a request that has been served by a disk with image [m]. *)
Definition filled (m : gmap (Z * Z) (list Z)) (bf : buf) : buf :=
  set_flags B_VALID (if has B_DIRTY bf then bf else set_data (default [] (m !! b_key bf)) bf).

(** Reading the data, and setting the flags. *)
Lemma fetch_run (s : ide) b :
  proper (havedisk1 s) (ibuf s b) → a_phase (ata_of (disk s)) = phase_of (ibuf s b) → is_Some (a_img (ata_of (disk s)) !! b_key (ibuf s b)) →
  ∃ d f, settles (λ fuel,
      (if negb (has B_DIRTY (ibuf s b)) then
         r <- idewait fuel true;;
         if 0 <=? r then λ s, let '(l, d) := insl 0x1f0 (Z.to_nat (BSIZE / 4)) (disk s) in (put_buf b (set_data l)) (set_disk d s)
         else ret tt
       else ret tt);;
      put_buf b (λ bf, set_flags (Z.lor (flags bf) B_VALID) bf);;
      put_buf b (λ bf, set_flags (Z.land (flags bf) (Z.lnot B_DIRTY)) bf)) s tt (set_ibuf f (set_disk d s)) ∧
    (∀ x, f x = if decide (x = b) then filled (a_img (ata_of (disk s))) (ibuf s b) else ibuf s x) ∧
    a_phase (ata_of d) ≠ PErr ∧ a_img (ata_of d) = a_img (ata_of (disk s)).
Proof.
  intros [_ _ Hfl _ _] Hp [l Hl]. unfold phase_of, filled in *. set (bf := ibuf s b) in *. destruct (has B_DIRTY bf) eqn:Hd.
  - eexists (disk s), _. split; [|split; [|split; [by rewrite Hp|done]]].
    + cbn [negb]. eapply settles_step; [done|]. apply settles_done. unfold bind, put_buf, modify. cbn [ibuf set_ibuf]. reflexivity.
    + intros x. cbn. destruct (decide (x = b)) as [->|Hne]; [|by rewrite !fn_lookup_insert_ne]. rewrite !fn_lookup_insert. fold bf. destruct bf. cbn in *.
      destruct Hfl as [-> | [-> | ->]]; [by cbn in Hd|done..].
  - rewrite Hl. cbn [default]. destruct (idewait_run true s) as (d & W & A & B); [by rewrite Hp|]. rewrite <-A in Hp, Hl.
    destruct (ata_data_in d (b_key bf) l B Hp Hl) as [D1 D2]. eexists (snd (insl 0x1f0 (Z.to_nat (SECTOR_SIZE / 4)) d)), _. split; [|split; [|split]].
    + cbn [negb]. eapply (settles_bind _ _ _ tt (set_ibuf (<[b := set_data l (ibuf s b)]> (ibuf s)) (set_disk (snd (insl 0x1f0 (Z.to_nat (SECTOR_SIZE / 4)) d)) s))); [eapply settles_bind; [exact W|]; cbn [Z.leb Z.compare]; apply settles_done|].
      { cbn [disk set_disk]. change (Z.to_nat (BSIZE / 4)) with (Z.to_nat (SECTOR_SIZE / 4)). destruct (insl 496 _ d) as [l' d']. cbn [fst snd] in *. subst l'.
        unfold put_buf, modify. reflexivity. }
      apply settles_done. unfold bind, put_buf, modify. reflexivity.
    + intros x. cbn. destruct (decide (x = b)) as [->|Hne]; [|by rewrite !fn_lookup_insert_ne]. rewrite !fn_lookup_insert. fold bf. destruct bf. cbn in *.
      destruct Hfl as [-> | [-> | ->]]; [done|by cbn in Hd..].
    + rewrite D2. done.
    + rewrite D2. cbn. by rewrite A.
Qed.

Lemma intr_run (s : ide) b l :
  idelock s = false → linked (qnext s) (idequeue s) (b :: l) → b ∉ l →
  proper (havedisk1 s) (ibuf s b) → a_phase (ata_of (disk s)) = phase_of (ibuf s b) → is_Some (a_img (ata_of (disk s)) !! b_key (ibuf s b)) →
  (∀ c, head l = Some c → proper (havedisk1 s) (ibuf s c) ∧ is_Some (a_img (ata_of (disk s)) !! b_key (ibuf s c))) →
  ∃ s', settles ideintr s (Some b) s' ∧ idelock s' = false ∧ havedisk1 s' = havedisk1 s ∧ linked (qnext s') (idequeue s') l ∧
    (∀ x, ibuf s' x = if decide (x = b) then filled (a_img (ata_of (disk s))) (ibuf s b) else ibuf s x) ∧ a_phase (ata_of (disk s')) ≠ PErr ∧
    match head l with
    | None => a_img (ata_of (disk s')) = a_img (ata_of (disk s))
    | Some c => a_irq (ata_of (disk s')) = true ∧ a_img (ata_of (disk s')) = img_after (ibuf s c) (a_img (ata_of (disk s))) ∧
                a_phase (ata_of (disk s')) = phase_of (ibuf s c)
    end.
Proof.
  intros Hlk [Hq Hl] Hbl Hp Hph Hs Hnext. set (s1 := set_queue (qnext s b) (set_idelock true s)).
  destruct (fetch_run s1 b Hp Hph Hs) as (d & f & Hset & Hf & Hpe & Himg). set (s2 := set_ibuf f (set_disk d s1)) in *.
  assert (∃ s3, settles (λ fuel, match idequeue s2 with Some _ => idestart fuel (idequeue s2) | None => ret tt end) s2 tt s3 ∧ (∃ d3, s3 = set_disk d3 s2) ∧
    a_phase (ata_of (disk s3)) ≠ PErr ∧
    match head l with
    | None => a_img (ata_of (disk s3)) = a_img (ata_of (disk s))
    | Some c => a_irq (ata_of (disk s3)) = true ∧ a_img (ata_of (disk s3)) = img_after (ibuf s c) (a_img (ata_of (disk s))) ∧
                a_phase (ata_of (disk s3)) = phase_of (ibuf s c)
    end) as (s3 & E3 & (d3 & ->) & Hpe3 & H3).
  { destruct l as [|c l]; cbn [head].
    - exists s2. cbn in Hl. split; [change (idequeue s2) with (qnext s b); rewrite Hl; by apply settles_done|]. split; [by exists d|]. by split.
    - destruct Hl as [Hqc Hl]. destruct (Hnext c eq_refl) as [Hpc Hsc]. assert (c ≠ b) as Hcb by (intros ->; apply Hbl; by left).
      assert (ibuf s2 c = ibuf s c) as Ec by (cbn; rewrite Hf; by destruct (decide (c = b))).
      destruct (idestart_run s2 c) as (d3 & E3 & I1 & I2 & I3); [rewrite Ec; by destruct Hpc|done|rewrite Ec; cbn; by rewrite Himg|].
      exists (set_disk d3 s2). split; [change (idequeue s2) with (qnext s b); by rewrite Hqc|]. split; [by exists d3|]. rewrite Ec in I2, I3. cbn in I2. rewrite Himg in I2.
      cbn [disk set_disk]. split; [rewrite I3; by destruct (has B_DIRTY (ibuf s c))|]. split; [exact I1|]. split; [exact I2|exact I3]. }
  exists (set_idelock false (set_disk d3 s2)). split; [|split_and!; try done; by destruct l].
  unfold ideintr. eapply (settles_step _ _ _ tt (set_idelock true s)); [unfold acquire_ide, bind, gets; by rewrite Hlk|].
  eapply settles_step; [done|]. cbn beta. change (idequeue (set_idelock true s)) with (idequeue s). rewrite Hq.
  eapply (settles_step _ _ _ tt s1); [done|]. eapply settles_step; [done|]. cbn beta.
  eapply settles_assoc; [exact Hset|]. eapply settles_step; [done|]. cbn beta. eapply settles_bind; [exact E3|].
  apply settles_done. done.
Qed.

(** ** Processes *)

(** A request: its buffer, its sector, and the data to be written. *)
Record req := mk_req { r_buf : nat; r_key : Z * Z; r_write : option (list Z) }.

Definition req_of (b : nat) (bf : buf) : req := mk_req b (b_key bf) (if has B_DIRTY bf then Some (data bf) else None).

(** A disk that serves one request after the other: its image after the
    requests [rs], and the data in the buffer of request [k]. *)
Definition image (m : gmap (Z * Z) (list Z)) (rs : list req) : gmap (Z * Z) (list Z) :=
  foldl (λ m r, match r_write r with Some l => <[r_key r := l]> m | None => m end) m rs.
Definition answer (m : gmap (Z * Z) (list Z)) (rs : list req) (k : nat) : option (list Z) :=
  r ← rs !! k; match r_write r with Some l => Some l | None => image m (take k rs) !! r_key r end.

(** A process in [iderw], with the number of its request: it sleeps, has been
    woken up, or has returned (with these data in its buffer). *)
Inductive thread := Sleeping (k b : nat) | Runnable (k b : nat) | Returned (k : nat) (d : list Z).

Definition uses (th : thread) : option (nat * nat) := match th with Sleeping k b | Runnable k b => Some (k, b) | Returned _ _ => None end.

Definition wake (o : option nat) (th : thread) : thread :=
  match th with Sleeping k b => if bool_decide (o = Some b) then Runnable k b else th | _ => th end.

(** [requests] are all requests in the order of the calls, of which [served]
    have been completed. *)
Record sys := mk_sys { drv : ide; threads : gmap nat thread; requests : list req; served : nat }.

(** What becomes of a process that tests the condition of its loop. *)
Definition polled (k b : nat) (done : bool) (s : ide) : thread := if done then Returned k (data (ibuf s b)) else Sleeping k b.

Inductive step : sys → sys → Prop :=
  | call s t me b bf fuel s1 done s2 :
      threads s !! t = None → (∀ t' th k, threads s !! t' = Some th → uses th ≠ Some (k, b)) →
      proper (havedisk1 (drv s)) bf → is_Some (a_img (ata_of (disk (drv s))) !! b_key bf) →
      iderw_submit fuel me b (set_ibuf (<[b := bf]> (ibuf (drv s))) (drv s)) = Done (tt, s1) → iderw_poll b s1 = Done (done, s2) →
      step s (mk_sys s2 (<[t := polled (length (requests s)) b done s2]> (threads s)) (requests s ++ [req_of b bf]) (served s))
  | interrupt s fuel o s' :
      a_irq (ata_of (disk (drv s))) = true →
      ideintr fuel (set_disk (ata_ack (disk (drv s))) (drv s)) = Done (o, s') →
      step s (mk_sys s' (wake o <$> threads s) (requests s) (match o with Some _ => S (served s) | None => served s end))
  | resume s t k b done s' :
      threads s !! t = Some (Runnable k b) → iderw_wake b (drv s) = Done (done, s') →
      step s (mk_sys s' (<[t := polled k b done s']> (threads s)) (requests s) (served s))
  | kill s t k b :
      threads s !! t = Some (Sleeping k b) → step s (mk_sys (drv s) (<[t := Runnable k b]> (threads s)) (requests s) (served s)).

(** Nobody has called [iderw] yet. *)
Definition start (s : ide) : sys := mk_sys s ∅ [] 0.
Definition ready (s : ide) : Prop := idelock s = false ∧ idequeue s = None ∧ a_phase (ata_of (disk s)) ≠ PErr.

(** ** The invariant *)

Section invariant.
Context (m : gmap (Z * Z) (list Z)).

Record thread_ok (s : sys) (th : thread) : Prop := {
  to_req k b : uses th = Some (k, b) → ∃ r, requests s !! k = Some r ∧ r_buf r = b;
  to_sleep k b : th = Sleeping k b → (served s ≤ k)%nat;
  to_run k b : th = Runnable k b → (k < served s)%nat → flags (ibuf (drv s) b) = B_VALID ∧ answer m (requests s) k = Some (data (ibuf (drv s) b));
  to_ret k d : th = Returned k d → (k < served s)%nat ∧ answer m (requests s) k = Some d;
}.

Record inv (s : sys) : Prop := {
  i_lock : idelock (drv s) = false;
  i_served : (served s ≤ length (requests s))%nat;
  i_queue : linked (qnext (drv s)) (idequeue (drv s)) (r_buf <$> drop (served s) (requests s));
  i_bufs k r : (served s ≤ k)%nat → requests s !! k = Some r →
    proper (havedisk1 (drv s)) (ibuf (drv s) (r_buf r)) ∧ req_of (r_buf r) (ibuf (drv s) (r_buf r)) = r;
  i_keys k r : requests s !! k = Some r → is_Some (m !! r_key r);
  i_img : a_img (ata_of (disk (drv s))) = image m (take (S (served s)) (requests s));
  i_ok : a_phase (ata_of (disk (drv s))) ≠ PErr;
  i_head r : requests s !! served s = Some r →
    a_irq (ata_of (disk (drv s))) = true ∧ a_phase (ata_of (disk (drv s))) = phase_of (ibuf (drv s) (r_buf r));
  i_threads t th : threads s !! t = Some th → thread_ok s th;
  i_distinct t t' th th' k k' b : threads s !! t = Some th → threads s !! t' = Some th' →
    uses th = Some (k, b) → uses th' = Some (k', b) → t = t';
  i_pending k : (served s ≤ k < length (requests s))%nat → ∃ t th b, threads s !! t = Some th ∧ uses th = Some (k, b);
}.

Lemma image_app rs r : image m (rs ++ [r]) = match r_write r with Some l => <[r_key r := l]> (image m rs) | None => image m rs end.
Proof. unfold image. by rewrite foldl_app. Qed.

Lemma answer_app rs r k : (k < length rs)%nat → answer m (rs ++ [r]) k = answer m rs k.
Proof. intros Hk. unfold answer. rewrite lookup_app_l by done. by rewrite take_app_le by lia. Qed.

Lemma image_dom rs key : (∀ r, r ∈ rs → is_Some (m !! r_key r)) → is_Some (image m rs !! key) ↔ is_Some (m !! key).
Proof.
  induction rs as [|r rs IH] using rev_ind; intros H; [done|]. rewrite image_app. rewrite <-IH by (intros r' Hr'; apply H, elem_of_app; by left).
  destruct (r_write r) as [l|]; [|done]. destruct (decide (r_key r = key)) as [<-|Hne]; [|by rewrite lookup_insert_ne].
  rewrite lookup_insert_eq. split; [|done]. intros _. rewrite IH by (intros r' Hr'; apply H, elem_of_app; by left). apply H, elem_of_app. right. by left.
Qed.

(** The buffers of the pending requests are different. *)
Lemma pending_nodup s : inv s → NoDup (r_buf <$> drop (served s) (requests s)).
Proof.
  intros Hi. apply NoDup_alt. intros i j b Hi1 Hj1. rewrite list_lookup_fmap, lookup_drop in Hi1, Hj1.
  destruct (requests s !! (served s + i)%nat) as [r|] eqn:E1; [|done]. destruct (requests s !! (served s + j)%nat) as [r'|] eqn:E2; [|done].
  injection Hi1 as Hb. injection Hj1 as Hb'. pose proof (lookup_lt_Some _ _ _ E1). pose proof (lookup_lt_Some _ _ _ E2).
  destruct (i_pending s Hi (served s + i)%nat) as (t & th & b1 & H1 & U1); [lia|]. destruct (i_pending s Hi (served s + j)%nat) as (t' & th' & b2 & H2 & U2); [lia|].
  destruct (to_req _ _ (i_threads _ Hi _ _ H1) _ _ U1) as (r1 & R1 & B1). destruct (to_req _ _ (i_threads _ Hi _ _ H2) _ _ U2) as (r2 & R2 & B2).
  simplify_eq. rewrite Hb' in U2. assert (t = t') as <- by (eapply (i_distinct s Hi); [exact H1|exact H2|exact U1|exact U2]). rewrite H1 in H2. simplify_eq. lia.
Qed.

(** The buffer of a process that has not returned is not the buffer of
    another pending request. *)
Lemma live_unique s t th k b j r : inv s → threads s !! t = Some th → uses th = Some (k, b) → (served s ≤ j)%nat → requests s !! j = Some r → r_buf r = b → j = k.
Proof.
  intros Hi Ht Hu Hj Hr Hb. pose proof (lookup_lt_Some _ _ _ Hr). destruct (i_pending s Hi j) as (t' & th' & b' & H1 & U1); [lia|].
  destruct (to_req _ _ (i_threads _ Hi _ _ H1) _ _ U1) as (r1 & R1 & B1). simplify_eq.
  assert (t = t') as <- by (eapply (i_distinct s Hi); [exact Ht|exact H1|exact Hu|exact U1]). rewrite Ht in H1. simplify_eq. congruence.
Qed.

Lemma start_inv s : ready s → a_img (ata_of (disk s)) = m → inv (start s).
Proof.
  intros (H1 & H2 & H3) Hm. split; try done; cbn. intros k Hk. lia.
Qed.

(** *** Interrupts *)

Lemma img_after_req b bf M : img_after bf M = match r_write (req_of b bf) with Some l => <[r_key (req_of b bf) := l]> M | None => M end.
Proof. unfold img_after, req_of. cbn. by destruct (has B_DIRTY bf). Qed.

Lemma take_S_lookup {A} (l : list A) k x : l !! k = Some x → take (S k) l = take k l ++ [x].
Proof. intros H. by apply take_S_r. Qed.

(** The data of a request that is being served. *)
Lemma answer_filled s r : inv s → requests s !! served s = Some r →
  answer m (requests s) (served s) = Some (data (filled (a_img (ata_of (disk (drv s)))) (ibuf (drv s) (r_buf r)))).
Proof.
  intros Hi Hr. unfold answer, filled. rewrite Hr. cbn [mbind option_bind]. destruct (i_bufs s Hi _ _ (le_n _) Hr) as [_ Hreq].
  rewrite (i_img s Hi), (take_S_lookup _ _ _ Hr), image_app. rewrite <-Hreq at 1 2. unfold req_of at 1 2. cbn [r_write r_key].
  destruct (i_keys s Hi _ _ Hr) as [l0 Hl0]. assert (r_key r = b_key (ibuf (drv s) (r_buf r))) as Hk by (by rewrite <-Hreq at 1).
  assert (r_write r = if has B_DIRTY (ibuf (drv s) (r_buf r)) then Some (data (ibuf (drv s) (r_buf r))) else None) as -> by (by rewrite <-Hreq at 1).
  destruct (has B_DIRTY _); [done|]. rewrite <-Hk. cbn. destruct (image_dom (take (served s) (requests s)) (r_key r)) as [_ Hd].
  { intros r' Hr'. apply list_elem_of_lookup in Hr' as (j & Hj). apply lookup_take_Some in Hj as [Hj _]. by apply (i_keys s Hi j). }
  destruct (Hd ltac:(by eexists)) as [l ->]. done.
Qed.

Lemma uses_wake o th : uses (wake o th) = uses th.
Proof. destruct th; cbn; try done. by destruct (bool_decide _). Qed.

Lemma wake_ok s r s' t th ths :
  inv s → requests s !! served s = Some r → threads s !! t = Some th →
  (∀ x, ibuf s' x = if decide (x = r_buf r) then filled (a_img (ata_of (disk (drv s)))) (ibuf (drv s) (r_buf r)) else ibuf (drv s) x) →
  thread_ok (mk_sys s' ths (requests s) (S (served s))) (wake (Some (r_buf r)) th).
Proof.
  intros Hi Hr Ht Hbuf. pose proof (answer_filled s r Hi Hr) as Hans. pose proof (i_threads s Hi t th Ht) as [T1 T2 T3 T4]. split; cbn [drv threads requests served].
  - intros k b. rewrite uses_wake. apply T1.
  - intros k b Hw. destruct th as [k0 b0|k0 b0|k0 d0]; cbn in Hw; [|done|done]. destruct (bool_decide_reflect (Some (r_buf r) = Some b0)) as [E|E]; [done|].
    injection Hw as -> ->. specialize (T2 k b eq_refl). destruct (decide (k = served s)) as [->|]; [|lia].
    destruct (T1 (served s) b eq_refl) as (r' & Hr' & <-). rewrite Hr' in Hr. simplify_eq.
  - intros k b Hw Hk. assert (uses th = Some (k, b)) as Hu by (rewrite <-(uses_wake (Some (r_buf r))), Hw; done).
    destruct (T1 k b Hu) as (r' & Hr' & Hb'). destruct (decide (k = served s)) as [->|Hne].
    + rewrite Hr' in Hr. simplify_eq. rewrite Hbuf. destruct (decide (r_buf r = r_buf r)); [|done]. split; [done|]. exact Hans.
    + assert (b ≠ r_buf r) as Hbr by (intros ->; apply Hne; symmetry; eapply (live_unique s t th); [done|done|exact Hu|exact (le_n _)|exact Hr|done]).
      rewrite Hbuf. destruct (decide (b = r_buf r)); [done|]. destruct th as [k0 b0|k0 b0|k0 d0]; cbn in Hu; simplify_eq; [|apply T3; [done|lia]].
      specialize (T2 k (r_buf r') eq_refl). lia.
  - intros k d Hw. destruct th as [k0 b0|k0 b0|k0 d0]; cbn in Hw; [by destruct (bool_decide _)|done|]. destruct (T4 k d Hw). split; [lia|done].
Qed.

Lemma intr_settles s r : inv s → requests s !! served s = Some r →
  ∃ s', settles ideintr (set_disk (ata_ack (disk (drv s))) (drv s)) (Some (r_buf r)) s' ∧
    inv (mk_sys s' (wake (Some (r_buf r)) <$> threads s) (requests s) (S (served s))).
Proof.
  intros Hi Hr. pose proof (pending_nodup s Hi) as Hnd. pose proof (lookup_lt_Some _ _ _ Hr) as Hlen.
  pose proof (drop_S _ _ _ Hr) as Edrop. rewrite Edrop in Hnd. cbn in Hnd. apply NoDup_cons in Hnd as [Hbl Hnd].
  destruct (i_bufs s Hi _ _ (le_n _) Hr) as [Hp Hreq]. destruct (i_head s Hi _ Hr) as [Hirq Hph].
  set (s0 := set_disk (ata_ack (disk (drv s))) (drv s)). pose proof (i_queue s Hi) as Hq. rewrite Edrop in Hq.
  assert (a_img (ata_of (disk s0)) = a_img (ata_of (disk (drv s)))) as Him0 by (cbn; by rewrite ata_ack_irq).
  assert (∀ k r', requests s !! k = Some r' → is_Some (a_img (ata_of (disk s0)) !! r_key r')) as Hsome.
  { intros k r' Hr'. rewrite Him0, (i_img s Hi). apply image_dom; [|by apply (i_keys s Hi k)].
    intros r'' Hr''. apply list_elem_of_lookup in Hr'' as (j & Hj). apply lookup_take_Some in Hj as [Hj _]. by apply (i_keys s Hi j). }
  assert (∀ k r', (served s ≤ k)%nat → requests s !! k = Some r' → r_key r' = b_key (ibuf (drv s) (r_buf r'))) as Hkey.
  { intros k r' Hk Hr'. destruct (i_bufs s Hi k r' Hk Hr') as [_ E]. by rewrite <-E at 1. }
  assert (∀ k r', (S (served s) ≤ k)%nat → requests s !! k = Some r' → r_buf r' ≠ r_buf r) as Hother.
  { intros k r' Hk Hr' E. apply Hbl. rewrite <-E. apply list_elem_of_fmap. exists r'. split; [done|]. apply list_elem_of_lookup. exists (k - S (served s))%nat.
    rewrite lookup_drop. by replace (S (served s) + (k - S (served s)))%nat with k by lia. }
  destruct (intr_run s0 (r_buf r) (r_buf <$> drop (S (served s)) (requests s))) as (s' & Hset & Hlk & Hhd & Hl & Hbuf & Hpe & Hhead).
  - apply (i_lock s Hi).
  - exact Hq.
  - exact Hbl.
  - exact Hp.
  - cbn. by rewrite ata_ack_irq.
  - change (ibuf s0) with (ibuf (drv s)). rewrite <-(Hkey (served s)) by done. by apply (Hsome (served s)).
  - intros c Hc. destruct (requests s !! S (served s)) as [r'|] eqn:Er'.
    + rewrite (drop_S _ _ _ Er') in Hc. cbn in Hc. injection Hc as <-. destruct (i_bufs s Hi (S (served s)) r') as [Hp' _]; [lia|done|]. split; [done|].
      change (ibuf s0) with (ibuf (drv s)). rewrite <-(Hkey (S (served s))) by (done || lia). by apply (Hsome (S (served s))).
    + apply lookup_ge_None in Er'. rewrite drop_ge in Hc by lia. done.
  - exists s'. split; [done|]. rewrite Him0 in *. change (ibuf s0) with (ibuf (drv s)) in *.
    split; cbn [drv threads requests served]; try done.
    + intros k r' Hk Hr'. rewrite Hbuf, Hhd. destruct (decide (r_buf r' = r_buf r)) as [E|_]; [by destruct (Hother k r')|]. apply (i_bufs s Hi k); [lia|done].
    + apply (i_keys s Hi).
    + destruct (requests s !! S (served s)) as [r'|] eqn:Er'.
      * rewrite (drop_S _ _ _ Er') in Hhead. cbn in Hhead. destruct Hhead as (_ & -> & _). rewrite (i_img s Hi), (img_after_req (r_buf r')).
        destruct (i_bufs s Hi (S (served s)) r') as [_ ->]; [lia|done|]. by rewrite (take_S_lookup _ _ _ Er'), image_app.
      * apply lookup_ge_None in Er'. rewrite drop_ge in Hhead by lia. cbn in Hhead. rewrite Hhead, (i_img s Hi). by rewrite !take_ge by lia.
    + intros r' Er'. rewrite (drop_S _ _ _ Er') in Hhead. cbn in Hhead. destruct Hhead as (H1 & _ & H2). split; [done|]. rewrite H2, Hbuf.
      destruct (decide (r_buf r' = r_buf r)) as [E|_]; [by destruct (Hother (S (served s)) r')|done].
    + intros t th Ht. rewrite lookup_fmap in Ht. destruct (threads s !! t) as [th0|] eqn:Et; [|done]. injection Ht as <-. by apply (wake_ok s r s' t).
    + intros t t' th th' k k' b H1 H2 U1 U2. rewrite lookup_fmap in H1, H2. destruct (threads s !! t) as [a|] eqn:E1; [|done].
      destruct (threads s !! t') as [a'|] eqn:E2; [|done]. injection H1 as <-. injection H2 as <-. rewrite uses_wake in U1, U2. by eapply (i_distinct s Hi).
    + intros k Hk. destruct (i_pending s Hi k) as (t & th & b & Ht & Hu); [lia|]. exists t, (wake (Some (r_buf r)) th), b.
      rewrite lookup_fmap, Ht, uses_wake. done.
Qed.

(** *** The other steps *)

Lemma intr_empty s fuel o s' : inv s → requests s !! served s = None →
  ideintr fuel (set_disk (ata_ack (disk (drv s))) (drv s)) = Done (o, s') → o = None ∧ s' = set_disk (ata_ack (disk (drv s))) (drv s).
Proof.
  intros Hi Hr. apply lookup_ge_None in Hr. pose proof (i_queue s Hi) as Hq. rewrite drop_ge in Hq by done. cbn in Hq. pose proof (i_lock s Hi) as Hl.
  unfold ideintr, acquire_ide, release_ide, bind, gets, modify, ret. cbn. rewrite Hl. cbn. rewrite Hq. intros [= <- <-]. split; [done|].
  destruct (drv s). cbn in *. by subst.
Qed.

Lemma ack_inv s : inv s → requests s !! served s = None →
  inv (mk_sys (set_disk (ata_ack (disk (drv s))) (drv s)) (wake None <$> threads s) (requests s) (served s)).
Proof.
  intros Hi Hr. assert (wake None <$> threads s = threads s) as ->.
  { apply map_eq. intros t. rewrite lookup_fmap. by destruct (threads s !! t) as [[]|]. }
  destruct Hi as [I1 I2 I3 I4 I5 I6 I7 I8 I9 I10 I11]. split; cbn; rewrite ?ata_ack_irq; try done.
  - intros r E. by rewrite E in Hr.
  - intros t th Ht. by destruct (I9 t th Ht); split.
Qed.

Lemma unlock_id (s : ide) : idelock s = false → set_idelock false (set_idelock true s) = s.
Proof. destruct s. cbn. by intros ->. Qed.

Lemma poll_run (s : ide) b : idelock s = false →
  iderw_wake b s = Done (Z.land (flags (ibuf s b)) (Z.lor B_VALID B_DIRTY) =? B_VALID, s).
Proof.
  intros Hl. unfold iderw_wake, iderw_poll, acquire_ide, release_ide, bind, gets, modify, ret. rewrite Hl. cbn [idelock set_idelock].
  do 2 f_equal. by apply unlock_id.
Qed.

(** Another state for one process. *)
Lemma thread_inv s t th th' : inv s → threads s !! t = Some th → (∀ k b, uses th' = Some (k, b) → uses th = Some (k, b)) →
  (∀ k b, uses th = Some (k, b) → (served s ≤ k)%nat → uses th' = Some (k, b)) → thread_ok s th' →
  inv (mk_sys (drv s) (<[t := th']> (threads s)) (requests s) (served s)).
Proof.
  intros [I1 I2 I3 I4 I5 I6 I7 I8 I9 I10 I11] Ht Hsub Hlive Hok. split; cbn [drv threads requests served]; try done.
  - intros t' x [[<- <-]|[_ Hx]]%lookup_insert_Some; [by destruct Hok; split|]. by destruct (I9 t' x Hx); split.
  - intros t1 t2 x1 x2 k1 k2 b [[<- <-]|[Hn1 H1]]%lookup_insert_Some [[<- <-]|[Hn2 H2]]%lookup_insert_Some U1 U2; try done.
    + apply Hsub in U1. by eapply I10.
    + apply Hsub in U2. by eapply I10.
    + by eapply I10.
  - intros k Hk. destruct (I11 k Hk) as (t' & x & b & Hx & Hu). destruct (decide (t' = t)) as [->|Hne].
    + exists t, th', b. rewrite lookup_insert_eq. split; [done|]. rewrite Ht in Hx. simplify_eq. apply Hlive; [done|lia].
    + exists t', x, b. by rewrite lookup_insert_ne.
Qed.

Lemma resume_inv s t k b done s' : inv s → threads s !! t = Some (Runnable k b) → iderw_wake b (drv s) = Done (done, s') →
  inv (mk_sys s' (<[t := polled k b done s']> (threads s)) (requests s) (served s)).
Proof.
  intros Hi Ht. rewrite (poll_run _ b (i_lock s Hi)). intros [= <- <-]. pose proof (i_threads s Hi t _ Ht) as [T1 _ T3 _].
  destruct (T1 k b eq_refl) as (r & Hr & Hb).
  assert ((Z.land (flags (ibuf (drv s) b)) (Z.lor B_VALID B_DIRTY) =? B_VALID) = bool_decide (k < served s)%nat) as ->.
  { destruct (bool_decide_reflect (k < served s)%nat) as [H|H]; [by destruct (T3 k b eq_refl H) as [-> _]|].
    destruct (i_bufs s Hi k r ltac:(lia) Hr) as [Hp _]. rewrite Hb in Hp. by apply proper_flags in Hp. }
  apply (thread_inv s t (Runnable k b)); try done; unfold polled; destruct (bool_decide_reflect (k < served s)%nat) as [H|H]; cbn; try done.
  - intros k0 b0 [= <- <-]. lia.
  - split; try done. intros k0 d [= <- <-]. split; [done|]. by destruct (T3 k b eq_refl H).
  - split; try done. intros k0 b0 [= <- <-]. lia.
Qed.

Lemma kill_inv s t k b : inv s → threads s !! t = Some (Sleeping k b) →
  inv (mk_sys (drv s) (<[t := Runnable k b]> (threads s)) (requests s) (served s)).
Proof.
  intros Hi Ht. pose proof (i_threads s Hi t _ Ht) as [T1 T2 _ _]. apply (thread_inv s t (Sleeping k b)); try done. split; try done.
  intros k0 b0 [= <- <-] Hk. specialize (T2 k b eq_refl). lia.
Qed.

(** *** Calls *)

(** The state of the driver when a call has queued its buffer. *)
Record queued (s : sys) (b : nat) (bf : buf) (s1 : ide) : Prop := {
  q_buf x : ibuf s1 x = if decide (x = b) then bf else ibuf (drv s) x;
  q_queue : linked (qnext s1) (idequeue s1) (r_buf <$> drop (served s) (requests s ++ [req_of b bf]));
  q_have : havedisk1 s1 = havedisk1 (drv s);
  q_lock : idelock s1 = true;
  q_ok : a_phase (ata_of (disk s1)) ≠ PErr;
  q_disk : if decide (served s = length (requests s)) then
      a_irq (ata_of (disk s1)) = true ∧ a_phase (ata_of (disk s1)) = phase_of bf ∧ a_img (ata_of (disk s1)) = img_after bf (a_img (ata_of (disk (drv s))))
    else disk s1 = disk (drv s);
}.

Lemma unused_pending s b : inv s → (∀ t' th k, threads s !! t' = Some th → uses th ≠ Some (k, b)) →
  ∀ k r, (served s ≤ k)%nat → requests s !! k = Some r → r_buf r ≠ b.
Proof.
  intros Hi Hun k r Hk Hr <-. pose proof (lookup_lt_Some _ _ _ Hr). destruct (i_pending s Hi k) as (t & th & b & Ht & Hu); [lia|].
  destruct (to_req _ _ (i_threads s Hi t th Ht) k b Hu) as (r' & Hr' & Hb). simplify_eq. by apply (Hun t th k Ht).
Qed.

Lemma call_queued s me b bf :
  inv s → (∀ t' th k, threads s !! t' = Some th → uses th ≠ Some (k, b)) → proper (havedisk1 (drv s)) bf → is_Some (a_img (ata_of (disk (drv s))) !! b_key bf) →
  ∃ s1, settles (λ fuel, iderw_submit fuel me b) (set_ibuf (<[b := bf]> (ibuf (drv s))) (drv s)) tt s1 ∧ queued s b bf s1.
Proof.
  intros Hi Hun Hp Hs. set (s0 := set_ibuf (<[b := bf]> (ibuf (drv s))) (drv s)). assert (ibuf s0 b = bf) as Eb by (cbn; by rewrite fn_lookup_insert).
  destruct (submit_queue s0 me b (r_buf <$> drop (served s) (requests s))) as (s1 & [Q1 Q2 Q3 Q4] & Ed & Hq & Hset).
  - by rewrite Eb.
  - apply (i_lock s Hi).
  - apply (i_queue s Hi).
  - by apply pending_nodup.
  - intros (r & -> & Hr)%list_elem_of_fmap. apply list_elem_of_lookup in Hr as (j & Hj). rewrite lookup_drop in Hj.
    by apply (unused_pending s (r_buf r) Hi Hun (served s + j)%nat r); [lia|..].
  - assert (∀ x, ibuf s1 x = if decide (x = b) then bf else ibuf (drv s) x) as Hbuf.
    { intros x. rewrite Q1. cbn. destruct (decide (x = b)) as [->|Hne]; [by rewrite fn_lookup_insert|by rewrite fn_lookup_insert_ne]. }
    assert (ibuf s1 b = bf) as Eb1 by (rewrite Hbuf; by destruct (decide (b = b))). pose proof (i_served s Hi) as Hle.
    assert (linked (qnext s1) (idequeue s1) (r_buf <$> drop (served s) (requests s ++ [req_of b bf]))) as Hlink by (by rewrite drop_app_le, fmap_app by done).
    destruct (decide (served s = length (requests s))) as [E|E].
    + rewrite drop_ge in Hq by lia. destruct Hq as [_ Hq]. specialize (Hq eq_refl).
      destruct (idestart_run s1 b) as (d & Hst & S1 & S2 & S3); [by rewrite Eb1, Q3|rewrite Ed; apply (i_ok s Hi)|by rewrite Eb1, Ed|].
      exists (set_disk d s1). split; [apply Hset; by rewrite bool_decide_true|]. rewrite Eb1, Ed in *. split; cbn [ibuf qnext idequeue havedisk1 idelock disk set_disk]; try done.
      * rewrite S3. by destruct (has B_DIRTY bf).
      * by destruct (decide _).
    + exists s1. split; [apply Hset; rewrite bool_decide_false; [by apply settles_done|]|].
      * rewrite Hq. intros Hnil. apply (f_equal length) in Hnil. rewrite length_fmap, length_drop in Hnil. cbn in Hnil. lia.
      * split; try done; [rewrite Ed; apply (i_ok s Hi)|by destruct (decide _)].
Qed.

Lemma queued_inv s t b bf s1 : inv s → threads s !! t = None →
  (∀ t' th k, threads s !! t' = Some th → uses th ≠ Some (k, b)) → proper (havedisk1 (drv s)) bf → is_Some (a_img (ata_of (disk (drv s))) !! b_key bf) →
  queued s b bf s1 → inv (mk_sys (set_idelock false s1) (<[t := Sleeping (length (requests s)) b]> (threads s)) (requests s ++ [req_of b bf]) (served s)).
Proof.
  intros Hi Ht Hun Hp Hs [Q1 Q2 Q3 Q4 Q5 Q6]. pose proof (unused_pending s b Hi Hun) as Hpend. pose proof (i_served s Hi) as Hle.
  assert (∀ k r, requests s !! k = Some r → is_Some (m !! r_key r)) as Hk by apply (i_keys s Hi).
  assert (is_Some (m !! b_key bf)) as Hkey.
  { rewrite (i_img s Hi) in Hs. apply (image_dom (take (S (served s)) (requests s))); [|done].
    intros r Hr. apply list_elem_of_lookup in Hr as (j & Hj). apply lookup_take_Some in Hj as [Hj _]. by apply (Hk j). }
  assert (∀ k r, (requests s ++ [req_of b bf]) !! k = Some r → requests s !! k = Some r ∨ k = length (requests s) ∧ r = req_of b bf) as Hreq.
  { intros k r [Hr|[Hl Hr]]%lookup_app_Some; [by left|]. apply list_lookup_singleton_Some in Hr as [? <-]. right. split; [lia|done]. }
  split; cbn [drv threads requests served ibuf qnext idequeue havedisk1 idelock disk set_idelock]; try done.
  - rewrite length_app. lia.
  - intros k r Hk1 [Hr|[-> ->]]%Hreq; rewrite Q1, Q3.
    + destruct (decide (r_buf r = b)) as [E|_]; [by destruct (Hpend k r)|]. by apply (i_bufs s Hi k).
    + cbn [r_buf req_of]. by destruct (decide (b = b)).
  - intros k r [Hr|[-> ->]]%Hreq; [by apply (Hk k)|done].
  - destruct (decide (served s = length (requests s))) as [E|E].
    + destruct Q6 as (_ & _ & ->). rewrite (i_img s Hi), (img_after_req b), !take_ge by (rewrite ?length_app; cbn; lia). by rewrite image_app.
    + rewrite Q6, (i_img s Hi). by rewrite take_app_le by lia.
  - intros r [Hr|[E ->]]%Hreq.
    + pose proof (lookup_lt_Some _ _ _ Hr). destruct (decide (served s = length (requests s))); [lia|]. rewrite Q6, Q1.
      destruct (decide (r_buf r = b)) as [Eb|_]; [by destruct (Hpend (served s) r)|]. by apply (i_head s Hi).
    + destruct (decide (served s = length (requests s))); [|done]. destruct Q6 as (H1 & H2 & _). cbn [r_buf req_of]. rewrite Q1. by destruct (decide (b = b)).
  - intros t' th [[<- <-]|[_ Hth]]%lookup_insert_Some.
    + split; cbn [drv threads requests served]; try done; intros k b0 [= <- <-]; [|done]. exists (req_of b bf). by rewrite list_lookup_middle.
    + pose proof (i_threads s Hi t' th Hth) as [T1 T2 T3 T4]. split; cbn [drv threads requests served ibuf set_idelock]; try done.
      * intros k b0 Hu. destruct (T1 k b0 Hu) as (r & Hr & Hb). exists r. split; [by apply lookup_app_l_Some|done].
      * intros k b0 -> Hk1. rewrite Q1. destruct (decide (b0 = b)) as [->|_]; [by destruct (Hun t' _ k Hth)|]. rewrite answer_app by lia. by apply T3.
      * intros k d ->. destruct (T4 k d eq_refl). split; [done|]. by rewrite answer_app by lia.
  - intros t1 t2 x1 x2 k1 k2 b0 [[<- <-]|[Hn1 H1]]%lookup_insert_Some [[<- <-]|[Hn2 H2]]%lookup_insert_Some U1 U2; try done.
    + injection U1 as <- <-. by destruct (Hun t2 x2 k2 H2).
    + injection U2 as <- <-. by destruct (Hun t1 x1 k1 H1).
    + by eapply (i_distinct s Hi).
  - intros k Hk1. rewrite length_app in Hk1. cbn in Hk1. destruct (decide (k = length (requests s))) as [->|Hne].
    + exists t, (Sleeping (length (requests s)) b), b. by rewrite lookup_insert_eq.
    + destruct (i_pending s Hi k) as (t' & th & b0 & Hth & Hu); [lia|]. exists t', th, b0. rewrite lookup_insert_ne; [done|]. intros ->. by rewrite Ht in Hth.
Qed.

Lemma queued_poll s b bf s1 : queued s b bf s1 → proper (havedisk1 (drv s)) bf → iderw_poll b s1 = Done (false, set_idelock false s1).
Proof.
  intros [Q1 _ _ Q4 _ _] Hp. unfold iderw_poll, release_ide, bind, gets, modify, ret. rewrite Q4. rewrite Q1. destruct (decide (b = b)); [|done].
  by rewrite (proper_flags _ _ Hp).
Qed.

Lemma step_inv s s' : step s s' → inv s → inv s'.
Proof.
  destruct 1 as [s t me b bf fuel s1 done s2 Ht Hun Hp Hs E1 E2|s fuel o s' Hirq E|s t k b done s' Ht E|s t k b Ht]; intros Hi.
  - destruct (call_queued s me b bf Hi Hun Hp Hs) as (s1' & Hset & Hq). pose proof (settles_det _ _ _ _ _ _ Hset E1) as Eq. injection Eq as <-.
    rewrite (queued_poll s b bf s1 Hq Hp) in E2. injection E2 as <- <-. by apply queued_inv.
  - destruct (requests s !! served s) as [r|] eqn:Hr.
    + destruct (intr_settles s r Hi Hr) as (s1 & Hset & Hinv). pose proof (settles_det _ _ _ _ _ _ Hset E) as Eq. by injection Eq as -> ->.
    + destruct (intr_empty s fuel o s' Hi Hr E) as [-> ->]. by apply ack_inv.
  - by apply resume_inv.
  - by apply kill_inv.
Qed.
End invariant.

(** C9: Processes call [iderw] for buffers of their own at any time, the disk's
    interrupts come when it has finished a command, and sleeping processes are
    resumed in any order.  The disk reports no errors and takes the data of a
    write right after the command ([AtaDisk]).  When a call of [iderw] returns, its buffer holds
    what a disk that served the requests one at a time in the order of the
    calls would leave in it; once all requests have been served the disk
    holds all that was written.  No wakeup is lost: while a process sleeps its
    request is in the queue and the disk's interrupt is pending, and the
    interrupt handler and a new call run to their ends. *)
Theorem ide_serves_in_order (s0 : ide) s :
  ready s0 → rtc step (start s0) s →
  (∀ t k d, threads s !! t = Some (Returned k d) → answer (a_img (ata_of (disk s0))) (requests s) k = Some d) ∧
  (served s = length (requests s) → a_img (ata_of (disk (drv s))) = image (a_img (ata_of (disk s0))) (requests s)) ∧
  (∀ t k b, threads s !! t = Some (Sleeping k b) →
     (served s ≤ k)%nat ∧ a_irq (ata_of (disk (drv s))) = true ∧
     ∃ b' s', settles ideintr (set_disk (ata_ack (disk (drv s))) (drv s)) (Some b') s') ∧
  (∀ me b bf, (∀ t' th k, threads s !! t' = Some th → uses th ≠ Some (k, b)) → proper (havedisk1 (drv s)) bf →
     is_Some (a_img (ata_of (disk (drv s))) !! b_key bf) →
     ∃ s1, settles (λ fuel, iderw_submit fuel me b) (set_ibuf (<[b := bf]> (ibuf (drv s))) (drv s)) tt s1).
Proof.
  intros Hrdy Hsteps. assert (inv (a_img (ata_of (disk s0))) s) as Hi.
  { pose proof (start_inv (a_img (ata_of (disk s0))) s0 Hrdy eq_refl) as H0. induction Hsteps as [|x y z Hxy _ IH]; [done|]. apply IH. by eapply step_inv. }
  split_and!.
  - intros t k d Ht. by destruct (to_ret _ _ _ (i_threads _ s Hi t _ Ht) k d eq_refl).
  - intros E. rewrite (i_img _ s Hi). by rewrite take_ge by lia.
  - intros t k b Ht. pose proof (i_threads _ s Hi t _ Ht) as [T1 T2 _ _]. specialize (T2 k b eq_refl). destruct (T1 k b eq_refl) as (r & Hr & _).
    pose proof (lookup_lt_Some _ _ _ Hr). destruct (lookup_lt_is_Some_2 (requests s) (served s)) as [r0 Hr0]; [lia|].
    split; [done|]. split; [by destruct (i_head _ s Hi r0 Hr0)|]. destruct (intr_settles _ s r0 Hi Hr0) as (s' & Hset & _). by exists (r_buf r0), s'.
  - intros me b bf Hun Hp Hs. destruct (call_queued _ s me b bf Hi Hun Hp Hs) as (s1 & Hset & _). by exists s1.
Qed.
End driver.

(** ** A disk to run *)
Module IdeDemo.
(** A disk that is always ready. *)
Definition command (v : Z) (a : ata) : ata :=
  match a_count a =? 1, a_img a !! a_key a with
  | true, Some _ =>
      if v =? IDE_CMD_READ then set_phase (PRead (a_key a)) (a_ien a) a
      else if v =? IDE_CMD_WRITE then set_phase (PWant (a_key a)) (a_irq a) a
      else set_phase PErr (a_ien a) a
  | _, _ => set_phase PErr (a_ien a) a
  end.

#[global] Instance demo_ata_ports : BytePorts ata := {|
  inb _ a := (match a_phase a with PErr => 0x41 | _ => 0x40 end, a);
  outb p v a := if p =? 0x1f7 then command v a else ata_write p v a;
|}.
#[global] Instance demo_ata_words : WordPorts ata := {|
  insl _ _ a := match a_phase a with
    | PRead key => (default [] (a_img a !! key), set_phase PIdle (a_irq a) a)
    | _ => ([], a)
    end;
  outsl _ l a := match a_phase a with
    | PWant key => set_img (<[key := l]> (a_img a)) (set_phase PDone (a_ien a) a)
    | _ => a
    end;
|}.

#[global] Program Instance demo_ata_disk : AtaDisk ata :=
  {| ata_of a := a; busy _ := O; ata_ack a := set_phase (a_phase a) false a |}.
Next Obligation. intros d. cbn. split_and!; try done; by destruct (a_phase d). Qed.
Next Obligation.
  intros p v d _ Hp _. cbn. split; [|done]. destruct (Z.eqb_spec p 503) as [->|]; [|done]. rewrite !elem_of_cons, elem_of_nil in Hp. lia.
Qed.
Next Obligation. intros d _ Hc [l Hl]. cbn. unfold command. by rewrite Hc, Hl. Qed.
Next Obligation. intros d _ Hc [l Hl]. cbn. unfold command. by rewrite Hc, Hl. Qed.
Next Obligation. intros l d key Hp _. cbn. by rewrite Hp. Qed.
Next Obligation. intros d key l _ Hp Hl. cbn. by rewrite Hp, Hl. Qed.
Next Obligation. done. Qed.

(** A process writes block 5 of disk 1 with buffer 0, another one reads the
    block with buffer 1 while the first request is being served. *)
Definition locked (fl : Z) (l : list Z) : buf := mk_buf fl 1 5 (sl_held EmptyString 1) 1 0 0 l.
Definition ones : list Z := replicate 512 1.
Definition d0 : ata := mk_ata 0 (0, 0, 0, 0) 0 false PIdle false (<[(1, 5) := replicate 512 0]> ∅).
Definition s0 : ide ata := mk_ide (λ _, zero_buf) (λ _, None) None true false d0.

Definition ran {A} (m : M (ide ata) A) (s : ide ata) : ide ata := match m s with Done (_, s') => s' | Fail _ => s end.
Definition handed (b : nat) (bf : buf) (s : ide ata) : ide ata := ran (iderw_submit 9 0 b) (set_ibuf (<[b := bf]> (ibuf s)) s).
Definition u1 : ide ata := handed 0 (locked B_DIRTY ones) s0.
Definition s1 : ide ata := ran (iderw_poll 0) u1.
Definition u2 : ide ata := handed 1 (locked 0 (replicate 512 7)) s1.
Definition s2 : ide ata := ran (iderw_poll 1) u2.
Definition s3 : ide ata := ran (ideintr 9) (set_disk (ata_ack (disk s2)) s2).
Definition s4 : ide ata := ran (ideintr 9) (set_disk (ata_ack (disk s3)) s3).
Definition reqs : list req := [mk_req 0 (1, 5) (Some ones); mk_req 1 (1, 5) None].
Definition final : sys (D := ata) := mk_sys s4 (<[1%nat := Returned 1 ones]> (<[0%nat := Runnable 0 0]> ∅)) reqs 2.

Lemma locked_proper fl l : fl = 0 ∨ fl = B_DIRTY → length l = 512%nat → proper true (locked fl l).
Proof. intros Hf Hl. split; cbn; [by right|done|tauto|done|by exists EmptyString, 1]. Qed.

Lemma ran_done {A} (m : M (ide ata) A) s a : match m s with Done (x, _) => x = a | Fail _ => False end → m s = Done (a, ran m s).
Proof. unfold ran. by destruct (m s) as [[x s']|]; [intros ->|]. Qed.

Definition th1 : gmap nat thread := <[0%nat := Sleeping 0 0]> ∅.
Definition th2 : gmap nat thread := <[1%nat := Sleeping 1 1]> th1.
Definition th4 : gmap nat thread := wake (Some 1%nat) <$> (wake (Some 0%nat) <$> th2).

Lemma final_reached : rtc step (start s0) final.
Proof.
  apply (rtc_l _ _ (mk_sys s1 th1 (take 1 reqs) 0)).
  { change (step (start s0) (mk_sys s1 (<[0%nat := polled 0 0 false s1]> (threads (start s0))) (requests (start s0) ++ [req_of 0 (locked B_DIRTY ones)]) 0)).
    apply (call (start s0) 0 0 0 (locked B_DIRTY ones) 9 u1 false s1).
    - done.
    - intros t' th k H. change ((∅ : gmap nat thread) !! t' = Some th) in H. by rewrite lookup_empty in H.
    - apply locked_proper; [by right|reflexivity].
    - by eexists.
    - unfold u1, handed. apply ran_done. by vm_compute.
    - unfold s1. apply ran_done. by vm_compute. }
  set (x1 := mk_sys s1 th1 (take 1 reqs) 0). apply (rtc_l _ _ (mk_sys s2 th2 reqs 0)).
  { change (step x1 (mk_sys s2 (<[1%nat := polled 1 1 false s2]> (threads x1)) (requests x1 ++ [req_of 1 (locked 0 (replicate 512 7))]) 0)).
    apply (call x1 1 0 1 (locked 0 (replicate 512 7)) 9 u2 false s2).
    - done.
    - intros t' th k H. change ((<[0%nat := Sleeping 0 0]> ∅ : gmap nat thread) !! t' = Some th) in H. apply lookup_insert_Some in H as [[<- <-]|[_ H]]; [done|by rewrite lookup_empty in H].
    - change (havedisk1 (drv x1)) with true. apply locked_proper; [by left|reflexivity].
    - vm_compute. by eexists.
    - unfold u2, handed. change (drv x1) with s1. apply ran_done. by vm_compute.
    - unfold s2. apply ran_done. by vm_compute. }
  clear x1. apply (rtc_l _ _ (mk_sys s3 (wake (Some 0%nat) <$> th2) reqs 1)).
  { apply (interrupt (mk_sys s2 th2 reqs 0) 9 (Some 0%nat) s3); [by vm_compute|]. unfold s3. apply (ran_done (ideintr 9)). by vm_compute. }
  apply (rtc_l _ _ (mk_sys s4 th4 reqs 2)).
  { set (x3 := mk_sys s3 _ _ _). change (step x3 (mk_sys s4 (wake (Some 1%nat) <$> threads x3) (requests x3) (S (served x3)))).
    apply (interrupt x3 9 (Some 1%nat) s4); [by vm_compute|]. unfold s4. apply (ran_done (ideintr 9)). by vm_compute. }
  apply (rtc_l _ _ (mk_sys s4 (<[1%nat := polled 1 1 true s4]> th4) reqs 2)).
  { apply (resume (mk_sys s4 th4 reqs 2) 1 1 1 true s4); [by vm_compute|]. cbn [drv]. by rewrite (poll_run s4 1) by (by vm_compute). }
  assert (<[1%nat := polled 1 1 true s4]> th4 = threads final) as ->; [|done].
  assert (polled 1 1 true s4 = Returned 1 ones) as -> by (by vm_compute). by vm_compute.
Qed.
End IdeDemo.

Lemma ide_serves_in_order_witness :
  answer (a_img (ata_of (disk IdeDemo.s0))) (requests IdeDemo.final) 1 = Some IdeDemo.ones ∧
  a_img (ata_of (disk (drv IdeDemo.final))) = image (a_img (ata_of (disk IdeDemo.s0))) (requests IdeDemo.final).
Proof.
  destruct (ide_serves_in_order IdeDemo.s0 IdeDemo.final) as (H1 & H2 & _); [by vm_compute|exact IdeDemo.final_reached|].
  split; [apply (H1 1%nat 1%nat IdeDemo.ones); reflexivity|apply H2; reflexivity].
Defined.
