(* ===== verification/Boot.v ===== *)
(** * bootmain.c: the boot loader

    The loader runs on physical memory and reads the disk through the ports,
    without interrupts.  The result [Some entry] is the jump to the kernel's
    entry point, [None] the return to bootasm.S.  The disk is the one of
    IdeSpec.v. *)

From S2P Require Import Prelude CString Irq Ide IdeSpec Exec ExecSpec.

Module Boot.
Definition SECTSIZE : Z := 512.

(** Where the loader puts the ELF header and the program headers. *)
Definition SCRATCH : Z := 0x10000.

Record bst (D : Type) := mk_bst { bmem : mem; bdisk : D }.
Arguments mk_bst {D}. Arguments bmem {D}. Arguments bdisk {D}.

Section bootmain.
Context {D : Type} `{!BytePorts D} `{!WordPorts D}.
Abbreviation bst := (bst D).

Definition boot_in (port : Z) : M bst Z := λ s, let '(v, d) := inb port (bdisk s) in Done (v, mk_bst (bmem s) d).
Definition boot_out (port v : Z) : M bst unit := modify (λ s, mk_bst (bmem s) (outb port (u8 v) (bdisk s))).

Fixpoint waitdisk (fuel : nat) : M bst unit :=
  match fuel with
  | O => fail EFuel
  | S fuel' => r <- boot_in 0x1F7;; if negb (Z.land r 0xC0 =? 0x40) then waitdisk fuel' else ret tt
  end.

Definition readsect (fuel : nat) (dst offset : Z) : M bst unit :=
  waitdisk fuel;;
  boot_out 0x1F2 1;;
  boot_out 0x1F3 offset;;
  boot_out 0x1F4 (Z.shiftr offset 8);;
  boot_out 0x1F5 (Z.shiftr offset 16);;
  boot_out 0x1F6 (Z.lor (Z.shiftr offset 24) 0xE0);;
  boot_out 0x1F7 0x20;;
  waitdisk fuel;;
  (λ s, let '(l, d) := insl 0x1F0 (Z.to_nat (SECTSIZE / 4)) (bdisk s) in Done (tt, mk_bst (write_bytes dst l (bmem s)) d)).

(** [n] bounds the rounds, [fuel] the waiting in each of them. *)
Fixpoint readseg_loop (fuel n : nat) (pa epa offset : Z) : M bst unit :=
  match n with
  | O => fail EFuel
  | S n' =>
      if pa <? epa then
        readsect fuel pa offset;;
        readseg_loop fuel n' (u32 (pa + SECTSIZE)) epa (u32 (offset + 1))
      else ret tt
  end.

Definition readseg (fuel : nat) (pa count offset : Z) : M bst unit :=
  let epa := u32 (pa + count) in
  let pa := u32 (pa - offset mod SECTSIZE) in
  let offset := u32 (offset / SECTSIZE + 1) in
  readseg_loop fuel fuel pa epa offset.

(** The loop over the [n] program headers from [ph] on. *)
Fixpoint boot_load (fuel n : nat) (ph : Z) : M bst unit :=
  match n with
  | O => ret tt
  | S n' =>
      p <- gets (λ s, proghdr_of (read_bytes (bmem s) ph (Z.to_nat sizeof_proghdr)));;
      let pa := paddr p in
      readseg fuel pa (filesz p) (ph_off p);;
      when (filesz p <? memsz p)
        (modify (λ s, mk_bst (stosb (Z.to_nat (memsz p - filesz p)) (u32 (pa + filesz p)) 0 (bmem s)) (bdisk s)));;
      boot_load fuel n' (ph + sizeof_proghdr)
  end.

Definition bootmain (fuel : nat) : M bst (option Z) :=
  let elf := SCRATCH in
  readseg fuel elf 4096 0;;
  eh <- gets (λ s, elfhdr_of (read_bytes (bmem s) elf (Z.to_nat sizeof_elfhdr)));;
  if negb (magic eh =? ELF_MAGIC) then ret None
  else
    boot_load fuel (Z.to_nat (phnum eh)) (elf + phoff eh);;
    e <- gets (λ s, elf_entry (elfhdr_of (read_bytes (bmem s) elf (Z.to_nat sizeof_elfhdr))));;
    ret (Some e).
End bootmain.

(** ** Reading the disk *)

Section spec.
Context {D : Type} `{!BytePorts D} `{!WordPorts D} `{!AtaDisk D}.
Abbreviation bst := (bst D).

Lemma waitdisk_run (s : bst) :
  ∃ d, settles waitdisk s tt (mk_bst (bmem s) d) ∧ ata_of d = ata_of (bdisk s) ∧ busy d = O.
Proof.
  remember (busy (bdisk s)) as n eqn:Hn. revert s Hn. induction n as [|n IH]; intros s Hn; destruct (ata_poll (bdisk s)) as (H1 & H2 & H3 & _).
  - exists (snd (inb 503 (bdisk s))). split; [|rewrite H2, <-Hn; done]. exists 1%nat. intros [|fuel]; [done|]. cbn [waitdisk].
    unfold bind, boot_in. destruct H3 as [_ H3]. specialize (H3 (eq_sym Hn)). change (Z.lor IDE_BSY IDE_DRDY) with 0xC0 in H3.
    destruct (inb 503 (bdisk s)) as [v d]. cbn [fst snd] in *. by rewrite H3.
  - destruct (IH (mk_bst (bmem s) (snd (inb 503 (bdisk s))))) as (d & [N HN] & Ha & Hb); [cbn; rewrite H2, <-Hn; done|].
    exists d. cbn [bdisk bmem] in *. split; [|split; [congruence|done]]. exists (S N). intros [|fuel]; [done|]. cbn [waitdisk].
    unfold bind, boot_in. change (Z.lor IDE_BSY IDE_DRDY) with 0xC0 in H3. destruct (inb 503 (bdisk s)) as [v d']. cbn [fst snd] in *.
    assert ((Z.land v 0xC0 =? 0x40) = false) as -> by (apply Z.eqb_neq; intros E; apply H3 in E; congruence).
    cbn [negb]. by rewrite HN.
Qed.

Lemma boot_out_run p v (s : bst) :
  busy (bdisk s) = O → p ∈ [0x3f6; 0x1f2; 0x1f3; 0x1f4; 0x1f5; 0x1f6] →
  ∃ d, boot_out p v s = Done (tt, mk_bst (bmem s) d) ∧ ata_of d = ata_write p (u8 v) (ata_of (bdisk s)) ∧ busy d = O.
Proof. intros Hb Hp. eexists. split; [done|]. apply ata_reg; [done|done|apply u8_range]. Qed.

Lemma lba_parts x : 0 ≤ x < 2 ^ 28 →
  u8 x + 2 ^ 8 * u8 (Z.shiftr x 8) + 2 ^ 16 * u8 (Z.shiftr x 16) + 2 ^ 24 * Z.land (u8 (Z.lor (Z.shiftr x 24) 0xE0)) 15 = x ∧
  Z.testbit (u8 (Z.lor (Z.shiftr x 24) 0xE0)) 4 = false.
Proof.
  intros Hx. assert (0 ≤ x / 2 ^ 24 < 16) as Hh by (split; [apply Z.div_pos; lia|apply Z.div_lt_upper_bound; lia]).
  rewrite !Z.shiftr_div_pow2 by lia.
  assert (Z.land (u8 (Z.lor (x / 2 ^ 24) 0xE0)) 15 = x / 2 ^ 24 ∧ Z.testbit (u8 (Z.lor (x / 2 ^ 24) 0xE0)) 4 = false) as [-> ->].
  { set (y := x / 2 ^ 24) in *. clearbody y. assert (y ∈ seqZ 0 16) as Hy by (apply elem_of_seqZ; lia). clear Hh.
    revert y Hy. apply Forall_forall. apply (bool_decide_eq_true_1 _). by vm_compute. }
  split; [|done]. unfold u8. change (2 ^ 24) with (2 ^ 8 * 2 ^ 8 * 2 ^ 8). change (2 ^ 16) with (2 ^ 8 * 2 ^ 8).
  rewrite <-!Z.div_div by lia. pose proof (Z.div_mod x (2 ^ 8)). pose proof (Z.div_mod (x / 2 ^ 8) (2 ^ 8)).
  pose proof (Z.div_mod (x / 2 ^ 8 / 2 ^ 8) (2 ^ 8)). lia.
Qed.

Lemma readsect_run (s : bst) dst offset l : 0 ≤ offset < 2 ^ 28 → a_img (ata_of (bdisk s)) !! (0, offset) = Some l →
  ∃ d, settles (λ fuel, readsect fuel dst offset) s tt (mk_bst (write_bytes dst l (bmem s)) d) ∧
       a_img (ata_of d) = a_img (ata_of (bdisk s)).
Proof.
  intros Ho Hl. destruct (waitdisk_run s) as (d0 & W0 & A0 & B0). set (m := bmem s) in *.
  destruct (boot_out_run 0x1F2 1 (mk_bst m d0) B0) as (d1 & E1 & A1 & B1); [set_solver|].
  destruct (boot_out_run 0x1F3 offset (mk_bst m d1) B1) as (d2 & E2 & A2 & B2); [set_solver|].
  destruct (boot_out_run 0x1F4 (Z.shiftr offset 8) (mk_bst m d2) B2) as (d3 & E3 & A3 & B3); [set_solver|].
  destruct (boot_out_run 0x1F5 (Z.shiftr offset 16) (mk_bst m d3) B3) as (d4 & E4 & A4 & B4); [set_solver|].
  destruct (boot_out_run 0x1F6 (Z.lor (Z.shiftr offset 24) 0xE0) (mk_bst m d4) B4) as (d5 & E5 & A5 & B5); [set_solver|].
  destruct (lba_parts offset Ho) as [Hs1 Hs2]. cbn [bdisk bmem] in *.
  destruct (ata_of (bdisk s)) as [cnt [[[l0 l1] l2] l3] dr ien ph irq img]. cbn [a_img] in *.
  rewrite A0 in A1. rewrite A1 in A2. rewrite A2 in A3. rewrite A3 in A4. rewrite A4 in A5. clear A0 A1 A2 A3 A4.
  set (v5 := u8 (Z.lor _ 0xE0)) in *. set (v2 := u8 offset) in *. set (v3 := u8 (Z.shiftr offset 8)) in *. set (v4 := u8 (Z.shiftr offset 16)) in *.
  change (ata_of d5 = mk_ata (u8 1) (v2, v3, v4, Z.land v5 15) (Z.b2z (Z.testbit v5 4)) ien ph irq img) in A5.
  assert (a_key (ata_of d5) = (0, offset)) as Hkey by (rewrite A5; unfold a_key; cbn [a_lba a_drive]; by rewrite Hs2, Hs1).
  pose proof (ata_cmd_read d5 B5) as Hc. rewrite Hkey in Hc. rewrite A5 in Hc at 1 2. cbn [a_count a_img] in Hc.
  specialize (Hc eq_refl ltac:(by eexists)). set (d6 := outb 0x1f7 IDE_CMD_READ d5) in *.
  destruct (waitdisk_run (mk_bst m d6)) as (d7 & W7 & A7 & B7). cbn [bdisk bmem] in *. rewrite Hc in A7.
  destruct (ata_data_in d7 (0, offset) l B7) as [Hi1 Hi2]; [by rewrite A7|by rewrite A7, A5|].
  exists (snd (insl 0x1f0 (Z.to_nat (SECTOR_SIZE / 4)) d7)). split; [|by rewrite Hi2, A7, A5].
  unfold readsect. eapply settles_bind; [exact W0|]. eapply settles_step; [exact E1|]. eapply settles_step; [exact E2|].
  eapply settles_step; [exact E3|]. eapply settles_step; [exact E4|]. eapply settles_step; [exact E5|].
  eapply settles_step; [done|]. fold m. eapply settles_bind; [exact W7|]. apply settles_done. cbn [bdisk bmem].
  change (SECTSIZE / 4) with (SECTOR_SIZE / 4). destruct (insl 0x1F0 _ d7) as [x d8]. cbn in Hi1 |- *. by rewrite Hi1.
Qed.

(** [n] sectors of the disk from sector 1 on hold the bytes [k]. *)
Definition on_disk (img : gmap (Z * Z) (list Z)) (k : list Z) : Prop :=
  ∃ n, Z.of_nat (length k) = 512 * n ∧ n < 2 ^ 28 - 1 ∧
  ∀ i, 0 ≤ i < n → img !! (0, 1 + i) = Some (take 512 (drop (Z.to_nat (512 * i)) k)).

Lemma on_disk_sector img k i : on_disk img k → 0 ≤ i → 512 * i < Z.of_nat (length k) →
  1 + i < 2 ^ 28 ∧ img !! (0, 1 + i) = Some (take 512 (drop (Z.to_nat (512 * i)) k)) ∧ 512 * i + 512 ≤ Z.of_nat (length k).
Proof. intros (n & Hn & Hlt & H) Hi Hk. split; [lia|]. split; [apply H; lia|lia]. Qed.

(** The bytes of [k] from [off] on are at [a], up to [a + n]; the rest of the
    memory is that of [m]. *)
Definition overlaid (m m' : mem) (k : list Z) (a off n : Z) : Prop :=
  ∀ x, m' x = if decide (a ≤ x < a + n) then k !!! Z.to_nat (off + (x - a)) else m x.

Lemma readseg_loop_run img k n : ∀ (s : bst) pa epa i,
  on_disk img k → a_img (ata_of (bdisk s)) = img → 0 ≤ i → 512 * (i + Z.of_nat n) ≤ Z.of_nat (length k) →
  0 ≤ pa → pa + 512 * Z.of_nat n < 2 ^ 32 → pa + 512 * Z.of_nat n - 512 < epa ≤ pa + 512 * Z.of_nat n ∨ (epa ≤ pa ∧ n = O) →
  ∃ T s', (∀ fuel r, readseg_loop fuel r pa epa (1 + i) s = if (T <=? fuel)%nat && (n <? r)%nat then Done (tt, s') else Fail EFuel) ∧
    a_img (ata_of (bdisk s')) = img ∧ overlaid (bmem s) (bmem s') k pa (512 * i) (512 * Z.of_nat n).
Proof.
  induction n as [|n IH]; intros s pa epa i Hd Hs Hi Hk Hpa Hw He.
  - exists O, s. split; [|split; [done|]]; [|intros x; by case_decide; [lia|]]. intros fuel [|r]; [done|]. cbn [readseg_loop].
    by rewrite (proj2 (Z.ltb_ge pa epa)) by lia.
  - destruct (on_disk_sector img k i Hd) as (H1 & H2 & H3); [lia|lia|]. rewrite <-Hs in H2.
    destruct (readsect_run s pa (1 + i) _ ltac:(lia) H2) as (d & [N HN] & Hdi).
    set (s1 := mk_bst (write_bytes pa (take 512 (drop (Z.to_nat (512 * i)) k)) (bmem s)) d) in *.
    destruct (IH s1 (pa + 512) epa (i + 1) Hd) as (T & s' & HT & Hi' & Ho); [cbn; congruence|lia|lia|lia|lia|lia|].
    exists (Nat.max T N), s'. split; [|split; [done|]].
    + intros fuel [|r]; [by rewrite andb_false_r|]. cbn [readseg_loop]. rewrite (proj2 (Z.ltb_lt pa epa)) by lia. unfold bind. rewrite HN.
      unfold SECTSIZE. rewrite !u32_small by lia. replace (1 + i + 1) with (1 + (i + 1)) by lia. change (S n <? S r)%nat with (n <? r)%nat.
      destruct (Nat.leb_spec N fuel), (Nat.leb_spec (Nat.max T N) fuel); try lia; rewrite ?HT; destruct (Nat.leb_spec T fuel); try lia; done.
    + intros x. rewrite Ho. unfold s1. cbn [bmem]. rewrite write_bytes_spec, length_take, length_drop.
      replace (Z.of_nat (512 `min` (length k - Z.to_nat (512 * i)))) with 512 by lia.
      repeat case_decide; try lia; try done; [f_equal; lia|]. rewrite !list_lookup_total_alt, lookup_take_lt, lookup_drop by lia. do 2 f_equal. lia.
Qed.

(** The number of sectors [readseg] reads, and what it reads. *)
Definition nsect (count off : Z) : Z := (count + off mod 512 + 511) / 512.

Lemma readseg_run img k (s : bst) pa count off :
  on_disk img k → a_img (ata_of (bdisk s)) = img → 0 ≤ count → 0 ≤ off → off + count ≤ Z.of_nat (length k) →
  off mod 512 ≤ pa → pa + count + 512 < 2 ^ 32 →
  ∃ s', settles (λ fuel, readseg fuel pa count off) s tt s' ∧ a_img (ata_of (bdisk s')) = img ∧
    overlaid (bmem s) (bmem s') k (pa - off mod 512) (off - off mod 512) (512 * nsect count off).
Proof.
  intros Hd Hs Hc Ho Hk Hpa Hw. pose proof Hd as (n & Hn & Hlt & _). pose proof (Z.mod_pos_bound off 512). pose proof (Z.div_mod off 512 ltac:(lia)).
  set (q := off / 512) in *. set (r := off mod 512) in *. pose proof (Z.div_mod (count + r + 511) 512 ltac:(lia)).
  pose proof (Z.mod_pos_bound (count + r + 511) 512). unfold nsect. fold r. set (N := (count + r + 511) / 512) in *.
  destruct (readseg_loop_run img k (Z.to_nat N) s (pa - r) (pa + count) q Hd Hs) as (T & s' & HT & Hi & Hov); try lia.
  exists s'. split; [|split; [done|]].
  - exists (Nat.max T (S (Z.to_nat N))). intros fuel. unfold readseg, SECTSIZE. fold q r. rewrite !u32_small by lia. rewrite (Z.add_comm q 1), HT.
    destruct (Nat.leb_spec T fuel), (Nat.ltb_spec (Z.to_nat N) fuel), (Nat.leb_spec (Nat.max T (S (Z.to_nat N))) fuel); try lia; done.
  - replace (off - r) with (512 * q) by lia. by rewrite Z2Nat.id in Hov by lia.
Qed.

(** ** The kernel file *)

Definition khdr (k : list Z) : elfhdr := elfhdr_of (take 52 k).
Definition kph (k : list Z) (i : Z) : proghdr := proghdr_of (take 32 (drop (Z.to_nat (phoff (khdr k) + 32 * i)) k)).
Definition phdrs (k : list Z) : list proghdr := kph k <$> seqZ 0 (phnum (khdr k)).

(** The addresses the loader writes to for a segment: whole sectors, and what
    it clears. *)
Definition seg_lo (p : proghdr) : Z := paddr p - ph_off p mod 512.
Definition touched (p : proghdr) (x : Z) : Prop :=
  seg_lo p ≤ x < Z.max (seg_lo p + 512 * nsect (filesz p) (ph_off p)) (paddr p + memsz p).

(** A segment that is in the file, fits into memory, and leaves the headers
    alone. *)
Record seg_ok (k : list Z) (p : proghdr) : Prop := {
  so_file : ph_off p + filesz p ≤ Z.of_nat (length k);
  so_size : filesz p ≤ memsz p;
  so_lo : ph_off p mod 512 ≤ paddr p;
  so_hi : paddr p + memsz p + 512 < 2 ^ 32;
  so_scratch x : SCRATCH ≤ x < SCRATCH + 4096 → ¬ touched p x;
}.

(** A kernel the loader can load: the program headers are in the first page
    of the file, and the sectors of a segment do not reach into an earlier
    segment. *)
Record kernel_ok (k : list Z) : Prop := {
  ko_bytes : bytes k;
  ko_page : 4096 ≤ Z.of_nat (length k);
  ko_magic : magic (khdr k) = ELF_MAGIC;
  ko_headers : phoff (khdr k) + 32 * phnum (khdr k) ≤ 4096;
  ko_segs p : p ∈ phdrs k → seg_ok k p;
  ko_order i j p q x : (i < j)%nat → phdrs k !! i = Some p → phdrs k !! j = Some q → paddr p ≤ x < paddr p + memsz p → ¬ touched q x;
}.

(** The segment is in memory: its bytes from the file, then zeros. *)
Definition loaded (k : list Z) (m : mem) (p : proghdr) : Prop :=
  ∀ x, 0 ≤ x < memsz p → m (paddr p + x) = if decide (x < filesz p) then k !!! Z.to_nat (ph_off p + x) else 0.

(** The first page of the file is in the scratch space. *)
Definition headers_in (k : list Z) (m : mem) : Prop := ∀ x, 0 ≤ x < 4096 → m (SCRATCH + x) = k !!! Z.to_nat x.

Lemma headers_read k m off n : headers_in k m → 4096 ≤ Z.of_nat (length k) → 0 ≤ off → off + Z.of_nat n ≤ 4096 →
  read_bytes m (SCRATCH + off) n = take n (drop (Z.to_nat off) k).
Proof.
  intros Hh Hk Ho Hn. apply list_eq. intros i. destruct (decide (i < n)%nat) as [Hi|Hi].
  - rewrite lookup_read_bytes, lookup_take_lt, lookup_drop by done. rewrite <-Z.add_assoc, Hh by lia.
    rewrite list_lookup_total_alt. replace (Z.to_nat (off + Z.of_nat i)) with (Z.to_nat off + i)%nat by lia.
    destruct (lookup_lt_is_Some_2 k (Z.to_nat off + i)) as [b ->]; [lia|done].
  - rewrite !lookup_ge_None_2; [done|rewrite length_take; lia|rewrite length_read_bytes; lia].
Qed.

Lemma kph_nonneg k i : bytes k → 0 ≤ ph_off (kph k i) ∧ 0 ≤ filesz (kph k i) ∧ 0 ≤ paddr (kph k i) ∧ 0 ≤ memsz (kph k i).
Proof.
  intros Hk. assert (bytes (take 32 (drop (Z.to_nat (phoff (khdr k) + 32 * i)) k))) as Hb by by apply Forall_take, Forall_drop.
  unfold kph, proghdr_of. cbn [ph_off filesz paddr memsz]. split_and!; by apply field_range.
Qed.

(** One round of the loop. *)
Lemma load_segment img k (s : bst) p :
  on_disk img k → a_img (ata_of (bdisk s)) = img → seg_ok k p → 0 ≤ ph_off p → 0 ≤ filesz p →
  ∃ s', settles (λ fuel, readseg fuel (paddr p) (filesz p) (ph_off p);;
          when (filesz p <? memsz p)
            (modify (λ s, mk_bst (stosb (Z.to_nat (memsz p - filesz p)) (u32 (paddr p + filesz p)) 0 (bmem s)) (bdisk s)))) s tt s' ∧
    a_img (ata_of (bdisk s')) = img ∧ loaded k (bmem s') p ∧ ∀ x, ¬ touched p x → bmem s' x = bmem s x.
Proof.
  intros Hd Hs [K1 K2 K3 K4 _] Ho Hf. destruct (readseg_run img k s (paddr p) (filesz p) (ph_off p) Hd Hs) as (s1 & Hset & Hi & Hov); try lia.
  pose proof (Z.mod_pos_bound (ph_off p) 512 ltac:(lia)) as Hr. fold (seg_lo p) in Hov.
  assert (filesz p + ph_off p mod 512 ≤ 512 * nsect (filesz p) (ph_off p)) as Hn.
  { unfold nsect. pose proof (Z.div_mod (filesz p + ph_off p mod 512 + 511) 512). pose proof (Z.mod_pos_bound (filesz p + ph_off p mod 512 + 511) 512). lia. }
  assert (∀ x, 0 ≤ x < filesz p → bmem s1 (paddr p + x) = k !!! Z.to_nat (ph_off p + x)) as Hin.
  { intros x Hx. rewrite Hov. unfold seg_lo. rewrite decide_True by lia. f_equal. lia. }
  assert (∀ x, ¬ touched p x → bmem s1 x = bmem s x) as Hout.
  { intros x Hx. rewrite Hov. rewrite decide_False; [done|]. unfold touched in Hx. lia. }
  unfold when. destruct (Z.ltb_spec (filesz p) (memsz p)) as [Hm|Hm].
  - eexists. split; [eapply settles_bind; [exact Hset|]; by apply settles_done|]. cbn [bdisk bmem]. split; [done|].
    assert (∀ x, stosb (Z.to_nat (memsz p - filesz p)) (u32 (paddr p + filesz p)) 0 (bmem s1) x =
      if decide (paddr p + filesz p ≤ x < paddr p + memsz p) then 0 else bmem s1 x) as Hst.
    { intros x. rewrite stosb_spec, u32_small by lia. rewrite Z2Nat.id by lia. repeat case_decide; try lia; done. }
    split; intros x Hx; rewrite Hst; repeat case_decide; try lia; try done.
    + apply Hin. lia.
    + exfalso. apply Hx. unfold touched, seg_lo. lia.
    + by apply Hout.
  - exists s1. split; [eapply settles_bind; [exact Hset|]; by apply settles_done|]. split; [done|]. split; [|done].
    intros x Hx. rewrite decide_True by lia. apply Hin. lia.
Qed.

Lemma boot_load_run img k n : ∀ i (s : bst),
  on_disk img k → kernel_ok k → a_img (ata_of (bdisk s)) = img → headers_in k (bmem s) →
  i + Z.of_nat n = phnum (khdr k) → 0 ≤ i → (∀ j p, j < i → phdrs k !! Z.to_nat j = Some p → 0 ≤ j → loaded k (bmem s) p) →
  ∃ s', settles (λ fuel, boot_load fuel n (SCRATCH + (phoff (khdr k) + 32 * i))) s tt s' ∧
    headers_in k (bmem s') ∧ ∀ p, p ∈ phdrs k → loaded k (bmem s') p.
Proof.
  induction n as [|n IH]; intros i s Hd Hk Hs Hh Hin Hi Hl.
  - exists s. split; [by apply settles_done|]. split; [done|]. intros p Hp. apply list_elem_of_lookup in Hp as [j Hj].
    pose proof (lookup_lt_Some _ _ _ Hj) as Hlt. unfold phdrs in Hlt. rewrite length_fmap, length_seqZ in Hlt.
    apply (Hl (Z.of_nat j)); [lia|by rewrite Nat2Z.id|lia].
  - pose proof Hk as [K1 K2 K3 K4 K5 K6]. set (p := kph k i).
    assert (phdrs k !! Z.to_nat i = Some p) as Hp.
    { unfold phdrs. rewrite list_lookup_fmap, lookup_seqZ_lt by lia. cbn. f_equal. unfold p. f_equal. lia. }
    destruct (kph_nonneg k i K1) as (N1 & N2 & N3 & N4). fold p in N1, N2, N3, N4.
    assert (seg_ok k p) as Hsp by (apply K5; by eapply list_elem_of_lookup_2).
    assert (0 ≤ phoff (khdr k)) as Hph by (unfold khdr, elfhdr_of; cbn [phoff]; apply field_range; by apply Forall_take).
    destruct (load_segment img k s p Hd Hs Hsp N1 N2) as (s1 & Hset & Hi1 & Hl1 & Hout).
    destruct (IH (i + 1) s1 Hd Hk Hi1) as (s2 & Hset2 & Hh2 & Hl2); [|lia|lia| |].
    + intros x Hx. rewrite Hout by (apply (so_scratch k p Hsp); lia). by apply Hh.
    + intros j q Hj Hq Hj0. destruct (decide (j = i)) as [->|Hne]; [by rewrite Hp in Hq; injection Hq as <-|].
      intros x Hx. rewrite Hout; [apply (Hl j q); [lia|done|done|done]|]. apply (K6 (Z.to_nat j) (Z.to_nat i) q p); [lia|done|done|lia].
    + exists s2. split; [|done]. cbn [boot_load]. eapply settles_step; [done|]. cbn beta.
      rewrite (headers_read k) by (done || (unfold sizeof_proghdr; lia)). fold (kph k i). fold p.
      replace (SCRATCH + (phoff (khdr k) + 32 * i) + sizeof_proghdr) with (SCRATCH + (phoff (khdr k) + 32 * (i + 1))) by (unfold sizeof_proghdr; lia).
      by eapply settles_seq.
Qed.

(** From a disk that holds a kernel the loader can load, [bootmain] jumps
    to the kernel's entry point, and memory then holds every segment of the
    kernel, its bytes from the file followed by zeros; this however often the
    disk makes it wait.  From a disk that holds something other than an ELF
    file it returns. *)
Theorem bootmain_loads k (s : bst) :
  on_disk (a_img (ata_of (bdisk s))) k →
  (kernel_ok k →
     ∃ s', settles bootmain s (Some (elf_entry (khdr k))) s' ∧ ∀ p, p ∈ phdrs k → loaded k (bmem s') p) ∧
  (4096 ≤ Z.of_nat (length k) → magic (khdr k) ≠ ELF_MAGIC → ∃ s', settles bootmain s None s').
Proof.
  intros Hd. assert (4096 ≤ Z.of_nat (length k) → ∃ s1, settles (λ fuel, readseg fuel SCRATCH 4096 0) s tt s1 ∧
    a_img (ata_of (bdisk s1)) = a_img (ata_of (bdisk s)) ∧ headers_in k (bmem s1)) as Hfirst.
  { intros Hk. destruct (readseg_run _ k s SCRATCH 4096 0 Hd eq_refl) as (s1 & Hset & Hi & Hov); try (unfold SCRATCH; lia); [done|].
    exists s1. split; [done|]. split; [done|]. intros x Hx. rewrite Hov. change (nsect 4096 0) with 8. change (0 mod 512) with 0.
    rewrite decide_True by lia. f_equal. lia. }
  assert (∀ m, headers_in k m → 4096 ≤ Z.of_nat (length k) → elfhdr_of (read_bytes m SCRATCH (Z.to_nat sizeof_elfhdr)) = khdr k) as Hhdr.
  { intros m Hh Hk. pose proof (headers_read k m 0 52 Hh Hk ltac:(lia) ltac:(lia)) as E. rewrite Z.add_0_r in E. unfold khdr.
    change (Z.to_nat sizeof_elfhdr) with 52%nat. by rewrite E. }
  split.
  - intros Hk. pose proof Hk as [K1 K2 K3 K4 _ _]. destruct (Hfirst K2) as (s1 & Hset & Hi & Hh).
    assert (0 ≤ phnum (khdr k)) as Hn by (unfold khdr, elfhdr_of; cbn [phnum]; apply field_range; by apply Forall_take).
    destruct (boot_load_run _ k (Z.to_nat (phnum (khdr k))) 0 s1 Hd Hk Hi Hh) as (s2 & Hset2 & Hh2 & Hl); [lia|lia|intros; lia|].
    exists s2. split; [|done]. eapply settles_bind; [exact Hset|]. eapply settles_step; [done|]. cbn beta.
    rewrite Hhdr, K3 by done. change (ELF_MAGIC =? ELF_MAGIC) with true. cbn [negb].
    rewrite Z.mul_0_r, Z.add_0_r in Hset2. eapply settles_bind; [exact Hset2|]. apply settles_done. unfold bind, gets. by rewrite Hhdr.
  - intros Hk Hm. destruct (Hfirst Hk) as (s1 & Hset & _ & Hh). exists s1. eapply settles_bind; [exact Hset|].
    eapply settles_step; [done|]. cbn beta. rewrite Hhdr by done. rewrite (proj2 (Z.eqb_neq _ _)) by done. by apply settles_done.
Qed.
End spec.

(** ** A kernel to load *)
Module BootDemo.
Definition ph (off pa fsz msz : Z) : list Z := concat (le_bytes 4 <$> [1; off; pa; pa; fsz; msz; 5; 4096]).

(** Two segments: 10 bytes of the file with 10 zeros, and 5 bytes that do not
    start at a sector. *)
Definition kernel : list Z :=
  let hdr := le_bytes 4 ELF_MAGIC ++ replicate 20 0 ++ le_bytes 4 0x10000C ++ le_bytes 4 52 ++ replicate 12 0 ++ le_bytes 2 2 ++ replicate 6 0 in
  hdr ++ ph 4096 0x100000 10 20 ++ ph 4200 0x101068 5 5 ++ replicate 3980 0 ++ ((λ i, u8 i) <$> seqZ 1 512).

Definition image : gmap (Z * Z) (list Z) :=
  list_to_map ((λ i, ((0, 1 + i), take 512 (drop (Z.to_nat (512 * i)) kernel))) <$> seqZ 0 9).
Definition disk0 : ata := mk_ata 0 (0, 0, 0, 0) 0 false PIdle false image.
Definition start : bst ata := mk_bst (λ _, 0xAA) disk0.

Lemma kernel_on_disk : on_disk image kernel.
Proof.
  exists 9. split; [by vm_compute|]. split; [lia|]. intros i Hi. assert (i ∈ seqZ 0 9) as Hs by (apply elem_of_seqZ; lia).
  clear Hi. revert i Hs. apply Forall_forall, (bool_decide_eq_true_1 _). by vm_compute.
Qed.

Definition p1 : proghdr := mk_proghdr 1 4096 0x100000 0x100000 10 20 5 4096.
Definition p2 : proghdr := mk_proghdr 1 4200 0x101068 0x101068 5 5 5 4096.

Lemma kernel_phdrs : phdrs kernel = [p1; p2].
Proof. by vm_compute. Qed.

Lemma touched_p1 x : touched p1 x ↔ 0x100000 ≤ x < 0x100200.
Proof. unfold touched. by change (seg_lo p1) with 0x100000; change (Z.max _ _) with 0x100200. Qed.
Lemma touched_p2 x : touched p2 x ↔ 0x101000 ≤ x < 0x101200.
Proof. unfold touched. by change (seg_lo p2) with 0x101000; change (Z.max _ _) with 0x101200. Qed.

Lemma kernel_is_ok : kernel_ok kernel.
Proof.
  assert (length kernel = 4608%nat) as Hlen by by vm_compute. split.
  - apply (bool_decide_eq_true_1 _). by vm_compute.
  - rewrite Hlen. lia.
  - by vm_compute.
  - by vm_compute.
  - rewrite kernel_phdrs. intros p Hp. apply elem_of_cons in Hp as [->|Hp]; [|apply list_elem_of_singleton in Hp as ->];
      (split; [rewrite Hlen; cbn; lia|cbn; lia|by vm_compute|cbn; lia|]); intros x Hx; rewrite ?touched_p1, ?touched_p2; unfold SCRATCH in Hx; lia.
  - rewrite kernel_phdrs. intros i j p q x Hij Hp Hq.
    destruct i as [|[|i]], j as [|[|j]]; try lia; cbn in Hp, Hq; try done. injection Hp as <-. injection Hq as <-.
    cbn [paddr memsz p1]. rewrite touched_p2. lia.
Qed.
End BootDemo.

Lemma bootmain_loads_witness :
  ∃ s', settles bootmain BootDemo.start (Some 0x10000C) s' ∧ bmem s' 0x100009 = 10 ∧ bmem s' 0x10000A = 0 ∧ bmem s' 0x101068 = 105.
Proof.
  assert (on_disk (a_img (ata_of (bdisk BootDemo.start))) BootDemo.kernel) as Hd by exact BootDemo.kernel_on_disk.
  destruct (bootmain_loads BootDemo.kernel BootDemo.start Hd) as [H _].
  destruct (H BootDemo.kernel_is_ok) as (s' & Hset & Hl). exists s'. split; [exact Hset|].
  pose proof (Hl BootDemo.p1 ltac:(rewrite BootDemo.kernel_phdrs; by left)) as H1.
  pose proof (Hl BootDemo.p2 ltac:(rewrite BootDemo.kernel_phdrs; right; by left)) as H2.
  split; [|split].
  - change 0x100009 with (paddr BootDemo.p1 + 9). rewrite (H1 9 ltac:(cbn; lia)). by vm_compute.
  - change 0x10000A with (paddr BootDemo.p1 + 10). rewrite (H1 10 ltac:(cbn; lia)). by vm_compute.
  - change 0x101068 with (paddr BootDemo.p2 + 0). rewrite (H2 0 ltac:(cbn; lia)). by vm_compute.
Defined.
End Boot.
